(* ===== verification/_CoqProject ===== *)
-Q . S2P
Prelude.v
UdTypes.v
UdInput.v
UdDecode.v
UdDecodeSafe.v
UdPrefix.v
UdSession.v
UdSyntax.v
Udis86.v
UdText.v
UdProps.v
Probe.v
PropertyTable.v
PropertyTableProof.v
StructureTable.v
TableProps.v
Ctype.v
Yarr.v
YarrProof.v
YarrSim.v
YarrProps.v
YarrCanonicalize.v
YarrCase.v
YarrClass.v
YarrClassProof.v
ClassProps.v
YarrPattern.v
YarrMatch.v
YarrRegex.v
YarrMatchProof.v
YarrTree.v
YarrBuild.v
YarrSyntax.v
YarrCounts.v
YarrConstruct.v
YarrAnchor.v
YarrOffsets.v
YarrCompile.v
YarrTerminal.v
PatternProps.v
StringHasher.v
Utf8.v
Utf8Proof.v
Utf8Hash.v
TextProps.v
AssemblerBuffer.v
X86Formatter.v
X86Assembler.v
X86Calls.v
X86Link.v
X86LinkProof.v
X86Decode.v
X86Patch.v
AsmProps.v
Double.v
JSValue.v
JSNumber.v
JSProps.v
RBTree.v
RBRepr.v
RBInsert.v
RBRemove.v
RBFind.v
RBProps.v
TreeLaws.v
MetaAllocator.v
MetaLayout.v
MetaFree.v
MetaPages.v
MetaProof.v
AllocProps.v
