(* ===== verification/Prelude.v ===== *)
(** * Verification of JavaScriptCore-iOS

    JavaScriptCore is the JavaScript engine of WebKit and WTF the library of
    containers, strings and numbers under it.  This development models parts of
    both by shallow embedding and proves what makes them correct.  Code with
    effects is a function of the state monad with faults [M] of this file: a
    fault is an access outside an array, a failed assertion, undefined
    behaviour of C or an exhausted fuel, so a theorem that a run ends in [Ok]
    excludes all of them.  Machine integers are [Z] with the wrap-around
    written out ([u8], [u32], [s32], ...).

    ** The parts of the program and the files

    - This file, [Prelude]: machine integers, the monad and its weakest
      preconditions ([wp], [wp_step]), record update, arrays, automation
      ([zbool], [zlia]) and the lemmas the components share.

    - The disassembler, JavaScriptCore/disassembler/udis86.  [UdTypes]: the
      enumerations, bit macros, operand union and [struct ud] of
      udis86_types.h and udis86_decode.h.  [UdInput]: the byte cache of
      udis86_input.c and its refinement by a cursor over the input.
      [UdDecode]: udis86_decode.c, from the prefix loop over the opcode tables
      and operands to [ud_decode].  [UdDecodeSafe]: decoding is safe and
      bounded.  [UdPrefix]: what the prefix loop consumes.  [UdSession]: the
      session buffer, the hex dump and [ud_decode] as a whole.  [UdSyntax]:
      [mkasm] and the Intel and AT&T translators of udis86_syn*.c.
      [Udis86]: udis86.c and the loop of UDis86Disassembler.cpp.  [UdText]:
      the text buffer.  [UdProps]: the properties C1 to C5.  The tables that
      itab.py generates at build time are not under src/: they are the class
      [Itab] of [UdDecode], with what the decoder relies on in [ItabOk].

    - Objects' property storage, JavaScriptCore/runtime.  [Probe]: the second
      hash of wtf/HashTable.h and the powers of two.  [PropertyTable]: the
      hash table of PropertyMapHashTable.h and PropertyTable.cpp and the
      offsets of PropertyOffset.h; a key is the address of a string, with its
      reference count in the state.  [PropertyTableProof]: the table
      implements an insertion-ordered association list.  [StructureTable]:
      the operations of Structure.cpp that allocate and release storage
      offsets, over the interface [PropertyMap] which the table implements.
      [TableProps]: C6 to C10.

    - Regular expressions, JavaScriptCore/yarr.  [Ctype]: wtf/ASCIICType.h.
      [Yarr]: the parser of YarrParser.h over a delegate, which is the type
      class [Delegate], and the syntax checker of YarrSyntaxChecker.cpp.
      [YarrProof]: safety, termination and the delegate's protocol as an
      automaton over the calls.  [YarrSim]: homomorphisms of delegates and the
      independence of the limit of back references.  [YarrCounts]: what the
      calls of a parse count.  [YarrProps]: C11 and C12.  [YarrCanonicalize]: the tables and
      functions of YarrCanonicalizeUCS2.cpp and .h, which say what characters
      are equal if case is ignored.  [YarrCase]: the classes of the table.
      [YarrClass]: [CharacterClassConstructor] of YarrPattern.cpp and the test
      of a character against a class of YarrInterpreter.cpp.
      [YarrClassProof]: sorted vectors, and what each operation adds.
      [ClassProps]: C13 and C14.

    - Patterns, JavaScriptCore/yarr/YarrPattern.h and .cpp.  [YarrPattern]: the
      tree of terms; [YarrPatternConstructor], an instance of [Delegate] whose
      pointer into the tree is a zipper; [YarrPattern::compile], which is
      [compilePattern], and its passes.  [YarrMatch]: the matches of a tree as
      the ordered list of results of a backtracking matcher, and the search with
      it ([exec]).  This is what a tree means, not the code of the matchers,
      which run it with the positions, frames and marks in the tree; only two of
      their steps in YarrInterpreter.cpp are modelled, the one that moves a
      match to the borders of its lines, and the loop of terminal parentheses
      ([exec_committed]).  [YarrRegex]: the abstract
      syntax of patterns, the calls the parser makes for it, and its meaning
      and search after ECMA-262 5.1, 15.10.2 ([find_first]).  [YarrSyntax]:
      the calls of a parse are those of an abstract pattern.
      [YarrMatchProof], [YarrTree]: what a match may change, copies, flags.
      [YarrBuild], [YarrConstruct]: the constructor on the calls of an abstract
      pattern, and of any parse.  [YarrAnchor]: [optimizeBOL].  [YarrOffsets]:
      [setupOffsets].  [YarrCompile]: all passes.  [YarrTerminal]: what
      [checkForTerminalParentheses] marks.  [PatternProps]: C15 to C18.

    - Text, WTF/wtf and WTF/wtf/unicode.  [StringHasher]: the incremental hash
      of wtf/StringHasher.h, all its ways of adding characters.  [Utf8]: the
      conversions, the validation, the hash and the comparisons of
      wtf/unicode/UTF8.cpp with the surrogate macros of ICU's headers, and the
      key of a table lookup by UTF-8 text of AtomicString.h and .cpp, with the
      new string that is made of it (StringImpl.h).  [Utf8Proof]: the encodings
      of scalar values by division; the sequences a decoder accepts are these
      and two irregular families, and the loops copy them one by one.
      [Utf8Hash]: hash and comparison of a text agree with those of its UTF-16
      form.  [TextProps]: C19 to C24.

    - The x86 assembler, JavaScriptCore/assembler.  [AssemblerBuffer]: the
      growing buffer of AssemblerBuffer.h; a byte of the storage that was never
      written is [None], and reading it is a fault.  [X86Formatter]: the
      registers, opcodes and the [X86InstructionFormatter] of X86Assembler.h,
      each method with the bytes it appends.  [X86Assembler]: the instruction
      methods.  [X86Calls]: a call of any of them as a datum, what arguments it
      accepts and how long its encoding is.  [X86Link]: labels, alignment,
      linking, and the methods that patch code in memory, which is a region of
      bytes at a base address.  [X86LinkProof]: the assembler's invariant over
      sequences of methods.  [X86Decode]: the decoder of [UdDecode] on the
      bytes of the formatter.  [X86Patch]: stores to memory and what they
      restore.  [AsmProps]: C25 to C29.  The class [Target] is the build's
      CPU(X86_64): the definitions are of both builds.

    - JavaScript values, JavaScriptCore/runtime/JSCJSValue*.  [Double]: IEEE
      doubles as their 64 bits, the conversions of C++ from and to integers
      (what an out-of-range conversion yields is a parameter), and [toInt32].
      [JSValue]: the two layouts of a value, USE(JSVALUE64) as module [V64] and
      USE(JSVALUE32_64) as [V32], both instances of the interface
      [JSEncoding] with the laws [JSEncodingOk].  [JSNumber]: constructors
      from machine numbers, conversions and strict equality over the
      interface; what they ask of cells is the class [JSCells].  [JSProps]:
      C30 to C32.

    - The allocator of executable memory, WTF/wtf/MetaAllocator.cpp, .h and
      MetaAllocatorHandle.h, over the red-black trees of RedBlackTree.h.
      [RBTree]: the tree as code, nodes in a heap that belong to its user,
      links, and the parent's address and the colour in one word.  [RBRepr]:
      the tree a heap represents, seen from any of its nodes, and the changes
      of links.  [RBInsert], [RBRemove], [RBFind]: insertion, removal,
      searches and walks, against a list sorted by key.  [RBProps]: C33 to C35.
      [TreeLaws]: the interface [OrderedTree], what a user of a tree relies on,
      and its instance.  [MetaAllocator]: the allocator, its handles, its
      tracker, and the fixed pool of jit/ExecutableAllocatorFixedVMPool.cpp.
      The addresses of new nodes and handles and the new pages of an operation
      are the record [external]; the notifications that commit pages are a
      trace.  [MetaLayout]: blocks of address space without data structures.
      [MetaFree], [MetaPages], [MetaProof]: free space, pages and the
      operations, over any tree with the laws.  [AllocProps]: the states the
      allocator reaches, C36 to C40, and two corners where it fails.

    ** What the theorems show

    C1 to C3: disassembling a block ends, cuts it into consecutive
    instructions at the addresses printed, touches no memory outside the
    tables, the cache and the session, and consumes exactly the maximal run
    of prefixes.  C4: the byte cache behaves as a cursor over the input; moving
    back and reading again and the order of the wide reads have theorems beside
    it.  C5: the text buffer holds the concatenation of the pieces up to its
    bound; the agreement of operand and address sizes and the text of branch
    targets have theorems beside it.  The limits of these theorems are the
    limits of the code: the hex dump overflows beyond 15 bytes and the text
    buffer beyond 64 characters.

    C6 to C9: all sequences of additions, deletions and copies of a property
    table behave as on an ordered map, probing ends, references are counted.
    C10: over any table with the interface's laws, a structure's offsets stay
    distinct and consistent.  Probe sequences and the sizes of the index have
    theorems beside them.

    C11: the regular expression parser returns on every pattern, within the
    pattern, and obeys the protocol its delegates rely on.  C12: its
    verdict depends on the pattern only, not on the delegate or the limit of
    back references; unicode escapes and numbers have theorems beside them.
    C13: the table of case makes an equivalence of all code units, and the
    search in it is exact.  C14: a character class matches exactly the
    characters that were put into it, and those equal to them if case is
    ignored.

    C15: the parses of [YarrPattern::compile] build a tree that matches what
    the pattern means.  C16: the passes over it keep what a search finds, on
    the patterns they are made for; beside it is a theorem with patterns on
    which they do not.  C17: the minimum sizes they compute are lower bounds.
    C18: which parentheses are marked as terminal, and that nothing is lost by
    not going back into them.  The trees of C16
    are at most half of what 32-bit positions and frames hold, which [weight]
    measures; a quantifier may copy its atom, so a pattern's tree may be
    exponential in the depth of its quantifiers.

    C19 to C21: the conversions between UTF-8 and UTF-16 consume and
    produce exactly the encodings of scalar values up to the first sequence
    that is none, with the code's verdict on it, and are inverse to each other;
    the lenient mode of the decoder is no different from the strict one.
    C22: the two kinds of sequences that are read although they are illegal.
    C23: a lookup by UTF-8 text compares and hashes as the string that has these
    characters, and makes it if it is new.  C24:
    the hash depends only on the characters, not on the calls that added
    them or on the width of their representation.

    C25 and C26: every sequence of the assembler's methods stays within the
    buffer and keeps jump targets out of watchpoints; that instructions are
    encoded independently of each other has a theorem beside them.  C27: the
    disassembler of the first part reads
    back the register, memory and displacement operands that the formatter
    wrote.  C28 and C29: linked jumps reach their targets, and a jump
    over an instruction is undone exactly; the exchange of a load with its
    address and what [align] guarantees have theorems beside them.

    C30: in both layouts the type tests and accessors of values are exact and
    values are told apart.  C31: however a number is made it has one
    representation, which gives it back bit for bit; strict equality of
    numbers is that of IEEE.  C32: [toInt32] computes ECMA-262's ToInt32.

    C33 to C35: every sequence of insertions and removals keeps a red-black
    tree a sorted list of the user's nodes, its searches find what they are
    named after, within a logarithmic number of rounds.  C36 to C38: whatever
    sequence of operations led to a state of the allocator, handles never
    overlap, no byte is lost, free blocks are merged, the counters and the
    committed pages are exact, and no assertion fails.  C39 and C40: requests
    are served from the best fit as long as anything fits, and a pool that is
    given back is one block again; the tracker finding handles by address has a
    theorem beside them.

    ** Bounds and fuel

    Every loop of the code that is not structural has a fuel, and each fuel is
    proved sufficient as part of the theorem that the loop's function returns:
    15 rounds for prefixes (the code's own MAX_INSN_LENGTH), the depth of the
    lookup tables for extensions, the index size for probing (one full cycle of
    the double hash), the length of the pattern plus one for the regular
    expression parser, the lengths of source and target for the text
    conversions, the bytes up to the end of the last watchpoint for the padding
    of a label and the alignment for the padding of [align], the entries of the
    case table for the search in it and the walk along it, the length of a
    vector for the search in it, one more than the
    number of nodes for every walk in a red-black tree, the number of pages of a
    block for the loops over pages, the rest of the input for the repetitions
    and the search of a match, none of whose further iterations is empty.  Code is bounded by
    [maxCodeSize], 2^29 bytes: a buffer of that size still grows by half within
    a signed 32-bit index.  Lengths that the code assumes to fit its integers are
    hypotheses of the theorems, with witnesses.  The blocks of the allocator
    stay off the first page, whose number is no key of a hash map, and off the
    last one, where the rounding of [shrink] wraps around.

    ** What is not modelled

    The compilers (jit, dfg, ftl), the macro assemblers, the link buffer and
    the assemblers of the other processors, the interpreters (llint,
    offlineasm, interpreter), the JavaScript parser and the bytecode compiler,
    the heap and its collector, the runtime library beyond property storage
    and the representation of values, the matchers of regular expressions
    (YarrInterpreter, YarrJIT), the inspector, the C API, most of WTF (among it
    FastMalloc, threads, and the reservation of pages), ICU and the tests.  Of
    the allocator's handles the reference counts, of [Structure] the
    transitions and the materialization of tables, of [YarrPattern] the vectors
    that own disjunctions and classes are left out.  The classes \d, \s, \w and
    their complements are generated at build time: they are the class
    [BuiltInClasses], with what the constructor relies on in
    [BuiltInClassesOk]. *)

From stdpp Require Import base numbers list strings gmap.

#[local] Open Scope Z_scope.

(** ** Machine integers

    A [w]-bit unsigned integer is a [Z] in [0, 2^w); [uwrap w] is the
    conversion C performs when a value is stored into it, [swrap w] reads the
    same bits as a two's complement signed integer. *)


Definition uwrap (w x : Z) : Z := x `mod` 2 ^ w.
Definition swrap (w x : Z) : Z :=
  let y := x `mod` 2 ^ w in if y <? 2 ^ (w - 1) then y else y - 2 ^ w.

Definition u8 (x : Z) : Z := uwrap 8 x.
Definition u16 (x : Z) : Z := uwrap 16 x.
Definition u32 (x : Z) : Z := uwrap 32 x.
Definition u64 (x : Z) : Z := uwrap 64 x.
Definition s8 (x : Z) : Z := swrap 8 x.
Definition s16 (x : Z) : Z := swrap 16 x.
Definition s32 (x : Z) : Z := swrap 32 x.
Definition s64 (x : Z) : Z := swrap 64 x.

(** C's truth value of an integer. *)
Definition truthy (x : Z) : bool := negb (x =? 0).

Definition b2z (b : bool) : Z := if b then 1 else 0.

(** ** Results and a state monad with faults

    A computation over the state [S] either returns a value and a new state
    or stops with a fault of type [E]: the model's rendering of undefined
    behaviour (an access outside an array), of a failed assertion and of an
    exhausted fuel. *)

Inductive res (E A : Type) : Type :=
  | Ok (a : A)
  | Err (e : E).
Arguments Ok {E A} a.
Arguments Err {E A} e.

Definition M (E S A : Type) : Type := S -> res E (A * S).

#[global] Instance M_ret {E S} : MRet (M E S) := fun A a s => Ok (a, s).
#[global] Instance M_bind {E S} : MBind (M E S) := fun A B f m s =>
  match m s with
  | Ok (a, s') => f a s'
  | Err e => Err e
  end.

Definition mget {E S} : M E S S := fun s => Ok (s, s).
Definition mgets {E S A} (f : S -> A) : M E S A := fun s => Ok (f s, s).
Definition mput {E S} (s : S) : M E S unit := fun _ => Ok (tt, s).
Definition mmod {E S} (f : S -> S) : M E S unit := fun s => Ok (tt, f s).
Definition mfail {E S A} (e : E) : M E S A := fun _ => Err e.
Definition mwhen {E S} (b : bool) (m : M E S unit) : M E S unit :=
  if b then m else mret tt.

(** The function [f] applied to a value [n] times, in the monad. *)
Fixpoint mrepeat {E S} (n : nat) (m : M E S unit) : M E S unit :=
  match n with
  | O => mret tt
  | S n' => m ;; mrepeat n' m
  end.

(** Weakest precondition: [m] runs from [s] without a fault and ends in [Q]. *)
Definition wp {E S A} (m : M E S A) (s : S) (Q : A -> S -> Prop) : Prop :=
  match m s with
  | Ok (a, s') => Q a s'
  | Err _ => False
  end.

(** Partial version: if [m] runs without a fault it ends in [Q]. *)
Definition wlp {E S A} (m : M E S A) (s : S) (Q : A -> S -> Prop) : Prop :=
  match m s with
  | Ok (a, s') => Q a s'
  | Err _ => True
  end.

(** ** Record update

    [r <| p := v |>] is [r] with the field [p] set to [v]; [Upd p] is the
    update function of the field, built from the record's eta expansion. *)

Class Upd {R T : Type} (p : R -> T) := upd : (T -> T) -> R -> R.
#[global] Arguments upd {R T} p {Upd} f r : assert.

Ltac mk_upd eta p :=
  let e := eval cbv beta delta [eta] in eta in
  let e' := eval pattern p in e in
  match e' with
  | ?F p => exact (fun f => F (fun r => f (p r)))
  end.

Notation "r <| p := v |>" := (upd p (fun _ => v) r)
  (at level 1, left associativity, p at level 0, v at level 99,
   format "r  <| p  :=  v |>").

(** ** Arrays

    A C array is a list; reading or writing outside it is a fault. *)

Definition aget {A} (l : list A) (i : Z) : option A :=
  if i <? 0 then None else l !! Z.to_nat i.
Definition aset {A} (l : list A) (i : Z) (x : A) : option (list A) :=
  if (0 <=? i) && (i <? Z.of_nat (length l)) then Some (<[Z.to_nat i := x]> l) else None.

(** The first [n] elements of an array that has that many. *)
Definition atake {A} (l : list A) (n : Z) : option (list A) :=
  if n <=? Z.of_nat (length l) then Some (take (Z.to_nat n) l) else None.

(** Little-endian bytes: the [n] low bytes of a number, and the number a list
    of bytes makes. *)
Fixpoint le_bytes (n : nat) (v : Z) : list Z :=
  match n with
  | O => []
  | S n' => u8 v :: le_bytes n' (Z.shiftr v 8)
  end.

Fixpoint le_combine (cs : list Z) : Z :=
  match cs with
  | [] => 0
  | c :: cs' => c + 256 * le_combine cs'
  end.

Definition of_opt {E S A} (e : E) (o : option A) : M E S A :=
  match o with
  | Some a => mret a
  | None => mfail e
  end.

(** ** Automation

    [zbool] turns the boolean tests of the code into propositions, in the
    hypotheses; [zlia] is [lia] after it. *)

Ltac zbool_step :=
  match goal with
  | H : negb _ = true |- _ => apply negb_true_iff in H
  | H : negb _ = false |- _ => apply negb_false_iff in H
  | H : _ && _ = true |- _ => apply andb_true_iff in H as [? ?]
  | H : _ || _ = false |- _ => apply orb_false_iff in H as [? ?]
  | H : truthy _ = true |- _ => unfold truthy in H
  | H : truthy _ = false |- _ => unfold truthy in H
  | H : (_ <? _) = true |- _ => apply Z.ltb_lt in H
  | H : (_ <? _) = false |- _ => apply Z.ltb_ge in H
  | H : (_ <=? _) = true |- _ => apply Z.leb_le in H
  | H : (_ <=? _) = false |- _ => apply Z.leb_gt in H
  | H : (_ =? _) = true |- _ => apply Z.eqb_eq in H
  | H : (_ =? _) = false |- _ => apply Z.eqb_neq in H
  | H : bool_decide _ = true |- _ => apply bool_decide_eq_true in H
  | H : bool_decide _ = false |- _ => apply bool_decide_eq_false in H
  end.
Ltac zbool := repeat zbool_step.
Ltac zlia := zbool; lia.

(** ** Lemmas on machine integers *)

Create HintDb machine.

Lemma uwrap_range w x : 0 <= w -> 0 <= uwrap w x < 2 ^ w.
Proof. intros. unfold uwrap. apply Z.mod_pos_bound. lia. Qed.

Lemma uwrap_id w x : 0 <= x < 2 ^ w -> uwrap w x = x.
Proof. intros. unfold uwrap. by apply Z.mod_small. Qed.

Lemma u8_range x : 0 <= u8 x < 256.
Proof. apply (uwrap_range 8). lia. Qed.
Lemma u16_range x : 0 <= u16 x < 65536.
Proof. apply (uwrap_range 16). lia. Qed.
Lemma u32_range x : 0 <= u32 x < 4294967296.
Proof. apply (uwrap_range 32). lia. Qed.
Lemma u64_range x : 0 <= u64 x < 18446744073709551616.
Proof. apply (uwrap_range 64). lia. Qed.

Lemma u8_id x : 0 <= x < 256 -> u8 x = x.
Proof. apply (uwrap_id 8). Qed.
Lemma u16_id x : 0 <= x < 65536 -> u16 x = x.
Proof. apply (uwrap_id 16). Qed.
Lemma u32_id x : 0 <= x < 4294967296 -> u32 x = x.
Proof. apply (uwrap_id 32). Qed.
Lemma u64_id x : 0 <= x < 18446744073709551616 -> u64 x = x.
Proof. apply (uwrap_id 64). Qed.

(** The bitwise or of two numbers with disjoint bits is their sum. *)
Lemma lor_shiftl_add a b k :
  0 <= k -> 0 <= a < 2 ^ k -> Z.lor a (Z.shiftl b k) = a + b * 2 ^ k.
Proof.
  intros Hk Ha. rewrite <- Z.shiftl_mul_pow2 by done.
  assert (Z.land a (Z.shiftl b k) = 0) as Hland.
  { apply Z.bits_inj'. intros n Hn. rewrite Z.land_spec, Z.bits_0.
    destruct (Z.ltb_spec n k).
    - rewrite (Z.shiftl_spec_low b k n) by lia. apply andb_false_r.
    - rewrite <- (Z.mod_small a (2 ^ k)), Z.mod_pow2_bits_high by lia. done. }
  by rewrite Z.add_nocarry_lxor, Z.lxor_lor.
Qed.

Lemma uwrap_lor_shiftl w a b k :
  0 <= k -> 0 <= a < 2 ^ k -> 0 <= b -> a + b * 2 ^ k < 2 ^ w ->
  uwrap w (Z.lor a (Z.shiftl b k)) = a + b * 2 ^ k.
Proof. intros. rewrite lor_shiftl_add by done. apply uwrap_id. lia. Qed.

(** Masking a 64-bit value leaves a 64-bit value. *)
Lemma land_u64 x m : 0 <= m < 18446744073709551616 -> u64 (Z.land x m) = Z.land x m.
Proof.
  intros Hm. unfold u64, uwrap. apply Z.bits_inj'. intros n Hn.
  destruct (Z.ltb_spec n 64); [by apply Z.mod_pow2_bits_low |].
  rewrite Z.mod_pow2_bits_high, Z.land_spec by lia.
  rewrite <- (Z.mod_small m (2 ^ 64)), Z.mod_pow2_bits_high by lia.
  symmetry. apply andb_false_r.
Qed.

#[export] Hint Resolve u8_range u16_range u32_range u64_range : machine.

(** ** Lemmas on the monad *)

Section monad.
Context {E S : Type}.

Lemma wp_ret {A} (a : A) (s : S) (Q : A -> S -> Prop) :
  Q a s -> wp (mret a : M E S A) s Q.
Proof. done. Qed.

Lemma wp_bind {A B} (m : M E S A) (f : A -> M E S B) s (Q : B -> S -> Prop) :
  wp m s (fun a s' => wp (f a) s' Q) -> wp (m ≫= f) s Q.
Proof. unfold wp, mbind, M_bind. destruct (m s) as [[a s']|]; done. Qed.

Lemma bind_ok {A B} (m : M E S A) (f : A -> M E S B) s a s' :
  m s = Ok (a, s') -> (m ≫= f) s = f a s'.
Proof. unfold mbind, M_bind. by intros ->. Qed.

Lemma bind_assoc_M {A B C} (m : M E S A) (f : A -> M E S B) (g : B -> M E S C) s (Q : C -> S -> Prop) :
  wp ((m ≫= f) ≫= g) s Q = wp (m ≫= fun a => f a ≫= g) s Q.
Proof. unfold wp, mbind, M_bind. by destruct (m s) as [[a s']|]. Qed.

Lemma wp_ret_r {A} (m : M E S A) s (Q : A -> S -> Prop) : wp (m ≫= mret) s Q -> wp m s Q.
Proof. unfold wp, mbind, M_bind. destruct (m s) as [[a s']|]; done. Qed.

Lemma wp_mono {A} (m : M E S A) s (P Q : A -> S -> Prop) :
  wp m s P -> (forall a s', P a s' -> Q a s') -> wp m s Q.
Proof. unfold wp. destruct (m s) as [[a s']|]; eauto. Qed.

Lemma wp_get s (Q : S -> S -> Prop) : Q s s -> wp (mget : M E S S) s Q.
Proof. done. Qed.

Lemma wp_gets {A} (f : S -> A) s (Q : A -> S -> Prop) :
  Q (f s) s -> wp (mgets f : M E S A) s Q.
Proof. done. Qed.

Lemma wp_mod (f : S -> S) s (Q : unit -> S -> Prop) :
  Q tt (f s) -> wp (mmod f : M E S unit) s Q.
Proof. done. Qed.

Lemma wp_when (b : bool) (m : M E S unit) s (Q : unit -> S -> Prop) :
  (b = true -> wp m s Q) -> (b = false -> Q tt s) -> wp (mwhen b m) s Q.
Proof. destruct b; [auto |]. intros _ H. by apply H. Qed.

Lemma wp_if {A} (b : bool) (m1 m2 : M E S A) s (Q : A -> S -> Prop) :
  (b = true -> wp m1 s Q) -> (b = false -> wp m2 s Q) -> wp (if b then m1 else m2) s Q.
Proof. destruct b; auto. Qed.

Lemma wp_of_opt {A} (e : E) (o : option A) s (Q : A -> S -> Prop) a :
  o = Some a -> Q a s -> wp (of_opt e o : M E S A) s Q.
Proof. intros -> ?. done. Qed.

Lemma wp_conj {A} (m : M E S A) s (P Q : A -> S -> Prop) :
  wp m s P -> wp m s Q -> wp m s (fun a s' => P a s' /\ Q a s').
Proof. unfold wp. destruct (m s) as [[a s']|]; auto. Qed.

Lemma wp_inv {A} (m : M E S A) s (Q : A -> S -> Prop) :
  wp m s Q -> exists a s', m s = Ok (a, s') /\ Q a s'.
Proof. unfold wp. destruct (m s) as [[a s']|] eqn:Hm; [eauto | done]. Qed.

Lemma wp_intro {A} (m : M E S A) s a s' (Q : A -> S -> Prop) :
  m s = Ok (a, s') -> Q a s' -> wp m s Q.
Proof. unfold wp. by intros ->. Qed.

End monad.

(** One step of symbolic execution in the monad. *)
Ltac wp_step :=
  lazymatch goal with
  | |- wp (mbind _ _) _ _ => apply wp_bind
  | |- wp (mret _) _ _ => apply wp_ret
  | |- wp (of_opt _ (Some _)) _ _ => apply wp_ret
  | |- wp (mgets _) _ _ => apply wp_gets
  | |- wp mget _ _ => apply wp_get
  | |- wp (mmod _) _ _ => apply wp_mod
  | |- wp (mwhen _ _) _ _ => apply wp_when; intros
  | |- wp (if _ then _ else _) _ _ => apply wp_if; intros
  end.
Ltac wp_steps := repeat wp_step.

(** ** Lemmas on lists and arrays *)

Lemma take_S_insert {A} (l : list A) k x :
  (k < length l)%nat -> take (S k) (<[k := x]> l) = take k l ++ [x].
Proof.
  intros. rewrite (take_S_r _ _ x) by (by apply list_lookup_insert_eq).
  by rewrite take_insert_ge by lia.
Qed.

Lemma filter_length_insert {A} (f : A -> bool) (l : list A) i x y :
  l !! i = Some x ->
  (length (List.filter f (<[i := y]> l)) + (if f x then 1 else 0)
   = length (List.filter f l) + (if f y then 1 else 0))%nat.
Proof.
  revert i. induction l as [|z l IH]; intros [|i] Hx; simplify_eq/=.
  - destruct (f x), (f y); simpl; lia.
  - specialize (IH i Hx). destruct (f z); simpl; lia.
Qed.

Section arrays.
Context {A : Type}.
Implicit Types (l : list A) (x : A) (i j : Z).

Lemma aget_Some l i x :
  aget l i = Some x <-> 0 <= i /\ l !! Z.to_nat i = Some x.
Proof. unfold aget. destruct (Z.ltb_spec i 0); split; [done | lia | auto | tauto]. Qed.

Lemma aget_is_Some l i : 0 <= i < Z.of_nat (length l) -> is_Some (aget l i).
Proof.
  intros. unfold aget. rewrite (proj2 (Z.ltb_ge i 0)) by lia.
  apply lookup_lt_is_Some. lia.
Qed.

Lemma aset_Some l i x :
  0 <= i < Z.of_nat (length l) -> aset l i x = Some (<[Z.to_nat i := x]> l).
Proof.
  intros. unfold aset.
  by rewrite (proj2 (Z.leb_le 0 i)), (proj2 (Z.ltb_lt i _)) by lia.
Qed.

Lemma aset_None l i x : aset l i x = None <-> ~ (0 <= i < Z.of_nat (length l)).
Proof.
  unfold aset. destruct (Z.leb_spec 0 i), (Z.ltb_spec i (Z.of_nat (length l)));
    simpl; split; (done || lia).
Qed.

Lemma aget_insert_eq l i x :
  0 <= i < Z.of_nat (length l) -> aget (<[Z.to_nat i := x]> l) i = Some x.
Proof. intros. apply aget_Some. split; [lia |]. apply list_lookup_insert_eq. lia. Qed.

Lemma aget_insert_ne l i j x :
  0 <= i -> 0 <= j -> i <> j -> aget (<[Z.to_nat i := x]> l) j = aget l j.
Proof.
  intros. unfold aget. destruct (Z.ltb_spec j 0); [done |].
  apply list_lookup_insert_ne. lia.
Qed.

End arrays.

(** ** Lemmas on little-endian bytes *)

Lemma length_le_bytes n v : length (le_bytes n v) = n.
Proof. revert v. induction n; intros; simpl; auto. Qed.

Lemma le_bytes_range n v : Forall (fun c => 0 <= c < 256) (le_bytes n v).
Proof. revert v. induction n; constructor; [apply u8_range | auto]. Qed.

Lemma le_combine_bytes n v : le_combine (le_bytes n v) = v `mod` 2 ^ (8 * Z.of_nat n).
Proof.
  revert v. induction n as [|n IH]; intros v; [by rewrite Z.mod_1_r |].
  cbn [le_bytes le_combine]. rewrite IH, Z.shiftr_div_pow2 by lia. unfold u8, uwrap.
  replace (8 * Z.of_nat (S n)) with (8 + 8 * Z.of_nat n) by lia.
  rewrite Z.pow_add_r, Z.rem_mul_r by lia. change (2 ^ 8) with 256. lia.
Qed.
