(* ===== verification/UdTypes.v ===== *)
(** * udis86: data types

    The enumerations, structures and bit macros of [udis86_types.h] and
    [udis86_decode.h].  [struct ud] is the record [ud]; the fields the input
    system owns (and the [error] flag, which it sets) are grouped in the
    record [ud_inp].  What the build generates from [optable.xml] (mnemonic
    codes, instruction table, lookup tables, mnemonic strings) is the class
    [Itab], a parameter of every definition that uses it. *)

From stdpp Require Import base numbers list strings.
From S2P Require Import Prelude.

#[local] Open Scope Z_scope.

(** ** enum ud_type: registers and operand kinds, used as integers *)

Inductive ud_type :=
  | UD_NONE | UD_R_AL | UD_R_CL | UD_R_DL | UD_R_BL | UD_R_AH | UD_R_CH
  | UD_R_DH | UD_R_BH | UD_R_SPL | UD_R_BPL | UD_R_SIL | UD_R_DIL | UD_R_R8B
  | UD_R_R9B | UD_R_R10B | UD_R_R11B | UD_R_R12B | UD_R_R13B | UD_R_R14B
  | UD_R_R15B | UD_R_AX | UD_R_CX | UD_R_DX | UD_R_BX | UD_R_SP | UD_R_BP
  | UD_R_SI | UD_R_DI | UD_R_R8W | UD_R_R9W | UD_R_R10W | UD_R_R11W
  | UD_R_R12W | UD_R_R13W | UD_R_R14W | UD_R_R15W | UD_R_EAX | UD_R_ECX
  | UD_R_EDX | UD_R_EBX | UD_R_ESP | UD_R_EBP | UD_R_ESI | UD_R_EDI
  | UD_R_R8D | UD_R_R9D | UD_R_R10D | UD_R_R11D | UD_R_R12D | UD_R_R13D
  | UD_R_R14D | UD_R_R15D | UD_R_RAX | UD_R_RCX | UD_R_RDX | UD_R_RBX
  | UD_R_RSP | UD_R_RBP | UD_R_RSI | UD_R_RDI | UD_R_R8 | UD_R_R9 | UD_R_R10
  | UD_R_R11 | UD_R_R12 | UD_R_R13 | UD_R_R14 | UD_R_R15 | UD_R_ES | UD_R_CS
  | UD_R_SS | UD_R_DS | UD_R_FS | UD_R_GS | UD_R_CR0 | UD_R_CR1 | UD_R_CR2
  | UD_R_CR3 | UD_R_CR4 | UD_R_CR5 | UD_R_CR6 | UD_R_CR7 | UD_R_CR8
  | UD_R_CR9 | UD_R_CR10 | UD_R_CR11 | UD_R_CR12 | UD_R_CR13 | UD_R_CR14
  | UD_R_CR15 | UD_R_DR0 | UD_R_DR1 | UD_R_DR2 | UD_R_DR3 | UD_R_DR4
  | UD_R_DR5 | UD_R_DR6 | UD_R_DR7 | UD_R_DR8 | UD_R_DR9 | UD_R_DR10
  | UD_R_DR11 | UD_R_DR12 | UD_R_DR13 | UD_R_DR14 | UD_R_DR15 | UD_R_MM0
  | UD_R_MM1 | UD_R_MM2 | UD_R_MM3 | UD_R_MM4 | UD_R_MM5 | UD_R_MM6
  | UD_R_MM7 | UD_R_ST0 | UD_R_ST1 | UD_R_ST2 | UD_R_ST3 | UD_R_ST4
  | UD_R_ST5 | UD_R_ST6 | UD_R_ST7 | UD_R_XMM0 | UD_R_XMM1 | UD_R_XMM2
  | UD_R_XMM3 | UD_R_XMM4 | UD_R_XMM5 | UD_R_XMM6 | UD_R_XMM7 | UD_R_XMM8
  | UD_R_XMM9 | UD_R_XMM10 | UD_R_XMM11 | UD_R_XMM12 | UD_R_XMM13
  | UD_R_XMM14 | UD_R_XMM15 | UD_R_RIP | UD_OP_REG | UD_OP_MEM | UD_OP_PTR
  | UD_OP_IMM | UD_OP_JIMM | UD_OP_CONST.

Definition ud_type_code (t : ud_type) : Z :=
  match t with
  | UD_NONE => 0 | UD_R_AL => 1 | UD_R_CL => 2 | UD_R_DL => 3 | UD_R_BL => 4
  | UD_R_AH => 5 | UD_R_CH => 6 | UD_R_DH => 7 | UD_R_BH => 8
  | UD_R_SPL => 9 | UD_R_BPL => 10 | UD_R_SIL => 11 | UD_R_DIL => 12
  | UD_R_R8B => 13 | UD_R_R9B => 14 | UD_R_R10B => 15 | UD_R_R11B => 16
  | UD_R_R12B => 17 | UD_R_R13B => 18 | UD_R_R14B => 19 | UD_R_R15B => 20
  | UD_R_AX => 21 | UD_R_CX => 22 | UD_R_DX => 23 | UD_R_BX => 24
  | UD_R_SP => 25 | UD_R_BP => 26 | UD_R_SI => 27 | UD_R_DI => 28
  | UD_R_R8W => 29 | UD_R_R9W => 30 | UD_R_R10W => 31 | UD_R_R11W => 32
  | UD_R_R12W => 33 | UD_R_R13W => 34 | UD_R_R14W => 35 | UD_R_R15W => 36
  | UD_R_EAX => 37 | UD_R_ECX => 38 | UD_R_EDX => 39 | UD_R_EBX => 40
  | UD_R_ESP => 41 | UD_R_EBP => 42 | UD_R_ESI => 43 | UD_R_EDI => 44
  | UD_R_R8D => 45 | UD_R_R9D => 46 | UD_R_R10D => 47 | UD_R_R11D => 48
  | UD_R_R12D => 49 | UD_R_R13D => 50 | UD_R_R14D => 51 | UD_R_R15D => 52
  | UD_R_RAX => 53 | UD_R_RCX => 54 | UD_R_RDX => 55 | UD_R_RBX => 56
  | UD_R_RSP => 57 | UD_R_RBP => 58 | UD_R_RSI => 59 | UD_R_RDI => 60
  | UD_R_R8 => 61 | UD_R_R9 => 62 | UD_R_R10 => 63 | UD_R_R11 => 64
  | UD_R_R12 => 65 | UD_R_R13 => 66 | UD_R_R14 => 67 | UD_R_R15 => 68
  | UD_R_ES => 69 | UD_R_CS => 70 | UD_R_SS => 71 | UD_R_DS => 72
  | UD_R_FS => 73 | UD_R_GS => 74 | UD_R_CR0 => 75 | UD_R_CR1 => 76
  | UD_R_CR2 => 77 | UD_R_CR3 => 78 | UD_R_CR4 => 79 | UD_R_CR5 => 80
  | UD_R_CR6 => 81 | UD_R_CR7 => 82 | UD_R_CR8 => 83 | UD_R_CR9 => 84
  | UD_R_CR10 => 85 | UD_R_CR11 => 86 | UD_R_CR12 => 87 | UD_R_CR13 => 88
  | UD_R_CR14 => 89 | UD_R_CR15 => 90 | UD_R_DR0 => 91 | UD_R_DR1 => 92
  | UD_R_DR2 => 93 | UD_R_DR3 => 94 | UD_R_DR4 => 95 | UD_R_DR5 => 96
  | UD_R_DR6 => 97 | UD_R_DR7 => 98 | UD_R_DR8 => 99 | UD_R_DR9 => 100
  | UD_R_DR10 => 101 | UD_R_DR11 => 102 | UD_R_DR12 => 103
  | UD_R_DR13 => 104 | UD_R_DR14 => 105 | UD_R_DR15 => 106 | UD_R_MM0 => 107
  | UD_R_MM1 => 108 | UD_R_MM2 => 109 | UD_R_MM3 => 110 | UD_R_MM4 => 111
  | UD_R_MM5 => 112 | UD_R_MM6 => 113 | UD_R_MM7 => 114 | UD_R_ST0 => 115
  | UD_R_ST1 => 116 | UD_R_ST2 => 117 | UD_R_ST3 => 118 | UD_R_ST4 => 119
  | UD_R_ST5 => 120 | UD_R_ST6 => 121 | UD_R_ST7 => 122 | UD_R_XMM0 => 123
  | UD_R_XMM1 => 124 | UD_R_XMM2 => 125 | UD_R_XMM3 => 126
  | UD_R_XMM4 => 127 | UD_R_XMM5 => 128 | UD_R_XMM6 => 129
  | UD_R_XMM7 => 130 | UD_R_XMM8 => 131 | UD_R_XMM9 => 132
  | UD_R_XMM10 => 133 | UD_R_XMM11 => 134 | UD_R_XMM12 => 135
  | UD_R_XMM13 => 136 | UD_R_XMM14 => 137 | UD_R_XMM15 => 138
  | UD_R_RIP => 139 | UD_OP_REG => 140 | UD_OP_MEM => 141 | UD_OP_PTR => 142
  | UD_OP_IMM => 143 | UD_OP_JIMM => 144 | UD_OP_CONST => 145
  end.

Coercion ud_type_code : ud_type >-> Z.

(** ** enum ud_operand_code and enum ud_operand_size *)

Inductive ud_operand_code :=
  | OP_NONE | OP_A | OP_E | OP_M | OP_G | OP_I | OP_AL | OP_CL | OP_DL
  | OP_BL | OP_AH | OP_CH | OP_DH | OP_BH | OP_ALr8b | OP_CLr9b | OP_DLr10b
  | OP_BLr11b | OP_AHr12b | OP_CHr13b | OP_DHr14b | OP_BHr15b | OP_AX
  | OP_CX | OP_DX | OP_BX | OP_SI | OP_DI | OP_SP | OP_BP | OP_rAX | OP_rCX
  | OP_rDX | OP_rBX | OP_rSP | OP_rBP | OP_rSI | OP_rDI | OP_rAXr8
  | OP_rCXr9 | OP_rDXr10 | OP_rBXr11 | OP_rSPr12 | OP_rBPr13 | OP_rSIr14
  | OP_rDIr15 | OP_eAX | OP_eCX | OP_eDX | OP_eBX | OP_eSP | OP_eBP | OP_eSI
  | OP_eDI | OP_ES | OP_CS | OP_SS | OP_DS | OP_FS | OP_GS | OP_ST0 | OP_ST1
  | OP_ST2 | OP_ST3 | OP_ST4 | OP_ST5 | OP_ST6 | OP_ST7 | OP_J | OP_S | OP_O
  | OP_I1 | OP_I3 | OP_V | OP_W | OP_Q | OP_P | OP_R | OP_C | OP_D | OP_VR
  | OP_PR | OP_MR.

Definition ud_operand_code_code (t : ud_operand_code) : Z :=
  match t with
  | OP_NONE => 0 | OP_A => 1 | OP_E => 2 | OP_M => 3 | OP_G => 4 | OP_I => 5
  | OP_AL => 6 | OP_CL => 7 | OP_DL => 8 | OP_BL => 9 | OP_AH => 10
  | OP_CH => 11 | OP_DH => 12 | OP_BH => 13 | OP_ALr8b => 14
  | OP_CLr9b => 15 | OP_DLr10b => 16 | OP_BLr11b => 17 | OP_AHr12b => 18
  | OP_CHr13b => 19 | OP_DHr14b => 20 | OP_BHr15b => 21 | OP_AX => 22
  | OP_CX => 23 | OP_DX => 24 | OP_BX => 25 | OP_SI => 26 | OP_DI => 27
  | OP_SP => 28 | OP_BP => 29 | OP_rAX => 30 | OP_rCX => 31 | OP_rDX => 32
  | OP_rBX => 33 | OP_rSP => 34 | OP_rBP => 35 | OP_rSI => 36 | OP_rDI => 37
  | OP_rAXr8 => 38 | OP_rCXr9 => 39 | OP_rDXr10 => 40 | OP_rBXr11 => 41
  | OP_rSPr12 => 42 | OP_rBPr13 => 43 | OP_rSIr14 => 44 | OP_rDIr15 => 45
  | OP_eAX => 46 | OP_eCX => 47 | OP_eDX => 48 | OP_eBX => 49 | OP_eSP => 50
  | OP_eBP => 51 | OP_eSI => 52 | OP_eDI => 53 | OP_ES => 54 | OP_CS => 55
  | OP_SS => 56 | OP_DS => 57 | OP_FS => 58 | OP_GS => 59 | OP_ST0 => 60
  | OP_ST1 => 61 | OP_ST2 => 62 | OP_ST3 => 63 | OP_ST4 => 64 | OP_ST5 => 65
  | OP_ST6 => 66 | OP_ST7 => 67 | OP_J => 68 | OP_S => 69 | OP_O => 70
  | OP_I1 => 71 | OP_I3 => 72 | OP_V => 73 | OP_W => 74 | OP_Q => 75
  | OP_P => 76 | OP_R => 77 | OP_C => 78 | OP_D => 79 | OP_VR => 80
  | OP_PR => 81 | OP_MR => 82
  end.

Coercion ud_operand_code_code : ud_operand_code >-> Z.

Inductive ud_operand_size :=
  | SZ_NA | SZ_Z | SZ_V | SZ_P | SZ_WP | SZ_DP | SZ_MDQ | SZ_RDQ
  | SZ_B | SZ_W | SZ_D | SZ_Q | SZ_T | SZ_O | SZ_WV | SZ_BV | SZ_DY.

Definition ud_operand_size_code (s : ud_operand_size) : Z :=
  match s with
  | SZ_NA => 0 | SZ_Z => 1 | SZ_V => 2 | SZ_P => 3 | SZ_WP => 4 | SZ_DP => 5
  | SZ_MDQ => 6 | SZ_RDQ => 7
  | SZ_B => 8 | SZ_W => 16 | SZ_D => 32 | SZ_Q => 64 | SZ_T => 80 | SZ_O => 128
  | SZ_WV => 17 | SZ_BV => 18 | SZ_DY => 19
  end.

Coercion ud_operand_size_code : ud_operand_size >-> Z.

#[global] Instance ud_operand_size_eq_dec : EqDecision ud_operand_size.
Proof. solve_decision. Defined.

(** ** Constants and bit macros of [udis86_decode.h] *)

Definition MAX_INSN_LENGTH : Z := 15.

(** Register classes. *)
Inductive reg_class := T_NONE | T_GPR | T_MMX | T_CRG | T_DBG | T_SEG | T_XMM.

(** Bit [k] of an instruction-table prefix word. *)
Definition pfx_bit (k n : Z) : Z := Z.land (Z.shiftr n k) 1.

Definition P_C1 : Z -> Z := pfx_bit 0.
Definition P_REXB : Z -> Z := pfx_bit 1.
Definition P_DEPM : Z -> Z := pfx_bit 2.
Definition P_C3 : Z -> Z := pfx_bit 3.
Definition P_INV64 : Z -> Z := pfx_bit 4.
Definition P_REXW : Z -> Z := pfx_bit 5.
Definition P_C2 : Z -> Z := pfx_bit 6.
Definition P_DEF64 : Z -> Z := pfx_bit 7.
Definition P_REXR : Z -> Z := pfx_bit 8.
Definition P_OSO : Z -> Z := pfx_bit 9.
Definition P_ASO : Z -> Z := pfx_bit 10.
Definition P_REXX : Z -> Z := pfx_bit 11.
Definition P_IMPADDR : Z -> Z := pfx_bit 12.
Definition P_SEG : Z -> Z := pfx_bit 13.
Definition P_SEXT : Z -> Z := pfx_bit 14.

(** REX prefix bits. *)
Definition REX_W (r : Z) : Z := Z.shiftr (Z.land 15 r) 3.
Definition REX_R (r : Z) : Z := Z.shiftr (Z.land 7 r) 2.
Definition REX_X (r : Z) : Z := Z.shiftr (Z.land 3 r) 1.
Definition REX_B (r : Z) : Z := Z.shiftr (Z.land 1 r) 0.
Definition REX_PFX_MASK (n : Z) : Z :=
  Z.lor (Z.lor (Z.shiftl (P_REXW n) 3) (Z.shiftl (P_REXR n) 2))
        (Z.lor (Z.shiftl (P_REXX n) 1) (Z.shiftl (P_REXB n) 0)).

(** Scale-index-base and mod/rm fields. *)
Definition SIB_S (b : Z) : Z := Z.shiftr b 6.
Definition SIB_I (b : Z) : Z := Z.land (Z.shiftr b 3) 7.
Definition SIB_B (b : Z) : Z := Z.land b 7.
Definition MODRM_REG (b : Z) : Z := Z.land (Z.shiftr b 3) 7.
Definition MODRM_MOD (b : Z) : Z := Z.land (Z.shiftr b 6) 3.
Definition MODRM_RM (b : Z) : Z := Z.land b 7.

Definition UD_VENDOR_AMD : Z := 0.
Definition UD_VENDOR_INTEL : Z := 1.
Definition UD_VENDOR_ANY : Z := 2.
Definition UD_STRING_BUFFER_SIZE : Z := 64.

(** ** The generated instruction tables *)

Record ud_itab_entry_operand := mk_entry_operand {
  eo_type : ud_operand_code;
  eo_size : ud_operand_size
}.

Record ud_itab_entry := mk_itab_entry {
  ie_mnemonic : Z;
  operand1 : ud_itab_entry_operand;
  operand2 : ud_itab_entry_operand;
  operand3 : ud_itab_entry_operand;
  ie_prefix : Z
}.

Inductive ud_table_type :=
  | UD_TAB__OPC_TABLE | UD_TAB__OPC_SSE | UD_TAB__OPC_REG | UD_TAB__OPC_RM
  | UD_TAB__OPC_MOD | UD_TAB__OPC_MODE | UD_TAB__OPC_X87 | UD_TAB__OPC_ASIZE
  | UD_TAB__OPC_OSIZE | UD_TAB__OPC_3DNOW | UD_TAB__OPC_VENDOR.

#[global] Instance ud_table_type_eq_dec : EqDecision ud_table_type.
Proof. solve_decision. Defined.

Record ud_lookup_table_list_entry := mk_lookup_entry {
  le_table : list Z;
  le_type : ud_table_type
}.

(** What [itab.py] generates: a parameter of the decoder. *)
Class Itab := {
  UD_Iinvalid : Z; UD_Inone : Z; UD_I3dnow : Z; UD_Idb : Z; UD_Ipause : Z;
  UD_Icall : Z; UD_Ijmp : Z; UD_Iswapgs : Z; UD_Ixchg : Z; UD_Inop : Z;
  UD_Iretf : Z; UD_Ibound : Z; UD_Ienter : Z; UD_Ipush : Z;
  ud_itab : list ud_itab_entry;
  ud_lookup_table_list : list ud_lookup_table_list_entry;
  ud_mnemonics_str : list string
}.

Definition O_NONE : ud_itab_entry_operand := mk_entry_operand OP_NONE SZ_NA.

(** ** struct ud_operand

    The union [lval] is its eight bytes, as a little-endian 64-bit integer;
    [ptr.seg] is its two low bytes and [ptr.off] its four high bytes. *)

Record ud_operand := mk_operand {
  op_type : Z;
  op_size : Z;
  lval : Z;
  base : Z;
  index : Z;
  offset : Z;
  scale : Z
}.

Definition eta_operand (o : ud_operand) : ud_operand :=
  mk_operand (op_type o) (op_size o) (lval o) (base o) (index o) (offset o) (scale o).

#[global] Instance upd_op_type : Upd op_type := ltac:(mk_upd eta_operand op_type).
#[global] Instance upd_op_size : Upd op_size := ltac:(mk_upd eta_operand op_size).
#[global] Instance upd_lval : Upd lval := ltac:(mk_upd eta_operand lval).
#[global] Instance upd_base : Upd base := ltac:(mk_upd eta_operand base).
#[global] Instance upd_index : Upd index := ltac:(mk_upd eta_operand index).
#[global] Instance upd_offset : Upd offset := ltac:(mk_upd eta_operand offset).
#[global] Instance upd_scale : Upd scale := ltac:(mk_upd eta_operand scale).

(** A store of [w] bits into the union leaves its other bytes as they are. *)
Definition lval_store (w l v : Z) : Z :=
  Z.lor (Z.shiftl (Z.shiftr l w) w) (uwrap w v).
Definition lval_store_off (l off : Z) : Z :=
  Z.lor (uwrap 32 l) (Z.shiftl (u32 off) 32).

Definition lval_ubyte (l : Z) : Z := u8 l.
Definition lval_sbyte (l : Z) : Z := s8 l.
Definition lval_uword (l : Z) : Z := u16 l.
Definition lval_sword (l : Z) : Z := s16 l.
Definition lval_udword (l : Z) : Z := u32 l.
Definition lval_sdword (l : Z) : Z := s32 l.
Definition lval_uqword (l : Z) : Z := u64 l.
Definition lval_sqword (l : Z) : Z := s64 l.
Definition lval_ptr_seg (l : Z) : Z := u16 l.
Definition lval_ptr_off (l : Z) : Z := u32 (Z.shiftr l 32).

(** The operand as [memset] leaves it. *)
Definition zero_operand : ud_operand := mk_operand 0 0 0 0 0 0 0.

(** ** struct ud *)

(** The two input hooks the library installs. *)
Inductive inp_hook_t := hook_buff | hook_file.

(** [inp_mem] is the memory [inp_buff] and [inp_buff_end] point into (as
    offsets), [inp_file] what is left to read of the FILE. *)
Record ud_inp := mk_inp {
  inp_hook : inp_hook_t;
  inp_curr : Z;
  inp_fill : Z;
  inp_file : list Z;
  inp_ctr : Z;
  inp_mem : list Z;
  inp_buff : Z;
  inp_buff_end : Z;
  inp_end : Z;
  inp_cache : list Z;
  inp_sess : list Z;
  error : Z
}.

Definition eta_inp (i : ud_inp) : ud_inp :=
  mk_inp (inp_hook i) (inp_curr i) (inp_fill i) (inp_file i) (inp_ctr i)
    (inp_mem i) (inp_buff i) (inp_buff_end i) (inp_end i) (inp_cache i)
    (inp_sess i) (error i).

#[global] Instance upd_inp_hook : Upd inp_hook := ltac:(mk_upd eta_inp inp_hook).
#[global] Instance upd_inp_curr : Upd inp_curr := ltac:(mk_upd eta_inp inp_curr).
#[global] Instance upd_inp_fill : Upd inp_fill := ltac:(mk_upd eta_inp inp_fill).
#[global] Instance upd_inp_file : Upd inp_file := ltac:(mk_upd eta_inp inp_file).
#[global] Instance upd_inp_ctr : Upd inp_ctr := ltac:(mk_upd eta_inp inp_ctr).
#[global] Instance upd_inp_mem : Upd inp_mem := ltac:(mk_upd eta_inp inp_mem).
#[global] Instance upd_inp_buff : Upd inp_buff := ltac:(mk_upd eta_inp inp_buff).
#[global] Instance upd_inp_buff_end : Upd inp_buff_end := ltac:(mk_upd eta_inp inp_buff_end).
#[global] Instance upd_inp_end : Upd inp_end := ltac:(mk_upd eta_inp inp_end).
#[global] Instance upd_inp_cache : Upd inp_cache := ltac:(mk_upd eta_inp inp_cache).
#[global] Instance upd_inp_sess : Upd inp_sess := ltac:(mk_upd eta_inp inp_sess).
#[global] Instance upd_error : Upd error := ltac:(mk_upd eta_inp error).

(** The values of [translator]: UD_SYN_INTEL and UD_SYN_ATT. *)
Inductive ud_syntax := UD_SYN_INTEL | UD_SYN_ATT.

(** [opnd0], [opnd1] and [opnd2] are the array [operand]; a null
    [itab_entry] or [le] is [None]. *)
Record ud := mk_ud {
  inp : ud_inp;
  translator : option ud_syntax;
  insn_offset : Z;
  insn_hexcode : list Z;
  insn_buffer : list Z;
  insn_fill : Z;
  dis_mode : Z;
  pc : Z;
  vendor : Z;
  mnemonic : Z;
  opnd0 : ud_operand;
  opnd1 : ud_operand;
  opnd2 : ud_operand;
  pfx_rex : Z;
  pfx_seg : Z;
  pfx_opr : Z;
  pfx_adr : Z;
  pfx_lock : Z;
  pfx_rep : Z;
  pfx_repe : Z;
  pfx_repne : Z;
  pfx_insn : Z;
  default64 : Z;
  opr_mode : Z;
  adr_mode : Z;
  br_far : Z;
  br_near : Z;
  implicit_addr : Z;
  c1 : Z;
  c2 : Z;
  c3 : Z;
  have_modrm : Z;
  modrm_byte : Z;
  user_opaque_data : Z;
  itab_entry : option ud_itab_entry;
  le : option ud_lookup_table_list_entry
}.

Definition eta_ud (u : ud) : ud :=
  mk_ud (inp u) (translator u) (insn_offset u) (insn_hexcode u)
    (insn_buffer u) (insn_fill u) (dis_mode u) (pc u) (vendor u)
    (mnemonic u) (opnd0 u) (opnd1 u) (opnd2 u) (pfx_rex u) (pfx_seg u)
    (pfx_opr u) (pfx_adr u) (pfx_lock u) (pfx_rep u) (pfx_repe u)
    (pfx_repne u) (pfx_insn u) (default64 u) (opr_mode u) (adr_mode u)
    (br_far u) (br_near u) (implicit_addr u) (c1 u) (c2 u) (c3 u)
    (have_modrm u) (modrm_byte u) (user_opaque_data u) (itab_entry u)
    (le u).

#[global] Instance upd_inp : Upd inp := ltac:(mk_upd eta_ud inp).
#[global] Instance upd_translator : Upd translator := ltac:(mk_upd eta_ud translator).
#[global] Instance upd_insn_offset : Upd insn_offset := ltac:(mk_upd eta_ud insn_offset).
#[global] Instance upd_insn_hexcode : Upd insn_hexcode := ltac:(mk_upd eta_ud insn_hexcode).
#[global] Instance upd_insn_buffer : Upd insn_buffer := ltac:(mk_upd eta_ud insn_buffer).
#[global] Instance upd_insn_fill : Upd insn_fill := ltac:(mk_upd eta_ud insn_fill).
#[global] Instance upd_dis_mode : Upd dis_mode := ltac:(mk_upd eta_ud dis_mode).
#[global] Instance upd_pc : Upd pc := ltac:(mk_upd eta_ud pc).
#[global] Instance upd_vendor : Upd vendor := ltac:(mk_upd eta_ud vendor).
#[global] Instance upd_mnemonic : Upd mnemonic := ltac:(mk_upd eta_ud mnemonic).
#[global] Instance upd_opnd0 : Upd opnd0 := ltac:(mk_upd eta_ud opnd0).
#[global] Instance upd_opnd1 : Upd opnd1 := ltac:(mk_upd eta_ud opnd1).
#[global] Instance upd_opnd2 : Upd opnd2 := ltac:(mk_upd eta_ud opnd2).
#[global] Instance upd_pfx_rex : Upd pfx_rex := ltac:(mk_upd eta_ud pfx_rex).
#[global] Instance upd_pfx_seg : Upd pfx_seg := ltac:(mk_upd eta_ud pfx_seg).
#[global] Instance upd_pfx_opr : Upd pfx_opr := ltac:(mk_upd eta_ud pfx_opr).
#[global] Instance upd_pfx_adr : Upd pfx_adr := ltac:(mk_upd eta_ud pfx_adr).
#[global] Instance upd_pfx_lock : Upd pfx_lock := ltac:(mk_upd eta_ud pfx_lock).
#[global] Instance upd_pfx_rep : Upd pfx_rep := ltac:(mk_upd eta_ud pfx_rep).
#[global] Instance upd_pfx_repe : Upd pfx_repe := ltac:(mk_upd eta_ud pfx_repe).
#[global] Instance upd_pfx_repne : Upd pfx_repne := ltac:(mk_upd eta_ud pfx_repne).
#[global] Instance upd_pfx_insn : Upd pfx_insn := ltac:(mk_upd eta_ud pfx_insn).
#[global] Instance upd_default64 : Upd default64 := ltac:(mk_upd eta_ud default64).
#[global] Instance upd_opr_mode : Upd opr_mode := ltac:(mk_upd eta_ud opr_mode).
#[global] Instance upd_adr_mode : Upd adr_mode := ltac:(mk_upd eta_ud adr_mode).
#[global] Instance upd_br_far : Upd br_far := ltac:(mk_upd eta_ud br_far).
#[global] Instance upd_br_near : Upd br_near := ltac:(mk_upd eta_ud br_near).
#[global] Instance upd_implicit_addr : Upd implicit_addr := ltac:(mk_upd eta_ud implicit_addr).
#[global] Instance upd_c1 : Upd c1 := ltac:(mk_upd eta_ud c1).
#[global] Instance upd_c2 : Upd c2 := ltac:(mk_upd eta_ud c2).
#[global] Instance upd_c3 : Upd c3 := ltac:(mk_upd eta_ud c3).
#[global] Instance upd_have_modrm : Upd have_modrm := ltac:(mk_upd eta_ud have_modrm).
#[global] Instance upd_modrm_byte : Upd modrm_byte := ltac:(mk_upd eta_ud modrm_byte).
#[global] Instance upd_user_opaque_data : Upd user_opaque_data := ltac:(mk_upd eta_ud user_opaque_data).
#[global] Instance upd_itab_entry : Upd itab_entry := ltac:(mk_upd eta_ud itab_entry).
#[global] Instance upd_le : Upd le := ltac:(mk_upd eta_ud le).

(** ** Faults

    An access outside an array, a dereference of a null or dangling table
    pointer, a failed ASSERT, exhausted fuel. *)

Inductive ud_fault :=
  | OOB_inp_buff | OOB_inp_cache | OOB_inp_sess
  | OOB_ud_itab | OOB_lookup_table_list | OOB_table
  | OOB_insn_hexcode | OOB_insn_buffer | OOB_reg_tab | OOB_mnemonics_str
  | Null_pointer | Assert_failed | Out_of_fuel.

(** Computations over the input system and over the whole disassembler. *)
Abbreviation IM := (M ud_fault ud_inp).
Abbreviation UM := (M ud_fault ud).

(** Run an input operation on the disassembler's input system. *)
Definition on_inp {A} (m : IM A) : UM A := fun u =>
  match m (inp u) with
  | Ok (a, i) => Ok (a, u <| inp := i |>)
  | Err e => Err e
  end.
