(* ===== verification/UdInput.v ===== *)
(** * udis86: the input system

    [udis86_input.c] and the macros of [udis86_input.h].  Bytes come from a
    hook one at a time; a 256-byte circular cache indexed by two 8-bit
    counters lets the decoder step back, and [inp_sess] records the bytes of
    the instruction being decoded.  The second half relates the cache to the
    stream of bytes the hook delivers. *)

From stdpp Require Import base numbers list.
From S2P Require Import Prelude UdTypes.

#[local] Open Scope Z_scope.

(** ** Operations *)

Definition inp_buff_hook : IM Z :=
  i ← mget;
  if inp_buff i <? inp_buff_end i then
    c ← of_opt OOB_inp_buff (aget (inp_mem i) (inp_buff i));
    mmod (fun i => i <| inp_buff := inp_buff i + 1 |>);;
    mret (u8 c)
  else mret (-1).

(** [fgetc]: the next byte of the file, EOF (-1) at its end. *)
Definition inp_file_hook : IM Z :=
  i ← mget;
  match inp_file i with
  | c :: rest => mmod (fun i => i <| inp_file := rest |>);; mret (u8 c)
  | [] => mret (-1)
  end.

Definition call_hook : IM Z :=
  h ← mgets inp_hook;
  match h with
  | hook_buff => inp_buff_hook
  | hook_file => inp_file_hook
  end.

Definition ud_inp_init (i : ud_inp) : ud_inp :=
  i <| inp_curr := 0 |> <| inp_fill := 0 |> <| inp_ctr := 0 |> <| inp_end := 0 |>.

Definition ud_inp_start (i : ud_inp) : ud_inp := i <| inp_ctr := 0 |>.

Definition ud_inp_reset (i : ud_inp) : ud_inp :=
  i <| inp_curr := u8 (inp_curr i - inp_ctr i) |> <| inp_ctr := 0 |>.

Definition ud_set_input_hook (h : inp_hook_t) (i : ud_inp) : ud_inp :=
  ud_inp_init (i <| inp_hook := h |>).

Definition ud_set_input_buffer (buf : list Z) (len : Z) (i : ud_inp) : ud_inp :=
  ud_inp_init (i <| inp_hook := hook_buff |> <| inp_mem := buf |>
                 <| inp_buff := 0 |> <| inp_buff_end := len |>).

Definition ud_set_input_file (f : list Z) (i : ud_inp) : ud_inp :=
  ud_inp_init (i <| inp_hook := hook_file |> <| inp_file := f |>).

Definition ud_input_skip (n : nat) : IM unit :=
  mrepeat n (_ ← call_hook; mret tt).

Definition ud_input_end (i : ud_inp) : bool :=
  (inp_curr i =? inp_fill i) && truthy (inp_end i).

(** [ud_inp_curr(u)]: the byte of the cache at the current position. *)
Definition ud_inp_curr : IM Z :=
  i ← mget; of_opt OOB_inp_cache (aget (inp_cache i) (inp_curr i)).

(** [u->inp_sess[ u->inp_ctr++ ] = c; return ( uint8_t ) c;] *)
Definition inp_record (c : Z) : IM Z :=
  i ← mget;
  s ← of_opt OOB_inp_sess (aset (inp_sess i) (inp_ctr i) (u8 c));
  mmod (fun i => i <| inp_sess := s |> <| inp_ctr := u8 (inp_ctr i + 1) |>);;
  mret (u8 c).

Definition inp_end_of_input : IM Z :=
  mmod (fun i => i <| error := 1 |> <| inp_end := 1 |>);; mret 0.

Definition ud_inp_next : IM Z :=
  i ← mget;
  if negb (inp_curr i =? inp_fill i) then
    mmod (fun i => i <| inp_curr := u8 (inp_curr i + 1) |>);;
    c ← ud_inp_curr;
    inp_record c
  else if truthy (inp_end i) then inp_end_of_input
  else
    c ← call_hook;
    if c =? -1 then inp_end_of_input
    else
      mmod (fun i => i <| inp_fill := u8 (inp_fill i + 1) |>);;
      mmod (fun i => i <| inp_curr := inp_fill i |>);;
      j ← mget;
      k ← of_opt OOB_inp_cache (aset (inp_cache j) (inp_fill j) (u8 c));
      mmod (fun i => i <| inp_cache := k |>);;
      inp_record c.

Definition ud_inp_back : IM unit :=
  i ← mget;
  if 0 <? inp_ctr i then
    mmod (fun i => i <| inp_curr := u8 (inp_curr i - 1) |>
                     <| inp_ctr := u8 (inp_ctr i - 1) |>)
  else mret tt.

Definition ud_inp_peek : IM Z :=
  r ← ud_inp_next;
  e ← mgets error;
  (if truthy e then mret tt else ud_inp_back);;
  mret r.

Definition ud_inp_move (n : nat) : IM unit :=
  mrepeat n (_ ← ud_inp_next; mret tt).

Definition ud_inp_uint8 : IM Z := ud_inp_next.

Definition ud_inp_uint16 : IM Z :=
  ret ← ud_inp_next;
  r ← ud_inp_next;
  mret (u16 (Z.lor ret (Z.shiftl r 8))).

Definition ud_inp_uint32 : IM Z :=
  ret ← ud_inp_next;
  r ← ud_inp_next;
  let ret := u32 (Z.lor ret (Z.shiftl r 8)) in
  r ← ud_inp_next;
  let ret := u32 (Z.lor ret (Z.shiftl r 16)) in
  r ← ud_inp_next;
  mret (u32 (Z.lor ret (Z.shiftl r 24))).

Definition ud_inp_uint64 : IM Z :=
  ret ← ud_inp_next;
  r ← ud_inp_next;
  let ret := u64 (Z.lor ret (Z.shiftl r 8)) in
  r ← ud_inp_next;
  let ret := u64 (Z.lor ret (Z.shiftl r 16)) in
  r ← ud_inp_next;
  let ret := u64 (Z.lor ret (Z.shiftl r 24)) in
  r ← ud_inp_next;
  let ret := u64 (Z.lor ret (Z.shiftl r 32)) in
  r ← ud_inp_next;
  let ret := u64 (Z.lor ret (Z.shiftl r 40)) in
  r ← ud_inp_next;
  let ret := u64 (Z.lor ret (Z.shiftl r 48)) in
  r ← ud_inp_next;
  mret (u64 (Z.lor ret (Z.shiftl r 56))).

(** ** Specification: a cursor over the bytes of the input

    [r_all] is every byte the hook will ever have delivered, [r_pos] the
    number consumed, [r_ctr] the number consumed by the current instruction,
    [r_eof] whether a read past the end has been seen. *)

Record reader := mk_reader {
  r_all : list Z;
  r_pos : nat;
  r_ctr : nat;
  r_eof : bool;
  r_err : Z
}.

Definition reader_next (r : reader) : Z * reader :=
  match r_all r !! r_pos r with
  | Some c => (c, mk_reader (r_all r) (S (r_pos r)) (S (r_ctr r)) (r_eof r) (r_err r))
  | None => (0, mk_reader (r_all r) (r_pos r) (r_ctr r) true 1)
  end.

Definition reader_back (r : reader) : reader :=
  match r_ctr r with
  | O => r
  | S c => mk_reader (r_all r) (pred (r_pos r)) c (r_eof r) (r_err r)
  end.

Definition reader_start (r : reader) : reader :=
  mk_reader (r_all r) (r_pos r) 0 (r_eof r) (r_err r).

(** The bytes the current instruction has consumed. *)
Definition reader_sess (r : reader) : list Z :=
  take (r_ctr r) (drop (r_pos r - r_ctr r) (r_all r)).

(** [n] reads in a row; [le_combine] makes the number of their bytes. *)
Fixpoint reader_read (n : nat) (r : reader) : list Z * reader :=
  match n with
  | O => ([], r)
  | S n' =>
      let (c, r1) := reader_next r in
      let (cs, r2) := reader_read n' r1 in (c :: cs, r2)
  end.

(** What the hook has not delivered yet. *)
Definition hook_pending (i : ud_inp) : list Z :=
  match inp_hook i with
  | hook_buff =>
      drop (Z.to_nat (inp_buff i)) (take (Z.to_nat (inp_buff_end i)) (inp_mem i))
  | hook_file => inp_file i
  end.

Definition is_byte (c : Z) : Prop := 0 <= c < 256.

(** The input system [i] represents the cursor [r], after [n] bytes have been
    fetched from the hook. *)
Record repr_at (n : nat) (i : ud_inp) (r : reader) : Prop := mk_repr {
  repr_pending : r_all r = take n (r_all r) ++ hook_pending i;
  repr_len : (n <= length (r_all r))%nat;
  repr_le : (r_ctr r <= r_pos r <= n)%nat;
  repr_lag : (n - r_pos r + r_ctr r <= 64)%nat;
  repr_bytes : Forall is_byte (r_all r);
  repr_fill : inp_fill i = u8 (Z.of_nat n);
  repr_curr : inp_curr i = u8 (Z.of_nat (r_pos r));
  repr_ctr : inp_ctr i = Z.of_nat (r_ctr r);
  repr_cache_len : length (inp_cache i) = 256%nat;
  repr_cache : forall k c, (k < n <= k + 256)%nat -> r_all r !! k = Some c ->
                 aget (inp_cache i) (u8 (Z.of_nat (S k))) = Some c;
  repr_cache_bytes : Forall is_byte (inp_cache i);
  repr_sess_len : length (inp_sess i) = 64%nat;
  repr_sess : take (r_ctr r) (inp_sess i) = reader_sess r;
  repr_buff : inp_hook i = hook_buff -> 0 <= inp_buff i <= inp_buff_end i /\
                inp_buff_end i <= Z.of_nat (length (inp_mem i));
  repr_eof : truthy (inp_end i) = r_eof r;
  repr_eof_all : r_eof r = true -> n = length (r_all r);
  repr_err : error i = r_err r
}.

Definition repr (i : ud_inp) (r : reader) : Prop := exists n, repr_at n i r.

(** ** The input system implements the cursor *)

Lemma hook_pending_cons n i r c :
  repr_at n i r -> r_all r !! n = Some c ->
  exists rest, hook_pending i = c :: rest /\ r_all r = take (S n) (r_all r) ++ rest.
Proof.
  intros H Hc. pose proof (repr_pending _ _ _ H) as Hp.
  assert (hook_pending i = drop n (r_all r)) as Hd.
  { rewrite Hp at 1. rewrite drop_app_length'; [done |].
    rewrite length_take. pose proof (repr_len _ _ _ H). lia. }
  rewrite Hd. exists (drop (S n) (r_all r)).
  by rewrite (drop_S _ _ _ Hc), take_drop.
Qed.

(** Calling the hook pops the first pending byte and changes nothing else. *)
Lemma call_hook_cons n i r c rest :
  repr_at n i r -> hook_pending i = c :: rest -> is_byte c ->
  exists b f, call_hook i = Ok (c, i <| inp_buff := b |> <| inp_file := f |>) /\
    hook_pending (i <| inp_buff := b |> <| inp_file := f |>) = rest /\
    (inp_hook i = hook_buff -> 0 <= b <= inp_buff_end i).
Proof.
  intros H Hp Hb. unfold call_hook, mbind, M_bind, mgets. simpl.
  unfold hook_pending in *. simpl. destruct (inp_hook i) eqn:Hh.
  - destruct (repr_buff _ _ _ H Hh) as [Hb1 Hb2].
    assert (take (Z.to_nat (inp_buff_end i)) (inp_mem i) !! Z.to_nat (inp_buff i) = Some c) as Hl.
    { rewrite <- (Nat.add_0_r (Z.to_nat _)), <- lookup_drop, Hp. done. }
    apply lookup_take_Some in Hl as [Hl Hlt].
    exists (inp_buff i + 1), (inp_file i). split_and!; [| | lia].
    + unfold inp_buff_hook, mget, mbind, M_bind, mmod, mret, M_ret.
      rewrite (proj2 (Z.ltb_lt _ _)) by lia.
      rewrite (proj2 (aget_Some _ _ c)) by (split; [lia | done]).
      simpl. rewrite u8_id by done. by destruct i.
    + replace (Z.to_nat (inp_buff i + 1)) with (S (Z.to_nat (inp_buff i))) by lia.
      apply (f_equal (drop 1)) in Hp. rewrite drop_drop in Hp.
      by rewrite Nat.add_1_r in Hp.
  - exists (inp_buff i), rest. split_and!; [| done | done].
    unfold inp_file_hook, mget, mbind, M_bind, mmod, mret, M_ret. rewrite Hp.
    rewrite u8_id by done. by destruct i.
Qed.

Lemma call_hook_nil n i r :
  repr_at n i r -> hook_pending i = [] -> call_hook i = Ok (-1, i).
Proof.
  intros H Hp. unfold call_hook, mbind, M_bind, mgets. simpl.
  unfold hook_pending in *. destruct (inp_hook i) eqn:Hh.
  - destruct (repr_buff _ _ _ H Hh) as [Hb1 Hb2].
    apply (f_equal length) in Hp. rewrite length_drop, length_take in Hp. simpl in Hp.
    unfold inp_buff_hook, mget, mbind, M_bind, mret, M_ret.
    by rewrite (proj2 (Z.ltb_ge _ _)) by lia.
  - unfold inp_file_hook, mget, mbind, M_bind, mret, M_ret. by rewrite Hp.
Qed.

Lemma reader_sess_next r c :
  (r_ctr r <= r_pos r)%nat -> r_all r !! r_pos r = Some c ->
  reader_sess (snd (reader_next r)) = reader_sess r ++ [c].
Proof.
  intros Hle Hc. unfold reader_sess, reader_next. rewrite Hc. simpl.
  apply take_S_r. rewrite lookup_drop.
  by replace (r_pos r - r_ctr r + r_ctr r)%nat with (r_pos r) by lia.
Qed.

(** Recording the byte at the cursor advances the session. *)
Lemma inp_record_repr n i r c :
  repr_at n i (mk_reader (r_all r) (r_pos r) (r_ctr r) (r_eof r) (r_err r)) ->
  (r_pos r < n)%nat -> r_all r !! r_pos r = Some c -> (r_ctr r < 64)%nat ->
  wp (inp_record c) (i <| inp_curr := u8 (Z.of_nat (S (r_pos r))) |>)
     (fun d i' => d = c /\ repr_at n i' (snd (reader_next r))).
Proof.
  intros [] Hlt Hc H64. simpl in *.
  assert (is_byte c) as Hb by exact (Forall_lookup_1 _ _ _ _ repr_bytes0 Hc).
  assert (snd (reader_next r) = mk_reader (r_all r) (S (r_pos r)) (S (r_ctr r)) (r_eof r) (r_err r))
    as Hn by (unfold reader_next; by rewrite Hc).
  pose proof (reader_sess_next r c ltac:(lia) Hc) as Hs. rewrite Hn in Hs.
  unfold inp_record. wp_steps. simpl. rewrite aset_Some by lia. wp_steps.
  split; [by rewrite u8_id |]. rewrite Hn, repr_ctr0.
  constructor; simpl; try done; try lia.
  - rewrite u8_id; lia.
  - by rewrite length_insert.
  - rewrite Nat2Z.id, u8_id by done. rewrite take_S_insert by lia.
    rewrite repr_sess0. unfold reader_sess in *. simpl in *. done.
Qed.

(** Fetching a byte into the cache keeps the last 256 bytes readable. *)
Lemma cache_fetch (cache all : list Z) n c :
  length cache = 256%nat -> all !! n = Some c ->
  (forall k d, (k < n <= k + 256)%nat -> all !! k = Some d ->
     aget cache (u8 (Z.of_nat (S k))) = Some d) ->
  forall k d, (k < S n <= k + 256)%nat -> all !! k = Some d ->
    aget (<[Z.to_nat (u8 (Z.of_nat (S n))) := c]> cache) (u8 (Z.of_nat (S k))) = Some d.
Proof.
  intros Hl Hc Hold k d Hk Hd.
  destruct (decide (k = n)) as [-> |].
  - rewrite Hc in Hd. simplify_eq.
    apply aget_insert_eq. pose proof (u8_range (Z.of_nat (S n))). lia.
  - rewrite aget_insert_ne; [apply Hold; [lia | done] | apply u8_range | apply u8_range |].
    unfold u8, uwrap. change (2 ^ 8) with 256. intros He.
    pose proof (Z.div_mod (Z.of_nat (S n)) 256 ltac:(lia)).
    pose proof (Z.div_mod (Z.of_nat (S k)) 256 ltac:(lia)). nia.
Qed.

Lemma curr_eq_fill n i r :
  repr_at n i r -> (inp_curr i =? inp_fill i) = bool_decide (r_pos r = n).
Proof.
  intros []. rewrite repr_curr0, repr_fill0. unfold u8, uwrap. change (2 ^ 8) with 256.
  destruct (Z.eqb_spec (Z.of_nat (r_pos r) `mod` 256) (Z.of_nat n `mod` 256)) as [He | Hne];
    symmetry; [apply bool_decide_eq_true | apply bool_decide_eq_false].
  - pose proof (Z.div_mod (Z.of_nat (r_pos r)) 256 ltac:(lia)).
    pose proof (Z.div_mod (Z.of_nat n) 256 ltac:(lia)). nia.
  - by intros <-.
Qed.

Lemma repr_at_eta n i r :
  repr_at n i r ->
  repr_at n i (mk_reader (r_all r) (r_pos r) (r_ctr r) (r_eof r) (r_err r)).
Proof. by destruct r. Qed.

Lemma inp_end_repr n i r :
  repr_at n i r -> r_all r !! r_pos r = None -> r_pos r = n ->
  wp inp_end_of_input i (fun d i' => d = 0 /\ repr i' (snd (reader_next r))).
Proof.
  intros [] Hnone Hpos. unfold inp_end_of_input. wp_steps. split; [done |].
  exists n. unfold reader_next. rewrite Hnone. simpl.
  apply lookup_ge_None in Hnone.
  constructor; simpl; try done. lia.
Qed.

(** The fetching branch of [ud_inp_next]: a new byte enters the cache. *)
Lemma inp_fetch_repr i r c :
  repr_at (r_pos r) i r -> r_all r !! r_pos r = Some c -> (r_ctr r < 64)%nat ->
  r_eof r = false ->
  wp ud_inp_next i (fun d i' => d = c /\ repr i' (snd (reader_next r))).
Proof.
  intros H Hc H64 Heof.
  assert (is_byte c) as Hb by (eapply Forall_lookup_1; [apply (repr_bytes _ _ _ H) | done]).
  destruct (hook_pending_cons _ _ _ _ H Hc) as (rest & Hp & Hall).
  destruct (call_hook_cons _ _ _ _ _ H Hp Hb) as (b & f & Hcall & Hp' & Hbuf).
  unfold ud_inp_next. wp_step. wp_step.
  rewrite (curr_eq_fill _ _ _ H), bool_decide_true by done. simpl.
  rewrite (repr_eof _ _ _ H), Heof.
  apply wp_bind. eapply wp_intro; [done |].
  assert ((c =? -1) = false) as -> by (unfold is_byte in Hb; lia).
  do 6 wp_step. simpl. wp_step.
  assert (u8 (inp_fill i + 1) = u8 (Z.of_nat (S (r_pos r)))) as Hfill.
  { rewrite (repr_fill _ _ _ H). unfold u8, uwrap. rewrite Zplus_mod_idemp_l. f_equal. lia. }
  rewrite Hfill, (u8_id c) by done.
  rewrite aset_Some by (rewrite (repr_cache_len _ _ _ H); apply u8_range).
  wp_steps. set (n := u8 (Z.of_nat (S (r_pos r)))).
  apply (wp_mono (inp_record c) _
    (fun d i' => d = c /\ repr_at (S (r_pos r)) i' (snd (reader_next r)))).
  - set (i1 := i <| inp_buff := b |> <| inp_file := f |> <| inp_fill := n |>
      <| inp_cache := <[Z.to_nat n := c]> (inp_cache i) |>).
    apply (inp_record_repr (S (r_pos r)) i1 r c); [| lia | done | done].
    destruct H. apply lookup_lt_Some in Hc as Hlt.
    constructor; simpl; try done; try lia.
    + unfold hook_pending in *. simpl in *. by rewrite Hp'.
    + by rewrite length_insert.
    + by apply cache_fetch.
    + by apply Forall_insert.
    + intros Hh. specialize (repr_buff0 Hh). specialize (Hbuf Hh). lia.
    + congruence.
  - intros d i' [-> Hr]. split; [done |]. by exists (S (r_pos r)).
Qed.

Lemma repr_no_pending n i r :
  repr_at n i r -> r_all r !! r_pos r = None -> r_pos r = n /\ hook_pending i = [].
Proof.
  intros [] Hnone. apply lookup_ge_None in Hnone.
  assert (n = length (r_all r)) as Hn by lia. split; [lia |].
  apply (f_equal length) in repr_pending0.
  rewrite length_app, length_take in repr_pending0. apply length_zero_iff_nil. lia.
Qed.

(** The cached branch of [ud_inp_next]: the byte was read before. *)
Lemma inp_cached_repr n i r c :
  repr_at n i r -> (r_pos r < n)%nat -> r_all r !! r_pos r = Some c ->
  wp ud_inp_next i (fun d i' => d = c /\ repr i' (snd (reader_next r))).
Proof.
  intros H Hlt Hc. unfold ud_inp_next. wp_step. wp_step.
  rewrite (curr_eq_fill _ _ _ H), bool_decide_false by lia. simpl.
  wp_steps.
  assert (u8 (inp_curr i + 1) = u8 (Z.of_nat (S (r_pos r)))) as ->.
  { rewrite (repr_curr _ _ _ H). unfold u8, uwrap. rewrite Zplus_mod_idemp_l. f_equal. lia. }
  unfold ud_inp_curr. wp_steps. simpl.
  pose proof (repr_lag _ _ _ H) as Hlag.
  erewrite (repr_cache _ _ _ H) by (done || lia). wp_steps.
  eapply wp_mono; [apply (inp_record_repr n i r c); [by apply repr_at_eta | done | done | lia] |].
  intros d i' [-> Hr]. split; [done | by exists n].
Qed.

(** Reading a byte: the cache and the hook together deliver the next byte of
    the stream, as long as the session buffer has room. *)
Lemma ud_inp_next_repr i r :
  repr i r -> (r_ctr r < 64)%nat ->
  wp ud_inp_next i (fun c i' => c = fst (reader_next r) /\ repr i' (snd (reader_next r))).
Proof.
  intros [n H] H64. destruct (r_all r !! r_pos r) as [c|] eqn:Hc.
  - assert (fst (reader_next r) = c) as -> by (unfold reader_next; by rewrite Hc).
    destruct (decide (r_pos r = n)) as [<- |].
    + apply inp_fetch_repr; try done. destruct (r_eof r) eqn:He; [| done].
      pose proof (repr_eof_all _ _ _ H He). apply lookup_lt_Some in Hc. lia.
    + eapply inp_cached_repr; eauto. destruct H; lia.
  - assert (fst (reader_next r) = 0) as -> by (unfold reader_next; by rewrite Hc).
    destruct (repr_no_pending _ _ _ H Hc) as [Hpos Hp].
    unfold ud_inp_next. wp_step. wp_step.
    rewrite (curr_eq_fill _ _ _ H), bool_decide_true by done. simpl.
    wp_step; [by eapply inp_end_repr |].
    wp_step. eapply wp_intro; [by eapply call_hook_nil |]. simpl.
    by eapply inp_end_repr.
Qed.

Lemma ud_inp_back_repr i r :
  repr i r -> wp ud_inp_back i (fun _ i' => repr i' (reader_back r)).
Proof.
  intros [n H]. unfold ud_inp_back. wp_steps; rewrite (repr_ctr _ _ _ H) in *; zbool.
  - unfold reader_back. destruct (r_ctr r) as [|k] eqn:Hk; [lia |]. exists n.
    destruct H. constructor; simpl; rewrite ?Hk in *; try done; try lia.
    + rewrite repr_curr0. unfold u8, uwrap. rewrite Zminus_mod_idemp_l. f_equal. lia.
    + rewrite u8_id; lia.
    + apply (f_equal (take k)) in repr_sess0. unfold reader_sess in *. simpl in *.
      rewrite take_take, Nat.min_l in repr_sess0 by lia. rewrite repr_sess0, Hk.
      rewrite take_take, Nat.min_l by lia. f_equal. f_equal. lia.
  - unfold reader_back. destruct (r_ctr r) as [|k] eqn:Hk; [by exists n | lia].
Qed.

Lemma ud_inp_start_repr i r : repr i r -> repr (ud_inp_start i) (reader_start r).
Proof.
  intros [n []]. exists n. unfold ud_inp_start, reader_start.
  constructor; simpl; try done; lia.
Qed.

(** [ud_inp_curr] is the byte consumed last. *)
Lemma ud_inp_curr_repr i r c :
  repr i r -> (0 < r_pos r)%nat -> r_all r !! pred (r_pos r) = Some c ->
  wp ud_inp_curr i (fun d i' => d = c /\ i' = i).
Proof.
  intros [n []] Hpos Hc. unfold ud_inp_curr. wp_steps.
  rewrite repr_curr0. replace (r_pos r) with (S (pred (r_pos r))) by lia.
  erewrite repr_cache0 by (done || lia). by wp_steps.
Qed.

Lemma error_repr i r e : repr i r ->
  repr (i <| error := e |>) (mk_reader (r_all r) (r_pos r) (r_ctr r) (r_eof r) e).
Proof. intros [n []]. exists n. by constructor. Qed.

(** ** Multi-byte reads are little-endian *)

Lemma reader_next_byte i r : repr i r -> is_byte (fst (reader_next r)).
Proof.
  intros [n H]. unfold reader_next. destruct (r_all r !! r_pos r) eqn:Hc; simpl.
  - eapply Forall_lookup_1; [apply (repr_bytes _ _ _ H) | done].
  - unfold is_byte. lia.
Qed.

Lemma reader_next_ctr r : (r_ctr (snd (reader_next r)) <= S (r_ctr r))%nat.
Proof. unfold reader_next. destruct (r_all r !! r_pos r); simpl; lia. Qed.

(** One read, in the form the multi-byte reads use it. *)
Lemma wp_next {A} i r (k : Z -> IM A) (Q : A -> ud_inp -> Prop) :
  repr i r -> (r_ctr r < 64)%nat ->
  (forall c r' i', reader_next r = (c, r') -> is_byte c -> (r_ctr r' <= S (r_ctr r))%nat ->
     repr i' r' -> wp (k c) i' Q) ->
  wp (ud_inp_next ≫= k) i Q.
Proof.
  intros Hr H64 HQ. apply wp_bind. eapply wp_mono; [by apply ud_inp_next_repr |].
  intros c i' [-> Hr']. eapply (HQ _ (snd (reader_next r))); try done.
  - by destruct (reader_next r).
  - by eapply reader_next_byte.
  - apply reader_next_ctr.
Qed.

Ltac next_byte :=
  lazymatch goal with
  | H : repr ?i ?r |- wp (ud_inp_next ≫= _) ?i _ =>
      eapply (wp_next i r); [exact H | lia |]; intros ? ? ? ? ? ? ?
  end.

Ltac solve_le :=
  split; [| done]; unfold is_byte in *; unfold u16, u32, u64; cbn [fst snd le_combine];
  repeat match goal with
    |- context [uwrap ?w (Z.lor ?a (Z.shiftl ?b ?k))] =>
      rewrite (uwrap_lor_shiftl w a b k) by lia
  end; lia.

Ltac read_bytes :=
  repeat next_byte; wp_steps;
  repeat match goal with H : reader_next ?r = _ |- context [reader_next ?r] => rewrite H end;
  solve_le.

Lemma ud_inp_uint16_repr i r :
  repr i r -> (r_ctr r + 2 <= 64)%nat ->
  wp ud_inp_uint16 i (fun v i' => v = le_combine (fst (reader_read 2 r)) /\
                                  repr i' (snd (reader_read 2 r))).
Proof. intros Hr H64. unfold ud_inp_uint16. simpl reader_read. read_bytes. Qed.

Lemma ud_inp_uint32_repr i r :
  repr i r -> (r_ctr r + 4 <= 64)%nat ->
  wp ud_inp_uint32 i (fun v i' => v = le_combine (fst (reader_read 4 r)) /\
                                  repr i' (snd (reader_read 4 r))).
Proof. intros Hr H64. unfold ud_inp_uint32. simpl reader_read. read_bytes. Qed.

Lemma ud_inp_uint64_repr i r :
  repr i r -> (r_ctr r + 8 <= 64)%nat ->
  wp ud_inp_uint64 i (fun v i' => v = le_combine (fst (reader_read 8 r)) /\
                                  repr i' (snd (reader_read 8 r))).
Proof. intros Hr H64. unfold ud_inp_uint64. simpl reader_read. read_bytes. Qed.
