(* ===== verification/UdDecode.v ===== *)
(** * udis86: the instruction decoder

    [udis86_decode.c]: prefixes, opcode tables, mod/rm and immediate operands,
    mode resolution and [ud_decode].  The generated tables are the parameter
    [Itab]; the recursion through them takes fuel, the number of tables, which
    [UdDecodeSafe.v] shows to be enough. *)

From stdpp Require Import base numbers list strings.
From S2P Require Import Prelude UdTypes UdInput.

#[local] Open Scope Z_scope.

Definition ud_assert (b : bool) : UM unit := if b then mret tt else mfail Assert_failed.

Definition set_error : UM unit := mmod (fun u => u <| inp := (inp u) <| error := 1 |> |>).

Definition ud_error (u : ud) : Z := error (inp u).

Definition eff_opr_mode (dis_mode rex_w pfx_opr : Z) : UM Z :=
  if dis_mode =? 64 then
    mret (if truthy rex_w then 64 else if truthy pfx_opr then 16 else 32)
  else if dis_mode =? 32 then mret (if truthy pfx_opr then 16 else 32)
  else ud_assert (dis_mode =? 16);; mret (if truthy pfx_opr then 32 else 16).

Definition eff_adr_mode (dis_mode pfx_adr : Z) : UM Z :=
  if dis_mode =? 64 then mret (if truthy pfx_adr then 32 else 64)
  else if dis_mode =? 32 then mret (if truthy pfx_adr then 16 else 32)
  else ud_assert (dis_mode =? 16);; mret (if truthy pfx_adr then 32 else 16).

(** ** Prefixes *)

(** The body of the prefix loop's [switch]: record the prefix [curr]; the
    result tells whether it was one. *)
Definition decode_prefix_byte (curr : Z) : UM bool :=
  u ← mget;
  if (dis_mode u =? 64) && (Z.land curr 0xF0 =? 0x40) then
    mmod (fun u => u <| pfx_rex := curr |>);; mret true
  else if curr =? 0x2E then
    mmod (fun u => u <| pfx_seg := UD_R_CS |> <| pfx_rex := 0 |>);; mret true
  else if curr =? 0x36 then
    mmod (fun u => u <| pfx_seg := UD_R_SS |> <| pfx_rex := 0 |>);; mret true
  else if curr =? 0x3E then
    mmod (fun u => u <| pfx_seg := UD_R_DS |> <| pfx_rex := 0 |>);; mret true
  else if curr =? 0x26 then
    mmod (fun u => u <| pfx_seg := UD_R_ES |> <| pfx_rex := 0 |>);; mret true
  else if curr =? 0x64 then
    mmod (fun u => u <| pfx_seg := UD_R_FS |> <| pfx_rex := 0 |>);; mret true
  else if curr =? 0x65 then
    mmod (fun u => u <| pfx_seg := UD_R_GS |> <| pfx_rex := 0 |>);; mret true
  else if curr =? 0x67 then
    mmod (fun u => u <| pfx_adr := 0x67 |> <| pfx_rex := 0 |>);; mret true
  else if curr =? 0xF0 then
    mmod (fun u => u <| pfx_lock := 0xF0 |> <| pfx_rex := 0 |>);; mret true
  else if curr =? 0x66 then
    mmod (fun u => (if truthy (pfx_insn u) then u else u <| pfx_insn := 0x66 |>)
                     <| pfx_opr := 0x66 |> <| pfx_rex := 0 |>);; mret true
  else if curr =? 0xF2 then
    mmod (fun u => u <| pfx_insn := 0xF2 |> <| pfx_repne := 0xF2 |> <| pfx_rex := 0 |>);;
    mret true
  else if curr =? 0xF3 then
    mmod (fun u => u <| pfx_insn := 0xF3 |> <| pfx_rep := 0xF3 |> <| pfx_repe := 0xF3 |>
                     <| pfx_rex := 0 |>);; mret true
  else mret false.

(** After the loop: the status, and the rewind over the non-prefix byte. *)
Definition decode_prefixes_end : UM Z :=
  e ← mgets ud_error;
  if truthy e then mret (-1) else on_inp ud_inp_back;; mret 0.

Fixpoint decode_prefixes_loop (fuel : nat) (i : Z) : UM Z :=
  match fuel with
  | O => mfail Out_of_fuel
  | S fuel' =>
      on_inp ud_inp_next;;
      e ← mgets ud_error;
      if truthy e then mret (-1)
      else
        curr ← on_inp ud_inp_curr;
        have_pfx ← decode_prefix_byte curr;
        if i + 1 =? MAX_INSN_LENGTH then set_error;; decode_prefixes_end
        else if (have_pfx : bool) then decode_prefixes_loop fuel' (i + 1)
        else decode_prefixes_end
  end.

Definition decode_prefixes : UM Z :=
  e ← mgets ud_error;
  if truthy e then mret (-1) else decode_prefixes_loop (Z.to_nat MAX_INSN_LENGTH) 0.

(** ** Operands *)

Definition modrm : UM Z :=
  u ← mget;
  (if truthy (have_modrm u) then mret tt
   else b ← on_inp ud_inp_next;
        mmod (fun u => u <| modrm_byte := b |> <| have_modrm := 1 |>));;
  mgets modrm_byte.

Definition resolve_operand_size (u : ud) (s : Z) : Z :=
  if s =? SZ_V then opr_mode u
  else if s =? SZ_Z then if opr_mode u =? 16 then 16 else 32
  else if s =? SZ_P then if opr_mode u =? 16 then SZ_WP else SZ_DP
  else if s =? SZ_MDQ then if opr_mode u =? 16 then 32 else opr_mode u
  else if s =? SZ_RDQ then if dis_mode u =? 64 then 64 else 32
  else s.

(** Far pointer operands, seg:offset. *)
Definition decode_a (op : ud_operand) : UM ud_operand :=
  u ← mget;
  if opr_mode u =? 16 then
    off ← on_inp ud_inp_uint16;
    seg ← on_inp ud_inp_uint16;
    mret (op <| op_type := UD_OP_PTR |> <| op_size := 32 |>
             <| lval := lval_store 16 (lval_store_off (lval op) off) seg |>)
  else
    off ← on_inp ud_inp_uint32;
    seg ← on_inp ud_inp_uint16;
    mret (op <| op_type := UD_OP_PTR |> <| op_size := 48 |>
             <| lval := lval_store 16 (lval_store_off (lval op) off) seg |>).

Definition decode_gpr (u : ud) (s rm : Z) : Z :=
  let s := resolve_operand_size u s in
  if s =? 64 then UD_R_RAX + rm
  else if (s =? SZ_DP) || (s =? 32) then UD_R_EAX + rm
  else if (s =? SZ_WP) || (s =? 16) then UD_R_AX + rm
  else if s =? 8 then
    if (dis_mode u =? 64) && truthy (pfx_rex u) then
      if 4 <=? rm then UD_R_SPL + (rm - 4) else UD_R_AL + rm
    else UD_R_AL + rm
  else 0.

(** Register and size of an rAX..rDI or rAXr8..rDIr15 operand. *)
Definition resolve_gpr64 (u : ud) (gpr_op : Z) : Z * Z :=
  let gpr_op :=
    if (OP_rAXr8 <=? gpr_op) && (gpr_op <=? OP_rDIr15)
    then Z.lor (gpr_op - OP_rAXr8) (Z.shiftl (REX_B (pfx_rex u)) 3)
    else gpr_op - OP_rAX in
  if opr_mode u =? 16 then (gpr_op + UD_R_AX, 16)
  else if (dis_mode u =? 32) ||
          ((opr_mode u =? 32) && negb (truthy (REX_W (pfx_rex u)) || truthy (default64 u)))
  then (gpr_op + UD_R_EAX, 32)
  else (gpr_op + UD_R_RAX, 64).

Definition resolve_gpr32 (u : ud) (gpr_op : Z) : Z :=
  let gpr_op := gpr_op - OP_eAX in
  if opr_mode u =? 16 then gpr_op + UD_R_AX else gpr_op + UD_R_EAX.

Definition resolve_reg (type : reg_class) (i : Z) : UM Z :=
  match type with
  | T_MMX => mret (UD_R_MM0 + Z.land i 7)
  | T_XMM => mret (UD_R_XMM0 + i)
  | T_CRG => mret (UD_R_CR0 + i)
  | T_DBG => mret (UD_R_DR0 + i)
  | T_SEG =>
      if 5 <? Z.land i 7 then set_error;; mret (UD_NONE : Z)
      else mret (UD_R_ES + Z.land i 7)
  | _ => mret (UD_NONE : Z)
  end.

Definition decode_imm (s : Z) (op : ud_operand) : UM ud_operand :=
  u ← mget;
  let op := op <| op_size := resolve_operand_size u s |> <| op_type := UD_OP_IMM |> in
  if op_size op =? 8 then
    v ← on_inp ud_inp_uint8; mret (op <| lval := lval_store 8 (lval op) v |>)
  else if op_size op =? 16 then
    v ← on_inp ud_inp_uint16; mret (op <| lval := lval_store 16 (lval op) v |>)
  else if op_size op =? 32 then
    v ← on_inp ud_inp_uint32; mret (op <| lval := lval_store 32 (lval op) v |>)
  else if op_size op =? 64 then
    v ← on_inp ud_inp_uint64; mret (op <| lval := lval_store 64 (lval op) v |>)
  else mret op.

Definition decode_modrm_reg (op : ud_operand) (type : reg_class) (size : Z) : UM ud_operand :=
  b ← modrm;
  u ← mget;
  let reg := u8 (Z.lor (Z.shiftl (REX_R (pfx_rex u)) 3) (MODRM_REG b)) in
  let op := op <| op_type := UD_OP_REG |> <| op_size := resolve_operand_size u size |> in
  match type with
  | T_GPR => mret (op <| base := decode_gpr u (op_size op) reg |>)
  | _ => r ← resolve_reg type reg; mret (op <| base := r |>)
  end.

(** The displacement of a memory operand, by its width in bits. *)
Definition decode_disp (op : ud_operand) : UM ud_operand :=
  if offset op =? 8 then
    v ← on_inp ud_inp_uint8; mret (op <| lval := lval_store 8 (lval op) v |>)
  else if offset op =? 16 then
    v ← on_inp ud_inp_uint16; mret (op <| lval := lval_store 16 (lval op) v |>)
  else if offset op =? 32 then
    v ← on_inp ud_inp_uint32; mret (op <| lval := lval_store 32 (lval op) v |>)
  else if offset op =? 64 then
    v ← on_inp ud_inp_uint64; mret (op <| lval := lval_store 64 (lval op) v |>)
  else mret op.

(** Base, index, scale and displacement width of a 64-bit address. *)
Definition decode_mem64 (mod_ rm : Z) (op : ud_operand) : UM ud_operand :=
  let op := op <| base := UD_R_RAX + rm |> in
  let op :=
    if mod_ =? 1 then op <| offset := 8 |>
    else if mod_ =? 2 then op <| offset := 32 |>
    else if (mod_ =? 0) && (Z.land rm 7 =? 5) then
      op <| base := UD_R_RIP |> <| offset := 32 |>
    else op <| offset := 0 |> in
  if Z.land rm 7 =? 4 then
    on_inp ud_inp_next;;
    b ← on_inp ud_inp_curr;
    u ← mget;
    let op := op <| scale := Z.land (Z.shiftl 1 (SIB_S b)) (Z.lnot 1) |>
                 <| index := UD_R_RAX + Z.lor (SIB_I b) (Z.shiftl (REX_X (pfx_rex u)) 3) |>
                 <| base := UD_R_RAX + Z.lor (SIB_B b) (Z.shiftl (REX_B (pfx_rex u)) 3) |> in
    let op :=
      if index op =? UD_R_RSP
      then op <| index := UD_NONE |> <| scale := UD_NONE |> else op in
    mret (if (base op =? UD_R_RBP) || (base op =? UD_R_R13) then
            let op := if mod_ =? 0 then op <| base := UD_NONE |> else op in
            if mod_ =? 1 then op <| offset := 8 |> else op <| offset := 32 |>
          else op)
  else mret op.

Definition decode_mem32 (mod_ rm : Z) (op : ud_operand) : UM ud_operand :=
  let op := op <| base := UD_R_EAX + rm |> in
  let op :=
    if mod_ =? 1 then op <| offset := 8 |>
    else if mod_ =? 2 then op <| offset := 32 |>
    else if (mod_ =? 0) && (rm =? 5) then
      op <| base := UD_NONE |> <| offset := 32 |>
    else op <| offset := 0 |> in
  if Z.land rm 7 =? 4 then
    on_inp ud_inp_next;;
    b ← on_inp ud_inp_curr;
    u ← mget;
    let op := op <| scale := Z.land (Z.shiftl 1 (SIB_S b)) (Z.lnot 1) |>
                 <| index := UD_R_EAX + Z.lor (SIB_I b) (Z.shiftl (REX_X (pfx_rex u)) 3) |>
                 <| base := UD_R_EAX + Z.lor (SIB_B b) (Z.shiftl (REX_B (pfx_rex u)) 3) |> in
    let op :=
      if index op =? UD_R_ESP
      then op <| index := UD_NONE |> <| scale := UD_NONE |> else op in
    mret (if base op =? UD_R_EBP then
            let op := if mod_ =? 0 then op <| base := UD_NONE |> else op in
            if mod_ =? 1 then op <| offset := 8 |> else op <| offset := 32 |>
          else op)
  else mret op.

Definition bases16 : list ud_type :=
  [UD_R_BX; UD_R_BX; UD_R_BP; UD_R_BP; UD_R_SI; UD_R_DI; UD_R_BP; UD_R_BX].
Definition indices16 : list ud_type :=
  [UD_R_SI; UD_R_DI; UD_R_SI; UD_R_DI; UD_NONE; UD_NONE; UD_NONE; UD_NONE].

Definition decode_mem16 (mod_ rm : Z) (op : ud_operand) : UM ud_operand :=
  b ← of_opt OOB_table (aget bases16 (Z.land rm 7));
  x ← of_opt OOB_table (aget indices16 (Z.land rm 7));
  let op := op <| base := ud_type_code b |> <| index := ud_type_code x |> in
  mret (if (mod_ =? 0) && (rm =? 6) then op <| offset := 16 |> <| base := UD_NONE |>
        else if mod_ =? 1 then op <| offset := 8 |>
        else if mod_ =? 2 then op <| offset := 16 |>
        else op).

Definition decode_modrm_rm (op : ud_operand) (type : reg_class) (size : Z) : UM ud_operand :=
  b ← modrm;
  u ← mget;
  let mod_ := MODRM_MOD b in
  let rm := u8 (Z.lor (Z.shiftl (REX_B (pfx_rex u)) 3) (MODRM_RM b)) in
  let op := op <| op_size := resolve_operand_size u size |> in
  if mod_ =? 3 then
    let op := op <| op_type := UD_OP_REG |> in
    match type with
    | T_GPR => mret (op <| base := decode_gpr u (op_size op) rm |>)
    | _ =>
        r ← resolve_reg type (Z.lor (Z.shiftl (REX_B (pfx_rex u)) 3) (Z.land rm 7));
        mret (op <| base := r |>)
    end
  else
    let op := op <| op_type := UD_OP_MEM |> in
    op ← (if adr_mode u =? 64 then decode_mem64 mod_ rm op
          else if adr_mode u =? 32 then decode_mem32 mod_ rm op
          else decode_mem16 mod_ rm op);
    decode_disp op.

Definition decode_o (s : Z) (op : ud_operand) : UM ud_operand :=
  u ← mget;
  let finish (op : ud_operand) : ud_operand :=
    op <| op_type := UD_OP_MEM |> <| op_size := resolve_operand_size u s |> in
  if adr_mode u =? 64 then
    v ← on_inp ud_inp_uint64;
    mret (finish (op <| offset := 64 |> <| lval := lval_store 64 (lval op) v |>))
  else if adr_mode u =? 32 then
    v ← on_inp ud_inp_uint32;
    mret (finish (op <| offset := 32 |> <| lval := lval_store 32 (lval op) v |>))
  else if adr_mode u =? 16 then
    v ← on_inp ud_inp_uint16;
    mret (finish (op <| offset := 16 |> <| lval := lval_store 16 (lval op) v |>))
  else mret op.

Definition decode_operand (op : ud_operand) (type : ud_operand_code) (size : ud_operand_size)
    : UM ud_operand :=
  let reg8 := op <| op_type := UD_OP_REG |> <| base := UD_R_AL + (type - OP_AL) |>
                 <| op_size := 8 |> in
  match type with
  | OP_A => decode_a op
  | OP_MR =>
      b ← modrm;
      if MODRM_MOD b =? 3 then
        decode_modrm_rm op T_GPR (if size =? SZ_DY then SZ_MDQ else SZ_V)
      else if size =? SZ_WV then decode_modrm_rm op T_GPR SZ_W
      else if size =? SZ_BV then decode_modrm_rm op T_GPR SZ_B
      else if size =? SZ_DY then decode_modrm_rm op T_GPR SZ_D
      else mfail Assert_failed
  | OP_M =>
      b ← modrm;
      (if MODRM_MOD b =? 3 then set_error else mret tt);;
      decode_modrm_rm op T_GPR size
  | OP_E => decode_modrm_rm op T_GPR size
  | OP_G => decode_modrm_reg op T_GPR size
  | OP_I => decode_imm size op
  | OP_I1 => mret (op <| op_type := UD_OP_CONST |> <| lval := lval_store 32 (lval op) 1 |>)
  | OP_PR =>
      b ← modrm;
      (if negb (MODRM_MOD b =? 3) then set_error else mret tt);;
      decode_modrm_rm op T_MMX size
  | OP_P => decode_modrm_reg op T_MMX size
  | OP_VR =>
      b ← modrm;
      (if negb (MODRM_MOD b =? 3) then set_error else mret tt);;
      decode_modrm_rm op T_XMM size
  | OP_W => decode_modrm_rm op T_XMM size
  | OP_V => decode_modrm_reg op T_XMM size
  | OP_S => decode_modrm_reg op T_SEG size
  | OP_AL | OP_CL | OP_DL | OP_BL | OP_AH | OP_CH | OP_DH | OP_BH => mret reg8
  | OP_DX =>
      mret (op <| op_type := UD_OP_REG |> <| base := UD_R_DX |> <| op_size := 16 |>)
  | OP_O => decode_o size op
  | OP_rAXr8 | OP_rCXr9 | OP_rDXr10 | OP_rBXr11 | OP_rSPr12 | OP_rBPr13 | OP_rSIr14
  | OP_rDIr15 | OP_rAX | OP_rCX | OP_rDX | OP_rBX | OP_rSP | OP_rBP | OP_rSI | OP_rDI =>
      u ← mget;
      let (r, s) := resolve_gpr64 u type in
      mret (op <| op_type := UD_OP_REG |> <| base := r |> <| op_size := s |>)
  | OP_ALr8b | OP_CLr9b | OP_DLr10b | OP_BLr11b | OP_AHr12b | OP_CHr13b | OP_DHr14b
  | OP_BHr15b =>
      u ← mget;
      let gpr := (type - OP_ALr8b) + UD_R_AL + Z.shiftl (REX_B (pfx_rex u)) 3 in
      let gpr := if (UD_R_AH <=? gpr) && truthy (pfx_rex u) then gpr + 4 else gpr in
      mret (op <| op_type := UD_OP_REG |> <| base := gpr |>)
  | OP_eAX | OP_eCX | OP_eDX | OP_eBX | OP_eSP | OP_eBP | OP_eSI | OP_eDI =>
      u ← mget;
      mret (op <| op_type := UD_OP_REG |> <| base := resolve_gpr32 u type |>
               <| op_size := if opr_mode u =? 16 then 16 else 32 |>)
  | OP_ES | OP_CS | OP_DS | OP_SS | OP_FS | OP_GS =>
      u ← mget;
      (if (dis_mode u =? 64) && negb (type =? OP_FS) && negb (type =? OP_GS)
       then set_error else mret tt);;
      mret (op <| op_type := UD_OP_REG |> <| base := (type - OP_ES) + UD_R_ES |>
               <| op_size := 16 |>)
  | OP_J => op ← decode_imm size op; mret (op <| op_type := UD_OP_JIMM |>)
  | OP_Q => decode_modrm_rm op T_MMX size
  | OP_R => decode_modrm_rm op T_GPR size
  | OP_C => decode_modrm_reg op T_CRG size
  | OP_D => decode_modrm_reg op T_DBG size
  | OP_I3 => mret (op <| op_type := UD_OP_CONST |> <| lval := lval_store 8 (lval op) 3 |>)
  | OP_ST0 | OP_ST1 | OP_ST2 | OP_ST3 | OP_ST4 | OP_ST5 | OP_ST6 | OP_ST7 =>
      mret (op <| op_type := UD_OP_REG |> <| base := (type - OP_ST0) + UD_R_ST0 |>
               <| op_size := 0 |>)
  | OP_AX =>
      mret (op <| op_type := UD_OP_REG |> <| base := UD_R_AX |> <| op_size := 16 |>)
  | _ => mret (op <| op_type := UD_NONE |>)
  end.

(** [clear_insn]: reset what the previous instruction left. *)
Definition clear_insn_with (none : Z) (u : ud) : ud :=
  u <| inp := (inp u) <| error := 0 |> |>
    <| pfx_seg := 0 |> <| pfx_opr := 0 |> <| pfx_adr := 0 |> <| pfx_lock := 0 |>
    <| pfx_repne := 0 |> <| pfx_rep := 0 |> <| pfx_repe := 0 |> <| pfx_rex := 0 |>
    <| pfx_insn := 0 |> <| mnemonic := none |> <| itab_entry := None |>
    <| have_modrm := 0 |>
    <| opnd0 := zero_operand |> <| opnd1 := zero_operand |> <| opnd2 := zero_operand |>.

(** ** Hex dump of the instruction's bytes *)

Definition hex_digit (d : Z) : Z := if d <? 10 then 48 + d else 87 + d.

(** [sprintf(src_hex, "%02x", b)]: two digits and a terminating NUL. *)
Definition sprintf_02x (buf : list Z) (at_ b : Z) : option (list Z) :=
  buf ← aset buf at_ (hex_digit (b / 16));
  buf ← aset buf (at_ + 1) (hex_digit (b `mod` 16));
  aset buf (at_ + 2) 0.

Fixpoint gen_hex_loop (bytes : list Z) (at_ : Z) (buf : list Z) : option (list Z) :=
  match bytes with
  | [] => Some buf
  | b :: bs => buf ← sprintf_02x buf at_ (Z.land b 0xFF); gen_hex_loop bs (at_ + 2) buf
  end.

Definition gen_hex : UM Z :=
  u ← mget;
  if truthy (ud_error u) then mret (-1)
  else
    bytes ← of_opt OOB_inp_sess (atake (inp_sess (inp u)) (inp_ctr (inp u)));
    h ← of_opt OOB_insn_hexcode (gen_hex_loop bytes 0 (insn_hexcode u));
    mmod (fun u => u <| insn_hexcode := h |>);;
    mret 0.

(** ** Opcode tables *)

Section tables.
Context {T : Itab}.

Definition s_ie__invalid : ud_itab_entry := mk_itab_entry UD_Iinvalid O_NONE O_NONE O_NONE 0.

Definition clear_insn : ud -> ud := clear_insn_with UD_Inone.

(** [ud_itab[ptr]], [ud_lookup_table_list[n]] and [u->le->table[idx]]. *)
Definition itab_at (ptr : Z) : UM ud_itab_entry := of_opt OOB_ud_itab (aget ud_itab ptr).
Definition table_list_at (n : Z) : UM ud_lookup_table_list_entry :=
  of_opt OOB_lookup_table_list (aget ud_lookup_table_list n).
Definition cur_le : UM ud_lookup_table_list_entry := o ← mgets le; of_opt Null_pointer o.
Definition le_at (idx : Z) : UM Z :=
  e ← cur_le; of_opt OOB_table (aget (le_table e) idx).

Definition cur_entry : UM ud_itab_entry := o ← mgets itab_entry; of_opt Null_pointer o.

(** [decode_operands] and [resolve_mode] for the current entry [e]. *)
Definition decode_operands_of (e : ud_itab_entry) : UM Z :=
  u ← mget;
  o ← decode_operand (opnd0 u) (eo_type (operand1 e)) (eo_size (operand1 e));
  mmod (fun u => u <| opnd0 := o |>);;
  u ← mget;
  o ← decode_operand (opnd1 u) (eo_type (operand2 e)) (eo_size (operand2 e));
  mmod (fun u => u <| opnd1 := o |>);;
  u ← mget;
  o ← decode_operand (opnd2 u) (eo_type (operand3 e)) (eo_size (operand3 e));
  mmod (fun u => u <| opnd2 := o |>);;
  mret 0.

Definition decode_operands : UM Z := e ← cur_entry; decode_operands_of e.

(** The mode flags a successful [resolve_mode] sets, from the instruction's
    prefix word. *)
Definition set_mode_flags (p : Z) (u : ud) : ud :=
  if dis_mode u =? 64 then
    let u := u <| pfx_rex := Z.lor (Z.land (pfx_rex u) 0x40)
                                   (Z.land (pfx_rex u) (REX_PFX_MASK p)) |> in
    let u := u <| default64 := P_DEF64 p |> in
    let u := u <| opr_mode := if truthy (REX_W (pfx_rex u)) then 64
                              else if truthy (pfx_opr u) then 16
                              else if truthy (default64 u) then 64 else 32 |> in
    u <| adr_mode := if truthy (pfx_adr u) then 32 else 64 |>
  else if dis_mode u =? 32 then
    u <| opr_mode := if truthy (pfx_opr u) then 16 else 32 |>
      <| adr_mode := if truthy (pfx_adr u) then 16 else 32 |>
  else if dis_mode u =? 16 then
    u <| opr_mode := if truthy (pfx_opr u) then 32 else 16 |>
      <| adr_mode := if truthy (pfx_adr u) then 32 else 16 |>
  else u.

Definition set_cast_flags (p : Z) (u : ud) : ud :=
  u <| c1 := if truthy (P_C1 p) then 1 else 0 |>
    <| c2 := if truthy (P_C2 p) then 1 else 0 |>
    <| c3 := if truthy (P_C3 p) then 1 else 0 |>
    <| implicit_addr := P_IMPADDR p |>.

Definition resolve_mode_of (e : ud_itab_entry) : UM Z :=
  u ← mget;
  if (dis_mode u =? 64) && truthy (P_INV64 (ie_prefix e)) then set_error;; mret (-1)
  else
    mmod (set_mode_flags (ie_prefix e));;
    mmod (set_cast_flags (ie_prefix e));;
    mret 0.

Definition resolve_mode : UM Z :=
  u ← mget;
  if truthy (ud_error u) then mret (-1) else e ← cur_entry; resolve_mode_of e.

(** Operand-size fix-up of call and jmp: far and near targets. *)
Definition resolve_branch (u : ud) : ud :=
  if op_size (opnd0 u) =? SZ_WP then
    u <| opnd0 := (opnd0 u) <| op_size := 16 |> |> <| br_far := 1 |> <| br_near := 0 |>
  else if op_size (opnd0 u) =? SZ_DP then
    u <| opnd0 := (opnd0 u) <| op_size := 32 |> |> <| br_far := 1 |> <| br_near := 0 |>
  else u <| br_far := 0 |> <| br_near := 1 |>.

Definition is_reg_operand (o : ud_operand) (r : Z) : bool :=
  (op_type o =? UD_OP_REG) && (base o =? r).

(** xchg (e)ax, (e)ax is nop; rep nop is pause. *)
Definition resolve_nop (u : ud) : ud :=
  let u :=
    if mnemonic u =? UD_Ixchg then
      if (is_reg_operand (opnd0 u) UD_R_AX && is_reg_operand (opnd1 u) UD_R_AX) ||
         (is_reg_operand (opnd0 u) UD_R_EAX && is_reg_operand (opnd1 u) UD_R_EAX)
      then u <| opnd0 := (opnd0 u) <| op_type := UD_NONE |> |>
             <| opnd1 := (opnd1 u) <| op_type := UD_NONE |> |>
             <| mnemonic := UD_Inop |>
      else u
    else u in
  if (mnemonic u =? UD_Inop) && truthy (pfx_rep u)
  then u <| pfx_rep := 0 |> <| mnemonic := UD_Ipause |>
  else u.

Definition resolve_mnemonic : UM Z :=
  mmod (fun u => u <| br_far := 0 |> <| br_near := 0 |>);;
  u ← mget;
  (if (mnemonic u =? UD_Icall) || (mnemonic u =? UD_Ijmp) then mmod resolve_branch
   else if mnemonic u =? UD_I3dnow then
     b ← on_inp ud_inp_curr;
     p ← le_at b;
     e ← itab_at p;
     mmod (fun u => u <| mnemonic := ie_mnemonic e |>)
   else mret tt);;
  u ← mget;
  if (mnemonic u =? UD_Iswapgs) && negb (dis_mode u =? 64) then set_error;; mret (-1)
  else mmod resolve_nop;; mret 0.

Definition decode_insn (ptr : Z) : UM Z :=
  ud_assert (Z.land ptr 0x8000 =? 0);;
  e ← itab_at ptr;
  mmod (fun u => u <| itab_entry := Some e |> <| mnemonic := ie_mnemonic e |>);;
  r ← resolve_mode;
  if negb (r =? 0) then mret (-1)
  else
    r ← decode_operands;
    if negb (r =? 0) then mret (-1)
    else
      r ← resolve_mnemonic;
      mret (if r =? 0 then 0 else -1).

Definition decode_3dnow : UM Z :=
  e ← cur_le;
  ud_assert (bool_decide (le_type e = UD_TAB__OPC_3DNOW));;
  p ← le_at 0xc;
  ud_assert (truthy p);;
  decode_insn p;;
  on_inp ud_inp_next;;
  err ← mgets ud_error;
  if truthy err then mret (-1)
  else
    b ← on_inp ud_inp_curr;
    p ← le_at b;
    ud_assert (Z.land p 0x8000 =? 0);;
    ie ← itab_at p;
    mmod (fun u => u <| mnemonic := ie_mnemonic ie |>);;
    mret 0.

(** Drop the prefix an SSE opcode has consumed. *)
Definition consume_sse_prefix (u : ud) : ud :=
  if pfx_insn u =? 0xf2 then u <| pfx_repne := 0 |>
  else if pfx_insn u =? 0xf3 then u <| pfx_rep := 0 |> <| pfx_repe := 0 |>
  else if pfx_insn u =? 0x66 then u <| pfx_opr := 0 |>
  else u.

Definition decode_ssepfx (decode_ext : Z -> UM Z) : UM Z :=
  u ← mget;
  let idx := (Z.land (pfx_insn u) 0xf + 1) / 2 in
  p ← le_at idx;
  let idx := if p =? 0 then 0 else idx in
  p ← le_at idx;
  mwhen (truthy idx && negb (p =? 0)) (mmod consume_sse_prefix);;
  p ← le_at idx;
  decode_ext p.

(** The index into an extension table, by its type ([decode_ext]'s switch,
    the SSE case apart). *)
Definition ext_index (t : ud_table_type) : UM Z :=
  match t with
  | UD_TAB__OPC_MOD => b ← modrm; mret ((MODRM_MOD b + 1) / 4)
  | UD_TAB__OPC_MODE => u ← mget; mret (dis_mode u / 32)
  | UD_TAB__OPC_OSIZE =>
      u ← mget;
      m ← eff_opr_mode (dis_mode u) (REX_W (pfx_rex u)) (pfx_opr u);
      mret (m / 32)
  | UD_TAB__OPC_ASIZE =>
      u ← mget;
      m ← eff_adr_mode (dis_mode u) (pfx_adr u);
      mret (m / 32)
  | UD_TAB__OPC_X87 => b ← modrm; mret (u8 (b - 0xC0))
  | UD_TAB__OPC_VENDOR =>
      u ← mget;
      if vendor u =? UD_VENDOR_ANY then
        p ← le_at 0; mret (if negb (p =? 0) then 0 else 1)
      else if vendor u =? UD_VENDOR_AMD then mret 0
      else mret 1
  | UD_TAB__OPC_RM => b ← modrm; mret (MODRM_RM b)
  | UD_TAB__OPC_REG => b ← modrm; mret (MODRM_REG b)
  | _ => mfail Assert_failed
  end.

Fixpoint decode_ext (fuel : nat) (ptr : Z) : UM Z :=
  if Z.land ptr 0x8000 =? 0 then decode_insn ptr
  else
    match fuel with
    | O => mfail Out_of_fuel
    | S fuel' =>
        e ← table_list_at (Z.land (Z.lnot 0x8000) ptr);
        mmod (fun u => u <| le := Some e |>);;
        match le_type e with
        | UD_TAB__OPC_3DNOW => decode_3dnow
        | UD_TAB__OPC_SSE => decode_ssepfx (decode_ext fuel')
        | t => idx ← ext_index t; p ← le_at idx; decode_ext fuel' p
        end
    end.

Fixpoint decode_opcode (fuel : nat) : UM Z :=
  match fuel with
  | O => mfail Out_of_fuel
  | S fuel' =>
      e ← cur_le;
      ud_assert (bool_decide (le_type e = UD_TAB__OPC_TABLE));;
      on_inp ud_inp_next;;
      err ← mgets ud_error;
      if truthy err then mret (-1)
      else
        b ← on_inp ud_inp_curr;
        ptr ← le_at b;
        if negb (Z.land ptr 0x8000 =? 0) then
          e ← table_list_at (Z.land ptr (Z.lnot 0x8000));
          mmod (fun u => u <| le := Some e |>);;
          if bool_decide (le_type e = UD_TAB__OPC_TABLE) then decode_opcode fuel'
          else decode_ext (length ud_lookup_table_list) ptr
        else decode_ext (length ud_lookup_table_list) ptr
  end.

(** [ud_decode] up to the error check: prefixes, then opcode and operands;
    the result is the error flag the C code stores back. *)
Definition ud_decode_opcode : UM bool :=
  mmod (fun u => u <| inp := ud_inp_start (inp u) |>);;
  mmod clear_insn;;
  e ← table_list_at 0;
  mmod (fun u => u <| le := Some e |>);;
  r ← decode_prefixes;
  if r =? -1 then mret true
  else
    r ← decode_opcode (length ud_lookup_table_list);
    if r =? -1 then mret true else e ← mgets ud_error; mret (truthy e).

(** The handling of a decoding error: the invalid instruction. *)
Definition ud_decode_error (err : bool) : UM unit :=
  mmod (fun u => u <| inp := (inp u) <| error := b2z err |> |>);;
  mwhen err
    (mmod clear_insn;;
     mmod (fun u => u <| itab_entry := Some s_ie__invalid |>
                      <| mnemonic := ie_mnemonic s_ie__invalid |>)).

(** The segment prefix dropped when no operand uses it, and the program
    counter moved. *)
Definition drop_unused_seg (e : ud_itab_entry) (u : ud) : ud :=
  if negb (truthy (P_SEG (ie_prefix e))) && negb (op_type (opnd0 u) =? UD_OP_MEM) &&
     negb (op_type (opnd1 u) =? UD_OP_MEM)
  then u <| pfx_seg := 0 |> else u.

Definition advance_pc (u : ud) : ud :=
  u <| insn_offset := pc u |> <| insn_fill := 0 |> <| pc := u64 (pc u + inp_ctr (inp u)) |>.

(** [ud_decode] without its last step, the hex dump. *)
Definition ud_decode_insn : UM unit :=
  err ← ud_decode_opcode;
  ud_decode_error err;;
  e ← cur_entry;
  mmod (drop_unused_seg e);;
  mmod advance_pc.

Definition ud_decode : UM Z :=
  ud_decode_insn;;
  gen_hex;;
  mgets (fun u => inp_ctr (inp u)).

(** [ud_lookup_mnemonic]: the mnemonic's string. *)
Definition ud_lookup_mnemonic (c : Z) : UM string :=
  of_opt OOB_mnemonics_str (aget ud_mnemonics_str c).

End tables.
