(* ===== verification/UdDecodeSafe.v ===== *)
(** * udis86: memory safety and termination of the decoder

    What [itab.py] guarantees of the tables it generates is the class
    [ItabOk], stated as executable checks.  Under it every table access of
    [ud_decode] is in range, the recursion through the tables ends, and an
    instruction takes at most 45 bytes, so [inp_sess] (64 bytes) never
    overflows.  [insn_hexcode] (32 bytes) does for instructions of more than
    15 bytes: [gen_hex] writes outside it exactly then. *)

From stdpp Require Import base numbers list.
From S2P Require Import Prelude UdTypes UdInput UdDecode.

#[local] Open Scope Z_scope.

(** ** What the table generator guarantees *)

(** [TableInfo] of [ud_opcode.py]. *)
Definition table_size (t : ud_table_type) : nat :=
  match t with
  | UD_TAB__OPC_TABLE | UD_TAB__OPC_3DNOW => 256
  | UD_TAB__OPC_SSE => 4
  | UD_TAB__OPC_REG | UD_TAB__OPC_RM => 8
  | UD_TAB__OPC_MOD => 2
  | UD_TAB__OPC_MODE | UD_TAB__OPC_ASIZE | UD_TAB__OPC_OSIZE | UD_TAB__OPC_VENDOR => 3
  | UD_TAB__OPC_X87 => 64
  end.

Definition is_group (p : Z) : bool := negb (Z.land p 0x8000 =? 0).
Definition group_idx (p : Z) : Z := Z.land (Z.lnot 0x8000) p.

Section ok.
Context {T : Itab}.

(** Entry [i] of table [n]: an instruction of [ud_itab], or a table numbered
    after [n] ([genLookupTable] numbers in preorder).  Opcode tables hang off
    opcode tables only, an x87 table off entry 11 of a mod table, and 3DNow
    tables are leaves. *)
Definition ptr_ok (n : nat) (t : ud_table_type) (i : nat) (p : Z) : bool :=
  if is_group p then
    match aget ud_lookup_table_list (group_idx p) with
    | Some e' =>
        (Z.of_nat n <? group_idx p) &&
        match t, le_type e' with
        | UD_TAB__OPC_3DNOW, _ => false
        | UD_TAB__OPC_TABLE, UD_TAB__OPC_TABLE => true
        | _, UD_TAB__OPC_TABLE => false
        | UD_TAB__OPC_MOD, UD_TAB__OPC_X87 => bool_decide (i = 1%nat)
        | _, UD_TAB__OPC_X87 => false
        | _, _ => true
        end
    | None => false
    end
  else (0 <=? p) && (p <? Z.of_nat (length ud_itab)).

Definition table_ok (n : nat) (e : ud_lookup_table_list_entry) : bool :=
  bool_decide (length (le_table e) = table_size (le_type e)) &&
  forallb id (imap (ptr_ok n (le_type e)) (le_table e)) &&
  match le_type e with
  | UD_TAB__OPC_3DNOW => match le_table e !! 12%nat with Some p => truthy p | None => false end
  | _ => true
  end.

(** The nesting depth of the opcode tables under table [n]. *)
Fixpoint opc_depth (fuel : nat) (n : Z) : nat :=
  match fuel with
  | O => O
  | S fuel' =>
      match aget ud_lookup_table_list n with
      | Some e =>
          S (foldr (fun p d =>
               if is_group p then
                 match aget ud_lookup_table_list (group_idx p) with
                 | Some e' => match le_type e' with
                              | UD_TAB__OPC_TABLE => Nat.max (opc_depth fuel' (group_idx p)) d
                              | _ => d
                              end
                 | None => d
                 end
               else d) 0%nat (le_table e))
      | None => O
      end
  end.

(** An instruction's operands: [OP_MR] comes with the sizes WV, BV and DY. *)
Definition operand_ok (o : ud_itab_entry_operand) : bool :=
  match eo_type o, eo_size o with
  | OP_MR, SZ_WV | OP_MR, SZ_BV | OP_MR, SZ_DY => true
  | OP_MR, _ => false
  | _, _ => true
  end.

Definition entry_ok (e : ud_itab_entry) : bool :=
  operand_ok (operand1 e) && operand_ok (operand2 e) && operand_ok (operand3 e) &&
  negb (ie_mnemonic e =? UD_I3dnow).

Definition root_ok : bool :=
  match ud_lookup_table_list with
  | e :: _ => bool_decide (le_type e = UD_TAB__OPC_TABLE)
  | [] => false
  end.

Class ItabOk : Prop := {
  itab_tables_ok : forallb id (imap table_ok ud_lookup_table_list) = true;
  itab_root_ok : root_ok = true;
  itab_depth_ok : (opc_depth (length ud_lookup_table_list) 0 <= 3)%nat;
  itab_entries_ok : forallb entry_ok ud_itab = true
}.

End ok.
Arguments ItabOk T : clear implicits.

(** ** Computations that read a bounded number of bytes *)

(** [r'] is [r] after some reads of the same instruction. *)
Record adv (r r' : reader) : Prop := mk_adv {
  adv_all : r_all r' = r_all r;
  adv_pos : (r_pos r' + r_ctr r = r_pos r + r_ctr r')%nat;
  adv_ctr : (r_ctr r <= r_ctr r')%nat;
  adv_eof : r_eof r = true -> r_eof r' = true;
  adv_eof_pos : r_eof r' = true -> r_eof r = true \/ (length (r_all r') <= r_pos r')%nat
}.

(** What opcode decoding leaves alone, and what operand decoding does. *)
Definition outer (u : ud) :=
  (translator u, insn_hexcode u, insn_buffer u, (insn_offset u, insn_fill u), dis_mode u, pc u,
   vendor u, pfx_insn u).
Definition core (u : ud) := (outer u, mnemonic u, le u, itab_entry u).

(** The bytes read so far, the mod/rm byte counted from the start. *)
Definition pot (u : ud) (r : reader) : nat :=
  r_ctr r + (if truthy (have_modrm u) then 0 else 1).

Definition modrm_ok (u : ud) : Prop := truthy (have_modrm u) = true -> is_byte (modrm_byte u).

(** [m] runs without a fault, reads at most [n] bytes beside the mod/rm
    byte, and leaves [core] alone. *)
Definition reads (n : nat) {A} (m : UM A) : Prop :=
  forall u r, repr (inp u) r -> modrm_ok u -> (pot u r + n <= 64)%nat ->
  wp m u (fun _ u' => exists r', repr (inp u') r' /\ adv r r' /\ modrm_ok u' /\
                        (pot u' r' <= pot u r + n)%nat /\ core u' = core u).

Lemma adv_refl r : adv r r.
Proof. constructor; auto; lia. Qed.

Lemma adv_trans r1 r2 r3 : adv r1 r2 -> adv r2 r3 -> adv r1 r3.
Proof.
  intros [] []. constructor; try congruence; try lia; [auto |].
  intros He. destruct (adv_eof_pos1 He) as [He2 |]; [| by right].
  destruct (adv_eof_pos0 He2) as [| Hp]; [by left |]. right. rewrite adv_all1. lia.
Qed.

Lemma adv_next r : adv r (snd (reader_next r)).
Proof.
  unfold reader_next. destruct (r_all r !! r_pos r) eqn:Hc; constructor; simpl; auto; try lia.
  intros _. right. by apply lookup_ge_None.
Qed.

Lemma adv_read n r : adv r (snd (reader_read n r)).
Proof.
  revert r. induction n as [|n IH]; intros r; simpl; [apply adv_refl |].
  pose proof (adv_next r) as Hn. destruct (reader_next r) as [c r1].
  specialize (IH r1). destruct (reader_read n r1) as [cs r2]. simpl in *.
  by eapply adv_trans.
Qed.

Lemma ctr_read n r : (r_ctr (snd (reader_read n r)) <= r_ctr r + n)%nat.
Proof.
  revert r. induction n as [|n IH]; intros r; simpl; [lia |].
  pose proof (reader_next_ctr r) as Hn. destruct (reader_next r) as [c r1].
  specialize (IH r1). destruct (reader_read n r1) as [cs r2]. simpl in *. lia.
Qed.

Lemma adv_err r e : adv r (mk_reader (r_all r) (r_pos r) (r_ctr r) (r_eof r) e).
Proof. constructor; simpl; auto; lia. Qed.

(** ** Rules for [reads] *)

Create HintDb reads.

Lemma reads_weaken {A} (m : UM A) n n' : reads n m -> (n <= n')%nat -> reads n' m.
Proof.
  intros Hm Hn u r Hr Hmr Hp. eapply wp_mono; [apply (Hm u r); [done | done | lia] |].
  intros a u' (r' & ? & ? & ? & ? & ?). exists r'. split_and!; (done || lia).
Qed.

Lemma reads_ret {A} (a : A) : reads 0 (mret a).
Proof. intros u r ? ? ?. apply wp_ret. exists r. split_and!; auto using adv_refl; lia. Qed.

Lemma reads_get : reads 0 mget.
Proof. intros u r ? ? ?. apply wp_get. exists r. split_and!; auto using adv_refl; lia. Qed.

Lemma reads_gets {A} (f : ud -> A) : reads 0 (mgets f).
Proof. intros u r ? ? ?. apply wp_gets. exists r. split_and!; auto using adv_refl; lia. Qed.

Lemma reads_bind {A B} (m : UM A) (f : A -> UM B) a b n :
  reads a m -> (forall x, reads b (f x)) -> (a + b <= n)%nat -> reads n (m ≫= f).
Proof.
  intros Hm Hf Hn u r Hr Hmr Hp. apply wp_bind.
  eapply wp_mono; [apply (Hm u r); [done | done | lia] |].
  intros x u1 (r1 & Hr1 & Ha1 & Hm1 & Hp1 & Hc1).
  eapply wp_mono; [apply (Hf x u1 r1); [done | done | lia] |].
  intros y u2 (r2 & Hr2 & Ha2 & Hm2 & Hp2 & Hc2). exists r2.
  split_and!; [done | by eapply adv_trans | done | lia | congruence].
Qed.

Lemma reads_if {A} (b : bool) (m1 m2 : UM A) n :
  reads n m1 -> reads n m2 -> reads n (if b then m1 else m2).
Proof. by destruct b. Qed.

(** A state change outside the input system, [core] and the mod/rm byte. *)
Lemma reads_mod (f : ud -> ud) :
  (forall u, inp (f u) = inp u) -> (forall u, core (f u) = core u) ->
  (forall u, have_modrm (f u) = have_modrm u) ->
  (forall u, modrm_byte (f u) = modrm_byte u) -> reads 0 (mmod f).
Proof.
  intros Hi Hc Hh Hb u r ? Hmr ?. apply wp_mod. exists r.
  unfold modrm_ok, pot in *. rewrite Hi, Hc, Hh, Hb.
  split_and!; auto using adv_refl; lia.
Qed.

Lemma reads_set_error : reads 0 set_error.
Proof.
  intros u r Hr ? ?. apply wp_mod.
  exists (mk_reader (r_all r) (r_pos r) (r_ctr r) (r_eof r) 1).
  split_and!; [by apply error_repr | apply adv_err | done | unfold pot in *; simpl; lia | done].
Qed.

(** Input operations. *)
Definition ireads (n : nat) {A} (m : IM A) : Prop :=
  forall i r, repr i r -> (r_ctr r + n <= 64)%nat ->
  wp m i (fun _ i' => exists r', repr i' r' /\ adv r r' /\ (r_ctr r' <= r_ctr r + n)%nat).

Lemma wp_on_inp {A} (m : IM A) u (Q : A -> ud -> Prop) :
  wp m (inp u) (fun a i => Q a (u <| inp := i |>)) -> wp (on_inp m) u Q.
Proof. unfold wp, on_inp. by destruct (m (inp u)) as [[a i]|]. Qed.

Lemma reads_on_inp {A} n (m : IM A) : ireads n m -> reads n (on_inp m).
Proof.
  intros Hm u r Hr Hmr Hp. apply wp_on_inp. unfold pot in Hp.
  eapply wp_mono; [apply (Hm _ r Hr); lia |].
  intros a i (r' & ? & ? & ?). exists r'. split_and!; try done. unfold pot. simpl. lia.
Qed.

Lemma ireads_next : ireads 1 ud_inp_next.
Proof.
  intros i r Hr Hn. eapply wp_mono; [apply ud_inp_next_repr; [done | lia] |].
  intros c i' [_ Hr']. eexists. split_and!; [done | apply adv_next |].
  pose proof (reader_next_ctr r). lia.
Qed.

Lemma curr_byte i r : repr i r -> wp ud_inp_curr i (fun c i' => is_byte c /\ i' = i).
Proof.
  intros [n H]. unfold ud_inp_curr. wp_steps.
  destruct (aget_is_Some (inp_cache i) (inp_curr i)) as [c Hc].
  { rewrite (repr_curr _ _ _ H), (repr_cache_len _ _ _ H). apply u8_range. }
  rewrite Hc. wp_steps. split; [| done]. apply aget_Some in Hc as [_ Hc].
  eapply Forall_lookup_1; [apply (repr_cache_bytes _ _ _ H) | done].
Qed.

Lemma ireads_curr : ireads 0 ud_inp_curr.
Proof.
  intros i r Hr Hn. eapply wp_mono; [by eapply curr_byte |].
  intros c i' [_ ->]. exists r. split_and!; [done | apply adv_refl | lia].
Qed.

Lemma ireads_uint16 : ireads 2 ud_inp_uint16.
Proof.
  intros i r Hr Hn. eapply wp_mono; [by apply ud_inp_uint16_repr |].
  intros c i' [_ Hr']. eexists. split_and!; [done | apply adv_read | apply ctr_read].
Qed.

Lemma ireads_uint32 : ireads 4 ud_inp_uint32.
Proof.
  intros i r Hr Hn. eapply wp_mono; [by apply ud_inp_uint32_repr |].
  intros c i' [_ Hr']. eexists. split_and!; [done | apply adv_read | apply ctr_read].
Qed.

Lemma ireads_uint64 : ireads 8 ud_inp_uint64.
Proof.
  intros i r Hr Hn. eapply wp_mono; [by apply ud_inp_uint64_repr |].
  intros c i' [_ Hr']. eexists. split_and!; [done | apply adv_read | apply ctr_read].
Qed.

Definition reads_next := reads_on_inp _ _ ireads_next.
Definition reads_uint8 : reads 1 (on_inp ud_inp_uint8) := reads_on_inp _ _ ireads_next.
Definition reads_curr := reads_on_inp _ _ ireads_curr.
Definition reads_uint16 := reads_on_inp _ _ ireads_uint16.
Definition reads_uint32 := reads_on_inp _ _ ireads_uint32.
Definition reads_uint64 := reads_on_inp _ _ ireads_uint64.

Lemma reads_modrm : reads 0 modrm.
Proof.
  intros u r Hr Hmr Hp. unfold modrm. do 2 wp_step.
  destruct (truthy (have_modrm u)) eqn:Hh.
  - wp_steps. exists r. split_and!; auto using adv_refl. lia.
  - unfold pot in *. rewrite Hh in *.
    apply wp_bind, wp_bind, wp_on_inp.
    eapply wp_mono; [apply ud_inp_next_repr; [done | lia] |].
    intros c i' [-> Hr']. wp_steps. exists (snd (reader_next r)).
    pose proof (reader_next_ctr r).
    split_and!; [done | apply adv_next | intros _; by eapply reader_next_byte | simpl; lia | done].
Qed.

Lemma reads_seq {A B} (m : UM A) (f : A -> UM B) a n :
  reads a m -> (a <= n)%nat -> (forall x, reads (n - a) (f x)) -> reads n (m ≫= f).
Proof. intros. eapply reads_bind; [done | done | lia]. Qed.

#[export] Hint Resolve reads_ret reads_get reads_gets reads_set_error reads_next reads_uint8
  reads_curr reads_uint16 reads_uint32 reads_uint64 reads_modrm : reads.

Ltac reads_leaf := eapply reads_weaken; [solve [eauto with reads nocore] | lia].
Ltac reads_step :=
  lazymatch goal with
  | |- reads _ (mbind _ (mbind _ _)) =>
      eapply reads_seq; [eapply reads_weaken; [solve [eauto with reads nocore] | apply Nat.le_refl]
                        | lia | intros ?; cbn [Nat.sub]]
  | |- reads _ (mbind _ _) =>
      eapply reads_seq; [solve [eauto with reads nocore] | lia | intros ?; cbn [Nat.sub]]
  | |- reads _ (if ?b then _ else _) => apply reads_if
  | |- reads _ (let _ := _ in _) => cbv zeta
  | |- reads _ (match ?t with _ => _ end) => destruct t
  | |- reads _ _ => reads_leaf
  end.
Ltac reads_tac := repeat reads_step.

(** ** The operand decoders *)

Lemma reads_decode_a op : reads 6 (decode_a op).
Proof. unfold decode_a. reads_tac. Qed.

Lemma reads_resolve_reg t i : reads 0 (resolve_reg t i).
Proof. destruct t; simpl; reads_tac. Qed.

Lemma reads_decode_imm s op : reads 8 (decode_imm s op).
Proof. unfold decode_imm. reads_tac. Qed.

Lemma reads_decode_disp op : reads 8 (decode_disp op).
Proof. unfold decode_disp. reads_tac. Qed.

#[export] Hint Resolve reads_decode_a reads_resolve_reg reads_decode_imm reads_decode_disp : reads.

Lemma reads_decode_modrm_reg op t s : reads 0 (decode_modrm_reg op t s).
Proof. unfold decode_modrm_reg. reads_tac. Qed.

Lemma reads_decode_mem64 m rm op : reads 1 (decode_mem64 m rm op).
Proof. unfold decode_mem64. reads_tac. Qed.

Lemma reads_decode_mem32 m rm op : reads 1 (decode_mem32 m rm op).
Proof. unfold decode_mem32. reads_tac. Qed.

Lemma land7_range x : 0 <= Z.land x 7 < 8.
Proof. change 7 with (Z.ones 3). rewrite Z.land_ones by lia. apply Z.mod_pos_bound. lia. Qed.
Lemma land3_range x : 0 <= Z.land x 3 < 4.
Proof. change 3 with (Z.ones 2). rewrite Z.land_ones by lia. apply Z.mod_pos_bound. lia. Qed.
Lemma land15_range x : 0 <= Z.land x 15 < 16.
Proof. change 15 with (Z.ones 4). rewrite Z.land_ones by lia. apply Z.mod_pos_bound. lia. Qed.

Lemma reads_of_opt {A} e (o : option A) : is_Some o -> reads 0 (of_opt e o).
Proof. intros [a ->]. apply reads_ret. Qed.

Lemma reads_decode_mem16 m rm op : reads 1 (decode_mem16 m rm op).
Proof.
  unfold decode_mem16.
  eapply reads_seq; [apply reads_of_opt, aget_is_Some, land7_range | lia | intros ?; cbn [Nat.sub]].
  eapply reads_seq; [apply reads_of_opt, aget_is_Some, land7_range | lia | intros ?; cbn [Nat.sub]].
  reads_tac.
Qed.

#[export] Hint Resolve reads_decode_modrm_reg reads_decode_mem64 reads_decode_mem32
  reads_decode_mem16 : reads.

Lemma reads_decode_mem a m rm op :
  reads 1 (if a =? 64 then decode_mem64 m rm op
           else if a =? 32 then decode_mem32 m rm op else decode_mem16 m rm op).
Proof. reads_tac. Qed.

#[export] Hint Resolve reads_decode_mem : reads.

Lemma reads_decode_modrm_rm op t s : reads 9 (decode_modrm_rm op t s).
Proof. unfold decode_modrm_rm. reads_tac. Qed.

Lemma reads_decode_o s op : reads 8 (decode_o s op).
Proof. unfold decode_o. reads_tac. Qed.

Lemma reads_error_if (b : bool) : reads 0 (if b then set_error else mret tt).
Proof. reads_tac. Qed.

#[export] Hint Resolve reads_decode_modrm_rm reads_decode_o reads_error_if : reads.

Lemma reads_decode_operand op (o : ud_itab_entry_operand) :
  operand_ok o = true -> reads 9 (decode_operand op (eo_type o) (eo_size o)).
Proof.
  destruct o as [t s]. unfold operand_ok, decode_operand. simpl.
  destruct t; intros Hok; try solve [reads_tac].
  destruct s; try discriminate; simpl; reads_tac.
Qed.

(** ** Decoding one instruction of the table *)

(** From [u] and [r], at most [n] more bytes were read and [outer] kept. *)
Definition after (n : nat) (u : ud) (r : reader) (u' : ud) : Prop :=
  exists r', repr (inp u') r' /\ adv r r' /\ modrm_ok u' /\
    (pot u' r' <= pot u r + n)%nat /\ outer u' = outer u.

(** The states opcode decoding runs in. *)
Record dec_ok (n : nat) (u : ud) (r : reader) : Prop := mk_dec_ok {
  dec_repr : repr (inp u) r;
  dec_modrm : modrm_ok u;
  dec_pot : (pot u r + n <= 64)%nat;
  dec_mode : dis_mode u = 16 \/ dis_mode u = 32 \/ dis_mode u = 64;
  dec_pfx : pfx_insn u = 0 \/ pfx_insn u = 0x66 \/ pfx_insn u = 0xF2 \/ pfx_insn u = 0xF3
}.

Lemma after_trans n1 n2 n u1 r1 u2 r2 u3 :
  repr (inp u2) r2 -> adv r1 r2 -> (pot u2 r2 <= pot u1 r1 + n1)%nat -> outer u2 = outer u1 ->
  after n2 u2 r2 u3 -> (n1 + n2 <= n)%nat -> after n u1 r1 u3.
Proof.
  intros Hr2 Ha Hp Ho (r3 & ? & ? & ? & ? & ?) Hn. exists r3.
  split_and!; [done | by eapply adv_trans | done | lia | congruence].
Qed.

Lemma wp_reads {A} n k (m : UM A) u r (Q : A -> ud -> Prop) :
  reads n m -> dec_ok (n + k) u r ->
  (forall a u' r', dec_ok k u' r' -> adv r r' -> (pot u' r' <= pot u r + n)%nat ->
     core u' = core u -> Q a u') ->
  wp m u Q.
Proof.
  intros Hm [] HQ. eapply wp_mono; [apply (Hm u r); [done | done | lia] |].
  intros a u' (r' & ? & ? & ? & ? & Hc). apply (HQ a u' r'); try done.
  unfold core, outer in Hc. simplify_eq.
  constructor; [done | done | lia | |]; congruence.
Qed.

Lemma dec_ok_weaken n n' u r : dec_ok n u r -> (n' <= n)%nat -> dec_ok n' u r.
Proof. intros [] ?. constructor; try done. lia. Qed.

(** A change that keeps [inp], the mod/rm byte, the mode and [pfx_insn]. *)
Lemma dec_ok_mod n u r (f : ud -> ud) :
  dec_ok n u r -> inp (f u) = inp u -> have_modrm (f u) = have_modrm u ->
  modrm_byte (f u) = modrm_byte u -> dis_mode (f u) = dis_mode u -> pfx_insn (f u) = pfx_insn u ->
  dec_ok n (f u) r.
Proof.
  intros [] Hi Hh Hb Hd Hp. unfold modrm_ok, pot in *.
  constructor; unfold modrm_ok, pot; rewrite ?Hi, ?Hh, ?Hb, ?Hd, ?Hp; done.
Qed.

Section insn.
Context {T : Itab} {TO : ItabOk T}.

Lemma set_mode_flags_frame p u :
  inp (set_mode_flags p u) = inp u /\ core (set_mode_flags p u) = core u /\
  have_modrm (set_mode_flags p u) = have_modrm u /\
  modrm_byte (set_mode_flags p u) = modrm_byte u.
Proof.
  unfold set_mode_flags. destruct (dis_mode u =? 64), (dis_mode u =? 32), (dis_mode u =? 16); done.
Qed.

Lemma reads_resolve_mode_of e : reads 0 (resolve_mode_of e).
Proof.
  unfold resolve_mode_of. eapply reads_seq; [apply reads_get | lia | intros u; cbn [Nat.sub]].
  apply reads_if; [reads_tac |].
  eapply reads_seq; [apply reads_mod; intros; apply set_mode_flags_frame | lia | intros ?].
  eapply reads_seq; [by apply reads_mod | lia | intros ?; reads_tac].
Qed.

Lemma reads_decode_operands_of e : entry_ok e = true -> reads 27 (decode_operands_of e).
Proof.
  unfold entry_ok. intros. zbool. unfold decode_operands_of.
  do 3 (eapply reads_seq; [apply reads_get | lia | intros ?; cbn [Nat.sub]];
        eapply reads_seq; [by apply reads_decode_operand | lia | intros ?; cbn [Nat.sub]];
        eapply reads_seq; [by apply reads_mod | lia | intros ?; cbn [Nat.sub]]).
  reads_tac.
Qed.

Lemma cur_entry_eq e u : itab_entry u = Some e -> cur_entry u = Ok (e, u).
Proof. intros He. unfold cur_entry, mbind, M_bind, mgets. by rewrite He. Qed.

Lemma entry_ok_at p e : aget ud_itab p = Some e -> entry_ok e = true.
Proof.
  intros [_ He]%aget_Some. pose proof itab_entries_ok as Hall.
  apply (proj1 (forallb_forall _ _) Hall). by eapply list_elem_of_In, list_elem_of_lookup_2.
Qed.

Lemma after_refl n u r : dec_ok n u r -> after 0 u r u.
Proof. intros []. exists r. split_and!; auto using adv_refl. lia. Qed.

Lemma resolve_branch_frame u :
  inp (resolve_branch u) = inp u /\ have_modrm (resolve_branch u) = have_modrm u /\
  modrm_byte (resolve_branch u) = modrm_byte u /\ outer (resolve_branch u) = outer u /\
  le (resolve_branch u) = le u /\ itab_entry (resolve_branch u) = itab_entry u.
Proof. unfold resolve_branch. by repeat case_match. Qed.

Lemma resolve_nop_frame u :
  inp (resolve_nop u) = inp u /\ have_modrm (resolve_nop u) = have_modrm u /\
  modrm_byte (resolve_nop u) = modrm_byte u /\ outer (resolve_nop u) = outer u /\
  le (resolve_nop u) = le u /\ itab_entry (resolve_nop u) = itab_entry u.
Proof. unfold resolve_nop. by repeat case_match. Qed.

(** The fields [resolve_mnemonic] keeps, beside [inp]. *)
Definition mn_frame (u u' : ud) : Prop :=
  have_modrm u' = have_modrm u /\ modrm_byte u' = modrm_byte u /\ outer u' = outer u /\
  le u' = le u /\ itab_entry u' = itab_entry u.

Lemma resolve_mnemonic_ok n u r :
  dec_ok n u r -> (mnemonic u =? UD_I3dnow) = false ->
  wp resolve_mnemonic u (fun _ u' => after 0 u r u' /\ le u' = le u /\ itab_entry u' = itab_entry u).
Proof.
  intros [] H3. unfold resolve_mnemonic. wp_step. wp_step.
  set (u1 := u <| br_far := 0 |> <| br_near := 0 |>).
  wp_step. wp_step. apply wp_bind.
  apply (wp_mono _ _ (fun _ u2 => inp u2 = inp u /\ mn_frame u u2)).
  { change (mnemonic u1) with (mnemonic u). rewrite H3.
    wp_steps; unfold mn_frame; [| done].
    destruct (resolve_branch_frame u1) as (? & ? & ? & ? & ? & ?). by split_and!. }
  intros [] u2 (Hi & Hh & Hb & Ho & Hl & He). wp_step. wp_step. wp_step.
  - unfold set_error. wp_steps. split_and!; [| done | done].
    exists (mk_reader (r_all r) (r_pos r) (r_ctr r) (r_eof r) 1).
    unfold modrm_ok, pot in *. simpl. rewrite Hi, Hh, Hb.
    split_and!; [by apply error_repr | apply adv_err | done | lia | done].
  - wp_steps. destruct (resolve_nop_frame u2) as (Hi' & Hh' & Hb' & Ho' & Hl' & He').
    split_and!; [| congruence | congruence]. exists r.
    unfold modrm_ok, pot in *. rewrite Hi', Hi, Hh', Hh, Hb', Hb.
    split_and!; [done | apply adv_refl | done | lia | congruence].
Qed.

Definition insn_post (n : nat) (u : ud) (r : reader) (u' : ud) : Prop :=
  after n u r u' /\ le u' = le u /\ is_Some (itab_entry u').

Lemma after_intro k n u r u' r' :
  dec_ok k u' r' -> adv r r' -> (pot u' r' <= pot u r + n)%nat -> outer u' = outer u ->
  after n u r u'.
Proof. intros []. exists r'. by split_and!. Qed.

Lemma cur_entry_bind {A} e u (f : ud_itab_entry -> UM A) Q :
  itab_entry u = Some e -> wp (f e) u Q -> wp (cur_entry ≫= f) u Q.
Proof. intros He Hf. apply wp_bind. eapply wp_intro; [by apply cur_entry_eq | done]. Qed.

Lemma core_outer u u' : core u' = core u -> outer u' = outer u /\ mnemonic u' = mnemonic u /\
  le u' = le u /\ itab_entry u' = itab_entry u.
Proof.
  unfold core. intros H. split_and!;
    [exact (f_equal (fun x => x.1.1.1) H) | exact (f_equal (fun x => x.1.1.2) H)
    | exact (f_equal (fun x => x.1.2) H) | exact (f_equal snd H)].
Qed.

Lemma decode_insn_ok k ptr u r :
  dec_ok (27 + k) u r -> is_group ptr = false -> 0 <= ptr < Z.of_nat (length ud_itab) ->
  wp (decode_insn ptr) u (fun _ u' => insn_post 27 u r u').
Proof.
  intros Hok Hg Hptr. unfold decode_insn, is_group in *. apply negb_false_iff in Hg.
  rewrite Hg. unfold ud_assert. do 2 wp_step.
  destruct (aget_is_Some _ _ Hptr) as [e He]. unfold itab_at. rewrite He. wp_steps.
  set (u1 := u <| itab_entry := Some e |> <| mnemonic := ie_mnemonic e |>).
  assert (dec_ok (27 + k) u1 r) as Hok1 by (by apply (dec_ok_mod _ u r (fun u =>
    u <| itab_entry := Some e |> <| mnemonic := ie_mnemonic e |>))).
  pose proof (entry_ok_at _ _ He) as Hent.
  assert ((ie_mnemonic e =? UD_I3dnow) = false) as H3 by (unfold entry_ok in Hent; zbool; by apply Z.eqb_neq).
  assert (pot u1 r = pot u r) as Hp1 by done.
  assert (outer u1 = outer u) as Ho1 by done.
  assert (le u1 = le u) as Hl1 by done.
  unfold resolve_mode. do 3 wp_step.
  { wp_step. apply wp_if; [intros _ | done]. wp_steps. split_and!; [| done | done].
    eapply after_intro; [done | apply adv_refl | lia | done]. }
  eapply (cur_entry_bind e); [done |].
  eapply (wp_reads 0 (27 + k)); [apply reads_resolve_mode_of | done |].
  intros x u2 r2 Hok2 Ha2 Hp2 (Ho2 & Hm2 & Hl2 & He2)%core_outer.
  wp_step; wp_steps.
  { split_and!; [| congruence | by rewrite He2].
    eapply after_intro; [done | done | lia | congruence]. }
  unfold decode_operands. eapply (cur_entry_bind e); [by rewrite He2 |].
  eapply (wp_reads 27 k); [by apply reads_decode_operands_of | done |].
  intros y u3 r3 Hok3 Ha3 Hp3 (Ho3 & Hm3 & Hl3 & He3)%core_outer.
  wp_step; wp_steps.
  { split_and!; [| congruence | by rewrite He3, He2].
    eapply after_intro; [done | by eapply adv_trans | lia | congruence]. }
  eapply wp_mono; [eapply resolve_mnemonic_ok; [done | by rewrite Hm3, Hm2] |].
  intros z u4 (Ha4 & Hl4 & He4). wp_steps.
  split_and!; [| congruence | by rewrite He4, He3, He2].
  eapply (after_trans 27 0); [apply Hok3 | by eapply adv_trans | lia | congruence | done | lia].
Qed.

(** ** The lookup tables *)

Lemma forallb_imap {A} (f : nat -> A -> bool) l i x :
  forallb id (imap f l) = true -> l !! i = Some x -> f i x = true.
Proof.
  intros Hall Hx. apply (proj1 (forallb_forall id _) Hall).
  apply list_elem_of_In, (list_elem_of_lookup_2 _ i). by rewrite list_lookup_imap, Hx.
Qed.

Lemma table_at n e : aget ud_lookup_table_list n = Some e -> table_ok (Z.to_nat n) e = true.
Proof. intros [_ He]%aget_Some. eapply forallb_imap; [apply itab_tables_ok | done]. Qed.

Lemma table_len n e :
  aget ud_lookup_table_list n = Some e -> length (le_table e) = table_size (le_type e).
Proof. intros Ht%table_at. unfold table_ok in Ht. by zbool. Qed.

Lemma table_entry n e i p :
  aget ud_lookup_table_list n = Some e -> aget (le_table e) i = Some p ->
  ptr_ok (Z.to_nat n) (le_type e) (Z.to_nat i) p = true.
Proof.
  intros Ht%table_at [_ Hp]%aget_Some. unfold table_ok in Ht. zbool.
  by eapply forallb_imap.
Qed.

Lemma le_at_ok {A} n e idx u (f : Z -> UM A) Q :
  le u = Some e -> aget ud_lookup_table_list n = Some e ->
  0 <= idx < Z.of_nat (table_size (le_type e)) ->
  (forall p, aget (le_table e) idx = Some p -> wp (f p) u Q) ->
  wp (le_at idx ≫= f) u Q.
Proof.
  intros Hle Hn Hidx HQ. unfold le_at, cur_le. do 3 apply wp_bind. apply wp_gets.
  rewrite Hle. wp_steps. rewrite <- (table_len _ _ Hn) in Hidx.
  destruct (aget_is_Some _ _ Hidx) as [p Hp]. rewrite Hp. wp_steps. by apply HQ.
Qed.

Lemma modrm_val k u r :
  dec_ok k u r ->
  wp modrm u (fun b u' => exists r', dec_ok k u' r' /\ adv r r' /\ (pot u' r' <= pot u r)%nat /\
    core u' = core u /\ truthy (have_modrm u') = true /\ b = modrm_byte u' /\ is_byte b /\
    (truthy (have_modrm u) = true -> b = modrm_byte u)).
Proof.
  intros [Hr Hmr Hp Hm Hx]. unfold modrm. do 2 wp_step.
  destruct (truthy (have_modrm u)) eqn:Hh.
  - wp_steps. exists r. split_and!; try done; [apply adv_refl | by apply Hmr].
  - unfold pot in *. rewrite Hh in *. apply wp_bind, wp_bind, wp_on_inp.
    eapply wp_mono; [apply ud_inp_next_repr; [done | lia] |].
    intros c i' [-> Hr']. wp_steps. exists (snd (reader_next r)).
    pose proof (reader_next_ctr r). pose proof (reader_next_byte _ _ Hr) as Hb.
    split_and!; try done; [| apply adv_next | simpl; lia].
    constructor; [done | by intros _ | unfold pot; simpl; lia | done | done].
Qed.

(** What the callers of [decode_ext] ensure of the pointer. *)
Definition ext_pre (fuel : nat) (u : ud) (p : Z) : Prop :=
  if is_group p then
    exists e, aget ud_lookup_table_list (group_idx p) = Some e /\
      Z.of_nat (length ud_lookup_table_list) - group_idx p <= Z.of_nat fuel /\
      le_type e <> UD_TAB__OPC_TABLE /\
      (le_type e = UD_TAB__OPC_X87 ->
         truthy (have_modrm u) = true /\ 0xC0 <= modrm_byte u)
  else 0 <= p < Z.of_nat (length ud_itab).

Definition x87_ready (t : ud_table_type) (idx : Z) (u : ud) : Prop :=
  t = UD_TAB__OPC_MOD -> idx = 1 -> truthy (have_modrm u) = true /\ 0xC0 <= modrm_byte u.

(** The entries of a table satisfy it again, with one unit of fuel less. *)
Lemma ext_pre_child fuel u n e idx p :
  aget ud_lookup_table_list n = Some e ->
  Z.of_nat (length ud_lookup_table_list) - n <= Z.of_nat (S fuel) ->
  le_type e <> UD_TAB__OPC_TABLE -> aget (le_table e) idx = Some p ->
  x87_ready (le_type e) idx u -> ext_pre fuel u p.
Proof.
  intros Hn Hf Ht Hp Hx. pose proof (table_entry _ _ _ _ Hn Hp) as Hok.
  apply aget_Some in Hn as [Hn0 _]. apply aget_Some in Hp as [Hi0 _].
  unfold ptr_ok in Hok. unfold ext_pre. destruct (is_group p); [| zbool; lia].
  destruct (aget ud_lookup_table_list (group_idx p)) as [e'|]; [| done].
  apply andb_true_iff in Hok as [Hlt Hty]. exists e'. zbool.
  split_and!; [done | lia | by destruct (le_type e), (le_type e') |].
  intros He'. rewrite He' in Hty. destruct (le_type e) eqn:He; try done.
  apply bool_decide_eq_true in Hty. apply Hx; [done | lia].
Qed.

(** The state after a step that read the mod/rm byte at most. *)
Definition idx_post (k : nat) (t : ud_table_type) (u : ud) (r : reader) (idx : Z) (u' : ud) : Prop :=
  exists r', dec_ok k u' r' /\ adv r r' /\ (pot u' r' <= pot u r)%nat /\ core u' = core u /\
    0 <= idx < Z.of_nat (table_size t) /\ x87_ready t idx u'.

Lemma idx_post_here k t u r idx :
  dec_ok k u r -> 0 <= idx < Z.of_nat (table_size t) -> t <> UD_TAB__OPC_MOD ->
  idx_post k t u r idx u.
Proof. intros. exists r. split_and!; auto using adv_refl; try lia. by intros ->. Qed.

Lemma eff_opr_mode_ok k u r w p (Q : Z -> ud -> Prop) :
  dec_ok k u r -> (forall m, 0 <= m / 32 < 3 -> Q m u) ->
  wp (eff_opr_mode (dis_mode u) w p) u Q.
Proof.
  intros [? ? ? Hm ?] HQ. unfold eff_opr_mode, ud_assert.
  destruct Hm as [-> | [-> | ->]]; simpl; wp_steps; apply HQ;
    destruct (truthy w), (truthy p); by vm_compute.
Qed.

Lemma eff_adr_mode_ok k u r p (Q : Z -> ud -> Prop) :
  dec_ok k u r -> (forall m, 0 <= m / 32 < 3 -> Q m u) ->
  wp (eff_adr_mode (dis_mode u) p) u Q.
Proof.
  intros [? ? ? Hm ?] HQ. unfold eff_adr_mode, ud_assert.
  destruct Hm as [-> | [-> | ->]]; simpl; wp_steps; apply HQ; destruct (truthy p); by vm_compute.
Qed.

(** An index computed from the mod/rm byte. *)
Lemma modrm_index k t u r (f : Z -> Z) :
  dec_ok k u r ->
  (forall b, is_byte b -> (truthy (have_modrm u) = true -> b = modrm_byte u) ->
     0 <= f b < Z.of_nat (table_size t)) ->
  (forall b, is_byte b -> t = UD_TAB__OPC_MOD -> f b = 1 -> 0xC0 <= b) ->
  wp (b ← modrm; mret (f b)) u (idx_post k t u r).
Proof.
  intros Hok Hrange Hx. wp_step. eapply wp_mono; [by apply modrm_val |].
  intros b u' (r' & ? & ? & ? & ? & Hh & -> & Hb & Hsame). wp_steps.
  exists r'. split_and!; try done; [by apply Hrange.. |].
  intros Ht Hone. split; [done | by apply Hx].
Qed.

Lemma mod3_byte b : is_byte b -> (MODRM_MOD b + 1) / 4 = 1 -> 0xC0 <= b.
Proof.
  unfold is_byte, MODRM_MOD. intros Hb. rewrite Z.shiftr_div_pow2 by lia.
  change 3 with (Z.ones 2). rewrite Z.land_ones by lia.
  change (2 ^ 2) with 4. change (2 ^ 6) with 64. intros. 
  rewrite Z.mod_small in H by (split; [apply Z.div_pos | apply Z.div_lt_upper_bound]; lia).
  assert (3 <= b / 64) by (destruct (decide (b / 64 + 1 < 4)); [rewrite Z.div_small in H; [lia |] |]; 
    [split; [pose proof (Z.div_pos b 64); lia | done] | lia]).
  pose proof (Z.mul_div_le b 64). lia.
Qed.

Lemma ext_index_ok k n e u r :
  dec_ok k u r -> le u = Some e -> aget ud_lookup_table_list n = Some e ->
  le_type e <> UD_TAB__OPC_TABLE -> le_type e <> UD_TAB__OPC_SSE -> le_type e <> UD_TAB__OPC_3DNOW ->
  (le_type e = UD_TAB__OPC_X87 -> truthy (have_modrm u) = true /\ 0xC0 <= modrm_byte u) ->
  wp (ext_index (le_type e)) u (idx_post k (le_type e) u r).
Proof.
  intros Hok Hle Hn H1 H2 H3 Hx. destruct (le_type e) eqn:Ht; try done; simpl.
  - apply modrm_index; [done | intros; apply land7_range | done].
  - apply modrm_index; [done | intros; apply land7_range | done].
  - apply (modrm_index _ _ _ _ (fun b => (MODRM_MOD b + 1) / 4)); [done | |].
    + intros b _ _. unfold MODRM_MOD. pose proof (land3_range (Z.shiftr b 6)).
      split; [apply Z.div_pos | apply Z.div_lt_upper_bound]; simpl; lia.
    + intros b Hb _. by apply mod3_byte.
  - wp_steps. apply idx_post_here; [done | | done].
    destruct (dec_mode _ _ _ Hok) as [-> | [-> | ->]]; by vm_compute.
  - destruct Hx as [Hh Hc]; [done |].
    apply (modrm_index _ _ _ _ (fun b => u8 (b - 0xC0))); [done | | done].
    intros b Hb Hsame. specialize (Hsame Hh). unfold is_byte in *. simpl. rewrite u8_id; lia.
  - wp_step. wp_step. wp_step. eapply eff_adr_mode_ok; [done |]. intros m Hm. wp_steps.
    by apply idx_post_here.
  - wp_step. wp_step. wp_step. eapply eff_opr_mode_ok; [done |]. intros m Hm. wp_steps.
    by apply idx_post_here.
  - do 3 wp_step; [| wp_steps; by apply idx_post_here].
    eapply le_at_ok; [done | done | rewrite Ht; by vm_compute |]. intros p Hp. wp_steps.
    apply idx_post_here; [done | by case_match | done].
Qed.

Lemma after_dec n k u r u' :
  dec_ok (n + k) u r -> after n u r u' ->
  exists r', dec_ok k u' r' /\ adv r r' /\ (pot u' r' <= pot u r + n)%nat.
Proof.
  intros [] (r' & ? & ? & ? & ? & Ho). exists r'. split_and!; try done.
  unfold outer in Ho. simplify_eq.
  constructor; [done | done | lia | congruence | congruence].
Qed.

(** What every branch of the opcode decoder establishes. *)
Definition ext_post (n : nat) (u : ud) (r : reader) (u' : ud) : Prop :=
  after n u r u' /\ is_Some (itab_entry u').

Lemma ext_post_weaken n n' u r u' : ext_post n u r u' -> (n <= n')%nat -> ext_post n' u r u'.
Proof. intros [(r' & ? & ? & ? & ? & ?) ?] ?. split; [exists r'; split_and!; (done || lia) | done]. Qed.

(** Continue from a state reached by reading [n1] bytes. *)
Lemma ext_post_trans n1 n2 n u r u1 r1 u' :
  dec_ok n2 u1 r1 -> adv r r1 -> (pot u1 r1 <= pot u r + n1)%nat -> outer u1 = outer u ->
  ext_post n2 u1 r1 u' -> (n1 + n2 <= n)%nat -> ext_post n u r u'.
Proof.
  intros [] ? ? ? [Ha ?] ?. split; [| done].
  by eapply (after_trans n1 n2 n u r u1 r1).
Qed.

Lemma table_3dnow_entry n e i p :
  aget ud_lookup_table_list n = Some e -> le_type e = UD_TAB__OPC_3DNOW ->
  aget (le_table e) i = Some p ->
  is_group p = false /\ 0 <= p < Z.of_nat (length ud_itab).
Proof.
  intros Hn Ht Hp. pose proof (table_entry _ _ _ _ Hn Hp) as Hok. unfold ptr_ok in Hok.
  rewrite Ht in Hok. destruct (is_group p).
  - by repeat (case_match; zbool).
  - zbool. split; [done | lia].
Qed.

Lemma table_3dnow_default n e p :
  aget ud_lookup_table_list n = Some e -> le_type e = UD_TAB__OPC_3DNOW ->
  aget (le_table e) 0xc = Some p -> truthy p = true.
Proof.
  intros Hn Ht [_ Hp]%aget_Some. apply table_at in Hn. unfold table_ok in Hn. rewrite Ht in Hn.
  apply andb_true_iff in Hn as [_ Hn]. change (Z.to_nat 0xc) with 12%nat in Hp.
  by rewrite Hp in Hn.
Qed.

Lemma assert_bind {A} b u (m : UM A) Q : b = true -> wp m u Q -> wp (ud_assert b ;; m) u Q.
Proof. by intros ->. Qed.

Lemma itab_at_bind {A} ptr u (f : ud_itab_entry -> UM A) Q :
  0 <= ptr < Z.of_nat (length ud_itab) -> (forall e, wp (f e) u Q) -> wp (itab_at ptr ≫= f) u Q.
Proof.
  intros Hp Hf. unfold itab_at. destruct (aget_is_Some _ _ Hp) as [e ->]. wp_steps. apply Hf.
Qed.

Lemma decode_3dnow_ok n e u r :
  dec_ok 28 u r -> le u = Some e -> aget ud_lookup_table_list n = Some e ->
  le_type e = UD_TAB__OPC_3DNOW ->
  wp decode_3dnow u (fun _ u' => ext_post 28 u r u').
Proof.
  intros Hok Hle Hn Ht. unfold decode_3dnow, cur_le. do 3 wp_step. rewrite Hle. wp_step.
  apply assert_bind; [by apply bool_decide_eq_true |].
  eapply (le_at_ok n e); [done | done | rewrite Ht; by vm_compute |]. intros p Hp.
  apply assert_bind; [by eapply table_3dnow_default |].
  destruct (table_3dnow_entry _ _ _ _ Hn Ht Hp) as [Hg Hr].
  wp_step. eapply wp_mono; [by apply (decode_insn_ok 1) |].
  intros _ u1 (Ha1 & Hl1 & Hi1). pose proof Ha1 as (_ & _ & _ & _ & _ & Ho1).
  destruct (after_dec 27 1 _ _ _ Hok Ha1) as (r1 & Hok1 & Hadv1 & Hp1).
  wp_step. eapply (wp_reads 1 0); [apply reads_next | done |].
  intros b u2 r2 Hok2 Hadv2 Hp2 (Ho2 & Hm2 & Hl2 & Hi2)%core_outer.
  assert (forall u', inp u' = inp u2 -> have_modrm u' = have_modrm u2 -> 
     modrm_byte u' = modrm_byte u2 -> outer u' = outer u2 ->
     itab_entry u' = itab_entry u2 -> ext_post 28 u r u') as Hdone.
  { intros u' Hi Hh Hb Ho He. split; [| by rewrite He, Hi2]. exists r2. destruct Hok2.
    unfold modrm_ok, pot in *. rewrite Hi, Hh, Hb.
    split_and!; [done | by eapply adv_trans | done | lia | congruence]. }
  wp_step. wp_step. wp_step; [wp_steps; by apply Hdone |].
  wp_step. apply wp_on_inp. eapply wp_mono; [eapply curr_byte, dec_repr, Hok2 |].
  intros c i' [Hc ->].
  set (u3 := u2 <| inp := inp u2 |>).
  eapply (le_at_ok n e); [by transitivity (le u2); [| congruence] | done | rewrite Ht; apply Hc |].
  intros q Hq. destruct (table_3dnow_entry _ _ _ _ Hn Ht Hq) as [Hg' Hr'].
  apply assert_bind; [by apply negb_false_iff |].
  apply itab_at_bind; [done |]. intros e'. wp_steps. by apply Hdone.
Qed.

(** ** Termination of the recursion through the tables *)

Definition ext_spec (fuel : nat) : Prop := forall p u r,
  dec_ok 28 u r -> ext_pre fuel u p -> wp (decode_ext fuel p) u (fun _ u' => ext_post 28 u r u').

Lemma sse_index_range n u r :
  dec_ok n u r -> 0 <= (Z.land (pfx_insn u) 0xf + 1) / 2 < 4.
Proof. intros [? ? ? ? [-> | [-> | [-> | ->]]]]; by vm_compute. Qed.

Lemma consume_sse_prefix_frame u :
  inp (consume_sse_prefix u) = inp u /\ have_modrm (consume_sse_prefix u) = have_modrm u /\
  modrm_byte (consume_sse_prefix u) = modrm_byte u /\ outer (consume_sse_prefix u) = outer u /\
  le (consume_sse_prefix u) = le u.
Proof. unfold consume_sse_prefix. by repeat case_match. Qed.

Lemma decode_ssepfx_ok fuel n e u r :
  ext_spec fuel -> dec_ok 28 u r -> le u = Some e -> aget ud_lookup_table_list n = Some e ->
  Z.of_nat (length ud_lookup_table_list) - n <= Z.of_nat (S fuel) ->
  le_type e = UD_TAB__OPC_SSE ->
  wp (decode_ssepfx (decode_ext fuel)) u (fun _ u' => ext_post 28 u r u').
Proof.
  intros IH Hok Hle Hn Hf Ht. unfold decode_ssepfx. wp_step. wp_step. cbv zeta.
  set (i := (Z.land (pfx_insn u) 0xf + 1) / 2).
  assert (0 <= i < Z.of_nat (table_size (le_type e))) as Hi
    by (rewrite Ht; eapply sse_index_range; done).
  eapply (le_at_ok n e); [done | done | done |]. intros p _.
  set (idx := if p =? 0 then 0 else i).
  assert (0 <= idx < Z.of_nat (table_size (le_type e))) as Hidx
    by (unfold idx; case_match; [rewrite Ht; by vm_compute | done]).
  eapply (le_at_ok n e); [done | done | done |]. intros q Hq. wp_step.
  apply (wp_mono _ _ (fun _ u1 => inp u1 = inp u /\ have_modrm u1 = have_modrm u /\
    modrm_byte u1 = modrm_byte u /\ outer u1 = outer u /\ le u1 = le u)).
  { wp_steps; [apply consume_sse_prefix_frame | done]. }
  intros [] u1 (Hi1 & Hh1 & Hb1 & Ho1 & Hl1).
  assert (dec_ok 28 u1 r) as Hok1.
  { pose proof Ho1 as Ho. unfold outer in Ho. simplify_eq.
    by apply (dec_ok_mod 28 u r (fun _ => u1)). }
  eapply (le_at_ok n e); [congruence | done | done |]. intros q' Hq'.
  eapply wp_mono; [apply (IH q' u1 r); [done |] |].
  - eapply ext_pre_child; [done | done | by rewrite Ht | done | by rewrite Ht].
  - intros x u2 Hpost. eapply (ext_post_trans 0 28); [done | apply adv_refl | | done | done | lia].
    unfold pot. rewrite Hh1. lia.
Qed.

Lemma decode_ext_ok fuel : ext_spec fuel.
Proof.
  induction fuel as [|fuel IH]; intros p u r Hok Hpre; unfold ext_pre, is_group in Hpre;
    cbn [decode_ext]; destruct (Z.land p 0x8000 =? 0) eqn:Hg; cbn [negb] in Hpre.
  1, 3: eapply wp_mono; [apply (decode_insn_ok 1); [done | by unfold is_group; rewrite Hg | done] |];
    intros ? u' (? & ? & ?); by apply (ext_post_weaken 27); [| lia].
  - destruct Hpre as (e & He & Hf & _). apply aget_Some in He as [? He].
    apply lookup_lt_Some in He. lia.
  - destruct Hpre as (e & He & Hf & Ht & Hx).
    unfold table_list_at. fold (group_idx p). rewrite He. wp_steps.
    set (u1 := u <| le := Some e |>).
    assert (dec_ok 28 u1 r) as Hok1 by (by apply (dec_ok_mod _ u r (fun u => u <| le := Some e |>))).
    apply (wp_mono _ _ (fun _ u' => ext_post 28 u1 r u')); [| done].
    destruct (decide (le_type e = UD_TAB__OPC_3DNOW)) as [H3 |].
    { rewrite H3. by eapply decode_3dnow_ok. }
    destruct (decide (le_type e = UD_TAB__OPC_SSE)) as [Hs |].
    { rewrite Hs. by eapply decode_ssepfx_ok. }
    assert (wp (idx ← ext_index (le_type e); q ← le_at idx; decode_ext fuel q) u1
              (fun _ u' => ext_post 28 u1 r u')); [| by destruct (le_type e)].
    wp_step. eapply wp_mono; [by eapply ext_index_ok |].
    intros idx u2 (r2 & Hok2 & Hadv & Hpot & Hcore & Hidx & Hready).
    apply core_outer in Hcore as (Ho & _ & Hl & _).
    eapply (le_at_ok (group_idx p) e); [by rewrite Hl | done | done |]. intros q Hq.
    eapply wp_mono; [apply (IH q u2 r2); [done |] |].
    + by eapply ext_pre_child.
    + intros x u3 Hpost. eapply (ext_post_trans 0 28); [done | done | lia | done | done | lia].
Qed.

(** The depth of an opcode table bounds the depth of its opcode tables. *)
Lemma opc_depth_child fuel n e i p e' :
  aget ud_lookup_table_list n = Some e -> aget (le_table e) i = Some p -> is_group p = true ->
  aget ud_lookup_table_list (group_idx p) = Some e' -> le_type e' = UD_TAB__OPC_TABLE ->
  (opc_depth fuel (group_idx p) < opc_depth (S fuel) n)%nat.
Proof.
  intros Hn [_ Hp]%aget_Some Hg He' Ht. cbn [opc_depth]. rewrite Hn.
  apply Nat.lt_succ_r. apply list_elem_of_lookup_2 in Hp.
  induction (le_table e) as [|q qs IH]; [by apply not_elem_of_nil in Hp |].
  cbn [foldr]. apply elem_of_cons in Hp as [<- | Hp].
  - rewrite Hg, He', Ht. lia.
  - specialize (IH Hp). by repeat (case_match; try lia).
Qed.

Lemma opc_depth_pos fuel n e :
  aget ud_lookup_table_list n = Some e -> (1 <= opc_depth (S fuel) n)%nat.
Proof. intros Hn. cbn [opc_depth]. rewrite Hn. lia. Qed.

(** Entries of an opcode table that are no opcode table start [decode_ext]. *)
Lemma ext_pre_opcode u n e i p :
  aget ud_lookup_table_list n = Some e -> le_type e = UD_TAB__OPC_TABLE ->
  aget (le_table e) i = Some p ->
  (is_group p = true ->
     forall e', aget ud_lookup_table_list (group_idx p) = Some e' -> le_type e' <> UD_TAB__OPC_TABLE) ->
  ext_pre (length ud_lookup_table_list) u p.
Proof.
  intros Hn Ht Hp Hne. pose proof (table_entry _ _ _ _ Hn Hp) as Hok.
  unfold ptr_ok in Hok. unfold ext_pre. rewrite Ht in Hok. destruct (is_group p); [| zbool; lia].
  destruct (aget ud_lookup_table_list (group_idx p)) as [e'|]; [| done].
  specialize (Hne eq_refl e' eq_refl). exists e'. apply andb_true_iff in Hok as [Hlt Hty].
  zbool. split_and!; [done | lia | done |]. intros Hx. by rewrite Hx in Hty.
Qed.

(** After [decode_opcode]: at least one byte was asked for. *)
Definition opc_post (n : nat) (u : ud) (r : reader) (x : Z) (u' : ud) : Prop :=
  exists r', repr (inp u') r' /\ adv (snd (reader_next r)) r' /\ modrm_ok u' /\
    (pot u' r' <= pot u r + n)%nat /\ outer u' = outer u /\
    (x <> -1 -> is_Some (itab_entry u')).

Lemma opc_post_after n k u r i' u1 x u' :
  inp u1 = i' -> have_modrm u1 = have_modrm u -> outer u1 = outer u ->
  after k u1 (snd (reader_next r)) u' -> (x <> -1 -> is_Some (itab_entry u')) ->
  (S k <= n)%nat -> opc_post n u r x u'.
Proof.
  intros Hi Hh Ho (r' & ? & ? & ? & Hp & ?) Hs Hn. exists r'. pose proof (reader_next_ctr r).
  unfold pot in Hp at 2. rewrite Hh in Hp. unfold pot at 2.
  split_and!; [done | done | done | lia | congruence | done].
Qed.

Lemma opc_post_trans n k u r u1 x u' :
  have_modrm u1 = have_modrm u -> outer u1 = outer u ->
  opc_post k u1 (snd (reader_next r)) x u' -> (S k <= n)%nat -> opc_post n u r x u'.
Proof.
  intros Hh Ho (r' & ? & ? & ? & Hp & ? & ?) Hn. eapply opc_post_after; [done | exact Hh | done | |done|done].
  exists r'. split_and!; try done. eapply adv_trans; [apply adv_next | done].
Qed.

(** One read of the opcode loop. *)
Lemma opc_read {A} k u r (f : Z -> UM A) (g : UM A) (Q : A -> ud -> Prop) :
  dec_ok (S k) u r ->
  (forall i', dec_ok k (u <| inp := i' |>) (snd (reader_next r)) -> wp g (u <| inp := i' |>) Q) ->
  (forall c i', is_byte c -> dec_ok k (u <| inp := i' |>) (snd (reader_next r)) ->
     wp (f c) (u <| inp := i' |>) Q) ->
  wp (on_inp ud_inp_next;;
      e ← mgets ud_error; if truthy e then g else c ← on_inp ud_inp_curr; f c) u Q.
Proof.
  intros [Hr Hm Hp ? ?] Hg Hf. wp_step. apply wp_on_inp.
  eapply wp_mono; [apply ud_inp_next_repr; [done | unfold pot in Hp; lia] |]. intros c i' [_ Hr'].
  assert (dec_ok k (u <| inp := i' |>) (snd (reader_next r))) as Hok.
  { pose proof (reader_next_ctr r). unfold pot in Hp.
    constructor; [done | done | unfold pot; simpl; lia | done | done]. }
  wp_step. wp_step. wp_step; [by apply Hg |].
  wp_step. apply wp_on_inp. eapply wp_mono; [by eapply curr_byte, dec_repr |].
  intros b i'' [Hb ->]. by apply (Hf b i').
Qed.

(** The step from the opcode loop into the extension tables. *)
Lemma opc_ext n k p u r u1 :
  dec_ok (k + 28) u1 (snd (reader_next r)) -> have_modrm u1 = have_modrm u -> outer u1 = outer u ->
  ext_pre (length ud_lookup_table_list) u1 p -> (29 <= n)%nat ->
  wp (decode_ext (length ud_lookup_table_list) p) u1 (opc_post n u r).
Proof.
  intros Hok Hh Ho Hpre Hn. eapply wp_mono.
  - eapply decode_ext_ok; [eapply dec_ok_weaken; [done | lia] | done].
  - intros x u' [Ha Hs]. eapply opc_post_after; [done | done | done | done | done | lia].
Qed.

Lemma decode_opcode_ok fuel n e u r :
  dec_ok (opc_depth fuel n + 28) u r -> le u = Some e -> aget ud_lookup_table_list n = Some e ->
  le_type e = UD_TAB__OPC_TABLE -> Z.of_nat (length ud_lookup_table_list) - n <= Z.of_nat fuel ->
  wp (decode_opcode fuel) u (opc_post (opc_depth fuel n + 28) u r).
Proof.
  revert n e u r. induction fuel as [|fuel IH]; intros n e u r Hok Hle Hn Ht Hf.
  { apply aget_Some in Hn as [? Hn]. apply lookup_lt_Some in Hn. lia. }
  pose proof (opc_depth_pos fuel _ _ Hn) as Hpos.
  destruct (opc_depth (S fuel) n) as [|d] eqn:Hd; [lia |].
  cbn [decode_opcode]. unfold cur_le. do 3 wp_step. rewrite Hle. wp_step.
  apply assert_bind; [by apply bool_decide_eq_true |].
  apply (opc_read (d + 28) u r); [exact Hok | |].
  { intros i' Hok1. wp_steps. eapply (opc_post_after _ 0 _ _ _ (u <| inp := i' |>));
      [done | done | done | by eapply after_refl | done | lia]. }
  intros b i' Hb Hok1. set (u1 := u <| inp := i' |>) in *.
  eapply (le_at_ok n e); [exact Hle | done | rewrite Ht; apply Hb |]. intros p Hp.
  apply wp_if; intros Hg.
  - change (is_group p = true) in Hg. unfold table_list_at.
    rewrite (Z.land_comm p), <- (eq_refl : group_idx p = Z.land (Z.lnot 0x8000) p).
    pose proof (table_entry _ _ _ _ Hn Hp) as Hptr. unfold ptr_ok in Hptr. rewrite Hg in Hptr.
    destruct (aget ud_lookup_table_list (group_idx p)) as [e'|] eqn:He'; [| done].
    apply andb_true_iff in Hptr as [Hlt _]. apply Z.ltb_lt in Hlt. do 4 wp_step.
    set (u2 := u1 <| le := Some e' |>).
    assert (dec_ok (d + 28) u2 (snd (reader_next r))) as Hok2
      by (by apply (dec_ok_mod _ u1 _ (fun u => u <| le := Some e' |>))).
    destruct (decide (le_type e' = UD_TAB__OPC_TABLE)) as [Ht' | Hne].
    + rewrite bool_decide_true by done.
      pose proof (opc_depth_child fuel _ _ _ _ _ Hn Hp Hg He' Ht') as Hdep.
      apply aget_Some in Hn as [? _].
      eapply wp_mono; [eapply (IH (group_idx p) e' u2); [| done | done | done | lia] |].
      { eapply dec_ok_weaken; [done | lia]. }
      intros x u' Hpost. eapply (opc_post_trans _ _ u r u2); [done | done | exact Hpost | lia].
    + rewrite bool_decide_false by done. eapply (opc_ext _ d); [done | done | done | | lia].
      eapply ext_pre_opcode; [exact Hn | exact Ht | exact Hp |]. intros _ e'' He''. congruence.
  - eapply (opc_ext _ d); [done | done | done | | lia].
    eapply ext_pre_opcode; [exact Hn | exact Ht | exact Hp |].
    intros Hg'. unfold is_group in Hg'. congruence.
Qed.

End insn.
