(* ===== verification/UdPrefix.v ===== *)
(** * udis86: what the prefix loop accepts

    [decode_prefixes] consumes the maximal run of prefix bytes, fails when the
    run has 14 bytes or more or the input ends in it, and leaves the cursor on
    the first non-prefix byte. *)

From stdpp Require Import base numbers list.
From S2P Require Import Prelude UdTypes UdInput UdDecode UdDecodeSafe.

#[local] Open Scope Z_scope.

(** ** Specification *)

Definition legacy_prefixes : list Z :=
  [0x2E; 0x36; 0x3E; 0x26; 0x64; 0x65; 0x67; 0xF0; 0x66; 0xF2; 0xF3].

Definition is_rex (mode b : Z) : bool := (mode =? 64) && (Z.land b 0xF0 =? 0x40).
Definition is_prefix (mode b : Z) : bool := is_rex mode b || bool_decide (b ∈ legacy_prefixes).

(** The length of the leading run of prefix bytes. *)
Fixpoint prefix_run (mode : Z) (bytes : list Z) : nat :=
  match bytes with
  | b :: bs => if is_prefix mode b then S (prefix_run mode bs) else O
  | [] => O
  end.

(** The effect of one prefix byte on the state. *)
Definition apply_prefix (u : ud) (b : Z) : ud :=
  match decode_prefix_byte b u with
  | Ok (_, u') => u'
  | Err _ => u
  end.

(** ** One byte *)

Lemma is_prefix_false mode b :
  is_rex mode b = false -> b <> 0x2E -> b <> 0x36 -> b <> 0x3E -> b <> 0x26 -> b <> 0x64 ->
  b <> 0x65 -> b <> 0x67 -> b <> 0xF0 -> b <> 0x66 -> b <> 0xF2 -> b <> 0xF3 ->
  is_prefix mode b = false.
Proof.
  intros Hr **. unfold is_prefix, legacy_prefixes. rewrite Hr. simpl.
  apply bool_decide_eq_false. rewrite !elem_of_cons, elem_of_nil. tauto.
Qed.

Lemma decode_prefix_byte_eq b u :
  decode_prefix_byte b u = Ok (is_prefix (dis_mode u) b, apply_prefix u b).
Proof.
  unfold apply_prefix.
  assert (exists u', decode_prefix_byte b u = Ok (is_prefix (dis_mode u) b, u')) as [u' ->];
    [| done].
  unfold decode_prefix_byte, mget, mmod, mbind, M_bind, mret, M_ret.
  change ((dis_mode u =? 64) && (Z.land b 240 =? 64)) with (is_rex (dis_mode u) b).
  destruct (is_rex (dis_mode u) b) eqn:Hr; [eexists; unfold is_prefix; by rewrite Hr |].
  repeat (match goal with |- context [b =? ?c] => destruct (Z.eqb_spec b c) as [-> |] end;
          [eexists; unfold is_prefix; rewrite Hr; reflexivity |]).
  eexists. f_equal. f_equal. symmetry. by apply is_prefix_false.
Qed.

Lemma apply_prefix_none u b : is_prefix (dis_mode u) b = false -> apply_prefix u b = u.
Proof.
  intros Hp. unfold apply_prefix, decode_prefix_byte, mget, mmod, mbind, M_bind, mret, M_ret.
  unfold is_prefix, is_rex in Hp. apply orb_false_iff in Hp as [-> Hl].
  repeat (match goal with |- context [b =? ?c] => destruct (Z.eqb_spec b c) as [-> |] end;
          [discriminate Hl |]). done.
Qed.

(** A prefix byte touches the prefix fields only. *)
Lemma apply_prefix_frame u b i :
  apply_prefix (u <| inp := i |>) b = (apply_prefix u b) <| inp := i |> /\
  inp (apply_prefix u b) = inp u /\ dis_mode (apply_prefix u b) = dis_mode u.
Proof.
  unfold apply_prefix, decode_prefix_byte, mget, mmod, mbind, M_bind, mret, M_ret. simpl.
  repeat case_match; simplify_eq/=; first [done | congruence].
Qed.

(** ** The loop *)

(** The reader after [k] of its bytes, and after a failed read. *)
Definition reader_skip (k : nat) (r : reader) : reader :=
  mk_reader (r_all r) (r_pos r + k) (r_ctr r + k) (r_eof r) (r_err r).

(** The outcome of the loop from a state with cursor [r] that has seen [i]
    prefix bytes: [k] more prefix bytes follow. *)
Definition prefixes_post (i : nat) (u : ud) (r : reader) (x : Z) (u' : ud) : Prop :=
  let bytes := drop (r_pos r) (r_all r) in
  let k := prefix_run (dis_mode u) bytes in
  if decide (i + k <= 13 /\ k < length bytes)%nat then
    x = 0 /\ repr (inp u') (reader_skip k r) /\
    u' = (foldl apply_prefix u (take k bytes)) <| inp := inp u' |>
  else x = -1 /\ exists r', repr (inp u') r' /\ adv r r' /\ (r_ctr r' <= 15)%nat /\
    (bytes <> [] -> (1 <= r_ctr r')%nat) /\
    exists w, u' = (foldl apply_prefix u w) <| inp := inp u' |>.

Lemma foldl_apply_inp u w i :
  foldl apply_prefix (u <| inp := i |>) w = (foldl apply_prefix u w) <| inp := i |>.
Proof.
  revert u. induction w as [|b w IH]; intros u; [done |]. simpl.
  destruct (apply_prefix_frame u b i) as [-> _]. apply IH.
Qed.

Lemma drop_next (all : list Z) pos c :
  all !! pos = Some c -> drop pos all = c :: drop (S pos) all.
Proof. apply drop_S. Qed.

Lemma prefixes_end_ok u r e :
  repr (inp u) r -> r_err r = e ->
  wp decode_prefixes_end u (fun x u' =>
    if truthy e then x = -1 /\ u' = u
    else x = 0 /\ repr (inp u') (reader_back r) /\ u' = u <| inp := inp u' |>).
Proof.
  intros Hr He. unfold decode_prefixes_end. wp_step. wp_step.
  assert (ud_error u = e) as -> by (destruct Hr as [n Hr]; rewrite <- He; apply Hr).
  apply wp_if; intros Ht; rewrite Ht.
  - by wp_steps.
  - wp_step. apply wp_on_inp. eapply wp_mono; [by apply ud_inp_back_repr |].
    intros ? i' Hi'. by wp_steps.
Qed.

Lemma reader_next_Some r c :
  r_all r !! r_pos r = Some c -> reader_next r = (c, reader_skip 1 r).
Proof.
  intros Hc. unfold reader_next, reader_skip. rewrite Hc. by rewrite !Nat.add_1_r.
Qed.

Lemma reader_next_None r :
  r_all r !! r_pos r = None -> r_err (snd (reader_next r)) = 1.
Proof. intros Hc. unfold reader_next. by rewrite Hc. Qed.

Lemma reader_back_skip r : reader_back (reader_skip 1 r) = r.
Proof.
  destruct r. unfold reader_back, reader_skip. simpl. rewrite !Nat.add_1_r. done.
Qed.

(** One read of the loop: end of input, or the byte [c] in [ud_inp_curr]. *)
Lemma prefix_read {A} u r (f : Z -> UM A) (Q : A -> ud -> Prop) (g : UM A) :
  repr (inp u) r -> (r_ctr r < 64)%nat -> r_err r = 0 ->
  (r_all r !! r_pos r = None -> forall i', repr i' (snd (reader_next r)) ->
     wp g (u <| inp := i' |>) Q) ->
  (forall c i', r_all r !! r_pos r = Some c -> repr i' (reader_skip 1 r) ->
     wp (f c) (u <| inp := i' |>) Q) ->
  wp (on_inp ud_inp_next;;
      e ← mgets ud_error; if truthy e then g else c ← on_inp ud_inp_curr; f c) u Q.
Proof.
  intros Hr H64 He Hnone Hsome. wp_step. apply wp_on_inp.
  eapply wp_mono; [by apply ud_inp_next_repr |]. intros c i' [-> Hr'].
  wp_step. wp_step. change (ud_error (u <| inp := i' |>)) with (error i').
  assert (error i' = r_err (snd (reader_next r))) as -> by (by destruct Hr' as [n []]).
  destruct (r_all r !! r_pos r) as [c|] eqn:Hc.
  - rewrite (reader_next_Some r c Hc) in *. simpl in *. rewrite He. simpl.
    wp_step. apply wp_on_inp. eapply wp_mono.
    + eapply (ud_inp_curr_repr i' (reader_skip 1 r) c); [done | simpl; lia |].
      simpl. by rewrite Nat.add_1_r.
    + intros d i'' [-> ->]. by apply Hsome.
  - rewrite (reader_next_None r Hc). simpl. by apply Hnone.
Qed.

Lemma reader_skip_skip k r : reader_skip k (reader_skip 1 r) = reader_skip (S k) r.
Proof. destruct r. unfold reader_skip. simpl. f_equal; lia. Qed.

(** The post-condition after a prefix byte [c], from that of the rest. *)
Lemma prefixes_post_cons i u r c i' x u' :
  r_all r !! r_pos r = Some c -> is_prefix (dis_mode u) c = true ->
  prefixes_post (S i) ((apply_prefix u c) <| inp := i' |>) (reader_skip 1 r) x u' ->
  prefixes_post i u r x u'.
Proof.
  intros Hc Hp. unfold prefixes_post. rewrite (drop_S _ _ _ Hc). cbn [prefix_run]. rewrite Hp.
  destruct (apply_prefix_frame u c i') as (_ & _ & Hdm). simpl dis_mode. rewrite Hdm.
  unfold reader_skip at 1 2 3 4. simpl r_pos. simpl r_all. rewrite Nat.add_1_r.
  set (bs := drop (S (r_pos r)) (r_all r)). set (k := prefix_run (dis_mode u) bs).
  cbn [length]. case_decide as Hd.
  - rewrite decide_True by lia. rewrite reader_skip_skip, foldl_apply_inp.
    intros (-> & Hr & Hu). split_and!; [done | done |]. simpl.
    rewrite Hu at 1. done.
  - rewrite decide_False by lia. intros (-> & r' & Hr & Ha & H15 & Hb & w & Hu).
    split; [done |]. exists r'. split_and!; [done | | done | |].
    + eapply adv_trans; [apply adv_next |]. by rewrite (reader_next_Some _ _ Hc).
    + intros _. destruct Ha as [_ _ Hctr _ _]. simpl in Hctr. lia.
    + exists (c :: w). simpl. rewrite foldl_apply_inp in Hu. by rewrite Hu at 1.
Qed.

(** The post-condition at a byte [c] that is no prefix. *)
Lemma prefixes_post_stop i u r c i' :
  (i <= 13)%nat -> r_all r !! r_pos r = Some c -> is_prefix (dis_mode u) c = false ->
  repr i' r -> prefixes_post i u r 0 (u <| inp := i' |>).
Proof.
  intros Hi Hc Hp Hr. unfold prefixes_post. rewrite (drop_S _ _ _ Hc). cbn [prefix_run].
  rewrite Hp. cbn [length]. rewrite decide_True by lia. split_and!; [done | | done].
  replace (reader_skip 0 r) with r; [done |].
  destruct r. unfold reader_skip. simpl. by rewrite !Nat.add_0_r.
Qed.

Lemma prefixes_post_long u r c i' :
  r_ctr r = 14%nat -> r_all r !! r_pos r = Some c -> repr i' (reader_skip 1 r) ->
  prefixes_post 14 u r (-1) ((apply_prefix u c) <| inp := i' <| error := 1 |> |>).
Proof.
  intros Hctr Hc Hr. unfold prefixes_post. rewrite (drop_S _ _ _ Hc). 
  rewrite decide_False by (cbn [prefix_run]; case_match; lia). split; [done |].
  eexists. split_and!; [by apply error_repr | | simpl; lia | simpl; lia | by exists [c]].
  eapply adv_trans; [apply (adv_next r) |]. rewrite (reader_next_Some _ _ Hc). apply adv_err.
Qed.

Lemma prefixes_loop_ok fuel i u r :
  (fuel + i = 15)%nat -> (i < 15)%nat -> repr (inp u) r -> r_ctr r = i -> r_err r = 0 ->
  wp (decode_prefixes_loop fuel (Z.of_nat i)) u (prefixes_post i u r).
Proof.
  revert i u r. induction fuel as [|fuel IH]; intros i u r Hf Hi Hr Hc He; [lia |].
  cbn [decode_prefixes_loop]. apply (prefix_read u r); [done | lia | done | |].
  - intros Hnone i' Hr'. wp_steps. unfold prefixes_post.
    apply lookup_ge_None in Hnone as Hge. rewrite drop_ge by done. simpl.
    rewrite decide_False by lia. split; [done |]. eexists.
    split_and!; [done | apply adv_next | pose proof (reader_next_ctr r); lia | done | by exists []].
  - intros c i' Hsome Hr'. wp_step. eapply wp_intro; [apply decode_prefix_byte_eq |].
    simpl dis_mode. destruct (apply_prefix_frame u c i') as (-> & Hin & Hdm).
    destruct (Z.eqb_spec (Z.of_nat i + 1) MAX_INSN_LENGTH) as [H15 | H15];
      unfold MAX_INSN_LENGTH in H15.
    + assert (i = 14%nat) as -> by lia. wp_step. unfold set_error. apply wp_mod.
      eapply wp_mono; [eapply (prefixes_end_ok _ _ 1); [by apply error_repr | done] |].
      intros x u' [-> ->]. by apply prefixes_post_long.
    + destruct (is_prefix (dis_mode u) c) eqn:Hp.
      * replace (Z.of_nat i + 1) with (Z.of_nat (S i)) by lia.
        eapply wp_mono; [eapply (IH (S i) _ (reader_skip 1 r)); [lia | lia | done | simpl; lia | done] |].
        intros x u' Hpost. by eapply prefixes_post_cons.
      * eapply wp_mono; [by eapply (prefixes_end_ok _ _ 0) |].
        intros x u' (-> & Hr2 & ->). rewrite reader_back_skip in Hr2.
        rewrite (apply_prefix_none u c Hp).
        by apply (prefixes_post_stop i u r c); [lia | ..].
Qed.

Lemma decode_prefixes_ok u r :
  repr (inp u) r -> r_ctr r = 0%nat -> r_err r = 0 ->
  wp decode_prefixes u (prefixes_post 0 u r).
Proof.
  intros Hr Hc He. unfold decode_prefixes. wp_step. wp_step.
  assert (ud_error u = 0) as -> by (destruct Hr as [n []]; unfold ud_error; congruence).
  change (wp (decode_prefixes_loop 15 (Z.of_nat 0)) u (prefixes_post 0 u r)).
  by apply prefixes_loop_ok; [| lia | ..].
Qed.
