(* ===== verification/UdSession.v ===== *)
(** * udis86: one call of [ud_decode]

    From every state the interface can produce, [ud_decode] consumes between
    one and 45 bytes, the hex dump is the only step that can leave an array,
    and it does so exactly for instructions of more than 15 bytes. *)

From stdpp Require Import base numbers list.
From S2P Require Import Prelude UdTypes UdInput UdDecode UdDecodeSafe UdPrefix.

#[local] Open Scope Z_scope.

(** ** The hex dump *)

(** The digits of [bytes]. *)
Definition hex_of (bytes : list Z) : list Z :=
  flat_map (fun b => [hex_digit (b / 16); hex_digit (b `mod` 16)]) bytes.

Lemma length_hex_of bytes : length (hex_of bytes) = (2 * length bytes)%nat.
Proof. induction bytes as [|b bs IH]; [done |]. simpl in *. lia. Qed.

Lemma insert3 {A} (l pre : list A) x y z post a b c :
  l = pre ++ a :: b :: c :: post ->
  <[S (S (length pre)) := z]> (<[S (length pre) := y]> (<[length pre := x]> l))
    = pre ++ x :: y :: z :: post.
Proof.
  intros ->. rewrite insert_app_r_alt by lia. rewrite Nat.sub_diag. simpl.
  rewrite insert_app_r_alt by lia. replace (S (length pre) - length pre)%nat with 1%nat by lia.
  simpl. rewrite insert_app_r_alt by lia.
  by replace (S (S (length pre)) - length pre)%nat with 2%nat by lia.
Qed.

(** One [sprintf] needs three free bytes. *)
Lemma sprintf_02x_Some buf pre post x y z b :
  buf = pre ++ x :: y :: z :: post ->
  sprintf_02x buf (Z.of_nat (length pre)) b =
    Some (pre ++ hex_digit (b / 16) :: hex_digit (b `mod` 16) :: 0 :: post).
Proof.
  intros Hb. assert (length buf = (length pre + 3 + length post)%nat) as Hl
    by (rewrite Hb, length_app; simpl; lia).
  unfold sprintf_02x. rewrite aset_Some by lia. simpl.
  rewrite aset_Some by (rewrite length_insert; lia). simpl.
  rewrite aset_Some by (rewrite !length_insert; lia). f_equal.
  replace (Z.to_nat (Z.of_nat (length pre) + 2)) with (S (S (length pre))) by lia.
  replace (Z.to_nat (Z.of_nat (length pre) + 1)) with (S (length pre)) by lia.
  rewrite Nat2Z.id. by eapply insert3.
Qed.

Lemma sprintf_02x_None buf at_ b :
  0 <= at_ -> Z.of_nat (length buf) < at_ + 3 -> sprintf_02x buf at_ b = None.
Proof.
  intros H0 Hl. unfold sprintf_02x.
  destruct (aset buf at_ _) as [b1|] eqn:H1; [| done]. simpl.
  destruct (aset b1 _ _) as [b2|] eqn:H2; [| done]. simpl.
  assert (length b2 = length buf) as Hb.
  { unfold aset in H1, H2. repeat case_match; simplify_eq. by rewrite !length_insert. }
  apply aset_None. lia.
Qed.

Lemma split3 {A} (l : list A) :
  (3 <= length l)%nat -> exists x y z post, l = x :: y :: z :: post.
Proof. destruct l as [|x [|y [|z l]]]; simpl; try lia. eauto. Qed.

(** The loop writes the digits and a NUL when there is room for both. *)
Lemma gen_hex_loop_room bytes : forall pre post,
  Forall is_byte bytes -> bytes <> [] -> (2 * length bytes + 1 <= length post)%nat ->
  gen_hex_loop bytes (Z.of_nat (length pre)) (pre ++ post) =
    Some (pre ++ hex_of bytes ++ 0 :: drop (2 * length bytes + 1) post).
Proof.
  induction bytes as [|b bs IH]; intros pre post Hb Hne Hl; [done |].
  apply Forall_cons in Hb as [Hb Hbs]. simpl in Hl.
  destruct (split3 post) as (x & y & z & post' & ->); [lia |]. cbn [gen_hex_loop].
  assert (Z.land b 0xFF = b) as ->.
  { change 0xFF with (Z.ones 8). rewrite Z.land_ones by lia. by apply Z.mod_small. }
  erewrite sprintf_02x_Some by done. cbn [mbind option_bind].
  destruct bs as [|b' bs'].
  { simpl. by rewrite drop_0. }
  set (d1 := hex_digit (b / 16)). set (d2 := hex_digit (b `mod` 16)).
  replace (Z.of_nat (length pre) + 2) with (Z.of_nat (length (pre ++ [d1; d2])))
    by (rewrite length_app; simpl; lia).
  replace (pre ++ d1 :: d2 :: 0 :: post') with ((pre ++ [d1; d2]) ++ 0 :: post')
    by (by rewrite <- app_assoc).
  rewrite IH; [| done | done | simpl in *; lia].
  rewrite <- app_assoc. set (k := (2 * length (b' :: bs'))%nat).
  replace (2 * length (b :: b' :: bs') + 1)%nat with (S (S (S k))) by (simpl in *; lia).
  by rewrite Nat.add_1_r.
Qed.

Lemma gen_hex_loop_full bytes : forall at_ buf,
  0 <= at_ -> bytes <> [] -> Z.of_nat (length buf) < at_ + 2 * Z.of_nat (length bytes) + 1 ->
  gen_hex_loop bytes at_ buf = None.
Proof.
  induction bytes as [|b bs IH]; intros at_ buf Ha Hne Hl; [done |]. cbn [gen_hex_loop].
  destruct bs as [|b' bs'].
  { simpl in Hl. by rewrite sprintf_02x_None by lia. }
  destruct (sprintf_02x buf at_ _) as [buf'|] eqn:Hs; [| done]. cbn [mbind option_bind].
  assert (length buf' = length buf) as Hb.
  { unfold sprintf_02x, aset in Hs.
    repeat (case_match; simplify_eq/=). by rewrite !length_insert. }
  apply IH; [lia | done |]. rewrite Hb. simpl in *. lia.
Qed.

(** [gen_hex] succeeds exactly when the instruction has at most 15 bytes. *)
Lemma gen_hex_ok u r :
  repr (inp u) r -> r_err r = 0 -> length (insn_hexcode u) = 32%nat ->
  if (r_ctr r <=? 15)%nat then
    exists h, gen_hex u = Ok (0, u <| insn_hexcode := h |>) /\ length h = 32%nat /\
      ((0 < r_ctr r)%nat -> exists rest, h = hex_of (reader_sess r) ++ 0 :: rest)
  else gen_hex u = Err OOB_insn_hexcode.
Proof.
  intros [n Hr] He Hl. pose proof (repr_ctr _ _ _ Hr) as Hctr.
  unfold gen_hex, mbind, M_bind, mget, mmod, mret, M_ret, ud_error.
  rewrite (repr_err _ _ _ Hr), He. simpl. unfold atake.
  rewrite (repr_sess_len _ _ _ Hr), Hctr. pose proof (repr_lag _ _ _ Hr). pose proof (repr_le _ _ _ Hr).
  rewrite (proj2 (Z.leb_le _ _)) by lia. rewrite Nat2Z.id, (repr_sess _ _ _ Hr). simpl.
  assert (length (reader_sess r) = r_ctr r) as Hs.
  { rewrite <- (repr_sess _ _ _ Hr), length_take, (repr_sess_len _ _ _ Hr). lia. }
  assert (Forall is_byte (reader_sess r)) as Hb
    by (by apply Forall_take, Forall_drop, (repr_bytes _ _ _ Hr)).
  destruct (Nat.leb_spec (r_ctr r) 15) as [H15 | H15].
  - destruct (reader_sess r) as [|c cs] eqn:Hcs.
    { simpl in Hs. exists (insn_hexcode u). split_and!; [done | done | lia]. }
    rewrite <- Hcs in *. pose proof (gen_hex_loop_room (reader_sess r) [] (insn_hexcode u) Hb) as Hg.
    simpl in Hg. change (Z.of_nat 0) with 0 in Hg. rewrite Hg; [| by rewrite Hcs | lia]. simpl. eexists. split; [done |].
    split; [| by eexists]. rewrite length_app, length_hex_of. simpl. rewrite length_drop. lia.
  - rewrite gen_hex_loop_full; [done | lia | by intros Hcs; rewrite Hcs in Hs; simpl in Hs; lia | lia].
Qed.

(** ** Decoding *)

(** What the caller sees of the state: the fields no decoding step changes,
    beside those [advance_pc] sets. *)
Definition client (u : ud) :=
  (translator u, insn_hexcode u, insn_buffer u, dis_mode u, vendor u, pc u).

Definition mode_ok (u : ud) : Prop := dis_mode u = 16 \/ dis_mode u = 32 \/ dis_mode u = 64.

Lemma apply_prefix_keeps u b :
  client (apply_prefix u b) = client u /\ le (apply_prefix u b) = le u /\
  have_modrm (apply_prefix u b) = have_modrm u /\
  (pfx_insn (apply_prefix u b) = pfx_insn u \/
   pfx_insn (apply_prefix u b) ∈ [0x66; 0xF2; 0xF3]).
Proof.
  unfold apply_prefix, decode_prefix_byte, mget, mmod, mbind, M_bind, mret, M_ret.
  repeat case_match; simplify_eq/=; split_and!; try done; try (by left); right;
    rewrite !elem_of_cons; auto.
Qed.

Lemma foldl_apply_keeps w u :
  client (foldl apply_prefix u w) = client u /\ le (foldl apply_prefix u w) = le u /\
  have_modrm (foldl apply_prefix u w) = have_modrm u /\
  (pfx_insn (foldl apply_prefix u w) = pfx_insn u \/
   pfx_insn (foldl apply_prefix u w) ∈ [0x66; 0xF2; 0xF3]).
Proof.
  revert u. induction w as [|b w IH]; intros u; [by auto |]. simpl.
  destruct (IH (apply_prefix u b)) as (-> & -> & -> & H1).
  destruct (apply_prefix_keeps u b) as (-> & -> & -> & H2). split_and!; try done.
  destruct H1 as [-> |]; auto.
Qed.

Lemma mode_ok_client u v : client v = client u -> mode_ok u -> mode_ok v.
Proof.
  intros H. assert (dis_mode v = dis_mode u) as Hd by exact (f_equal (fun x => x.1.1.2) H).
  unfold mode_ok. by rewrite Hd.
Qed.

Lemma frame_inp u v i :
  u = v <| inp := i |> -> client u = client v /\ le u = le v /\ have_modrm u = have_modrm v /\
  pfx_insn u = pfx_insn v.
Proof. by intros ->. Qed.

(** The cursor an instruction ends at: [r'] has consumed between one byte
    (none at the end of the input) and 45. *)
Definition insn_span (r r' : reader) : Prop :=
  adv (reader_start r) r' /\ (r_ctr r' <= 45)%nat /\
  ((r_pos r < length (r_all r))%nat -> (1 <= r_ctr r')%nat).

Section decode.
Context {T : Itab} {TO : ItabOk T}.

Lemma root_table : exists e, aget ud_lookup_table_list 0 = Some e /\ le_type e = UD_TAB__OPC_TABLE.
Proof.
  pose proof itab_root_ok as H. unfold root_ok in H.
  destruct ud_lookup_table_list as [|e es]; [done |]. zbool. by exists e.
Qed.

Lemma reader_next_ctr_lt r :
  (r_pos r < length (r_all r))%nat -> r_ctr (snd (reader_next r)) = S (r_ctr r).
Proof. intros [c Hc]%lookup_lt_is_Some. unfold reader_next. by rewrite Hc. Qed.

Lemma adv_skip k r : adv r (reader_skip k r).
Proof. constructor; simpl; auto; lia. Qed.

(** Opcode decoding after a successful prefix loop. *)
Lemma opcode_after_prefixes u r e :
  repr (inp u) r -> mode_ok u -> le u = Some e -> have_modrm u = 0 ->
  (pfx_insn u = 0 \/ pfx_insn u ∈ [0x66; 0xF2; 0xF3]) ->
  aget ud_lookup_table_list 0 = Some e -> le_type e = UD_TAB__OPC_TABLE ->
  (r_ctr r <= 13)%nat -> (r_pos r < length (r_all r))%nat ->
  wp (decode_opcode (length ud_lookup_table_list)) u (fun x u' => exists r',
    repr (inp u') r' /\ adv r r' /\ (1 <= r_ctr r' <= 45)%nat /\ client u' = client u /\
    (x <> -1 -> is_Some (itab_entry u'))).
Proof.
  intros Hr Hm Hle Hh Hp He Ht Hc Hpos. pose proof itab_depth_ok as Hdep.
  assert (pot u r = S (r_ctr r)) as Hpot by (unfold pot; rewrite Hh; simpl; lia).
  eapply wp_mono; [eapply decode_opcode_ok; [| exact Hle | exact He | exact Ht | lia] |].
  - constructor; [done | intros Hx; by rewrite Hh in Hx | lia | done |].
    rewrite !elem_of_cons, elem_of_nil in Hp. tauto.
  - intros x u' (r' & ? & Ha & ? & Hp' & Ho & ?). exists r'.
    pose proof (adv_ctr _ _ Ha) as Hc'. rewrite reader_next_ctr_lt in Hc' by done.
    unfold pot in Hp' at 1. unfold outer, client in *. simplify_eq.
    split_and!; [done | eapply adv_trans; [apply adv_next | done] | lia | lia | congruence | done].
Qed.

Lemma clear_insn_keeps u :
  client (clear_insn u) = client u /\ have_modrm (clear_insn u) = 0 /\
  pfx_insn (clear_insn u) = 0 /\ dis_mode (clear_insn u) = dis_mode u /\
  inp (clear_insn u) = (inp u) <| error := 0 |>.
Proof. done. Qed.

(** The two phases together. *)
Lemma ud_decode_opcode_ok u r :
  repr (inp u) r -> mode_ok u ->
  wp ud_decode_opcode u (fun err u' => exists r',
    repr (inp u') r' /\ insn_span r r' /\ client u' = client u /\
    (err = false -> is_Some (itab_entry u'))).
Proof.
  intros Hr Hm. unfold ud_decode_opcode. do 4 wp_step.
  destruct root_table as (e & He & Ht). unfold table_list_at. rewrite He. do 4 wp_step.
  set (u0 := (clear_insn (u <| inp := ud_inp_start (inp u) |>)) <| le := Some e |>).
  set (r0 := mk_reader (r_all r) (r_pos r) 0 (r_eof r) 0).
  assert (repr (inp u0) r0) as Hr0.
  { change r0 with (mk_reader (r_all (reader_start r)) (r_pos (reader_start r))
      (r_ctr (reader_start r)) (r_eof (reader_start r)) 0).
    by apply error_repr, ud_inp_start_repr. }
  assert (adv (reader_start r) r0) as Ha0 by (constructor; simpl; auto).
  wp_step. eapply wp_mono; [by apply decode_prefixes_ok |]. unfold prefixes_post.
  change (r_pos r0) with (r_pos r). change (r_all r0) with (r_all r).
  change (dis_mode u0) with (dis_mode u).
  set (bs := drop (r_pos r) (r_all r)). set (k := prefix_run (dis_mode u) bs).
  assert (length bs = length (r_all r) - r_pos r)%nat as Hbs by apply length_drop.
  intros x u1. case_decide as Hk.
  - intros (-> & Hr1 & Hu1). simpl. wp_step.
    destruct (foldl_apply_keeps (take k bs) u0) as (Hcl & Hle & Hh & Hpi).
    apply (frame_inp u1 _ (inp u1)) in Hu1 as (Hcl1 & Hle1 & Hh1 & Hpi1).
    eapply wp_mono; [eapply (opcode_after_prefixes u1 _ e); [exact Hr1 | | by rewrite Hle1, Hle
      | by rewrite Hh1, Hh | by rewrite Hpi1 | done | done | simpl; lia | simpl; lia] |].
    + apply (mode_ok_client u); [| done]. by rewrite Hcl1, Hcl.
    + intros y u2 (r2 & Hr2 & Ha2 & Hc2 & Hcl2 & Hs2).
      assert (insn_span r r2) as Hspan.
      { split_and!; [| lia | lia]. eapply adv_trans; [exact Ha0 |].
        eapply adv_trans; [apply (adv_skip k) | done]. }
      assert (client u2 = client u) as Hcu by (by rewrite Hcl2, Hcl1, Hcl).
      wp_steps; zbool; exists r2; split_and!; auto; done.
  - intros (-> & r1 & Hr1 & Ha1 & Hc1 & Hne & w & Hu1). simpl. wp_steps.
    destruct (foldl_apply_keeps w u0) as (Hcl & _).
    apply (frame_inp u1 _ (inp u1)) in Hu1 as (Hcl1 & _).
    exists r1. split_and!; [done | | by rewrite Hcl1, Hcl | done].
    split_and!; [by eapply adv_trans | lia |]. intros Hlt. apply Hne.
    intros Hnil. rewrite Hnil in Hbs. simpl in Hbs. lia.
Qed.

(** [ud_decode_error] leaves a current entry and a clear error flag. *)
Lemma ud_decode_error_ok err u r :
  repr (inp u) r -> (err = false -> is_Some (itab_entry u)) ->
  wp (ud_decode_error err) u (fun _ u' => client u' = client u /\ is_Some (itab_entry u') /\
    repr (inp u') (mk_reader (r_all r) (r_pos r) (r_ctr r) (r_eof r) 0)).
Proof.
  intros Hr He. unfold ud_decode_error. wp_step. wp_step. destruct err; simpl; wp_steps.
  - split_and!; [done | by eexists |].
    change (inp _) with ((inp u) <| error := 1 |> <| error := 0 |>).
    by apply (error_repr _ (mk_reader (r_all r) (r_pos r) (r_ctr r) (r_eof r) 1)), error_repr.
  - split_and!; [done | by apply He | by apply error_repr].
Qed.

(** The state after an instruction that ended at [r']. *)
Definition decoded (u : ud) (r' : reader) (u' : ud) : Prop :=
  repr (inp u') r' /\ r_err r' = 0 /\
  (translator u', insn_buffer u', dis_mode u', vendor u') =
    (translator u, insn_buffer u, dis_mode u, vendor u) /\
  pc u' = u64 (pc u + Z.of_nat (r_ctr r')) /\ insn_offset u' = pc u /\ insn_fill u' = 0 /\
  is_Some (itab_entry u').

Lemma drop_unused_seg_keeps e u :
  client (drop_unused_seg e u) = client u /\ inp (drop_unused_seg e u) = inp u /\
  itab_entry (drop_unused_seg e u) = itab_entry u.
Proof. unfold drop_unused_seg. by case_match. Qed.

Lemma ud_decode_insn_ok u r :
  repr (inp u) r -> mode_ok u ->
  wp ud_decode_insn u (fun _ u' => exists r',
    insn_span r r' /\ decoded u r' u' /\ insn_hexcode u' = insn_hexcode u).
Proof.
  intros Hr Hm. unfold ud_decode_insn. wp_step.
  eapply wp_mono; [by apply ud_decode_opcode_ok |]. intros err u1 (r1 & Hr1 & Hs & Hc1 & He1).
  wp_step. eapply wp_mono; [by apply ud_decode_error_ok |].
  intros _ u2 (Hc2 & [e He2] & Hr2). eapply cur_entry_bind; [exact He2 |]. wp_steps.
  destruct (drop_unused_seg_keeps e u2) as (Hc3 & Hi3 & He3). set (u3 := drop_unused_seg e u2) in *.
  exists (mk_reader (r_all r1) (r_pos r1) (r_ctr r1) (r_eof r1) 0).
  rewrite Hc2, Hc1 in Hc3. unfold client in Hc3. simplify_eq. rewrite <- Hi3 in Hr2.
  assert (inp_ctr (inp u3) = Z.of_nat (r_ctr r1)) as Hctr by (by destruct Hr2 as [n []]).
  clearbody u3. destruct Hs as (? & ? & ?). split; [| split].
  - split_and!; [eapply adv_trans; [done | apply adv_err] | done | done].
  - unfold decoded, advance_pc. simpl. rewrite Hctr, He3, He2.
    split_and!; congruence || done.
  - simpl. congruence.
Qed.

(** The outcome of [ud_decode]: [u1] is the state before the hex dump. *)
Definition decode_outcome (u1 : ud) (r' : reader) (o : res ud_fault (Z * ud)) : Prop :=
  if (r_ctr r' <=? 15)%nat then
    exists h, o = Ok (Z.of_nat (r_ctr r'), u1 <| insn_hexcode := h |>) /\ length h = 32%nat /\
      ((0 < r_ctr r')%nat -> exists rest, h = hex_of (reader_sess r') ++ 0 :: rest)
  else o = Err OOB_insn_hexcode.

Lemma ud_decode_ok u r :
  repr (inp u) r -> mode_ok u -> length (insn_hexcode u) = 32%nat ->
  exists r' u1, insn_span r r' /\ decoded u r' u1 /\ decode_outcome u1 r' (ud_decode u).
Proof.
  intros Hr Hm Hl. destruct (wp_inv _ _ _ (ud_decode_insn_ok u r Hr Hm)) as ([] & u1 & Heq & r' & Hs & Hd & Hx).
  exists r', u1. split_and!; [done | done |].
  unfold decode_outcome, ud_decode, mbind, M_bind. rewrite Heq.
  destruct Hd as (Hr' & He & _). pose proof (gen_hex_ok u1 r' Hr' He) as Hg.
  rewrite Hx in Hg. specialize (Hg Hl). destruct (r_ctr r' <=? 15)%nat.
  - destruct Hg as (h & -> & Hlh & Hh). exists h. split_and!; [| done | done].
    unfold mgets. simpl. do 2 f_equal. by destruct Hr' as [n []].
  - by rewrite Hg.
Qed.

End decode.
