(* ===== verification/UdSyntax.v ===== *)
(** * udis86: the Intel and AT&T translators

    [udis86_syn.h] ([mkasm]), [udis86_syn.c] (register names),
    [udis86_syn-intel.c] and [udis86_syn-att.c].  Text is a list of character
    codes; [mkasm] appends to the 64-byte [insn_buffer] the way [vsnprintf]
    does, including its size argument, a 32-bit unsigned difference. *)

From stdpp Require Import base numbers list strings pretty.
From S2P Require Import Prelude UdTypes UdInput UdDecode.

#[local] Open Scope Z_scope.

(** ** Formatting *)

Fixpoint chars (s : string) : list Z :=
  match s with
  | EmptyString => []
  | String c s' => Z.of_N (Ascii.N_of_ascii c) :: chars s'
  end.

Fixpoint hex_digits (fuel : nat) (n : Z) : list Z :=
  match fuel with
  | O => []
  | S fuel' =>
      if n <? 16 then [hex_digit n] else hex_digits fuel' (n / 16) ++ [hex_digit (n `mod` 16)]
  end.

(** "%x" of an unsigned int, "%lx" and "%llx" of a 64-bit value, "%d". *)
Definition fmt_x (n : Z) : list Z := hex_digits 8 (u32 n).
Definition fmt_llx (n : Z) : list Z := hex_digits 16 (u64 n).
Definition fmt_d (n : Z) : list Z := chars (pretty (s32 n)).

(** Write [s] into [buf] from position [at_]. *)
Fixpoint write_at (buf : list Z) (at_ : Z) (s : list Z) : option (list Z) :=
  match s with
  | [] => Some buf
  | c :: s' => buf ← aset buf at_ c; write_at buf (at_ + 1) s'
  end.

(** [vsnprintf(buf + at_, size, ...)] of the formatted text [s]: at most
    [size - 1] characters and a NUL, nothing when [size] is 0. *)
Definition vsnprintf (buf : list Z) (at_ size : Z) (s : list Z) : option (list Z) :=
  if size =? 0 then Some buf
  else write_at buf at_ (take (Z.to_nat (Z.min (size - 1) (Z.of_nat (length s)))) s ++ [0]).

Definition mkasm (s : list Z) : UM unit :=
  u ← mget;
  b ← of_opt OOB_insn_buffer
        (vsnprintf (insn_buffer u) (insn_fill u)
           (u32 (UD_STRING_BUFFER_SIZE - insn_fill u)) s);
  mmod (fun u => u <| insn_buffer := b |>
                   <| insn_fill := u32 (insn_fill u + Z.of_nat (length s)) |>).

Definition ud_reg_tab : list string :=
  ["al"; "cl"; "dl"; "bl"; "ah"; "ch"; "dh"; "bh"; "spl"; "bpl"; "sil";
    "dil"; "r8b"; "r9b"; "r10b"; "r11b"; "r12b"; "r13b"; "r14b"; "r15b";
    "ax"; "cx"; "dx"; "bx"; "sp"; "bp"; "si"; "di"; "r8w"; "r9w"; "r10w";
    "r11w"; "r12w"; "r13W"; "r14w"; "r15w"; "eax"; "ecx"; "edx"; "ebx";
    "esp"; "ebp"; "esi"; "edi"; "r8d"; "r9d"; "r10d"; "r11d"; "r12d";
    "r13d"; "r14d"; "r15d"; "rax"; "rcx"; "rdx"; "rbx"; "rsp"; "rbp"; "rsi";
    "rdi"; "r8"; "r9"; "r10"; "r11"; "r12"; "r13"; "r14"; "r15"; "es"; "cs";
    "ss"; "ds"; "fs"; "gs"; "cr0"; "cr1"; "cr2"; "cr3"; "cr4"; "cr5"; "cr6";
    "cr7"; "cr8"; "cr9"; "cr10"; "cr11"; "cr12"; "cr13"; "cr14"; "cr15";
    "dr0"; "dr1"; "dr2"; "dr3"; "dr4"; "dr5"; "dr6"; "dr7"; "dr8"; "dr9";
    "dr10"; "dr11"; "dr12"; "dr13"; "dr14"; "dr15"; "mm0"; "mm1"; "mm2";
    "mm3"; "mm4"; "mm5"; "mm6"; "mm7"; "st0"; "st1"; "st2"; "st3"; "st4";
    "st5"; "st6"; "st7"; "xmm0"; "xmm1"; "xmm2"; "xmm3"; "xmm4"; "xmm5";
    "xmm6"; "xmm7"; "xmm8"; "xmm9"; "xmm10"; "xmm11"; "xmm12"; "xmm13";
    "xmm14"; "xmm15"; "rip"].

(** [ud_reg_tab[r - UD_R_AL]] *)
Definition reg_name (r : Z) : UM (list Z) :=
  n ← of_opt OOB_reg_tab (aget ud_reg_tab (r - UD_R_AL)); mret (chars n).

(** The value of an immediate, sign extended and masked ([UD_OP_IMM] in both
    translators). *)
Definition imm_value (op : ud_operand) : Z :=
  if op_size op =? 8 then lval_sbyte (lval op)
  else if op_size op =? 16 then lval_sword (lval op)
  else if op_size op =? 32 then lval_sdword (lval op)
  else if op_size op =? 64 then lval_sqword (lval op)
  else 0.

Section imm.
Context {T : Itab}.

Definition imm_masked (op : ud_operand) : UM Z :=
  e ← cur_entry;
  u ← mget;
  let sext_size :=
    if truthy (P_SEXT (ie_prefix e)) then
      if mnemonic u =? UD_Ipush then opr_mode u else op_size (opnd0 u)
    else op_size op in
  let sext_mask := if sext_size <? 64 then Z.shiftl 1 sext_size - 1 else 0xffffffffffffffff in
  mret (Z.land (u64 (imm_value op)) sext_mask).

(** The operand-size and address-size override prefixes, as both translators
    print them. *)
Definition put_size_prefixes : UM unit :=
  e ← cur_entry;
  u ← mget;
  mwhen (negb (truthy (P_OSO (ie_prefix e))) && truthy (pfx_opr u))
    (if dis_mode u =? 16 then mkasm (chars "o32 ")
     else if (dis_mode u =? 32) || (dis_mode u =? 64) then mkasm (chars "o16 ")
     else mret tt);;
  mwhen (negb (truthy (P_ASO (ie_prefix e))) && truthy (pfx_adr u))
    (if dis_mode u =? 16 then mkasm (chars "a32 ")
     else if dis_mode u =? 32 then mkasm (chars "a16 ")
     else if dis_mode u =? 64 then mkasm (chars "a32 ")
     else mret tt).

End imm.

(** ** Intel syntax *)

Module Intel.
Section intel.
Context {T : Itab}.

Definition opr_cast (op : ud_operand) : UM unit :=
  u ← mget;
  (if op_size op =? 8 then mkasm (chars "byte ")
   else if op_size op =? 16 then mkasm (chars "word ")
   else if op_size op =? 32 then mkasm (chars "dword ")
   else if op_size op =? 64 then mkasm (chars "qword ")
   else if op_size op =? 80 then mkasm (chars "tword ")
   else mret tt);;
  mwhen (truthy (br_far u)) (mkasm (chars "far ")).

(** The displacement of a memory operand; [op_f] tells whether a register
    was printed before it. *)
Definition put_offset (op : ud_operand) (op_f : bool) : UM unit :=
  u ← mget;
  let plus := if op_f then chars "+" else [] in
  if offset op =? 8 then
    if lval_sbyte (lval op) <? 0
    then mkasm (chars "-0x" ++ fmt_x (- lval_sbyte (lval op)))
    else mkasm (plus ++ chars "0x" ++ fmt_x (lval_sbyte (lval op)))
  else if offset op =? 16 then
    mkasm (plus ++ chars "0x" ++ fmt_x (lval_uword (lval op)))
  else if offset op =? 32 then
    if adr_mode u =? 64 then
      if lval_sdword (lval op) <? 0
      then mkasm (chars "-0x" ++ fmt_x (- lval_sdword (lval op)))
      else mkasm (plus ++ chars "0x" ++ fmt_x (lval_sdword (lval op)))
    else mkasm (plus ++ chars "0x" ++ fmt_llx (lval_udword (lval op)))
  else if offset op =? 64 then
    mkasm (plus ++ chars "0x" ++ fmt_llx (lval_uqword (lval op)))
  else mret tt.

Definition gen_operand_mem (op : ud_operand) (syn_cast : Z) : UM unit :=
  mwhen (truthy syn_cast) (opr_cast op);;
  mkasm (chars "[");;
  u ← mget;
  mwhen (truthy (pfx_seg u)) (r ← reg_name (pfx_seg u); mkasm (r ++ chars ":"));;
  mwhen (truthy (base op)) (r ← reg_name (base op); mkasm r);;
  let op_f := truthy (base op) in
  mwhen (truthy (index op))
    (mwhen op_f (mkasm (chars "+"));;
     r ← reg_name (index op); mkasm r);;
  let op_f := op_f || truthy (index op) in
  mwhen (truthy (scale op)) (mkasm (chars "*" ++ fmt_d (scale op)));;
  put_offset op op_f;;
  mkasm (chars "]").

Definition gen_operand (op : ud_operand) (syn_cast : Z) : UM unit :=
  let cast := mwhen (truthy syn_cast) (opr_cast op) in
  if op_type op =? UD_OP_REG then r ← reg_name (base op); mkasm r
  else if op_type op =? UD_OP_MEM then gen_operand_mem op syn_cast
  else if op_type op =? UD_OP_IMM then
    cast;; v ← imm_masked op; mkasm (chars "0x" ++ fmt_llx v)
  else if op_type op =? UD_OP_JIMM then
    cast;;
    u ← mget;
    if op_size op =? 8 then
      mkasm (chars "0x" ++ fmt_llx (pc u + lval_sbyte (lval op)))
    else if op_size op =? 16 then
      mkasm (chars "0x" ++ fmt_llx (Z.land (u64 (pc u + lval_sword (lval op))) 0xffff))
    else if op_size op =? 32 then
      mkasm (chars "0x" ++ fmt_llx (Z.land (u64 (pc u + lval_sdword (lval op))) 0xffffffff))
    else mret tt
  else if op_type op =? UD_OP_PTR then
    if op_size op =? 32 then
      mkasm (chars "word 0x" ++ fmt_x (lval_ptr_seg (lval op)) ++ chars ":0x" ++
             fmt_x (Z.land (lval_ptr_off (lval op)) 0xFFFF))
    else if op_size op =? 48 then
      mkasm (chars "dword 0x" ++ fmt_x (lval_ptr_seg (lval op)) ++ chars ":0x" ++
             fmt_llx (lval_ptr_off (lval op)))
    else mret tt
  else if op_type op =? UD_OP_CONST then cast;; mkasm (fmt_d (lval_udword (lval op)))
  else mret tt.

(** Whether the first and the second operand are printed with a size cast. *)
Definition cast_operand1 (u : ud) : Z :=
  let t0 := op_type (opnd0 u) in
  let t1 := op_type (opnd1 u) in
  let cast := if (t0 =? UD_OP_IMM) && (t1 =? UD_NONE) then c1 u else 0 in
  if t0 =? UD_OP_MEM then
    if (t1 =? UD_OP_IMM) || (t1 =? UD_OP_CONST) || (t1 =? UD_NONE) ||
       (negb (op_size (opnd0 u) =? op_size (opnd1 u)) && truthy (op_size (opnd1 u)))
    then 1 else c1 u
  else if t0 =? UD_OP_JIMM then if 8 <? op_size (opnd0 u) then 1 else cast
  else cast.

Definition cast_operand2 (u : ud) : Z :=
  if op_type (opnd1 u) =? UD_OP_MEM then
    if (op_type (opnd0 u) =? UD_OP_REG) && (UD_R_ES <=? base (opnd0 u)) &&
       (base (opnd0 u) <=? UD_R_GS)
    then 0
    else if negb (op_type (opnd0 u) =? UD_OP_REG) ||
            (negb (op_size (opnd0 u) =? op_size (opnd1 u)) && truthy (op_size (opnd1 u)))
    then 1 else c1 u
  else 0.

Definition ud_translate_intel : UM unit :=
  put_size_prefixes;;
  u ← mget;
  mwhen (truthy (pfx_seg u) && negb (op_type (opnd0 u) =? UD_OP_MEM) &&
         negb (op_type (opnd1 u) =? UD_OP_MEM))
    (r ← reg_name (pfx_seg u); mkasm (r ++ chars " "));;
  mwhen (truthy (pfx_lock u)) (mkasm (chars "lock "));;
  mwhen (truthy (pfx_rep u)) (mkasm (chars "rep "));;
  mwhen (truthy (pfx_repne u)) (mkasm (chars "repne "));;
  m ← ud_lookup_mnemonic (mnemonic u);
  mkasm (chars m ++ chars " ");;
  mwhen (negb (op_type (opnd0 u) =? UD_NONE)) (gen_operand (opnd0 u) (cast_operand1 u));;
  mwhen (negb (op_type (opnd1 u) =? UD_NONE))
    (mkasm (chars ", ");; gen_operand (opnd1 u) (cast_operand2 u));;
  mwhen (negb (op_type (opnd2 u) =? UD_NONE))
    (mkasm (chars ", ");; gen_operand (opnd2 u) (c3 u)).

End intel.
End Intel.

(** ** AT&T syntax *)

Module Att.
Section att.
Context {T : Itab}.

Definition opr_cast (op : ud_operand) : UM unit :=
  mwhen ((op_size op =? 16) || (op_size op =? 32)) (mkasm (chars "*")).

(** The displacement of a memory operand.  The sign of a 64-bit one is read
    off its low 32 bits, as the source does. *)
Definition put_offset (op : ud_operand) : UM unit :=
  if offset op =? 8 then
    if lval_sbyte (lval op) <? 0
    then mkasm (chars "-0x" ++ fmt_x (Z.land (- lval_sbyte (lval op)) 0xff))
    else mkasm (chars "0x" ++ fmt_x (lval_sbyte (lval op)))
  else if offset op =? 16 then
    if lval_sword (lval op) <? 0
    then mkasm (chars "-0x" ++ fmt_x (Z.land (- lval_sword (lval op)) 0xffff))
    else mkasm (chars "0x" ++ fmt_x (lval_sword (lval op)))
  else if offset op =? 32 then
    if lval_sdword (lval op) <? 0
    then mkasm (chars "-0x" ++ fmt_x (Z.land (- lval_sdword (lval op)) 0xffffffff))
    else mkasm (chars "0x" ++ fmt_x (lval_sdword (lval op)))
  else if offset op =? 64 then
    if lval_sdword (lval op) <? 0
    then mkasm (chars "-0x" ++ fmt_llx (- lval_sqword (lval op)))
    else mkasm (chars "0x" ++ fmt_llx (lval_sqword (lval op)))
  else mret tt.

Definition gen_operand_mem (op : ud_operand) : UM unit :=
  u ← mget;
  mwhen (truthy (br_far u)) (opr_cast op);;
  mwhen (truthy (pfx_seg u))
    (r ← reg_name (pfx_seg u); mkasm (chars "%" ++ r ++ chars ":"));;
  put_offset op;;
  mwhen (truthy (base op)) (r ← reg_name (base op); mkasm (chars "(%" ++ r));;
  mwhen (truthy (index op))
    ((if truthy (base op) then mkasm (chars ",") else mkasm (chars "("));;
     r ← reg_name (index op); mkasm (chars "%" ++ r));;
  mwhen (truthy (scale op)) (mkasm (chars "," ++ fmt_d (scale op)));;
  mwhen (truthy (base op) || truthy (index op)) (mkasm (chars ")")).

Definition gen_operand (op : ud_operand) : UM unit :=
  if op_type op =? UD_OP_REG then r ← reg_name (base op); mkasm (chars "%" ++ r)
  else if op_type op =? UD_OP_MEM then gen_operand_mem op
  else if op_type op =? UD_OP_IMM then
    v ← imm_masked op; mkasm (chars "$0x" ++ fmt_llx v)
  else if op_type op =? UD_OP_JIMM then
    u ← mget;
    if op_size op =? 8 then
      mkasm (chars "0x" ++ fmt_llx (pc u + lval_sbyte (lval op)))
    else if op_size op =? 16 then
      mkasm (chars "0x" ++ fmt_llx (Z.land (u64 (pc u + lval_sword (lval op))) 0xffff))
    else if op_size op =? 32 then
      if dis_mode u =? 32
      then mkasm (chars "0x" ++ fmt_llx (Z.land (u64 (pc u + lval_sdword (lval op))) 0xffffffff))
      else mkasm (chars "0x" ++ fmt_llx (pc u + lval_sdword (lval op)))
    else mret tt
  else if op_type op =? UD_OP_PTR then
    if op_size op =? 32 then
      mkasm (chars "$0x" ++ fmt_x (lval_ptr_seg (lval op)) ++ chars ", $0x" ++
             fmt_x (Z.land (lval_ptr_off (lval op)) 0xFFFF))
    else if op_size op =? 48 then
      mkasm (chars "$0x" ++ fmt_x (lval_ptr_seg (lval op)) ++ chars ", $0x" ++
             fmt_llx (lval_ptr_off (lval op)))
    else mret tt
  else mret tt.

(** The operand-size suffix and the operands, last first. *)
Definition put_operands : UM unit :=
  u ← mget;
  let size :=
    if truthy (c1 u) then op_size (opnd0 u)
    else if truthy (c2 u) then op_size (opnd1 u)
    else if truthy (c3 u) then op_size (opnd2 u)
    else 0 in
  (if size =? 8 then mkasm (chars "b")
   else if size =? 16 then mkasm (chars "w")
   else if size =? 64 then mkasm (chars "q")
   else mret tt);;
  mkasm (chars " ");;
  mwhen (negb (op_type (opnd2 u) =? UD_NONE)) (gen_operand (opnd2 u);; mkasm (chars ", "));;
  mwhen (negb (op_type (opnd1 u) =? UD_NONE)) (gen_operand (opnd1 u);; mkasm (chars ", "));;
  mwhen (negb (op_type (opnd0 u) =? UD_NONE)) (gen_operand (opnd0 u)).

Definition ud_translate_att : UM unit :=
  put_size_prefixes;;
  u ← mget;
  mwhen (truthy (pfx_lock u)) (mkasm (chars "lock "));;
  mwhen (truthy (pfx_rep u)) (mkasm (chars "rep "));;
  mwhen (truthy (pfx_repne u)) (mkasm (chars "repne "));;
  if mnemonic u =? UD_Iretf then mkasm (chars "lret ");; put_operands
  else if mnemonic u =? UD_Idb then
    mkasm (chars ".byte 0x" ++ fmt_x (lval_ubyte (lval (opnd0 u))))
  else if (mnemonic u =? UD_Ijmp) || (mnemonic u =? UD_Icall) then
    mwhen (truthy (br_far u)) (mkasm (chars "l"));;
    m ← ud_lookup_mnemonic (mnemonic u);
    mkasm (chars m);;
    put_operands
  else if (mnemonic u =? UD_Ibound) || (mnemonic u =? UD_Ienter) then
    mwhen (negb (op_type (opnd0 u) =? UD_NONE)) (gen_operand (opnd0 u));;
    mwhen (negb (op_type (opnd1 u) =? UD_NONE))
      (mkasm (chars ",");; gen_operand (opnd1 u))
  else
    m ← ud_lookup_mnemonic (mnemonic u);
    mkasm (chars m);;
    put_operands.

End att.
End Att.
