(* ===== verification/Udis86.v ===== *)
(** * udis86: the disassembler object and JavaScriptCore's use of it

    [udis86.c] (initialisation, settings, [ud_disassemble]) and the loop of
    [UDis86Disassembler.cpp], with a small instance of the generated tables
    on which the definitions run. *)

From stdpp Require Import base numbers list strings.
From S2P Require Import Prelude UdTypes UdInput UdDecode UdSyntax.

#[local] Open Scope Z_scope.

(** ** Settings *)

Definition ud_set_mode (m : Z) (u : ud) : ud :=
  if (m =? 16) || (m =? 32) || (m =? 64) then u <| dis_mode := m |> else u <| dis_mode := 16 |>.

Definition ud_set_vendor (v : Z) (u : ud) : ud :=
  if (v =? UD_VENDOR_INTEL) || (v =? UD_VENDOR_ANY) then u <| vendor := v |>
  else u <| vendor := UD_VENDOR_AMD |>.

Definition ud_set_pc (o : Z) (u : ud) : ud := u <| pc := o |>.

Definition ud_set_syntax (t : option ud_syntax) (u : ud) : ud := u <| translator := t |>.

Definition ud_set_user_opaque_data (opaque : Z) (u : ud) : ud :=
  u <| user_opaque_data := opaque |>.
Definition ud_get_user_opaque_data (u : ud) : Z := user_opaque_data u.

(** ** Results *)

(** A NUL-terminated string in a buffer. *)
Fixpoint c_string (buf : list Z) : list Z :=
  match buf with
  | [] => []
  | c :: cs => if c =? 0 then [] else c :: c_string cs
  end.

Definition ud_insn_asm (u : ud) : list Z := c_string (insn_buffer u).
Definition ud_insn_off (u : ud) : Z := insn_offset u.
Definition ud_insn_hex (u : ud) : list Z := c_string (insn_hexcode u).
Definition ud_insn_ptr (u : ud) : list Z := inp_sess (inp u).
Definition ud_insn_len (u : ud) : Z := inp_ctr (inp u).

Section object.
Context {T : Itab}.

(** All fields zero, as [memset] leaves the structure; the hook, a null
    pointer there, is set by [ud_init] itself. *)
Definition zero_ud : ud :=
  let i := mk_inp hook_file 0 0 [] 0 [] 0 0 0 (replicate 256 0) (replicate 64 0) 0 in
  let o := zero_operand in
  mk_ud i None 0 (replicate 32 0) (replicate 64 0) 0 0 0 0 0 o o o
    0 0 0 0 0 0 0 0 0 0 0 0 0 0 0 0 0 0 0 0 0 None None.

Definition ud_init (stdin : list Z) : ud :=
  let u := ud_set_mode 16 zero_ud in
  let u := u <| mnemonic := UD_Iinvalid |> in
  let u := ud_set_pc 0 u in
  u <| inp := ud_set_input_file stdin (inp u) |>.

(** [if (u->translator) u->translator(u);] *)
Definition call_translator (t : option ud_syntax) : UM unit :=
  match t with
  | Some UD_SYN_INTEL => Intel.ud_translate_intel
  | Some UD_SYN_ATT => Att.ud_translate_att
  | None => mret tt
  end.

Definition ud_disassemble : UM Z :=
  u ← mget;
  if ud_input_end (inp u) then mret 0
  else
    b ← of_opt OOB_insn_buffer (aset (insn_buffer u) 0 0);
    h ← of_opt OOB_insn_hexcode (aset (insn_hexcode u) 0 0);
    mmod (fun u => u <| insn_hexcode := h |> <| insn_buffer := b |>);;
    n ← ud_decode;
    if n =? 0 then mret 0
    else
      t ← mgets translator;
      call_translator t;;
      mgets ud_insn_len.

(** ** The loop of [tryToDisassembleWithUDis86]

    One pair of program counter and text per instruction; [fuel] bounds the
    number of instructions. *)

Fixpoint disassemble_loop (fuel : nat) (currentPC : Z) : UM (list (Z * list Z)) :=
  match fuel with
  | O => mfail Out_of_fuel
  | S fuel' =>
      n ← ud_disassemble;
      if n =? 0 then mret []
      else
        u ← mget;
        rest ← disassemble_loop fuel' (pc u);
        mret ((currentPC, ud_insn_asm u) :: rest)
  end.

Definition setup (mode address : Z) (code : list Z) (t : option ud_syntax) (u : ud) : ud :=
  let u := u <| inp := ud_set_input_buffer code (Z.of_nat (length code)) (inp u) |> in
  let u := ud_set_mode mode u in
  let u := ud_set_pc address u in
  ud_set_syntax t u.

Definition tryToDisassembleWithUDis86 (stdin : list Z) (mode address : Z) (code : list Z)
    : res ud_fault (list (Z * list Z)) :=
  let u := setup mode address code (Some UD_SYN_ATT) (ud_init stdin) in
  match disassemble_loop (S (length code)) (pc u) u with
  | Ok (lines, _) => Ok lines
  | Err e => Err e
  end.

End object.

(** ** A small instance of the generated tables

    Nine instructions of [optable.xml] with the tables they need: one opcode
    table of each level, and the [/reg], [/mod], [/x87], [/sse] and [/3dnow]
    extensions. *)

Fixpoint table_of (n : nat) (entries : list (Z * Z)) : list Z :=
  match entries with
  | [] => replicate n 0
  | (i, p) :: es => <[Z.to_nat i := p]> (table_of n es)
  end.

Definition GROUP (n : Z) : Z := Z.lor 0x8000 n.

Definition eo := mk_entry_operand.

Definition P_full : Z := 0x400 + 0x200 + 0x20 + 0x100 + 0x800 + 0x2.

Definition sample_itab : list ud_itab_entry :=
  [ mk_itab_entry 0 O_NONE O_NONE O_NONE 0;
    mk_itab_entry 14 (eo OP_E SZ_V) (eo OP_I SZ_Z) O_NONE P_full;
    mk_itab_entry 15 (eo OP_E SZ_V) (eo OP_G SZ_V) O_NONE P_full;
    mk_itab_entry 8 (eo OP_rAXr8 SZ_NA) (eo OP_rAX SZ_NA) O_NONE 0x222;
    mk_itab_entry 5 (eo OP_J SZ_Z) O_NONE O_NONE 0x280;
    mk_itab_entry 16 (eo OP_ST0 SZ_NA) (eo OP_ST1 SZ_NA) O_NONE 0;
    mk_itab_entry 17 (eo OP_V SZ_O) (eo OP_W SZ_O) O_NONE 0xd02;
    mk_itab_entry 18 (eo OP_P SZ_Q) (eo OP_Q SZ_Q) O_NONE 0xd02;
    mk_itab_entry 15 (eo OP_E SZ_V) (eo OP_I SZ_B) O_NONE (P_full + 0x4000) ].

Definition sample : Itab := {|
  UD_Iinvalid := 0; UD_Inone := 1; UD_I3dnow := 2; UD_Idb := 3; UD_Ipause := 4;
  UD_Icall := 5; UD_Ijmp := 6; UD_Iswapgs := 7; UD_Ixchg := 8; UD_Inop := 9;
  UD_Iretf := 10; UD_Ibound := 11; UD_Ienter := 12; UD_Ipush := 13;
  ud_itab := sample_itab;
  ud_lookup_table_list :=
    [ mk_lookup_entry (table_of 256 [(1, 2); (15, GROUP 1); (0x83, GROUP 7); (0x90, 3); (0xc7, GROUP 2);
                                     (0xd8, GROUP 3); (0xe8, 4)]) UD_TAB__OPC_TABLE;
      mk_lookup_entry (table_of 256 [(15, GROUP 6); (0x58, GROUP 5)]) UD_TAB__OPC_TABLE;
      mk_lookup_entry (table_of 8 [(0, 1)]) UD_TAB__OPC_REG;
      mk_lookup_entry (table_of 2 [(1, GROUP 4)]) UD_TAB__OPC_MOD;
      mk_lookup_entry (table_of 64 [(1, 5)]) UD_TAB__OPC_X87;
      mk_lookup_entry (table_of 4 [(0, 6); (2, 6)]) UD_TAB__OPC_SSE;
      mk_lookup_entry (table_of 256 [(0xc, 7); (0x9e, 7)]) UD_TAB__OPC_3DNOW;
      mk_lookup_entry (table_of 8 [(0, 8)]) UD_TAB__OPC_REG ];
  ud_mnemonics_str := ["invalid"; "none"; "3dnow"; "db"; "pause"; "call"; "jmp"; "swapgs";
    "xchg"; "nop"; "retf"; "bound"; "enter"; "push"; "mov"; "add"; "fadd"; "addps"; "pfadd"]
|}.
