(* ===== verification/UdText.v ===== *)
(** * udis86: the text buffer and the disassembly loop

    What a sequence of [mkasm] calls leaves in the 64-byte [insn_buffer], that
    the translators touch nothing else of the state, and the loop of
    [tryToDisassembleWithUDis86]: it ends after at most one iteration per byte
    and cuts the code into consecutive instructions. *)

From stdpp Require Import base numbers list strings.
From S2P Require Import Prelude UdTypes UdInput UdDecode UdDecodeSafe UdPrefix UdSession UdSyntax.
From S2P Require Import Udis86.

#[local] Open Scope Z_scope.

(** ** Writing text *)

Lemma write_at_app s : forall pre mid post,
  length mid = length s ->
  write_at (pre ++ mid ++ post) (Z.of_nat (length pre)) s = Some (pre ++ s ++ post).
Proof.
  induction s as [|c s IH]; intros pre mid post Hl; destruct mid as [|m mid]; try done.
  cbn [write_at]. rewrite aset_Some by (rewrite !length_app; simpl; lia). cbn [mbind option_bind].
  rewrite Nat2Z.id, insert_app_r_alt, Nat.sub_diag by lia. simpl.
  replace (Z.of_nat (length pre) + 1) with (Z.of_nat (length (pre ++ [c])))
    by (rewrite length_app; simpl; lia).
  replace (pre ++ c :: mid ++ post) with ((pre ++ [c]) ++ mid ++ post) by (by rewrite <- app_assoc).
  rewrite IH by (by injection Hl). by rewrite <- app_assoc.
Qed.

Lemma write_at_outside s buf at_ :
  s <> [] -> Z.of_nat (length buf) <= at_ -> write_at buf at_ s = None.
Proof.
  destruct s as [|c s]; [done |]. intros _ Hl. simpl.
  by rewrite (proj2 (aset_None buf at_ c)) by lia.
Qed.

(** The buffer [buf] holds the text [t], cut off after 63 characters. *)
Definition holds (buf t : list Z) : Prop :=
  length buf = 64%nat /\ exists rest, buf = take 63 t ++ 0 :: rest.

(** Appending [s] to a buffer that holds [t]: it then holds [t ++ s], as long
    as [t] has at most 64 characters; otherwise the write is out of bounds. *)
Lemma vsnprintf_holds buf t s :
  holds buf t -> (length t <= 64)%nat ->
  exists buf', vsnprintf buf (Z.of_nat (length t)) (u32 (64 - Z.of_nat (length t))) s = Some buf' /\
    holds buf' (t ++ s).
Proof.
  intros [Hl [rest Hb]] Ht. rewrite u32_id by lia. unfold vsnprintf.
  destruct (Z.eqb_spec (64 - Z.of_nat (length t)) 0) as [H64 | H64].
  { exists buf. split; [done |]. split; [done |]. exists rest.
    by rewrite take_app_le by lia. }
  rewrite (take_ge t) in Hb by lia. pose proof Hl as Hl'. rewrite Hb, length_app in Hl'. simpl in Hl'.
  assert (take (Z.to_nat (Z.min (64 - Z.of_nat (length t) - 1) (Z.of_nat (length s)))) s
          = take (63 - length t) s) as ->.
  { rewrite Z2Nat.inj_min, Nat2Z.id, <- take_take, (take_ge s) by lia. f_equal. lia. }
  set (w := take (63 - length t) s).
  assert (length w <= 63 - length t)%nat as Hw by (unfold w; rewrite length_take; lia).
  set (k := S (length w)). 
  assert (buf = t ++ take k (0 :: rest) ++ drop k (0 :: rest)) as Hsplit
    by (by rewrite take_drop).
  rewrite Hsplit, write_at_app.
  2:{ rewrite length_take, length_app. simpl. lia. }
  eexists. split; [done |]. split.
  - rewrite !length_app, length_drop. simpl. lia.
  - exists (drop k (0 :: rest)). rewrite <- app_assoc, app_assoc. f_equal.
    rewrite take_app, (take_ge t) by lia. done.
Qed.

Lemma vsnprintf_outside buf t s :
  length buf = 64%nat -> 64 < t < 2 ^ 31 ->
  vsnprintf buf t (u32 (64 - t)) s = None.
Proof.
  intros Hl Ht. unfold vsnprintf, u32, uwrap.
  assert ((64 - t) `mod` 2 ^ 32 = 2 ^ 32 + 64 - t) as ->.
  { symmetry. apply (Z.mod_unique_pos _ _ (-1)); lia. }
  rewrite (proj2 (Z.eqb_neq _ _)) by lia.
  apply write_at_outside; [by destruct (take _ s) | lia].
Qed.

(** ** Sequences of [mkasm] *)

Fixpoint mkasm_all (ss : list (list Z)) : UM unit :=
  match ss with
  | [] => mret tt
  | s :: ss' => mkasm s;; mkasm_all ss'
  end.

Definition asm_repr (u : ud) (t : list Z) : Prop :=
  holds (insn_buffer u) t /\ insn_fill u = Z.of_nat (length t).

Lemma mkasm_repr u t s :
  asm_repr u t -> Z.of_nat (length t + length s) < 2 ^ 31 ->
  if (length t <=? 64)%nat
  then exists b, mkasm s u =
         Ok (tt, u <| insn_buffer := b |> <| insn_fill := Z.of_nat (length (t ++ s)) |>) /\
         holds b (t ++ s)
  else mkasm s u = Err OOB_insn_buffer.
Proof.
  intros [Hh Hf] Hbig. unfold mkasm, mbind, M_bind, mget, mmod. rewrite Hf.
  change UD_STRING_BUFFER_SIZE with 64.
  destruct (Nat.leb_spec (length t) 64) as [Hle | Hgt].
  - destruct (vsnprintf_holds _ t s Hh Hle) as (b & -> & Hb). simpl. exists b. split; [| done].
    rewrite Hf, length_app, u32_id by lia. do 3 f_equal. by rewrite Nat2Z.inj_add.
  - rewrite vsnprintf_outside; [done | apply Hh |].
    lia.
Qed.

(** A sequence of calls succeeds exactly when the text before the last call
    has at most 64 characters; the buffer then holds the first 63 characters
    of the whole text. *)
Lemma mkasm_all_repr ss : forall u t,
  asm_repr u t -> Z.of_nat (length t + length (concat ss)) < 2 ^ 31 -> ss <> [] ->
  if (length (t ++ concat (removelast ss)) <=? 64)%nat
  then exists u', mkasm_all ss u = Ok (tt, u') /\ asm_repr u' (t ++ concat ss)
  else mkasm_all ss u = Err OOB_insn_buffer.
Proof.
  induction ss as [|s ss IH]; intros u t Hr Hbig Hne; [done |].
  cbn [mkasm_all concat] in *. rewrite length_app in Hbig. unfold mbind, M_bind.
  pose proof (mkasm_repr u t s Hr) as Hm. specialize (Hm ltac:(lia)).
  destruct (Nat.leb_spec (length t) 64) as [Hle | Hgt].
  - destruct Hm as (b & -> & Hb).
    set (u1 := u <| insn_buffer := b |> <| insn_fill := Z.of_nat (length (t ++ s)) |>).
    assert (asm_repr u1 (t ++ s)) as Hr1 by done.
    destruct ss as [|s' ss'].
    { simpl. rewrite !app_nil_r. rewrite (proj2 (Nat.leb_le _ _)) by done. by exists u1. }
    assert (removelast (s :: s' :: ss') = s :: removelast (s' :: ss')) as -> by done.
    specialize (IH u1 (t ++ s) Hr1). rewrite length_app in IH.
    specialize (IH ltac:(lia) ltac:(done)). cbn [concat] in *.
    rewrite <- !app_assoc in IH. exact IH.
  - rewrite Hm. rewrite (proj2 (Nat.leb_gt _ _)); [done |]. rewrite length_app. lia.
Qed.

(** ** The translators only write text *)

Definition kept (u : ud) :=
  (inp u, translator u, insn_hexcode u, length (insn_buffer u), dis_mode u, pc u, itab_entry u).

(** The faults a translator can end in: the text buffer, and a register or a
    mnemonic without a name. *)
Definition text_faults : list ud_fault := [OOB_insn_buffer; OOB_reg_tab; OOB_mnemonics_str].

(** With a current instruction, [m] changes only the text buffer. *)
Definition text {A} (m : UM A) : Prop := forall u, is_Some (itab_entry u) ->
  match m u with
  | Ok (_, u') => kept u' = kept u
  | Err e => e ∈ text_faults
  end.

Create HintDb text.

Lemma text_ret {A} (a : A) : text (mret a).
Proof. done. Qed.
Lemma text_get : text mget.
Proof. done. Qed.
Lemma text_gets {A} (f : ud -> A) : text (mgets f).
Proof. done. Qed.
Lemma text_of_opt {A} e (o : option A) : e ∈ text_faults -> text (of_opt e o).
Proof. by destruct o; intros ? u. Qed.

Lemma text_bind {A B} (m : UM A) (f : A -> UM B) :
  text m -> (forall x, text (f x)) -> text (m ≫= f).
Proof.
  intros Hm Hf u Hu. unfold mbind, M_bind. specialize (Hm u Hu).
  destruct (m u) as [[a u1]|]; [| done].
  assert (itab_entry u1 = itab_entry u) as Hi by exact (f_equal snd Hm).
  specialize (Hf a u1). rewrite Hi in Hf. specialize (Hf Hu).
  destruct (f a u1) as [[b u2]|]; [| done]. congruence.
Qed.

Lemma text_when b (m : UM unit) : text m -> text (mwhen b m).
Proof. by destruct b. Qed.
Lemma text_if {A} (b : bool) (m1 m2 : UM A) : text m1 -> text m2 -> text (if b then m1 else m2).
Proof. by destruct b. Qed.

Lemma write_at_length s : forall buf at_ buf',
  write_at buf at_ s = Some buf' -> length buf' = length buf.
Proof.
  induction s as [|c s IH]; intros buf at_ buf' H; simpl in H; [by simplify_eq |].
  apply bind_Some in H as (b & Hb & H%IH). rewrite H. unfold aset in Hb. case_match; [| done].
  simplify_eq. by rewrite length_insert.
Qed.

Lemma vsnprintf_length buf at_ size s buf' :
  vsnprintf buf at_ size s = Some buf' -> length buf' = length buf.
Proof. unfold vsnprintf. case_match; intros Hb; [by simplify_eq | by eapply write_at_length]. Qed.

Lemma text_mkasm s : text (mkasm s).
Proof.
  intros u _. unfold mkasm, mbind, M_bind, mget, mmod.
  destruct (vsnprintf _ _ _ s) as [b|] eqn:Hb; simpl; [| by left].
  unfold kept. simpl. by rewrite (vsnprintf_length _ _ _ _ _ Hb).
Qed.

#[export] Hint Resolve text_ret text_get text_gets text_mkasm : text.

Ltac text_step :=
  lazymatch goal with
  | |- text (mbind _ _) => apply text_bind; [| intros ?]
  | |- text (mwhen _ _) => apply text_when
  | |- text (if _ then _ else _) => apply text_if
  | |- text (of_opt _ _) => apply text_of_opt; by repeat constructor
  | |- text (let _ := _ in _) => cbv zeta
  | |- text _ => solve [eauto with text nocore]
  end.
Ltac text_tac := repeat text_step.

Lemma text_reg_name r : text (reg_name r).
Proof. unfold reg_name. text_tac. Qed.
#[export] Hint Resolve text_reg_name : text.

Section translators.
Context {T : Itab}.

Lemma text_cur_entry : text cur_entry.
Proof. intros u [e He]. unfold cur_entry, mbind, M_bind, mgets. by rewrite He. Qed.
Lemma text_lookup_mnemonic c : text (ud_lookup_mnemonic c).
Proof. unfold ud_lookup_mnemonic. text_tac. Qed.
Hint Resolve text_cur_entry text_lookup_mnemonic : text.

Lemma text_imm_masked op : text (imm_masked op).
Proof. unfold imm_masked. text_tac. Qed.
Lemma text_put_size_prefixes : text put_size_prefixes.
Proof. unfold put_size_prefixes. text_tac. Qed.
Hint Resolve text_imm_masked text_put_size_prefixes : text.

Lemma text_intel_opr_cast op : text (Intel.opr_cast op).
Proof. unfold Intel.opr_cast. text_tac. Qed.
Lemma text_intel_put_offset op f : text (Intel.put_offset op f).
Proof. unfold Intel.put_offset. text_tac. Qed.
Hint Resolve text_intel_opr_cast text_intel_put_offset : text.

Lemma text_intel_mem op c : text (Intel.gen_operand_mem op c).
Proof. unfold Intel.gen_operand_mem. text_tac. Qed.
Hint Resolve text_intel_mem : text.

Lemma text_intel_operand op c : text (Intel.gen_operand op c).
Proof. unfold Intel.gen_operand. text_tac. Qed.
Hint Resolve text_intel_operand : text.

Lemma text_translate_intel : text Intel.ud_translate_intel.
Proof. unfold Intel.ud_translate_intel. text_tac. Qed.

Lemma text_att_opr_cast op : text (Att.opr_cast op).
Proof. unfold Att.opr_cast. text_tac. Qed.
Lemma text_att_put_offset op : text (Att.put_offset op).
Proof. unfold Att.put_offset. text_tac. Qed.
Hint Resolve text_att_opr_cast text_att_put_offset : text.

Lemma text_att_mem op : text (Att.gen_operand_mem op).
Proof. unfold Att.gen_operand_mem. text_tac. Qed.
Hint Resolve text_att_mem : text.

Lemma text_att_operand op : text (Att.gen_operand op).
Proof. unfold Att.gen_operand. text_tac. Qed.
Hint Resolve text_att_operand : text.

Lemma text_att_operands : text Att.put_operands.
Proof. unfold Att.put_operands. text_tac. Qed.
Hint Resolve text_att_operands : text.

Lemma text_translate_att : text Att.ud_translate_att.
Proof. unfold Att.ud_translate_att. text_tac. Qed.

End translators.

(** ** One call of [ud_disassemble] *)

Record ready (u : ud) (r : reader) : Prop := mk_ready {
  ready_repr : repr (inp u) r;
  ready_mode : mode_ok u;
  ready_hex : length (insn_hexcode u) = 32%nat;
  ready_buf : length (insn_buffer u) = 64%nat
}.

Section loop.
Context {T : Itab} {TO : ItabOk T}.

Lemma input_end_pos i r :
  repr i r -> ud_input_end i = true -> r_pos r = length (r_all r).
Proof.
  intros [n H] He. unfold ud_input_end in He. rewrite (curr_eq_fill _ _ _ H) in He.
  apply andb_true_iff in He as [Hpos Heof]. rewrite (repr_eof _ _ _ H) in Heof. zbool.
  rewrite <- (repr_eof_all _ _ _ H) by done. done.
Qed.

(** The outcome of one call: an instruction of one to 15 bytes, or 0 at the
    end of the input, or one of the faults of the hex dump and the text. *)
Definition disasm_faults : list ud_fault := OOB_insn_hexcode :: text_faults.

Definition disasm_post (u : ud) (r : reader) (o : res ud_fault (Z * ud)) : Prop :=
  match o with
  | Ok (n, u') =>
      if (r_pos r <? length (r_all r))%nat then
        exists r', ready u' r' /\ r_all r' = r_all r /\ (r_pos r' = r_pos r + Z.to_nat n)%nat /\
          1 <= n <= 15 /\ pc u' = u64 (pc u + n)
      else n = 0
  | Err e => e ∈ disasm_faults
  end.

Lemma span_pos r r' n i :
  insn_span r r' -> repr_at n i r' ->
  r_all r' = r_all r /\ (r_pos r' = r_pos r + r_ctr r')%nat /\ (r_pos r' <= length (r_all r))%nat.
Proof.
  intros (Ha & _ & _) H. pose proof (adv_all _ _ Ha) as Hall. pose proof (adv_pos _ _ Ha) as Hpos.
  simpl in *. split_and!; [done | lia |].
  pose proof (repr_le _ _ _ H). pose proof (repr_len _ _ _ H). rewrite Hall in *. lia.
Qed.

Lemma text_translator t : text (call_translator t).
Proof.
  destruct t as [[]|]; unfold call_translator;
    [exact text_translate_intel | exact text_translate_att | exact (text_ret tt)].
Qed.

Lemma ready_kept u u' r : kept u' = kept u -> ready u r -> ready u' r.
Proof.
  unfold kept. intros H [Hr Hm Hh Hb]. simplify_eq.
  constructor; unfold mode_ok in *; congruence.
Qed.

(** A decoded instruction leaves a ready state. *)
Lemma decoded_ready u u1 r' h :
  mode_ok u -> length (insn_buffer u) = 64%nat -> decoded u r' u1 -> length h = 32%nat ->
  ready (u1 <| insn_hexcode := h |>) r' /\
  pc (u1 <| insn_hexcode := h |>) = u64 (pc u + Z.of_nat (r_ctr r')).
Proof.
  intros Hm Hb (Hr & _ & Hk & Hpc & _ & _ & He) Hh. simplify_eq.
  split; [| done]. constructor; [done | unfold mode_ok in *; simpl; congruence | done |].
  simpl. congruence.
Qed.

Lemma ud_disassemble_ok u r : ready u r -> disasm_post u r (ud_disassemble u).
Proof.
  intros [Hr Hm Hh Hb]. unfold ud_disassemble, mbind, M_bind, mget, mmod.
  destruct (ud_input_end (inp u)) eqn:Hend.
  { simpl. rewrite (input_end_pos _ _ Hr Hend), Nat.ltb_irrefl. done. }
  rewrite !aset_Some by lia. simpl.
  set (u0 := u <| insn_hexcode := _ |> <| insn_buffer := _ |>).
  assert (ready u0 r) as [Hr0 Hm0 Hh0 Hb0]
    by (constructor; [done | done | |]; simpl; by rewrite length_insert).
  destruct (ud_decode_ok u0 r Hr0 Hm0 Hh0) as (r' & u1 & Hs & Hd & Ho).
  unfold decode_outcome in Ho. destruct (Nat.leb_spec (r_ctr r') 15) as [H15 | H15];
    [| rewrite Ho; by apply elem_of_cons; left].
  destruct Ho as (h & -> & Hlh & _). pose proof Hd as ([n Hn] & _ & _ & _ & _ & _ & Hent).
  destruct (span_pos _ _ _ _ Hs Hn) as (Hall & Hpos & Hlen).
  destruct (decoded_ready u0 u1 r' h Hm0 Hb0 Hd Hlh) as [Hrdy Hpc].
  destruct Hs as (_ & _ & H1).
  destruct (Z.eqb_spec (Z.of_nat (r_ctr r')) 0) as [Hz | Hz].
  { simpl. by rewrite (proj2 (Nat.ltb_ge _ _)) by lia. }
  set (u' := u1 <| insn_hexcode := h |>) in *. unfold mgets.
  assert (is_Some (itab_entry u')) as Hent' by exact Hent.
  pose proof (text_translator (translator u') u' Hent') as Ht.
  destruct (call_translator (translator u') u') as [[x u2]|]; [| by apply elem_of_cons; right].
  pose proof (ready_kept _ _ _ Ht Hrdy) as Hrdy2.
  assert (ud_insn_len u2 = Z.of_nat (r_ctr r')) as Hlen2
    by (by destruct Hrdy2 as [[m []] _ _ _]).
  unfold disasm_post. rewrite Hlen2. rewrite (proj2 (Nat.ltb_lt _ _)) by lia.
  exists r'. split_and!; [done | done | lia | lia | lia |].
  transitivity (pc u'); [by unfold kept in Ht; simplify_eq | exact Hpc].
Qed.

(** ** The loop *)

(** The program counters of consecutive instructions. *)
Fixpoint pcs (a : Z) (chunks : list (list Z)) : list Z :=
  match chunks with
  | [] => []
  | c :: cs => a :: pcs (u64 (a + Z.of_nat (length c))) cs
  end.

(** The printed lines cut [bytes] into instructions of one to 15 bytes. *)
Definition partitions (a : Z) (bytes : list Z) (lines : list (Z * list Z)) : Prop :=
  exists chunks, concat chunks = bytes /\ Forall (fun c => 1 <= length c <= 15)%nat chunks /\
    lines.*1 = pcs a chunks.

Lemma partitions_cons a n bytes l lines :
  1 <= n <= 15 -> (Z.to_nat n <= length bytes)%nat ->
  partitions (u64 (a + n)) (drop (Z.to_nat n) bytes) lines ->
  partitions a bytes ((a, l) :: lines).
Proof.
  intros Hn Hl (chunks & Hc & Hf & Hp). exists (take (Z.to_nat n) bytes :: chunks).
  assert (length (take (Z.to_nat n) bytes) = Z.to_nat n) as Hlen by (rewrite length_take; lia).
  split_and!; simpl.
  - by rewrite Hc, take_drop.
  - constructor; [lia | done].
  - rewrite Hlen, Z2Nat.id by lia. f_equal. exact Hp.
Qed.

Lemma disassemble_loop_ok fuel : forall u r,
  ready u r -> (length (r_all r) - r_pos r < fuel)%nat ->
  match disassemble_loop fuel (pc u) u with
  | Ok (lines, _) => partitions (pc u) (drop (r_pos r) (r_all r)) lines
  | Err e => e ∈ disasm_faults
  end.
Proof.
  induction fuel as [|fuel IH]; intros u r Hr Hf; [lia |].
  cbn [disassemble_loop]. unfold mbind at 1, M_bind at 1.
  pose proof (ud_disassemble_ok u r Hr) as Hd. unfold disasm_post in Hd.
  destruct (ud_disassemble u) as [[n u1]|]; [| done].
  destruct (Nat.ltb_spec (r_pos r) (length (r_all r))) as [Hlt | Hge].
  - destruct Hd as (r1 & Hr1 & Hall & Hpos & Hn & Hpc).
    rewrite (proj2 (Z.eqb_neq n 0)) by lia. unfold mbind, M_bind, mget. 
    pose proof (ready_repr _ _ Hr1) as [m Hm]. pose proof (repr_le _ _ _ Hm).
    pose proof (repr_len _ _ _ Hm). rewrite Hall in *.
    specialize (IH u1 r1 Hr1 ltac:(rewrite Hall; lia)).
    destruct (disassemble_loop fuel (pc u1) u1) as [[lines u2]|]; [| done]. simpl.
    apply (partitions_cons _ n); [done | rewrite length_drop; lia |].
    rewrite drop_drop, <- Hpos, <- Hall, <- Hpc. done.
  - subst n. simpl. exists []. split_and!; [| constructor | done].
    by rewrite drop_ge.
Qed.

End loop.

(** ** The initial state *)

Section init.
Context {T : Itab}.

Lemma setup_ready stdin mode address code t :
  Forall is_byte code ->
  ready (setup mode address code t (ud_init stdin)) (mk_reader code 0 0 false 0).
Proof.
  intros Hb. constructor.
  - exists 0%nat. unfold setup, ud_set_mode, ud_init.
    destruct ((mode =? 16) || (mode =? 32) || (mode =? 64));
      (constructor; simpl; try done; try lia;
       [unfold hook_pending; simpl; rewrite Nat2Z.id; by rewrite take_ge
       | by apply (Forall_replicate is_byte 256 0)]).
  - unfold mode_ok, setup, ud_set_mode.
    destruct ((mode =? 16) || (mode =? 32) || (mode =? 64)) eqn:Hm; simpl; [| by left].
    apply orb_true_iff in Hm as [Hm | Hm]; [apply orb_true_iff in Hm as [Hm | Hm] |];
      apply Z.eqb_eq in Hm; auto.
  - unfold setup, ud_set_mode. by destruct ((mode =? 16) || (mode =? 32) || (mode =? 64)).
  - unfold setup, ud_set_mode. by destruct ((mode =? 16) || (mode =? 32) || (mode =? 64)).
Qed.

End init.

(** ** Hexadecimal numbers read back *)

Definition hex_value_of (c : Z) : Z := if c <? 58 then c - 48 else c - 87.

Definition hex_value (s : list Z) : Z := foldl (fun v c => 16 * v + hex_value_of c) 0 s.

Lemma hex_value_digit d : 0 <= d < 16 -> hex_value_of (hex_digit d) = d.
Proof.
  intros. unfold hex_value_of, hex_digit. destruct (Z.ltb_spec d 10).
  - rewrite (proj2 (Z.ltb_lt _ _)) by lia. lia.
  - rewrite (proj2 (Z.ltb_ge _ _)) by lia. lia.
Qed.

Lemma hex_digits_value fuel n :
  0 <= n < 16 ^ Z.of_nat fuel ->
  hex_value (hex_digits fuel n) = n /\ (1 <= length (hex_digits fuel n) <= fuel)%nat \/ fuel = O.
Proof.
  revert n. induction fuel as [|fuel IH]; intros n Hn; [by right | left].
  rewrite Nat2Z.inj_succ, Z.pow_succ_r in Hn by lia. cbn [hex_digits].
  destruct (Z.ltb_spec n 16) as [Hs | Hs].
  { unfold hex_value. simpl. rewrite hex_value_digit by lia. lia. }
  destruct (IH (n / 16)) as [[Hv Hl] | ->].
  { split; [apply Z.div_pos; lia | apply Z.div_lt_upper_bound; lia]. }
  - rewrite length_app. unfold hex_value in *. rewrite foldl_app, Hv. simpl.
    rewrite hex_value_digit by (apply Z.mod_pos_bound; lia).
    pose proof (Z.div_mod n 16). lia.
  - simpl in Hn. lia.
Qed.

Lemma fmt_llx_value n : hex_value (fmt_llx n) = u64 n /\ (1 <= length (fmt_llx n) <= 16)%nat.
Proof.
  destruct (hex_digits_value 16 (u64 n)) as [H | H]; [| exact H | done].
  apply u64_range.
Qed.

Lemma fmt_x_value n : hex_value (fmt_x n) = u32 n /\ (1 <= length (fmt_x n) <= 8)%nat.
Proof.
  destruct (hex_digits_value 8 (u32 n)) as [H | H]; [| exact H | done].
  apply u32_range.
Qed.

(** The target of a relative branch, as the processor computes it: the address
    of the next instruction plus the signed displacement, in the operand size
    (in 64-bit mode a 32-bit displacement is not cut off). *)
Definition branch_target (u : ud) (op : ud_operand) : Z :=
  if op_size op =? 8 then u64 (pc u + lval_sbyte (lval op))
  else if op_size op =? 16 then Z.land (u64 (pc u + lval_sword (lval op))) 0xffff
  else if dis_mode u =? 32 then Z.land (u64 (pc u + lval_sdword (lval op))) 0xffffffff
  else u64 (pc u + lval_sdword (lval op)).
