(* ===== verification/UdProps.v ===== *)
(** * udis86: the properties

    Each theorem is a property of the disassembler, proved from the lemmas of
    the component files; the witnesses run it on the sample tables. *)

From stdpp Require Import base numbers list strings.
From S2P Require Import Prelude UdTypes UdInput UdDecode UdDecodeSafe UdPrefix UdSession UdSyntax.
From S2P Require Import Udis86 UdText.

#[local] Open Scope Z_scope.

#[local] Existing Instance sample.

#[local] Instance sample_ok : ItabOk sample.
Proof. constructor; [by vm_compute .. | | by vm_compute]. vm_compute. lia. Qed.

(** The bytes the witnesses decode. *)
Definition nop_code : list Z := [0xf3; 0x90; 0x66; 0x90].
Definition mov_code : list Z := [0xc7; 0x44; 0x8d; 0xf8; 0x78; 0x56; 0x34; 0x12].
Definition start (code : list Z) : ud := setup 64 0x1000 code None (ud_init (T := sample) []).
Definition cursor (code : list Z) : reader := mk_reader code 0 0 false 0.

Lemma start_ready code : Forall is_byte code -> ready (start code) (cursor code).
Proof. apply setup_ready. Qed.

Lemma nop_bytes : Forall is_byte nop_code.
Proof. repeat constructor; done. Qed.
Lemma mov_bytes : Forall is_byte mov_code.
Proof. repeat constructor; done. Qed.

(** C1: the disassembly loop of JavaScriptCore ends on every code block, within
    one iteration per byte; the lines it prints cut the block, without gap or
    overlap, into consecutive instructions of one to 15 bytes whose addresses
    are the running sums of their lengths.  The only other outcomes are the
    faults of the hex dump, the text buffer and the name tables. *)
Theorem disassemble_partitions (T : Itab) (TO : ItabOk T) stdin mode address code :
  Forall is_byte code ->
  match tryToDisassembleWithUDis86 stdin mode address code with
  | Ok lines => partitions address code lines
  | Err e => e ∈ disasm_faults
  end.
Proof.
  intros Hb. unfold tryToDisassembleWithUDis86.
  set (u := setup mode address code (Some UD_SYN_ATT) (ud_init stdin)).
  assert (ready u (mk_reader code 0 0 false 0)) as Hr by (by apply setup_ready).
  pose proof (disassemble_loop_ok (S (length code)) u _ Hr ltac:(simpl; lia)) as Hl.
  assert (pc u = address) as Hpc
    by (unfold u, setup, ud_set_mode; by repeat case_match).
  rewrite Hpc in *. cbn [r_pos r_all] in Hl. rewrite drop_0 in Hl.
  by destruct (disassemble_loop _ _ _) as [[lines u']|].
Qed.

Lemma disassemble_partitions_witness :
  tryToDisassembleWithUDis86 [] 64 0x1000 nop_code =
    Ok [(0x1000, chars "pause "); (0x1002, chars "nop ")] /\
  partitions 0x1000 nop_code [(0x1000, chars "pause "); (0x1002, chars "nop ")].
Proof.
  split; [by vm_compute |].
  exact (disassemble_partitions sample sample_ok [] 64 0x1000 nop_code nop_bytes).
Defined.

(** C2: [ud_decode] on every input position: opcode and operand decoding run
    without a fault (no access outside the generated tables, the byte cache or
    [inp_sess], no failed assertion, no null pointer, enough fuel), consume at
    most 45 bytes and at least one when there is one, and move the program
    counter by that number.  The hex dump then succeeds, and spells the
    consumed bytes, exactly when they are at most 15; otherwise it writes
    outside [insn_hexcode]. *)
Theorem ud_decode_total (T : Itab) (TO : ItabOk T) u r :
  repr (inp u) r -> mode_ok u -> length (insn_hexcode u) = 32%nat ->
  exists r' u1, insn_span r r' /\ decoded u r' u1 /\ decode_outcome u1 r' (ud_decode u).
Proof. apply ud_decode_ok. Qed.

Lemma ud_decode_total_witness :
  ready (start mov_code) (cursor mov_code) /\
  (exists r' u1, insn_span (cursor mov_code) r' /\ decoded (start mov_code) r' u1 /\
    decode_outcome u1 r' (ud_decode (start mov_code))).
Proof.
  split; [exact (start_ready _ mov_bytes) |].
  apply (ud_decode_total sample sample_ok).
  - exact (ready_repr _ _ (start_ready _ mov_bytes)).
  - right; right; reflexivity.
  - reflexivity.
Defined.

(** C3: the prefix loop consumes the maximal run of prefix bytes when it has at
    most 13 bytes and another byte follows, leaves the cursor on that byte, and
    its effect is the prefixes' applied in order; otherwise it fails after at
    most 15 bytes. *)
Theorem decode_prefixes_maximal_run u r :
  repr (inp u) r -> r_ctr r = 0%nat -> r_err r = 0 ->
  wp decode_prefixes u (prefixes_post 0 u r).
Proof. apply decode_prefixes_ok. Qed.

Lemma decode_prefixes_maximal_run_witness :
  prefix_run 64 nop_code = 1%nat /\
  wp decode_prefixes (start nop_code) (prefixes_post 0 (start nop_code) (cursor nop_code)).
Proof.
  split; [reflexivity |]. apply decode_prefixes_maximal_run; [| reflexivity | reflexivity].
  exact (ready_repr _ _ (start_ready _ nop_bytes)).
Defined.

(** C4: [ud_inp_next] implements the cursor over the whole input: it returns
    the next byte of the source, from the cache when the decoder has moved
    back over it and from the hook otherwise, records it in the session, and
    raises the end-of-input and error flags at the end of the source. *)
Theorem ud_inp_next_refines i r :
  repr i r -> (r_ctr r < 64)%nat ->
  wp ud_inp_next i (fun c i' => c = fst (reader_next r) /\ repr i' (snd (reader_next r))).
Proof. apply ud_inp_next_repr. Qed.

Lemma ud_inp_next_refines_witness :
  wp ud_inp_next (inp (start mov_code)) (fun c i' => c = 0xc7 /\
    repr i' (mk_reader mov_code 1 1 false 0)).
Proof.
  apply (ud_inp_next_refines _ (cursor mov_code)); [| simpl; lia].
  exact (ready_repr _ _ (start_ready _ mov_bytes)).
Defined.

(** Moving back over a byte and reading on gives the same byte again, from
    the cache, and the same cursor: [ud_inp_back] undoes [ud_inp_next]. *)
Theorem ud_inp_next_back_next i r c :
  repr i r -> (r_ctr r < 64)%nat -> r_all r !! r_pos r = Some c ->
  wp (c1 ← ud_inp_next; ud_inp_back;; c2 ← ud_inp_next; mret (c1, c2)) i
     (fun cc i' => cc = (c, c) /\ repr i' (snd (reader_next r))).
Proof.
  intros Hr Hlt Hc. pose proof (reader_next_Some r c Hc) as Hn.
  wp_step. eapply wp_mono; [by apply ud_inp_next_repr |]. intros c1 i1 [-> Hr1]. rewrite Hn in *.
  wp_step. eapply wp_mono; [by apply ud_inp_back_repr |]. intros x i2 Hr2.
  simpl in Hr2. rewrite reader_back_skip in Hr2.
  wp_step. eapply wp_mono; [by apply (ud_inp_next_repr i2 r) |].
  intros c2 i3 [-> Hr3]. wp_steps. rewrite Hn in *. done.
Qed.

Lemma ud_inp_next_back_next_witness :
  wp (c1 ← ud_inp_next; ud_inp_back;; c2 ← ud_inp_next; mret (c1, c2)) (inp (start mov_code))
     (fun cc i' => cc = (0xc7, 0xc7) /\ repr i' (snd (reader_next (cursor mov_code)))).
Proof.
  apply ud_inp_next_back_next; [| simpl; lia | reflexivity].
  exact (ready_repr _ _ (start_ready _ mov_bytes)).
Defined.

(** The multi-byte reads are little-endian: their result is the number the
    next 2, 4 or 8 bytes make, a byte past the end counting as 0. *)
Theorem ud_inp_uint_little_endian i r :
  repr i r -> (r_ctr r + 8 <= 64)%nat ->
  wp ud_inp_uint16 i (fun v i' => v = le_combine (fst (reader_read 2 r)) /\
                                  repr i' (snd (reader_read 2 r))) /\
  wp ud_inp_uint32 i (fun v i' => v = le_combine (fst (reader_read 4 r)) /\
                                  repr i' (snd (reader_read 4 r))) /\
  wp ud_inp_uint64 i (fun v i' => v = le_combine (fst (reader_read 8 r)) /\
                                  repr i' (snd (reader_read 8 r))).
Proof.
  intros Hr Hc. split_and!; [apply ud_inp_uint16_repr | apply ud_inp_uint32_repr
    | apply ud_inp_uint64_repr]; (done || lia).
Qed.

Lemma ud_inp_uint_little_endian_witness :
  le_combine (fst (reader_read 4 (cursor mov_code))) = 0xf88d44c7 /\
  wp ud_inp_uint32 (inp (start mov_code)) (fun v i' =>
    v = le_combine (fst (reader_read 4 (cursor mov_code))) /\
    repr i' (snd (reader_read 4 (cursor mov_code)))).
Proof.
  split; [reflexivity |].
  apply (ud_inp_uint_little_endian _ (cursor mov_code)); [| simpl; lia].
  exact (ready_repr _ _ (start_ready _ mov_bytes)).
Defined.

(** C5: any sequence of [mkasm] calls on a fresh text buffer: it succeeds exactly
    when the text before the last call has at most 64 characters, and the
    buffer then holds the whole text cut off after 63 characters; a call that
    starts beyond character 64 writes outside the buffer, because the size it
    passes to [vsnprintf] has wrapped around. *)
Theorem mkasm_sequence u t ss :
  asm_repr u t -> Z.of_nat (length t + length (concat ss)) < 2 ^ 31 -> ss <> [] ->
  if (length (t ++ concat (removelast ss)) <=? 64)%nat
  then exists u', mkasm_all ss u = Ok (tt, u') /\ asm_repr u' (t ++ concat ss)
  else mkasm_all ss u = Err OOB_insn_buffer.
Proof. intros. by apply mkasm_all_repr. Qed.

Lemma mkasm_sequence_witness :
  mkasm_all [replicate 65 65; [66]] (start []) = Err OOB_insn_buffer.
Proof.
  apply (mkasm_sequence (start []) [] [replicate 65 65; [66]]); [| by vm_compute | done].
  split; [| reflexivity]. split; [reflexivity |]. exists (replicate 63 0). reflexivity.
Defined.

(** The operand and address sizes [resolve_mode] stores are the effective
    sizes the opcode tables are indexed with, computed from the REX bits the
    instruction keeps; the one exception is the 64-bit operand size of
    instructions that default to it. *)
Theorem resolve_mode_effective p u :
  mode_ok u ->
  let u' := set_mode_flags p u in
  eff_adr_mode (dis_mode u') (pfx_adr u') u' = Ok (adr_mode u', u') /\
  (if (dis_mode u =? 64) && truthy (P_DEF64 p) && negb (truthy (REX_W (pfx_rex u'))) &&
      negb (truthy (pfx_opr u))
   then opr_mode u' = 64
   else eff_opr_mode (dis_mode u') (REX_W (pfx_rex u')) (pfx_opr u') u' = Ok (opr_mode u', u')).
Proof.
  intros Hm u'. subst u'. unfold set_mode_flags, eff_adr_mode, eff_opr_mode, ud_assert.
  destruct Hm as [Hm | [Hm | Hm]]; rewrite Hm; simpl; rewrite ?Hm; simpl; split; try done.
  set (w := truthy (REX_W _)). destruct w, (truthy (P_DEF64 p)), (truthy (pfx_opr u)); done.
Qed.

Lemma resolve_mode_effective_witness :
  mode_ok (start []) /\
  let u' := set_mode_flags 0x80 (start []) in
  eff_adr_mode (dis_mode u') (pfx_adr u') u' = Ok (adr_mode u', u').
Proof.
  split; [right; right; reflexivity |].
  generalize (resolve_mode_effective 0x80 (start []) (or_intror (or_intror eq_refl))).
  generalize (start []). intros u H. destruct H as [H _]. exact H.
Defined.

(** The AT&T translator prints a relative branch as the address it jumps to:
    the characters appended for the operand are 0x and at most 16 hexadecimal
    digits, which read back as the branch target. *)
Theorem att_branch_text (T : Itab) u t op :
  asm_repr u t -> (length t <= 64)%nat -> op_type op = UD_OP_JIMM ->
  op_size op = 8 \/ op_size op = 16 \/ op_size op = 32 ->
  exists u' ds, Att.gen_operand op u = Ok (tt, u') /\ asm_repr u' (t ++ chars "0x" ++ ds) /\
    (1 <= length ds <= 16)%nat /\ hex_value ds = branch_target u op.
Proof.
  intros Hr Ht Hop Hs. unfold Att.gen_operand. rewrite Hop. simpl.
  assert (forall v, exists u' ds, mkasm (chars "0x" ++ fmt_llx v) u = Ok (tt, u') /\
    asm_repr u' (t ++ chars "0x" ++ ds) /\ (1 <= length ds <= 16)%nat /\ hex_value ds = u64 v) as Hm.
  { intros v. destruct (fmt_llx_value v) as [Hv Hl].
    pose proof (mkasm_repr u t (chars "0x" ++ fmt_llx v) Hr) as Hm.
    rewrite length_app, (proj2 (Nat.leb_le _ _) Ht) in Hm. simpl (length (chars _)) in Hm.
    destruct Hm as (b & -> & Hb); [lia |]. eexists. exists (fmt_llx v).
    split; [reflexivity |]. split; [split; [exact Hb | reflexivity] | done]. }
  unfold mbind, M_bind, mget, branch_target.
  destruct Hs as [-> | [-> | ->]]; simpl; [apply Hm | |].
  - destruct (Hm (Z.land (u64 (pc u + lval_sword (lval op))) 0xffff)) as (u' & ds & He & ? & ? & Hv).
    exists u', ds. split; [exact He |]. split; [done |]. split; [done |]. rewrite Hv. apply land_u64. lia.
  - destruct (dis_mode u =? 32); [| apply Hm].
    destruct (Hm (Z.land (u64 (pc u + lval_sdword (lval op))) 0xffffffff)) as (u' & ds & He & ? & ? & Hv).
    exists u', ds. split; [exact He |]. split; [done |]. split; [done |]. rewrite Hv. apply land_u64. lia.
Qed.

Definition jump_operand : ud_operand :=
  zero_operand <| op_type := UD_OP_JIMM |> <| op_size := 8 |> <| lval := 0xfe |>.

Lemma att_branch_text_witness :
  exists u' ds, Att.gen_operand (T := sample) jump_operand (start []) = Ok (tt, u') /\
    asm_repr u' (chars "0x" ++ ds) /\ (1 <= length ds <= 16)%nat /\ hex_value ds = 0xffe.
Proof.
  apply (att_branch_text sample (start []) [] jump_operand);
    [| simpl; lia | reflexivity | left; reflexivity].
  split; [| reflexivity]. split; [reflexivity |]. exists (replicate 63 0). reflexivity.
Defined.
