(* ===== verification/Probe.v ===== *)
(** * Double hashing and powers of two

    The probe sequence the hash tables of WTF and JavaScriptCore share: the
    secondary hash [doubleHash] of [wtf/HashTable.h] and its odd step, and the
    power-of-two helpers of [wtf/MathExtras.h] and
    [runtime/PropertyMapHashTable.h].  The central fact: a sequence with an odd
    step visits every slot of a table of size [2^k] within [2^k] probes. *)

From stdpp Require Import base numbers list.
From S2P Require Import Prelude.

#[local] Open Scope Z_scope.

(** ** Code *)

(** [WTF::doubleHash], on 32-bit unsigned integers. *)
Definition doubleHash (key : Z) : Z :=
  let key := u32 (u32 (Z.lnot key) + Z.shiftr key 23) in
  let key := Z.lxor key (u32 (Z.shiftl key 12)) in
  let key := Z.lxor key (Z.shiftr key 7) in
  let key := Z.lxor key (u32 (Z.shiftl key 2)) in
  Z.lxor key (Z.shiftr key 20).

Definition hasOneBitSet (value : Z) : bool :=
  (Z.land (u32 (value - 1)) value =? 0) && truthy value.

Definition isPowerOf2 (v : Z) : bool := hasOneBitSet v.

Definition nextPowerOf2 (v : Z) : Z :=
  let v := u32 (v - 1) in
  let v := Z.lor v (Z.shiftr v 1) in
  let v := Z.lor v (Z.shiftr v 2) in
  let v := Z.lor v (Z.shiftr v 4) in
  let v := Z.lor v (Z.shiftr v 8) in
  let v := Z.lor v (Z.shiftr v 16) in
  u32 (v + 1).

(** ** Probing with an odd step *)

(** Slot number [n] of the probe sequence from [h] with step [s] in a table of
    [2^k] slots. *)
Definition probe (k h s : Z) (n : nat) : Z := (h + Z.of_nat n * s) `mod` 2 ^ k.

Lemma odd_inverse (k : nat) s :
  Z.odd s = true -> exists t, (s * t) `mod` 2 ^ Z.of_nat k = 1 `mod` 2 ^ Z.of_nat k.
Proof.
  intros Hs. induction k as [|k [t Ht]]; [exists 0; by rewrite !Z.mod_1_r |].
  set (m := 2 ^ Z.of_nat k) in *. assert (0 < m) as Hm by (unfold m; lia).
  assert (2 ^ Z.of_nat (S k) = 2 * m) as -> by (unfold m; rewrite Nat2Z.inj_succ, Z.pow_succ_r; lia).
  assert (exists c, s * t = 1 + c * m) as [c Hc].
  { exists ((s * t) / m - 1 / m). pose proof (Z.div_mod (s * t) m). pose proof (Z.div_mod 1 m). lia. }
  apply Zodd_bool_iff, Zodd_ex in Hs as [b Hb].
  destruct (Z.Even_or_Odd c) as [[d Hd] | [d Hd]].
  - exists t. rewrite Hc, Hd. replace (1 + 2 * d * m) with (1 + d * (2 * m)) by lia.
    by rewrite Z.mod_add by lia.
  - exists (t + m). replace (s * (t + m)) with (1 + (d + b + 1) * (2 * m)) by (rewrite Z.mul_add_distr_l; nia).
    by rewrite Z.mod_add by lia.
Qed.

(** Every slot is visited within [2^k] probes. *)
Lemma probe_visits (k : nat) h s slot :
  Z.odd s = true -> 0 <= slot < 2 ^ Z.of_nat k ->
  exists n, Z.of_nat n < 2 ^ Z.of_nat k /\ probe (Z.of_nat k) h s n = slot.
Proof.
  intros Hs Hslot. destruct (odd_inverse k s Hs) as [t Ht].
  set (m := 2 ^ Z.of_nat k) in *. assert (0 < m) as Hm by (unfold m; lia).
  exists (Z.to_nat (((slot - h) * t) `mod` m)).
  pose proof (Z.mod_pos_bound ((slot - h) * t) m Hm) as Hb. split; [lia |].
  unfold probe. fold m. rewrite Z2Nat.id by lia.
  rewrite <- Zplus_mod_idemp_r, Zmult_mod_idemp_l.
  replace ((slot - h) * t * s) with ((s * t) * (slot - h)) by lia.
  rewrite <- Zmult_mod_idemp_l, Ht, Zmult_mod_idemp_l, Zplus_mod_idemp_r.
  replace (h + 1 * (slot - h)) with slot by lia. by apply Z.mod_small.
Qed.

Lemma lor_1_odd x : Z.odd (Z.lor x 1) = true.
Proof. rewrite <- Z.bit0_odd, Z.lor_spec. simpl. apply orb_true_r. Qed.

Lemma probe_range k h s n : 0 <= k -> 0 <= probe k h s n < 2 ^ k.
Proof. intros. apply Z.mod_pos_bound. lia. Qed.

(** Masking with [2^k - 1] is reduction modulo the table size. *)
Lemma land_mask x k : 0 <= k -> Z.land x (2 ^ k - 1) = x `mod` 2 ^ k.
Proof.
  intros. replace (2 ^ k - 1) with (Z.ones k) by (rewrite Z.ones_equiv; lia).
  by apply Z.land_ones.
Qed.

(** ** The next power of two *)

(** [y] has bit [i] exactly when [x] has one of the bits [i .. i + w - 1]. *)
Definition smeared (w x y : Z) : Prop :=
  forall i, 0 <= i -> (Z.testbit y i = true <-> exists j, i <= j < i + w /\ Z.testbit x j = true).

Lemma smeared_1 x : smeared 1 x x.
Proof.
  intros i Hi. split; [intros; exists i; split; [lia | done] |].
  intros (j & Hj & Hb). by replace i with j by lia.
Qed.

Lemma smeared_double w x y :
  0 <= w -> smeared w x y -> smeared (2 * w) x (Z.lor y (Z.shiftr y w)).
Proof.
  intros Hw Hs i Hi. rewrite Z.lor_spec, Z.shiftr_spec by done. rewrite orb_true_iff.
  rewrite (Hs i) by done. rewrite (Hs (i + w)) by lia. split.
  - intros [(j & ? & ?) | (j & ? & ?)]; exists j; (split; [lia | done]).
  - intros (j & Hj & Hb). destruct (Z.lt_ge_cases j (i + w)); [left | right]; exists j;
      (split; [lia | done]).
Qed.

Lemma smeared_ones x y :
  0 < x < 2 ^ 32 -> smeared 32 x y -> 0 <= y -> y = Z.ones (Z.log2 x + 1).
Proof.
  intros Hx Hs Hy. pose proof (Z.log2_nonneg x). pose proof (Z.log2_lt_pow2 x 32 ltac:(lia)).
  apply Z.bits_inj'. intros i Hi. rewrite Z.testbit_ones_nonneg by lia.
  destruct (Z.ltb_spec i (Z.log2 x + 1)).
  - apply (Hs i Hi). exists (Z.log2 x). split; [lia | apply Z.bit_log2; lia].
  - apply not_true_iff_false. rewrite (Hs i Hi). intros (j & Hj & Hb).
    rewrite Z.bits_above_log2 in Hb by lia. done.
Qed.

Lemma lor_shiftr_nonneg y w : 0 <= y -> 0 <= Z.lor y (Z.shiftr y w).
Proof. intros. apply Z.lor_nonneg. by rewrite Z.shiftr_nonneg. Qed.

Lemma nextPowerOf2_spec v : 1 <= v <= 2 ^ 31 -> nextPowerOf2 v = 2 ^ Z.log2_up v.
Proof.
  intros Hv. unfold nextPowerOf2. rewrite (u32_id (v - 1)) by lia. cbv zeta.
  pose proof (smeared_double 1 _ _ ltac:(lia) (smeared_1 (v - 1))) as Hs.
  apply (smeared_double 2), (smeared_double 4), (smeared_double 8), (smeared_double 16) in Hs; try lia.
  set (y := Z.lor _ (Z.shiftr _ 16)) in *.
  assert (0 <= y) as Hy by (unfold y; do 5 apply lor_shiftr_nonneg; lia).
  destruct (Z.eq_dec v 1) as [-> | Hne].
  { assert (y = 0) as -> by (by apply Z.bits_inj'). done. }
  rewrite (smeared_ones (v - 1) y ltac:(lia) Hs Hy), Z.ones_equiv, Z.log2_up_eqn by lia.
  rewrite <- Z.add_1_r. replace (Z.pred v) with (v - 1) by lia.
  pose proof (Z.log2_nonneg (v - 1)). pose proof (Z.log2_lt_pow2 (v - 1) 31 ltac:(lia)).
  assert (2 ^ (Z.log2 (v - 1) + 1) <= 2 ^ 31) by (apply Z.pow_le_mono_r; lia).
  rewrite u32_id; lia.
Qed.

Lemma nextPowerOf2_le v : 1 <= v <= 2 ^ 31 -> v <= nextPowerOf2 v <= 2 ^ 31.
Proof.
  intros Hv. rewrite nextPowerOf2_spec by done. split.
  - destruct (Z.eq_dec v 1) as [-> |]; [done |]. apply Z.log2_up_spec. lia.
  - apply Z.pow_le_mono_r; [lia |]. change 31 with (Z.log2_up (2 ^ 31)).
    apply Z.log2_up_le_mono. lia.
Qed.
