(* ===== verification/PropertyTable.v ===== *)
(** * Property tables

    [runtime/PropertyMapHashTable.h], [runtime/PropertyTable.cpp] and
    [runtime/PropertyOffset.h]: the hash table that maps the property names of
    a [Structure] to storage offsets and keeps them in insertion order.  An
    index of [m_indexSize] slots, probed by double hashing, points into an
    array of entries; removed entries stay as tombstones until a rehash. *)

From stdpp Require Import base numbers list gmap.
From S2P Require Import Prelude Probe.

#[local] Open Scope Z_scope.

(** ** Property offsets *)

Definition invalidOffset : Z := -1.
Definition firstOutOfLineOffset : Z := 100.

Inductive pt_fault :=
  | Index_out_of_range | Table_out_of_range | Deleted_key_read | Assertion | No_deleted_offset
  | Fuel_exhausted.

Definition checkOffset (offset : Z) : bool := invalidOffset <=? offset.
Definition isInlineOffset (offset : Z) : bool := offset <? firstOutOfLineOffset.
Definition isOutOfLineOffset (offset : Z) : bool := negb (isInlineOffset offset).
Definition isValidOffset (offset : Z) : bool := negb (offset =? invalidOffset).

Definition checkOffset_in (offset inlineCapacity : Z) : bool :=
  (invalidOffset <=? offset) &&
  ((offset =? invalidOffset) || (offset <? inlineCapacity) || isOutOfLineOffset offset).

Definition validateOffset (offset : Z) : bool := checkOffset offset && isValidOffset offset.
Definition validateOffset_in (offset inlineCapacity : Z) : bool :=
  checkOffset_in offset inlineCapacity && isValidOffset offset.

(** The results are of type [size_t]; out-of-line properties are stored at
    negative positions before the butterfly pointer. *)
Definition offsetInInlineStorage (offset : Z) : Z := u64 offset.
Definition offsetInOutOfLineStorage (offset : Z) : Z :=
  u64 (- (offset - firstOutOfLineOffset) - 1).
Definition offsetInRespectiveStorage (offset : Z) : Z :=
  if isInlineOffset offset then offsetInInlineStorage offset
  else offsetInOutOfLineStorage offset.

Definition numberOfOutOfLineSlotsForLastOffset (offset : Z) : Z :=
  if offset <? firstOutOfLineOffset then 0 else u64 (offset - firstOutOfLineOffset + 1).

Definition numberOfSlotsForLastOffset (offset inlineCapacity : Z) : Z :=
  if offset <? inlineCapacity then u64 (offset + 1)
  else u64 (inlineCapacity + numberOfOutOfLineSlotsForLastOffset offset).

Definition offsetForPropertyNumber (propertyNumber inlineCapacity : Z) : Z :=
  let offset := propertyNumber in
  if inlineCapacity <=? offset then s32 (s32 (offset + firstOutOfLineOffset) - inlineCapacity)
  else offset.

(** ** The table

    A key is the address of a [StringImpl]; [StringHeap] gives what the table
    reads of the string there: [existingHash] is its hash, and [hasHash] tells
    whether it was computed before the operation, which [findWithString] does
    itself.  The addresses 0 and 1 are the null pointer and
    [PROPERTY_MAP_DELETED_ENTRY_KEY]. *)

Class StringHeap := {
  existingHash : Z -> Z;
  hasHash : Z -> bool;
  isIdentifier : Z -> bool;
  isEmptyUnique : Z -> bool;
  characters : Z -> list Z
}.

Definition DELETED_KEY : Z := 1.

Record PropertyMapEntry := mk_entry {
  key : Z;
  offset : Z;
  attributes : Z;
  specificValue : Z
}.

Definition null_entry : PropertyMapEntry := mk_entry 0 0 0 0.

(** [m_index] and [table] are the two parts of the block [m_index] points to;
    [key_refs] are the reference counts of the strings on the heap. *)
Record PropertyTable := mk_table {
  m_indexSize : Z;
  m_indexMask : Z;
  m_index : list Z;
  table : list PropertyMapEntry;
  m_keyCount : Z;
  m_deletedCount : Z;
  m_deletedOffsets : option (list Z);
  key_refs : gmap Z Z
}.

Definition eta_table (t : PropertyTable) : PropertyTable :=
  mk_table (m_indexSize t) (m_indexMask t) (m_index t) (table t) (m_keyCount t)
    (m_deletedCount t) (m_deletedOffsets t) (key_refs t).

#[global] Instance Upd_m_index : Upd m_index := ltac:(mk_upd eta_table m_index).
#[global] Instance Upd_table : Upd table := ltac:(mk_upd eta_table table).
#[global] Instance Upd_m_keyCount : Upd m_keyCount := ltac:(mk_upd eta_table m_keyCount).
#[global] Instance Upd_m_deletedCount : Upd m_deletedCount := ltac:(mk_upd eta_table m_deletedCount).
#[global] Instance Upd_m_deletedOffsets : Upd m_deletedOffsets :=
  ltac:(mk_upd eta_table m_deletedOffsets).
#[global] Instance Upd_key_refs : Upd key_refs := ltac:(mk_upd eta_table key_refs).

Abbreviation PM := (M pt_fault PropertyTable).

Definition pt_assert (b : bool) : PM unit := if b then mret tt else mfail Assertion.

Definition MinimumTableSize : Z := 8.
Definition EmptyEntryIndex : Z := 0.

Definition size (t : PropertyTable) : Z := m_keyCount t.
Definition isEmpty (t : PropertyTable) : bool := m_keyCount t =? 0.
Definition usedCount (t : PropertyTable) : Z := u32 (m_keyCount t + m_deletedCount t).
Definition tableCapacity (t : PropertyTable) : Z := Z.shiftr (m_indexSize t) 1.
Definition deletedEntryIndex (t : PropertyTable) : Z := u32 (tableCapacity t + 1).
Definition canInsert (t : PropertyTable) : bool := usedCount t <? tableCapacity t.

Definition sizeForCapacity (capacity : Z) : Z :=
  if capacity <? MinimumTableSize / 2 then MinimumTableSize
  else u32 (nextPowerOf2 (u32 (capacity + 1)) * 2).

(** [StringImpl::ref] and [deref]: the count kept in the string. *)
Definition ref (k : Z) : PM unit :=
  mmod (fun t => t <| key_refs := partial_alter (fun n => Some (default 0 n + 1)) k (key_refs t) |>).
Definition deref (k : Z) : PM unit :=
  mmod (fun t => t <| key_refs := partial_alter (fun n => Some (default 0 n - 1)) k (key_refs t) |>).

Definition index_at (i : Z) : PM Z :=
  t ← mget; of_opt Index_out_of_range (aget (m_index t) i).
Definition entry_at (i : Z) : PM PropertyMapEntry :=
  t ← mget; of_opt Table_out_of_range (aget (table t) i).
Definition set_index (i v : Z) : PM unit :=
  t ← mget;
  l ← of_opt Index_out_of_range (aset (m_index t) i v);
  mmod (fun t => t <| m_index := l |>).
Definition set_entry (i : Z) (e : PropertyMapEntry) : PM unit :=
  t ← mget;
  l ← of_opt Table_out_of_range (aset (table t) i e);
  mmod (fun t => t <| table := l |>).

(** A zeroed block for an index of [size] slots. *)
Definition zeroed_index (size : Z) : list Z := replicate (Z.to_nat size) 0.
Definition zeroed_table (size : Z) : list PropertyMapEntry :=
  replicate (Z.to_nat (Z.shiftr size 1 + 1)) null_entry.

Section table.
Context {SH : StringHeap}.

(** [find_iterator]: the position of the entry in [table], if any, and the slot
    of the index. *)
Definition find_iterator : Type := option Z * Z.

(** The probe loop of [find]; [found] is its test for the entry's key. *)
Fixpoint find_loop (found : Z -> PM bool) (fuel : nat) (k hash step : Z) : PM find_iterator :=
  match fuel with
  | O => mfail Fuel_exhausted
  | S fuel' =>
      t ← mget;
      let slot := Z.land hash (m_indexMask t) in
      entryIndex ← index_at slot;
      if entryIndex =? EmptyEntryIndex then mret (None, slot)
      else
        e ← entry_at (entryIndex - 1);
        b ← found (key e);
        if (b : bool) then mret (Some (entryIndex - 1), slot)
        else
          let step := if step =? 0 then Z.lor (doubleHash (existingHash k)) 1 else step in
          find_loop found fuel' k (u32 (hash + step)) step
  end.

Definition find (k : Z) : PM find_iterator :=
  t ← mget;
  pt_assert (negb (k =? 0) && (isIdentifier k || isEmptyUnique k));;
  find_loop (fun k' => mret (k =? k')) (Z.to_nat (m_indexSize t)) k (existingHash k) 0.

(** [equal(a, b)] of two string pointers; the tombstone is no string. *)
Definition equal (a b : Z) : PM bool :=
  if (a =? 0) || (b =? 0) then mret ((a =? 0) && (b =? 0))
  else if b =? DELETED_KEY then mfail Deleted_key_read
  else mret (bool_decide (characters a = characters b)).

(** [findWithString]: [k] is a string that is no identifier and has no hash yet;
    the entry whose key has the same characters. *)
Definition findWithString (k : Z) : PM find_iterator :=
  t ← mget;
  pt_assert (negb (k =? 0));;
  pt_assert (negb (isIdentifier k) && negb (hasHash k));;
  find_loop (fun k' => b ← equal k k'; mret (b && isIdentifier k'))
    (Z.to_nat (m_indexSize t)) k (existingHash k) 0.

(** The end of [add] and [reinsert]: a new entry at the slot [slot]. *)
Definition append_entry (slot : Z) (e : PropertyMapEntry) : PM Z :=
  t ← mget;
  let entryIndex := u32 (usedCount t + 1) in
  set_index slot entryIndex;;
  set_entry (entryIndex - 1) e;;
  mmod (fun t => t <| m_keyCount := u32 (m_keyCount t + 1) |>);;
  mret (entryIndex - 1).

Definition reinsert (e : PropertyMapEntry) : PM unit :=
  t ← mget;
  pt_assert (canInsert t);;
  iter ← find (key e);
  pt_assert (bool_decide (fst iter = None));;
  append_entry (snd iter) e;;
  mret tt.

(** [skipDeletedEntries] from position [i] of the array [l]. *)
Fixpoint skipDeletedEntries (l : list PropertyMapEntry) (fuel : nat) (i : Z) : PM Z :=
  match fuel with
  | O => mfail Fuel_exhausted
  | S fuel' =>
      e ← of_opt Table_out_of_range (aget l i);
      if key e =? DELETED_KEY then skipDeletedEntries l fuel' (i + 1) else mret i
  end.

(** The loop of [rehash] over the old array, up to [end_]. *)
Fixpoint reinsert_loop (old : list PropertyMapEntry) (fuel : nat) (iter end_ : Z) : PM unit :=
  match fuel with
  | O => mfail Fuel_exhausted
  | S fuel' =>
      if iter =? end_ then mret tt
      else
        t ← mget;
        pt_assert (canInsert t);;
        e ← of_opt Table_out_of_range (aget old iter);
        reinsert e;;
        iter ← skipDeletedEntries old (S (length old)) (iter + 1);
        reinsert_loop old fuel' iter end_
  end.

Definition rehash (newCapacity : Z) : PM unit :=
  t ← mget;
  let old := table t in
  iter ← skipDeletedEntries old (S (length old)) 0;
  let end_ := usedCount t in
  let size := sizeForCapacity newCapacity in
  mmod (fun t => mk_table size (u32 (size - 1)) (zeroed_index size) (zeroed_table size) 0 0
                   (m_deletedOffsets t) (key_refs t));;
  reinsert_loop old (S (length old)) iter end_.

Inductive EffectOnPropertyOffset := PropertyOffsetMayChange | PropertyOffsetMustNotChange.

(** [add]: the iterator, whether the entry is new, and the new value of the
    caller's [offset]. *)
Definition add (e : PropertyMapEntry) (off : Z) (effect : EffectOnPropertyOffset)
    : PM (find_iterator * bool * Z) :=
  iter ← find (key e);
  match fst iter with
  | Some i =>
      e' ← entry_at i;
      pt_assert (offset e' <=? off);;
      mret (iter, false, off)
  | None =>
      ref (key e);;
      t ← mget;
      iter ← (if canInsert t then mret iter
              else
                rehash (u32 (m_keyCount t + 1));;
                iter ← find (key e);
                pt_assert (bool_decide (fst iter = None));;
                mret iter);
      i ← append_entry (snd iter) e;
      match effect with
      | PropertyOffsetMayChange => mret (Some i, snd iter, true, Z.max off (offset e))
      | PropertyOffsetMustNotChange =>
          pt_assert (offset e <=? off);; mret (Some i, snd iter, true, off)
      end
  end.

Definition remove_iter (iter : find_iterator) : PM unit :=
  match fst iter with
  | None => mret tt
  | Some i =>
      t ← mget;
      set_index (snd iter) (deletedEntryIndex t);;
      e ← entry_at i;
      deref (key e);;
      set_entry i (mk_entry DELETED_KEY (offset e) (attributes e) (specificValue e));;
      pt_assert (1 <=? m_keyCount t);;
      mmod (fun t => t <| m_keyCount := u32 (m_keyCount t - 1) |>
                       <| m_deletedCount := u32 (m_deletedCount t + 1) |>);;
      t ← mget;
      if m_indexSize t <=? u32 (m_deletedCount t * 4) then rehash (m_keyCount t) else mret tt
  end.

Definition remove (k : Z) : PM unit := iter ← find k; remove_iter iter.

(** Ordered iteration, as [for (iter = begin(); iter != end(); ++iter)]. *)
Fixpoint entries_loop (l : list PropertyMapEntry) (fuel : nat) (iter end_ : Z)
    : PM (list PropertyMapEntry) :=
  match fuel with
  | O => mfail Fuel_exhausted
  | S fuel' =>
      if iter =? end_ then mret []
      else
        e ← of_opt Table_out_of_range (aget l iter);
        iter ← skipDeletedEntries l (S (length l)) (iter + 1);
        es ← entries_loop l fuel' iter end_;
        mret (e :: es)
  end.

Definition entries : PM (list PropertyMapEntry) :=
  t ← mget;
  iter ← skipDeletedEntries (table t) (S (length (table t))) 0;
  entries_loop (table t) (S (length (table t))) iter (usedCount t).

(** ** Deleted offsets *)

Definition propertyStorageSize (t : PropertyTable) : Z :=
  u32 (size t + match m_deletedOffsets t with Some l => Z.of_nat (length l) | None => 0 end).

Definition clearDeletedOffsets : PM unit := mmod (fun t => t <| m_deletedOffsets := None |>).

Definition hasDeletedOffset (t : PropertyTable) : bool :=
  match m_deletedOffsets t with Some (_ :: _) => true | _ => false end.

(** The vector's last element; the head of the list is its first. *)
Definition getDeletedOffset : PM Z :=
  t ← mget;
  match m_deletedOffsets t with
  | Some l =>
      match last l with
      | Some o =>
          mmod (fun t => t <| m_deletedOffsets := Some (removelast l) |>);; mret o
      | None => mfail No_deleted_offset
      end
  | None => mfail No_deleted_offset
  end.

Definition addDeletedOffset (o : Z) : PM unit :=
  mmod (fun t => t <| m_deletedOffsets := Some (default [] (m_deletedOffsets t) ++ [o]) |>).

Definition nextOffset (inlineCapacity : Z) : PM Z :=
  t ← mget;
  if hasDeletedOffset t then getDeletedOffset
  else mret (offsetForPropertyNumber (s32 (size t)) inlineCapacity).

(** ** Construction and copies *)

(** [PropertyTable(VM&, initialCapacity)] over a heap with the counts [refs]. *)
Definition create (refs : gmap Z Z) (initialCapacity : Z) : PropertyTable :=
  let size := sizeForCapacity initialCapacity in
  mk_table size (u32 (size - 1)) (zeroed_index size) (zeroed_table size) 0 0 None refs.

(** References to the keys of a copied table. *)
Fixpoint ref_all (es : list PropertyMapEntry) : PM unit :=
  match es with
  | [] => mret tt
  | e :: es' => ref (key e);; ref_all es'
  end.

(** [clone] of a table of the same size: a copy of the block. *)
Definition clone (other : PropertyTable) : res pt_fault PropertyTable :=
  match (es ← entries; ref_all es) other with
  | Ok (_, t) => Ok t
  | Err e => Err e
  end.

(** [clone] with another capacity: the entries inserted into a fresh table. *)
Fixpoint clone_loop (es : list PropertyMapEntry) : PM unit :=
  match es with
  | [] => mret tt
  | e :: es' =>
      t ← mget;
      pt_assert (canInsert t);;
      reinsert e;;
      ref (key e);;
      clone_loop es'
  end.

Definition clone_capacity (initialCapacity : Z) (other : PropertyTable) : res pt_fault PropertyTable :=
  if initialCapacity <? m_keyCount other then Err Assertion
  else
    match entries other with
    | Err e => Err e
    | Ok (es, _) =>
        match clone_loop es (create (key_refs other) initialCapacity) with
        | Ok (_, t) => Ok (t <| m_deletedOffsets := m_deletedOffsets other |>)
        | Err e => Err e
        end
    end.

Definition copy (newCapacity : Z) (t : PropertyTable) : res pt_fault PropertyTable :=
  if newCapacity <? m_keyCount t then Err Assertion
  else if sizeForCapacity newCapacity =? m_indexSize t then clone t
  else clone_capacity newCapacity t.

(** [~PropertyTable]: the references are given back. *)
Fixpoint deref_all (es : list PropertyMapEntry) : PM unit :=
  match es with
  | [] => mret tt
  | e :: es' => deref (key e);; deref_all es'
  end.

Definition destroy : PM unit := es ← entries; deref_all es.

End table.
