(* ===== verification/PropertyTableProof.v ===== *)
(** * Property tables: the representation invariant and the abstract map

    A table represents the list of its live entries, in insertion order, with
    distinct keys: [find] looks a key up in it, [add] appends, [remove]
    deletes, [rehash] and the copies keep it.  The probe loop ends because the
    step is odd, the index a power of two and at most half full. *)

From stdpp Require Import base numbers list gmap.
From S2P Require Import Prelude Probe PropertyTable.

#[local] Open Scope Z_scope.

(** ** The abstraction *)

Definition live (e : PropertyMapEntry) : bool := DELETED_KEY <? key e.

Definition lives (l : list PropertyMapEntry) : list PropertyMapEntry := List.filter live l.

Definition used (t : PropertyTable) : nat := Z.to_nat (m_keyCount t + m_deletedCount t).

(** The properties the table holds, in insertion order. *)
Definition contents (t : PropertyTable) : list PropertyMapEntry := lives (take (used t) (table t)).

Definition keys (t : PropertyTable) : list Z := key <$> contents t.

Section inv.
Context {SH : StringHeap}.

(** The probe sequence of the key [k] in an index of [2^n] slots. *)
Definition hash_step (k : Z) : Z := Z.lor (doubleHash (existingHash k)) 1.
Definition slot_of (n : nat) (k : Z) (j : nat) : Z :=
  probe (Z.of_nat n) (existingHash k) (hash_step k) j.

(** Slot [slot_of n k j] holds [v] and the earlier probes of [k] are not
    empty. *)
Definition reaches (n : nat) (t : PropertyTable) (k : Z) (j : nat) (v : Z) : Prop :=
  aget (m_index t) (slot_of n k j) = Some v /\
  forall i, (i < j)%nat -> aget (m_index t) (slot_of n k i) <> Some 0.

Definition nonempty (v : Z) : bool := negb (v =? EmptyEntryIndex).

Record inv_at (n : nat) (t : PropertyTable) : Prop := mk_inv {
  inv_n : (3 <= n <= 31)%nat;
  inv_size : m_indexSize t = 2 ^ Z.of_nat n;
  inv_mask : m_indexMask t = 2 ^ Z.of_nat n - 1;
  inv_index_len : length (m_index t) = (2 ^ n)%nat;
  inv_table_len : length (table t) = (2 ^ (n - 1) + 1)%nat;
  inv_keyCount : 0 <= m_keyCount t;
  inv_deletedCount : 0 <= m_deletedCount t;
  inv_used : (used t <= 2 ^ (n - 1))%nat;
  inv_entries : forall i e, table t !! i = Some e ->
    if decide (i < used t)%nat then live e = true \/ key e = DELETED_KEY else key e = 0;
  inv_count : Z.of_nat (length (contents t)) = m_keyCount t;
  inv_nodup : NoDup (keys t);
  inv_slots : forall p v, aget (m_index t) p = Some v -> v <> 0 -> v <> Z.of_nat (2 ^ (n - 1)) + 1 ->
    exists e, aget (table t) (v - 1) = Some e /\ live e = true;
  inv_inj : forall p q v, aget (m_index t) p = Some v -> aget (m_index t) q = Some v ->
    v <> 0 -> v <> Z.of_nat (2 ^ (n - 1)) + 1 -> p = q;
  inv_nonempty : length (List.filter nonempty (m_index t)) = used t;
  inv_reach : forall i e, table t !! i = Some e -> live e = true ->
    exists j, reaches n t (key e) j (Z.of_nat i + 1)
}.

Definition inv (t : PropertyTable) : Prop := exists n, inv_at n t.

(** ** Arithmetic of the sizes *)

Lemma pow2_nat (n : nat) : Z.of_nat (2 ^ n) = 2 ^ Z.of_nat n.
Proof. rewrite Nat2Z.inj_pow. done. Qed.

Lemma pow2_half (n : nat) : (1 <= n)%nat -> (2 ^ n = 2 * 2 ^ (n - 1))%nat.
Proof. intros. destruct n; [lia |]. simpl. rewrite Nat.sub_0_r. lia. Qed.

Lemma inv_cap n t : inv_at n t -> tableCapacity t = Z.of_nat (2 ^ (n - 1)).
Proof.
  intros [Hn Hs _ _ _ _ _ _ _ _ _ _ _ _ _]. unfold tableCapacity. rewrite Hs, Z.shiftr_div_pow2 by lia.
  rewrite <- pow2_nat, (pow2_half n) by lia. rewrite Nat2Z.inj_mul.
  change (2 ^ 1) with (Z.of_nat 2). rewrite Z.mul_comm. apply Z.div_mul. lia.
Qed.

Lemma pow2_le_30 n t : inv_at n t -> (2 ^ (n - 1) <= 2 ^ 30)%nat.
Proof. intros []. apply Nat.pow_le_mono_r; lia. Qed.

Lemma nat_pow_30 : Z.of_nat (2 ^ 30) = 1073741824.
Proof. by rewrite pow2_nat. Qed.
#[local] Opaque Nat.pow.

Lemma inv_usedCount n t : inv_at n t -> usedCount t = Z.of_nat (used t).
Proof.
  intros H. pose proof (pow2_le_30 _ _ H) as Hp. pose proof nat_pow_30. destruct H.
  unfold usedCount, used in *. rewrite u32_id; lia.
Qed.

Lemma inv_deletedIndex n t : inv_at n t -> deletedEntryIndex t = Z.of_nat (2 ^ (n - 1)) + 1.
Proof.
  intros H. unfold deletedEntryIndex. rewrite (inv_cap _ _ H).
  pose proof (pow2_le_30 _ _ H). pose proof nat_pow_30. rewrite u32_id; lia.
Qed.

(** ** The probe loop *)

Lemma filter_lt {A} (f : A -> bool) (l : list A) :
  (length (List.filter f l) < length l)%nat -> exists i x, l !! i = Some x /\ f x = false.
Proof.
  induction l as [|x l IH]; simpl; [lia |]. intros Hl. destruct (f x) eqn:Hx.
  - destruct IH as (i & y & ? & ?); [simpl in Hl; lia |]. by exists (S i), y.
  - by exists O, x.
Qed.

Lemma inv_index_lt n t p : inv_at n t -> 0 <= p < 2 ^ Z.of_nat n -> is_Some (aget (m_index t) p).
Proof. intros [] Hp. apply aget_is_Some. by rewrite inv_index_len0, pow2_nat. Qed.

(** At most half of the slots are in use. *)
Lemma inv_empty_slot n t : inv_at n t ->
  exists p, 0 <= p < 2 ^ Z.of_nat n /\ aget (m_index t) p = Some 0.
Proof.
  intros H. pose proof H as [Hn _ _ Hl _ _ _ Hu _ _ _ _ _ Hne _].
  destruct (filter_lt nonempty (m_index t)) as (i & v & Hi & Hv).
  { rewrite Hne, Hl, (pow2_half n) by lia. pose proof (Nat.pow_nonzero 2 (n - 1)). lia. }
  exists (Z.of_nat i). apply lookup_lt_Some in Hi as Hlt. rewrite Hl in Hlt.
  rewrite <- pow2_nat. split; [lia |]. apply aget_Some. rewrite Nat2Z.id.
  split; [lia |]. unfold nonempty, EmptyEntryIndex in Hv. zbool. by subst v.
Qed.

(** The entry a non-empty slot refers to is live, or the guard. *)
Lemma inv_slot_entry n t p v :
  inv_at n t -> aget (m_index t) p = Some v -> v <> 0 ->
  exists e, aget (table t) (v - 1) = Some e /\ (live e = true \/ key e = 0).
Proof.
  intros H Hp Hv. destruct (Z.eq_dec v (Z.of_nat (2 ^ (n - 1)) + 1)) as [-> | Hd].
  - destruct (aget_is_Some (table t) (Z.of_nat (2 ^ (n - 1)) + 1 - 1)) as [e He].
    { rewrite (inv_table_len _ _ H). lia. }
    exists e. split; [done |]. right. apply aget_Some in He as [_ He].
    pose proof (inv_entries _ _ H _ _ He) as Hk. pose proof (inv_used _ _ H).
    rewrite decide_False in Hk by lia. done.
  - destruct (inv_slots _ _ H _ _ Hp Hv Hd) as (e & ? & ?). eauto.
Qed.

(** The outcome of the loop: a slot whose entry satisfies [f], or an empty
    slot, after non-empty slots whose entries do not. *)
Definition probe_post (f : Z -> bool) (n : nat) (t : PropertyTable) (k : Z)
    (it : option Z * Z) : Prop :=
  exists j, snd it = slot_of n k j /\
    (forall i, (i < j)%nat -> exists v e, aget (m_index t) (slot_of n k i) = Some v /\ v <> 0 /\
       aget (table t) (v - 1) = Some e /\ f (key e) = false) /\
    match fst it with
    | Some i => aget (m_index t) (slot_of n k j) = Some (i + 1) /\ i + 1 <> 0 /\
        exists e, aget (table t) i = Some e /\ f (key e) = true
    | None => aget (m_index t) (slot_of n k j) = Some 0
    end.

Lemma slot_step n k j hash :
  (n <= 32)%nat -> hash `mod` 2 ^ Z.of_nat n = slot_of n k j ->
  u32 (hash + hash_step k) `mod` 2 ^ Z.of_nat n = slot_of n k (S j).
Proof.
  intros Hn Hh. unfold u32, uwrap, slot_of, probe in *.
  rewrite Z.mod_mod_divide.
  - rewrite <- Zplus_mod_idemp_l, Hh, Zplus_mod_idemp_l. f_equal. lia.
  - exists (2 ^ (32 - Z.of_nat n)). rewrite <- Z.pow_add_r by lia. f_equal. lia.
Qed.

Lemma find_loop_ok (f : Z -> bool) (found : Z -> PM bool) n t k m :
  inv_at n t ->
  (forall e, live e = true \/ key e = 0 -> found (key e) t = Ok (f (key e), t)) ->
  aget (m_index t) (slot_of n k m) = Some 0 ->
  forall fuel j hash step,
    hash `mod` 2 ^ Z.of_nat n = slot_of n k j ->
    step = (if (j =? 0)%nat then 0 else hash_step k) ->
    (m < j + fuel)%nat -> (j <= m)%nat ->
    (forall i, (i < j)%nat -> exists v e, aget (m_index t) (slot_of n k i) = Some v /\ v <> 0 /\
       aget (table t) (v - 1) = Some e /\ f (key e) = false) ->
    wp (find_loop found fuel k hash step) t (fun it t' => t' = t /\ probe_post f n t k it).
Proof.
  intros H Hfound Hm. pose proof (inv_n _ _ H) as Hn.
  induction fuel as [|fuel IH]; intros j hash step Hh Hs Hf Hj Hbefore; [lia |].
  cbn [find_loop]. do 2 wp_step. cbv zeta. rewrite (inv_mask _ _ H), land_mask, Hh by lia.
  unfold index_at. do 3 wp_step.
  destruct (inv_index_lt n t (slot_of n k j) H) as [v Hv]; [by apply probe_range; lia |].
  rewrite Hv. wp_step. wp_step.
  - wp_step. zbool. subst v. split; [done |]. exists j. by split_and!.
  - zbool. unfold EmptyEntryIndex in *. destruct (inv_slot_entry _ _ _ _ H Hv) as (e & He & Hl); [done |].
    unfold entry_at. do 3 wp_step. rewrite He. wp_step. wp_step.
    eapply wp_intro; [by apply Hfound |]. destruct (f (key e)) eqn:Hk.
    + wp_step. split; [done |]. exists j. simpl. rewrite Z.sub_add. split_and!; eauto.
    + cbv zeta. assert ((if step =? 0 then Z.lor (doubleHash (existingHash k)) 1 else step) = hash_step k) as ->.
      { subst step. destruct (j =? 0)%nat; [done |].
        destruct (Z.eqb_spec (hash_step k) 0) as [Hz |]; [| done].
        pose proof (lor_1_odd (doubleHash (existingHash k))) as Ho. unfold hash_step in Hz.
        by rewrite Hz in Ho. }
      assert (j <> m) by (intros ->; rewrite Hm in Hv; congruence).
      apply (IH (S j)); [apply slot_step; [lia | done] | done | lia | lia |].
      intros i Hi. destruct (decide (i = j)) as [-> |]; [by exists v, e | apply Hbefore; lia].
Qed.

Lemma find_loop_total (f : Z -> bool) (found : Z -> PM bool) n t k :
  inv_at n t ->
  (forall e, live e = true \/ key e = 0 -> found (key e) t = Ok (f (key e), t)) ->
  wp (find_loop found (Z.to_nat (m_indexSize t)) k (existingHash k) 0) t
     (fun it t' => t' = t /\ probe_post f n t k it).
Proof.
  intros H Hf. destruct (inv_empty_slot _ _ H) as (p & Hp & He).
  destruct (probe_visits n (existingHash k) (hash_step k) p) as (m & Hm & Hs);
    [apply lor_1_odd | done |].
  rewrite <- Hs in He. rewrite (inv_size _ _ H).
  eapply (find_loop_ok f found n t k m H Hf He _ 0); [| done | lia | lia | intros; lia].
  unfold slot_of, probe. f_equal. lia.
Qed.

(** ** [find] *)

Definition valid_key (k : Z) : Prop := DELETED_KEY < k /\ (isIdentifier k || isEmptyUnique k) = true.

Lemma contents_elem n t e :
  inv_at n t -> e ∈ contents t <-> exists i, table t !! i = Some e /\ live e = true.
Proof.
  intros H. unfold contents, lives. rewrite list_elem_of_In, filter_In, <- list_elem_of_In.
  rewrite list_elem_of_lookup. split.
  - intros [[i Hi] Hl]. apply lookup_take_Some in Hi as [Hi _]. eauto.
  - intros (i & Hi & Hl). split; [| done]. exists i. apply lookup_take_Some. split; [done |].
    pose proof (inv_entries _ _ H _ _ Hi) as He. case_decide; [done |].
    unfold live, DELETED_KEY in Hl. zbool. lia.
Qed.

(** The loop's empty slot shows that no live entry satisfies the test. *)
Lemma probe_post_none f n t k s e :
  inv_at n t -> probe_post f n t k (None, s) -> e ∈ contents t ->
  f (key e) = true -> (forall j, slot_of n (key e) j = slot_of n k j) -> False.
Proof.
  intros H (j & _ & Hb & He) Hin Hf Hslot. simpl in He.
  apply (contents_elem _ _ _ H) in Hin as (i & Hi & Hl).
  destruct (inv_reach _ _ H _ _ Hi Hl) as (m & Hm & Hne). rewrite Hslot in Hm.
  destruct (decide (m < j)%nat) as [Hlt | Hge].
  - destruct (Hb m Hlt) as (v & e' & Hv & _ & He' & Hf'). rewrite Hm in Hv. simplify_eq.
    rewrite Z.add_simpl_r in He'. apply aget_Some in He' as [_ He']. rewrite Nat2Z.id in He'.
    congruence.
  - destruct (decide (m = j)) as [-> |].
    + rewrite Hm in He. simplify_eq. lia.
    + apply (Hne j ltac:(lia)). by rewrite Hslot.
Qed.

(** What [find] returns: the live entry with the key and the slot that refers
    to it, or the first free slot of the key's probe sequence. *)
Definition find_post (n : nat) (t : PropertyTable) (k : Z) (it : option Z * Z) : Prop :=
  exists j, snd it = slot_of n k j /\
  match fst it with
  | Some i => reaches n t k j (i + 1) /\
      exists e, aget (table t) i = Some e /\ key e = k /\ e ∈ contents t
  | None => reaches n t k j 0 /\ k ∉ keys t
  end.

Lemma find_ok n t k :
  inv_at n t -> valid_key k -> wp (find k) t (fun it t' => t' = t /\ find_post n t k it).
Proof.
  intros H [Hk Hid]. unfold find, DELETED_KEY in *. do 2 wp_step. unfold pt_assert.
  rewrite Hid, (proj2 (Z.eqb_neq k 0)) by lia. simpl. wp_step. wp_step.
  eapply wp_mono; [apply (find_loop_total (Z.eqb k)); [exact H | done] |].
  intros [[i|] s] t' [-> Hp]; (split; [done |]); pose proof Hp as (j & Hs & Hb & Hit);
    simpl in *; exists j; (split; [done |]).
  - destruct Hit as (Hi & Hv & e & He & Hke). apply Z.eqb_eq in Hke.
    split; [split; [done |] |].
    + intros m Hm. destruct (Hb m Hm) as (v & _ & -> & ? & _). congruence.
    + exists e. split_and!; [done | done |]. apply (contents_elem _ _ _ H).
      apply aget_Some in He as [_ He]. exists (Z.to_nat i). split; [done |].
      unfold live, DELETED_KEY. apply Z.ltb_lt. lia.
  - split; [split; [done |] |].
    + intros m Hm. destruct (Hb m Hm) as (v & _ & -> & ? & _). congruence.
    + intros Hin. apply list_elem_of_fmap in Hin as (e & -> & Hin).
      by eapply (probe_post_none (Z.eqb (key e))); [exact H | exact Hp | exact Hin | apply Z.eqb_refl |].
Qed.

(** [findWithString] never reads a tombstone's key as a string. *)
Lemma findWithString_ok n t k :
  inv_at n t -> k <> 0 -> isIdentifier k = false -> hasHash k = false ->
  (forall e, e ∈ contents t -> characters (key e) = characters k -> isIdentifier (key e) = true ->
     existingHash (key e) = existingHash k) ->
  wp (findWithString k) t (fun it t' => t' = t /\
    match fst it with
    | Some i => exists e, aget (table t) i = Some e /\ e ∈ contents t /\
        characters (key e) = characters k /\ isIdentifier (key e) = true
    | None => forall e, e ∈ contents t -> isIdentifier (key e) = true ->
        characters (key e) <> characters k
    end).
Proof.
  intros H Hk Hid Hno Hhash. unfold findWithString. do 2 wp_step. unfold pt_assert.
  rewrite Hid, Hno, (proj2 (Z.eqb_neq k 0)) by done. simpl. do 4 wp_step.
  set (f := fun k' => negb (k' =? 0) && bool_decide (characters k = characters k') && isIdentifier k').
  eapply wp_mono; [apply (find_loop_total f); [exact H |] |].
  { intros e He. unfold equal, mbind, M_bind. rewrite (proj2 (Z.eqb_neq k 0)) by done. unfold f.
    destruct (Z.eqb_spec (key e) 0) as [Hz | Hz]; [done |]. simpl.
    destruct He as [He |]; [| done]. unfold live in He.
    rewrite (proj2 (Z.eqb_neq (key e) DELETED_KEY)) by zlia. done. }
  intros [[i|] s] t' [-> Hp]; (split; [done |]); simpl.
  - destruct Hp as (j & _ & _ & Hi & Hv & e & He & Hf). simpl in *. unfold f in Hf. zbool.
    exists e. split_and!; [done | | done | done]. apply (contents_elem _ _ _ H).
    destruct (inv_slot_entry _ _ _ _ H Hi Hv) as (e' & He' & Hl).
    rewrite Z.add_simpl_r, He in He'. simplify_eq. apply aget_Some in He as [_ He].
    destruct Hl as [Hl | Hl]; [by eexists | done].
  - intros e Hin Hide Hch. eapply (probe_post_none f); [exact H | exact Hp | exact Hin | |].
    + apply (contents_elem _ _ _ H) in Hin as (i & _ & Hl). unfold f, live, DELETED_KEY in *.
      rewrite Hide, bool_decide_true, (proj2 (Z.eqb_neq _ _)) by (done || zlia). done.
    + intros j. unfold slot_of, hash_step. by rewrite (Hhash e).
Qed.

(** ** Appending an entry *)

Definition appended (t : PropertyTable) (slot : Z) (e : PropertyMapEntry) : PropertyTable :=
  t <| m_index := <[Z.to_nat slot := Z.of_nat (used t) + 1]> (m_index t) |>
    <| table := <[used t := e]> (table t) |> <| m_keyCount := m_keyCount t + 1 |>.

Lemma append_entry_eq n t slot e :
  inv_at n t -> canInsert t = true -> 0 <= slot < 2 ^ Z.of_nat n ->
  append_entry slot e t = Ok (Z.of_nat (used t), appended t slot e).
Proof.
  intros H Hc Hs. unfold canInsert in Hc. rewrite (inv_usedCount _ _ H), (inv_cap _ _ H) in Hc. zbool.
  pose proof (pow2_le_30 _ _ H). pose proof nat_pow_30.
  unfold append_entry, mbind, M_bind, mget, mmod, set_index, set_entry. rewrite (inv_usedCount _ _ H).
  rewrite u32_id by lia. unfold mbind, M_bind, mget.
  rewrite aset_Some by (rewrite (inv_index_len _ _ H), pow2_nat; done). simpl.
  rewrite aset_Some by (simpl; rewrite (inv_table_len _ _ H); lia). simpl.
  assert (m_keyCount t <= Z.of_nat (used t)) by (destruct H; unfold used; lia).
  pose proof (inv_keyCount _ _ H). rewrite u32_id by lia.
  unfold appended. rewrite Z.add_simpl_r, Nat2Z.id. done.
Qed.

Lemma appended_used n t slot e : inv_at n t -> used (appended t slot e) = S (used t).
Proof. intros []. unfold used. simpl. lia. Qed.

Lemma appended_contents n t slot e :
  inv_at n t -> canInsert t = true -> live e = true ->
  contents (appended t slot e) = contents t ++ [e].
Proof.
  intros H Hc Hl. unfold canInsert in Hc. rewrite (inv_usedCount _ _ H), (inv_cap _ _ H) in Hc. zbool.
  unfold contents. rewrite (appended_used _ _ _ _ H). simpl table.
  rewrite take_S_insert by (rewrite (inv_table_len _ _ H); lia).
  unfold lives. rewrite List.filter_app. simpl. by rewrite Hl.
Qed.

(** The slots of the new index. *)
Lemma appended_slot n t slot e p v :
  inv_at n t -> 0 <= slot < 2 ^ Z.of_nat n ->
  aget (m_index (appended t slot e)) p = Some v ->
  p = slot /\ v = Z.of_nat (used t) + 1 \/ p <> slot /\ aget (m_index t) p = Some v.
Proof.
  intros H Hs Hp. simpl in Hp. destruct (Z.eq_dec p slot) as [-> | Hne].
  - rewrite aget_insert_eq in Hp by (rewrite (inv_index_len _ _ H), pow2_nat; done).
    left. by simplify_eq.
  - right. split; [done |]. apply aget_Some in Hp as Hp'. destruct Hp' as [Hp0 _].
    rewrite aget_insert_ne in Hp; [done | lia | lia | congruence].
Qed.

Lemma appended_slot_eq n t slot e :
  inv_at n t -> 0 <= slot < 2 ^ Z.of_nat n ->
  aget (m_index (appended t slot e)) slot = Some (Z.of_nat (used t) + 1).
Proof. intros H Hs. simpl. apply aget_insert_eq. by rewrite (inv_index_len _ _ H), pow2_nat. Qed.

Lemma appended_slot_ne t slot e p :
  0 <= slot -> 0 <= p -> p <> slot ->
  aget (m_index (appended t slot e)) p = aget (m_index t) p.
Proof. intros. simpl. by apply aget_insert_ne. Qed.

(** A probe path stays non-empty when a free slot is filled. *)
Lemma appended_reaches n t slot e k j v :
  inv_at n t -> 0 <= slot < 2 ^ Z.of_nat n -> aget (m_index t) slot = Some 0 ->
  reaches n t k j v -> v <> 0 -> reaches n (appended t slot e) k j v.
Proof.
  intros H Hs Hfree [Hv Hb] Hv0.
  assert (forall i, 0 <= slot_of n k i) as Hpos by (intros; apply probe_range; lia).
  assert (slot_of n k j <> slot) by congruence.
  split; [rewrite appended_slot_ne; [done | lia | auto | done] |].
  intros i Hi Hz. destruct (appended_slot _ _ _ _ _ _ H Hs Hz) as [[_ ?] | [_ ?]]; [lia |].
  by apply (Hb i Hi).
Qed.

Lemma appended_reaches_new n t slot e k j :
  inv_at n t -> 0 <= slot < 2 ^ Z.of_nat n -> slot = slot_of n k j -> reaches n t k j 0 ->
  reaches n (appended t slot e) k j (Z.of_nat (used t) + 1).
Proof.
  intros H Hs -> [_ Hb]. split; [by apply appended_slot_eq with n |].
  intros i Hi Hz. destruct (appended_slot _ _ _ _ _ _ H Hs Hz) as [[_ ?] | [_ ?]]; [lia |].
  by apply (Hb i Hi).
Qed.

Lemma appended_entry n t slot e i e' :
  inv_at n t -> canInsert t = true -> table (appended t slot e) !! i = Some e' ->
  i = used t /\ e' = e \/ i <> used t /\ table t !! i = Some e'.
Proof.
  intros H Hc Hi. simpl in Hi. destruct (decide (i = used t)) as [-> | Hne].
  - left. split; [done |]. unfold canInsert in Hc.
    rewrite (inv_usedCount _ _ H), (inv_cap _ _ H) in Hc. zbool.
    rewrite list_lookup_insert_eq in Hi by (rewrite (inv_table_len _ _ H); lia). by simplify_eq.
  - right. split; [done |]. by rewrite list_lookup_insert_ne in Hi.
Qed.

(** No slot refers to an unused entry. *)
Lemma inv_no_stale n t p :
  inv_at n t -> canInsert t = true -> aget (m_index t) p <> Some (Z.of_nat (used t) + 1).
Proof.
  intros H Hc Hp. unfold canInsert in Hc. rewrite (inv_usedCount _ _ H), (inv_cap _ _ H) in Hc. zbool.
  destruct (inv_slots _ _ H _ _ Hp) as (e & He & Hl); [lia | lia |].
  rewrite Z.add_simpl_r in He. apply aget_Some in He as [_ He]. rewrite Nat2Z.id in He.
  pose proof (inv_entries _ _ H _ _ He) as Hk. rewrite decide_False in Hk by lia.
  unfold live, DELETED_KEY in Hl. zlia.
Qed.

Lemma appended_slots_ok n t slot e :
  inv_at n t -> canInsert t = true -> live e = true -> 0 <= slot < 2 ^ Z.of_nat n ->
  forall p v, aget (m_index (appended t slot e)) p = Some v -> v <> 0 ->
    v <> Z.of_nat (2 ^ (n - 1)) + 1 ->
    exists e', aget (table (appended t slot e)) (v - 1) = Some e' /\ live e' = true.
Proof.
  intros H Hc Hl Hs p v Hp Hv Hd. pose proof Hc as Hc'. unfold canInsert in Hc'.
  rewrite (inv_usedCount _ _ H), (inv_cap _ _ H) in Hc'. zbool.
  destruct (appended_slot _ _ _ _ _ _ H Hs Hp) as [[-> ->] | [_ Hp']].
  - exists e. split; [| done]. simpl. rewrite Z.add_simpl_r. apply aget_Some. split; [lia |].
    rewrite Nat2Z.id. apply list_lookup_insert_eq. rewrite (inv_table_len _ _ H). lia.
  - destruct (inv_slots _ _ H _ _ Hp' Hv Hd) as (e' & He' & Hl'). exists e'. split; [| done].
    apply aget_Some in He' as [H0 He']. apply aget_Some. split; [done |]. simpl.
    rewrite list_lookup_insert_ne; [done |]. intros Hu. rewrite <- Hu in He'.
    pose proof (inv_entries _ _ H _ _ He') as Hk. rewrite decide_False in Hk by lia.
    unfold live, DELETED_KEY in Hl'. zlia.
Qed.

Lemma appended_inj_ok n t slot e :
  inv_at n t -> canInsert t = true -> 0 <= slot < 2 ^ Z.of_nat n ->
  forall p q v, aget (m_index (appended t slot e)) p = Some v ->
    aget (m_index (appended t slot e)) q = Some v ->
    v <> 0 -> v <> Z.of_nat (2 ^ (n - 1)) + 1 -> p = q.
Proof.
  intros H Hc Hs p q v Hp Hq Hv Hd.
  destruct (appended_slot _ _ _ _ _ _ H Hs Hp) as [[-> ->] | [_ Hp']];
  destruct (appended_slot _ _ _ _ _ _ H Hs Hq) as [[-> Hq1] | [_ Hq']]; subst.
  - done.
  - by destruct (inv_no_stale _ _ q H Hc).
  - by destruct (inv_no_stale _ _ p H Hc).
  - by eapply inv_inj.
Qed.

Lemma appended_inv n t slot e j :
  inv_at n t -> canInsert t = true -> live e = true -> key e ∉ keys t ->
  slot = slot_of n (key e) j -> reaches n t (key e) j 0 -> inv_at n (appended t slot e).
Proof.
  intros H Hc Hl Hnew Hslot Hr. pose proof Hc as Hc'. unfold canInsert in Hc'.
  rewrite (inv_usedCount _ _ H), (inv_cap _ _ H) in Hc'. zbool.
  assert (0 <= slot < 2 ^ Z.of_nat n) as Hs by (subst slot; apply probe_range; lia).
  assert (aget (m_index t) slot = Some 0) as Hfree by (subst slot; apply Hr).
  pose proof (appended_used n t slot e H) as Hu. pose proof H as [].
  constructor; rewrite ?Hu; try done.
  - simpl. by rewrite length_insert.
  - simpl. by rewrite length_insert.
  - simpl. lia.
  - lia.
  - intros i e' Hi. destruct (appended_entry _ _ _ _ _ _ H Hc Hi) as [[-> ->] | [Hne Hi']].
    + rewrite decide_True by lia. by left.
    + specialize (inv_entries0 _ _ Hi'). repeat case_decide; try done; lia.
  - rewrite (appended_contents n) by done. rewrite length_app. simpl. lia.
  - unfold keys. rewrite (appended_contents n), fmap_app by done. apply NoDup_app. split_and!; [done | |].
    + intros k Hk Hk'. apply list_elem_of_singleton in Hk' as ->. by apply Hnew.
    + apply NoDup_singleton.
  - by apply appended_slots_ok.
  - by apply appended_inj_ok.
  - apply aget_Some in Hfree as [_ Hfree].
    pose proof (filter_length_insert nonempty (m_index t) _ _ (Z.of_nat (used t) + 1) Hfree) as Hf.
    assert (nonempty (Z.of_nat (used t) + 1) = true) as Hne
      by (unfold nonempty, EmptyEntryIndex; apply negb_true_iff, Z.eqb_neq; lia).
    rewrite Hne in Hf. simpl in *. lia.
  - intros i e' Hi Hl'. destruct (appended_entry _ _ _ _ _ _ H Hc Hi) as [[-> ->] | [Hne Hi']].
    + exists j. by apply appended_reaches_new.
    + destruct (inv_reach0 _ _ Hi' Hl') as [m Hm]. exists m.
      apply appended_reaches; [done | done | done | done | lia].
Qed.

(** ** [reinsert] *)

(** The effect on the abstract table: one more entry, everything else kept. *)
Definition extends (t : PropertyTable) (e : PropertyMapEntry) (t' : PropertyTable) : Prop :=
  contents t' = contents t ++ [e] /\ m_indexSize t' = m_indexSize t /\
  m_keyCount t' = m_keyCount t + 1 /\ m_deletedCount t' = m_deletedCount t /\
  m_deletedOffsets t' = m_deletedOffsets t /\ key_refs t' = key_refs t.

Lemma find_then_append n t e slot j :
  inv_at n t -> canInsert t = true -> valid_key (key e) -> key e ∉ keys t ->
  slot = slot_of n (key e) j -> reaches n t (key e) j 0 ->
  wp (append_entry slot e) t (fun i t' => inv_at n t' /\ extends t e t' /\
    i = Z.of_nat (used t) /\ aget (table t') i = Some e /\ reaches n t' (key e) j (i + 1)).
Proof.
  intros H Hc Hk Hnew Hslot Hr.
  assert (live e = true) as Hl by (destruct Hk; by apply Z.ltb_lt).
  assert (0 <= slot < 2 ^ Z.of_nat n) as Hs by (subst slot; apply probe_range; lia).
  eapply wp_intro; [by apply (append_entry_eq n) |].
  split_and!; [by apply (appended_inv n t slot e j) | | done | |
               by apply (appended_reaches_new n t slot e (key e) j)].
  - split_and!; try done. by apply (appended_contents n).
  - unfold canInsert in Hc. rewrite (inv_usedCount _ _ H), (inv_cap _ _ H) in Hc. zbool.
    apply aget_Some. split; [lia |]. rewrite Nat2Z.id. simpl. apply list_lookup_insert_eq.
    rewrite (inv_table_len _ _ H). lia.
Qed.

Lemma pt_assert_bind {A} b t (m : PM A) Q : b = true -> wp m t Q -> wp (pt_assert b ;; m) t Q.
Proof. by intros ->. Qed.

Lemma reinsert_ok n t e :
  inv_at n t -> canInsert t = true -> valid_key (key e) -> key e ∉ keys t ->
  wp (reinsert e) t (fun _ t' => inv_at n t' /\ extends t e t').
Proof.
  intros H Hc Hk Hnew. unfold reinsert. do 2 wp_step.
  apply pt_assert_bind; [done |]. wp_step. eapply wp_mono; [by apply find_ok |].
  intros [[i|] s] t' [-> (j & Hs & Hp)]; simpl in *.
  - destruct Hp as (_ & e' & _ & Hk' & Hin). destruct Hnew.
    apply list_elem_of_fmap. exists e'. by rewrite Hk'.
  - destruct Hp as [Hr _]. apply (pt_assert_bind true); [done |]. wp_step.
    eapply wp_mono; [by apply (find_then_append n t e s j) |].
    intros i t' (? & ? & _). by wp_step.
Qed.

(** ** Iteration *)

(** The array [l] with [u] used entries, followed by a null entry. *)
Record walkable (l : list PropertyMapEntry) (u : nat) : Prop := mk_walkable {
  walk_entries : forall i e, l !! i = Some e -> (i < u)%nat -> live e = true \/ key e = DELETED_KEY;
  walk_end : exists e, l !! u = Some e /\ key e = 0
}.

(** The live entries from position [i] on. *)
Definition rest (l : list PropertyMapEntry) (u i : nat) : list PropertyMapEntry :=
  lives (drop i (take u l)).

Lemma inv_walkable n t : inv_at n t -> walkable (table t) (used t).
Proof.
  intros H. constructor.
  - intros i e Hi Hlt. pose proof (inv_entries _ _ H _ _ Hi) as He. by rewrite decide_True in He.
  - destruct (lookup_lt_is_Some_2 (table t) (used t)) as [e He].
    { rewrite (inv_table_len _ _ H). pose proof (inv_used _ _ H). lia. }
    exists e. split; [done |]. pose proof (inv_entries _ _ H _ _ He) as Hk.
    rewrite decide_False in Hk by lia. done.
Qed.

Lemma rest_step l u i e :
  l !! i = Some e -> (i < u)%nat ->
  rest l u i = if live e then e :: rest l u (S i) else rest l u (S i).
Proof.
  intros Hi Hlt. unfold rest. rewrite (drop_S _ e) by (by apply lookup_take_Some).
  unfold lives. simpl. by destruct (live e).
Qed.

(** [skipDeletedEntries] stops at the next live entry or at the end. *)
Lemma skip_ok l u fuel : forall i t,
  walkable l u -> (i <= u)%nat -> (u - i < fuel)%nat ->
  wp (skipDeletedEntries l fuel (Z.of_nat i)) t (fun j t' => t' = t /\ exists j', j = Z.of_nat j' /\
    (i <= j' <= u)%nat /\ rest l u j' = rest l u i /\
    (j' = u \/ exists e, l !! j' = Some e /\ live e = true)).
Proof.
  induction fuel as [|fuel IH]; intros i t Hw Hi Hf; [lia |].
  pose proof Hw as [Hwe (en & Hen & Hkn)]. cbn [skipDeletedEntries].
  destruct (lookup_lt_is_Some_2 l i) as [e He].
  { apply lookup_lt_Some in Hen. lia. }
  rewrite (proj2 (aget_Some l (Z.of_nat i) e)) by (rewrite Nat2Z.id; split; [lia | done]).
  do 2 wp_step. destruct (Z.eqb_spec (key e) DELETED_KEY) as [Hd | Hd].
  - assert (i <> u) by (intros ->; rewrite Hen in He; simplify_eq; unfold DELETED_KEY in Hd; lia).
    replace (Z.of_nat i + 1) with (Z.of_nat (S i)) by lia.
    eapply wp_mono; [apply (IH (S i) t Hw); lia |].
    intros j t' (-> & j' & -> & Hj & Hr & Hend). split; [done |]. exists j'.
    split_and!; try done; [lia.. |]. rewrite Hr, (rest_step l u i e) by (done || lia).
    unfold live, DELETED_KEY in *. by rewrite (proj2 (Z.ltb_ge _ _)) by lia.
  - wp_step. split; [done |]. exists i. split_and!; try done; [lia.. |].
    destruct (decide (i = u)) as [-> | Hne]; [by left |]. right. exists e. split; [done |].
    by destruct (Hwe i e He) as [| Hk]; [lia | | congruence].
Qed.

Lemma rest_end l u : rest l u u = [].
Proof. unfold rest. by rewrite drop_ge by (rewrite length_take; lia). Qed.

(** Iteration lists the contents in order. *)
Lemma entries_loop_ok l u fuel : forall i t,
  walkable l u -> (i <= u)%nat -> (u - i < fuel)%nat ->
  (i = u \/ exists e, l !! i = Some e /\ live e = true) ->
  wp (entries_loop l fuel (Z.of_nat i) (Z.of_nat u)) t (fun es t' => t' = t /\ es = rest l u i).
Proof.
  induction fuel as [|fuel IH]; intros i t Hw Hi Hf Hcur; [lia |]. cbn [entries_loop].
  destruct (Z.eqb_spec (Z.of_nat i) (Z.of_nat u)) as [Heq | Hne].
  { wp_step. assert (i = u) as -> by lia. by rewrite rest_end. }
  destruct Hcur as [-> | (e & He & Hl)]; [done |].
  rewrite (proj2 (aget_Some l (Z.of_nat i) e)) by (rewrite Nat2Z.id; split; [lia | done]).
  do 3 wp_step. replace (Z.of_nat i + 1) with (Z.of_nat (S i)) by lia.
  destruct (walk_end _ _ Hw) as (en & Hen & _). apply lookup_lt_Some in Hen.
  eapply wp_mono; [apply (skip_ok l u _ (S i) t Hw); lia |].
  intros j t' (-> & j' & -> & Hj & Hr & Hcur'). wp_step.
  eapply wp_mono; [apply (IH j' t Hw); [lia | lia | done] |].
  intros es t' [-> ->]. wp_step. split; [done |].
  rewrite (rest_step l u i e), Hl, Hr by (done || lia). done.
Qed.

Lemma entries_ok n t :
  inv_at n t -> wp entries t (fun es t' => t' = t /\ es = contents t).
Proof.
  intros H. unfold entries. do 3 wp_step. pose proof (inv_walkable _ _ H) as Hw.
  destruct (walk_end _ _ Hw) as (en & Hen & _). apply lookup_lt_Some in Hen.
  eapply wp_mono; [apply (skip_ok (table t) (used t) _ 0 t Hw); lia |].
  intros j t' (-> & j' & -> & Hj & Hr & Hcur). rewrite (inv_usedCount _ _ H).
  eapply wp_mono; [apply (entries_loop_ok (table t) (used t)); [done | lia | lia | done] |].
  intros es t' [-> ->]. split; [done |]. rewrite Hr. unfold rest. by rewrite drop_0.
Qed.

(** ** Fresh tables *)

Lemma sizeForCapacity_ok c :
  0 <= c < 2 ^ 30 ->
  exists n, (3 <= n <= 31)%nat /\ sizeForCapacity c = 2 ^ Z.of_nat n /\
    c < Z.of_nat (2 ^ (n - 1)).
Proof.
  intros Hc. unfold sizeForCapacity, MinimumTableSize. change (8 / 2) with 4.
  destruct (Z.ltb_spec c 4).
  { exists 3%nat. split; [lia |]. split; [done |]. rewrite pow2_nat. simpl. lia. }
  rewrite (u32_id (c + 1)) by lia.
  pose proof (nextPowerOf2_le (c + 1) ltac:(lia)) as Hle.
  rewrite nextPowerOf2_spec in * by lia. set (m := Z.log2_up (c + 1)) in *.
  assert (0 <= m) by apply Z.log2_up_nonneg.
  assert (m <= 30) by (unfold m; change 30 with (Z.log2_up (2 ^ 30)); apply Z.log2_up_le_mono; lia).
  assert (2 < m) by (apply (Z.pow_lt_mono_r_iff 2); lia).
  assert (2 ^ m <= 2 ^ 30) by (apply Z.pow_le_mono_r; lia).
  exists (Z.to_nat (m + 1)). rewrite pow2_nat, Nat2Z.inj_sub by lia. rewrite Z2Nat.id by lia.
  split; [lia |]. rewrite u32_id by lia. split.
  - rewrite Z.pow_add_r by lia. lia.
  - replace (m + 1 - Z.of_nat 1) with m by lia. lia.
Qed.

Definition fresh (size : Z) (offs : option (list Z)) (refs : gmap Z Z) : PropertyTable :=
  mk_table size (u32 (size - 1)) (zeroed_index size) (zeroed_table size) 0 0 offs refs.

Lemma fresh_inv n offs refs :
  (3 <= n <= 31)%nat -> inv_at n (fresh (2 ^ Z.of_nat n) offs refs) /\
  contents (fresh (2 ^ Z.of_nat n) offs refs) = [].
Proof.
  intros Hn. assert (2 ^ Z.of_nat n <= 2 ^ 31) by (apply Z.pow_le_mono_r; lia).
  assert (Z.shiftr (2 ^ Z.of_nat n) 1 + 1 = Z.of_nat (2 ^ (n - 1) + 1)) as Hcap.
  { rewrite Z.shiftr_div_pow2 by lia. rewrite <- pow2_nat, (pow2_half n), Nat2Z.inj_mul by lia.
    change (2 ^ 1) with (Z.of_nat 2). rewrite Z.mul_comm, Z.div_mul by lia. lia. }
  assert (forall i v, aget (zeroed_index (2 ^ Z.of_nat n)) i = Some v -> v = 0) as Hz.
  { intros i v Hi. apply aget_Some in Hi as [_ Hi]. by apply lookup_replicate in Hi as [-> _]. }
  assert (forall i e, zeroed_table (2 ^ Z.of_nat n) !! i = Some e -> key e = 0) as Hk.
  { intros i e Hi. by apply lookup_replicate in Hi as [-> _]. }
  split; [| done]. constructor; simpl; try done; try lia.
  - rewrite u32_id; lia.
  - unfold zeroed_index. rewrite length_replicate, <- pow2_nat. apply Nat2Z.id.
  - unfold zeroed_table. by rewrite length_replicate, Hcap, Nat2Z.id.
  - unfold used. simpl. lia.
  - constructor.
  - intros p v Hp Hv. by apply Hz in Hp.
  - intros p q v Hp _ Hv. by apply Hz in Hp.
  - unfold zeroed_index. by induction (Z.to_nat (2 ^ Z.of_nat n)).
  - intros i e Hi Hl. apply Hk in Hi. unfold live, DELETED_KEY in Hl. zlia.
Qed.

(** ** [rehash] *)

Definition valid_entry (e : PropertyMapEntry) : Prop := valid_key (key e).

Lemma cap_le n t : inv_at n t ->
  canInsert t = true <-> m_keyCount t + m_deletedCount t < Z.of_nat (2 ^ (n - 1)).
Proof.
  intros H. unfold canInsert. rewrite (inv_usedCount _ _ H), (inv_cap _ _ H), Z.ltb_lt.
  pose proof (inv_keyCount _ _ H). pose proof (inv_deletedCount _ _ H). unfold used. lia.
Qed.

(** The loop inserts the remaining live entries of the old array. *)
Lemma reinsert_loop_ok l u n fuel : forall i t,
  walkable l u -> (i <= u)%nat -> (u - i < fuel)%nat ->
  (i = u \/ exists e, l !! i = Some e /\ live e = true) ->
  inv_at n t -> Forall valid_entry (rest l u i) -> NoDup (keys t ++ (key <$> rest l u i)) ->
  m_keyCount t + m_deletedCount t + Z.of_nat (length (rest l u i)) <= Z.of_nat (2 ^ (n - 1)) ->
  wp (reinsert_loop l fuel (Z.of_nat i) (Z.of_nat u)) t (fun _ t' => inv_at n t' /\
    contents t' = contents t ++ rest l u i /\ m_indexSize t' = m_indexSize t /\
    m_deletedCount t' = m_deletedCount t /\ m_deletedOffsets t' = m_deletedOffsets t /\
    key_refs t' = key_refs t).
Proof.
  induction fuel as [|fuel IH]; intros i t Hw Hi Hf Hcur H Hv Hnd Hcap; [lia |].
  cbn [reinsert_loop]. destruct (Z.eqb_spec (Z.of_nat i) (Z.of_nat u)) as [Heq | Hne].
  { wp_step. assert (i = u) as -> by lia. rewrite rest_end, app_nil_r. by split_and!. }
  destruct Hcur as [-> | (e & He & Hl)]; [done |].
  pose proof (rest_step l u i e He ltac:(lia)) as Hrest. rewrite Hl in Hrest. rewrite Hrest in *.
  apply Forall_cons in Hv as [Hve Hv]. simpl in Hcap.
  assert (canInsert t = true) as Hc by (apply (cap_le n t H); lia).
  do 2 wp_step. apply pt_assert_bind; [done |].
  rewrite (proj2 (aget_Some l (Z.of_nat i) e)) by (rewrite Nat2Z.id; split; [lia | done]).
  do 3 wp_step. rewrite fmap_cons in Hnd.
  assert (key e ∉ keys t) as Hnew.
  { apply NoDup_app in Hnd as (_ & Hnd & _). intros Hin. apply (Hnd _ Hin). by left. }
  eapply wp_mono; [by apply (reinsert_ok n) |]. intros _ t1 (H1 & Hct & Hsz & Hk & Hd & Ho & Hr).
  wp_step. replace (Z.of_nat i + 1) with (Z.of_nat (S i)) by lia.
  destruct (walk_end _ _ Hw) as (en & Hen & _). apply lookup_lt_Some in Hen.
  eapply wp_mono; [apply (skip_ok l u _ (S i) t1 Hw); lia |].
  intros j t' (-> & j' & -> & Hj & Hr' & Hcur').
  eapply wp_mono; [apply (IH j' t1 Hw); [lia | lia | done | done | | |] |].
  - by rewrite Hr'.
  - unfold keys in *. rewrite Hct, Hr', fmap_app, <- app_assoc. done.
  - rewrite Hr', Hk, Hd. lia.
  - intros _ t2 (H2 & Hct2 & ? & ? & ? & ?). rewrite Hr', Hct, <- app_assoc in Hct2.
    split_and!; congruence || done.
Qed.

Lemma rehash_ok n t c :
  inv_at n t -> Forall valid_entry (contents t) -> m_keyCount t <= c < 2 ^ 30 ->
  wp (rehash c) t (fun _ t' => exists n', inv_at n' t' /\ contents t' = contents t /\
    c < Z.of_nat (2 ^ (n' - 1)) /\ m_indexSize t' = sizeForCapacity c /\ m_deletedCount t' = 0 /\
    m_deletedOffsets t' = m_deletedOffsets t /\ key_refs t' = key_refs t).
Proof.
  intros H Hv Hc. pose proof (inv_keyCount _ _ H). unfold rehash. do 3 wp_step.
  pose proof (inv_walkable _ _ H) as Hw.
  destruct (walk_end _ _ Hw) as (en & Hen & _). apply lookup_lt_Some in Hen.
  eapply wp_mono; [apply (skip_ok (table t) (used t) _ 0 t Hw); lia |].
  intros j t' (-> & j' & -> & Hj & Hr & Hcur). wp_step. wp_step.
  destruct (sizeForCapacity_ok c ltac:(lia)) as (n' & Hn' & Hs & Hcap).
  destruct (fresh_inv n' (m_deletedOffsets t) (key_refs t) Hn') as [Hinv Hnil].
  rewrite <- Hs in *. rewrite (inv_usedCount _ _ H).
  set (t0 := fresh (sizeForCapacity c) (m_deletedOffsets t) (key_refs t)) in *.
  match goal with |- wp _ ?s _ => change s with t0 end.
  assert (rest (table t) (used t) j' = contents t) as Hrest
    by (rewrite Hr; unfold rest; by rewrite drop_0).
  eapply wp_mono; [eapply (reinsert_loop_ok (table t) (used t) n'); [done | lia | lia | done | exact Hinv | ..] |].
  - by rewrite Hrest.
  - unfold keys. rewrite Hnil, Hrest. simpl. apply (inv_nodup _ _ H).
  - rewrite Hrest. simpl. pose proof (inv_count _ _ H). lia.
  - intros _ t2 (H2 & Hct & ? & ? & ? & ?). exists n'. rewrite Hrest, Hnil in Hct. by split_and!.
Qed.

(** ** [add] *)

Definition is_new (t : PropertyTable) (e : PropertyMapEntry) : Prop := key e ∉ keys t.

Definition ref_count (t : PropertyTable) (k : Z) : Z := default 0 (key_refs t !! k).

Lemma ref_inv n t k :
  inv_at n t ->
  let t' := t <| key_refs := partial_alter (fun m => Some (default 0 m + 1)) k (key_refs t) |> in
  inv_at n t' /\ contents t' = contents t.
Proof. intros []. split; [by constructor | done]. Qed.

(** The slot for a new key, after making room if the array is full. *)
Lemma make_room_ok n t e it :
  inv_at n t -> Forall valid_entry (contents t) -> valid_key (key e) -> key e ∉ keys t ->
  m_keyCount t + 1 < 2 ^ 30 -> find_post n t (key e) it -> fst it = None ->
  wp (if canInsert t then mret it
      else rehash (u32 (m_keyCount t + 1));; it' ← find (key e);
           pt_assert (bool_decide (fst it' = None));; mret it') t
     (fun it' t' => exists n', inv_at n' t' /\ contents t' = contents t /\ canInsert t' = true /\
        find_post n' t' (key e) it' /\ fst it' = None /\ key_refs t' = key_refs t /\
        m_deletedOffsets t' = m_deletedOffsets t).
Proof.
  intros H Hv Hk Hnew Hb Hp Hit. pose proof (inv_keyCount _ _ H) as Hk0.
  destruct (canInsert t) eqn:Hc; [wp_step; exists n; by split_and! |].
  rewrite u32_id by lia. wp_step. eapply wp_mono; [apply (rehash_ok n); [done | done | lia] |].
  intros _ t1 (n' & H1 & Hct & Hcap & _ & Hd & Ho & Hr). wp_step.
  eapply wp_mono; [by apply (find_ok n') |]. intros it' t2 [-> Hp'].
  assert (fst it' = None) as Hn.
  { destruct Hp' as (j & _ & Hm). destruct (fst it') as [i|]; [| done].
    destruct Hm as (_ & e' & _ & Hke & Hin). destruct Hnew. apply list_elem_of_fmap.
    exists e'. by rewrite Hct in Hin. }
  apply pt_assert_bind; [by apply bool_decide_eq_true |]. wp_step. exists n'. split_and!; try done.
  apply (cap_le n' t1 H1). rewrite Hd. rewrite <- (inv_count _ _ H1), Hct, (inv_count _ _ H). lia.
Qed.

Lemma nodup_fmap_inj {A B} (f : A -> B) (l : list A) x y :
  NoDup (f <$> l) -> x ∈ l -> y ∈ l -> f x = f y -> x = y.
Proof.
  intros Hnd [i Hi]%list_elem_of_lookup [j Hj]%list_elem_of_lookup Hf.
  assert (i = j) as ->; [| congruence].
  eapply NoDup_lookup; [done | by rewrite list_lookup_fmap, Hi | by rewrite list_lookup_fmap, Hj; simpl; rewrite Hf].
Qed.

(** [add] of a key that is present: nothing changes. *)
Lemma add_present n t e off eff e' :
  inv_at n t -> valid_key (key e) -> e' ∈ contents t -> key e' = key e -> offset e' <= off ->
  wp (add e off eff) t (fun r t' => t' = t /\ r.1.2 = false /\ r.2 = off /\
    exists i, r.1.1.1 = Some i /\ aget (table t) i = Some e').
Proof.
  intros H Hk Hin He Hoff. unfold add. wp_step. eapply wp_mono; [by apply find_ok |].
  intros [[i|] s] t' [-> (j & Hs & Hp)]; simpl in *.
  - destruct Hp as (_ & e2 & He2 & Hk2 & Hin2).
    assert (e2 = e') as ->.
    { apply (nodup_fmap_inj key (contents t)); [apply (inv_nodup _ _ H) | done | done | congruence]. }
    unfold entry_at. do 3 wp_step. rewrite He2. wp_step.
    apply pt_assert_bind; [by apply Z.leb_le |]. wp_step. split_and!; try done. by exists i.
  - destruct Hp as [_ Hno]. destruct Hno. apply list_elem_of_fmap. by exists e'.
Qed.

(** [add] of a new key: the entry comes last, the table references its key, and
    the caller's offset covers it. *)
Lemma add_new n t e off eff :
  inv_at n t -> Forall valid_entry (contents t) -> valid_key (key e) -> key e ∉ keys t ->
  m_keyCount t + 1 < 2 ^ 30 -> (eff = PropertyOffsetMustNotChange -> offset e <= off) ->
  wp (add e off eff) t (fun r t' => inv t' /\ contents t' = contents t ++ [e] /\ r.1.2 = true /\
    r.2 = Z.max off (offset e) /\ m_deletedOffsets t' = m_deletedOffsets t /\
    key_refs t' = partial_alter (fun m => Some (default 0 m + 1)) (key e) (key_refs t) /\
    exists i, r.1.1.1 = Some i /\ aget (table t') i = Some e).
Proof.
  intros H Hv Hk Hnew Hb Heff. unfold add. wp_step. eapply wp_mono; [by apply find_ok |].
  intros it t' [-> Hp]. destruct (fst it) as [i|] eqn:Hit.
  { destruct Hp as (j & _ & Hm). rewrite Hit in Hm. destruct Hm as (_ & e' & _ & Hke & Hin).
    destruct Hnew. apply list_elem_of_fmap. exists e'. by rewrite Hke. }
  unfold ref. wp_step. wp_step. wp_step. wp_step. wp_step.
  destruct (ref_inv n t (key e) H) as [H1 Hc1].
  set (t1 := t <| key_refs := _ |>) in *.
  eapply wp_mono; [by apply (make_room_ok n t1 e it) |].
  intros it' t2 (n' & H2 & Hc2 & Hcan & Hp2 & Hit2 & Hr2 & Ho2). wp_step.
  destruct Hp2 as (j & Hs & Hm). rewrite Hit2 in Hm. destruct Hm as [Hr Hnew2].
  eapply wp_mono; [by apply (find_then_append n' t2 e (snd it') j) |].
  intros i t3 (H3 & (Hc3 & _ & _ & _ & Ho3 & Hr3) & _ & Hi & _).
  assert (inv t3) as Hinv by (by exists n'). rewrite Hc2, Hc1 in Hc3.
  rewrite Hr2 in Hr3. rewrite Ho2 in Ho3.
  destruct eff.
  - wp_step. rewrite Hr3, Ho3. split_and!; try done. by exists i.
  - apply pt_assert_bind; [apply Z.leb_le; auto |]. wp_step. specialize (Heff eq_refl).
    rewrite Hr3, Ho3. split_and!; try done; [simpl; lia |]. by exists i.
Qed.

(** ** [remove] *)

Definition tombstone (e : PropertyMapEntry) : PropertyMapEntry :=
  mk_entry DELETED_KEY (offset e) (attributes e) (specificValue e).

Definition without (k : Z) (l : list PropertyMapEntry) : list PropertyMapEntry :=
  List.filter (fun e => negb (key e =? k)) l.

Definition removed (n : nat) (t : PropertyTable) (slot : Z) (i : nat) (e : PropertyMapEntry)
    : PropertyTable :=
  t <| m_index := <[Z.to_nat slot := Z.of_nat (2 ^ (n - 1)) + 1]> (m_index t) |>
    <| key_refs := partial_alter (fun m => Some (default 0 m - 1)) (key e) (key_refs t) |>
    <| table := <[i := tombstone e]> (table t) |>
    <| m_keyCount := m_keyCount t - 1 |> <| m_deletedCount := m_deletedCount t + 1 |>.

Lemma lives_insert_dead l i e d :
  l !! i = Some e -> live e = true -> live d = false ->
  exists l1 l2, lives l = l1 ++ e :: l2 /\ lives (<[i := d]> l) = l1 ++ l2.
Proof.
  intros Hi Hl Hd. revert i Hi. induction l as [|x l IH]; intros [|i] Hi; simplify_eq/=.
  - exists [], (lives l). rewrite Hl, Hd. done.
  - destruct (IH i Hi) as (l1 & l2 & Hx & ->). rewrite Hx. destruct (live x).
    + by exists (x :: l1), l2.
    + by exists l1, l2.
Qed.

Lemma without_id k l : k ∉ (key <$> l) -> without k l = l.
Proof.
  induction l as [|x l IH]; simpl; [done |]. rewrite not_elem_of_cons. intros [Hx Hl].
  rewrite (proj2 (Z.eqb_neq _ _)) by congruence. simpl. by rewrite IH.
Qed.

Lemma without_mid l1 e l2 :
  NoDup (key <$> l1 ++ e :: l2) -> without (key e) (l1 ++ e :: l2) = l1 ++ l2.
Proof.
  rewrite fmap_app, fmap_cons. intros (_ & Hd & Hnd)%NoDup_app. apply NoDup_cons in Hnd as [Hne _].
  unfold without. rewrite List.filter_app. simpl. rewrite Z.eqb_refl. simpl.
  change (without (key e) l1 ++ without (key e) l2 = l1 ++ l2). rewrite !without_id; try done.
  intros Hin. apply (Hd _ Hin). by left.
Qed.

Section removed.
Context (n : nat) (t : PropertyTable) (slot : Z) (i : nat) (e : PropertyMapEntry) (j : nat).
Hypothesis (H : inv_at n t) (Hi : table t !! i = Some e) (Hl : live e = true).
Hypothesis (Hslot : slot = slot_of n (key e) j) (Hr : reaches n t (key e) j (Z.of_nat i + 1)).

Let t' := removed n t slot i e.

Lemma removed_lt : (i < used t)%nat.
Proof.
  pose proof (inv_entries _ _ H _ _ Hi) as He. case_decide; [done |].
  unfold live, DELETED_KEY in Hl. zlia.
Qed.

Lemma removed_split :
  exists l1 l2, contents t = l1 ++ e :: l2 /\ contents t' = l1 ++ l2.
Proof.
  pose proof removed_lt as Hlt. unfold contents.
  assert (used t' = used t) as -> by (unfold used; simpl; f_equal; lia).
  simpl table. rewrite take_insert_lt by done.
  apply lives_insert_dead; [by apply lookup_take_Some | done | done].
Qed.

Lemma removed_contents : contents t' = without (key e) (contents t).
Proof.
  destruct removed_split as (l1 & l2 & Hc & ->). rewrite Hc, without_mid; [done |].
  rewrite <- Hc. apply (inv_nodup _ _ H).
Qed.

Lemma removed_keyCount : 1 <= m_keyCount t.
Proof.
  destruct removed_split as (l1 & l2 & Hc & _). rewrite <- (inv_count _ _ H), Hc, length_app.
  simpl. lia.
Qed.

Lemma removed_slot_range : 0 <= slot < 2 ^ Z.of_nat n.
Proof. subst slot. apply probe_range. lia. Qed.

Lemma removed_slot p v :
  aget (m_index t') p = Some v ->
  p = slot /\ v = Z.of_nat (2 ^ (n - 1)) + 1 \/ p <> slot /\ aget (m_index t) p = Some v.
Proof.
  pose proof removed_slot_range as Hs. intros Hp. simpl in Hp. destruct (Z.eq_dec p slot) as [-> | Hne].
  - rewrite aget_insert_eq in Hp by (rewrite (inv_index_len _ _ H), pow2_nat; done).
    left. by simplify_eq.
  - right. split; [done |]. apply aget_Some in Hp as Hp'. destruct Hp' as [Hp0 _].
    rewrite aget_insert_ne in Hp; [done | lia | lia | congruence].
Qed.

Lemma removed_entry m e' :
  table t' !! m = Some e' -> m = i /\ e' = tombstone e \/ m <> i /\ table t !! m = Some e'.
Proof.
  intros Hm. simpl in Hm. destruct (decide (m = i)) as [-> | Hne].
  - left. split; [done |]. rewrite list_lookup_insert_eq in Hm by (by eapply lookup_lt_Some).
    by simplify_eq.
  - right. split; [done |]. by rewrite list_lookup_insert_ne in Hm.
Qed.

Lemma removed_reaches k m v :
  reaches n t k m v -> v <> Z.of_nat i + 1 -> reaches n t' k m v.
Proof.
  intros [Hv Hb] Hne. pose proof removed_slot_range as Hs.
  assert (forall x, 0 <= slot_of n k x) as Hpos by (intros; apply probe_range; lia).
  destruct Hr as [Hown _]. rewrite <- Hslot in Hown.
  split.
  - simpl. rewrite aget_insert_ne; [done | lia | auto |]. intros Heq. rewrite <- Heq in Hv. congruence.
  - intros x Hx Hz. destruct (removed_slot _ _ Hz) as [[_ ?] | [_ ?]]; [lia |]. by apply (Hb x Hx).
Qed.

Lemma removed_slots_ok p v :
  aget (m_index t') p = Some v -> v <> 0 -> v <> Z.of_nat (2 ^ (n - 1)) + 1 ->
  exists e', aget (table t') (v - 1) = Some e' /\ live e' = true.
Proof.
  intros Hp Hv Hd. destruct (removed_slot _ _ Hp) as [[_ ?] | [Hps Hp']]; [done |].
  destruct (inv_slots _ _ H _ _ Hp' Hv Hd) as (e' & He' & Hl'). exists e'. split; [| done].
  apply aget_Some in He' as [H0 He']. apply aget_Some. split; [done |]. simpl.
  rewrite list_lookup_insert_ne; [done |]. intros Hiv. destruct Hps.
  eapply (inv_inj _ _ H); [exact Hp' | | done | done].
  rewrite Hslot. destruct Hr as [-> _]. f_equal. lia.
Qed.

Lemma removed_inv : inv_at n t'.
Proof.
  pose proof removed_keyCount as Hk. pose proof removed_lt as Hlt.
  assert (used t' = used t) as Hu by (unfold used; simpl; f_equal; lia).
  pose proof H as []. constructor; rewrite ?Hu; try done; try (simpl; lia).
  - simpl. by rewrite length_insert.
  - simpl. by rewrite length_insert.
  - intros m e' Hm. destruct (removed_entry _ _ Hm) as [[-> ->] | [_ Hm']].
    + rewrite decide_True by done. by right.
    + by apply inv_entries0.
  - destruct removed_split as (l1 & l2 & Hc & Hc'). rewrite Hc'. rewrite Hc in inv_count0.
    rewrite length_app in *. simpl in *. lia.
  - destruct removed_split as (l1 & l2 & Hc & Hc'). unfold keys in *. rewrite Hc'.
    rewrite Hc, fmap_app, fmap_cons in inv_nodup0. rewrite fmap_app.
    eapply sublist_NoDup; [exact inv_nodup0 |]. apply sublist_app; [done |].
    by apply sublist_cons.
  - apply removed_slots_ok.
  - intros p q v Hp Hq Hv Hd. destruct (removed_slot _ _ Hp) as [[_ ?] | [_ Hp']]; [done |].
    destruct (removed_slot _ _ Hq) as [[_ ?] | [_ Hq']]; [done |]. by eapply inv_inj0.
  - destruct Hr as [Hown _]. rewrite <- Hslot in Hown. apply aget_Some in Hown as [_ Hown].
    pose proof (filter_length_insert nonempty (m_index t) _ _ (Z.of_nat (2 ^ (n - 1)) + 1) Hown) as Hf.
    assert (forall m : nat, nonempty (Z.of_nat m + 1) = true) as Hne
      by (intros m; unfold nonempty, EmptyEntryIndex; apply negb_true_iff, Z.eqb_neq; lia).
    rewrite !Hne in Hf. simpl in *. lia.
  - intros m e' Hm Hl'. destruct (removed_entry _ _ Hm) as [[-> ->] | [Hmi Hm']]; [done |].
    destruct (inv_reach0 _ _ Hm' Hl') as [x Hx]. exists x. apply removed_reaches; [done | lia].
Qed.

End removed.

(** The state after the entry is replaced by a tombstone, before the rehash. *)
Lemma remove_iter_ok n t k it :
  inv_at n t -> Forall valid_entry (contents t) -> valid_key k -> find_post n t k it ->
  wp (remove_iter it) t (fun _ t' => inv t' /\ contents t' = without k (contents t) /\
    m_deletedOffsets t' = m_deletedOffsets t /\
    key_refs t' = if decide (k ∈ keys t)
                  then partial_alter (fun m => Some (default 0 m - 1)) k (key_refs t)
                  else key_refs t).
Proof.
  intros H Hv Hk (j & Hs & Hm). unfold remove_iter. destruct (fst it) as [i|].
  2:{ wp_step. destruct Hm as [_ Hno]. rewrite decide_False by done.
      split_and!; [by exists n | by rewrite without_id | done | done]. }
  destruct Hm as (Hr & e & He & <- & Hin).
  apply aget_Some in He as He'. destruct He' as [Hi0 Hi]. rewrite <- (Z2Nat.id i Hi0) in Hr.
  assert (live e = true) as Hl by (destruct Hk; by apply Z.ltb_lt).
  rewrite decide_True by (apply list_elem_of_fmap; by exists e).
  assert (0 <= snd it < 2 ^ Z.of_nat n) as Hsr by (rewrite Hs; apply probe_range; lia).
  pose proof (removed_keyCount n t (snd it) _ e H Hi Hl) as Hkc.
  pose proof (removed_inv n t (snd it) _ e j H Hi Hl Hs Hr) as Hinv.
  pose proof (removed_contents n t (snd it) _ e H Hi Hl) as Hct.
  pose proof (inv_used _ _ H). pose proof (pow2_le_30 _ _ H). pose proof nat_pow_30.
  pose proof (inv_deletedCount _ _ H).
  unfold set_index, entry_at, set_entry, deref. do 5 wp_step. rewrite (inv_deletedIndex _ _ H).
  rewrite aset_Some by (rewrite (inv_index_len _ _ H), pow2_nat; done). do 6 wp_step. simpl table.
  rewrite He. do 7 wp_step. simpl table.
  rewrite aset_Some by (apply lookup_lt_Some in Hi; lia). do 2 wp_step.
  apply pt_assert_bind; [by apply Z.leb_le |]. do 4 wp_step.
  unfold used in *. match goal with |- wp _ ?s _ => set (t' := s) end.
  assert (t' = removed n t (snd it) (Z.to_nat i) e) as ->.
  { unfold t', removed. simpl. rewrite !u32_id by lia. done. }
  set (t1 := removed n t (snd it) (Z.to_nat i) e) in *. apply wp_if; intros _.
  - eapply wp_mono; [apply (rehash_ok n); [done | | simpl; lia] |].
    + rewrite Hct. unfold without. apply list.Forall_forall. intros x Hx.
      apply list_elem_of_In, filter_In in Hx as [Hx _]. rewrite list.Forall_forall in Hv.
      apply Hv, list_elem_of_In, Hx.
    + intros _ t2 (n' & Hi2 & Hc2 & _ & _ & _ & Ho2 & Hr2). rewrite Hc2, Hct, Ho2, Hr2.
      split_and!; [by exists n' | done | done | done].
  - wp_step. split_and!; [by exists n | done | done | done].
Qed.

Lemma remove_ok n t k :
  inv_at n t -> Forall valid_entry (contents t) -> valid_key k ->
  wp (remove k) t (fun _ t' => inv t' /\ contents t' = without k (contents t) /\
    m_deletedOffsets t' = m_deletedOffsets t /\
    key_refs t' = if decide (k ∈ keys t)
                  then partial_alter (fun m => Some (default 0 m - 1)) k (key_refs t)
                  else key_refs t).
Proof.
  intros H Hv Hk. unfold remove. wp_step. eapply wp_mono; [by apply find_ok |].
  intros it t' [-> Hp]. by eapply remove_iter_ok.
Qed.

(** ** Copies *)

Definition refs_all (es : list PropertyMapEntry) (refs : gmap Z Z) : gmap Z Z :=
  foldl (fun r e => partial_alter (fun m => Some (default 0 m + 1)) (key e) r) refs es.

Lemma ref_all_eq es t : ref_all es t = Ok (tt, t <| key_refs := refs_all es (key_refs t) |>).
Proof.
  revert t. induction es as [|e es IH]; intros t; [by destruct t |].
  cbn [ref_all]. unfold mbind, M_bind, ref, mmod. by rewrite IH.
Qed.

Lemma clone_ok n t :
  inv_at n t -> exists t', clone t = Ok t' /\ inv t' /\ contents t' = contents t /\
    m_deletedOffsets t' = m_deletedOffsets t /\ key_refs t' = refs_all (contents t) (key_refs t).
Proof.
  intros H. destruct (wp_inv _ _ _ (entries_ok n t H)) as (es & t1 & He & -> & ->).
  unfold clone, mbind, M_bind. rewrite He, ref_all_eq. eexists. split; [done |].
  split_and!; try done. exists n. by destruct H.
Qed.

Lemma clone_loop_ok n es : forall t,
  inv_at n t -> Forall valid_entry es -> NoDup (keys t ++ (key <$> es)) ->
  m_keyCount t + m_deletedCount t + Z.of_nat (length es) <= Z.of_nat (2 ^ (n - 1)) ->
  wp (clone_loop es) t (fun _ t' => inv_at n t' /\ contents t' = contents t ++ es /\
    key_refs t' = refs_all es (key_refs t)).
Proof.
  induction es as [|e es IH]; intros t H Hv Hnd Hcap; cbn [clone_loop].
  { wp_step. by rewrite app_nil_r. }
  apply Forall_cons in Hv as [Hve Hv]. simpl in Hcap. rewrite fmap_cons in Hnd.
  assert (canInsert t = true) as Hc by (apply (cap_le n t H); lia).
  assert (key e ∉ keys t) as Hnew.
  { apply NoDup_app in Hnd as (_ & Hnd & _). intros Hin. apply (Hnd _ Hin). by left. }
  do 2 wp_step. apply pt_assert_bind; [done |]. wp_step.
  eapply wp_mono; [by apply (reinsert_ok n) |]. intros _ t1 (H1 & Hct & Hsz & Hk & Hd & Ho & Hr).
  unfold ref. wp_step. wp_step. destruct (ref_inv n t1 (key e) H1) as [H2 Hc2].
  set (t2 := t1 <| key_refs := _ |>) in *.
  eapply wp_mono; [apply (IH t2 H2 Hv) |].
  - unfold keys in *. rewrite Hc2, Hct, fmap_app, <- app_assoc. done.
  - change (m_keyCount t2) with (m_keyCount t1). change (m_deletedCount t2) with (m_deletedCount t1). lia.
  - intros _ t3 (H3 & Hc3 & Hr3). split_and!; [done | |].
    + by rewrite Hc3, Hc2, Hct, <- app_assoc.
    + rewrite Hr3. simpl. by rewrite Hr.
Qed.

Lemma copy_ok n t c :
  inv_at n t -> Forall valid_entry (contents t) -> m_keyCount t <= c < 2 ^ 30 ->
  exists t', copy c t = Ok t' /\ inv t' /\ contents t' = contents t /\
    m_deletedOffsets t' = m_deletedOffsets t /\ key_refs t' = refs_all (contents t) (key_refs t).
Proof.
  intros H Hv Hc. pose proof (inv_keyCount _ _ H). unfold copy.
  rewrite (proj2 (Z.ltb_ge _ _)) by lia. destruct (_ =? _); [by eapply clone_ok |].
  destruct (wp_inv _ _ _ (entries_ok n t H)) as (es & t1 & He & -> & ->).
  unfold clone_capacity. rewrite (proj2 (Z.ltb_ge _ _)), He by lia.
  destruct (sizeForCapacity_ok c ltac:(lia)) as (n' & Hn' & Hs & Hcap).
  destruct (fresh_inv n' None (key_refs t) Hn') as [Hinv Hnil]. rewrite <- Hs in *.
  change (create (key_refs t) c) with (fresh (sizeForCapacity c) None (key_refs t)).
  pose proof (clone_loop_ok n' (contents t) _ Hinv Hv) as Hw. unfold keys in Hw. rewrite Hnil in Hw.
  specialize (Hw (inv_nodup _ _ H) ltac:(simpl; pose proof (inv_count _ _ H); lia)).
  destruct (wp_inv _ _ _ Hw) as ([] & t2 & He2 & H2 & Hc2 & Hr2).
  rewrite He2. eexists. split; [done |].
  split_and!; [exists n'; by destruct H2 | done | done | done].
Qed.

End inv.
