(* ===== verification/StructureTable.v ===== *)
(** * Structures: allocation of property storage

    [Structure::putSpecificValue], [Structure::remove], [Structure::get] and
    [Structure::checkOffsetConsistency] ([runtime/Structure.cpp],
    [runtime/StructureInlines.h]) over an interface [PropertyMap] that states
    what a property table promises; [PropertyTable] is an instance of it.  The
    offsets of the live properties and the free ones partition the storage, so
    no two properties share a slot, and the release assertions of
    [checkOffsetConsistency] never fire. *)

From stdpp Require Import base numbers list gmap.
From S2P Require Import Prelude Probe PropertyTable PropertyTableProof.

#[local] Open Scope Z_scope.

(** ** The interface *)

(** [pm_abs t es del]: [t] is well formed, holds the entries [es] in insertion
    order and the deleted offsets [del], last one on top. *)
Class PropertyMap {SH : StringHeap} (T It : Type) := {
  pm_find : Z -> M pt_fault T It;
  pm_first : It -> T -> option PropertyMapEntry;
  pm_nextOffset : Z -> M pt_fault T Z;
  pm_add : PropertyMapEntry -> Z -> EffectOnPropertyOffset -> M pt_fault T Z;
  pm_remove : It -> M pt_fault T unit;
  pm_addDeletedOffset : Z -> M pt_fault T unit;
  pm_storageSize : T -> Z;
  pm_create : Z -> T;
  pm_abs : T -> list PropertyMapEntry -> list Z -> Prop;
  pm_found : T -> Z -> It -> Prop;
  pm_create_spec : forall c, 0 <= c < 2 ^ 30 -> pm_abs (pm_create c) [] [];
  pm_find_spec : forall t es del k, pm_abs t es del -> valid_key k ->
    wp (pm_find k) t (fun it t' => t' = t /\ pm_found t k it /\
      match pm_first it t with
      | Some e => e ∈ es /\ key e = k
      | None => k ∉ (key <$> es)
      end);
  pm_nextOffset_spec : forall t es del cap, pm_abs t es del ->
    wp (pm_nextOffset cap) t (fun o t' =>
      match last del with
      | Some o' => o = o' /\ pm_abs t' es (removelast del)
      | None => o = offsetForPropertyNumber (s32 (Z.of_nat (length es))) cap /\ pm_abs t' es del
      end);
  pm_add_spec : forall t es del e off, pm_abs t es del -> valid_key (key e) ->
    key e ∉ (key <$> es) -> Z.of_nat (length es) + 1 < 2 ^ 30 ->
    wp (pm_add e off PropertyOffsetMayChange) t (fun off' t' =>
      off' = Z.max off (offset e) /\ pm_abs t' (es ++ [e]) del);
  pm_remove_spec : forall t es del k it e, pm_abs t es del -> valid_key k ->
    pm_found t k it -> pm_first it t = Some e ->
    wp (pm_remove it) t (fun _ t' => pm_abs t' (without k es) del);
  pm_addDeletedOffset_spec : forall t es del o, pm_abs t es del ->
    wp (pm_addDeletedOffset o) t (fun _ t' => pm_abs t' es (del ++ [o]));
  pm_storageSize_spec : forall t es del, pm_abs t es del ->
    Z.of_nat (length es + length del) < 2 ^ 32 ->
    pm_storageSize t = Z.of_nat (length es + length del);
  pm_nodup : forall t es del, pm_abs t es del -> NoDup (key <$> es)
}.

(** ** [PropertyTable] implements it *)

Section instance.
Context {SH : StringHeap}.

Definition table_abs (t : PropertyTable) (es : list PropertyMapEntry) (del : list Z) : Prop :=
  inv t /\ contents t = es /\ default [] (m_deletedOffsets t) = del /\ Forall valid_entry es.

Definition table_add (e : PropertyMapEntry) (off : Z) (eff : EffectOnPropertyOffset) : PM Z :=
  r ← add e off eff; mret r.2.

Definition iter_first (it : find_iterator) (t : PropertyTable) : option PropertyMapEntry :=
  i ← fst it; aget (table t) i.

Lemma table_find_spec t es del k :
  table_abs t es del -> valid_key k ->
  wp (find k) t (fun it t' => t' = t /\ (exists n, inv_at n t /\ find_post n t k it) /\
    match iter_first it t with
    | Some e => e ∈ es /\ key e = k
    | None => k ∉ (key <$> es)
    end).
Proof.
  intros ([n H] & <- & _ & _) Hk. eapply wp_mono; [by apply (find_ok n) |].
  intros it t' [-> Hp]. split; [done |]. split; [by exists n |].
  destruct it as [[i|] s]; destruct Hp as (j & _ & Hm); unfold iter_first; simpl in *.
  - destruct Hm as (_ & e & -> & ? & ?). done.
  - by destruct Hm.
Qed.

Lemma table_nextOffset_spec t es del cap :
  table_abs t es del ->
  wp (nextOffset cap) t (fun o t' =>
    match last del with
    | Some o' => o = o' /\ table_abs t' es (removelast del)
    | None => o = offsetForPropertyNumber (s32 (Z.of_nat (length es))) cap /\ table_abs t' es del
    end).
Proof.
  intros ([n H] & Hes & Hdel & Hv). unfold nextOffset. do 2 wp_step. unfold hasDeletedOffset.
  pose proof (inv_count _ _ H) as Hc. rewrite Hes in Hc.
  destruct (m_deletedOffsets t) as [[|o l]|] eqn:Ho; simpl in Hdel; subst del.
  1, 3: wp_step; simpl; unfold size; rewrite <- Hc; split; [done |];
    split_and!; [by exists n | done | by rewrite Ho | done].
  unfold getDeletedOffset. do 2 wp_step. rewrite Ho.
  destruct (last (o :: l)) as [o'|] eqn:Hl.
  - wp_steps. split; [done |]. split_and!; [exists n; by destruct H | done | done | done].
  - by rewrite last_None in Hl.
Qed.

Lemma table_add_spec t es del e off :
  table_abs t es del -> valid_key (key e) -> key e ∉ (key <$> es) ->
  Z.of_nat (length es) + 1 < 2 ^ 30 ->
  wp (table_add e off PropertyOffsetMayChange) t (fun off' t' =>
    off' = Z.max off (offset e) /\ table_abs t' (es ++ [e]) del).
Proof.
  intros ([n H] & <- & <- & Hv) Hk Hnew Hlen. unfold table_add. wp_step.
  rewrite (inv_count _ _ H) in Hlen.
  eapply wp_mono; [by apply (add_new n) |].
  intros r t' (Hi & Hc & _ & Hr & Ho & _). wp_step. split; [done |].
  split_and!; [done | done | by rewrite Ho |]. apply Forall_app. split; [done |].
  by constructor.
Qed.

Lemma table_remove_spec t es del k it e :
  table_abs t es del -> valid_key k -> (exists n, inv_at n t /\ find_post n t k it) ->
  iter_first it t = Some e ->
  wp (remove_iter it) t (fun _ t' => table_abs t' (without k es) del).
Proof.
  intros (_ & <- & <- & Hv) Hk (n & H & Hp) _. eapply wp_mono; [by apply (remove_iter_ok n) |].
  intros _ t' (Hi & Hc & Ho & _). split_and!; [done | done | by rewrite Ho |].
  apply list.Forall_forall. intros x Hx. apply list_elem_of_In, filter_In in Hx as [Hx _].
  rewrite list.Forall_forall in Hv. by apply Hv, list_elem_of_In.
Qed.

Lemma table_addDeleted_spec t es del o :
  table_abs t es del -> wp (addDeletedOffset o) t (fun _ t' => table_abs t' es (del ++ [o])).
Proof.
  intros ([n H] & <- & <- & Hv). unfold addDeletedOffset. wp_step.
  split_and!; [exists n; by destruct H | done | done | done].
Qed.

Lemma table_storage_spec t es del :
  table_abs t es del -> Z.of_nat (length es + length del) < 2 ^ 32 ->
  propertyStorageSize t = Z.of_nat (length es + length del).
Proof.
  intros ([n H] & <- & <- & _) Hl. unfold propertyStorageSize, size.
  rewrite <- (inv_count _ _ H). destruct (m_deletedOffsets t); simpl in *; rewrite u32_id; lia.
Qed.

Lemma table_nodup t es del : table_abs t es del -> NoDup (key <$> es).
Proof. intros ([n H] & <- & _). apply (inv_nodup _ _ H). Qed.

Lemma create_abs refs c : 0 <= c < 2 ^ 30 -> table_abs (create refs c) [] [].
Proof.
  intros Hc. destruct (sizeForCapacity_ok c Hc) as (n & Hn & Hs & _).
  destruct (fresh_inv n None refs Hn) as [Hi Hnil]. rewrite <- Hs in *.
  split_and!; [by exists n | exact Hnil | done | constructor].
Qed.

#[global] Instance PropertyTable_map : PropertyMap PropertyTable find_iterator := {|
  pm_find := find;
  pm_first := iter_first;
  pm_nextOffset := nextOffset;
  pm_add := table_add;
  pm_remove := remove_iter;
  pm_addDeletedOffset := addDeletedOffset;
  pm_storageSize := propertyStorageSize;
  pm_create := create ∅;
  pm_abs := table_abs;
  pm_found := fun t k it => exists n, inv_at n t /\ find_post n t k it;
  pm_create_spec := create_abs ∅;
  pm_find_spec := table_find_spec;
  pm_nextOffset_spec := table_nextOffset_spec;
  pm_add_spec := table_add_spec;
  pm_remove_spec := table_remove_spec;
  pm_addDeletedOffset_spec := table_addDeleted_spec;
  pm_storageSize_spec := table_storage_spec;
  pm_nodup := table_nodup
|}.

End instance.

(** ** The structure *)

Record Structure (T : Type) := mk_structure {
  m_propertyTable : option T;
  m_offset : Z;
  m_inlineCapacity : Z;
  m_hasNonEnumerableProperties : bool
}.
Arguments mk_structure {T}.
Arguments m_propertyTable {T}.
Arguments m_offset {T}.
Arguments m_inlineCapacity {T}.
Arguments m_hasNonEnumerableProperties {T}.

Definition DontEnum : Z := Z.shiftl 1 2.

Section structure.
Context {SH : StringHeap} {T It : Type} {PM : PropertyMap T It}.

Abbreviation SM := (M pt_fault (Structure T)).

Definition set_table (t : T) (s : Structure T) : Structure T :=
  mk_structure (Some t) (m_offset s) (m_inlineCapacity s) (m_hasNonEnumerableProperties s).
Definition set_offset (o : Z) (s : Structure T) : Structure T :=
  mk_structure (m_propertyTable s) o (m_inlineCapacity s) (m_hasNonEnumerableProperties s).
Definition set_nonEnumerable (s : Structure T) : Structure T :=
  mk_structure (m_propertyTable s) (m_offset s) (m_inlineCapacity s) true.

(** An operation of the table of the structure. *)
Definition on_table {A} (t : T) (m : M pt_fault T A) : SM A := fun s =>
  match m t with
  | Ok (a, t') => Ok (a, set_table t' s)
  | Err e => Err e
  end.

Definition cur_table : SM T :=
  s ← mget;
  match m_propertyTable s with Some t => mret t | None => mfail Assertion end.

(** The offset of a property, in a structure whose table is materialized. *)
Definition get (k : Z) : SM Z :=
  s ← mget;
  match m_propertyTable s with
  | None => mret invalidOffset
  | Some t =>
      it ← on_table t (pm_find k);
      t ← cur_table;
      mret (match pm_first it t with Some e => offset e | None => invalidOffset end)
  end.

Definition createPropertyMap (capacity : Z) : SM unit := mmod (set_table (pm_create capacity)).

Definition putSpecificValue (k attrs value : Z) : SM Z :=
  mwhen (negb (Z.land attrs DontEnum =? 0)) (mmod set_nonEnumerable);;
  s ← mget;
  (match m_propertyTable s with None => createPropertyMap 0 | Some _ => mret tt end);;
  t ← cur_table;
  s ← mget;
  newOffset ← on_table t (pm_nextOffset (m_inlineCapacity s));
  t ← cur_table;
  s ← mget;
  o ← on_table t (pm_add (mk_entry k newOffset attrs value) (m_offset s) PropertyOffsetMayChange);
  mmod (set_offset o);;
  mret newOffset.

Definition remove_property (k : Z) : SM Z :=
  s ← mget;
  match m_propertyTable s with
  | None => mret invalidOffset
  | Some t =>
      position ← on_table t (pm_find k);
      t ← cur_table;
      match pm_first position t with
      | None => mret invalidOffset
      | Some e =>
          on_table t (pm_remove position);;
          t ← cur_table;
          on_table t (pm_addDeletedOffset (offset e));;
          mret (offset e)
      end
  end.

(** The conditions of the release assertions. *)
Definition checkOffsetConsistency (s : Structure T) : bool :=
  match m_propertyTable s with
  | None => true
  | Some t =>
      let totalSize := pm_storageSize t in
      (numberOfSlotsForLastOffset (m_offset s) (m_inlineCapacity s) =? totalSize) &&
      ((if totalSize <? m_inlineCapacity s then 0 else totalSize - m_inlineCapacity s)
         =? numberOfOutOfLineSlotsForLastOffset (m_offset s))
  end.

(** ** The storage invariant *)

(** The offset of storage slot number [i]. *)
Definition nth_offset (cap : Z) (i : nat) : Z := offsetForPropertyNumber (s32 (Z.of_nat i)) cap.

(** The structure holds the entries [es] and the free offsets [del]; together
    they are the first slots of the storage, each once. *)
Definition storage (s : Structure T) (es : list PropertyMapEntry) (del : list Z) : Prop :=
  match m_propertyTable s with
  | None => es = [] /\ del = []
  | Some t => pm_abs t es del
  end /\
  0 <= m_inlineCapacity s <= firstOutOfLineOffset /\
  Z.of_nat (length es + length del) < 2 ^ 30 /\
  (offset <$> es) ++ del ≡ₚ nth_offset (m_inlineCapacity s) <$> seq 0 (length es + length del) /\
  m_offset s = match (length es + length del)%nat with
               | O => invalidOffset
               | S n => nth_offset (m_inlineCapacity s) n
               end.

Lemma nth_offset_eq cap i :
  0 <= cap <= firstOutOfLineOffset -> Z.of_nat i < 2 ^ 30 ->
  nth_offset cap i = if cap <=? Z.of_nat i then Z.of_nat i + firstOutOfLineOffset - cap else Z.of_nat i.
Proof.
  intros Hc Hi. unfold nth_offset, offsetForPropertyNumber, firstOutOfLineOffset in *.
  assert (forall x, 0 <= x < 2 ^ 31 -> s32 x = x) as Hs.
  { intros x Hx. unfold s32, swrap. rewrite Z.mod_small by lia.
    rewrite (proj2 (Z.ltb_lt _ _)) by (simpl; lia). done. }
  rewrite (Hs (Z.of_nat i)) by lia. destruct (Z.leb_spec cap (Z.of_nat i)); [| done].
  rewrite (Hs (Z.of_nat i + 100)), Hs by lia. done.
Qed.

Lemma nth_offset_mono cap i j :
  0 <= cap <= firstOutOfLineOffset -> Z.of_nat j < 2 ^ 30 -> (i < j)%nat ->
  nth_offset cap i < nth_offset cap j.
Proof.
  intros Hc Hj Hij. rewrite !nth_offset_eq by lia. unfold firstOutOfLineOffset in *.
  destruct (Z.leb_spec cap (Z.of_nat i)), (Z.leb_spec cap (Z.of_nat j)); lia.
Qed.

(** The storage sizes computed from the last offset are exact. *)
Lemma storage_consistent s es del : storage s es del -> checkOffsetConsistency s = true.
Proof.
  intros (Ht & Hc & Hn & _ & Ho). unfold checkOffsetConsistency.
  destruct (m_propertyTable s) as [t|]; [| done]. cbv zeta.
  rewrite (pm_storageSize_spec _ _ _ Ht) by lia. set (n := (length es + length del)%nat) in *.
  unfold numberOfSlotsForLastOffset, numberOfOutOfLineSlotsForLastOffset. rewrite Ho.
  destruct n as [|n]; [unfold invalidOffset, firstOutOfLineOffset in *|].
  { simpl. rewrite (proj2 (Z.ltb_lt (-1) _)) by lia. simpl.
    destruct (Z.ltb_spec (Z.of_nat 0) (m_inlineCapacity s)); [done | apply Z.eqb_eq; lia]. }
  rewrite nth_offset_eq by lia. unfold firstOutOfLineOffset in *.
  apply andb_true_iff. destruct (Z.leb_spec (m_inlineCapacity s) (Z.of_nat n)).
  - rewrite !(proj2 (Z.ltb_ge _ _)) by lia. rewrite !u64_id by (rewrite ?u64_id; lia).
    split; apply Z.eqb_eq; lia.
  - rewrite (proj2 (Z.ltb_lt (Z.of_nat n) _)), (proj2 (Z.ltb_lt (Z.of_nat n) 100)) by lia.
    rewrite u64_id by lia. split; apply Z.eqb_eq; [lia |].
    destruct (Z.ltb_spec (Z.of_nat (S n)) (m_inlineCapacity s)); lia.
Qed.

Lemma nth_offset_nodup cap n :
  0 <= cap <= firstOutOfLineOffset -> Z.of_nat n < 2 ^ 30 -> NoDup (nth_offset cap <$> seq 0 n).
Proof.
  intros Hc Hn. apply NoDup_fmap_2_strong; [| apply NoDup_seq].
  intros i j Hi Hj Heq. apply elem_of_seq in Hi, Hj.
  destruct (Nat.lt_total i j) as [Hlt | [-> | Hlt]]; [| done |].
  - pose proof (nth_offset_mono cap i j Hc ltac:(lia) Hlt). lia.
  - pose proof (nth_offset_mono cap j i Hc ltac:(lia) Hlt). lia.
Qed.

(** No two properties share a slot, and no free slot is in use. *)
Lemma storage_nodup s es del : storage s es del -> NoDup ((offset <$> es) ++ del).
Proof. intros (_ & Hc & Hn & Hp & _). rewrite Hp. by apply nth_offset_nodup. Qed.

(** ** The operations keep it *)

Lemma on_table_wp {A} t (m : M pt_fault T A) s (Q : A -> Structure T -> Prop) :
  wp m t (fun a t' => Q a (set_table t' s)) -> wp (on_table t m) s Q.
Proof. unfold wp, on_table. by destruct (m t) as [[a t']|]. Qed.

Lemma cur_table_bind {A} t s (f : T -> SM A) Q :
  m_propertyTable s = Some t -> wp (f t) s Q -> wp (cur_table ≫= f) s Q.
Proof. intros Ht Hf. unfold cur_table. do 3 wp_step. rewrite Ht. by wp_step. Qed.

(** Taking the offset for a new property: a freed slot, or the next one. *)
Lemma next_offset_perm cap es del o del' :
  (offset <$> es) ++ del ≡ₚ nth_offset cap <$> seq 0 (length es + length del) ->
  match last del with
  | Some o' => o = o' /\ del' = removelast del
  | None => o = nth_offset cap (length es) /\ del' = del
  end ->
  (offset <$> es) ++ o :: del' ≡ₚ nth_offset cap <$> seq 0 (S (length es) + length del').
Proof.
  intros Hp Hl. destruct (last del) as [o'|] eqn:Hlast.
  - destruct Hl as [-> ->]. apply last_Some in Hlast as [l ->]. rewrite removelast_last.
    rewrite length_app in Hp. simpl in Hp.
    replace (S (length es) + length l)%nat with (length es + (length l + 1))%nat by lia.
    rewrite <- Hp. apply Permutation_app_head, Permutation_cons_append.
  - destruct Hl as [-> ->]. apply last_None in Hlast as ->. rewrite app_nil_r in Hp.
    cbn [length] in *. rewrite !Nat.add_0_r in *. rewrite seq_S, fmap_app, <- Hp. done.
Qed.

(** The last offset covers the new property. *)
Lemma next_offset_max cap es del o del' m :
  0 <= cap <= firstOutOfLineOffset -> Z.of_nat (S (length es) + length del) < 2 ^ 30 ->
  (offset <$> es) ++ o :: del' ≡ₚ nth_offset cap <$> seq 0 (S (length es) + length del') ->
  match last del with
  | Some o' => o = o' /\ del' = removelast del
  | None => o = nth_offset cap (length es) /\ del' = del
  end ->
  m = match (length es + length del)%nat with
      | O => invalidOffset
      | S n => nth_offset cap n
      end ->
  Z.max m o = nth_offset cap (length es + length del').
Proof.
  intros Hc Hn Hp Hl ->.
  assert (o <= nth_offset cap (length es + length del')) as Hle.
  { assert (o ∈ nth_offset cap <$> seq 0 (S (length es) + length del')) as Hin
      by (rewrite <- Hp; apply elem_of_app; right; by left).
    apply list_elem_of_fmap in Hin as (i & -> & Hi). apply elem_of_seq in Hi.
    destruct (decide (i = length es + length del')%nat) as [-> |]; [lia |].
    assert (length del' <= length del)%nat.
    { destruct (last del) as [o'|] eqn:Hlast; destruct Hl as [_ ->]; [| lia].
      apply last_Some in Hlast as [l ->]. rewrite removelast_last, length_app. lia. }
    apply Z.lt_le_incl, nth_offset_mono; [done | lia | lia]. }
  destruct (last del) as [o'|] eqn:Hlast; destruct Hl as [Ho ->].
  - apply last_Some in Hlast as [l ->]. rewrite removelast_last in *. rewrite length_app.
    simpl. replace (length es + (length l + 1))%nat with (S (length es + length l)) by lia. lia.
  - apply last_None in Hlast as ->. simpl in *. rewrite Nat.add_0_r in *. rewrite Ho in *.
    destruct (length es) as [|n]; [unfold invalidOffset; pose proof (nth_offset_eq cap 0 Hc ltac:(lia)) as Hz;
      unfold firstOutOfLineOffset in *; rewrite Hz in *; case_match; simpl in *; lia |].
    pose proof (nth_offset_mono cap n (S n) Hc ltac:(lia) ltac:(lia)). lia.
Qed.

Lemma put_ok s es del k attrs v :
  storage s es del -> valid_key k -> k ∉ (key <$> es) ->
  Z.of_nat (S (length es) + length del) < 2 ^ 30 ->
  wp (putSpecificValue k attrs v) s (fun o s' => exists del',
    storage s' (es ++ [mk_entry k o attrs v]) del' /\ ~ (o ∈ (offset <$> es)) /\
    (length del' <= length del)%nat).
Proof.
  intros (Ht & Hc & Hn & Hp & Ho) Hk Hnew Hlen. unfold putSpecificValue. wp_step.
  apply (wp_mono _ _ (fun _ s1 => m_propertyTable s1 = m_propertyTable s /\ m_offset s1 = m_offset s /\
    m_inlineCapacity s1 = m_inlineCapacity s)); [by wp_steps |].
  intros _ s1 (Ht1 & Ho1 & Hc1). do 3 wp_step.
  apply (wp_mono _ _ (fun _ s2 => (exists t, m_propertyTable s2 = Some t /\ pm_abs t es del) /\
    m_offset s2 = m_offset s /\ m_inlineCapacity s2 = m_inlineCapacity s)).
  { rewrite Ht1. unfold createPropertyMap. destruct (m_propertyTable s) as [t|] eqn:Hs; wp_step.
    - split_and!; [by exists t | done | done].
    - destruct Ht as [-> ->]. split_and!; try done. eexists. split; [done |].
      by apply pm_create_spec. }
  intros _ s2 ((t & Ht2 & Habs) & Ho2 & Hc2). eapply cur_table_bind; [done |].
  do 3 wp_step. apply on_table_wp. eapply wp_mono; [by apply pm_nextOffset_spec |].
  intros o t3 Hnext. eapply cur_table_bind; [done |]. do 3 wp_step.
  set (del' := match last del with Some _ => removelast del | None => del end).
  assert (pm_abs t3 es del' /\ match last del with
    | Some o' => o = o' /\ del' = removelast del
    | None => o = nth_offset (m_inlineCapacity s) (length es) /\ del' = del
    end) as [Habs3 Hnext'].
  { rewrite Hc2 in Hnext. unfold del'. destruct (last del); tauto. }
  clearbody del'. pose proof (next_offset_perm _ _ _ _ _ Hp Hnext') as Hperm.
  assert (length del' <= length del)%nat as Hdel'.
  { destruct (last del) as [x|] eqn:Hlast; destruct Hnext' as [_ ->]; [| lia].
    apply last_Some in Hlast as [l ->]. rewrite removelast_last, length_app. lia. }
  apply on_table_wp. eapply wp_mono.
  { apply (pm_add_spec _ es del' (mk_entry k o attrs v)); [done | done | done | lia]. }
  intros o' t4 [Ho' Habs4]. wp_step. wp_step. wp_step. simpl in Ho'. exists del'.
  rewrite Ho2, (next_offset_max (m_inlineCapacity s) es del o del') in Ho' by done.
  split; [split_and! | split; [| done]].
  - done.
  - simpl. lia.
  - simpl. lia.
  - rewrite length_app. simpl. lia.
  - rewrite fmap_app, length_app. simpl m_inlineCapacity. rewrite Hc2. simpl. rewrite <- app_assoc.
    by replace (length es + 1 + length del')%nat with (S (length es) + length del')%nat by lia.
  - rewrite length_app. simpl. rewrite Hc2.
    by replace (length es + 1 + length del')%nat with (S (length es + length del')) by lia.
  - assert (NoDup ((offset <$> es) ++ o :: del')) as Hnd
      by (rewrite Hperm; apply nth_offset_nodup; [done | lia]).
    apply NoDup_app in Hnd as (_ & Hnd & _). intros Hin. apply (Hnd _ Hin). by left.
Qed.


Lemma find_in_structure s es del k (Q : It -> Structure T -> Prop) t :
  storage s es del -> valid_key k -> m_propertyTable s = Some t ->
  (forall it, pm_found t k it ->
     match pm_first it t with Some e => e ∈ es /\ key e = k | None => k ∉ (key <$> es) end ->
     Q it s) ->
  wp (on_table t (pm_find k)) s Q.
Proof.
  intros (Ht & _) Hk Hs HQ. rewrite Hs in Ht. apply on_table_wp.
  eapply wp_mono; [by apply (pm_find_spec t es del) |]. intros it t' (-> & Hf & Hm).
  replace (set_table t s) with s; [by apply HQ |]. destruct s. unfold set_table. simpl in *. congruence.
Qed.

Lemma get_ok s es del k :
  storage s es del -> valid_key k ->
  wp (get k) s (fun o s' => s' = s /\
    ((exists e, e ∈ es /\ key e = k /\ o = offset e) \/ (k ∉ (key <$> es)) /\ o = invalidOffset)).
Proof.
  intros Hst Hk. unfold get. do 2 wp_step. destruct (m_propertyTable s) as [t|] eqn:Hs.
  - wp_step. eapply find_in_structure; [done | done | done |]. intros it Hf Hm.
    eapply cur_table_bind; [done |]. wp_step. split; [done |].
    destruct (pm_first it t) as [e|]; [left; exists e; destruct Hm; by split_and! | by right].
  - wp_step. split; [done |]. right. destruct Hst as (Ht & _). rewrite Hs in Ht.
    destruct Ht as [-> _]. split; [apply not_elem_of_nil | done].
Qed.

Lemma without_perm k e es :
  NoDup (key <$> es) -> e ∈ es -> key e = k ->
  offset <$> es ≡ₚ offset e :: (offset <$> without k es) /\ length es = S (length (without k es)).
Proof.
  intros Hnd (l1 & l2 & ->)%list_elem_of_split <-. rewrite without_mid by done.
  rewrite !fmap_app, !length_app. simpl. split; [| lia]. symmetry. apply Permutation_middle.
Qed.

Lemma remove_property_ok s es del k :
  storage s es del -> valid_key k ->
  wp (remove_property k) s (fun o s' => exists del',
    storage s' (without k es) del' /\
    ((exists e, e ∈ es /\ key e = k /\ o = offset e /\ del' = del ++ [o]) \/
     (k ∉ (key <$> es)) /\ o = invalidOffset /\ del' = del)).
Proof.
  intros Hst Hk. unfold remove_property. do 2 wp_step.
  destruct (m_propertyTable s) as [t|] eqn:Hs.
  2:{ wp_step. exists del. pose proof Hst as (Ht & _). rewrite Hs in Ht. destruct Ht as [-> ->].
      split; [done |]. right. split_and!; [apply not_elem_of_nil | done | done]. }
  wp_step. eapply find_in_structure; [done | done | done |]. intros it Hf Hm.
  eapply cur_table_bind; [done |]. destruct (pm_first it t) as [e|] eqn:He.
  2:{ wp_step. exists del. rewrite without_id by done. split; [done |]. by right. }
  destruct Hm as [Hin Hke]. pose proof Hst as (Ht & Hc & Hn & Hp & Ho). rewrite Hs in Ht.
  destruct (without_perm k e es) as [Hperm Hlen]; [by eapply (pm_nodup t es del) | done | done |].
  wp_step. apply on_table_wp. eapply wp_mono; [by apply (pm_remove_spec t es del k it e) |].
  intros x1 t1 Habs1. eapply cur_table_bind; [done |]. wp_step. apply on_table_wp.
  eapply wp_mono; [by apply (pm_addDeletedOffset_spec t1 (without k es) del) |]. intros x2 t2 Habs2. wp_step.
  exists (del ++ [offset e]). split; [| left; exists e; by split_and!].
  assert (length (without k es) + length (del ++ [offset e]) = length es + length del)%nat as Hl
    by (rewrite length_app; simpl; lia).
  unfold storage. simpl. rewrite Hl. split_and!; try done; try lia.
  rewrite app_assoc, <- Permutation_cons_append, <- Hp, Hperm. done.
Qed.

(** ** Sequences of operations *)

Inductive structure_op :=
  | Put (k attrs v : Z)
  | Remove (k : Z).

(** [put] as the callers use it: only for a property that is not there. *)
Definition run_op (op : structure_op) : SM unit :=
  match op with
  | Put k attrs v =>
      o ← get k;
      if o =? invalidOffset then putSpecificValue k attrs v;; mret tt else mret tt
  | Remove k => remove_property k;; mret tt
  end.

Fixpoint run_ops (ops : list structure_op) : SM unit :=
  match ops with
  | [] => mret tt
  | op :: ops' => run_op op;; run_ops ops'
  end.

Definition op_key (op : structure_op) : Z := match op with Put k _ _ => k | Remove k => k end.

Definition consistent (s : Structure T) : Prop := exists es del,
  storage s es del /\ checkOffsetConsistency s = true /\ NoDup ((offset <$> es) ++ del).

Lemma storage_offset_valid s es del e :
  storage s es del -> e ∈ es -> offset e <> invalidOffset.
Proof.
  intros (_ & Hc & Hn & Hp & _) Hin.
  assert (offset e ∈ nth_offset (m_inlineCapacity s) <$> seq 0 (length es + length del)) as H
    by (rewrite <- Hp; apply elem_of_app; left; apply list_elem_of_fmap; by exists e).
  apply list_elem_of_fmap in H as (i & -> & Hi). apply elem_of_seq in Hi.
  rewrite nth_offset_eq by lia. unfold firstOutOfLineOffset, invalidOffset in *. case_match; lia.
Qed.

Lemma run_op_ok s es del op :
  storage s es del -> valid_key (op_key op) ->
  Z.of_nat (S (length es) + length del) < 2 ^ 30 ->
  wp (run_op op) s (fun _ s' => exists es' del', storage s' es' del' /\
    (length es' + length del' <= S (length es + length del))%nat).
Proof.
  intros Hst Hk Hn. destruct op as [k attrs v | k]; simpl in Hk; cbn [run_op]; wp_step.
  - eapply wp_mono; [by apply (get_ok s es del) |]. intros o s' [-> Ho].
    destruct (Z.eqb_spec o invalidOffset) as [Hi | Hi].
    + destruct Ho as [(e & Hin & _ & ->) | [Hno _]]; [by destruct (storage_offset_valid _ _ _ _ Hst Hin) |].
      wp_step. eapply wp_mono; [by apply (put_ok s es del) |]. intros o' s' (del' & Hst' & _ & Hl). wp_step.
      exists (es ++ [mk_entry k o' attrs v]), del'. split; [done |]. rewrite length_app. simpl. lia.
    + wp_step. exists es, del. split; [done | lia].
  - eapply wp_mono; [by apply (remove_property_ok s es del) |]. intros o s' (del' & Hst' & Hd). wp_step.
    exists (without k es), del'. split; [done |].
    destruct Hd as [(e & Hin & Hke & -> & ->) | (Hno & _ & ->)].
    + destruct (without_perm k e es) as [_ Hlen]; [| done | done |].
      * destruct Hst as (Ht & _). destruct (m_propertyTable s) as [t|]; [by eapply (pm_nodup t es del) |].
        destruct Ht as [-> _]. by apply not_elem_of_nil in Hin.
      * rewrite length_app. simpl. lia.
    + rewrite without_id by done. lia.
Qed.

Lemma run_ops_ok ops : forall s es del,
  storage s es del -> Forall (fun op => valid_key (op_key op)) ops ->
  Z.of_nat (length es + length del + length ops) < 2 ^ 30 ->
  wp (run_ops ops) s (fun _ s' => consistent s').
Proof.
  induction ops as [|op ops IH]; intros s es del Hst Hv Hn; cbn [run_ops].
  - wp_step. exists es, del. split_and!; [done | by eapply storage_consistent | by eapply storage_nodup].
  - apply Forall_cons in Hv as [Hop Hv]. simpl in Hn. wp_step.
    eapply wp_mono; [apply (run_op_ok s es del op Hst Hop); lia |].
    intros _ s' (es' & del' & Hst' & Hl). eapply IH; [done | done | lia].
Qed.

End structure.
