(* ===== verification/TableProps.v ===== *)
(** * Property tables and structures: the properties *)

From stdpp Require Import base numbers list gmap.
From S2P Require Import Prelude Probe PropertyTable PropertyTableProof StructureTable.

#[local] Open Scope Z_scope.

(** ** The abstract map

    An ordered map is the list of its entries; adding a key that is present
    does nothing, removing drops the entry. *)

Inductive table_op :=
  | OpAdd (e : PropertyMapEntry)
  | OpRemove (k : Z).

Definition op_target (op : table_op) : Z := match op with OpAdd e => key e | OpRemove k => k end.

Definition spec_op (es : list PropertyMapEntry) (op : table_op) : list PropertyMapEntry :=
  match op with
  | OpAdd e => if decide (key e ∈ (key <$> es)) then es else es ++ [e]
  | OpRemove k => without k es
  end.

Section ops.
Context {SH : StringHeap}.

(** The table's operations, threading the caller's last offset. *)
Definition run_table_op (op : table_op) (off : Z) : PM Z :=
  match op with
  | OpAdd e => r ← add e off PropertyOffsetMayChange; mret r.2
  | OpRemove k => remove k;; mret off
  end.

Fixpoint run_table_ops (ops : list table_op) (off : Z) : PM Z :=
  match ops with
  | [] => mret off
  | op :: ops' => off ← run_table_op op off; run_table_ops ops' off
  end.

(** The references the table holds: one for each key in it. *)
Definition held (t : PropertyTable) (k : Z) : Z := b2z (bool_decide (k ∈ keys t)).
Definition balance (t : PropertyTable) (k : Z) : Z := ref_count t k - held t k.

(** [t] represents [es], every offset is at most [off], and the references
    it does not hold itself are counted by [bal]. *)
Definition represents (t : PropertyTable) (es : list PropertyMapEntry) (off : Z) (bal : Z -> Z) : Prop :=
  inv t /\ contents t = es /\ Forall valid_entry es /\ Forall (fun e => offset e <= off) es /\
  forall k, balance t k = bal k.

Lemma ref_alter (refs : gmap Z Z) (d k0 k : Z) :
  default 0 (partial_alter (fun m => Some (default 0 m + d)) k0 refs !! k) =
  default 0 (refs !! k) + (if decide (k = k0) then d else 0).
Proof.
  destruct (decide (k = k0)) as [-> | Hne].
  - by rewrite lookup_partial_alter_eq.
  - rewrite lookup_partial_alter_ne by congruence. lia.
Qed.

Lemma deref_alter (refs : gmap Z Z) (k0 k : Z) :
  default 0 (partial_alter (fun m => Some (default 0 m - 1)) k0 refs !! k) =
  default 0 (refs !! k) + (if decide (k = k0) then -1 else 0).
Proof. apply ref_alter. Qed.

Lemma add_represents t es off bal e :
  represents t es off bal -> valid_key (key e) -> Z.of_nat (length es) + 1 < 2 ^ 30 ->
  wp (run_table_op (OpAdd e) off) t (fun off' t' => represents t' (spec_op es (OpAdd e)) off' bal).
Proof.
  intros ([n H] & <- & Hv & Hoff & Hbal) Hk Hlen. cbn [run_table_op spec_op]. wp_step.
  destruct (decide (key e ∈ (key <$> contents t))) as [Hin | Hno].
  - apply list_elem_of_fmap in Hin as (e' & He' & Hin). rewrite list.Forall_forall in Hoff.
    eapply wp_mono; [apply (add_present n t e off _ e'); auto |].
    intros r t' (-> & _ & Hr & _). wp_step. rewrite Hr.
    split_and!; [by exists n | done | done | by apply list.Forall_forall | done].
  - rewrite (inv_count _ _ H) in Hlen.
    eapply wp_mono; [by apply (add_new n t e off PropertyOffsetMayChange) |].
    intros r t' (Hi & Hc & _ & Hr & _ & Hrefs & _). wp_step.
    split_and!; [done | done | apply Forall_app; split; [done | by constructor] | |].
    + rewrite Hr. apply Forall_app. split; [| constructor; [lia | constructor]].
      eapply Forall_impl; [exact Hoff |]. simpl. intros x Hx. lia.
    + intros k. rewrite <- Hbal. unfold balance, held, ref_count. rewrite Hrefs, ref_alter.
      unfold keys. rewrite Hc, fmap_app. simpl. destruct (decide (k = key e)) as [-> | Hne].
      * rewrite (bool_decide_true (_ ∈ _ ++ _)) by (apply elem_of_app; right; by left).
        rewrite bool_decide_false by done. simpl. lia.
      * rewrite (bool_decide_ext (k ∈ _ ++ _) (k ∈ (key <$> contents t))); [lia |].
        rewrite elem_of_app, list_elem_of_singleton. tauto.
Qed.

Lemma elem_of_without k k' es : k' ∈ (key <$> without k es) <-> k' ∈ (key <$> es) /\ k' <> k.
Proof.
  rewrite !list_elem_of_fmap. split.
  - intros (e & -> & He). apply list_elem_of_In, filter_In in He as [He Hk].
    apply list_elem_of_In in He. apply negb_true_iff, Z.eqb_neq in Hk. eauto.
  - intros [(e & -> & He) Hk]. exists e. split; [done |]. apply list_elem_of_In, filter_In.
    split; [by apply list_elem_of_In |]. by apply negb_true_iff, Z.eqb_neq.
Qed.

Lemma remove_represents t es off bal k :
  represents t es off bal -> valid_key k ->
  wp (run_table_op (OpRemove k) off) t (fun off' t' => represents t' (spec_op es (OpRemove k)) off' bal).
Proof.
  intros ([n H] & <- & Hv & Hoff & Hbal) Hk. cbn [run_table_op spec_op]. wp_step.
  eapply wp_mono; [by apply (remove_ok n) |]. intros _ t' (Hi & Hc & _ & Hrefs). wp_step.
  assert (forall P : PropertyMapEntry -> Prop, Forall P (contents t) -> Forall P (without k (contents t))) as HF.
  { intros P HP. apply list.Forall_forall. intros x Hx. apply list_elem_of_In, filter_In in Hx as [Hx _].
    rewrite list.Forall_forall in HP. by apply HP, list_elem_of_In. }
  split_and!; [done | done | by apply HF | by apply HF |].
  intros k'. rewrite <- Hbal. unfold balance, held, ref_count, keys. rewrite Hrefs, Hc.
  rewrite (bool_decide_ext _ _ (elem_of_without k k' (contents t))).
  unfold keys. destruct (decide (k ∈ (key <$> contents t))) as [Hin | Hno].
  - rewrite (deref_alter (key_refs t) k k'). destruct (decide (k' = k)) as [-> | Hne].
    + rewrite (bool_decide_true (k ∈ _)), bool_decide_false by tauto. simpl. lia.
    + rewrite (bool_decide_ext (_ /\ _) (k' ∈ (key <$> contents t))); [lia | tauto].
  - rewrite (bool_decide_ext (_ /\ _) (k' ∈ (key <$> contents t))); [lia |].
    split; [tauto |]. intros Hin. split; [done |]. by intros ->.
Qed.

Lemma spec_op_length es op : (length (spec_op es op) <= S (length es))%nat.
Proof.
  destruct op as [e | k]; simpl.
  - destruct (decide _); [lia |]. rewrite length_app. simpl. lia.
  - unfold without. pose proof (List.filter_length_le (fun e => negb (key e =? k)) es). lia.
Qed.

Lemma run_table_ops_ok ops : forall t es off bal,
  represents t es off bal -> Forall (fun op => valid_key (op_target op)) ops ->
  Z.of_nat (length es + length ops) < 2 ^ 30 ->
  wp (run_table_ops ops off) t (fun off' t' => represents t' (foldl spec_op es ops) off' bal).
Proof.
  induction ops as [|op ops IH]; intros t es off bal Hr Hv Hl; cbn [run_table_ops foldl]; [by wp_step |].
  apply Forall_cons in Hv as [Hop Hv]. simpl in Hl. wp_step.
  pose proof (spec_op_length es op) as Hs.
  eapply wp_mono; [| intros off' t' Hr'; apply (IH t' (spec_op es op) off' bal Hr' Hv); lia].
  destruct op as [e | k]; [apply add_represents; [done | done | lia] | by apply remove_represents].
Qed.

End ops.

(** ** A sample heap

    Strings at the addresses 2, 3, 4, ...; all with the same hash, so that
    every insertion probes; odd addresses are not identifiers and their hash is
    not computed yet. *)

Definition sample_heap : StringHeap := {|
  existingHash := fun _ => 5;
  hasHash := Z.even;
  isIdentifier := Z.even;
  isEmptyUnique := fun _ => false;
  characters := fun k => [k / 2]
|}.

Definition prop_entry (k o : Z) : PropertyMapEntry := mk_entry k o 0 0.

Definition sample_ops : list table_op :=
  [OpAdd (prop_entry 2 0); OpAdd (prop_entry 4 1); OpAdd (prop_entry 2 7);
   OpAdd (prop_entry 6 2); OpRemove 4; OpAdd (prop_entry 8 3); OpAdd (prop_entry 10 4)].

Definition sample_table : PropertyTable :=
  match run_table_ops (SH := sample_heap) sample_ops (-1) (create ∅ 0) with
  | Ok (_, t) => t
  | Err _ => create ∅ 0
  end.

Lemma sample_represents :
  represents (SH := sample_heap) (create ∅ 0) [] (-1) (fun _ => 0).
Proof.
  destruct (create_abs (SH := sample_heap) ∅ 0 ltac:(lia)) as (Hi & Hc & _).
  split_and!; [done | done | constructor | constructor |].
  intros k. unfold balance, held, ref_count, keys. rewrite Hc. reflexivity.
Qed.

Lemma sample_inv : inv (SH := sample_heap) sample_table /\
  contents sample_table = [prop_entry 2 0; prop_entry 6 2; prop_entry 8 3; prop_entry 10 4].
Proof.
  assert (Forall (fun op => valid_key (SH := sample_heap) (op_target op)) sample_ops) as Hv
    by (repeat constructor).
  destruct (wp_inv _ _ _ (run_table_ops_ok (SH := sample_heap) sample_ops _ _ _ _
    sample_represents Hv ltac:(vm_compute; reflexivity))) as (o & t & Heq & Hi & Hc & _).
  unfold sample_table. rewrite Heq. split; [exact Hi |]. rewrite Hc. vm_compute. reflexivity.
Qed.

(** C6: the property table implements an ordered map.  Every sequence of
    additions and removals runs without a fault: the probe loops end, the
    index and the entry array are accessed in range, growing and compacting
    included.  The table then holds exactly the entries of the abstract map,
    in insertion order, and one reference to each of their keys. *)
Theorem property_table_refines (SH : StringHeap) t es off bal ops :
  represents t es off bal -> Forall (fun op => valid_key (op_target op)) ops ->
  Z.of_nat (length es + length ops) < 2 ^ 30 ->
  wp (run_table_ops ops off) t (fun off' t' => represents t' (foldl spec_op es ops) off' bal).
Proof. apply run_table_ops_ok. Qed.

Lemma property_table_refines_witness :
  wp (run_table_ops (SH := sample_heap) sample_ops (-1)) (create ∅ 0) (fun off' t' =>
    represents (SH := sample_heap) t'
      [prop_entry 2 0; prop_entry 6 2; prop_entry 8 3; prop_entry 10 4] off' (fun _ => 0)).
Proof.
  apply (property_table_refines sample_heap _ _ _ _ sample_ops sample_represents).
  - repeat constructor.
  - simpl. lia.
Defined.

(** C7: [find] ends within one pass over the index, changes nothing, and
    returns the entry with the given key exactly when the table has one. *)
Theorem property_table_find (SH : StringHeap) t k :
  inv t -> valid_key k ->
  wp (find k) t (fun it t' => t' = t /\
    match iter_first it t with
    | Some e => e ∈ contents t /\ key e = k
    | None => k ∉ keys t
    end).
Proof.
  intros [n H] Hk. eapply wp_mono; [by apply (find_ok n) |].
  intros [[i|] s] t' (-> & j & _ & Hm); (split; [done |]); unfold iter_first; simpl in *.
  - destruct Hm as (_ & e & -> & ? & ?). done.
  - by destruct Hm.
Qed.

Lemma property_table_find_witness :
  find (SH := sample_heap) 8 sample_table = Ok ((Some 2, 7), sample_table) /\
  wp (find (SH := sample_heap) 8) sample_table (fun it t' => t' = sample_table /\
    match iter_first it sample_table with
    | Some e => e ∈ contents sample_table /\ key e = 8
    | None => 8 ∉ keys sample_table
    end).
Proof.
  split; [vm_compute; reflexivity |].
  apply (property_table_find sample_heap); [apply sample_inv | split; reflexivity].
Defined.

(** C8: [findWithString] never takes a tombstone's key for a string, ends, and
    finds an identifier with the given characters exactly when the table has
    one, provided equal strings have equal hashes; the string is no identifier
    and has no hash yet, as the function asserts. *)
Theorem property_table_find_string (SH : StringHeap) t k :
  inv t -> k <> 0 -> isIdentifier k = false -> hasHash k = false ->
  (forall e, e ∈ contents t -> characters (key e) = characters k -> isIdentifier (key e) = true ->
     existingHash (key e) = existingHash k) ->
  wp (findWithString k) t (fun it t' => t' = t /\
    match fst it with
    | Some i => exists e, aget (table t) i = Some e /\ e ∈ contents t /\
        characters (key e) = characters k /\ isIdentifier (key e) = true
    | None => forall e, e ∈ contents t -> isIdentifier (key e) = true ->
        characters (key e) <> characters k
    end).
Proof. intros [n H]. by apply (findWithString_ok n). Qed.

Lemma property_table_find_string_witness :
  wp (findWithString (SH := sample_heap) 7) sample_table (fun it t' => t' = sample_table /\
    match fst it with
    | Some i => exists e, aget (table sample_table) i = Some e /\ e ∈ contents sample_table /\
        [key e / 2] = [7 / 2] /\ Z.even (key e) = true
    | None => forall e, e ∈ contents sample_table -> Z.even (key e) = true -> [key e / 2] <> [7 / 2]
    end).
Proof.
  apply (property_table_find_string sample_heap); [apply sample_inv | lia | reflexivity | reflexivity |].
  intros. reflexivity.
Defined.

(** C9: a copy with any sufficient capacity holds the same entries in the same
    order, the same deleted offsets, and its own reference to every key,
    whether the block is copied or the entries are inserted again. *)
Theorem property_table_copy (SH : StringHeap) t c :
  inv t -> Forall valid_entry (contents t) -> m_keyCount t <= c < 2 ^ 30 ->
  exists t', copy c t = Ok t' /\ inv t' /\ contents t' = contents t /\
    m_deletedOffsets t' = m_deletedOffsets t /\ key_refs t' = refs_all (contents t) (key_refs t).
Proof. intros [n H]. by apply (copy_ok n). Qed.

Lemma property_table_copy_witness :
  exists t', copy (SH := sample_heap) 20 sample_table = Ok t' /\ inv (SH := sample_heap) t' /\
    contents t' = contents sample_table /\ m_deletedOffsets t' = m_deletedOffsets sample_table /\
    key_refs t' = refs_all (contents sample_table) (key_refs sample_table).
Proof.
  apply (property_table_copy sample_heap); [apply sample_inv | | vm_compute; split; [discriminate | reflexivity]].
  rewrite (proj2 sample_inv). repeat constructor.
Defined.

(** C10: over any property map that keeps the interface's promises, every
    sequence of property additions and deletions of a structure runs without a
    fault and leaves the storage consistent: the release assertions of
    [checkOffsetConsistency] hold, the live offsets and the free ones are
    distinct, and together they are the first slots of the storage. *)
Theorem structure_consistent (SH : StringHeap) (T It : Type) (P : PropertyMap T It)
    (s : Structure T) es del ops :
  storage s es del -> Forall (fun op => valid_key (op_key op)) ops ->
  Z.of_nat (length es + length del + length ops) < 2 ^ 30 ->
  wp (run_ops ops) s (fun _ s' => consistent s').
Proof. apply run_ops_ok. Qed.

Definition empty_structure : Structure PropertyTable := mk_structure None invalidOffset 2 false.

Lemma structure_consistent_witness :
  wp (run_ops (PM := PropertyTable_map (SH := sample_heap))
        [Put 2 0 0; Put 4 0 0; Put 6 0 0; Remove 4; Put 8 0 0]) empty_structure
     (fun _ s' => consistent (PM := PropertyTable_map (SH := sample_heap)) s').
Proof.
  apply (structure_consistent sample_heap _ _ (PropertyTable_map (SH := sample_heap)) _ [] []).
  - split; [done |]. split; [vm_compute; split; discriminate |]. split; [vm_compute; reflexivity |].
    split; [constructor | reflexivity].
  - repeat constructor.
  - simpl. lia.
Defined.

(** An index sized for a capacity is a power of two with at least twice as
    many slots as entries, without 32-bit overflow. *)
Theorem table_size_ok c :
  0 <= c < 2 ^ 30 ->
  exists n, (3 <= n <= 31)%nat /\ sizeForCapacity c = 2 ^ Z.of_nat n /\ c < Z.of_nat (2 ^ (n - 1)).
Proof. apply sizeForCapacity_ok. Qed.

Lemma table_size_ok_witness :
  exists n, (3 <= n <= 31)%nat /\ 2 ^ 11 = 2 ^ Z.of_nat n /\ 1000 < Z.of_nat (2 ^ (n - 1)).
Proof. exact (table_size_ok 1000 ltac:(lia)). Defined.

(** An odd step visits every slot of an index of [2^k] slots within [2^k]
    probes: the double hashing of the property table and of the hash sets
    cannot cycle among the full slots. *)
Theorem double_hash_visits (k : nat) h key slot :
  0 <= slot < 2 ^ Z.of_nat k ->
  exists n, Z.of_nat n < 2 ^ Z.of_nat k /\
    probe (Z.of_nat k) h (Z.lor (doubleHash key) 1) n = slot.
Proof. apply probe_visits, lor_1_odd. Qed.

Lemma double_hash_visits_witness :
  exists n, Z.of_nat n < 2 ^ Z.of_nat 4 /\ probe (Z.of_nat 4) 3 (Z.lor (doubleHash 77) 1) n = 9.
Proof. apply (double_hash_visits 4 3 77 9). lia. Defined.
