(* ===== verification/Ctype.v ===== *)
(** * ASCII character classes

    [wtf/ASCIICType.h]: bit-trick classification and case conversion of
    characters of any width, and the hexadecimal digits. *)

From Stdlib Require Import Ascii.
From stdpp Require Import base numbers list.
From S2P Require Import Prelude.

#[local] Open Scope Z_scope.

(** The code of a character constant. *)
Definition chr (c : Ascii.ascii) : Z := Z.of_N (Ascii.N_of_ascii c).
Arguments chr c%_char.

Definition isASCII (c : Z) : bool := Z.land c (Z.lnot 0x7F) =? 0.
Definition isASCIIAlpha (c : Z) : bool :=
  (chr "a" <=? Z.lor c 0x20) && (Z.lor c 0x20 <=? chr "z").
Definition isASCIIDigit (c : Z) : bool := (chr "0" <=? c) && (c <=? chr "9").
Definition isASCIIAlphanumeric (c : Z) : bool := isASCIIDigit c || isASCIIAlpha c.
Definition isASCIIHexDigit (c : Z) : bool :=
  isASCIIDigit c || ((chr "a" <=? Z.lor c 0x20) && (Z.lor c 0x20 <=? chr "f")).
Definition isASCIILower (c : Z) : bool := (chr "a" <=? c) && (c <=? chr "z").
Definition isASCIIOctalDigit (c : Z) : bool := (chr "0" <=? c) && (c <=? chr "7").
Definition isASCIIPrintable (c : Z) : bool := (chr " " <=? c) && (c <=? chr "~").
Definition isASCIISpace (c : Z) : bool :=
  (c <=? chr " ") && ((c =? chr " ") || ((c <=? 0xD) && (0x9 <=? c))).
Definition isASCIIUpper (c : Z) : bool := (chr "A" <=? c) && (c <=? chr "Z").

Definition toASCIILower (c : Z) : Z := Z.lor c (Z.shiftl (b2z (isASCIIUpper c)) 5).
Definition toASCIILowerUnchecked (character : Z) : Z := Z.lor character 0x20.
Definition toASCIIUpper (c : Z) : Z := Z.land c (Z.lnot (Z.shiftl (b2z (isASCIILower c)) 5)).

Definition toASCIIHexValue (c : Z) : Z :=
  if c <? chr "A" then c - chr "0" else Z.land (c - chr "A" + 10) 0xF.
Definition toASCIIHexValue2 (upperValue lowerValue : Z) : Z :=
  Z.lor (Z.land (Z.shiftl (toASCIIHexValue upperValue) 4) 0xF0) (toASCIIHexValue lowerValue).

Definition lowerNibbleToASCIIHexDigit (c : Z) : Z :=
  let nibble := Z.land c 0xF in
  if nibble <? 10 then chr "0" + nibble else chr "A" + nibble - 10.
Definition upperNibbleToASCIIHexDigit (c : Z) : Z :=
  let nibble := Z.land (Z.shiftr c 4) 0xF in
  if nibble <? 10 then chr "0" + nibble else chr "A" + nibble - 10.

Definition isASCIIAlphaCaselessEqual (cssCharacter character : Z) : bool :=
  toASCIILowerUnchecked cssCharacter =? character.

(** ** The characters they accept *)

Definition in_range (lo hi : Ascii.ascii) (c : Z) : bool := (chr lo <=? c) && (c <=? chr hi).
Arguments in_range (lo hi)%_char c.

(** Every character below 128 satisfies [P]. *)
Lemma ascii_forall (P : Z -> bool) :
  forallb P (Z.of_nat <$> seq 0 128) = true -> forall c, 0 <= c < 128 -> P c = true.
Proof.
  intros H c Hc. apply (proj1 (forallb_forall _ _) H), list_elem_of_In, list_elem_of_fmap.
  exists (Z.to_nat c). rewrite Z2Nat.id by lia. split; [done |]. apply elem_of_seq. lia.
Qed.

Lemma lor_32_ge c : 128 <= c -> 128 <= Z.lor c 0x20.
Proof.
  intros Hc. pose proof (Z.log2_lor c 0x20 ltac:(lia) ltac:(lia)) as Hl.
  pose proof (Z.log2_le_mono 128 c Hc) as H7. change (Z.log2 128) with 7 in H7.
  assert (0 < Z.lor c 0x20) as Hpos.
  { destruct (Z.eq_dec (Z.lor c 0x20) 0) as [H0 | H0].
    - apply Z.lor_eq_0_iff in H0. lia.
    - pose proof (proj2 (Z.lor_nonneg c 0x20) ltac:(lia)). lia. }
  pose proof (Z.log2_spec (Z.lor c 0x20) Hpos) as [Hs _].
  assert (2 ^ 7 <= 2 ^ Z.log2 (Z.lor c 0x20)) by (apply Z.pow_le_mono_r; lia). lia.
Qed.

(** The classes are the usual ranges, for characters of every width. *)
Lemma alpha_range c :
  0 <= c -> isASCIIAlpha c = in_range "a" "z" c || in_range "A" "Z" c.
Proof.
  intros Hc. destruct (Z.lt_ge_cases c 128) as [Hlt | Hge].
  - apply Bool.eqb_prop.
    apply (ascii_forall (fun c => eqb (isASCIIAlpha c) (in_range "a" "z" c || in_range "A" "Z" c)));
      [by vm_compute | lia].
  - pose proof (lor_32_ge c Hge). unfold isASCIIAlpha, in_range.
    change (chr "z") with 122. change (chr "Z") with 90.
    rewrite (proj2 (Z.leb_gt (Z.lor c 0x20) 122)), (proj2 (Z.leb_gt c 122)),
      (proj2 (Z.leb_gt c 90)) by lia. by rewrite !andb_false_r.
Qed.

Lemma hex_range c :
  0 <= c -> isASCIIHexDigit c = in_range "0" "9" c || in_range "a" "f" c || in_range "A" "F" c.
Proof.
  intros Hc. destruct (Z.lt_ge_cases c 128) as [Hlt | Hge].
  - apply Bool.eqb_prop.
    apply (ascii_forall (fun c => eqb (isASCIIHexDigit c)
      (in_range "0" "9" c || in_range "a" "f" c || in_range "A" "F" c))); [by vm_compute | lia].
  - pose proof (lor_32_ge c Hge). unfold isASCIIHexDigit, isASCIIDigit, in_range.
    change (chr "f") with 102. change (chr "F") with 70. change (chr "9") with 57.
    rewrite (proj2 (Z.leb_gt (Z.lor c 0x20) 102)), (proj2 (Z.leb_gt c 102)),
      (proj2 (Z.leb_gt c 70)), (proj2 (Z.leb_gt c 57)) by lia. by rewrite !andb_false_r.
Qed.

(** The value of a hexadecimal digit. *)
Lemma hex_value_range c : 0 <= c -> isASCIIHexDigit c = true -> 0 <= toASCIIHexValue c < 16.
Proof.
  intros Hc Hh. assert (c < 128) as Hlt.
  { rewrite hex_range in Hh by done. unfold in_range in Hh.
    change (chr "f") with 102 in Hh. change (chr "F") with 70 in Hh. change (chr "9") with 57 in Hh.
    apply orb_true_iff in Hh as [Hh | Hh]; [apply orb_true_iff in Hh as [Hh | Hh] |]; zlia. }
  assert (negb (isASCIIHexDigit c) || ((0 <=? toASCIIHexValue c) && (toASCIIHexValue c <? 16)) = true) as H.
  { apply (ascii_forall (fun c => negb (isASCIIHexDigit c) ||
      ((0 <=? toASCIIHexValue c) && (toASCIIHexValue c <? 16)))); [by vm_compute | lia]. }
  rewrite Hh in H. simpl in H. zlia.
Qed.

(** Hexadecimal digits read back. *)
Lemma nibbles_roundtrip b :
  0 <= b < 256 ->
  toASCIIHexValue2 (upperNibbleToASCIIHexDigit b) (lowerNibbleToASCIIHexDigit b) = b /\
  isASCIIHexDigit (upperNibbleToASCIIHexDigit b) = true /\
  isASCIIHexDigit (lowerNibbleToASCIIHexDigit b) = true.
Proof.
  intros Hb.
  assert (forallb (fun b => (toASCIIHexValue2 (upperNibbleToASCIIHexDigit b) (lowerNibbleToASCIIHexDigit b) =? b)
    && isASCIIHexDigit (upperNibbleToASCIIHexDigit b) && isASCIIHexDigit (lowerNibbleToASCIIHexDigit b))
    (Z.of_nat <$> seq 0 256) = true) as H by (by vm_compute).
  rewrite forallb_forall in H. specialize (H b).
  assert (In b (Z.of_nat <$> seq 0 256)) as Hin.
  { apply list_elem_of_In, list_elem_of_fmap. exists (Z.to_nat b). rewrite Z2Nat.id by lia.
    split; [done |]. apply elem_of_seq. lia. }
  specialize (H Hin). zbool. by split_and!.
Qed.
