(* ===== verification/Yarr.v ===== *)
(** * The regular expression parser

    [yarr/YarrParser.h] and [yarr/YarrSyntaxChecker.cpp]: the parser that
    turns a pattern into calls of a delegate.  The delegate is a type class
    with one method per callback; the parser's state holds the delegate, the
    position in the pattern, the error code, the nesting depth and, while a
    character class is being read, the fields of
    [CharacterClassParserDelegate]. *)

From Stdlib Require Import Ascii.
From stdpp Require Import base numbers list.
From S2P Require Import Prelude Ctype.

#[local] Open Scope Z_scope.

Inductive BuiltInCharacterClassID := DigitClassID | SpaceClassID | WordClassID | NewlineClassID.

Inductive ErrorCode :=
  | NoError | PatternTooLarge | QuantifierOutOfOrder | QuantifierWithoutAtom | QuantifierTooLarge
  | MissingParentheses | ParenthesesUnmatched | ParenthesesTypeInvalid | CharacterClassUnmatched
  | CharacterClassOutOfOrder | EscapeUnterminated.

#[global] Instance ErrorCode_eq_dec : EqDecision ErrorCode.
Proof. solve_decision. Defined.

Definition quantifyInfinite : Z := 0xFFFFFFFF.
Definition MAX_PATTERN_SIZE : Z := 1024 * 1024.

(** ** The delegate *)

Class Delegate (D : Type) := {
  assertionBOL : D -> D;
  assertionEOL : D -> D;
  assertionWordBoundary : bool -> D -> D;
  atomPatternCharacter : Z -> D -> D;
  atomBuiltInCharacterClass : BuiltInCharacterClassID -> bool -> D -> D;
  atomCharacterClassBegin : bool -> D -> D;
  atomCharacterClassAtom : Z -> D -> D;
  atomCharacterClassRange : Z -> Z -> D -> D;
  atomCharacterClassBuiltIn : BuiltInCharacterClassID -> bool -> D -> D;
  atomCharacterClassEnd : D -> D;
  atomParenthesesSubpatternBegin : bool -> D -> D;
  atomParentheticalAssertionBegin : bool -> D -> D;
  atomParenthesesEnd : D -> D;
  atomBackReference : Z -> D -> D;
  quantifyAtom : Z -> Z -> bool -> D -> D;
  disjunction : D -> D
}.

(** ** The parser *)

Inductive CharacterClassConstructionState :=
  | Empty | CachedCharacter | CachedCharacterHyphen | AfterCharacterClass | AfterCharacterClassHyphen.

Inductive yarr_fault := Read_past_end | Yarr_assert | Not_reached | Yarr_fuel.

Record Parser (D : Type) := mk_parser {
  m_delegate : D;
  m_err : ErrorCode;
  m_pos : Z;
  m_parenthesesNestingDepth : Z;
  m_state : CharacterClassConstructionState;
  m_character : Z
}.
Arguments mk_parser {D}.
Arguments m_delegate {D}.
Arguments m_err {D}.
Arguments m_pos {D}.
Arguments m_parenthesesNestingDepth {D}.
Arguments m_state {D}.
Arguments m_character {D}.

Definition eta_parser {D} (p : Parser D) : Parser D :=
  mk_parser (m_delegate p) (m_err p) (m_pos p) (m_parenthesesNestingDepth p) (m_state p)
    (m_character p).

Definition set_delegate {D} (d : D) (p : Parser D) : Parser D :=
  mk_parser d (m_err p) (m_pos p) (m_parenthesesNestingDepth p) (m_state p) (m_character p).
Definition set_err {D} (e : ErrorCode) (p : Parser D) : Parser D :=
  mk_parser (m_delegate p) e (m_pos p) (m_parenthesesNestingDepth p) (m_state p) (m_character p).
Definition set_pos {D} (i : Z) (p : Parser D) : Parser D :=
  mk_parser (m_delegate p) (m_err p) i (m_parenthesesNestingDepth p) (m_state p) (m_character p).
Definition set_depth {D} (n : Z) (p : Parser D) : Parser D :=
  mk_parser (m_delegate p) (m_err p) (m_pos p) n (m_state p) (m_character p).
Definition set_class {D} (s : CharacterClassConstructionState) (c : Z) (p : Parser D) : Parser D :=
  mk_parser (m_delegate p) (m_err p) (m_pos p) (m_parenthesesNestingDepth p) s c.

(** What [parseEscape] calls of its delegate argument. *)
Record EscapeDelegate (M : Type -> Type) := mk_escape {
  e_atomPatternCharacter : Z -> M unit;
  e_atomBuiltInCharacterClass : BuiltInCharacterClassID -> bool -> M unit;
  e_assertionWordBoundary : bool -> M unit;
  e_atomBackReference : Z -> M unit
}.
Arguments mk_escape {M}.
Arguments e_atomPatternCharacter {M}.
Arguments e_atomBuiltInCharacterClass {M}.
Arguments e_assertionWordBoundary {M}.
Arguments e_atomBackReference {M}.

Section parser.
Context {D : Type} {HD : Delegate D}.
(** The characters of the pattern and the largest back reference. *)
Context (m_data : list Z) (m_backReferenceLimit : Z).

Abbreviation YM := (M yarr_fault (Parser D)).

Definition m_size : Z := Z.of_nat (length m_data).
Definition loop_fuel : nat := S (length m_data).

Definition y_assert (b : bool) : YM unit := if b then mret tt else mfail Yarr_assert.
Definition throw (e : ErrorCode) : YM unit := mmod (set_err e).
Definition emit (f : D -> D) : YM unit := mmod (fun p => set_delegate (f (m_delegate p)) p).
Definition no_error : YM bool := e ← mgets m_err; mret (bool_decide (e = NoError)).
Definition assert_no_error : YM unit := b ← no_error; y_assert b.

(** *** Reading the pattern *)

Definition saveState : YM Z := mgets m_pos.
Definition restoreState (state : Z) : YM unit := mmod (set_pos state).

Definition atEndOfPattern : YM bool :=
  i ← mgets m_pos;
  y_assert (i <=? m_size);;
  mret (i =? m_size).

Definition peek : YM Z := i ← mgets m_pos; of_opt Read_past_end (aget m_data i).

Definition consume : YM Z :=
  i ← mgets m_pos;
  c ← of_opt Read_past_end (aget m_data i);
  mmod (set_pos (i + 1));;
  mret c.

Definition peekIsDigit : YM bool :=
  e ← atEndOfPattern;
  if (e : bool) then mret false else c ← peek; mret (isASCIIDigit c).

Definition peekDigit : YM Z :=
  d ← peekIsDigit; y_assert d;; c ← peek; mret (c - chr "0").

Definition consumeDigit : YM Z :=
  d ← peekIsDigit; y_assert d;; c ← consume; mret (c - chr "0").

Fixpoint consumeNumber_loop (fuel : nat) (n : Z) : YM Z :=
  match fuel with
  | O => mfail Yarr_fuel
  | S fuel' =>
      d ← peekIsDigit;
      if (d : bool) then
        digit ← peekDigit;
        let newValue := u32 (n * 10 + digit) in
        if n <=? newValue then consume;; consumeNumber_loop fuel' newValue else mret n
      else mret n
  end.

Definition consumeNumber : YM Z := n ← consumeDigit; consumeNumber_loop loop_fuel n.

Fixpoint consumeOctal_loop (fuel : nat) (n : Z) : YM Z :=
  match fuel with
  | O => mfail Yarr_fuel
  | S fuel' =>
      if n <? 32 then
        e ← atEndOfPattern;
        if (e : bool) then mret n
        else
          c ← peek;
          if isASCIIOctalDigit c then d ← consumeDigit; consumeOctal_loop fuel' (u32 (n * 8 + d))
          else mret n
      else mret n
  end.

Definition consumeOctal : YM Z :=
  c ← peek;
  y_assert (isASCIIOctalDigit c);;
  n ← consumeDigit;
  consumeOctal_loop loop_fuel n.

Definition tryConsume (ch : Z) : YM bool :=
  e ← atEndOfPattern;
  if (e : bool) then mret false
  else
    c ← peek;
    if c =? ch then i ← mgets m_pos; mmod (set_pos (i + 1));; mret true else mret false.

Fixpoint tryConsumeHex_loop (count : nat) (state n : Z) : YM Z :=
  match count with
  | O => mret n
  | S count' =>
      e ← atEndOfPattern;
      c ← (if (e : bool) then mret (-1) else peek);
      if (e : bool) || negb (isASCIIHexDigit c) then restoreState state;; mret (-1)
      else
        c ← consume;
        tryConsumeHex_loop count' state (Z.lor (Z.shiftl n 4) (toASCIIHexValue c))
  end.

Definition tryConsumeHex (count : nat) : YM Z :=
  state ← saveState; tryConsumeHex_loop count state 0.

(** *** Character classes: [CharacterClassParserDelegate] *)

Definition class_begin (invert : bool) : YM unit := emit (atomCharacterClassBegin invert).

Definition set_class_state (s : CharacterClassConstructionState) : YM unit :=
  mmod (fun p => set_class s (m_character p) p).
Definition flush_character : YM unit :=
  c ← mgets m_character; emit (atomCharacterClassAtom c).

Definition class_atomPatternCharacter (ch : Z) (hyphenIsRange : bool) : YM unit :=
  s ← mgets m_state;
  match s with
  | AfterCharacterClass =>
      if hyphenIsRange && (ch =? chr "-") then
        emit (atomCharacterClassAtom (chr "-"));; set_class_state AfterCharacterClassHyphen
      else mmod (set_class CachedCharacter ch)
  | Empty => mmod (set_class CachedCharacter ch)
  | CachedCharacter =>
      if hyphenIsRange && (ch =? chr "-") then set_class_state CachedCharacterHyphen
      else flush_character;; mmod (set_class CachedCharacter ch)
  | CachedCharacterHyphen =>
      c ← mgets m_character;
      if ch <? c then throw CharacterClassOutOfOrder
      else emit (atomCharacterClassRange c ch);; set_class_state Empty
  | AfterCharacterClassHyphen =>
      emit (atomCharacterClassAtom ch);; set_class_state Empty
  end.

Definition class_atomBuiltInCharacterClass (classID : BuiltInCharacterClassID) (invert : bool) : YM unit :=
  s ← mgets m_state;
  match s with
  | CachedCharacter =>
      flush_character;;
      set_class_state AfterCharacterClass;; emit (atomCharacterClassBuiltIn classID invert)
  | Empty | AfterCharacterClass =>
      set_class_state AfterCharacterClass;; emit (atomCharacterClassBuiltIn classID invert)
  | CachedCharacterHyphen =>
      flush_character;; emit (atomCharacterClassAtom (chr "-"));;
      emit (atomCharacterClassBuiltIn classID invert);; set_class_state Empty
  | AfterCharacterClassHyphen =>
      emit (atomCharacterClassBuiltIn classID invert);; set_class_state Empty
  end.

Definition class_end : YM unit :=
  s ← mgets m_state;
  (match s with
   | CachedCharacter => flush_character
   | CachedCharacterHyphen => flush_character;; emit (atomCharacterClassAtom (chr "-"))
   | _ => mret tt
   end);;
  emit atomCharacterClassEnd.

Definition class_delegate : EscapeDelegate (M yarr_fault (Parser D)) := {|
  e_atomPatternCharacter := fun ch => class_atomPatternCharacter ch false;
  e_atomBuiltInCharacterClass := class_atomBuiltInCharacterClass;
  e_assertionWordBoundary := fun _ => mfail Not_reached;
  e_atomBackReference := fun _ => mfail Not_reached
|}.

(** The parser's own delegate as the target of escapes. *)
Definition member_delegate : EscapeDelegate (M yarr_fault (Parser D)) := {|
  e_atomPatternCharacter := fun ch => emit (atomPatternCharacter ch);
  e_atomBuiltInCharacterClass := fun classID invert => emit (atomBuiltInCharacterClass classID invert);
  e_assertionWordBoundary := fun invert => emit (assertionWordBoundary invert);
  e_atomBackReference := fun n => emit (atomBackReference n)
|}.

(** *** Escapes *)

(** An octal escape, the target of two cases. *)
Definition escape_octal (delegate : EscapeDelegate (M yarr_fault (Parser D))) : YM bool :=
  n ← consumeOctal; e_atomPatternCharacter delegate (u16 n);; mret true.

Definition escape_decimal (inCharacterClass : bool)
    (delegate : EscapeDelegate (M yarr_fault (Parser D))) : YM bool :=
  done ← (if inCharacterClass then mret false
          else
            state ← saveState;
            backReference ← consumeNumber;
            if backReference <=? m_backReferenceLimit then
              e_atomBackReference delegate backReference;; mret true
            else restoreState state;; mret false);
  if (done : bool) then mret true
  else
    c ← peek;
    if chr "8" <=? c then e_atomPatternCharacter delegate (chr "\");; mret true
    else escape_octal delegate.

Definition escape_control (inCharacterClass : bool)
    (delegate : EscapeDelegate (M yarr_fault (Parser D))) : YM bool :=
  state ← saveState;
  consume;;
  e ← atEndOfPattern;
  done ← (if (e : bool) then mret false
          else
            control ← consume;
            if (if inCharacterClass then isASCIIAlphanumeric control || (control =? chr "_")
                else isASCIIAlpha control)
            then e_atomPatternCharacter delegate (Z.land control 0x1f);; mret true
            else mret false);
  if (done : bool) then mret true
  else restoreState state;; e_atomPatternCharacter delegate (chr "\");; mret true.

Definition escape_hex (count : nat) (c : Z)
    (delegate : EscapeDelegate (M yarr_fault (Parser D))) : YM bool :=
  consume;;
  x ← tryConsumeHex count;
  e_atomPatternCharacter delegate (if x =? -1 then c else u16 x);;
  mret true.

Definition escape_char (c : Z) (delegate : EscapeDelegate (M yarr_fault (Parser D))) : YM bool :=
  consume;; e_atomPatternCharacter delegate c;; mret true.

Definition escape_class (classID : BuiltInCharacterClassID) (invert : bool)
    (delegate : EscapeDelegate (M yarr_fault (Parser D))) : YM bool :=
  consume;; e_atomBuiltInCharacterClass delegate classID invert;; mret true.

Definition escape_boundary (inCharacterClass : bool) (c : Z) (invert : bool)
    (delegate : EscapeDelegate (M yarr_fault (Parser D))) : YM bool :=
  consume;;
  if inCharacterClass then e_atomPatternCharacter delegate c;; mret true
  else e_assertionWordBoundary delegate invert;; mret false.

(** The [switch] on the character after the backslash. *)
Definition escape_switch (inCharacterClass : bool)
    (delegate : EscapeDelegate (M yarr_fault (Parser D))) (c : Z) : YM bool :=
  if c =? chr "b" then escape_boundary inCharacterClass 8 false delegate
  else if c =? chr "B" then escape_boundary inCharacterClass (chr "B") true delegate
  else if c =? chr "d" then escape_class DigitClassID false delegate
  else if c =? chr "s" then escape_class SpaceClassID false delegate
  else if c =? chr "w" then escape_class WordClassID false delegate
  else if c =? chr "D" then escape_class DigitClassID true delegate
  else if c =? chr "S" then escape_class SpaceClassID true delegate
  else if c =? chr "W" then escape_class WordClassID true delegate
  else if (chr "1" <=? c) && (c <=? chr "9") then escape_decimal inCharacterClass delegate
  else if c =? chr "0" then escape_octal delegate
  else if c =? chr "f" then escape_char 12 delegate
  else if c =? chr "n" then escape_char 10 delegate
  else if c =? chr "r" then escape_char 13 delegate
  else if c =? chr "t" then escape_char 9 delegate
  else if c =? chr "v" then escape_char 11 delegate
  else if c =? chr "c" then escape_control inCharacterClass delegate
  else if c =? chr "x" then escape_hex 2 (chr "x") delegate
  else if c =? chr "u" then escape_hex 4 (chr "u") delegate
  else c ← consume; e_atomPatternCharacter delegate c;; mret true.

Definition parseEscape (inCharacterClass : bool)
    (delegate : EscapeDelegate (M yarr_fault (Parser D))) : YM bool :=
  assert_no_error;;
  c ← peek;
  y_assert (c =? chr "\");;
  consume;;
  e ← atEndOfPattern;
  if (e : bool) then throw EscapeUnterminated;; mret false
  else c ← peek; escape_switch inCharacterClass delegate c.

Definition parseAtomEscape : YM bool := parseEscape false member_delegate.
Definition parseCharacterClassEscape : YM unit := parseEscape true class_delegate;; mret tt.

(** *** Tokens *)

Fixpoint parseCharacterClass_loop (fuel : nat) : YM unit :=
  match fuel with
  | O => mfail Yarr_fuel
  | S fuel' =>
      e ← atEndOfPattern;
      if (e : bool) then throw CharacterClassUnmatched
      else
        c ← peek;
        if c =? chr "]" then consume;; class_end
        else
          (if c =? chr "\" then parseCharacterClassEscape
           else ch ← consume; class_atomPatternCharacter ch true);;
          b ← no_error;
          if (b : bool) then parseCharacterClass_loop fuel' else mret tt
  end.

Definition parseCharacterClass : YM unit :=
  assert_no_error;;
  c ← peek;
  y_assert (c =? chr "[");;
  consume;;
  mmod (set_class Empty 0);;
  invert ← tryConsume (chr "^");
  class_begin invert;;
  parseCharacterClass_loop loop_fuel.

Definition parseParenthesesBegin : YM unit :=
  assert_no_error;;
  c ← peek;
  y_assert (c =? chr "(");;
  consume;;
  q ← tryConsume (chr "?");
  let deeper := mmod (fun p => set_depth (u32 (m_parenthesesNestingDepth p + 1)) p) in
  if (q : bool) then
    e ← atEndOfPattern;
    if (e : bool) then throw ParenthesesTypeInvalid
    else
      c ← consume;
      (if c =? chr ":" then emit (atomParenthesesSubpatternBegin false)
       else if c =? chr "=" then emit (atomParentheticalAssertionBegin false)
       else if c =? chr "!" then emit (atomParentheticalAssertionBegin true)
       else throw ParenthesesTypeInvalid);;
      deeper
  else emit (atomParenthesesSubpatternBegin true);; deeper.

Definition parseParenthesesEnd : YM unit :=
  assert_no_error;;
  c ← peek;
  y_assert (c =? chr ")");;
  consume;;
  d ← mgets m_parenthesesNestingDepth;
  (if 0 <? d then emit atomParenthesesEnd else throw ParenthesesUnmatched);;
  mmod (fun p => set_depth (u32 (m_parenthesesNestingDepth p - 1)) p).

Definition parseQuantifier (lastTokenWasAnAtom : bool) (min max : Z) : YM unit :=
  assert_no_error;;
  y_assert (min <=? max);;
  if min =? quantifyInfinite then throw QuantifierTooLarge
  else if lastTokenWasAnAtom then
    lazy ← tryConsume (chr "?"); emit (quantifyAtom min max (negb lazy))
  else throw QuantifierWithoutAtom.

(** The default case of the token [switch]. *)
Definition plain_character : YM bool := c ← consume; emit (atomPatternCharacter c);; mret true.

(** A braced quantifier; when it is not complete, the brace is a character. *)
Definition parseBraces (lastTokenWasAnAtom : bool) : YM bool :=
  state ← saveState;
  consume;;
  d ← peekIsDigit;
  matched ← (if (d : bool) then
               min ← consumeNumber;
               comma ← tryConsume (chr ",");
               max ← (if (comma : bool) then
                        d ← peekIsDigit;
                        if (d : bool) then consumeNumber else mret quantifyInfinite
                      else mret min);
               close ← tryConsume (chr "}");
               if (close : bool) then
                 (if min <=? max then parseQuantifier lastTokenWasAnAtom min max
                  else throw QuantifierOutOfOrder);;
                 mret true
               else mret false
             else mret false);
  if (matched : bool) then mret false else restoreState state;; plain_character.

(** One iteration of the token loop: the new [lastTokenWasAnAtom]. *)
Definition parseToken (lastTokenWasAnAtom : bool) (c : Z) : YM bool :=
  if c =? chr "|" then consume;; emit disjunction;; mret false
  else if c =? chr "(" then parseParenthesesBegin;; mret false
  else if c =? chr ")" then parseParenthesesEnd;; mret true
  else if c =? chr "^" then consume;; emit assertionBOL;; mret false
  else if c =? chr "$" then consume;; emit assertionEOL;; mret false
  else if c =? chr "." then consume;; emit (atomBuiltInCharacterClass NewlineClassID true);; mret true
  else if c =? chr "[" then parseCharacterClass;; mret true
  else if c =? chr "\" then parseAtomEscape
  else if c =? chr "*" then
    consume;; parseQuantifier lastTokenWasAnAtom 0 quantifyInfinite;; mret false
  else if c =? chr "+" then
    consume;; parseQuantifier lastTokenWasAnAtom 1 quantifyInfinite;; mret false
  else if c =? chr "?" then
    consume;; parseQuantifier lastTokenWasAnAtom 0 1;; mret false
  else if c =? chr "{" then parseBraces lastTokenWasAnAtom
  else plain_character.

Fixpoint parseTokens_loop (fuel : nat) (lastTokenWasAnAtom : bool) : YM unit :=
  match fuel with
  | O => mfail Yarr_fuel
  | S fuel' =>
      e ← atEndOfPattern;
      if (e : bool) then
        d ← mgets m_parenthesesNestingDepth;
        mwhen (0 <? d) (throw MissingParentheses)
      else
        c ← peek;
        atom ← parseToken lastTokenWasAnAtom c;
        b ← no_error;
        if (b : bool) then parseTokens_loop fuel' atom else mret tt
  end.

Definition parseTokens : YM unit := parseTokens_loop loop_fuel false.

(** [Parser::parse]: the error code instead of the message it selects. *)
Definition parse_pattern : YM ErrorCode :=
  (if MAX_PATTERN_SIZE <? m_size then throw PatternTooLarge else parseTokens);;
  e ← atEndOfPattern;
  b ← no_error;
  y_assert (e || negb b);;
  mgets m_err.

Definition init_parser (d : D) : Parser D := mk_parser d NoError 0 0 Empty 0.

End parser.

(** [Yarr::parse]: the error code and the delegate after the calls. *)
Definition parse {D} {HD : Delegate D} (d : D) (pattern : list Z) (backReferenceLimit : Z)
    : res yarr_fault (ErrorCode * D) :=
  match parse_pattern pattern backReferenceLimit (init_parser d) with
  | Ok (e, p) => Ok (e, m_delegate p)
  | Err f => Err f
  end.

(** [SyntaxChecker]: a delegate without state. *)
#[global] Instance SyntaxChecker : Delegate unit := {|
  assertionBOL := fun d => d;
  assertionEOL := fun d => d;
  assertionWordBoundary := fun _ d => d;
  atomPatternCharacter := fun _ d => d;
  atomBuiltInCharacterClass := fun _ _ d => d;
  atomCharacterClassBegin := fun _ d => d;
  atomCharacterClassAtom := fun _ d => d;
  atomCharacterClassRange := fun _ _ d => d;
  atomCharacterClassBuiltIn := fun _ _ d => d;
  atomCharacterClassEnd := fun d => d;
  atomParenthesesSubpatternBegin := fun _ d => d;
  atomParentheticalAssertionBegin := fun _ d => d;
  atomParenthesesEnd := fun d => d;
  atomBackReference := fun _ d => d;
  quantifyAtom := fun _ _ _ d => d;
  disjunction := fun d => d
|}.

Definition checkSyntax (pattern : list Z) : res yarr_fault ErrorCode :=
  match parse tt pattern quantifyInfinite with
  | Ok (e, _) => Ok e
  | Err f => Err f
  end.

(** ** The counters of [YarrPattern]

    They decide whether [YarrPattern::compile] parses the pattern again. *)
Record PatternCounts := mk_counts { m_numSubpatterns : Z; m_maxBackReference : Z }.

Definition reset : PatternCounts := mk_counts 0 0.

Definition containsIllegalBackReference (p : PatternCounts) : bool :=
  m_numSubpatterns p <? m_maxBackReference p.

(** What the constructor's callbacks do to the counters. *)
Definition count_subpattern (capture : bool) (d : PatternCounts) : PatternCounts :=
  if capture then mk_counts (u32 (m_numSubpatterns d + 1)) (m_maxBackReference d) else d.
Definition count_back_reference (subpatternId : Z) (d : PatternCounts) : PatternCounts :=
  mk_counts (m_numSubpatterns d) (Z.max (m_maxBackReference d) subpatternId).

(** The counters alone. *)
#[global] Instance CountsDelegate : Delegate PatternCounts := {|
  assertionBOL := fun d => d;
  assertionEOL := fun d => d;
  assertionWordBoundary := fun _ d => d;
  atomPatternCharacter := fun _ d => d;
  atomBuiltInCharacterClass := fun _ _ d => d;
  atomCharacterClassBegin := fun _ d => d;
  atomCharacterClassAtom := fun _ d => d;
  atomCharacterClassRange := fun _ _ d => d;
  atomCharacterClassBuiltIn := fun _ _ d => d;
  atomCharacterClassEnd := fun d => d;
  atomParenthesesSubpatternBegin := count_subpattern;
  atomParentheticalAssertionBegin := fun _ d => d;
  atomParenthesesEnd := fun d => d;
  atomBackReference := count_back_reference;
  quantifyAtom := fun _ _ _ d => d;
  disjunction := fun d => d
|}.
