(* ===== verification/YarrProof.v ===== *)
(** * The regular expression parser: safety and the delegate protocol

    The parser never reads outside the pattern, never fails an assertion and
    consumes a character in every round of its loops.  The calls it makes obey
    the protocol the delegate relies on (the comment on [Yarr::parse]), given
    here as an automaton over the trace of calls. *)

From Stdlib Require Import Ascii.
From stdpp Require Import base numbers list.
From S2P Require Import Prelude Ctype Yarr.

#[local] Open Scope Z_scope.

(** ** Traces *)

Inductive event :=
  | EvBOL | EvEOL | EvWordBoundary (invert : bool)
  | EvPatternCharacter (ch : Z)
  | EvBuiltIn (classID : BuiltInCharacterClassID) (invert : bool)
  | EvClassBegin (invert : bool) | EvClassAtom (ch : Z) | EvClassRange (begin_ end_ : Z)
  | EvClassBuiltIn (classID : BuiltInCharacterClassID) (invert : bool) | EvClassEnd
  | EvSubpatternBegin (capture : bool) | EvAssertionBegin (invert : bool) | EvParenthesesEnd
  | EvBackReference (n : Z) | EvQuantify (min max : Z) (greedy : bool) | EvDisjunction.

(** The method a call invokes. *)
Definition run_event {D} {HD : Delegate D} (d : D) (e : event) : D :=
  match e with
  | EvBOL => assertionBOL d
  | EvEOL => assertionEOL d
  | EvWordBoundary b => assertionWordBoundary b d
  | EvPatternCharacter c => atomPatternCharacter c d
  | EvBuiltIn i b => atomBuiltInCharacterClass i b d
  | EvClassBegin b => atomCharacterClassBegin b d
  | EvClassAtom c => atomCharacterClassAtom c d
  | EvClassRange a b => atomCharacterClassRange a b d
  | EvClassBuiltIn i b => atomCharacterClassBuiltIn i b d
  | EvClassEnd => atomCharacterClassEnd d
  | EvSubpatternBegin b => atomParenthesesSubpatternBegin b d
  | EvAssertionBegin b => atomParentheticalAssertionBegin b d
  | EvParenthesesEnd => atomParenthesesEnd d
  | EvBackReference n => atomBackReference n d
  | EvQuantify a b g => quantifyAtom a b g d
  | EvDisjunction => disjunction d
  end.

(** The delegate that records its calls. *)
#[global] Instance Recorder : Delegate (list event) := {|
  assertionBOL := fun d => d ++ [EvBOL];
  assertionEOL := fun d => d ++ [EvEOL];
  assertionWordBoundary := fun b d => d ++ [EvWordBoundary b];
  atomPatternCharacter := fun c d => d ++ [EvPatternCharacter c];
  atomBuiltInCharacterClass := fun i b d => d ++ [EvBuiltIn i b];
  atomCharacterClassBegin := fun b d => d ++ [EvClassBegin b];
  atomCharacterClassAtom := fun c d => d ++ [EvClassAtom c];
  atomCharacterClassRange := fun a b d => d ++ [EvClassRange a b];
  atomCharacterClassBuiltIn := fun i b d => d ++ [EvClassBuiltIn i b];
  atomCharacterClassEnd := fun d => d ++ [EvClassEnd];
  atomParenthesesSubpatternBegin := fun b d => d ++ [EvSubpatternBegin b];
  atomParentheticalAssertionBegin := fun b d => d ++ [EvAssertionBegin b];
  atomParenthesesEnd := fun d => d ++ [EvParenthesesEnd];
  atomBackReference := fun n d => d ++ [EvBackReference n];
  quantifyAtom := fun a b g d => d ++ [EvQuantify a b g];
  disjunction := fun d => d ++ [EvDisjunction]
|}.

(** ** The protocol *)

Record proto := mk_proto {
  p_depth : nat;       (* open parentheses *)
  p_class : bool;      (* inside a character class *)
  p_atom : bool        (* the last term was an atom, so a quantifier may follow *)
}.

Definition is_uchar (c : Z) : bool := (0 <=? c) && (c <? 65536).
(** The classes that have an escape. *)
Definition is_escape (i : BuiltInCharacterClassID) : bool := match i with NewlineClassID => false | _ => true end.

Definition pstep (limit : Z) (s : proto) (e : event) : option proto :=
  let outside (s' : option proto) := if p_class s then None else s' in
  let inside (b : bool) := if p_class s && b then Some s else None in
  let atom := mk_proto (p_depth s) false true in
  let nonatom := mk_proto (p_depth s) false false in
  match e with
  | EvBOL | EvEOL | EvWordBoundary _ | EvDisjunction => outside (Some nonatom)
  | EvPatternCharacter c => outside (if is_uchar c then Some atom else None)
  | EvBuiltIn _ _ => outside (Some atom)
  | EvClassBegin _ => outside (Some (mk_proto (p_depth s) true false))
  | EvClassAtom c => inside (is_uchar c)
  | EvClassRange a b => inside (is_uchar a && is_uchar b && (a <=? b))
  | EvClassBuiltIn i _ => inside (is_escape i)
  | EvClassEnd => if p_class s then Some atom else None
  | EvSubpatternBegin _ | EvAssertionBegin _ => outside (Some (mk_proto (S (p_depth s)) false false))
  | EvParenthesesEnd =>
      outside (match p_depth s with O => None | S d => Some (mk_proto d false true) end)
  | EvBackReference n => outside (if (1 <=? n) && (n <=? limit) then Some atom else None)
  | EvQuantify a b _ =>
      outside (if p_atom s && (0 <=? a) && (a <=? b) && (a <? quantifyInfinite) && (b <=? quantifyInfinite)
               then Some nonatom else None)
  end.

Definition prun (limit : Z) (t : list event) : option proto :=
  foldl (fun s e => s ← s; pstep limit s e) (Some (mk_proto 0 false false)) t.

Lemma prun_snoc limit t e s :
  prun limit t = Some s -> prun limit (t ++ [e]) = pstep limit s e.
Proof. intros H. unfold prun in *. rewrite foldl_app, H. done. Qed.

Section proof.
Context (data : list Z) (limit : Z).
Hypothesis Hdata : Forall (fun c => is_uchar c = true) data.

Abbreviation size := (m_size data).

(** ** Reading

    For every delegate. *)

Section reading.
Context {D : Type}.
Abbreviation P := (Parser D).
Implicit Types (p : P).

Definition in_pattern p : Prop := 0 <= m_pos p <= size.

Lemma wp_end {A} p (f : bool -> M yarr_fault P A) Q :
  in_pattern p -> (m_pos p = size -> wp (f true) p Q) -> (m_pos p < size -> wp (f false) p Q) ->
  wp (atEndOfPattern data ≫= f) p Q.
Proof.
  intros [H0 H1] Ht Hf. unfold atEndOfPattern, y_assert. do 3 wp_step.
  rewrite (proj2 (Z.leb_le _ _) H1). do 3 wp_step.
  destruct (Z.eqb_spec (m_pos p) size); [by apply Ht | apply Hf; lia].
Qed.

Lemma data_at p : 0 <= m_pos p < size -> exists c, aget data (m_pos p) = Some c /\ 0 <= c < 65536.
Proof.
  intros Hp. destruct (aget_is_Some data (m_pos p)) as [c Hc]; [done |]. exists c. split; [done |].
  apply aget_Some in Hc as [_ Hc]. pose proof (Forall_lookup_1 _ _ _ _ Hdata Hc) as Hu.
  unfold is_uchar in Hu. zlia.
Qed.

Lemma wp_peek {A} p (f : Z -> M yarr_fault P A) Q :
  0 <= m_pos p < size ->
  (forall c, aget data (m_pos p) = Some c -> 0 <= c < 65536 -> wp (f c) p Q) ->
  wp (peek data ≫= f) p Q.
Proof.
  intros Hp Hf. destruct (data_at p Hp) as (c & Hc & Hr). unfold peek. do 3 wp_step.
  rewrite Hc. wp_step. by apply Hf.
Qed.

Lemma wp_consume {A} p (f : Z -> M yarr_fault P A) Q :
  0 <= m_pos p < size ->
  (forall c, aget data (m_pos p) = Some c -> 0 <= c < 65536 -> wp (f c) (set_pos (m_pos p + 1) p) Q) ->
  wp (consume data ≫= f) p Q.
Proof.
  intros Hp Hf. destruct (data_at p Hp) as (c & Hc & Hr). unfold consume. do 3 wp_step.
  rewrite Hc. do 4 wp_step. by apply Hf.
Qed.

Lemma wp_assert {A} (b : bool) p (m : M yarr_fault P A) Q :
  b = true -> wp m p Q -> wp (y_assert b ;; m) p Q.
Proof. by intros ->. Qed.

Lemma wp_peekIsDigit {A} p (f : bool -> M yarr_fault P A) Q :
  in_pattern p ->
  (m_pos p < size -> (exists c, aget data (m_pos p) = Some c /\ isASCIIDigit c = true) -> wp (f true) p Q) ->
  wp (f false) p Q -> wp (peekIsDigit data ≫= f) p Q.
Proof.
  intros Hp Ht Hf. unfold peekIsDigit. wp_step. apply wp_end; [done | intros; by wp_step |].
  intros Hlt. destruct Hp. apply wp_peek; [done |]. intros c Hc _. wp_step.
  destruct (isASCIIDigit c) eqn:Hd; [apply Ht; eauto | done].
Qed.

Lemma digit_val c : isASCIIDigit c = true -> 0 <= c - chr "0" <= 9.
Proof. unfold isASCIIDigit. change (chr "0") with 48. change (chr "9") with 57. intros. zlia. Qed.

(** The test passes where it passed before. *)
Lemma wp_isDigit {A} p c (f : bool -> M yarr_fault P A) Q :
  in_pattern p -> aget data (m_pos p) = Some c -> isASCIIDigit c = true ->
  wp (f true) p Q -> wp (peekIsDigit data ≫= f) p Q.
Proof.
  intros Hp Hc Hd Hf. unfold peekIsDigit. wp_step.
  assert (m_pos p < size).
  { apply aget_Some in Hc as [? Hc]. apply lookup_lt_Some in Hc. unfold m_size. lia. }
  destruct Hp. apply wp_end; [done | lia |]. intros _.
  apply wp_peek; [done |]. intros c' Hc' _. wp_step. by rewrite Hc in Hc'; simplify_eq; rewrite Hd.
Qed.

Lemma wp_consumeDigit {A} p c (f : Z -> M yarr_fault P A) Q :
  in_pattern p -> aget data (m_pos p) = Some c -> isASCIIDigit c = true ->
  (m_pos p < size -> wp (f (c - chr "0")) (set_pos (m_pos p + 1) p) Q) ->
  wp (consumeDigit data ≫= f) p Q.
Proof.
  intros Hp Hc Hd Hf. unfold consumeDigit. wp_step. eapply wp_isDigit; [done | done | done |].
  assert (m_pos p < size).
  { apply aget_Some in Hc as [? Hc]. apply lookup_lt_Some in Hc. unfold m_size. lia. }
  destruct Hp. apply wp_assert; [done |]. apply wp_consume; [done |]. intros c' Hc' _. wp_step.
  rewrite Hc in Hc'. simplify_eq. by apply Hf.
Qed.

Lemma set_pos_set_pos i j p : set_pos i (set_pos j p) = set_pos i p.
Proof. done. Qed.
Lemma set_pos_id p : set_pos (m_pos p) p = p.
Proof. by destruct p. Qed.

(** The characters from [i] to [j] are digits. *)
Definition digits (i j : Z) : Prop :=
  forall k, i <= k < j -> exists c, aget data k = Some c /\ isASCIIDigit c = true.

Lemma digits_cons i j c :
  aget data i = Some c -> isASCIIDigit c = true -> digits (i + 1) j -> digits i j.
Proof. intros Hc Hd H k Hk. destruct (decide (k = i)) as [-> |]; [eauto | apply H; lia]. Qed.

Lemma digits_nil i : digits i i.
Proof. intros k Hk. lia. Qed.

(** A run of digits: the position moves on, the value fits 32 bits. *)
Lemma consumeNumber_loop_ok fuel : forall p n (Q : Z -> P -> Prop),
  in_pattern p -> 0 <= n < 2 ^ 32 -> size - m_pos p < Z.of_nat fuel ->
  (forall n' i, n <= n' < 2 ^ 32 -> m_pos p <= i <= size -> digits (m_pos p) i -> Q n' (set_pos i p)) ->
  wp (consumeNumber_loop data fuel n) p Q.
Proof.
  induction fuel as [|fuel IH]; intros p n Q Hp Hn Hf HQ; [destruct Hp; lia |].
  cbn [consumeNumber_loop]. pose proof Hp as [? ?].
  apply wp_peekIsDigit; [done | |].
  - intros Hlt (c & Hc & Hd). unfold peekDigit. wp_step. eapply wp_isDigit; [done | done | done |].
    apply wp_assert; [done |]. apply wp_peek; [lia |]. intros c' Hc' _. wp_step. cbv zeta.
    set (v := u32 _). assert (0 <= v < 2 ^ 32) by apply u32_range. wp_step.
    + zbool. apply wp_consume; [lia |]. intros _ _ _.
      apply IH; [split; simpl; lia | lia | simpl; lia |].
      intros n' i Hn' Hi Hdg. simpl in Hi. rewrite set_pos_set_pos. apply HQ; try lia.
      by apply (digits_cons _ _ c).
    + wp_step. rewrite <- (set_pos_id p). apply HQ; (lia || apply digits_nil).
  - wp_step. rewrite <- (set_pos_id p). apply HQ; (lia || apply digits_nil).
Qed.

Lemma fuel_enough p : in_pattern p -> size - m_pos p < Z.of_nat (loop_fuel data).
Proof. intros [? ?]. unfold loop_fuel, m_size. lia. Qed.

Lemma wp_consumeNumber {A} p c (f : Z -> M yarr_fault P A) Q :
  in_pattern p -> aget data (m_pos p) = Some c -> isASCIIDigit c = true ->
  (forall n i, c - chr "0" <= n < 2 ^ 32 -> m_pos p < i <= size -> digits (m_pos p) i ->
     wp (f n) (set_pos i p) Q) ->
  wp (consumeNumber data ≫= f) p Q.
Proof.
  intros Hp Hc Hd Hf. unfold consumeNumber. wp_step. eapply wp_consumeDigit; [done | done | done |].
  intros Hlt. pose proof (digit_val c Hd). pose proof Hp as [? ?].
  assert (in_pattern (set_pos (m_pos p + 1) p)) as Hp1 by (split; simpl; lia).
  apply consumeNumber_loop_ok; [done | lia | by apply fuel_enough |].
  intros n' i Hn' Hi Hdg. simpl in Hi. rewrite set_pos_set_pos. apply Hf; try lia.
  by eapply digits_cons.
Qed.

Lemma octal_is_digit c : isASCIIOctalDigit c = true -> isASCIIDigit c = true.
Proof.
  unfold isASCIIOctalDigit, isASCIIDigit. change (chr "0") with 48. change (chr "7") with 55.
  change (chr "9") with 57. intros. zbool. apply andb_true_iff. split; apply Z.leb_le; lia.
Qed.

Lemma consumeOctal_loop_ok fuel : forall p n (Q : Z -> P -> Prop),
  in_pattern p -> size - m_pos p < Z.of_nat fuel ->
  (forall n' i, m_pos p <= i <= size -> digits (m_pos p) i -> Q n' (set_pos i p)) ->
  wp (consumeOctal_loop data fuel n) p Q.
Proof.
  induction fuel as [|fuel IH]; intros p n Q Hp Hf HQ; [destruct Hp; lia |].
  cbn [consumeOctal_loop]. pose proof Hp as [? ?].
  assert (Q n p) as Hstop by (rewrite <- (set_pos_id p); apply HQ; (lia || apply digits_nil)).
  wp_step; [| by wp_step]. apply wp_end; [done | intros; by wp_step |]. intros Hlt.
  apply wp_peek; [lia |]. intros c Hc _. wp_step; [| by wp_step].
  eapply wp_consumeDigit; [done | done | by apply octal_is_digit |]. intros _.
  apply IH; [split; simpl; lia | simpl; lia |].
  intros n' i Hi Hdg. simpl in Hi. rewrite set_pos_set_pos. apply HQ; [lia |].
  eapply digits_cons; [done | by apply octal_is_digit | done].
Qed.

Lemma wp_consumeOctal {A} p c (f : Z -> M yarr_fault P A) Q :
  in_pattern p -> aget data (m_pos p) = Some c -> isASCIIOctalDigit c = true ->
  (forall n i, m_pos p < i <= size -> digits (m_pos p) i -> wp (f n) (set_pos i p) Q) ->
  wp (consumeOctal data ≫= f) p Q.
Proof.
  intros Hp Hc Hd Hf. pose proof Hp as [? ?]. unfold consumeOctal. wp_step.
  assert (m_pos p < size).
  { apply aget_Some in Hc as [? Hc]. apply lookup_lt_Some in Hc. unfold m_size. lia. }
  apply wp_peek; [done |]. intros c' Hc' _. rewrite Hc in Hc'. simplify_eq.
  apply wp_assert; [done |]. eapply wp_consumeDigit; [done | done | by apply octal_is_digit |].
  intros _. assert (in_pattern (set_pos (m_pos p + 1) p)) as Hp1 by (split; simpl; lia).
  apply consumeOctal_loop_ok; [done | by apply fuel_enough |].
  intros n' i Hi Hdg. simpl in Hi. rewrite set_pos_set_pos. apply Hf; [lia |].
  eapply digits_cons; [done | by apply octal_is_digit | done].
Qed.

Lemma wp_tryConsume {A} p ch (f : bool -> M yarr_fault P A) Q :
  in_pattern p -> (m_pos p < size -> wp (f true) (set_pos (m_pos p + 1) p) Q) -> wp (f false) p Q ->
  wp (tryConsume data ch ≫= f) p Q.
Proof.
  intros Hp Ht Hf. pose proof Hp as [? ?]. unfold tryConsume. wp_step.
  apply wp_end; [done | intros; by wp_step |]. intros Hlt.
  apply wp_peek; [done |]. intros c _ _. wp_step; [| by wp_step]. do 4 wp_step. by apply Ht.
Qed.

Lemma tryConsumeHex_loop_ok count : forall p state n (Q : Z -> P -> Prop),
  in_pattern p -> 0 <= state <= m_pos p ->
  (forall n' i, state <= i <= size -> Q n' (set_pos i p)) ->
  wp (tryConsumeHex_loop data count state n) p Q.
Proof.
  induction count as [|count IH]; intros p state n Q Hp Hs HQ; pose proof Hp as [? ?];
    cbn [tryConsumeHex_loop].
  { wp_step. rewrite <- (set_pos_id p). apply HQ. lia. }
  apply wp_end; [done | |].
  - intros _. do 2 wp_step. cbn [orb]. unfold restoreState. do 3 wp_step. apply HQ. lia.
  - intros Hlt. apply wp_peek; [lia |]. intros c _ _. wp_step.
    + unfold restoreState. do 3 wp_step. apply HQ. lia.
    + apply wp_consume; [lia |]. intros c' _ _. apply IH; [split; simpl; lia | simpl; lia |].
      intros n' i Hi. rewrite set_pos_set_pos. by apply HQ.
Qed.

Lemma wp_tryConsumeHex {A} p count (f : Z -> M yarr_fault P A) Q :
  in_pattern p -> (forall n i, m_pos p <= i <= size -> wp (f n) (set_pos i p) Q) ->
  wp (tryConsumeHex data count ≫= f) p Q.
Proof.
  intros Hp Hf. unfold tryConsumeHex, saveState. do 3 wp_step.
  apply tryConsumeHex_loop_ok; [done | destruct Hp; lia | done].
Qed.

(** ** Escapes

    [parseEscape] makes exactly one call of its delegate, at a position after
    the backslash and inside the pattern; the character it passes is a UTF-16
    code unit, the back reference lies between 1 and the limit. *)

Section escape.
Context (cc : bool) (del : EscapeDelegate (M yarr_fault P)) (p0 : P) (Q : bool -> P -> Prop).
Hypothesis Hp0 : 0 <= m_pos p0.

Abbreviation after i := (m_pos p0 < i <= size).
Hypothesis Hchar : forall ch i, 0 <= ch < 65536 -> after i ->
  wp (e_atomPatternCharacter del ch) (set_pos i p0) (fun _ => Q true).
Hypothesis Hbuiltin : forall id invert i, is_escape id = true -> after i ->
  wp (e_atomBuiltInCharacterClass del id invert) (set_pos i p0) (fun _ => Q true).
Hypothesis Hword : forall invert i, cc = false -> after i ->
  wp (e_assertionWordBoundary del invert) (set_pos i p0) (fun _ => Q false).
Hypothesis Hback : forall n i, cc = false -> 1 <= n <= limit -> after i ->
  wp (e_atomBackReference del n) (set_pos i p0) (fun _ => Q true).

(** The call that ends an escape. *)
Lemma wp_then (m : M yarr_fault P unit) (b : bool) p :
  wp m p (fun _ => Q b) -> wp (m ;; mret b) p Q.
Proof. intros H. wp_step. eapply wp_mono; [exact H |]. intros. by wp_step. Qed.

Context (i : Z) (Hi : m_pos p0 < i < size).
Abbreviation p1 := (set_pos i p0).

Lemma in_p1 : in_pattern p1.
Proof. split; simpl; lia. Qed.

Lemma escape_octal_ok c :
  aget data i = Some c -> isASCIIOctalDigit c = true -> wp (escape_octal data del) p1 Q.
Proof using All.
  intros Hc Hd. unfold escape_octal. eapply wp_consumeOctal; [apply in_p1 | done | done |].
  intros n j Hj _. simpl in Hj. rewrite set_pos_set_pos. apply wp_then.
  apply Hchar; [apply u16_range | lia].
Qed.

Lemma escape_decimal_ok c :
  aget data i = Some c -> chr "1" <= c <= chr "9" -> wp (escape_decimal data limit cc del) p1 Q.
Proof using All.
  change (chr "1") with 49. change (chr "9") with 57. intros Hc Hd.
  assert (isASCIIDigit c = true) as Hdig.
  { unfold isASCIIDigit. change (chr "0") with 48. change (chr "9") with 57.
    apply andb_true_iff. split; apply Z.leb_le; lia. }
  assert (wp (c ← peek data; if chr "8" <=? c then e_atomPatternCharacter del (chr "\");; mret true
              else escape_octal data del) p1 Q) as Hrest.
  { apply wp_peek; [simpl; lia |]. intros c' Hc' _. simpl in Hc'. rewrite Hc in Hc'. simplify_eq.
    change (chr "8") with 56. wp_step.
    - apply wp_then. apply Hchar; [by vm_compute | lia].
    - eapply escape_octal_ok; [done |]. unfold isASCIIOctalDigit. zbool.
      change (chr "0") with 48. change (chr "7") with 55. apply andb_true_iff. split; apply Z.leb_le; lia. }
  unfold escape_decimal. destruct cc eqn:Ecc; [by do 2 wp_step |].
  unfold saveState, restoreState. do 3 wp_step. eapply wp_consumeNumber; [apply in_p1 | done | done |].
  change (chr "0") with 48. intros n j Hn Hj _. simpl in Hj. rewrite set_pos_set_pos. wp_step.
  - zbool. wp_step. eapply wp_mono; [apply Hback; lia |]. intros. by do 2 wp_step.
  - do 3 wp_step. rewrite set_pos_set_pos. exact Hrest.
Qed.

Lemma escape_control_ok : wp (escape_control data cc del) p1 Q.
Proof using All.
  assert (wp (e_atomPatternCharacter del (chr "\") ;; mret true) p1 Q) as Hrest.
  { apply wp_then. apply Hchar; [by vm_compute | lia]. }
  unfold escape_control, saveState, restoreState. do 2 wp_step. apply wp_consume; [simpl; lia |].
  intros _ _ _. rewrite set_pos_set_pos. cbn [set_pos m_pos].
  apply wp_end; [split; simpl; lia | |].
  - intros _. do 4 wp_step. exact Hrest.
  - simpl. intros Hlt. wp_step. apply wp_consume; [simpl; lia |]. intros c _ Hc.
    rewrite set_pos_set_pos. cbn [set_pos m_pos]. wp_step.
    + wp_step. eapply wp_mono; [apply Hchar; [| lia] |].
      * change 31 with (Z.ones 5). rewrite Z.land_ones by lia.
        pose proof (Z.mod_pos_bound c (2 ^ 5)). lia.
      * intros. by do 2 wp_step.
    + do 3 wp_step. rewrite set_pos_set_pos. exact Hrest.
Qed.

Lemma escape_hex_ok count c : 0 <= c < 65536 -> wp (escape_hex data count c del) p1 Q.
Proof using All.
  intros Hc. unfold escape_hex. apply wp_consume; [simpl; lia |]. intros _ _ _.
  rewrite set_pos_set_pos. cbn [set_pos m_pos]. apply wp_tryConsumeHex; [split; simpl; lia |].
  simpl. intros n j Hj. rewrite set_pos_set_pos. apply wp_then.
  apply Hchar; [| lia]. destruct (n =? -1); [done | apply u16_range].
Qed.

Lemma escape_char_ok c : 0 <= c < 65536 -> wp (escape_char data c del) p1 Q.
Proof using All.
  intros Hc. unfold escape_char. apply wp_consume; [simpl; lia |]. intros _ _ _.
  apply wp_then. rewrite set_pos_set_pos. apply Hchar; [done | simpl; lia].
Qed.

Lemma escape_class_ok id invert : is_escape id = true -> wp (escape_class data id invert del) p1 Q.
Proof using All.
  intros Hid. unfold escape_class. apply wp_consume; [simpl; lia |]. intros _ _ _.
  apply wp_then. rewrite set_pos_set_pos. apply Hbuiltin; [done | simpl; lia].
Qed.

Lemma escape_boundary_ok c invert :
  0 <= c < 65536 -> wp (escape_boundary data cc c invert del) p1 Q.
Proof using All.
  intros Hc. unfold escape_boundary. apply wp_consume; [simpl; lia |]. intros _ _ _.
  rewrite set_pos_set_pos. wp_step; apply wp_then; [apply Hchar | apply Hword]; (done || simpl; lia).
Qed.

Lemma escape_switch_ok c :
  aget data i = Some c -> 0 <= c < 65536 -> wp (escape_switch data limit cc del c) p1 Q.
Proof using All.
  intros Hc Hr. unfold escape_switch.
  repeat (wp_step;
    [first [ apply escape_boundary_ok; by vm_compute | by apply escape_class_ok
           | apply escape_char_ok; by vm_compute | apply escape_hex_ok; by vm_compute
           | apply escape_control_ok | zbool; by eapply escape_decimal_ok
           | zbool; subst; by eapply escape_octal_ok ] |]).
  apply wp_consume; [simpl; lia |]. intros c' _ Hc'. apply wp_then.
  rewrite set_pos_set_pos. apply Hchar; [done | simpl; lia].
Qed.

End escape.

Lemma wp_no_error {A} p (f : bool -> M yarr_fault P A) Q :
  wp (f (bool_decide (m_err p = NoError))) p Q -> wp (no_error ≫= f) p Q.
Proof. intros H. unfold no_error. do 4 wp_step. exact H. Qed.

Lemma wp_assert_no_error {A} p (m : M yarr_fault P A) Q :
  m_err p = NoError -> wp m p Q -> wp (assert_no_error ;; m) p Q.
Proof.
  intros He Hm. unfold assert_no_error. wp_step. apply wp_no_error.
  rewrite bool_decide_eq_true_2 by done. exact Hm.
Qed.

(** The assertions at the start of a token's function, and its first read. *)
Lemma wp_token {A} p c0 (m : M yarr_fault P A) Q :
  m_err p = NoError -> 0 <= m_pos p < size -> aget data (m_pos p) = Some c0 ->
  wp m (set_pos (m_pos p + 1) p) Q ->
  wp (assert_no_error ;; (c ← peek data; y_assert (c =? c0) ;; consume data ;; m)) p Q.
Proof using Hdata.
  intros He Hp Hc Hm. apply wp_assert_no_error; [done |]. apply wp_peek; [done |].
  intros c Hc' _. rewrite Hc in Hc'. simplify_eq. apply wp_assert; [apply Z.eqb_refl |].
  apply wp_consume; [done |]. done.
Qed.

Lemma parseEscape_ok cc del p0 (Q : bool -> P -> Prop) :
  m_err p0 = NoError -> 0 <= m_pos p0 < size -> aget data (m_pos p0) = Some (chr "\") ->
  (forall ch i, 0 <= ch < 65536 -> m_pos p0 < i <= size ->
     wp (e_atomPatternCharacter del ch) (set_pos i p0) (fun _ => Q true)) ->
  (forall id invert i, is_escape id = true -> m_pos p0 < i <= size ->
     wp (e_atomBuiltInCharacterClass del id invert) (set_pos i p0) (fun _ => Q true)) ->
  (forall invert i, cc = false -> m_pos p0 < i <= size ->
     wp (e_assertionWordBoundary del invert) (set_pos i p0) (fun _ => Q false)) ->
  (forall n i, cc = false -> 1 <= n <= limit -> m_pos p0 < i <= size ->
     wp (e_atomBackReference del n) (set_pos i p0) (fun _ => Q true)) ->
  Q false (set_err EscapeUnterminated (set_pos size p0)) ->
  wp (parseEscape data limit cc del) p0 Q.
Proof using Hdata.
  intros He Hp Hc Hch Hbi Hwo Hba Hun. unfold parseEscape. apply wp_token; [done | done | done |].
  apply wp_end; [split; simpl; lia | |]; simpl.
  - intros Hend. unfold throw. do 3 wp_step. by rewrite Hend.
  - intros Hlt. apply wp_peek; [simpl; lia |]. simpl. intros c Hc' Hr.
    eapply escape_switch_ok; eauto; lia.
Qed.

End reading.

(** ** Character classes *)

Abbreviation P := (Parser (list event)).
Implicit Types (p : P).

Definition class_st (n : Z) p : Prop :=
  m_parenthesesNestingDepth p = n /\ 0 <= m_character p < 65536 /\
  prun limit (m_delegate p) = Some (mk_proto (Z.to_nat n) true false).

(** After an operation of the class delegate the position is unchanged, and
    the trace is still one of a class being read, also when the range was out
    of order. *)
Definition class_post (n i : Z) (e : ErrorCode) p : Prop :=
  class_st n p /\ m_pos p = i /\ (m_err p = e \/ m_err p <> NoError).

Definition class_event (e : event) : bool :=
  match e with
  | EvClassAtom c => is_uchar c
  | EvClassRange a b => is_uchar a && is_uchar b && (a <=? b)
  | EvClassBuiltIn i _ => is_escape i
  | _ => false
  end.

Lemma uchar_ok c : 0 <= c < 65536 -> is_uchar c = true.
Proof. intros. unfold is_uchar. apply andb_true_iff. split; [apply Z.leb_le | apply Z.ltb_lt]; lia. Qed.

Lemma class_emit n i er p (f : list event -> list event) e :
  class_post n i er p -> f (m_delegate p) = m_delegate p ++ [e] -> class_event e = true ->
  wp (emit f) p (fun _ => class_post n i er).
Proof.
  intros ((Hn & Hc & Hr) & Hi & He) Hf Hev. unfold emit. wp_step. rewrite Hf.
  split; [| done]. split; [done |]. split; [done |]. simpl. rewrite (prun_snoc _ _ _ _ Hr).
  destruct e; simpl in *; try done; by rewrite Hev.
Qed.

Lemma class_set_state n i er p s :
  class_post n i er p -> wp (set_class_state s) p (fun _ => class_post n i er).
Proof. intros H. unfold set_class_state. by wp_step. Qed.

Lemma class_set n i er p s c :
  class_post n i er p -> 0 <= c < 65536 -> wp (mmod (set_class s c) : M yarr_fault P unit) p (fun _ => class_post n i er).
Proof. intros ((? & _ & ?) & ?) Hc. by wp_step. Qed.

Lemma class_flush n i er p :
  class_post n i er p -> wp flush_character p (fun _ => class_post n i er).
Proof.
  intros H. unfold flush_character. do 2 wp_step. eapply class_emit; [done | done |].
  destruct H as ((_ & Hc & _) & _). by apply uchar_ok.
Qed.

(** Each step keeps the postcondition; the sequences of steps follow. *)
Lemma class_seq n i er p (m1 m2 : M yarr_fault P unit) :
  wp m1 p (fun _ => class_post n i er) ->
  (forall p', class_post n i er p' -> wp m2 p' (fun _ => class_post n i er)) ->
  wp (m1 ;; m2) p (fun _ => class_post n i er).
Proof. intros H1 H2. wp_step. eapply wp_mono; [exact H1 |]. intros [] p'. apply H2. Qed.

Ltac class_step :=
  first [ eassumption
        | eapply class_seq; [| intros ? ?]
        | eapply class_set_state
        | eapply class_flush
        | eapply class_set
        | eapply class_emit; [| reflexivity |] ].

Lemma class_atomPatternCharacter_ok n i er p ch hyphenIsRange :
  class_post n i er p -> 0 <= ch < 65536 ->
  wp (class_atomPatternCharacter ch hyphenIsRange) p (fun _ => class_post n i er).
Proof.
  intros H Hch. unfold class_atomPatternCharacter. do 2 wp_step.
  pose proof (uchar_ok ch Hch) as Hu. pose proof H as ((Hn & Hc & Hr) & Hi & He).
  destruct (m_state p); try (wp_step; repeat class_step; done); try (repeat class_step; done).
  do 2 wp_step. wp_step.
  - unfold throw. wp_step. split; [done |]. split; [done |]. right. done.
  - repeat class_step. simpl. rewrite Hu, (uchar_ok _ Hc). zbool. simpl. by apply Z.leb_le.
Qed.

Lemma class_atomBuiltInCharacterClass_ok n i er p id invert :
  class_post n i er p -> is_escape id = true -> wp (class_atomBuiltInCharacterClass id invert) p (fun _ => class_post n i er).
Proof.
  intros H Hid. unfold class_atomBuiltInCharacterClass. do 2 wp_step.
  destruct (m_state p); repeat class_step; done.
Qed.

Lemma wp_emit {A} p f e s s' (m : M yarr_fault P A) Q :
  prun limit (m_delegate p) = Some s -> f (m_delegate p) = m_delegate p ++ [e] ->
  pstep limit s e = Some s' ->
  (forall d, prun limit d = Some s' -> wp m (set_delegate d p) Q) ->
  wp (emit f ;; m) p Q.
Proof.
  intros Hs Hf He Hm. unfold emit. do 2 wp_step. rewrite Hf. apply Hm.
  by rewrite (prun_snoc _ _ _ _ Hs).
Qed.

(** The outcome of a token: either the trace is between two terms and the
    depth is the number of open parentheses, or an error was recorded. *)
Definition tok_post (i : Z) (atom : bool) p : Prop :=
  i < m_pos p <= size /\
  (m_err p = NoError /\ 0 <= m_parenthesesNestingDepth p <= m_pos p /\
     prun limit (m_delegate p) = Some (mk_proto (Z.to_nat (m_parenthesesNestingDepth p)) false atom) \/
   m_err p <> NoError /\ is_Some (prun limit (m_delegate p))).

Lemma emit_tok i atom p f e s :
  m_err p = NoError -> i < m_pos p <= size -> 0 <= m_parenthesesNestingDepth p <= m_pos p ->
  prun limit (m_delegate p) = Some s -> f (m_delegate p) = m_delegate p ++ [e] ->
  pstep limit s e = Some (mk_proto (Z.to_nat (m_parenthesesNestingDepth p)) false atom) ->
  wp (emit f) p (fun _ => tok_post i atom).
Proof.
  intros He Hi Hd Hs Hf Hst. unfold emit. wp_step. rewrite Hf. split; [done |]. left.
  split; [done |]. split; [done |]. simpl. by rewrite (prun_snoc _ _ _ _ Hs).
Qed.

Lemma class_end_ok n i j p :
  class_st n p -> m_err p = NoError -> i < m_pos p <= size -> m_pos p = j -> 0 <= n <= m_pos p ->
  wp class_end p (fun _ => tok_post i true).
Proof.
  intros Hcl He Hi Hj Hn. unfold class_end. do 3 wp_step. subst j.
  assert (class_post n (m_pos p) NoError p) as Hpost by (split; [done | split; [done | by left]]).
  assert (wp (match m_state p with
              | CachedCharacter => flush_character
              | CachedCharacterHyphen => flush_character;; emit (atomCharacterClassAtom (chr "-"))
              | _ => mret tt
              end) p (fun _ => class_post n (m_pos p) NoError)) as Hflush.
  { destruct (m_state p); repeat class_step; done. }
  eapply wp_mono; [exact (wp_conj _ _ _ (fun _ p' => m_err p' = m_err p) Hflush ltac:(by destruct (m_state p))) |].
  intros [] p' [((Hn' & _ & Hr) & Hpos & _) Herr]. 
  eapply emit_tok; [congruence | lia | lia | done | done |]. simpl. by rewrite Hn'.
Qed.

Lemma tok_err i atom p e s :
  i < m_pos p <= size -> e <> NoError -> prun limit (m_delegate p) = Some s ->
  wp (throw e) p (fun _ => tok_post i atom).
Proof. intros Hi He Hs. unfold throw. wp_step. split; [done |]. right. simpl. eauto. Qed.

(** One element of a class. *)
Lemma class_element_ok n p c :
  class_st n p -> m_err p = NoError -> 0 <= m_pos p < size -> aget data (m_pos p) = Some c ->
  wp (if c =? chr "\" then parseCharacterClassEscape data limit
      else ch ← consume data; class_atomPatternCharacter ch true) p
     (fun _ p' => class_st n p' /\ m_pos p < m_pos p' <= size).
Proof using Hdata.
  intros Hcl He Hp Hc.
  assert (forall i, m_pos p < i <= size -> class_post n i NoError (set_pos i p)) as Hset.
  { intros i Hi. split; [done | split; [done | by left]]. }
  assert (forall i p', m_pos p < i <= size -> class_post n i NoError p' ->
            class_st n p' /\ m_pos p < m_pos p' <= size) as Hfin.
  { intros i p' Hi (? & ? & _). split; [done | lia]. }
  wp_step.
  - zbool. subst c. unfold parseCharacterClassEscape. wp_step.
    apply parseEscape_ok; [done | done | done | | | done | done |].
    + intros ch i Hch Hi. eapply wp_mono; [by apply class_atomPatternCharacter_ok, Hch; apply Hset |].
      intros [] p' Hpo. wp_step. by eapply Hfin.
    + intros id invert i Hid Hi. eapply wp_mono; [by apply class_atomBuiltInCharacterClass_ok; [apply Hset |] |].
      intros [] p' Hpo. wp_step. by eapply Hfin.
    + wp_step. split; [done | simpl; lia].
  - apply wp_consume; [done |]. intros ch _ Hch.
    eapply wp_mono; [apply class_atomPatternCharacter_ok, Hch; apply Hset; lia |].
    intros [] p' Hpo. eapply Hfin; [| done]. lia.
Qed.

Lemma parseCharacterClass_loop_ok fuel : forall i n p,
  class_st n p -> m_err p = NoError -> 0 <= i < m_pos p -> m_pos p <= size -> 0 <= n <= m_pos p ->
  size - m_pos p < Z.of_nat fuel ->
  wp (parseCharacterClass_loop data limit fuel) p (fun _ => tok_post i true).
Proof using Hdata.
  induction fuel as [|fuel IH]; intros i n p Hcl He Hi Hs Hn Hf; [lia |].
  cbn [parseCharacterClass_loop]. pose proof Hcl as (_ & _ & Hr).
  apply wp_end; [split; lia | |].
  - intros Hend. eapply tok_err; [lia | done | done].
  - intros Hlt. apply wp_peek; [lia |]. intros c Hc _. wp_step.
    + apply wp_consume; [lia |]. intros _ _ _. by eapply class_end_ok; simpl; try done; lia.
    + wp_step. eapply wp_mono; [by apply class_element_ok; try done; lia |].
      intros [] p' [Hcl' Hpos]. pose proof Hcl' as (Hn' & _ & Hr'). apply wp_no_error.
      destruct (bool_decide_reflect (m_err p' = NoError)).
      * eapply IH; try done; lia.
      * wp_step. split; [lia |]. right. eauto.
Qed.

(** ** Tokens *)

Definition tok_ok (atom : bool) p : Prop :=
  m_err p = NoError /\ in_pattern p /\ 0 <= m_parenthesesNestingDepth p <= m_pos p /\
  prun limit (m_delegate p) = Some (mk_proto (Z.to_nat (m_parenthesesNestingDepth p)) false atom).

Hypothesis Hsize : size <= MAX_PATTERN_SIZE.

Lemma depth_u32 n : 0 <= n <= size -> u32 (n + 1) = n + 1.
Proof. intros. unfold MAX_PATTERN_SIZE in Hsize. apply u32_id. lia. Qed.

Section token.
Context (p : P) (atom : bool) (Hok : tok_ok atom p) (Hlt : m_pos p < size).
Abbreviation i := (m_pos p).

Lemma tok_facts :
  m_err p = NoError /\ 0 <= i < size /\ 0 <= m_parenthesesNestingDepth p <= i /\
  prun limit (m_delegate p) = Some (mk_proto (Z.to_nat (m_parenthesesNestingDepth p)) false atom).
Proof using Hok Hlt. destruct Hok as (? & [? ?] & ? & ?). done. Qed.

(** A token that makes one call. *)
Lemma single_ok atom' f e j :
  i < j <= size -> f (m_delegate p) = m_delegate p ++ [e] ->
  pstep limit (mk_proto (Z.to_nat (m_parenthesesNestingDepth p)) false atom) e
    = Some (mk_proto (Z.to_nat (m_parenthesesNestingDepth p)) false atom') ->
  wp (emit f) (set_pos j p) (fun _ => tok_post i atom').
Proof using Hok Hlt.
  intros Hj Hf Hst. destruct tok_facts as (He & Hi & Hd & Hr).
  eapply emit_tok; simpl; try done; lia.
Qed.

Lemma consume_ok atom' f e :
  f (m_delegate p) = m_delegate p ++ [e] ->
  pstep limit (mk_proto (Z.to_nat (m_parenthesesNestingDepth p)) false atom) e
    = Some (mk_proto (Z.to_nat (m_parenthesesNestingDepth p)) false atom') ->
  wp (consume data ;; emit f ;; mret atom') p (fun a p' => a = atom' /\ tok_post i atom' p').
Proof using Hok Hlt Hdata.
  intros Hf Hst. destruct tok_facts as (He & Hi & Hd & Hr). apply wp_consume; [done |]. intros _ _ _.
  wp_step. eapply wp_mono; [eapply single_ok; [lia | done | done] |]. intros. by wp_step.
Qed.

Lemma plain_character_ok :
  wp (plain_character data) p (fun a p' => a = true /\ tok_post i true p').
Proof using Hok Hlt Hdata.
  destruct tok_facts as (He & Hi & Hd & Hr). unfold plain_character. apply wp_consume; [done |].
  intros c _ Hc. wp_step. eapply wp_mono; [eapply single_ok; [lia | reflexivity |] |].
  - simpl. by rewrite uchar_ok.
  - intros. by wp_step.
Qed.

Lemma parseCharacterClass_ok :
  aget data i = Some (chr "[") -> wp (parseCharacterClass data limit) p (fun _ => tok_post i true).
Proof using Hok Hlt Hdata.
  intros Hc. destruct tok_facts as (He & Hi & Hd & Hr). unfold parseCharacterClass.
  apply wp_token; [done | done | done |]. do 2 wp_step.
  assert (forall b j, i < j <= size ->
    wp (class_begin b ;; parseCharacterClass_loop data limit (loop_fuel data))
       (set_pos j (set_class Empty 0 p)) (fun _ => tok_post i true)) as Hgo.
  { intros b j Hj. eapply wp_emit; [exact Hr | reflexivity | reflexivity |]. intros d Hpr.
    apply (parseCharacterClass_loop_ok _ _ (m_parenthesesNestingDepth p)); simpl; try (done || lia).
    unfold loop_fuel, m_size. lia. }
  apply wp_tryConsume; [split; simpl; lia | |].
  - simpl. intros Hlt2. apply (Hgo true). lia.
  - apply (Hgo false (i + 1)). lia.
Qed.

Lemma parseParenthesesBegin_ok :
  aget data i = Some (chr "(") -> wp (parseParenthesesBegin data) p (fun _ => tok_post i false).
Proof using Hok Hlt Hdata Hsize.
  intros Hc. destruct tok_facts as (He & Hi & Hd & Hr). unfold parseParenthesesBegin.
  apply wp_token; [done | done | done |]. cbv zeta.
  set (deeper := mmod _). 
  assert (forall f e j, f (m_delegate p) = m_delegate p ++ [e] -> i < j <= size ->
    pstep limit (mk_proto (Z.to_nat (m_parenthesesNestingDepth p)) false atom) e
      = Some (mk_proto (S (Z.to_nat (m_parenthesesNestingDepth p))) false false) ->
    wp (emit f ;; deeper) (set_pos j p) (fun _ => tok_post i false)) as Hgo.
  { intros f e j Hf Hj Hst. eapply wp_emit; [exact Hr | exact Hf | exact Hst |]. intros d Hpr.
    subst deeper. wp_step. split; [simpl; lia |]. left. split; [done |]. simpl.
    rewrite depth_u32 by lia. split; [lia |]. rewrite Hpr. do 2 f_equal. lia. }
  apply wp_tryConsume; [split; simpl; lia | |].
  - simpl. intros Hlt2. apply wp_end; [split; simpl; lia | |]; simpl.
    + intros Hend. eapply tok_err; [simpl; lia | done | done].
    + intros Hlt3. apply wp_consume; [simpl; lia |]. intros c _ _. cbn [m_pos set_pos].
      rewrite !set_pos_set_pos.
      destruct (c =? chr ":"); [by eapply Hgo; [| lia |] |].
      destruct (c =? chr "="); [by eapply Hgo; [| lia |] |].
      destruct (c =? chr "!"); [by eapply Hgo; [| lia |] |].
      unfold throw. do 2 wp_step. subst deeper. wp_step. split; [simpl; lia |]. right. simpl. eauto.
  - by eapply Hgo; [| lia |].
Qed.

Lemma parseParenthesesEnd_ok :
  aget data i = Some (chr ")") -> wp (parseParenthesesEnd data) p (fun _ => tok_post i true).
Proof using Hok Hlt Hdata Hsize.
  intros Hc. destruct tok_facts as (He & Hi & Hd & Hr). unfold parseParenthesesEnd.
  apply wp_token; [done | done | done |]. do 2 wp_step. cbn [m_parenthesesNestingDepth set_pos].
  destruct (Z.ltb_spec 0 (m_parenthesesNestingDepth p)) as [Hpos | Hz].
  - assert (Z.to_nat (m_parenthesesNestingDepth p) = S (Z.to_nat (m_parenthesesNestingDepth p - 1)))
      as Hn by lia.
    eapply (wp_emit _ _ EvParenthesesEnd _ (mk_proto (Z.to_nat (m_parenthesesNestingDepth p - 1)) false true));
      [exact Hr | done | simpl; by rewrite Hn |].
    intros d Hpr. wp_step. split; [simpl; lia |]. left. split; [done |]. simpl.
    unfold MAX_PATTERN_SIZE in Hsize. rewrite u32_id by lia. split; [lia | done].
  - unfold throw. do 3 wp_step. split; [simpl; lia |]. right. simpl. eauto.
Qed.

Lemma parseQuantifier_ok min max j :
  i < j <= size -> 0 <= min <= max -> max < 2 ^ 32 ->
  wp (parseQuantifier data atom min max) (set_pos j p) (fun _ => tok_post i false).
Proof using Hok Hlt Hdata.
  intros Hj Hmin Hmax. destruct tok_facts as (He & Hi & Hd & Hr). unfold parseQuantifier.
  apply wp_assert_no_error; [done |]. apply wp_assert; [apply Z.leb_le; lia |]. wp_step.
  { eapply tok_err; [simpl; lia | done | done]. }
  wp_step; [| eapply tok_err; [simpl; lia | done | done]].
  zbool. assert (min < quantifyInfinite) by (unfold quantifyInfinite in *; lia).
  assert (forall lazy, pstep limit (mk_proto (Z.to_nat (m_parenthesesNestingDepth p)) false atom)
            (EvQuantify min max lazy) = Some (mk_proto (Z.to_nat (m_parenthesesNestingDepth p)) false false))
    as Hst.
  { intros lazy. simpl. replace atom with true by done. rewrite (proj2 (Z.leb_le 0 min)), (proj2 (Z.leb_le min max)) by lia.
    rewrite (proj2 (Z.ltb_lt min _)), (proj2 (Z.leb_le max _)) by (unfold quantifyInfinite in *; lia). done. }
  apply wp_tryConsume; [split; simpl; lia | |].
  - simpl. intros Hlt2. rewrite set_pos_set_pos. eapply single_ok; [lia | done | apply Hst].
  - eapply single_ok; [lia | done | apply Hst].
Qed.

(** The closing brace, and what follows it. *)
Definition brace_close (min max : Z) : M yarr_fault P bool :=
  close ← tryConsume data (chr "}");
  if (close : bool) then
    (if min <=? max then parseQuantifier data atom min max else throw QuantifierOutOfOrder);;
    mret true
  else mret false.

Lemma brace_close_ok min max j :
  i < j <= size -> 0 <= min -> max < 2 ^ 32 ->
  wp (brace_close min max) (set_pos j p)
     (fun b p' => if (b : bool) then tok_post i false p' else p' = set_pos j p).
Proof using Hok Hlt Hdata.
  intros Hj Hmin Hmax. destruct tok_facts as (He & Hi & Hd & Hr). unfold brace_close.
  apply wp_tryConsume; [split; simpl; lia | | by wp_step].
  simpl. intros Hlt2. rewrite set_pos_set_pos. wp_step. eapply wp_mono with (P := fun _ => tok_post i false).
  - wp_step; zbool; [apply parseQuantifier_ok; lia | eapply tok_err; [simpl; lia | done | done]].
  - intros. by wp_step.
Qed.

Lemma parseBraces_ok :
  wp (parseBraces data atom) p (fun a p' => tok_post i a p').
Proof using Hok Hlt Hdata.
  destruct tok_facts as (He & Hi & Hd & Hr).
  assert (forall j, wp (restoreState i ;; plain_character data) (set_pos j p) (fun a p' => tok_post i a p'))
    as Hrest.
  { intros j. unfold restoreState. do 2 wp_step. rewrite set_pos_set_pos, set_pos_id.
    eapply wp_mono; [apply plain_character_ok |]. by intros a p' [-> ?]. }
  assert (forall min max j, i < j <= size -> 0 <= min -> max < 2 ^ 32 ->
    wp (brace_close min max) (set_pos j p)
       (fun b p' => wp (if (b : bool) then mret false else restoreState i ;; plain_character data) p'
                       (fun a p' => tok_post i a p'))) as Hclose.
  { intros min max j Hj Hmin Hmax. eapply wp_mono; [by apply brace_close_ok |].
    intros [] p' Hp'; [by wp_step | subst p'; apply Hrest]. }
  unfold parseBraces, saveState. do 2 wp_step. apply wp_consume; [lia |]. intros _ _ _.
  apply wp_peekIsDigit; [split; simpl; lia | | do 2 wp_step; apply Hrest].
  simpl. intros Hlt2 (c & Hc & Hdg). pose proof (digit_val c Hdg). wp_step.
  eapply wp_consumeNumber; [split; simpl; lia | done | done |].
  intros min j Hmin Hj _. simpl in Hj. rewrite set_pos_set_pos.
  apply wp_tryConsume; [split; simpl; lia | |].
  - simpl. intros Hlt3. rewrite set_pos_set_pos. wp_step.
    apply wp_peekIsDigit; [split; simpl; lia | |].
    + simpl. intros _ (c' & Hc' & Hdg'). apply wp_ret_r.
      eapply wp_consumeNumber; [split; simpl; lia | done | done |].
      intros max k Hmax Hk _. simpl in Hk. rewrite set_pos_set_pos. wp_step. apply Hclose; lia.
    + wp_step. apply Hclose; (done || lia).
  - do 2 wp_step. apply Hclose; lia.
Qed.

Lemma parseAtomEscape_ok :
  aget data i = Some (chr "\") -> wp (parseAtomEscape data limit) p (fun a p' => tok_post i a p').
Proof using Hok Hlt Hdata.
  intros Hc. destruct tok_facts as (He & Hi & Hd & Hr). unfold parseAtomEscape.
  apply parseEscape_ok; [done | done | done | | | | |]; cbn [member_delegate e_atomPatternCharacter
    e_atomBuiltInCharacterClass e_assertionWordBoundary e_atomBackReference].
  - intros ch j Hch Hj. eapply single_ok; [done | done |]. simpl. by rewrite uchar_ok.
  - intros id invert j _ Hj. by eapply single_ok.
  - intros invert j _ Hj. by eapply single_ok.
  - intros n j _ Hn Hj. eapply single_ok; [done | done |]. simpl.
    by rewrite (proj2 (Z.leb_le 1 n)), (proj2 (Z.leb_le n limit)) by lia.
  - split; [simpl; lia |]. right. simpl. eauto.
Qed.

(** A token's function that returns nothing. *)
Lemma wp_then_tok (m : M yarr_fault P unit) (b : bool) p' :
  wp m p' (fun _ => tok_post i b) -> wp (m ;; mret b) p' (fun a => tok_post i a).
Proof. intros H. wp_step. eapply wp_mono; [exact H |]. intros. by wp_step. Qed.

Lemma parseToken_ok c :
  aget data i = Some c -> wp (parseToken data limit atom c) p (fun a p' => tok_post i a p').
Proof using Hok Hlt Hdata Hsize.
  intros Hc. destruct tok_facts as (He & Hi & Hd & Hr). unfold parseToken.
  assert (forall min max, 0 <= min <= max -> max < 2 ^ 32 ->
    wp (consume data ;; parseQuantifier data atom min max ;; mret false) p (fun a => tok_post i a)) as Hq.
  { intros min max Hmin Hmax. apply wp_consume; [done |]. intros _ _ _. apply wp_then_tok.
    apply parseQuantifier_ok; lia. }
  assert (forall atom' f e, f (m_delegate p) = m_delegate p ++ [e] ->
    pstep limit (mk_proto (Z.to_nat (m_parenthesesNestingDepth p)) false atom) e
      = Some (mk_proto (Z.to_nat (m_parenthesesNestingDepth p)) false atom') ->
    wp (consume data ;; emit f ;; mret atom') p (fun a => tok_post i a)) as Hs.
  { intros atom' f e Hf Hst. eapply wp_mono; [by eapply consume_ok |]. by intros a p' [-> ?]. }
  repeat (wp_step;
    [zbool; subst c; first
      [ by eapply Hs
      | by apply wp_then_tok, parseParenthesesBegin_ok
      | by apply wp_then_tok, parseParenthesesEnd_ok
      | by apply wp_then_tok, parseCharacterClass_ok
      | by apply parseAtomEscape_ok
      | by apply Hq
      | by apply parseBraces_ok ] |]).
  eapply wp_mono; [apply plain_character_ok |]. by intros a p' [-> ?].
Qed.

End token.

(** ** The pattern *)

Definition final p : Prop :=
  in_pattern p /\ is_Some (prun limit (m_delegate p)) /\
  (m_err p = NoError ->
     m_pos p = size /\ exists atom, prun limit (m_delegate p) = Some (mk_proto 0 false atom)).

Lemma parseTokens_loop_ok fuel : forall p atom,
  tok_ok atom p -> size - m_pos p < Z.of_nat fuel ->
  wp (parseTokens_loop data limit fuel atom) p (fun _ => final).
Proof using Hdata Hsize.
  induction fuel as [|fuel IH]; intros p atom Hok Hf; [destruct Hok as (_ & [? ?] & _); lia |].
  cbn [parseTokens_loop]. pose proof Hok as (He & Hp & Hd & Hr).
  apply wp_end; [done | |].
  - intros Hend. do 3 wp_step.
    + unfold throw. wp_step. split; [done |]. split; [simpl; eauto |]. done.
    + split; [done |]. split; [eauto |]. intros _. split; [done |]. exists atom. zbool.
      by replace (Z.to_nat (m_parenthesesNestingDepth p)) with O in Hr by lia.
  - intros Hlt. pose proof Hp as [? ?]. apply wp_peek; [lia |]. intros c Hc _. wp_step.
    eapply wp_mono; [by apply parseToken_ok |]. intros atom' p' [Hpos Hpost]. apply wp_no_error.
    destruct (bool_decide_reflect (m_err p' = NoError)) as [He' | He'].
    + destruct Hpost as [(_ & Hd' & Hr') | [? _]]; [| done].
      apply IH; [| lia]. split; [done |]. split; [split; lia |]. done.
    + destruct Hpost as [[? _] | [_ Hs]]; [done |]. wp_step. split; [split; lia |]. by split.
Qed.

End proof.

(** The whole run, on the recording delegate. *)
Lemma parse_pattern_ok data limit :
  Forall (fun c => is_uchar c = true) data ->
  wp (parse_pattern data limit) (init_parser []) (fun e p =>
    e = m_err p /\ is_Some (prun limit (m_delegate p)) /\
    (e = NoError -> exists atom, prun limit (m_delegate p) = Some (mk_proto 0 false atom))).
Proof.
  intros Hdata. unfold parse_pattern. wp_step. eapply wp_mono with (P := fun _ => final data limit).
  - wp_step.
    + unfold throw. wp_step. split; [split; simpl; unfold m_size; lia |]. split; [simpl; eauto |]. done.
    + zbool. unfold parseTokens. apply parseTokens_loop_ok; [done | done | |].
      * split; [done |]. split; [split; simpl; unfold m_size; lia |]. done.
      * unfold loop_fuel, m_size. simpl. lia.
  - intros [] p (Hin & Htr & Hfin). apply wp_end; [done | |]; intros Hend; apply wp_no_error.
    + apply wp_assert; [done |]. wp_step. split; [done |]. split; [done |]. intros He. by apply Hfin.
    + apply wp_assert.
      * simpl. apply negb_true_iff, bool_decide_eq_false. intros He. destruct (Hfin He). lia.
      * wp_step. split; [done |]. split; [done |]. intros He. by apply Hfin.
Qed.
