(* ===== verification/YarrSim.v ===== *)
(** * The regular expression parser: independence of the delegate and of the limit

    The parser's course does not depend on the delegate: a homomorphism of
    delegates carries one run to the other, so that every run is the fold of
    the calls of the recorded run.  Nor does the verdict depend on the limit
    of back references, which [YarrPattern::compile] relies on when it parses a
    pattern for the second time. *)

From Stdlib Require Import Ascii.
From stdpp Require Import base numbers list.
From S2P Require Import Prelude Ctype Yarr YarrProof.

#[local] Open Scope Z_scope.

(** ** Homomorphisms of delegates *)

Section sim.
Context {D1 D2 : Type} {HD1 : Delegate D1} {HD2 : Delegate D2}.
Context (h : D2 -> D1).
Hypothesis Hhom : forall (e : event) (d : D2), h (run_event d e) = run_event (h d) e.
Context (data : list Z) (limit : Z).

Definition embed (p : Parser D2) : Parser D1 :=
  mk_parser (h (m_delegate p)) (m_err p) (m_pos p) (m_parenthesesNestingDepth p) (m_state p) (m_character p).

Definition embed_res {A} (r : res yarr_fault (A * Parser D2)) : res yarr_fault (A * Parser D1) :=
  match r with
  | Ok (a, p) => Ok (a, embed p)
  | Err e => Err e
  end.

Definition sim {A} (m1 : M yarr_fault (Parser D1) A) (m2 : M yarr_fault (Parser D2) A) : Prop :=
  forall p, m1 (embed p) = embed_res (m2 p).

Lemma sim_ret {A} (a : A) : sim (mret a) (mret a).
Proof. by intros p. Qed.
Lemma sim_fail {A} e : sim (mfail e : M _ _ A) (mfail e).
Proof. by intros p. Qed.
Lemma sim_bind {A B} m1 m2 (f1 : A -> M yarr_fault (Parser D1) B) f2 :
  sim m1 m2 -> (forall a, sim (f1 a) (f2 a)) -> sim (m1 ≫= f1) (m2 ≫= f2).
Proof.
  intros Hm Hf p. unfold mbind, M_bind. rewrite Hm. destruct (m2 p) as [[a p']|e]; [apply Hf | done].
Qed.
Lemma sim_if {A} (b : bool) (m1 n1 : M _ _ A) m2 n2 :
  sim m1 m2 -> sim n1 n2 -> sim (if b then m1 else n1) (if b then m2 else n2).
Proof. by destruct b. Qed.
Lemma sim_gets {A} (f1 : Parser D1 -> A) f2 :
  (forall p, f1 (embed p) = f2 p) -> sim (mgets f1) (mgets f2).
Proof. intros H p. unfold mgets, embed_res. by rewrite H. Qed.
Lemma sim_mod (f1 : Parser D1 -> Parser D1) f2 :
  (forall p, f1 (embed p) = embed (f2 p)) -> sim (mmod f1) (mmod f2).
Proof. intros H p. unfold mmod, embed_res. by rewrite H. Qed.
Lemma sim_of_opt {A} e (o : option A) : sim (of_opt e o) (of_opt e o).
Proof. by destruct o. Qed.
Lemma sim_emit (e : event) : sim (emit (fun d => run_event d e)) (emit (fun d => run_event d e)).
Proof. apply sim_mod. intros p. unfold embed, set_delegate. simpl. by rewrite Hhom. Qed.

(** A call of a method is a call of the event that records it. *)
Ltac sim_call :=
  lazymatch goal with
  | |- sim (emit assertionBOL) _ => apply (sim_emit EvBOL)
  | |- sim (emit assertionEOL) _ => apply (sim_emit EvEOL)
  | |- sim (emit (assertionWordBoundary ?b)) _ => apply (sim_emit (EvWordBoundary b))
  | |- sim (emit (atomPatternCharacter ?c)) _ => apply (sim_emit (EvPatternCharacter c))
  | |- sim (emit (atomBuiltInCharacterClass ?i ?b)) _ => apply (sim_emit (EvBuiltIn i b))
  | |- sim (emit (atomCharacterClassBegin ?b)) _ => apply (sim_emit (EvClassBegin b))
  | |- sim (emit (atomCharacterClassAtom ?c)) _ => apply (sim_emit (EvClassAtom c))
  | |- sim (emit (atomCharacterClassRange ?a ?b)) _ => apply (sim_emit (EvClassRange a b))
  | |- sim (emit (atomCharacterClassBuiltIn ?i ?b)) _ => apply (sim_emit (EvClassBuiltIn i b))
  | |- sim (emit atomCharacterClassEnd) _ => apply (sim_emit EvClassEnd)
  | |- sim (emit (atomParenthesesSubpatternBegin ?b)) _ => apply (sim_emit (EvSubpatternBegin b))
  | |- sim (emit (atomParentheticalAssertionBegin ?b)) _ => apply (sim_emit (EvAssertionBegin b))
  | |- sim (emit atomParenthesesEnd) _ => apply (sim_emit EvParenthesesEnd)
  | |- sim (emit (atomBackReference ?n)) _ => apply (sim_emit (EvBackReference n))
  | |- sim (emit (quantifyAtom ?a ?b ?g)) _ => apply (sim_emit (EvQuantify a b g))
  | |- sim (emit disjunction) _ => apply (sim_emit EvDisjunction)
  end.

Create HintDb sim.
Ltac sim_step :=
  first
    [ assumption
    | sim_call
    | solve [auto with sim nocore]
    | apply sim_ret | apply sim_fail | apply sim_of_opt
    | apply sim_bind; [| intros ?]
    | apply sim_if
    | apply sim_gets; reflexivity
    | apply sim_mod; reflexivity
    | match goal with |- context [match ?x with _ => _ end] => destruct x end ].
Ltac sims := repeat sim_step.
Ltac sim_def c := unfold c; sims.

(** *** The readers *)

Lemma sim_assert b : sim (y_assert b) (y_assert b).
Proof. sim_def @y_assert. Qed.
Lemma sim_throw e : sim (throw e) (throw e).
Proof. sim_def @throw. Qed.
Lemma sim_no_error : sim no_error no_error.
Proof. sim_def @no_error. Qed.
Hint Resolve sim_assert sim_throw sim_no_error : sim.
Lemma sim_assert_no_error : sim assert_no_error assert_no_error.
Proof. sim_def @assert_no_error. Qed.
Lemma sim_save : sim saveState saveState.
Proof. sim_def @saveState. Qed.
Lemma sim_restore s : sim (restoreState s) (restoreState s).
Proof. sim_def @restoreState. Qed.
Lemma sim_end : sim (atEndOfPattern data) (atEndOfPattern data).
Proof. sim_def @atEndOfPattern. Qed.
Lemma sim_peek : sim (peek data) (peek data).
Proof. sim_def @peek. Qed.
Lemma sim_consume : sim (consume data) (consume data).
Proof. sim_def @consume. Qed.
Hint Resolve sim_assert_no_error sim_save sim_restore sim_end sim_peek sim_consume : sim.
Lemma sim_isDigit : sim (peekIsDigit data) (peekIsDigit data).
Proof. sim_def @peekIsDigit. Qed.
Hint Resolve sim_isDigit : sim.
Lemma sim_peekDigit : sim (peekDigit data) (peekDigit data).
Proof. sim_def @peekDigit. Qed.
Lemma sim_consumeDigit : sim (consumeDigit data) (consumeDigit data).
Proof. sim_def @consumeDigit. Qed.
Hint Resolve sim_peekDigit sim_consumeDigit : sim.
Lemma sim_number_loop fuel : forall n, sim (consumeNumber_loop data fuel n) (consumeNumber_loop data fuel n).
Proof. induction fuel; intros n; cbn [consumeNumber_loop]; sims. Qed.
Lemma sim_octal_loop fuel : forall n, sim (consumeOctal_loop data fuel n) (consumeOctal_loop data fuel n).
Proof. induction fuel; intros n; cbn [consumeOctal_loop]; sims. Qed.
Lemma sim_hex_loop count s : forall n,
  sim (tryConsumeHex_loop data count s n) (tryConsumeHex_loop data count s n).
Proof. induction count; intros n; cbn [tryConsumeHex_loop]; sims. Qed.
Hint Resolve sim_number_loop sim_octal_loop sim_hex_loop : sim.
Lemma sim_number : sim (consumeNumber data) (consumeNumber data).
Proof. sim_def @consumeNumber. Qed.
Lemma sim_octal : sim (consumeOctal data) (consumeOctal data).
Proof. sim_def @consumeOctal. Qed.
Lemma sim_try ch : sim (tryConsume data ch) (tryConsume data ch).
Proof. sim_def @tryConsume. Qed.
Lemma sim_hex count : sim (tryConsumeHex data count) (tryConsumeHex data count).
Proof. sim_def @tryConsumeHex. Qed.
Hint Resolve sim_number sim_octal sim_try sim_hex : sim.

(** *** Classes and escapes *)

Lemma sim_flush : sim flush_character flush_character.
Proof. sim_def @flush_character. Qed.
Lemma sim_state s : sim (set_class_state s) (set_class_state s).
Proof. sim_def @set_class_state. Qed.
Hint Resolve sim_flush sim_state : sim.
Lemma sim_class_char ch r : sim (class_atomPatternCharacter ch r) (class_atomPatternCharacter ch r).
Proof. sim_def @class_atomPatternCharacter. Qed.
Lemma sim_class_builtin i b :
  sim (class_atomBuiltInCharacterClass i b) (class_atomBuiltInCharacterClass i b).
Proof. sim_def @class_atomBuiltInCharacterClass. Qed.
Lemma sim_class_end : sim class_end class_end.
Proof. sim_def @class_end. Qed.
Lemma sim_class_begin b : sim (class_begin b) (class_begin b).
Proof. sim_def @class_begin. Qed.
Hint Resolve sim_class_char sim_class_builtin sim_class_end sim_class_begin : sim.

Record sim_del (del1 : EscapeDelegate (M yarr_fault (Parser D1)))
    (del2 : EscapeDelegate (M yarr_fault (Parser D2))) : Prop := {
  sd_char ch : sim (e_atomPatternCharacter del1 ch) (e_atomPatternCharacter del2 ch);
  sd_builtin i b : sim (e_atomBuiltInCharacterClass del1 i b) (e_atomBuiltInCharacterClass del2 i b);
  sd_boundary b : sim (e_assertionWordBoundary del1 b) (e_assertionWordBoundary del2 b);
  sd_back n : sim (e_atomBackReference del1 n) (e_atomBackReference del2 n)
}.
Hint Resolve sd_char sd_builtin sd_boundary sd_back : sim.

Lemma sim_escape cc del1 del2 :
  sim_del del1 del2 -> sim (parseEscape data limit cc del1) (parseEscape data limit cc del2).
Proof.
  intros Hdel.
  assert (sim (escape_octal data del1) (escape_octal data del2)) by sim_def @escape_octal.
  unfold parseEscape, escape_switch, escape_boundary, escape_class, escape_char, escape_hex, escape_control,
    escape_decimal.
  sims.
Qed.

Lemma sim_member : sim_del member_delegate member_delegate.
Proof. split; intros; simpl; sims. Qed.
Lemma sim_class : sim_del class_delegate class_delegate.
Proof. split; intros; simpl; sims. Qed.
Hint Resolve sim_escape sim_member sim_class : sim.

(** *** Tokens *)

Lemma sim_class_loop fuel :
  sim (parseCharacterClass_loop data limit fuel) (parseCharacterClass_loop data limit fuel).
Proof. induction fuel; cbn [parseCharacterClass_loop]; unfold parseCharacterClassEscape; sims. Qed.
Hint Resolve sim_class_loop : sim.
Lemma sim_parseCharacterClass : sim (parseCharacterClass data limit) (parseCharacterClass data limit).
Proof. sim_def @parseCharacterClass. Qed.
Lemma sim_parseParenthesesBegin : sim (parseParenthesesBegin data) (parseParenthesesBegin data).
Proof. sim_def @parseParenthesesBegin. Qed.
Lemma sim_parseParenthesesEnd : sim (parseParenthesesEnd data) (parseParenthesesEnd data).
Proof. sim_def @parseParenthesesEnd. Qed.
Lemma sim_parseQuantifier b min max :
  sim (parseQuantifier data b min max) (parseQuantifier data b min max).
Proof. sim_def @parseQuantifier. Qed.
Lemma sim_plain : sim (plain_character data) (plain_character data).
Proof. sim_def @plain_character. Qed.
Hint Resolve sim_parseCharacterClass sim_parseParenthesesBegin sim_parseParenthesesEnd sim_parseQuantifier
  sim_plain : sim.
Lemma sim_parseBraces b : sim (parseBraces data b) (parseBraces data b).
Proof. sim_def @parseBraces. Qed.
Hint Resolve sim_parseBraces : sim.
Lemma sim_parseToken b c : sim (parseToken data limit b c) (parseToken data limit b c).
Proof. unfold parseToken, parseAtomEscape. sims. Qed.
Hint Resolve sim_parseToken : sim.
Lemma sim_tokens_loop fuel : forall b,
  sim (parseTokens_loop data limit fuel b) (parseTokens_loop data limit fuel b).
Proof. induction fuel; intros b; cbn [parseTokens_loop]; unfold mwhen; sims. Qed.
Hint Resolve sim_tokens_loop : sim.
Lemma sim_parse_pattern : sim (parse_pattern data limit) (parse_pattern data limit).
Proof. unfold parse_pattern, parseTokens. sims. Qed.

End sim.

(** A homomorphism of delegates carries one parse to the other. *)
Lemma parse_hom {D1 D2} {HD1 : Delegate D1} {HD2 : Delegate D2} (h : D2 -> D1) d data limit :
  (forall e d, h (run_event d e) = run_event (h d) e) ->
  parse (h d) data limit = match parse d data limit with
                           | Ok (e, d') => Ok (e, h d')
                           | Err f => Err f
                           end.
Proof.
  intros Hhom. unfold parse.
  rewrite (sim_parse_pattern h Hhom data limit (init_parser d) : _ (init_parser (h d)) = _).
  by destruct (parse_pattern data limit (init_parser d)) as [[e p]|].
Qed.

(** Every run is the fold of the calls of the recorded run. *)
Lemma parse_fold {D} {HD : Delegate D} (d : D) data limit :
  parse d data limit = match parse [] data limit with
                       | Ok (e, t) => Ok (e, foldl run_event d t)
                       | Err f => Err f
                       end.
Proof.
  apply (parse_hom (foldl run_event d) []). intros e t. destruct e; simpl; by rewrite foldl_app.
Qed.

(** The parse returns; its calls follow the protocol. *)
Lemma parse_trace data limit :
  Forall (fun c => is_uchar c = true) data ->
  exists e t s, parse [] data limit = Ok (e, t) /\ prun limit t = Some s /\
    (e = NoError -> p_depth s = O /\ p_class s = false).
Proof.
  intros Hd. destruct (wp_inv _ _ _ (parse_pattern_ok data limit Hd)) as (e & p & Hp & He & [s Hs] & Hok).
  exists e, (m_delegate p), s. unfold parse. rewrite Hp. split; [done |]. split; [done |]. intros Hn.
  destruct (Hok Hn) as [atom Ha]. by rewrite Ha in Hs; simplify_eq.
Qed.

(** ** The limit of back references *)

Section limit.
Context {D : Type} {HD : Delegate D}.
(** A delegate that ignores characters and back references. *)
Hypothesis Hchar : forall c (d : D), atomPatternCharacter c d = d.
Hypothesis Hback : forall n (d : D), atomBackReference n d = d.
Context (data : list Z).
Hypothesis Hdata : Forall (fun c => is_uchar c = true) data.

Abbreviation P := (Parser D).
Abbreviation size := (m_size data).
Implicit Types (p : P).

Lemma set_delegate_id p : set_delegate (m_delegate p) p = p.
Proof. by destruct p. Qed.

Lemma emit_neutral f p : f (m_delegate p) = m_delegate p -> emit f p = Ok (tt, p).
Proof. intros Hf. unfold emit, mmod. by rewrite Hf, set_delegate_id. Qed.

Lemma class_loop_limit L1 L2 fuel :
  parseCharacterClass_loop data L1 fuel = parseCharacterClass_loop data L2 fuel :> M _ P _.
Proof.
  induction fuel as [|fuel IH]; [done |]. cbn [parseCharacterClass_loop]. rewrite IH.
  by change (parseCharacterClassEscape data L1) with (parseCharacterClassEscape (D := D) data L2).
Qed.

Lemma parseCharacterClass_limit L1 L2 :
  parseCharacterClass data L1 = parseCharacterClass data L2 :> M _ P _.
Proof. unfold parseCharacterClass. by rewrite (class_loop_limit L1 L2). Qed.

(** A decimal escape stops somewhere in the run of digits. *)
Lemma decimal_escape_ok L p c :
  m_err p = NoError -> 0 <= m_pos p -> m_pos p + 1 < size ->
  aget data (m_pos p + 1) = Some c -> chr "1" <= c <= chr "9" ->
  wp (escape_decimal data L false member_delegate) (set_pos (m_pos p + 1) p) (fun a p' =>
    a = true /\ exists j, p' = set_pos j p /\ m_pos p < j <= size /\ digits data (m_pos p + 1) j).
Proof using All.
  intros He Hp Hs Hc Hr.
  assert (isASCIIDigit c = true) as Hdig.
  { change (chr "1") with 49 in Hr. change (chr "9") with 57 in Hr. unfold isASCIIDigit.
    change (chr "0") with 48. change (chr "9") with 57. apply andb_true_iff. split; apply Z.leb_le; lia. }
  set (p1 := set_pos (m_pos p + 1) p).
  assert (forall f j, f (m_delegate p) = m_delegate p -> m_pos p < j <= size -> digits data (m_pos p + 1) j ->
    wp (emit f ;; mret true) (set_pos j p) (fun a p' =>
      a = true /\ exists j, p' = set_pos j p /\ m_pos p < j <= size /\ digits data (m_pos p + 1) j)) as Hgo.
  { intros f j Hf Hj Hdg. wp_step. eapply wp_intro; [by apply emit_neutral |]. wp_step. eauto. }
  unfold escape_decimal, saveState, restoreState. do 3 wp_step.
  assert (in_pattern data p1) as Hin by (split; simpl; lia).
  eapply wp_consumeNumber; [done | exact Hin | exact Hc | done |].
  intros n j Hn Hj Hdg. simpl in Hj, Hdg. change (set_pos j p1) with (set_pos j p). wp_step.
  - wp_step. eapply wp_intro; [apply emit_neutral, Hback |]. do 2 wp_step. eauto with lia.
  - do 3 wp_step. change (set_pos _ (set_pos j p)) with p1.
    apply wp_peek; [done | simpl; lia |]. intros c' Hc' _. simpl in Hc'. rewrite Hc in Hc'. simplify_eq.
    wp_step.
    + apply Hgo; [apply Hchar | lia | apply digits_nil].
    + unfold escape_octal. eapply wp_consumeOctal; [done | exact Hin | exact Hc | |].
      * unfold isASCIIOctalDigit. zbool. change (chr "8") with 56 in *. change (chr "1") with 49 in *.
        change (chr "0") with 48. change (chr "7") with 55. apply andb_true_iff. split; apply Z.leb_le; lia.
      * intros n' k Hk Hdg'. simpl in Hk, Hdg'. change (set_pos k p1) with (set_pos k p).
        apply Hgo; [apply Hchar | lia | done].
Qed.

Lemma peek_eq p c : aget data (m_pos p) = Some c -> peek data p = Ok (c, p).
Proof. intros Hc. unfold peek, mgets, mbind, M_bind. by rewrite Hc. Qed.

Lemma consume_eq p c :
  aget data (m_pos p) = Some c -> consume data p = Ok (c, set_pos (m_pos p + 1) p).
Proof. intros Hc. unfold consume, mgets, mbind, M_bind. by rewrite Hc. Qed.

Lemma atEnd_eq p : in_pattern data p -> atEndOfPattern data p = Ok (m_pos p =? size, p).
Proof.
  intros [_ H]. unfold atEndOfPattern, mgets, mbind, M_bind, y_assert.
  by rewrite (proj2 (Z.leb_le _ _) H).
Qed.

Definition after_backslash (L : Z) : M yarr_fault P bool :=
  e ← atEndOfPattern data;
  if (e : bool) then throw EscapeUnterminated;; mret false
  else c ← peek data; escape_switch data L false member_delegate c.

Lemma parseAtomEscape_eq L p :
  m_err p = NoError -> aget data (m_pos p) = Some (chr "\") ->
  parseAtomEscape data L p = after_backslash L (set_pos (m_pos p + 1) p).
Proof.
  intros He Hc. unfold parseAtomEscape, parseEscape.
  rewrite (bind_ok assert_no_error _ p tt p)
    by (unfold assert_no_error, no_error, mgets, mret, mbind, M_ret, M_bind; by rewrite He).
  by rewrite (bind_ok (peek data) _ p _ p (peek_eq _ _ Hc)),
    (bind_ok (y_assert _) _ p tt p), (bind_ok (consume data) _ p _ _ (consume_eq _ _ Hc)).
Qed.

Lemma switch_decimal L c :
  chr "1" <= c <= chr "9" ->
  escape_switch data L false member_delegate c = escape_decimal data L false member_delegate :> M _ P _.
Proof.
  change (chr "1") with 49. change (chr "9") with 57. intros Hr. unfold escape_switch.
  do 8 (rewrite (proj2 (Z.eqb_neq c _)) by (cbv; lia)).
  change (chr "1") with 49. change (chr "9") with 57.
  rewrite (proj2 (Z.leb_le 49 c)), (proj2 (Z.leb_le c 57)) by lia. done.
Qed.

Lemma escape_limit L1 L2 p :
  m_err p = NoError -> 0 <= m_pos p < size -> aget data (m_pos p) = Some (chr "\") ->
  parseAtomEscape data L1 p = parseAtomEscape data L2 p \/
  forall L, wp (parseAtomEscape data L) p (fun a p' =>
    a = true /\ exists j, p' = set_pos j p /\ m_pos p < j <= size /\ digits data (m_pos p + 1) j).
Proof using All.
  intros He Hp Hc. assert (in_pattern data (set_pos (m_pos p + 1) p)) as Hin by (split; simpl; lia).
  destruct (Z.eqb_spec (m_pos p + 1) size) as [Hend | Hend].
  { left. rewrite !parseAtomEscape_eq by done.
    unfold after_backslash. rewrite !(bind_ok _ _ _ _ _ (atEnd_eq _ Hin)). cbn [m_pos set_pos].
    by rewrite Hend, Z.eqb_refl. }
  destruct (aget_is_Some data (m_pos p + 1)) as [c Hc1]; [unfold m_size in *; lia |].
  destruct ((chr "1" <=? c) && (c <=? chr "9")) eqn:Hr.
  - right. intros L. unfold wp. rewrite parseAtomEscape_eq by done. fold (wp (after_backslash L)).
    apply wp_end; [split; simpl; lia | simpl; lia |]. intros _. apply wp_peek; [done | simpl; lia |].
    intros c' Hc' _. simpl in Hc'. rewrite Hc1 in Hc'. simplify_eq. zbool.
    rewrite switch_decimal by done. eapply decimal_escape_ok; try done; lia.
  - left. rewrite !parseAtomEscape_eq by done.
    unfold after_backslash. rewrite !(bind_ok _ _ _ _ _ (atEnd_eq _ Hin)). cbn [m_pos set_pos].
    rewrite (proj2 (Z.eqb_neq _ _) Hend).
    rewrite !(bind_ok (peek data) _ _ _ _ (peek_eq (set_pos (m_pos p + 1) p) _ Hc1)).
    unfold escape_switch. by rewrite Hr.
Qed.

(** One token: the same under both limits, or a decimal escape. *)
Lemma token_limit L1 L2 p atom c :
  m_err p = NoError -> 0 <= m_pos p < size -> aget data (m_pos p) = Some c ->
  parseToken data L1 atom c p = parseToken data L2 atom c p \/
  forall L, wp (parseToken data L atom c) p (fun a p' =>
    a = true /\ exists j, p' = set_pos j p /\ m_pos p < j <= size /\ digits data (m_pos p + 1) j).
Proof using All.
  intros He Hp Hc. unfold parseToken. rewrite (parseCharacterClass_limit L1 L2).
  repeat match goal with
         | |- context [c =? chr "\"] => fail 1
         | |- context [if ?b then _ else _] => destruct b; [by left |]
         end.
  destruct (Z.eqb_spec c (chr "\")) as [-> | _]; [by apply escape_limit | by left].
Qed.

(** The token loop, one round at a time. *)

Definition next_round (L : Z) (fuel : nat) (m : M yarr_fault P bool) : M yarr_fault P unit :=
  atom ← m; b ← no_error; if (b : bool) then parseTokens_loop data L fuel atom else mret tt.

Lemma aget_pos i c : aget data i = Some c -> 0 <= i < size.
Proof. intros [? Hc]%aget_Some. apply lookup_lt_Some in Hc. unfold m_size. lia. Qed.

Lemma loop_end L fuel atom p :
  0 <= size -> m_pos p = size ->
  parseTokens_loop data L (S fuel) atom p
    = mwhen (0 <? m_parenthesesNestingDepth p) (throw MissingParentheses) p.
Proof.
  intros Hs Hp. cbn [parseTokens_loop]. rewrite (bind_ok _ _ _ _ _ (atEnd_eq p ltac:(split; lia))).
  by rewrite (proj2 (Z.eqb_eq _ _) Hp).
Qed.

Lemma loop_round L fuel atom p c :
  aget data (m_pos p) = Some c ->
  parseTokens_loop data L (S fuel) atom p = next_round L fuel (parseToken data L atom c) p.
Proof.
  intros Hc. pose proof (aget_pos _ _ Hc). cbn [parseTokens_loop].
  rewrite (bind_ok _ _ _ _ _ (atEnd_eq p ltac:(split; lia))), (proj2 (Z.eqb_neq _ _)) by lia.
  by rewrite (bind_ok _ _ _ _ _ (peek_eq _ _ Hc)).
Qed.

Lemma loop_cases L fuel atom p r :
  parseTokens_loop data L (S fuel) atom p = Ok r ->
  m_pos p = size \/ exists c, aget data (m_pos p) = Some c.
Proof.
  cbn [parseTokens_loop]. unfold mbind at 1, M_bind, atEndOfPattern, mgets, y_assert, mbind, M_bind.
  destruct (_ <=? _); [| done]. destruct (Z.eqb_spec (m_pos p) size); [by left |].
  cbn [mret M_ret]. unfold peek, mgets, mbind, M_bind, of_opt.
  destruct (aget data (m_pos p)) as [c|]; [eauto | done].
Qed.

Lemma next_round_ok L fuel m p a p' :
  m p = Ok (a, p') ->
  next_round L fuel m p
    = if bool_decide (m_err p' = NoError) then parseTokens_loop data L fuel a p' else Ok (tt, p').
Proof.
  intros Hm. unfold next_round. rewrite (bind_ok _ _ _ _ _ Hm).
  unfold no_error, mgets, mbind, M_bind. cbn. by destruct (bool_decide _).
Qed.

Lemma loop_more L fuel : forall atom p r,
  parseTokens_loop data L fuel atom p = Ok r -> parseTokens_loop data L (S fuel) atom p = Ok r.
Proof.
  induction fuel as [|fuel IH]; intros atom p r H; [done |].
  destruct (loop_cases _ _ _ _ _ H) as [Hend | [c Hc]].
  - rewrite loop_end by (unfold m_size in *; lia). by rewrite loop_end in H by (unfold m_size in *; lia).
  - rewrite (loop_round _ _ _ _ _ Hc). rewrite (loop_round _ _ _ _ _ Hc) in H.
    destruct (parseToken data L atom c p) as [[a p']|e] eqn:Ht.
    + rewrite (next_round_ok _ _ _ _ _ _ Ht). rewrite (next_round_ok _ _ _ _ _ _ Ht) in H. destruct (bool_decide _); [by apply IH | done].
    + unfold next_round, mbind, M_bind in H. by rewrite Ht in H.
Qed.

Lemma loop_mono L fuel fuel' atom p r :
  (fuel <= fuel')%nat ->
  parseTokens_loop data L fuel atom p = Ok r -> parseTokens_loop data L fuel' atom p = Ok r.
Proof. induction 1; [done |]. intros. by apply loop_more; auto. Qed.

Definition runs (L : Z) (atom : bool) p (r : unit * P) : Prop :=
  exists fuel, parseTokens_loop data L fuel atom p = Ok r.

(** A digit is an ordinary character. *)
Lemma digit_token L atom c p :
  isASCIIDigit c = true -> aget data (m_pos p) = Some c ->
  parseToken data L atom c p = Ok (true, set_pos (m_pos p + 1) p).
Proof using Hchar.
  unfold isASCIIDigit. change (chr "0") with 48. change (chr "9") with 57. intros Hd Hc. zbool.
  unfold parseToken. do 12 (rewrite (proj2 (Z.eqb_neq c _)) by (cbv; lia)).
  unfold plain_character. rewrite (bind_ok _ _ _ _ _ (consume_eq _ _ Hc)).
  by rewrite (bind_ok _ _ _ _ _ (emit_neutral _ _ (Hchar _ _))).
Qed.

Lemma loop_digit L fuel atom c p :
  m_err p = NoError -> isASCIIDigit c = true -> aget data (m_pos p) = Some c ->
  parseTokens_loop data L (S fuel) atom p = parseTokens_loop data L fuel true (set_pos (m_pos p + 1) p).
Proof using Hchar.
  intros He Hd Hc. rewrite (loop_round _ _ _ _ _ Hc), (next_round_ok _ _ _ _ _ _ (digit_token _ _ _ _ Hd Hc)).
  by rewrite bool_decide_eq_true_2.
Qed.

(** Skipping a run of digits. *)
Lemma skip_digits n : forall L p i r, 
  m_err p = NoError -> digits data i (i + Z.of_nat n) ->
  (forall fuel, parseTokens_loop data L fuel true (set_pos i p) = Ok r ->
     exists fuel', (fuel' <= fuel)%nat /\
       parseTokens_loop data L fuel' true (set_pos (i + Z.of_nat n) p) = Ok r) /\
  (runs L true (set_pos (i + Z.of_nat n) p) r -> runs L true (set_pos i p) r).
Proof using Hchar.
  induction n as [|n IH]; intros L p i r He Hd.
  { replace (i + Z.of_nat 0) with i by lia. split; [eauto | done]. }
  destruct (Hd i) as (c & Hc & Hdg); [lia |].
  destruct (IH L p (i + 1) r He) as [IH1 IH2].
  { intros k Hk. apply Hd. lia. }
  replace (i + Z.of_nat (S n)) with (i + 1 + Z.of_nat n) by lia. split.
  - intros [|fuel] H; [done |]. rewrite (loop_digit _ _ _ c) in H by done.
    destruct (IH1 fuel H) as (fuel' & ? & ?). eexists. split; [| done]. lia.
  - intros H. destruct (IH2 H) as [fuel Hf]. exists (S fuel). by rewrite (loop_digit _ _ _ c).
Qed.

(** A decimal escape: both limits stop in the same run of digits. *)
Lemma escape_rounds L1 L2 fuel atom c p r :
  m_err p = NoError -> aget data (m_pos p) = Some c ->
  (forall L, wp (parseToken data L atom c) p (fun a p' =>
     a = true /\ exists j, p' = set_pos j p /\ m_pos p < j <= size /\ digits data (m_pos p + 1) j)) ->
  next_round L1 fuel (parseToken data L1 atom c) p = Ok r ->
  (forall fuel' p', (fuel' <= fuel)%nat -> m_err p' = NoError ->
     parseTokens_loop data L1 fuel' true p' = Ok r -> runs L2 true p' r) ->
  runs L2 atom p r.
Proof using Hchar.
  intros He Hc Hesc H Hgo.
  pose proof (wp_inv _ _ _ (Hesc L1)) as (a1 & p1 & Ht1 & -> & j1 & -> & Hj1 & Hd1).
  pose proof (wp_inv _ _ _ (Hesc L2)) as (a2 & p2 & Ht2 & -> & j2 & -> & Hj2 & Hd2).
  rewrite (next_round_ok _ _ _ _ _ _ Ht1), bool_decide_eq_true_2 in H by done.
  set (E := Z.max j1 j2). 
  assert (forall j, j = j1 \/ j = j2 -> digits data j (j + Z.of_nat (Z.to_nat (E - j)))) as Hdg.
  { intros j Hj k Hk. destruct (Z.le_gt_cases j1 j2); [apply Hd2 | apply Hd1]; subst E; lia. }
  destruct (skip_digits _ L1 p j1 r He (Hdg j1 ltac:(by left))) as [H1 _].
  destruct (H1 _ H) as (fuel' & Hf & H').
  destruct (skip_digits _ L2 p j2 r He (Hdg j2 ltac:(by right))) as [_ H2].
  destruct H2 as [f Hf2].
  { replace (j2 + _) with E by lia. replace (j1 + _) with E in H' by lia. by eapply Hgo. }
  exists (S f). rewrite (loop_round _ _ _ _ _ Hc), (next_round_ok _ _ _ _ _ _ Ht2).
  by rewrite bool_decide_eq_true_2.
Qed.

(** The verdict under one limit is the verdict under the other. *)
Lemma loop_limit L1 L2 fuel : forall atom p r,
  m_err p = NoError -> parseTokens_loop data L1 fuel atom p = Ok r -> runs L2 atom p r.
Proof using All.
  induction fuel as [fuel IH] using lt_wf_ind. intros atom p r He H. destruct fuel as [|fuel]; [done |].
  destruct (loop_cases _ _ _ _ _ H) as [Hend | [c Hc]].
  { rewrite loop_end in H by (unfold m_size in *; lia). exists 1%nat.
    by rewrite loop_end by (unfold m_size in *; lia). }
  rewrite (loop_round _ _ _ _ _ Hc) in H. pose proof (aget_pos _ _ Hc) as Hp.
  destruct (token_limit L1 L2 p atom c He Hp Hc) as [Heq | Hesc].
  - destruct (parseToken data L1 atom c p) as [[a p']|e] eqn:Ht.
    2:{ unfold next_round, mbind, M_bind in H. by rewrite Ht in H. }
    rewrite (next_round_ok _ _ _ _ _ _ Ht) in H. symmetry in Heq.
    destruct (bool_decide_reflect (m_err p' = NoError)) as [He' | He'].
    + destruct (IH fuel ltac:(lia) a p' r He' H) as [f Hf]. exists (S f).
      rewrite (loop_round _ _ _ _ _ Hc), (next_round_ok _ _ _ _ _ _ Heq). by rewrite bool_decide_eq_true_2.
    + exists 1%nat. rewrite (loop_round _ _ _ _ _ Hc), (next_round_ok _ _ _ _ _ _ Heq).
      by rewrite bool_decide_eq_false_2.
  - apply (escape_rounds L1 L2 fuel atom c p r); try done. intros fuel' p' Hf He' H'.
    eapply IH; [| done | exact H']. lia.
Qed.

(** [parse] after the token loop. *)
Definition finish (r : res yarr_fault (unit * P)) : res yarr_fault (ErrorCode * D) :=
  match r with
  | Err f => Err f
  | Ok (_, p) =>
      match (e ← atEndOfPattern data; b ← no_error; y_assert (e || negb b);; mgets m_err) p with
      | Ok (e, p) => Ok (e, m_delegate p)
      | Err f => Err f
      end
  end.

Lemma parse_eq d L :
  parse d data L = finish ((if MAX_PATTERN_SIZE <? size then throw PatternTooLarge
                            else parseTokens_loop data L (loop_fuel data) false) (init_parser d)).
Proof.
  unfold parse, parse_pattern, parseTokens. unfold mbind at 1, M_bind at 1.
  destruct (MAX_PATTERN_SIZE <? m_size data); [done |].
  by destruct (parseTokens_loop data L (loop_fuel data) false (init_parser d)) as [[[] p]|].
Qed.

Lemma parse_limit d L1 L2 : parse d data L1 = parse d data L2.
Proof using All.
  destruct (parse_trace data L1 Hdata) as (e1 & t1 & _ & Ht1 & _).
  destruct (parse_trace data L2 Hdata) as (e2 & t2 & _ & Ht2 & _).
  pose proof (parse_fold d data L1) as H1. pose proof (parse_fold d data L2) as H2.
  rewrite Ht1 in H1. rewrite Ht2 in H2. clear Ht1 Ht2. rewrite parse_eq in *.
  rewrite (parse_eq d L2) in *. destruct (MAX_PATTERN_SIZE <? size); [done |].
  destruct (parseTokens_loop data L1 (loop_fuel data) false (init_parser d)) as [[[] p1]|] eqn:E1; [| done].
  destruct (parseTokens_loop data L2 (loop_fuel data) false (init_parser d)) as [[[] p2]|] eqn:E2; [| done].
  clear H1 H2. destruct (loop_limit L1 L2 _ _ (init_parser d) _ eq_refl E1) as [f Hf].
  apply (loop_mono _ _ (f + loop_fuel data)) in Hf; [| lia].
  apply (loop_mono _ _ (f + loop_fuel data)) in E2; [| lia].
  congruence.
Qed.

End limit.
