(* ===== verification/YarrProps.v ===== *)
(** * The regular expression parser: properties *)

From Stdlib Require Import Ascii.
From stdpp Require Import base numbers list strings.
From S2P Require Import Prelude Ctype Yarr YarrProof YarrSim.

#[local] Open Scope Z_scope.

(** [C11] The parser returns on every pattern of UTF-16 code units, whatever
    the delegate: it reads no character outside the pattern, fails no
    assertion and runs out of no loop's fuel.  The delegate it leaves is the
    given one after a sequence of calls that the protocol accepts: classes
    and parentheses are bracketed, a quantifier follows an atom and has
    [min <= max] and a finite [min], ranges are ordered, back references lie
    between 1 and the limit.  Without an error everything is closed. *)
Theorem parse_protocol {D} {HD : Delegate D} (d : D) data limit
    (Hdata : Forall (fun c => is_uchar c = true) data) :
  exists e calls s,
    parse d data limit = Ok (e, foldl run_event d calls) /\
    prun limit calls = Some s /\
    (e = NoError -> p_depth s = O /\ p_class s = false).
Proof.
  destruct (parse_trace data limit Hdata) as (e & t & s & Hp & Hs & Hok).
  exists e, t, s. rewrite parse_fold, Hp. done.
Qed.

(** A pattern as a list of code units. *)
Fixpoint chars (s : string) : list Z :=
  match s with
  | EmptyString => []
  | String c s => chr c :: chars s
  end.

Lemma parse_protocol_witness :
  exists e calls s,
    parse tt (chars "(a|[b-d\w])+\1") 1 = Ok (e, foldl run_event tt calls) /\
    prun 1 calls = Some s /\ (e = NoError -> p_depth s = O /\ p_class s = false).
Proof. apply (parse_protocol tt (chars "(a|[b-d\w])+\1") 1). repeat constructor. Defined.

(** The calls of an example, as the protocol's automaton reads them. *)
Example parse_example :
  parse [] (chars "(a|[b-d\w])+\1") 1 =
  Ok (NoError, [EvSubpatternBegin true; EvPatternCharacter 97; EvDisjunction; EvClassBegin false;
    EvClassRange 98 100; EvClassBuiltIn WordClassID false; EvClassEnd; EvParenthesesEnd;
    EvQuantify 1 quantifyInfinite true; EvBackReference 1]).
Proof. by vm_compute. Qed.

(** [C12] The verdict depends on the pattern only: for every delegate and
    every limit of back references the parser returns the error code that the
    syntax checker returns. *)
Theorem parse_verdict {D} {HD : Delegate D} (d : D) data limit
    (Hdata : Forall (fun c => is_uchar c = true) data) :
  checkSyntax data = match parse d data limit with
                     | Ok (e, _) => Ok e
                     | Err f => Err f
                     end.
Proof.
  unfold checkSyntax.
  rewrite (parse_limit (HD := SyntaxChecker) (fun _ _ => eq_refl) (fun _ _ => eq_refl) data Hdata tt quantifyInfinite limit).
  rewrite (parse_hom (fun _ : D => tt) d data limit) by (by intros []).
  by destruct (parse d data limit) as [[e d']|].
Qed.

Lemma parse_verdict_witness :
  checkSyntax (chars "(\12") = match parse (D := list event) [] (chars "(\12") 3 with
                               | Ok (e, _) => Ok e
                               | Err f => Err f
                               end.
Proof. apply (parse_verdict (D := list event) [] (chars "(\12") 3). repeat constructor. Defined.

(** ** Numbers *)

(** The value of a run of decimal digits. *)
Definition decimal (n : Z) (ds : list Z) : Z := foldl (fun n d => n * 10 + d) n ds.
Definition digit_char (d : Z) : Z := chr "0" + d.

Lemma decimal_ge n ds : 0 <= n -> Forall (fun d => 0 <= d <= 9) ds -> n <= decimal n ds.
Proof.
  revert n. induction ds as [|d ds IH]; intros n Hn Hds; [done |].
  apply Forall_cons in Hds as [Hd Hds]. simpl. specialize (IH (n * 10 + d) ltac:(lia) Hds).
  unfold decimal in *. lia.
Qed.

Lemma digit_char_ok d : 0 <= d <= 9 -> isASCIIDigit (digit_char d) = true.
Proof.
  intros Hd. unfold isASCIIDigit, digit_char. change (chr "0") with 48. change (chr "9") with 57.
  apply andb_true_iff. split; apply Z.leb_le; lia.
Qed.

Lemma aget_app_pre {A} (pre : list A) x rest : aget (pre ++ x :: rest) (Z.of_nat (length pre)) = Some x.
Proof. apply aget_Some. split; [lia |]. rewrite Nat2Z.id. by apply list_lookup_middle. Qed.

Section number.
Context {D : Type} (rest : list Z).
Hypothesis Hrest : match rest with [] => True | c :: _ => isASCIIDigit c = false end.

Lemma peek_rest pre (p : Parser D) :
  m_pos p = Z.of_nat (length pre) -> peekIsDigit (pre ++ rest) p = Ok (false, p).
Proof using Hrest.
  intros Hp. assert (m_pos p <= m_size (pre ++ rest)).
  { unfold m_size. rewrite length_app. lia. }
  unfold peekIsDigit. rewrite (bind_ok _ _ _ _ _ (atEnd_eq (pre ++ rest) p ltac:(split; lia))).
  destruct rest as [|c rest'].
  - unfold m_size. by rewrite app_nil_r, (proj2 (Z.eqb_eq _ _) Hp).
  - rewrite (proj2 (Z.eqb_neq _ _)) by (unfold m_size; rewrite length_app; simpl; lia).
    rewrite (bind_ok _ _ _ _ _ (peek_eq (pre ++ c :: rest') p c ltac:(rewrite Hp; apply aget_app_pre))). by rewrite Hrest.
Qed.

Lemma peek_digit data (p : Parser D) d :
  0 <= d <= 9 -> aget data (m_pos p) = Some (digit_char d) -> peekIsDigit data p = Ok (true, p).
Proof.
  intros Hd Hc. pose proof (aget_pos _ _ _ Hc). unfold peekIsDigit.
  rewrite (bind_ok _ _ _ _ _ (atEnd_eq data p ltac:(split; lia))), (proj2 (Z.eqb_neq _ _)) by lia.
  rewrite (bind_ok _ _ _ _ _ (peek_eq _ p _ Hc)). by rewrite digit_char_ok.
Qed.

Lemma digit_value d : digit_char d - chr "0" = d.
Proof. unfold digit_char. lia. Qed.

Lemma peekDigit_eq data (p : Parser D) d :
  0 <= d <= 9 -> aget data (m_pos p) = Some (digit_char d) -> peekDigit data p = Ok (d, p).
Proof.
  intros Hd Hc. unfold peekDigit.
  rewrite (bind_ok _ _ _ _ _ (peek_digit data p d Hd Hc)), (bind_ok (y_assert true) _ p tt p eq_refl).
  rewrite (bind_ok _ _ _ _ _ (peek_eq data p _ Hc)). by rewrite digit_value.
Qed.

Lemma consumeDigit_eq data (p : Parser D) d :
  0 <= d <= 9 -> aget data (m_pos p) = Some (digit_char d) ->
  consumeDigit data p = Ok (d, set_pos (m_pos p + 1) p).
Proof.
  intros Hd Hc. unfold consumeDigit.
  rewrite (bind_ok _ _ _ _ _ (peek_digit data p d Hd Hc)), (bind_ok (y_assert true) _ p tt p eq_refl).
  rewrite (bind_ok _ _ _ _ _ (consume_eq data p _ Hc)). by rewrite digit_value.
Qed.

Lemma number_loop ds : forall fuel pre n (p : Parser D),
  Forall (fun d => 0 <= d <= 9) ds -> 0 <= n -> decimal n ds < 2 ^ 32 ->
  m_pos p = Z.of_nat (length pre) -> (length ds < fuel)%nat ->
  consumeNumber_loop (pre ++ (digit_char <$> ds) ++ rest) fuel n p
    = Ok (decimal n ds, set_pos (Z.of_nat (length pre + length ds)) p).
Proof using Hrest.
  induction ds as [|d ds IH]; intros fuel pre n p Hds Hn Hlt Hp Hf; (destruct fuel as [|fuel]; [simpl in Hf; lia |]);
    cbn [consumeNumber_loop].
  - rewrite (bind_ok _ _ _ _ _ (peek_rest pre p Hp)). simpl. rewrite Nat.add_0_r, <- Hp, set_pos_id. done.
  - apply Forall_cons in Hds as [Hd Hds].
    set (data := pre ++ _).
    assert (aget data (m_pos p) = Some (digit_char d)) as Hc by (rewrite Hp; apply aget_app_pre).
    assert (data = (pre ++ [digit_char d]) ++ (digit_char <$> ds) ++ rest) as Hdata.
    { subst data. simpl. by rewrite <- !app_assoc. }
    pose proof (decimal_ge (n * 10 + d) ds ltac:(lia) Hds) as Hge.
    change (decimal n (d :: ds)) with (decimal (n * 10 + d) ds) in *.
    rewrite (bind_ok _ _ _ _ _ (peek_digit data p d Hd Hc)).
    rewrite (bind_ok _ _ _ _ _ (peekDigit_eq data p d Hd Hc)). cbv zeta.
    rewrite u32_id by lia. rewrite (proj2 (Z.leb_le n _)) by lia.
    rewrite (bind_ok _ _ _ _ _ (consume_eq data p _ Hc)), Hdata.
    rewrite (IH fuel (pre ++ [digit_char d])); try (done || lia).
    + rewrite set_pos_set_pos, length_app. simpl. do 3 f_equal. lia.
    + rewrite length_app. simpl. lia.
    + simpl in Hf. lia.
Qed.
End number.

(** A number of the pattern is read as its decimal value whenever the
    value fits the 32 bits of the result: the position moves behind the last
    digit and nothing else changes. *)
Theorem consumeNumber_decimal {D} pre d ds rest (p : Parser D)
    (Hd : 0 <= d <= 9) (Hds : Forall (fun d => 0 <= d <= 9) ds) (Hfit : decimal d ds < 2 ^ 32)
    (Hrest : match rest with [] => True | c :: _ => isASCIIDigit c = false end)
    (Hp : m_pos p = Z.of_nat (length pre)) :
  consumeNumber (pre ++ (digit_char <$> d :: ds) ++ rest) p
    = Ok (decimal d ds, set_pos (Z.of_nat (length pre + S (length ds))) p).
Proof.
  set (data := pre ++ _).
  assert (aget data (m_pos p) = Some (digit_char d)) as Hc by (rewrite Hp; apply aget_app_pre).
  assert (data = (pre ++ [digit_char d]) ++ (digit_char <$> ds) ++ rest) as Hdata.
  { subst data. simpl. by rewrite <- !app_assoc. }
  assert (length ds < loop_fuel data)%nat as Hf.
  { unfold loop_fuel. rewrite Hdata, !length_app, length_fmap. lia. }
  unfold consumeNumber. rewrite (bind_ok _ _ _ _ _ (consumeDigit_eq data p d Hd Hc)).
  revert Hf. generalize (loop_fuel data). intros fuel Hf. rewrite Hdata.
  rewrite (number_loop rest Hrest ds fuel (pre ++ [digit_char d])); try (done || lia).
  - rewrite set_pos_set_pos, length_app. simpl. do 3 f_equal. lia.
  - rewrite length_app. simpl. lia.
Qed.

Lemma consumeNumber_decimal_witness :
  consumeNumber (chars "{4294967295}") (set_pos 1 (init_parser tt))
    = Ok (quantifyInfinite, set_pos 11 (init_parser tt)).
Proof.
  apply (consumeNumber_decimal [chr "{"] 4 [2; 9; 4; 9; 6; 7; 2; 9; 5] [chr "}"] (set_pos 1 (init_parser tt)));
    [done | by repeat constructor | done | done | done].
Defined.

(** ** Hexadecimal escapes *)

Lemma hex2_value a b :
  isASCIIHexDigit a = true -> isASCIIHexDigit b = true -> 0 <= a -> 0 <= b ->
  toASCIIHexValue2 a b = toASCIIHexValue a * 16 + toASCIIHexValue b.
Proof.
  intros Ha Hb Pa Pb. pose proof (hex_value_range a Pa Ha). pose proof (hex_value_range b Pb Hb).
  unfold toASCIIHexValue2. change 0xF0 with (Z.shiftl (Z.ones 4) 4).
  rewrite <- Z.shiftl_land, Z.land_ones, Z.mod_small, Z.lor_comm, lor_shiftl_add by lia. lia.
Qed.

Lemma hex_shift n d : 0 <= n -> 0 <= d < 16 -> Z.lor (Z.shiftl n 4) d = n * 16 + d.
Proof. intros. rewrite Z.lor_comm, lor_shiftl_add by lia. lia. Qed.

Section hex.
Context {D : Type} {HD : Delegate D} (data : list Z).
Implicit Types (p : Parser D).

Lemma hex_loop_step count state n p c :
  aget data (m_pos p) = Some c -> isASCIIHexDigit c = true ->
  tryConsumeHex_loop data (S count) state n p
    = tryConsumeHex_loop data count state (Z.lor (Z.shiftl n 4) (toASCIIHexValue c)) (set_pos (m_pos p + 1) p).
Proof.
  intros Hc Hh. pose proof (aget_pos _ _ _ Hc). cbn [tryConsumeHex_loop].
  rewrite (bind_ok _ _ _ _ _ (atEnd_eq data p ltac:(split; lia))), (proj2 (Z.eqb_neq _ _)) by lia.
  rewrite (bind_ok _ _ _ _ _ (peek_eq data p _ Hc)), Hh. cbn [orb negb].
  by rewrite (bind_ok _ _ _ _ _ (consume_eq data p _ Hc)).
Qed.

(** Four digits, of two bytes. *)
Lemma tryConsumeHex_bytes p a b c d :
  isASCIIHexDigit a = true -> isASCIIHexDigit b = true -> isASCIIHexDigit c = true ->
  isASCIIHexDigit d = true -> 0 <= a -> 0 <= b -> 0 <= c -> 0 <= d ->
  aget data (m_pos p) = Some a -> aget data (m_pos p + 1) = Some b ->
  aget data (m_pos p + 2) = Some c -> aget data (m_pos p + 3) = Some d ->
  tryConsumeHex data 4 p
    = Ok (toASCIIHexValue2 a b * 256 + toASCIIHexValue2 c d, set_pos (m_pos p + 4) p).
Proof.
  intros Ha Hb Hc Hd Pa Pb Pc Pd Ga Gb Gc Gd.
  unfold tryConsumeHex. rewrite (bind_ok saveState _ p (m_pos p) p eq_refl).
  rewrite (hex_loop_step _ _ _ p a) by done.
  rewrite (hex_loop_step _ _ _ (set_pos (m_pos p + 1) p) b) by done.
  rewrite (hex_loop_step _ _ _ _ c) by (done || by rewrite <- Gc; simpl; f_equal; lia).
  rewrite (hex_loop_step _ _ _ _ d) by (done || by rewrite <- Gd; simpl; f_equal; lia).
  cbn [tryConsumeHex_loop]. rewrite !hex2_value by done.
  pose proof (hex_value_range a Pa Ha). pose proof (hex_value_range b Pb Hb).
  pose proof (hex_value_range c Pc Hc). pose proof (hex_value_range d Pd Hd).
  rewrite (hex_shift 0), (hex_shift (_ + _)), (hex_shift (_ + _)), (hex_shift (_ + _)) by lia.
  unfold mret, M_ret. rewrite !set_pos_set_pos. simpl. do 2 f_equal; [lia | f_equal; lia].
Qed.

End hex.

(** A code unit as the four digits of a unicode escape. *)
Definition unicode_escape (n : Z) : list Z :=
  [chr "\"; chr "u";
   upperNibbleToASCIIHexDigit (n / 256); lowerNibbleToASCIIHexDigit (n / 256);
   upperNibbleToASCIIHexDigit (n mod 256); lowerNibbleToASCIIHexDigit (n mod 256)].

Lemma nibble_nonneg b :
  0 <= upperNibbleToASCIIHexDigit b /\ 0 <= lowerNibbleToASCIIHexDigit b.
Proof.
  unfold upperNibbleToASCIIHexDigit, lowerNibbleToASCIIHexDigit. change 15 with (Z.ones 4).
  rewrite !Z.land_ones by lia. pose proof (Z.mod_pos_bound b 16). pose proof (Z.mod_pos_bound (b ≫ 4) 16).
  change (chr "0") with 48. change (chr "A") with 65. change (2 ^ 4) with 16.
  split; [destruct (_ <? _) | destruct (_ <? _)]; lia.
Qed.

(** A unicode escape with the hexadecimal digits of a code unit calls
    [atomPatternCharacter] with that code unit, for every delegate and at
    every place of the pattern, and the position moves behind the escape. *)
Theorem unicode_escape_roundtrip {D} {HD : Delegate D} pre n rest limit (p : Parser D)
    (Hn : 0 <= n < 65536) (Herr : m_err p = NoError) (Hp : m_pos p = Z.of_nat (length pre)) :
  parseAtomEscape (pre ++ unicode_escape n ++ rest) limit p
    = Ok (true, set_delegate (atomPatternCharacter n (m_delegate p)) (set_pos (m_pos p + 6) p)).
Proof.
  set (data := pre ++ _).
  assert (forall k c, unicode_escape n !! k = Some c -> aget data (m_pos p + Z.of_nat k) = Some c) as Hget.
  { intros k c Hk. apply aget_Some. split; [lia |]. subst data.
    replace (Z.to_nat _) with (length pre + k)%nat by lia.
    rewrite lookup_app_r by lia. replace (_ + k - _)%nat with k by lia. by apply lookup_app_l_Some. }
  pose proof (aget_pos _ _ _ (Hget 5%nat _ eq_refl)) as Hsz.
  destruct (nibbles_roundtrip (n / 256)) as (V1 & H1 & H2); [split; [apply Z.div_pos | apply Z.div_lt_upper_bound]; lia |].
  destruct (nibbles_roundtrip (n mod 256)) as (V2 & H3 & H4); [apply Z.mod_pos_bound; lia |].
  pose proof (nibble_nonneg (n / 256)) as [N1 N2]. pose proof (nibble_nonneg (n mod 256)) as [N3 N4].
  rewrite parseAtomEscape_eq by (done || by rewrite <- (Hget 0%nat _ eq_refl), Z.add_0_r).
  unfold after_backslash.
  rewrite (bind_ok _ _ _ _ _ (atEnd_eq data (set_pos (m_pos p + 1) p) ltac:(split; simpl; lia))).
  rewrite (proj2 (Z.eqb_neq _ _)) by (simpl; lia).
  rewrite (bind_ok _ _ _ _ _ (peek_eq data (set_pos (m_pos p + 1) p) _ (Hget 1%nat _ eq_refl))).
  change (escape_switch data limit false member_delegate (chr "u"))
    with (escape_hex (D := D) data 4 (chr "u") member_delegate).
  unfold escape_hex. rewrite (bind_ok _ _ _ _ _ (consume_eq data _ _ (Hget 1%nat _ eq_refl : aget data (m_pos (set_pos (m_pos p + 1) p)) = _))).
  erewrite (bind_ok (tryConsumeHex data 4)).
  2:{ apply (tryConsumeHex_bytes data (set_pos (m_pos p + 1 + 1) p)); [exact H1 | exact H2 | exact H3 | exact H4 | lia .. | | | |]; simpl;
      [rewrite <- (Hget 2%nat _ eq_refl) | rewrite <- (Hget 3%nat _ eq_refl)
      | rewrite <- (Hget 4%nat _ eq_refl) | rewrite <- (Hget 5%nat _ eq_refl)]; f_equal; lia. }
  rewrite V1, V2. replace (n / 256 * 256 + n mod 256) with n by (pose proof (Z.div_mod n 256); lia).
  rewrite (proj2 (Z.eqb_neq n _)), u16_id by lia.
  unfold mbind, M_bind, member_delegate, emit, mmod, mret, M_ret, set_delegate. simpl.
  by replace (m_pos p + 1 + 1 + 4) with (m_pos p + 6) by lia.
Qed.

Lemma unicode_escape_roundtrip_witness :
  unicode_escape 0x20AC = chars "\u20AC" /\
  parseAtomEscape (chars "a" ++ unicode_escape 0x20AC ++ chars "b") 0 (set_pos 1 (init_parser (D := list event) []))
    = Ok (true, set_delegate [EvPatternCharacter 0x20AC] (set_pos 7 (init_parser []))).
Proof.
  split; [reflexivity |].
  pose proof (unicode_escape_roundtrip (chars "a") 0x20AC (chars "b") 0 (set_pos 1 (init_parser (D := list event) []))
    ltac:(lia) eq_refl eq_refl) as H. exact H.
Defined.

(** ** Letters *)

(** The comparison of any character with a lower case letter, which
    sets a bit of the character without testing it, is the comparison of the
    character in lower case: no other character is taken for the letter. *)
Theorem caseless_equal_lower c letter (Hc : 0 <= c) (Hl : isASCIILower letter = true) :
  isASCIIAlphaCaselessEqual c letter = (toASCIILower c =? letter).
Proof.
  unfold isASCIILower in Hl. change (chr "a") with 97 in Hl. change (chr "z") with 122 in Hl. zbool.
  destruct (Z.lt_ge_cases c 128) as [Hlt | Hge].
  - assert (forallb (fun l => eqb (isASCIIAlphaCaselessEqual c l) (toASCIILower c =? l))
              (Z.of_nat <$> seq 97 26) = true) as Hall.
    { apply (ascii_forall (fun c => forallb (fun l =>
        eqb (isASCIIAlphaCaselessEqual c l) (toASCIILower c =? l)) (Z.of_nat <$> seq 97 26)));
        [by vm_compute | lia]. }
    rewrite forallb_forall in Hall. apply Bool.eqb_prop, Hall, list_elem_of_In, list_elem_of_fmap.
    exists (Z.to_nat letter). rewrite Z2Nat.id by lia. split; [done |]. apply elem_of_seq. lia.
  - pose proof (lor_32_ge c Hge). unfold isASCIIAlphaCaselessEqual, toASCIILowerUnchecked, toASCIILower, isASCIIUpper.
    change (chr "Z") with 90. rewrite (proj2 (Z.leb_gt c 90)) by lia. rewrite andb_false_r. simpl.
    rewrite Z.lor_0_r. by rewrite !(proj2 (Z.eqb_neq _ letter)) by lia.
Qed.

Lemma caseless_equal_lower_witness :
  isASCIIAlphaCaselessEqual (chr "K") (chr "k") = (toASCIILower (chr "K") =? chr "k").
Proof. apply (caseless_equal_lower (chr "K") (chr "k")); [by vm_compute | reflexivity]. Defined.

(** Beyond 32 bits the overflow test of [consumeNumber] misses wrapped
    values that are not below the value before: a quantifier of five thousand
    million is accepted as one of 705032704, while 4294967296 is stopped at the
    digit that overflows, so that its braces are ordinary characters. *)
Theorem consumeNumber_overflow :
  parse [] (chars "a{5000000000}") quantifyInfinite
    = Ok (NoError, [EvPatternCharacter 97; EvQuantify 705032704 705032704 true]) /\
  parse [] (chars "a{4294967296}") quantifyInfinite
    = Ok (NoError, EvPatternCharacter <$> chars "a{4294967296}").
Proof. split; by vm_compute. Qed.
