(* ===== verification/YarrCanonicalize.v ===== *)
(** * Canonicalization of characters

    yarr/YarrCanonicalizeUCS2.cpp and .h: for every UTF-16 code unit the code
    units it matches when case is ignored.  The table divides the code units
    into ranges; a search in it and the comparison under case are the
    functions of the header.  Reading outside a table is a fault. *)

From stdpp Require Import base numbers list.
From S2P Require Import Prelude.

#[local] Open Scope Z_scope.

Inductive UCS2CanonicalizationType :=
  | CanonicalizeUnique
  | CanonicalizeSet
  | CanonicalizeRangeLo
  | CanonicalizeRangeHi
  | CanonicalizeAlternatingAligned
  | CanonicalizeAlternatingUnaligned.

#[global] Instance CanonicalizationType_eq_dec : EqDecision UCS2CanonicalizationType.
Proof. solve_decision. Defined.

Record UCS2CanonicalizationRange := mk_range_info {
  ri_begin : Z;
  ri_end : Z;
  ri_value : Z;
  ri_type : UCS2CanonicalizationType
}.

(** ** The tables *)

(** The sets, without the zero that ends them. *)
Definition characterSetInfo : list (list Z) :=
  [ [0x01c4; 0x01c5; 0x01c6];
    [0x01c7; 0x01c8; 0x01c9];
    [0x01ca; 0x01cb; 0x01cc];
    [0x01f1; 0x01f2; 0x01f3];
    [0x0392; 0x03b2; 0x03d0];
    [0x0395; 0x03b5; 0x03f5];
    [0x0398; 0x03b8; 0x03d1];
    [0x0345; 0x0399; 0x03b9; 0x1fbe];
    [0x039a; 0x03ba; 0x03f0];
    [0x00b5; 0x039c; 0x03bc];
    [0x03a0; 0x03c0; 0x03d6];
    [0x03a1; 0x03c1; 0x03f1];
    [0x03a3; 0x03c2; 0x03c3];
    [0x03a6; 0x03c6; 0x03d5];
    [0x1e60; 0x1e61; 0x1e9b] ].

Definition rangeInfo : list UCS2CanonicalizationRange :=
  [ mk_range_info 0x0000 0x0040 0x0000 CanonicalizeUnique;
    mk_range_info 0x0041 0x005a 0x0020 CanonicalizeRangeLo;
    mk_range_info 0x005b 0x0060 0x0000 CanonicalizeUnique;
    mk_range_info 0x0061 0x007a 0x0020 CanonicalizeRangeHi;
    mk_range_info 0x007b 0x00b4 0x0000 CanonicalizeUnique;
    mk_range_info 0x00b5 0x00b5 0x0009 CanonicalizeSet;
    mk_range_info 0x00b6 0x00bf 0x0000 CanonicalizeUnique;
    mk_range_info 0x00c0 0x00d6 0x0020 CanonicalizeRangeLo;
    mk_range_info 0x00d7 0x00d7 0x0000 CanonicalizeUnique;
    mk_range_info 0x00d8 0x00de 0x0020 CanonicalizeRangeLo;
    mk_range_info 0x00df 0x00df 0x0000 CanonicalizeUnique;
    mk_range_info 0x00e0 0x00f6 0x0020 CanonicalizeRangeHi;
    mk_range_info 0x00f7 0x00f7 0x0000 CanonicalizeUnique;
    mk_range_info 0x00f8 0x00fe 0x0020 CanonicalizeRangeHi;
    mk_range_info 0x00ff 0x00ff 0x0079 CanonicalizeRangeLo;
    mk_range_info 0x0100 0x012f 0x0000 CanonicalizeAlternatingAligned;
    mk_range_info 0x0130 0x0131 0x0000 CanonicalizeUnique;
    mk_range_info 0x0132 0x0137 0x0000 CanonicalizeAlternatingAligned;
    mk_range_info 0x0138 0x0138 0x0000 CanonicalizeUnique;
    mk_range_info 0x0139 0x0148 0x0000 CanonicalizeAlternatingUnaligned;
    mk_range_info 0x0149 0x0149 0x0000 CanonicalizeUnique;
    mk_range_info 0x014a 0x0177 0x0000 CanonicalizeAlternatingAligned;
    mk_range_info 0x0178 0x0178 0x0079 CanonicalizeRangeHi;
    mk_range_info 0x0179 0x017e 0x0000 CanonicalizeAlternatingUnaligned;
    mk_range_info 0x017f 0x017f 0x0000 CanonicalizeUnique;
    mk_range_info 0x0180 0x0180 0x00c3 CanonicalizeRangeLo;
    mk_range_info 0x0181 0x0181 0x00d2 CanonicalizeRangeLo;
    mk_range_info 0x0182 0x0185 0x0000 CanonicalizeAlternatingAligned;
    mk_range_info 0x0186 0x0186 0x00ce CanonicalizeRangeLo;
    mk_range_info 0x0187 0x0188 0x0000 CanonicalizeAlternatingUnaligned;
    mk_range_info 0x0189 0x018a 0x00cd CanonicalizeRangeLo;
    mk_range_info 0x018b 0x018c 0x0000 CanonicalizeAlternatingUnaligned;
    mk_range_info 0x018d 0x018d 0x0000 CanonicalizeUnique;
    mk_range_info 0x018e 0x018e 0x004f CanonicalizeRangeLo;
    mk_range_info 0x018f 0x018f 0x00ca CanonicalizeRangeLo;
    mk_range_info 0x0190 0x0190 0x00cb CanonicalizeRangeLo;
    mk_range_info 0x0191 0x0192 0x0000 CanonicalizeAlternatingUnaligned;
    mk_range_info 0x0193 0x0193 0x00cd CanonicalizeRangeLo;
    mk_range_info 0x0194 0x0194 0x00cf CanonicalizeRangeLo;
    mk_range_info 0x0195 0x0195 0x0061 CanonicalizeRangeLo;
    mk_range_info 0x0196 0x0196 0x00d3 CanonicalizeRangeLo;
    mk_range_info 0x0197 0x0197 0x00d1 CanonicalizeRangeLo;
    mk_range_info 0x0198 0x0199 0x0000 CanonicalizeAlternatingAligned;
    mk_range_info 0x019a 0x019a 0x00a3 CanonicalizeRangeLo;
    mk_range_info 0x019b 0x019b 0x0000 CanonicalizeUnique;
    mk_range_info 0x019c 0x019c 0x00d3 CanonicalizeRangeLo;
    mk_range_info 0x019d 0x019d 0x00d5 CanonicalizeRangeLo;
    mk_range_info 0x019e 0x019e 0x0082 CanonicalizeRangeLo;
    mk_range_info 0x019f 0x019f 0x00d6 CanonicalizeRangeLo;
    mk_range_info 0x01a0 0x01a5 0x0000 CanonicalizeAlternatingAligned;
    mk_range_info 0x01a6 0x01a6 0x00da CanonicalizeRangeLo;
    mk_range_info 0x01a7 0x01a8 0x0000 CanonicalizeAlternatingUnaligned;
    mk_range_info 0x01a9 0x01a9 0x00da CanonicalizeRangeLo;
    mk_range_info 0x01aa 0x01ab 0x0000 CanonicalizeUnique;
    mk_range_info 0x01ac 0x01ad 0x0000 CanonicalizeAlternatingAligned;
    mk_range_info 0x01ae 0x01ae 0x00da CanonicalizeRangeLo;
    mk_range_info 0x01af 0x01b0 0x0000 CanonicalizeAlternatingUnaligned;
    mk_range_info 0x01b1 0x01b2 0x00d9 CanonicalizeRangeLo;
    mk_range_info 0x01b3 0x01b6 0x0000 CanonicalizeAlternatingUnaligned;
    mk_range_info 0x01b7 0x01b7 0x00db CanonicalizeRangeLo;
    mk_range_info 0x01b8 0x01b9 0x0000 CanonicalizeAlternatingAligned;
    mk_range_info 0x01ba 0x01bb 0x0000 CanonicalizeUnique;
    mk_range_info 0x01bc 0x01bd 0x0000 CanonicalizeAlternatingAligned;
    mk_range_info 0x01be 0x01be 0x0000 CanonicalizeUnique;
    mk_range_info 0x01bf 0x01bf 0x0038 CanonicalizeRangeLo;
    mk_range_info 0x01c0 0x01c3 0x0000 CanonicalizeUnique;
    mk_range_info 0x01c4 0x01c6 0x0000 CanonicalizeSet;
    mk_range_info 0x01c7 0x01c9 0x0001 CanonicalizeSet;
    mk_range_info 0x01ca 0x01cc 0x0002 CanonicalizeSet;
    mk_range_info 0x01cd 0x01dc 0x0000 CanonicalizeAlternatingUnaligned;
    mk_range_info 0x01dd 0x01dd 0x004f CanonicalizeRangeHi;
    mk_range_info 0x01de 0x01ef 0x0000 CanonicalizeAlternatingAligned;
    mk_range_info 0x01f0 0x01f0 0x0000 CanonicalizeUnique;
    mk_range_info 0x01f1 0x01f3 0x0003 CanonicalizeSet;
    mk_range_info 0x01f4 0x01f5 0x0000 CanonicalizeAlternatingAligned;
    mk_range_info 0x01f6 0x01f6 0x0061 CanonicalizeRangeHi;
    mk_range_info 0x01f7 0x01f7 0x0038 CanonicalizeRangeHi;
    mk_range_info 0x01f8 0x021f 0x0000 CanonicalizeAlternatingAligned;
    mk_range_info 0x0220 0x0220 0x0082 CanonicalizeRangeHi;
    mk_range_info 0x0221 0x0221 0x0000 CanonicalizeUnique;
    mk_range_info 0x0222 0x0233 0x0000 CanonicalizeAlternatingAligned;
    mk_range_info 0x0234 0x0239 0x0000 CanonicalizeUnique;
    mk_range_info 0x023a 0x023a 0x2a2b CanonicalizeRangeLo;
    mk_range_info 0x023b 0x023c 0x0000 CanonicalizeAlternatingUnaligned;
    mk_range_info 0x023d 0x023d 0x00a3 CanonicalizeRangeHi;
    mk_range_info 0x023e 0x023e 0x2a28 CanonicalizeRangeLo;
    mk_range_info 0x023f 0x0240 0x2a3f CanonicalizeRangeLo;
    mk_range_info 0x0241 0x0242 0x0000 CanonicalizeAlternatingUnaligned;
    mk_range_info 0x0243 0x0243 0x00c3 CanonicalizeRangeHi;
    mk_range_info 0x0244 0x0244 0x0045 CanonicalizeRangeLo;
    mk_range_info 0x0245 0x0245 0x0047 CanonicalizeRangeLo;
    mk_range_info 0x0246 0x024f 0x0000 CanonicalizeAlternatingAligned;
    mk_range_info 0x0250 0x0250 0x2a1f CanonicalizeRangeLo;
    mk_range_info 0x0251 0x0251 0x2a1c CanonicalizeRangeLo;
    mk_range_info 0x0252 0x0252 0x2a1e CanonicalizeRangeLo;
    mk_range_info 0x0253 0x0253 0x00d2 CanonicalizeRangeHi;
    mk_range_info 0x0254 0x0254 0x00ce CanonicalizeRangeHi;
    mk_range_info 0x0255 0x0255 0x0000 CanonicalizeUnique;
    mk_range_info 0x0256 0x0257 0x00cd CanonicalizeRangeHi;
    mk_range_info 0x0258 0x0258 0x0000 CanonicalizeUnique;
    mk_range_info 0x0259 0x0259 0x00ca CanonicalizeRangeHi;
    mk_range_info 0x025a 0x025a 0x0000 CanonicalizeUnique;
    mk_range_info 0x025b 0x025b 0x00cb CanonicalizeRangeHi;
    mk_range_info 0x025c 0x025f 0x0000 CanonicalizeUnique;
    mk_range_info 0x0260 0x0260 0x00cd CanonicalizeRangeHi;
    mk_range_info 0x0261 0x0262 0x0000 CanonicalizeUnique;
    mk_range_info 0x0263 0x0263 0x00cf CanonicalizeRangeHi;
    mk_range_info 0x0264 0x0264 0x0000 CanonicalizeUnique;
    mk_range_info 0x0265 0x0265 0xa528 CanonicalizeRangeLo;
    mk_range_info 0x0266 0x0267 0x0000 CanonicalizeUnique;
    mk_range_info 0x0268 0x0268 0x00d1 CanonicalizeRangeHi;
    mk_range_info 0x0269 0x0269 0x00d3 CanonicalizeRangeHi;
    mk_range_info 0x026a 0x026a 0x0000 CanonicalizeUnique;
    mk_range_info 0x026b 0x026b 0x29f7 CanonicalizeRangeLo;
    mk_range_info 0x026c 0x026e 0x0000 CanonicalizeUnique;
    mk_range_info 0x026f 0x026f 0x00d3 CanonicalizeRangeHi;
    mk_range_info 0x0270 0x0270 0x0000 CanonicalizeUnique;
    mk_range_info 0x0271 0x0271 0x29fd CanonicalizeRangeLo;
    mk_range_info 0x0272 0x0272 0x00d5 CanonicalizeRangeHi;
    mk_range_info 0x0273 0x0274 0x0000 CanonicalizeUnique;
    mk_range_info 0x0275 0x0275 0x00d6 CanonicalizeRangeHi;
    mk_range_info 0x0276 0x027c 0x0000 CanonicalizeUnique;
    mk_range_info 0x027d 0x027d 0x29e7 CanonicalizeRangeLo;
    mk_range_info 0x027e 0x027f 0x0000 CanonicalizeUnique;
    mk_range_info 0x0280 0x0280 0x00da CanonicalizeRangeHi;
    mk_range_info 0x0281 0x0282 0x0000 CanonicalizeUnique;
    mk_range_info 0x0283 0x0283 0x00da CanonicalizeRangeHi;
    mk_range_info 0x0284 0x0287 0x0000 CanonicalizeUnique;
    mk_range_info 0x0288 0x0288 0x00da CanonicalizeRangeHi;
    mk_range_info 0x0289 0x0289 0x0045 CanonicalizeRangeHi;
    mk_range_info 0x028a 0x028b 0x00d9 CanonicalizeRangeHi;
    mk_range_info 0x028c 0x028c 0x0047 CanonicalizeRangeHi;
    mk_range_info 0x028d 0x0291 0x0000 CanonicalizeUnique;
    mk_range_info 0x0292 0x0292 0x00db CanonicalizeRangeHi;
    mk_range_info 0x0293 0x0344 0x0000 CanonicalizeUnique;
    mk_range_info 0x0345 0x0345 0x0007 CanonicalizeSet;
    mk_range_info 0x0346 0x036f 0x0000 CanonicalizeUnique;
    mk_range_info 0x0370 0x0373 0x0000 CanonicalizeAlternatingAligned;
    mk_range_info 0x0374 0x0375 0x0000 CanonicalizeUnique;
    mk_range_info 0x0376 0x0377 0x0000 CanonicalizeAlternatingAligned;
    mk_range_info 0x0378 0x037a 0x0000 CanonicalizeUnique;
    mk_range_info 0x037b 0x037d 0x0082 CanonicalizeRangeLo;
    mk_range_info 0x037e 0x0385 0x0000 CanonicalizeUnique;
    mk_range_info 0x0386 0x0386 0x0026 CanonicalizeRangeLo;
    mk_range_info 0x0387 0x0387 0x0000 CanonicalizeUnique;
    mk_range_info 0x0388 0x038a 0x0025 CanonicalizeRangeLo;
    mk_range_info 0x038b 0x038b 0x0000 CanonicalizeUnique;
    mk_range_info 0x038c 0x038c 0x0040 CanonicalizeRangeLo;
    mk_range_info 0x038d 0x038d 0x0000 CanonicalizeUnique;
    mk_range_info 0x038e 0x038f 0x003f CanonicalizeRangeLo;
    mk_range_info 0x0390 0x0390 0x0000 CanonicalizeUnique;
    mk_range_info 0x0391 0x0391 0x0020 CanonicalizeRangeLo;
    mk_range_info 0x0392 0x0392 0x0004 CanonicalizeSet;
    mk_range_info 0x0393 0x0394 0x0020 CanonicalizeRangeLo;
    mk_range_info 0x0395 0x0395 0x0005 CanonicalizeSet;
    mk_range_info 0x0396 0x0397 0x0020 CanonicalizeRangeLo;
    mk_range_info 0x0398 0x0398 0x0006 CanonicalizeSet;
    mk_range_info 0x0399 0x0399 0x0007 CanonicalizeSet;
    mk_range_info 0x039a 0x039a 0x0008 CanonicalizeSet;
    mk_range_info 0x039b 0x039b 0x0020 CanonicalizeRangeLo;
    mk_range_info 0x039c 0x039c 0x0009 CanonicalizeSet;
    mk_range_info 0x039d 0x039f 0x0020 CanonicalizeRangeLo;
    mk_range_info 0x03a0 0x03a0 0x000a CanonicalizeSet;
    mk_range_info 0x03a1 0x03a1 0x000b CanonicalizeSet;
    mk_range_info 0x03a2 0x03a2 0x0000 CanonicalizeUnique;
    mk_range_info 0x03a3 0x03a3 0x000c CanonicalizeSet;
    mk_range_info 0x03a4 0x03a5 0x0020 CanonicalizeRangeLo;
    mk_range_info 0x03a6 0x03a6 0x000d CanonicalizeSet;
    mk_range_info 0x03a7 0x03ab 0x0020 CanonicalizeRangeLo;
    mk_range_info 0x03ac 0x03ac 0x0026 CanonicalizeRangeHi;
    mk_range_info 0x03ad 0x03af 0x0025 CanonicalizeRangeHi;
    mk_range_info 0x03b0 0x03b0 0x0000 CanonicalizeUnique;
    mk_range_info 0x03b1 0x03b1 0x0020 CanonicalizeRangeHi;
    mk_range_info 0x03b2 0x03b2 0x0004 CanonicalizeSet;
    mk_range_info 0x03b3 0x03b4 0x0020 CanonicalizeRangeHi;
    mk_range_info 0x03b5 0x03b5 0x0005 CanonicalizeSet;
    mk_range_info 0x03b6 0x03b7 0x0020 CanonicalizeRangeHi;
    mk_range_info 0x03b8 0x03b8 0x0006 CanonicalizeSet;
    mk_range_info 0x03b9 0x03b9 0x0007 CanonicalizeSet;
    mk_range_info 0x03ba 0x03ba 0x0008 CanonicalizeSet;
    mk_range_info 0x03bb 0x03bb 0x0020 CanonicalizeRangeHi;
    mk_range_info 0x03bc 0x03bc 0x0009 CanonicalizeSet;
    mk_range_info 0x03bd 0x03bf 0x0020 CanonicalizeRangeHi;
    mk_range_info 0x03c0 0x03c0 0x000a CanonicalizeSet;
    mk_range_info 0x03c1 0x03c1 0x000b CanonicalizeSet;
    mk_range_info 0x03c2 0x03c3 0x000c CanonicalizeSet;
    mk_range_info 0x03c4 0x03c5 0x0020 CanonicalizeRangeHi;
    mk_range_info 0x03c6 0x03c6 0x000d CanonicalizeSet;
    mk_range_info 0x03c7 0x03cb 0x0020 CanonicalizeRangeHi;
    mk_range_info 0x03cc 0x03cc 0x0040 CanonicalizeRangeHi;
    mk_range_info 0x03cd 0x03ce 0x003f CanonicalizeRangeHi;
    mk_range_info 0x03cf 0x03cf 0x0008 CanonicalizeRangeLo;
    mk_range_info 0x03d0 0x03d0 0x0004 CanonicalizeSet;
    mk_range_info 0x03d1 0x03d1 0x0006 CanonicalizeSet;
    mk_range_info 0x03d2 0x03d4 0x0000 CanonicalizeUnique;
    mk_range_info 0x03d5 0x03d5 0x000d CanonicalizeSet;
    mk_range_info 0x03d6 0x03d6 0x000a CanonicalizeSet;
    mk_range_info 0x03d7 0x03d7 0x0008 CanonicalizeRangeHi;
    mk_range_info 0x03d8 0x03ef 0x0000 CanonicalizeAlternatingAligned;
    mk_range_info 0x03f0 0x03f0 0x0008 CanonicalizeSet;
    mk_range_info 0x03f1 0x03f1 0x000b CanonicalizeSet;
    mk_range_info 0x03f2 0x03f2 0x0007 CanonicalizeRangeLo;
    mk_range_info 0x03f3 0x03f4 0x0000 CanonicalizeUnique;
    mk_range_info 0x03f5 0x03f5 0x0005 CanonicalizeSet;
    mk_range_info 0x03f6 0x03f6 0x0000 CanonicalizeUnique;
    mk_range_info 0x03f7 0x03f8 0x0000 CanonicalizeAlternatingUnaligned;
    mk_range_info 0x03f9 0x03f9 0x0007 CanonicalizeRangeHi;
    mk_range_info 0x03fa 0x03fb 0x0000 CanonicalizeAlternatingAligned;
    mk_range_info 0x03fc 0x03fc 0x0000 CanonicalizeUnique;
    mk_range_info 0x03fd 0x03ff 0x0082 CanonicalizeRangeHi;
    mk_range_info 0x0400 0x040f 0x0050 CanonicalizeRangeLo;
    mk_range_info 0x0410 0x042f 0x0020 CanonicalizeRangeLo;
    mk_range_info 0x0430 0x044f 0x0020 CanonicalizeRangeHi;
    mk_range_info 0x0450 0x045f 0x0050 CanonicalizeRangeHi;
    mk_range_info 0x0460 0x0481 0x0000 CanonicalizeAlternatingAligned;
    mk_range_info 0x0482 0x0489 0x0000 CanonicalizeUnique;
    mk_range_info 0x048a 0x04bf 0x0000 CanonicalizeAlternatingAligned;
    mk_range_info 0x04c0 0x04c0 0x000f CanonicalizeRangeLo;
    mk_range_info 0x04c1 0x04ce 0x0000 CanonicalizeAlternatingUnaligned;
    mk_range_info 0x04cf 0x04cf 0x000f CanonicalizeRangeHi;
    mk_range_info 0x04d0 0x0527 0x0000 CanonicalizeAlternatingAligned;
    mk_range_info 0x0528 0x0530 0x0000 CanonicalizeUnique;
    mk_range_info 0x0531 0x0556 0x0030 CanonicalizeRangeLo;
    mk_range_info 0x0557 0x0560 0x0000 CanonicalizeUnique;
    mk_range_info 0x0561 0x0586 0x0030 CanonicalizeRangeHi;
    mk_range_info 0x0587 0x109f 0x0000 CanonicalizeUnique;
    mk_range_info 0x10a0 0x10c5 0x1c60 CanonicalizeRangeLo;
    mk_range_info 0x10c6 0x1d78 0x0000 CanonicalizeUnique;
    mk_range_info 0x1d79 0x1d79 0x8a04 CanonicalizeRangeLo;
    mk_range_info 0x1d7a 0x1d7c 0x0000 CanonicalizeUnique;
    mk_range_info 0x1d7d 0x1d7d 0x0ee6 CanonicalizeRangeLo;
    mk_range_info 0x1d7e 0x1dff 0x0000 CanonicalizeUnique;
    mk_range_info 0x1e00 0x1e5f 0x0000 CanonicalizeAlternatingAligned;
    mk_range_info 0x1e60 0x1e61 0x000e CanonicalizeSet;
    mk_range_info 0x1e62 0x1e95 0x0000 CanonicalizeAlternatingAligned;
    mk_range_info 0x1e96 0x1e9a 0x0000 CanonicalizeUnique;
    mk_range_info 0x1e9b 0x1e9b 0x000e CanonicalizeSet;
    mk_range_info 0x1e9c 0x1e9f 0x0000 CanonicalizeUnique;
    mk_range_info 0x1ea0 0x1eff 0x0000 CanonicalizeAlternatingAligned;
    mk_range_info 0x1f00 0x1f07 0x0008 CanonicalizeRangeLo;
    mk_range_info 0x1f08 0x1f0f 0x0008 CanonicalizeRangeHi;
    mk_range_info 0x1f10 0x1f15 0x0008 CanonicalizeRangeLo;
    mk_range_info 0x1f16 0x1f17 0x0000 CanonicalizeUnique;
    mk_range_info 0x1f18 0x1f1d 0x0008 CanonicalizeRangeHi;
    mk_range_info 0x1f1e 0x1f1f 0x0000 CanonicalizeUnique;
    mk_range_info 0x1f20 0x1f27 0x0008 CanonicalizeRangeLo;
    mk_range_info 0x1f28 0x1f2f 0x0008 CanonicalizeRangeHi;
    mk_range_info 0x1f30 0x1f37 0x0008 CanonicalizeRangeLo;
    mk_range_info 0x1f38 0x1f3f 0x0008 CanonicalizeRangeHi;
    mk_range_info 0x1f40 0x1f45 0x0008 CanonicalizeRangeLo;
    mk_range_info 0x1f46 0x1f47 0x0000 CanonicalizeUnique;
    mk_range_info 0x1f48 0x1f4d 0x0008 CanonicalizeRangeHi;
    mk_range_info 0x1f4e 0x1f50 0x0000 CanonicalizeUnique;
    mk_range_info 0x1f51 0x1f51 0x0008 CanonicalizeRangeLo;
    mk_range_info 0x1f52 0x1f52 0x0000 CanonicalizeUnique;
    mk_range_info 0x1f53 0x1f53 0x0008 CanonicalizeRangeLo;
    mk_range_info 0x1f54 0x1f54 0x0000 CanonicalizeUnique;
    mk_range_info 0x1f55 0x1f55 0x0008 CanonicalizeRangeLo;
    mk_range_info 0x1f56 0x1f56 0x0000 CanonicalizeUnique;
    mk_range_info 0x1f57 0x1f57 0x0008 CanonicalizeRangeLo;
    mk_range_info 0x1f58 0x1f58 0x0000 CanonicalizeUnique;
    mk_range_info 0x1f59 0x1f59 0x0008 CanonicalizeRangeHi;
    mk_range_info 0x1f5a 0x1f5a 0x0000 CanonicalizeUnique;
    mk_range_info 0x1f5b 0x1f5b 0x0008 CanonicalizeRangeHi;
    mk_range_info 0x1f5c 0x1f5c 0x0000 CanonicalizeUnique;
    mk_range_info 0x1f5d 0x1f5d 0x0008 CanonicalizeRangeHi;
    mk_range_info 0x1f5e 0x1f5e 0x0000 CanonicalizeUnique;
    mk_range_info 0x1f5f 0x1f5f 0x0008 CanonicalizeRangeHi;
    mk_range_info 0x1f60 0x1f67 0x0008 CanonicalizeRangeLo;
    mk_range_info 0x1f68 0x1f6f 0x0008 CanonicalizeRangeHi;
    mk_range_info 0x1f70 0x1f71 0x004a CanonicalizeRangeLo;
    mk_range_info 0x1f72 0x1f75 0x0056 CanonicalizeRangeLo;
    mk_range_info 0x1f76 0x1f77 0x0064 CanonicalizeRangeLo;
    mk_range_info 0x1f78 0x1f79 0x0080 CanonicalizeRangeLo;
    mk_range_info 0x1f7a 0x1f7b 0x0070 CanonicalizeRangeLo;
    mk_range_info 0x1f7c 0x1f7d 0x007e CanonicalizeRangeLo;
    mk_range_info 0x1f7e 0x1faf 0x0000 CanonicalizeUnique;
    mk_range_info 0x1fb0 0x1fb1 0x0008 CanonicalizeRangeLo;
    mk_range_info 0x1fb2 0x1fb7 0x0000 CanonicalizeUnique;
    mk_range_info 0x1fb8 0x1fb9 0x0008 CanonicalizeRangeHi;
    mk_range_info 0x1fba 0x1fbb 0x004a CanonicalizeRangeHi;
    mk_range_info 0x1fbc 0x1fbd 0x0000 CanonicalizeUnique;
    mk_range_info 0x1fbe 0x1fbe 0x0007 CanonicalizeSet;
    mk_range_info 0x1fbf 0x1fc7 0x0000 CanonicalizeUnique;
    mk_range_info 0x1fc8 0x1fcb 0x0056 CanonicalizeRangeHi;
    mk_range_info 0x1fcc 0x1fcf 0x0000 CanonicalizeUnique;
    mk_range_info 0x1fd0 0x1fd1 0x0008 CanonicalizeRangeLo;
    mk_range_info 0x1fd2 0x1fd7 0x0000 CanonicalizeUnique;
    mk_range_info 0x1fd8 0x1fd9 0x0008 CanonicalizeRangeHi;
    mk_range_info 0x1fda 0x1fdb 0x0064 CanonicalizeRangeHi;
    mk_range_info 0x1fdc 0x1fdf 0x0000 CanonicalizeUnique;
    mk_range_info 0x1fe0 0x1fe1 0x0008 CanonicalizeRangeLo;
    mk_range_info 0x1fe2 0x1fe4 0x0000 CanonicalizeUnique;
    mk_range_info 0x1fe5 0x1fe5 0x0007 CanonicalizeRangeLo;
    mk_range_info 0x1fe6 0x1fe7 0x0000 CanonicalizeUnique;
    mk_range_info 0x1fe8 0x1fe9 0x0008 CanonicalizeRangeHi;
    mk_range_info 0x1fea 0x1feb 0x0070 CanonicalizeRangeHi;
    mk_range_info 0x1fec 0x1fec 0x0007 CanonicalizeRangeHi;
    mk_range_info 0x1fed 0x1ff7 0x0000 CanonicalizeUnique;
    mk_range_info 0x1ff8 0x1ff9 0x0080 CanonicalizeRangeHi;
    mk_range_info 0x1ffa 0x1ffb 0x007e CanonicalizeRangeHi;
    mk_range_info 0x1ffc 0x2131 0x0000 CanonicalizeUnique;
    mk_range_info 0x2132 0x2132 0x001c CanonicalizeRangeLo;
    mk_range_info 0x2133 0x214d 0x0000 CanonicalizeUnique;
    mk_range_info 0x214e 0x214e 0x001c CanonicalizeRangeHi;
    mk_range_info 0x214f 0x215f 0x0000 CanonicalizeUnique;
    mk_range_info 0x2160 0x216f 0x0010 CanonicalizeRangeLo;
    mk_range_info 0x2170 0x217f 0x0010 CanonicalizeRangeHi;
    mk_range_info 0x2180 0x2182 0x0000 CanonicalizeUnique;
    mk_range_info 0x2183 0x2184 0x0000 CanonicalizeAlternatingUnaligned;
    mk_range_info 0x2185 0x24b5 0x0000 CanonicalizeUnique;
    mk_range_info 0x24b6 0x24cf 0x001a CanonicalizeRangeLo;
    mk_range_info 0x24d0 0x24e9 0x001a CanonicalizeRangeHi;
    mk_range_info 0x24ea 0x2bff 0x0000 CanonicalizeUnique;
    mk_range_info 0x2c00 0x2c2e 0x0030 CanonicalizeRangeLo;
    mk_range_info 0x2c2f 0x2c2f 0x0000 CanonicalizeUnique;
    mk_range_info 0x2c30 0x2c5e 0x0030 CanonicalizeRangeHi;
    mk_range_info 0x2c5f 0x2c5f 0x0000 CanonicalizeUnique;
    mk_range_info 0x2c60 0x2c61 0x0000 CanonicalizeAlternatingAligned;
    mk_range_info 0x2c62 0x2c62 0x29f7 CanonicalizeRangeHi;
    mk_range_info 0x2c63 0x2c63 0x0ee6 CanonicalizeRangeHi;
    mk_range_info 0x2c64 0x2c64 0x29e7 CanonicalizeRangeHi;
    mk_range_info 0x2c65 0x2c65 0x2a2b CanonicalizeRangeHi;
    mk_range_info 0x2c66 0x2c66 0x2a28 CanonicalizeRangeHi;
    mk_range_info 0x2c67 0x2c6c 0x0000 CanonicalizeAlternatingUnaligned;
    mk_range_info 0x2c6d 0x2c6d 0x2a1c CanonicalizeRangeHi;
    mk_range_info 0x2c6e 0x2c6e 0x29fd CanonicalizeRangeHi;
    mk_range_info 0x2c6f 0x2c6f 0x2a1f CanonicalizeRangeHi;
    mk_range_info 0x2c70 0x2c70 0x2a1e CanonicalizeRangeHi;
    mk_range_info 0x2c71 0x2c71 0x0000 CanonicalizeUnique;
    mk_range_info 0x2c72 0x2c73 0x0000 CanonicalizeAlternatingAligned;
    mk_range_info 0x2c74 0x2c74 0x0000 CanonicalizeUnique;
    mk_range_info 0x2c75 0x2c76 0x0000 CanonicalizeAlternatingUnaligned;
    mk_range_info 0x2c77 0x2c7d 0x0000 CanonicalizeUnique;
    mk_range_info 0x2c7e 0x2c7f 0x2a3f CanonicalizeRangeHi;
    mk_range_info 0x2c80 0x2ce3 0x0000 CanonicalizeAlternatingAligned;
    mk_range_info 0x2ce4 0x2cea 0x0000 CanonicalizeUnique;
    mk_range_info 0x2ceb 0x2cee 0x0000 CanonicalizeAlternatingUnaligned;
    mk_range_info 0x2cef 0x2cff 0x0000 CanonicalizeUnique;
    mk_range_info 0x2d00 0x2d25 0x1c60 CanonicalizeRangeHi;
    mk_range_info 0x2d26 0xa63f 0x0000 CanonicalizeUnique;
    mk_range_info 0xa640 0xa66d 0x0000 CanonicalizeAlternatingAligned;
    mk_range_info 0xa66e 0xa67f 0x0000 CanonicalizeUnique;
    mk_range_info 0xa680 0xa697 0x0000 CanonicalizeAlternatingAligned;
    mk_range_info 0xa698 0xa721 0x0000 CanonicalizeUnique;
    mk_range_info 0xa722 0xa72f 0x0000 CanonicalizeAlternatingAligned;
    mk_range_info 0xa730 0xa731 0x0000 CanonicalizeUnique;
    mk_range_info 0xa732 0xa76f 0x0000 CanonicalizeAlternatingAligned;
    mk_range_info 0xa770 0xa778 0x0000 CanonicalizeUnique;
    mk_range_info 0xa779 0xa77c 0x0000 CanonicalizeAlternatingUnaligned;
    mk_range_info 0xa77d 0xa77d 0x8a04 CanonicalizeRangeHi;
    mk_range_info 0xa77e 0xa787 0x0000 CanonicalizeAlternatingAligned;
    mk_range_info 0xa788 0xa78a 0x0000 CanonicalizeUnique;
    mk_range_info 0xa78b 0xa78c 0x0000 CanonicalizeAlternatingUnaligned;
    mk_range_info 0xa78d 0xa78d 0xa528 CanonicalizeRangeHi;
    mk_range_info 0xa78e 0xa78f 0x0000 CanonicalizeUnique;
    mk_range_info 0xa790 0xa791 0x0000 CanonicalizeAlternatingAligned;
    mk_range_info 0xa792 0xa79f 0x0000 CanonicalizeUnique;
    mk_range_info 0xa7a0 0xa7a9 0x0000 CanonicalizeAlternatingAligned;
    mk_range_info 0xa7aa 0xff20 0x0000 CanonicalizeUnique;
    mk_range_info 0xff21 0xff3a 0x0020 CanonicalizeRangeLo;
    mk_range_info 0xff3b 0xff40 0x0000 CanonicalizeUnique;
    mk_range_info 0xff41 0xff5a 0x0020 CanonicalizeRangeHi;
    mk_range_info 0xff5b 0xffff 0x0000 CanonicalizeUnique ].

Definition UCS2_CANONICALIZATION_RANGES : Z := 364.

(** ** The functions *)

Inductive class_fault := Class_oob | Class_assert | Class_fuel.

Section canon.
Context {S : Type}.

Abbreviation CM := (M class_fault S).

Definition class_assert (b : bool) : CM unit := if b then mret tt else mfail Class_assert.

(** The entry of [rangeInfo] a pointer points to. *)
Definition info_at (info : Z) : CM UCS2CanonicalizationRange := of_opt Class_oob (aget rangeInfo info).

Fixpoint rangeInfoFor_loop (fuel : nat) (ch info entries : Z) : CM Z :=
  match fuel with
  | O => mfail Class_fuel
  | Datatypes.S fuel' =>
      let candidate := Z.shiftr entries 1 in
      let candidateInfo := info + candidate in
      r ← info_at candidateInfo;
      if ch <? ri_begin r then rangeInfoFor_loop fuel' ch info candidate
      else if ch <=? ri_end r then mret candidateInfo
      else rangeInfoFor_loop fuel' ch (candidateInfo + 1) (entries - (candidate + 1))
  end.

Definition rangeInfoFor (ch : Z) : CM Z :=
  rangeInfoFor_loop (Datatypes.S (length rangeInfo)) ch 0 UCS2_CANONICALIZATION_RANGES.

Definition getCanonicalPair (info : UCS2CanonicalizationRange) (ch : Z) : CM Z :=
  class_assert ((ri_begin info <=? ch) && (ch <=? ri_end info));;
  match ri_type info with
  | CanonicalizeRangeLo => mret (u16 (ch + ri_value info))
  | CanonicalizeRangeHi => mret (u16 (ch - ri_value info))
  | CanonicalizeAlternatingAligned => mret (Z.lxor ch 1)
  | CanonicalizeAlternatingUnaligned => mret (u16 (Z.lxor (ch - 1) 1 + 1))
  | _ => mfail Class_assert
  end.

Definition isCanonicallyUnique (ch : Z) : CM bool :=
  info ← rangeInfoFor ch; r ← info_at info; mret (bool_decide (ri_type r = CanonicalizeUnique)).

Definition set_at (value : Z) : CM (list Z) := of_opt Class_oob (aget characterSetInfo value).

Definition areCanonicallyEquivalent (a b : Z) : CM bool :=
  i ← rangeInfoFor a; info ← info_at i;
  match ri_type info with
  | CanonicalizeUnique => mret (a =? b)
  | CanonicalizeSet => set ← set_at (ri_value info); mret (existsb (Z.eqb b) set)
  | CanonicalizeRangeLo => mret ((a =? b) || (a + ri_value info =? b))
  | CanonicalizeRangeHi => mret ((a =? b) || (a - ri_value info =? b))
  | CanonicalizeAlternatingAligned => mret (Z.lor a 1 =? Z.lor b 1)
  | CanonicalizeAlternatingUnaligned => mret (Z.lor (a - 1) 1 =? Z.lor (b - 1) 1)
  end.

End canon.
