(* ===== verification/YarrCase.v ===== *)
(** * Canonicalization of characters: the classes of equivalent characters

    What the table of [YarrCanonicalize] says: the ranges follow each other and
    cover all code units, the search finds the range of a code unit, and the
    classes are those of an equivalence. *)

From stdpp Require Import base numbers list sets.
From S2P Require Import Prelude YarrCanonicalize.

#[local] Open Scope Z_scope.

(** ** The ranges *)

(** Ranges that follow each other from [from] to the last code unit. *)
Fixpoint contiguous (from : Z) (l : list UCS2CanonicalizationRange) : bool :=
  match l with
  | [] => from =? 65536
  | r :: l' => (ri_begin r =? from) && (from <=? ri_end r) && contiguous (ri_end r + 1) l'
  end.

Lemma rangeInfo_contiguous : contiguous 0 rangeInfo = true.
Proof. by vm_compute. Qed.

Lemma contiguous_cons from r l :
  contiguous from (r :: l) = true -> ri_begin r = from /\ from <= ri_end r /\ contiguous (ri_end r + 1) l = true.
Proof. simpl. intros [[H1%Z.eqb_eq H2%Z.leb_le]%andb_true_iff H3]%andb_true_iff. done. Qed.

Lemma contiguous_from l : forall from i r,
  contiguous from l = true -> l !! i = Some r -> from <= ri_begin r <= ri_end r /\ ri_end r < 65536.
Proof.
  assert (forall l from, contiguous from l = true -> from <= 65536) as Hend.
  { induction l0 as [| r l0 IH]; intros from H; [simpl in H; apply Z.eqb_eq in H; lia |].
    apply contiguous_cons in H as (H1 & H2 & H3). apply IH in H3. lia. }
  induction l as [| r0 l IH]; intros from i r H Hi; [done |]. apply contiguous_cons in H as (H1 & H2 & H3).
  destruct i as [| i]; simpl in Hi; [injection Hi as <-; apply Hend in H3; lia |].
  pose proof (IH _ _ _ H3 Hi). lia.
Qed.

Lemma contiguous_order l : forall from i j r r',
  contiguous from l = true -> l !! i = Some r -> l !! j = Some r' -> (i < j)%nat -> ri_end r < ri_begin r'.
Proof.
  induction l as [| r0 l IH]; intros from i j r r' H Hi Hj Hlt; [done |].
  apply contiguous_cons in H as (H1 & H2 & H3). destruct j as [| j]; [lia |]. simpl in Hj. destruct i as [| i]; simpl in Hi.
  - injection Hi as <-. pose proof (contiguous_from _ _ _ _ H3 Hj). lia.
  - eapply IH; [exact H3 | done | done | lia].
Qed.

Lemma contiguous_covers l : forall from ch,
  contiguous from l = true -> from <= ch < 65536 -> exists i r, l !! i = Some r /\ ri_begin r <= ch <= ri_end r.
Proof.
  induction l as [| r0 l IH]; intros from ch H Hch; [simpl in H; apply Z.eqb_eq in H; lia |].
  apply contiguous_cons in H as (H1 & H2 & H3). destruct (decide (ch <= ri_end r0)).
  - exists 0%nat, r0. split; [done | lia].
  - destruct (IH _ ch H3) as (i & r & Hi & Hr); [lia |]. by exists (Datatypes.S i), r.
Qed.

(** The entry that holds a code unit. *)
Definition holds (i : Z) (r : UCS2CanonicalizationRange) (ch : Z) : Prop :=
  aget rangeInfo i = Some r /\ ri_begin r <= ch <= ri_end r.

Lemma aget_nat {A} (l : list A) i x : aget l i = Some x -> 0 <= i /\ l !! Z.to_nat i = Some x /\ i < Z.of_nat (length l).
Proof.
  unfold aget. destruct (Z.ltb_spec i 0) as [| Hi]; [done |]. intros Hx. split_and!; [done | done |].
  apply lookup_lt_Some in Hx. lia.
Qed.

Lemma aget_of_nat {A} (l : list A) i x : l !! i = Some x -> aget l (Z.of_nat i) = Some x.
Proof. intros Hx. unfold aget. rewrite (proj2 (Z.ltb_ge _ _)) by lia. by rewrite Nat2Z.id. Qed.

Lemma holds_total ch : 0 <= ch < 65536 -> exists i r, holds i r ch.
Proof.
  intros Hch. destruct (contiguous_covers rangeInfo 0 ch rangeInfo_contiguous Hch) as (i & r & Hi & Hr).
  exists (Z.of_nat i), r. split; [by apply aget_of_nat | done].
Qed.

Lemma holds_unique i r i' r' ch : holds i r ch -> holds i' r' ch -> i = i' /\ r = r'.
Proof.
  intros [(H1 & Hi & _)%aget_nat Hr] [(H1' & Hi' & _)%aget_nat Hr'].
  destruct (Nat.lt_trichotomy (Z.to_nat i) (Z.to_nat i')) as [Hlt | [He | Hlt]].
  - pose proof (contiguous_order _ _ _ _ _ _ rangeInfo_contiguous Hi Hi' Hlt). lia.
  - assert (i = i') as -> by lia. split; [done |]. congruence.
  - pose proof (contiguous_order _ _ _ _ _ _ rangeInfo_contiguous Hi' Hi Hlt). lia.
Qed.

Lemma wp_info_at {S} (s : S) i r (Q : UCS2CanonicalizationRange -> S -> Prop) :
  aget rangeInfo i = Some r -> Q r s -> wp (info_at i) s Q.
Proof. intros Hr HQ. unfold info_at. by apply (wp_of_opt _ _ _ _ r). Qed.

(** The binary search stays around the entry. *)
Lemma rangeInfoFor_loop_ok {S} (s : S) j r ch fuel info entries (Q : Z -> S -> Prop) :
  holds j r ch -> 0 <= info -> info <= j < info + entries -> info + entries <= Z.of_nat (length rangeInfo) ->
  entries < Z.of_nat fuel -> Q j s -> wp (rangeInfoFor_loop fuel ch info entries) s Q.
Proof.
  intros Hj H0 Hin Hlen Hfuel HQ. revert info entries H0 Hin Hlen Hfuel.
  induction fuel as [| fuel IH]; intros info entries H0 Hin Hlen Hfuel; [lia |]. simpl.
  rewrite Z.shiftr_div_pow2 by done. change (2 ^ 1) with 2.
  set (cand := entries / 2). assert (0 <= cand < entries) as Hc by (unfold cand; Z.to_euclidean_division_equations; lia).
  assert (is_Some (rangeInfo !! Z.to_nat (info + cand))) as [r' Hr'] by (apply lookup_lt_is_Some; lia).
  assert (aget rangeInfo (info + cand) = Some r') as Hg.
  { unfold aget. by rewrite (proj2 (Z.ltb_ge _ _)) by lia. }
  pose proof Hj as [(Hj0 & Hjl & _)%aget_nat Hjr]. wp_step. apply (wp_info_at _ _ r'); [done |].
  destruct (Z.ltb_spec ch (ri_begin r')) as [Hlt | Hge]; [| destruct (Z.leb_spec ch (ri_end r')) as [Hle | Hgt]].
  - apply IH; [lia | | lia | lia]. split; [lia |]. destruct (decide (j < info + cand)) as [| Hn]; [done | exfalso].
    destruct (decide (j = info + cand)) as [-> | Hne]; [rewrite Hr' in Hjl; injection Hjl as ->; lia |].
    pose proof (contiguous_order _ _ (Z.to_nat (info + cand)) (Z.to_nat j) _ _ rangeInfo_contiguous Hr' Hjl ltac:(lia)).
    pose proof (contiguous_from _ _ _ _ rangeInfo_contiguous Hr'). lia.
  - wp_step. assert (holds (info + cand) r' ch) as Hh by (split; [done | lia]).
    by destruct (holds_unique _ _ _ _ _ Hj Hh) as [<- _].
  - apply IH; [lia | | lia | lia]. split; [| lia]. destruct (decide (info + cand + 1 <= j)) as [| Hn]; [done | exfalso].
    destruct (decide (j = info + cand)) as [-> | Hne]; [rewrite Hr' in Hjl; injection Hjl as ->; lia |].
    pose proof (contiguous_order _ _ (Z.to_nat j) (Z.to_nat (info + cand)) _ _ rangeInfo_contiguous Hjl Hr' ltac:(lia)). lia.
Qed.

Lemma rangeInfoFor_ok {S} (s : S) j r ch (Q : Z -> S -> Prop) : holds j r ch -> Q j s -> wp (rangeInfoFor ch) s Q.
Proof.
  intros Hj HQ. pose proof Hj as [(H1 & _ & H2)%aget_nat _]. unfold rangeInfoFor, UCS2_CANONICALIZATION_RANGES.
  change (Z.of_nat (length rangeInfo)) with 364 in H2.
  apply (rangeInfoFor_loop_ok s j r); [done | lia | lia | by vm_compute | by vm_compute | done].
Qed.

(** ** Classes *)

(** The class of [a], a code unit of the range [r], in ascending order. *)
Definition class_in (r : UCS2CanonicalizationRange) (a : Z) : list Z :=
  match ri_type r with
  | CanonicalizeUnique => [a]
  | CanonicalizeSet => default [] (aget characterSetInfo (ri_value r))
  | CanonicalizeRangeLo => [a; a + ri_value r]
  | CanonicalizeRangeHi => [a - ri_value r; a]
  | CanonicalizeAlternatingAligned => [a / 2 * 2; a / 2 * 2 + 1]
  | CanonicalizeAlternatingUnaligned => [(a - 1) / 2 * 2 + 1; (a - 1) / 2 * 2 + 2]
  end.

Definition range_of (ch : Z) : option UCS2CanonicalizationRange :=
  List.find (fun r => (ri_begin r <=? ch) && (ch <=? ri_end r)) rangeInfo.

Definition class_of (ch : Z) : list Z :=
  match range_of ch with Some r => class_in r ch | None => [ch] end.

Lemma range_of_holds i r ch : holds i r ch -> range_of ch = Some r.
Proof.
  intros Hh. pose proof Hh as [(Hi0 & Hi & _)%aget_nat Hr]. unfold range_of. destruct (List.find _ _) as [r' |] eqn:E.
  - apply find_some in E as [Hin Hb]. apply list_elem_of_In, list_elem_of_lookup in Hin as [k Hk].
    apply andb_true_iff in Hb as [H1%Z.leb_le H2%Z.leb_le].
    assert (holds (Z.of_nat k) r' ch) as Hh' by (split; [by apply aget_of_nat | lia]).
    by destruct (holds_unique _ _ _ _ _ Hh Hh') as [_ <-].
  - exfalso. assert (In r rangeInfo) as Hin by (apply list_elem_of_In; by eapply list_elem_of_lookup_2).
    pose proof (find_none _ _ E r Hin) as Hn. simpl in Hn. rewrite !(proj2 (Z.leb_le _ _)) in Hn by lia. done.
Qed.

Lemma class_of_holds i r ch : holds i r ch -> class_of ch = class_in r ch.
Proof. intros Hh. unfold class_of. by rewrite (range_of_holds _ _ _ Hh). Qed.

(** The classes of a range: every member has the same class, of code units that
    are ASCII only if the range is. *)
Definition range_ok (r : UCS2CanonicalizationRange) : bool :=
  if decide (ri_type r = CanonicalizeUnique) then true
  else (bool_decide (ri_type r <> CanonicalizeSet) || (match aget characterSetInfo (ri_value r) with Some _ => true | None => false end)) &&
  forallb (fun a =>
    existsb (Z.eqb a) (class_in r a) && existsb (fun b => negb (b =? a)) (class_in r a) &&
    forallb (fun b => (if ri_begin r <? 128 then (0 <=? b) && (b <? 128) else (128 <=? b) && (b <? 65536)) &&
                      bool_decide (class_of b = class_in r a)) (class_in r a))
    (seqZ (ri_begin r) (ri_end r - ri_begin r + 1)).

Lemma ranges_ok : forallb range_ok rangeInfo = true.
Proof. by vm_compute. Qed.

Lemma range_ok_at i r ch :
  holds i r ch -> ri_type r <> CanonicalizeUnique ->
  ch ∈ class_in r ch /\ (exists b, b ∈ class_in r ch /\ b <> ch) /\
  (forall b, b ∈ class_in r ch -> 0 <= b < 65536 /\ (b < 128 <-> ri_begin r < 128) /\ class_of b = class_in r ch) /\
  (ri_type r = CanonicalizeSet -> aget characterSetInfo (ri_value r) = Some (class_in r ch)).
Proof.
  intros [(_ & Hi & _)%aget_nat Hch] Hne. assert (range_ok r = true) as Hok.
  { apply (proj1 (forallb_forall _ _) ranges_ok), list_elem_of_In. by eapply list_elem_of_lookup_2. }
  unfold range_ok in Hok. rewrite decide_False in Hok by done. apply andb_true_iff in Hok as [Hset Hall].
  assert (In ch (seqZ (ri_begin r) (ri_end r - ri_begin r + 1))) as Hin by (apply list_elem_of_In, elem_of_seqZ; lia).
  apply (proj1 (forallb_forall _ _) Hall) in Hin. apply andb_true_iff in Hin as [[Hex Hne2]%andb_true_iff Hfor]. split_and!.
  - apply existsb_exists in Hex as (x & Hx & ->%Z.eqb_eq). by apply list_elem_of_In.
  - apply existsb_exists in Hne2 as (b & Hb%list_elem_of_In & Hn). exists b. split; [done |]. by apply negb_true_iff, Z.eqb_neq in Hn.
  - intros b Hb%list_elem_of_In. apply (proj1 (forallb_forall _ _) Hfor) in Hb.
    apply andb_true_iff in Hb as [Hb Hc%bool_decide_eq_true].
    destruct (Z.ltb_spec (ri_begin r) 128); apply andb_true_iff in Hb as [H1%Z.leb_le H2%Z.ltb_lt]; (split_and!; [lia | lia | lia | done]).
  - intros Hs. unfold class_in. rewrite Hs. rewrite bool_decide_eq_false_2 in Hset by (by intros []). simpl in Hset.
    by destruct (aget characterSetInfo (ri_value r)).
Qed.

(** A code unit is in its class, whose members have the same class, and are
    ASCII or not together. *)
Lemma class_facts a : 0 <= a < 65536 ->
  a ∈ class_of a /\ forall b, b ∈ class_of a -> 0 <= b < 65536 /\ (b < 128 <-> a < 128) /\ class_of b = class_of a.
Proof.
  intros Ha. destruct (holds_total a Ha) as (i & r & Hh). rewrite (class_of_holds _ _ _ Hh).
  destruct (decide (ri_type r = CanonicalizeUnique)) as [Hu | Hn].
  - unfold class_in at 1 2. rewrite Hu. split; [set_solver |]. intros b ->%list_elem_of_singleton.
    split_and!; [lia | lia | done | by eapply class_of_holds].
  - destruct (range_ok_at _ _ _ Hh Hn) as (H1 & _ & H2 & _). split; [done |]. intros b Hb.
    destruct (H2 b Hb) as (B1 & B2 & B3). destruct (H2 a H1) as (_ & A2 & _). split_and!; [lia | lia | lia | done].
Qed.

Lemma lor_one x : Z.lor x 1 = x / 2 * 2 + 1.
Proof.
  change 1 with (Z.ones 1) at 1. apply Z.bits_inj'. intros i Hi.
  rewrite Z.lor_spec. destruct (decide (i = 0)) as [-> | Hne].
  - rewrite Z.ones_spec_low, orb_true_r by lia. rewrite Z.bit0_odd, Z.odd_add, Z.odd_mul. by rewrite andb_false_r.
  - rewrite Z.ones_spec_high, orb_false_r by lia. replace i with (Z.succ (i - 1)) by lia.
    rewrite (Z.mul_comm _ 2), Z.testbit_odd_succ by lia.
    by rewrite Z.div2_bits by lia.
Qed.

Lemma wp_set_at {S} (s : S) v l (Q : list Z -> S -> Prop) :
  aget characterSetInfo v = Some l -> Q l s -> wp (set_at v) s Q.
Proof. intros Hl HQ. unfold set_at. by apply (wp_of_opt _ _ _ _ l). Qed.

Lemma elem_existsb (b : Z) l : existsb (Z.eqb b) l = true <-> b ∈ l.
Proof.
  rewrite existsb_exists, list_elem_of_In. split; [intros (x & Hx & ->%Z.eqb_eq); done | intros Hb; exists b].
  split; [done | apply Z.eqb_refl].
Qed.

Lemma areCanonicallyEquivalent_ok {S} (s : S) a b :
  0 <= a < 65536 -> wp (areCanonicallyEquivalent a b) s (fun r s' => s' = s /\ (r = true <-> b ∈ class_of a)).
Proof.
  intros Ha. destruct (holds_total a Ha) as (i & r & Hh). rewrite (class_of_holds _ _ _ Hh). pose proof Hh as [Hr _].
  unfold areCanonicallyEquivalent. wp_step. apply (rangeInfoFor_ok s i r); [done |]. wp_step. apply (wp_info_at _ _ r); [done |].
  unfold class_in. destruct (ri_type r) eqn:Ht.
  - wp_step. split; [done |]. rewrite Z.eqb_eq, list_elem_of_singleton. naive_solver.
  - destruct (range_ok_at _ _ _ Hh ltac:(congruence)) as (_ & _ & _ & Hs). specialize (Hs Ht).
    wp_step. apply (wp_set_at _ _ _ _ Hs). wp_step. split; [done |]. rewrite Hs. simpl. apply elem_existsb.
  - wp_step. split; [done |]. rewrite orb_true_iff, !Z.eqb_eq. set_solver.
  - wp_step. split; [done |]. rewrite orb_true_iff, !Z.eqb_eq. set_solver.
  - wp_step. split; [done |]. rewrite Z.eqb_eq, !lor_one, !elem_of_cons, elem_of_nil.
    split; [intros; Z.to_euclidean_division_equations; lia | intros [-> | [-> | []]]; Z.to_euclidean_division_equations; lia].
  - wp_step. split; [done |]. rewrite Z.eqb_eq, !lor_one, !elem_of_cons, elem_of_nil.
    split; [intros; Z.to_euclidean_division_equations; lia | intros [-> | [-> | []]]; Z.to_euclidean_division_equations; lia].
Qed.

Lemma isCanonicallyUnique_ok {S} (s : S) a :
  0 <= a < 65536 -> wp (isCanonicallyUnique a) s (fun r s' => s' = s /\ (r = true <-> forall b, b ∈ class_of a -> b = a)).
Proof.
  intros Ha. destruct (holds_total a Ha) as (i & r & Hh). rewrite (class_of_holds _ _ _ Hh). pose proof Hh as [Hr _].
  unfold isCanonicallyUnique. wp_step. apply (rangeInfoFor_ok s i r); [done |]. wp_step. apply (wp_info_at _ _ r); [done |].
  wp_step. split; [done |]. rewrite bool_decide_eq_true. split; [unfold class_in; intros ->; set_solver |].
  intros Hc. destruct (decide (ri_type r = CanonicalizeUnique)) as [| Hn]; [done |].
  destruct (range_ok_at _ _ _ Hh Hn) as (_ & (b & Hb & Hba) & _). by destruct Hba; apply Hc.
Qed.
