(* ===== verification/YarrClass.v ===== *)
(** * Character classes of regular expressions

    [CharacterClassConstructor] of yarr/YarrPattern.cpp, which collects the
    characters and ranges of a class, closed under case if case is ignored, and
    [testCharacterClass] of yarr/YarrInterpreter.cpp, which matches a character
    against it.  A vector is a list; the optional lookup table of a class, which
    repeats its contents for the compiler, is left out. *)

From Stdlib Require Import Ascii.
From stdpp Require Import base numbers list.
From S2P Require Import Prelude Ctype YarrCanonicalize.

#[local] Open Scope Z_scope.

Record CharacterRange := mk_crange { cr_begin : Z; cr_end : Z }.

Record CharacterClass := mk_class {
  cc_matches : list Z;
  cc_ranges : list CharacterRange;
  cc_matchesUnicode : list Z;
  cc_rangesUnicode : list CharacterRange
}.

Record CharacterClassConstructor := mk_constructor {
  m_isCaseInsensitive : bool;
  m_matches : list Z;
  m_ranges : list CharacterRange;
  m_matchesUnicode : list Z;
  m_rangesUnicode : list CharacterRange
}.

Definition eta_constructor (c : CharacterClassConstructor) : CharacterClassConstructor :=
  mk_constructor (m_isCaseInsensitive c) (m_matches c) (m_ranges c) (m_matchesUnicode c) (m_rangesUnicode c).

#[global] Instance upd_m_matches : Upd m_matches := ltac:(mk_upd eta_constructor m_matches).
#[global] Instance upd_m_ranges : Upd m_ranges := ltac:(mk_upd eta_constructor m_ranges).
#[global] Instance upd_m_matchesUnicode : Upd m_matchesUnicode := ltac:(mk_upd eta_constructor m_matchesUnicode).
#[global] Instance upd_m_rangesUnicode : Upd m_rangesUnicode := ltac:(mk_upd eta_constructor m_rangesUnicode).

Abbreviation ClassM := (M class_fault CharacterClassConstructor).

(** ** Sorted vectors *)

(** The place for [ch] by binary search; none if it is there. *)
Fixpoint addSorted_loop (fuel : nat) (matches : list Z) (ch pos range : Z) : ClassM (option Z) :=
  match fuel with
  | O => mfail Class_fuel
  | S fuel' =>
      if negb (truthy range) then mret (Some pos)
      else
        let index := Z.shiftr range 1 in
        m ← of_opt Class_oob (aget matches (pos + index));
        let val := m - ch in
        if val =? 0 then mret None
        else if 0 <? val then addSorted_loop fuel' matches ch pos index
        else addSorted_loop fuel' matches ch (pos + (index + 1)) (range - (index + 1))
  end.

Definition addSorted (f : CharacterClassConstructor -> list Z) `{!Upd f} (ch : Z) : ClassM unit :=
  matches ← mgets f;
  place ← addSorted_loop (S (length matches)) matches ch 0 (Z.of_nat (length matches));
  match place with
  | None => mret tt
  | Some pos =>
      mmod (fun c => c <| f := take (Z.to_nat pos) matches ++ ch :: drop (Z.to_nat pos) matches |>)
  end.

(** The range [r] takes over the following ones it reaches. *)
Fixpoint subsume (r : CharacterRange) (ranges : list CharacterRange) : list CharacterRange :=
  match ranges with
  | [] => [r]
  | next :: ranges' =>
      if cr_begin next <=? cr_end r + 1 then subsume (mk_crange (cr_begin r) (Z.max (cr_end r) (cr_end next))) ranges'
      else r :: ranges
  end.

(** The linear scan over the vector, from its front. *)
Fixpoint add_range (ranges : list CharacterRange) (lo hi : Z) : list CharacterRange :=
  match ranges with
  | [] => [mk_crange lo hi]
  | r :: ranges' =>
      if hi <? cr_begin r then
        if hi =? cr_begin r - 1 then mk_crange lo (cr_end r) :: ranges'
        else mk_crange lo hi :: ranges
      else if lo <=? cr_end r + 1 then
        subsume (mk_crange (Z.min (cr_begin r) lo) (Z.max (cr_end r) hi)) ranges'
      else r :: add_range ranges' lo hi
  end.

Definition addSortedRange (f : CharacterClassConstructor -> list CharacterRange) `{!Upd f} (lo hi : Z) : ClassM unit :=
  mmod (fun c => c <| f := add_range (f c) lo hi |>).

(** ** The constructor *)

Definition new_constructor (isCaseInsensitive : bool) : CharacterClassConstructor :=
  mk_constructor isCaseInsensitive [] [] [] [].

Definition constructor_reset : ClassM unit :=
  mmod (fun c => c <| m_matches := [] |> <| m_ranges := [] |> <| m_matchesUnicode := [] |> <| m_rangesUnicode := [] |>).

Fixpoint for_each {A} (l : list A) (body : A -> ClassM unit) : ClassM unit :=
  match l with [] => mret tt | x :: l' => body x;; for_each l' body end.

Definition append (other : CharacterClass) : ClassM unit :=
  for_each (cc_matches other) (addSorted m_matches);;
  for_each (cc_ranges other) (fun r => addSortedRange m_ranges (cr_begin r) (cr_end r));;
  for_each (cc_matchesUnicode other) (addSorted m_matchesUnicode);;
  for_each (cc_rangesUnicode other) (fun r => addSortedRange m_rangesUnicode (cr_begin r) (cr_end r)).

Definition putUnicodeIgnoreCase (ch info : Z) : ClassM unit :=
  ic ← mgets m_isCaseInsensitive; class_assert ic;;
  class_assert (0x7f <? ch);;
  r ← info_at info;
  class_assert ((ri_begin r <=? ch) && (ch <=? ri_end r));;
  class_assert (bool_decide (ri_type r <> CanonicalizeUnique));;
  if bool_decide (ri_type r = CanonicalizeSet) then
    set ← set_at (ri_value r); for_each set (addSorted m_matchesUnicode)
  else
    addSorted m_matchesUnicode ch;;
    pair ← getCanonicalPair r ch; addSorted m_matchesUnicode pair.

Definition putChar (ch : Z) : ClassM unit :=
  ic ← mgets m_isCaseInsensitive;
  if ch <=? 0x7f then
    if ic && isASCIIAlpha ch then
      addSorted m_matches (toASCIIUpper ch);;
      addSorted m_matches (toASCIILower ch)
    else addSorted m_matches ch
  else if negb ic then addSorted m_matchesUnicode ch
  else
    info ← rangeInfoFor ch; r ← info_at info;
    if bool_decide (ri_type r = CanonicalizeUnique) then addSorted m_matchesUnicode ch
    else putUnicodeIgnoreCase ch info.

(** The ASCII part of a range. *)
Definition put_ascii_range (lo hi : Z) : ClassM unit :=
  let asciiHi := Z.min hi 0x7f in
  addSortedRange m_ranges lo asciiHi;;
  ic ← mgets m_isCaseInsensitive;
  mwhen ic (
    mwhen ((lo <=? chr "Z") && (chr "A" <=? asciiHi))
      (addSortedRange m_ranges (Z.max lo (chr "A") + (chr "a" - chr "A")) (Z.min asciiHi (chr "Z") + (chr "a" - chr "A")));;
    mwhen ((lo <=? chr "z") && (chr "a" <=? asciiHi))
      (addSortedRange m_ranges (Z.max lo (chr "a") + (chr "A" - chr "a")) (Z.min asciiHi (chr "z") + (chr "A" - chr "a")))).

(** The equivalents of the part [lo .. end] of a range of the table. *)
Definition put_equivalents (r : UCS2CanonicalizationRange) (lo end_ : Z) : ClassM unit :=
  match ri_type r with
  | CanonicalizeUnique => mret tt
  | CanonicalizeSet => set ← set_at (ri_value r); for_each set (addSorted m_matchesUnicode)
  | CanonicalizeRangeLo => addSortedRange m_rangesUnicode (u16 (lo + ri_value r)) (u16 (end_ + ri_value r))
  | CanonicalizeRangeHi => addSortedRange m_rangesUnicode (u16 (lo - ri_value r)) (u16 (end_ - ri_value r))
  | CanonicalizeAlternatingAligned =>
      mwhen (truthy (Z.land lo 1)) (addSortedRange m_rangesUnicode (u16 (lo - 1)) (u16 (lo - 1)));;
      mwhen (negb (truthy (Z.land end_ 1))) (addSortedRange m_rangesUnicode (u16 (end_ + 1)) (u16 (end_ + 1)))
  | CanonicalizeAlternatingUnaligned =>
      mwhen (negb (truthy (Z.land lo 1))) (addSortedRange m_rangesUnicode (u16 (lo - 1)) (u16 (lo - 1)));;
      mwhen (truthy (Z.land end_ 1)) (addSortedRange m_rangesUnicode (u16 (end_ + 1)) (u16 (end_ + 1)))
  end.

Fixpoint putRange_loop (fuel : nat) (info lo hi : Z) : ClassM unit :=
  match fuel with
  | O => mfail Class_fuel
  | S fuel' =>
      r ← info_at info;
      let end_ := Z.min (ri_end r) hi in
      put_equivalents r lo end_;;
      if hi =? end_ then mret tt
      else r' ← info_at (info + 1); putRange_loop fuel' (info + 1) (ri_begin r') hi
  end.

Definition putRange (lo hi : Z) : ClassM unit :=
  mwhen (lo <=? 0x7f) (put_ascii_range lo hi);;
  if hi <=? 0x7f then mret tt
  else
    let lo := Z.max lo 0x80 in
    addSortedRange m_rangesUnicode lo hi;;
    ic ← mgets m_isCaseInsensitive;
    if negb ic then mret tt
    else info ← rangeInfoFor lo; putRange_loop (length rangeInfo) info lo hi.

(** The class that was collected; the constructor is empty again. *)
Definition charClass : ClassM CharacterClass :=
  c ← mget;
  constructor_reset;;
  mret (mk_class (m_matches c) (m_ranges c) (m_matchesUnicode c) (m_rangesUnicode c)).

(** ** Matching *)

Definition in_crange (ch : Z) (r : CharacterRange) : bool := (cr_begin r <=? ch) && (ch <=? cr_end r).

Definition testCharacterClass (c : CharacterClass) (ch : Z) : bool :=
  if truthy (Z.land ch 0xFF80) then
    existsb (Z.eqb ch) (cc_matchesUnicode c) || existsb (in_crange ch) (cc_rangesUnicode c)
  else existsb (Z.eqb ch) (cc_matches c) || existsb (in_crange ch) (cc_ranges c).
