(* ===== verification/YarrClassProof.v ===== *)
(** * Character classes of regular expressions: what a class collects

    The vectors of the constructor stay sorted, and each operation adds exactly
    the characters it is given, with those that are equivalent to them if case
    is ignored. *)

From Stdlib Require Import Ascii.
From stdpp Require Import base numbers list sets sorting.
From S2P Require Import Prelude Ctype YarrCanonicalize YarrCase YarrClass.

#[local] Open Scope Z_scope.

(** ** Sorted vectors of characters *)

Definition sorted_chars (from to : Z) (l : list Z) : Prop :=
  StronglySorted Z.lt l /\ Forall (fun x => from <= x < to) l.

Lemma sorted_lookup l i j x y :
  StronglySorted Z.lt l -> l !! i = Some x -> l !! j = Some y -> (i < j)%nat -> x < y.
Proof.
  intros Hs Hi Hj Hij. rewrite <- (take_drop (S i) l) in Hs. eapply StronglySorted_app_1_elem_of; [exact Hs | |].
  - apply (list_elem_of_lookup_2 _ i). rewrite lookup_take. by rewrite decide_True by lia.
  - apply (list_elem_of_lookup_2 _ (j - S i)%nat). rewrite lookup_drop. by replace (S i + (j - S i))%nat with j by lia.
Qed.

(** The place [pos] of [ch] in [l]: smaller elements before it, the others after. *)
Definition place_of (l : list Z) (ch pos : Z) : Prop :=
  0 <= pos <= Z.of_nat (length l) /\
  Forall (fun x => x < ch) (take (Z.to_nat pos) l) /\ Forall (fun x => ch < x) (drop (Z.to_nat pos) l).

Lemma place_elem l ch pos : place_of l ch pos -> ch ∉ l.
Proof.
  intros (_ & H1 & H2) Hin. rewrite <- (take_drop (Z.to_nat pos) l) in Hin. apply elem_of_app in Hin as [Hin | Hin].
  - rewrite Forall_forall in H1. apply H1 in Hin. lia.
  - rewrite Forall_forall in H2. apply H2 in Hin. lia.
Qed.

Lemma take_below l ch i x :
  StronglySorted Z.lt l -> l !! i = Some x -> x < ch -> Forall (fun y => y < ch) (take (S i) l).
Proof.
  intros Hs Hi Hlt. apply Forall_lookup. intros k y [Hk Hlt2]%lookup_take_Some.
  destruct (decide (k = i)) as [-> | Hne]; [congruence |]. pose proof (sorted_lookup _ _ _ _ _ Hs Hk Hi). lia.
Qed.

Lemma drop_above l ch i x :
  StronglySorted Z.lt l -> l !! i = Some x -> ch < x -> Forall (fun y => ch < y) (drop i l).
Proof.
  intros Hs Hi Hlt. apply Forall_lookup. intros k y Hk. rewrite lookup_drop in Hk.
  destruct (decide (k = 0)%nat) as [-> | Hne]; [rewrite Nat.add_0_r in Hk; congruence |].
  pose proof (sorted_lookup _ _ _ _ _ Hs Hi Hk). lia.
Qed.

Lemma addSorted_loop_ok c l ch fuel : forall pos range,
  StronglySorted Z.lt l -> 0 <= pos -> 0 <= range < Z.of_nat fuel -> pos + range <= Z.of_nat (length l) ->
  Forall (fun x => x < ch) (take (Z.to_nat pos) l) -> Forall (fun x => ch < x) (drop (Z.to_nat (pos + range)) l) ->
  wp (addSorted_loop fuel l ch pos range) c (fun place c' => c' = c /\
    match place with None => ch ∈ l | Some pos => place_of l ch pos end).
Proof.
  induction fuel as [| fuel IH]; intros pos range Hs Hp Hr Hlen Hlo Hhi; [lia |]. simpl. unfold truthy.
  destruct (Z.eqb_spec range 0) as [-> | Hne]; simpl.
  { wp_step. split; [done |]. rewrite Z.add_0_r in Hhi, Hlen. split_and!; [lia | lia | done | done]. }
  rewrite Z.shiftr_div_pow2 by done. change (2 ^ 1) with 2. set (index := range / 2).
  assert (0 <= index < range) as Hx by (unfold index; Z.to_euclidean_division_equations; lia).
  assert (is_Some (l !! Z.to_nat (pos + index))) as [m Hm] by (apply lookup_lt_is_Some; lia).
  wp_step. apply (wp_of_opt _ _ _ _ m); [unfold aget; by rewrite (proj2 (Z.ltb_ge _ _)) by lia |].
  destruct (Z.eqb_spec (m - ch) 0) as [He | Hne2]; [| destruct (Z.ltb_spec 0 (m - ch)) as [Hgt | Hle]].
  - wp_step. split; [done |]. replace ch with m by lia. by eapply list_elem_of_lookup_2.
  - apply IH; [done | lia | lia | lia | done |]. eapply drop_above; [done | done | lia].
  - apply IH; [done | lia | lia | lia | |].
    + replace (Z.to_nat (pos + (index + 1))) with (S (Z.to_nat (pos + index))) by lia. eapply take_below; [done | done | lia].
    + by replace (pos + (index + 1) + (range - (index + 1))) with (pos + range) by lia.
Qed.

Lemma sorted_insert from to l ch pos :
  sorted_chars from to l -> from <= ch < to -> place_of l ch pos ->
  sorted_chars from to (take (Z.to_nat pos) l ++ ch :: drop (Z.to_nat pos) l).
Proof.
  intros [Hs Hf] Hch (_ & H1 & H2). rewrite <- (take_drop (Z.to_nat pos) l) in Hs, Hf.
  apply StronglySorted_app in Hs as (Hx & Hs1 & Hs2). apply Forall_app in Hf as [Hf1 Hf2]. rewrite Forall_forall in H1.
  split; [apply StronglySorted_app_2; [| done |] |].
  - intros x1 x2 Hx1 Hx2. apply elem_of_cons in Hx2 as [-> | Hx2]; [by apply H1 | by apply Hx].
  - by constructor.
  - apply Forall_app. split; [done |]. by constructor.
Qed.

Lemma elem_of_insert (l : list Z) n ch x : x ∈ take n l ++ ch :: drop n l <-> x ∈ l \/ x = ch.
Proof. rewrite <- (take_drop n l) at 3. rewrite !elem_of_app, elem_of_cons. naive_solver. Qed.

(** ** Vectors of ranges *)

(** Ranges in ascending order, with a gap between each two. *)
Fixpoint separated (from to : Z) (l : list CharacterRange) : Prop :=
  match l with
  | [] => True
  | r :: l' => from <= cr_begin r <= cr_end r /\ cr_end r < to /\ separated (cr_end r + 2) to l'
  end.

Definition in_ranges (x : Z) (l : list CharacterRange) : Prop := Exists (fun r => cr_begin r <= x <= cr_end r) l.

Lemma in_ranges_nil x : in_ranges x [] <-> False.
Proof. apply Exists_nil. Qed.
Lemma in_ranges_cons x r l : in_ranges x (r :: l) <-> cr_begin r <= x <= cr_end r \/ in_ranges x l.
Proof. apply Exists_cons. Qed.

Lemma separated_from from from' to l : separated from to l -> from' <= from -> separated from' to l.
Proof. destruct l; simpl; [done |]. intros (? & ? & ?) ?. split_and!; [lia | lia | done | done]. Qed.

Lemma subsume_ok to l : forall from from' r,
  separated from' to l -> from <= cr_begin r <= cr_end r -> cr_begin r <= from' -> cr_end r < to ->
  separated from to (subsume r l) /\ forall x, in_ranges x (subsume r l) <-> cr_begin r <= x <= cr_end r \/ in_ranges x l.
Proof.
  induction l as [| next l IH]; intros from from' r Hs Hr Hb He; simpl.
  { split; [split_and!; [lia | lia | done | done] |]. intros x. by rewrite in_ranges_cons, in_ranges_nil. }
  simpl in Hs. destruct Hs as (Hn & Hn2 & Hs). destruct (Z.leb_spec (cr_begin next) (cr_end r + 1)) as [Hle | Hgt].
  - destruct (IH from (cr_end next + 2) (mk_crange (cr_begin r) (Z.max (cr_end r) (cr_end next)))) as [H1 H2];
      [done | simpl; lia | simpl; lia | simpl; lia |]. split; [done |]. intros x. rewrite H2, in_ranges_cons. simpl.
    split; [intros [Hx | Hx] | intros [Hx | [Hx | Hx]]]; try (by repeat first [right | left]); [| left; lia | left; lia].
    destruct (decide (x <= cr_end r)); [left; lia | right; left; lia].
  - split; [| intros x; by rewrite !in_ranges_cons]. simpl. split_and!; [lia | lia | done | lia | lia | done | done].
Qed.

Lemma add_range_ok to l : forall from lo hi,
  separated from to l -> from <= lo <= hi -> hi < to ->
  separated from to (add_range l lo hi) /\ forall x, in_ranges x (add_range l lo hi) <-> in_ranges x l \/ lo <= x <= hi.
Proof.
  induction l as [| r l IH]; intros from lo hi Hs Hlo Hhi; simpl.
  { split; [split_and!; [lia | lia | done | done] |]. intros x. rewrite in_ranges_cons, in_ranges_nil. simpl. tauto. }
  simpl in Hs. destruct Hs as (Hr & Hr2 & Hs). destruct (Z.ltb_spec hi (cr_begin r)) as [Hlt | Hge].
  - destruct (Z.eqb_spec hi (cr_begin r - 1)) as [He | Hne]; (split; [simpl; split_and!; try lia; done |]); intros x.
    + rewrite !in_ranges_cons. simpl. split; [intros [Hx | Hx]; [destruct (decide (x <= hi)); [right; lia | left; left; lia] | tauto] |].
      intros [[Hx | Hx] | Hx]; [left; lia | by right | left; lia].
    + rewrite !in_ranges_cons. simpl. tauto.
  - destruct (Z.leb_spec lo (cr_end r + 1)) as [Hle | Hgt].
    + destruct (subsume_ok to l from (cr_end r + 2) (mk_crange (Z.min (cr_begin r) lo) (Z.max (cr_end r) hi))) as [H1 H2];
        [done | simpl; lia | simpl; lia | simpl; lia |]. split; [done |]. intros x. rewrite H2, in_ranges_cons. simpl.
      split; [intros [Hx | Hx] | intros [[Hx | Hx] | Hx]]; try tauto; [| left; lia | left; lia].
      destruct (decide (lo <= x <= hi)); [tauto | left; left; lia].
    + destruct (IH (cr_end r + 2) lo hi Hs) as [H1 H2]; [lia | done |]. split; [by simpl |]. intros x.
      rewrite !in_ranges_cons, H2. tauto.
Qed.

(** ** What a constructor has collected *)

Record class_ok (c : CharacterClass) : Prop := mk_class_ok {
  ok_matches : sorted_chars 0 128 (cc_matches c);
  ok_ranges : separated 0 128 (cc_ranges c);
  ok_matchesUnicode : sorted_chars 128 65536 (cc_matchesUnicode c);
  ok_rangesUnicode : separated 128 65536 (cc_rangesUnicode c)
}.

Definition contents (c : CharacterClassConstructor) : CharacterClass :=
  mk_class (m_matches c) (m_ranges c) (m_matchesUnicode c) (m_rangesUnicode c).

Definition class_has (c : CharacterClass) (x : Z) : Prop :=
  (x ∈ cc_matches c \/ in_ranges x (cc_ranges c)) \/ (x ∈ cc_matchesUnicode c \/ in_ranges x (cc_rangesUnicode c)).

(** From [c] to [c'] the characters of [P] are added. *)
Record collected (c c' : CharacterClassConstructor) (P : Z -> Prop) : Prop := mk_collected {
  col_case : m_isCaseInsensitive c' = m_isCaseInsensitive c;
  col_ok : class_ok (contents c');
  col_has : forall x, class_has (contents c') x <-> class_has (contents c) x \/ P x
}.

(** The computation [m] adds the characters of [P], if case is ignored or not as [ic] says. *)
Definition collects (ic : bool) (m : ClassM unit) (P : Z -> Prop) : Prop :=
  forall c, m_isCaseInsensitive c = ic -> class_ok (contents c) -> wp m c (fun _ c' => collected c c' P).

#[global] Instance collects_proper ic m : Proper (pointwise_relation Z iff ==> iff) (collects ic m).
Proof.
  assert (forall P Q, pointwise_relation Z iff P Q -> collects ic m P -> collects ic m Q) as Hone.
  { intros P Q HPQ Hm c Hc Hok. eapply wp_mono; [apply (Hm c Hc Hok) |]. intros _ c' [H1 H2 H3].
    split; [done | done |]. intros x. by rewrite H3, (HPQ x). }
  intros P Q HPQ. split; apply Hone; [done | by symmetry].
Qed.

Lemma collects_iff ic m P Q : collects ic m P -> (forall x, P x <-> Q x) -> collects ic m Q.
Proof. intros Hm HPQ. eapply collects_proper; [| exact Hm]. intros x. by symmetry. Qed.

Lemma collects_ret ic : collects ic (mret tt) (fun _ => False).
Proof. intros c Hc Hok. wp_step. split; [done | done | tauto]. Qed.

Lemma collects_seq ic m1 m2 P Q : collects ic m1 P -> collects ic m2 Q -> collects ic (m1;; m2) (fun x => P x \/ Q x).
Proof.
  intros H1 H2 c Hc Hok. wp_step. eapply wp_mono; [apply (H1 c Hc Hok) |]. intros _ c1 [E1 Hok1 Hh1].
  eapply wp_mono; [apply (H2 c1); [congruence | done] |]. intros _ c2 [E2 Hok2 Hh2]. split; [congruence | done |].
  intros x. rewrite Hh2, Hh1. tauto.
Qed.

Lemma collects_when ic (b : bool) m P : (b = true -> collects ic m P) -> collects ic (mwhen b m) (fun x => b = true /\ P x).
Proof.
  intros Hm. destruct b; simpl.
  - eapply collects_iff; [by apply Hm | naive_solver].
  - eapply collects_iff; [apply collects_ret | naive_solver].
Qed.

Lemma collects_case ic (m : bool -> ClassM unit) P : collects ic (m ic) P -> collects ic (ic ← mgets m_isCaseInsensitive; m ic) P.
Proof. intros Hm c Hc Hok. wp_step. wp_step. rewrite Hc. by apply Hm. Qed.

Lemma collects_each {A} ic (l : list A) (body : A -> ClassM unit) (P : A -> Z -> Prop) :
  (forall a, a ∈ l -> collects ic (body a) (P a)) -> collects ic (for_each l body) (fun x => exists a, a ∈ l /\ P a x).
Proof.
  induction l as [| a l IH]; intros Hb; simpl.
  - eapply collects_iff; [apply collects_ret |]. set_solver.
  - eapply collects_iff; [apply collects_seq; [apply Hb; set_solver | apply IH; set_solver] |].
    intros x. simpl. setoid_rewrite elem_of_cons. naive_solver.
Qed.

(** The vectors. *)
Lemma addSorted_loop_all c l ch :
  StronglySorted Z.lt l ->
  wp (addSorted_loop (S (length l)) l ch 0 (Z.of_nat (length l))) c (fun place c' => c' = c /\
    match place with None => ch ∈ l | Some pos => place_of l ch pos end).
Proof.
  intros Hs. apply addSorted_loop_ok; [done | lia | lia | lia | constructor |].
  rewrite Z.add_0_l, Nat2Z.id, drop_all. constructor.
Qed.

Lemma addSorted_ascii ic ch : 0 <= ch < 128 -> collects ic (addSorted m_matches ch) (fun x => x = ch).
Proof.
  intros Hch c Hc [H1 H2 H3 H4]. unfold addSorted. wp_step. wp_step. wp_step.
  eapply wp_mono; [apply addSorted_loop_all, H1 |]. intros [pos |] c' [-> Hp]; wp_step.
  - split; [done | split; simpl; [by apply sorted_insert | done | done | done] |]. intros x.
    unfold class_has. simpl. rewrite elem_of_insert. tauto.
  - split; [done | done |]. intros x. split; [tauto |]. intros [| ->]; [done | by left; left].
Qed.

Lemma addSorted_unicode ic ch : 128 <= ch < 65536 -> collects ic (addSorted m_matchesUnicode ch) (fun x => x = ch).
Proof.
  intros Hch c Hc [H1 H2 H3 H4]. unfold addSorted. wp_step. wp_step. wp_step.
  eapply wp_mono; [apply addSorted_loop_all, H3 |]. intros [pos |] c' [-> Hp]; wp_step.
  - split; [done | split; simpl; [done | done | by apply sorted_insert | done] |]. intros x.
    unfold class_has. simpl. rewrite elem_of_insert. tauto.
  - split; [done | done |]. intros x. split; [tauto |]. intros [| ->]; [done | by right; left].
Qed.

Lemma addSortedRange_ascii ic lo hi :
  0 <= lo <= hi -> hi < 128 -> collects ic (addSortedRange m_ranges lo hi) (fun x => lo <= x <= hi).
Proof.
  intros Hlo Hhi c Hc [H1 H2 H3 H4]. unfold addSortedRange. wp_step.
  destruct (add_range_ok 128 (m_ranges c) 0 lo hi) as [Hs Hx]; [done | lia | done |].
  split; [done | by split |]. intros x. unfold class_has. simpl. rewrite Hx. tauto.
Qed.

Lemma addSortedRange_unicode ic lo hi :
  128 <= lo <= hi -> hi < 65536 -> collects ic (addSortedRange m_rangesUnicode lo hi) (fun x => lo <= x <= hi).
Proof.
  intros Hlo Hhi c Hc [H1 H2 H3 H4]. unfold addSortedRange. wp_step.
  destruct (add_range_ok 65536 (m_rangesUnicode c) 128 lo hi) as [Hs Hx]; [done | lia | done |].
  split; [done | by split |]. intros x. unfold class_has. simpl. rewrite Hx. tauto.
Qed.

(** ** Characters under case *)

(** The characters a range matches. *)
Definition range_matches (ic : bool) (lo hi x : Z) : Prop :=
  if ic then exists a, lo <= a <= hi /\ x ∈ class_of a else lo <= x <= hi.
Definition char_matches (ic : bool) (a x : Z) : Prop := if ic then x ∈ class_of a else x = a.

Lemma char_range ic a x : char_matches ic a x <-> range_matches ic a a x.
Proof.
  destruct ic; simpl; [| lia]. split; [intros Hx; exists a; by split; [lia |] |].
  intros (b & Hb & Hx). by replace a with b by lia.
Qed.

(** The classes of ASCII characters. *)
Definition ascii_class (ch : Z) : list Z :=
  if (65 <=? ch) && (ch <=? 90) then [ch; ch + 32] else if (97 <=? ch) && (ch <=? 122) then [ch - 32; ch] else [ch].

Lemma ascii_class_all :
  forallb (fun ch => bool_decide (class_of ch = ascii_class ch) &&
    (if isASCIIAlpha ch then bool_decide (ascii_class ch = [toASCIIUpper ch; toASCIILower ch])
     else bool_decide (ascii_class ch = [ch]))) (seqZ 0 128) = true.
Proof. by vm_compute. Qed.

Lemma ascii_class_of ch : 0 <= ch < 128 ->
  class_of ch = ascii_class ch /\ ascii_class ch = if isASCIIAlpha ch then [toASCIIUpper ch; toASCIILower ch] else [ch].
Proof.
  intros Hch. assert (In ch (seqZ 0 128)) as Hin by (apply list_elem_of_In, elem_of_seqZ; lia).
  apply (proj1 (forallb_forall _ _) ascii_class_all) in Hin. apply andb_true_iff in Hin as [H1%bool_decide_eq_true H2].
  split; [done |]. destruct (isASCIIAlpha ch); by apply bool_decide_eq_true in H2.
Qed.

(** The equivalents that [put_equivalents] adds complete the part of a range. *)
Definition completes (lo hi : Z) (P : Z -> Prop) : Prop :=
  forall x, (lo <= x <= hi \/ P x) <-> range_matches true lo hi x.

Lemma land_one z : truthy (Z.land z 1) = Z.odd z.
Proof.
  change 1 with (Z.ones 1). rewrite Z.land_ones by lia. rewrite Zmod_odd. by destruct (Z.odd z).
Qed.

Section part.
  Context (ic : bool) (i : Z) (r : UCS2CanonicalizationRange) (lo hi : Z).
  Context (Hr : aget rangeInfo i = Some r) (Hlo : 128 <= lo) (Hle : ri_begin r <= lo <= hi) (Hhi : hi <= ri_end r).

Lemma part_class a : lo <= a <= hi -> class_of a = class_in r a.
Proof using Hr Hle Hhi. intros Ha. apply (class_of_holds i). split; [done | lia]. Qed.

Lemma part_range a x : lo <= a <= hi -> x ∈ class_in r a -> 128 <= x < 65536.
Proof using Hr Hlo Hle Hhi.
  intros Ha Hx. rewrite <- part_class in Hx by done. assert (0 <= a < 65536) as Ha2.
  { apply aget_nat in Hr as (_ & Hi & _). pose proof (contiguous_from _ _ _ _ rangeInfo_contiguous Hi). lia. }
  destruct (class_facts a Ha2) as [_ Hf]. destruct (Hf x Hx). lia.
Qed.

Lemma completes_part P : (forall x, (lo <= x <= hi \/ P x) <-> exists a, lo <= a <= hi /\ x ∈ class_in r a) -> completes lo hi P.
Proof using Hr Hle Hhi.
  intros HP x. rewrite HP. simpl. split; intros (a & Ha & Hx); exists a; (split; [done |]);
    [by rewrite part_class | by rewrite <- part_class].
Qed.

Lemma part_u16 a x : lo <= a <= hi -> x ∈ class_in r a -> u16 x = x.
Proof using Hr Hlo Hle Hhi. intros Ha Hx. pose proof (part_range _ _ Ha Hx). apply u16_id; lia. Qed.

Lemma put_shifted v : (forall a, lo <= a <= hi -> a + v ∈ class_in r a) ->
  collects ic (addSortedRange m_rangesUnicode (u16 (lo + v)) (u16 (hi + v))) (fun x => lo + v <= x <= hi + v).
Proof using Hr Hlo Hle Hhi.
  intros Hv. assert (lo <= lo <= hi) as Hl by lia. assert (lo <= hi <= hi) as Hh by lia.
  rewrite (part_u16 lo), (part_u16 hi) by auto.
  pose proof (part_range _ _ Hl (Hv _ Hl)). pose proof (part_range _ _ Hh (Hv _ Hh)).
  apply addSortedRange_unicode; lia.
Qed.

Lemma put_one (b : bool) a v : lo <= a <= hi -> (b = true -> a + v ∈ class_in r a) ->
  collects ic (mwhen b (addSortedRange m_rangesUnicode (u16 (a + v)) (u16 (a + v)))) (fun x => b = true /\ x = a + v).
Proof using Hr Hlo Hle Hhi.
  intros Ha Hv. eapply collects_iff.
  { apply collects_when. intros Hb. rewrite (part_u16 a) by auto. pose proof (part_range _ _ Ha (Hv Hb)).
    apply addSortedRange_unicode; lia. }
  intros x. simpl. naive_solver lia.
Qed.

Lemma put_set : ri_type r = CanonicalizeSet ->
  exists P, collects ic (set ← set_at (ri_value r); for_each set (addSorted m_matchesUnicode)) P /\ completes lo hi P.
Proof using Hr Hlo Hle Hhi.
  intros Ht. assert (forall a, lo <= a <= hi -> a ∈ class_in r a /\ aget characterSetInfo (ri_value r) = Some (class_in r a)) as Hs.
  { intros a Ha. assert (holds i r a) as Hh by (split; [done | lia]).
    destruct (range_ok_at _ _ _ Hh ltac:(congruence)) as (H1 & _ & _ & H2). by split; [| apply H2]. }
  destruct (Hs lo ltac:(lia)) as [_ Hl]. exists (fun x => exists a, a ∈ class_in r lo /\ x = a). split.
  - intros c Hc Hok. wp_step. apply (wp_set_at _ _ _ _ Hl).
    apply (collects_each ic (class_in r lo) _ (fun a x => x = a)); [| done | done].
    intros a Ha. apply addSorted_unicode. by apply (part_range lo); [lia |].
  - apply completes_part. intros x. split.
    + intros [Hx | (a & Ha & ->)]; [exists x; split; [done | by apply Hs] | exists lo; by split; [lia |]].
    + intros (a & Ha & Hx). right. exists x. split; [| done]. destruct (Hs a Ha) as [_ Ha2]. congruence.
Qed.

(** Pairs [2 n + k, 2 n + k + 1]: the part may start in a pair and end in one. *)
Lemma put_alternating k (b1 b2 : bool) : 0 <= k < 2 ->
  (forall a, lo <= a <= hi -> class_in r a = [(a - k) / 2 * 2 + k; (a - k) / 2 * 2 + k + 1]) ->
  b1 = Z.odd (lo - k) -> b2 = negb (Z.odd (hi - k)) ->
  exists P, collects ic (mwhen b1 (addSortedRange m_rangesUnicode (u16 (lo - 1)) (u16 (lo - 1)));;
                         mwhen b2 (addSortedRange m_rangesUnicode (u16 (hi + 1)) (u16 (hi + 1)))) P /\ completes lo hi P.
Proof using Hr Hlo Hle Hhi.
  intros Hk Hc H1 H2. rewrite <- (Z.add_opp_r lo 1).
  pose proof (Zmod_odd (lo - k)) as Hm1. pose proof (Zmod_odd (hi - k)) as Hm2. eexists. split.
  - apply collects_seq; (apply put_one; [lia |]); intros ->; (rewrite Hc by lia); rewrite !elem_of_cons.
    + rewrite <- H1 in Hm1. Z.to_euclidean_division_equations; lia.
    + symmetry in H2. apply negb_true_iff in H2. rewrite H2 in Hm2. Z.to_euclidean_division_equations; lia.
  - apply completes_part. intros x. split.
    + intros [Hx | [[-> ->] | [-> ->]]]; [exists x | exists lo | exists hi]; (split; [lia |]); rewrite Hc, !elem_of_cons by lia.
      * Z.to_euclidean_division_equations; lia.
      * rewrite <- H1 in Hm1. Z.to_euclidean_division_equations; lia.
      * symmetry in H2. apply negb_true_iff in H2. rewrite H2 in Hm2. Z.to_euclidean_division_equations; lia.
    + intros (a & Ha & Hx). rewrite Hc, !elem_of_cons, elem_of_nil in Hx by done.
      destruct (Z.odd (lo - k)), (Z.odd (hi - k)); subst b1 b2; simpl; Z.to_euclidean_division_equations; lia.
Qed.

(** The equivalents of the part are added. *)
Lemma put_equivalents_ok : exists P, collects ic (put_equivalents r lo hi) P /\ completes lo hi P.
Proof using Hr Hlo Hle Hhi.
  unfold put_equivalents. destruct (ri_type r) eqn:Ht; [| by apply put_set | | | |].
  - exists (fun _ => False). split; [apply collects_ret | apply completes_part]. intros x. unfold class_in. rewrite Ht.
    setoid_rewrite list_elem_of_singleton. naive_solver.
  - eexists. split; [apply put_shifted; intros a Ha; unfold class_in; rewrite Ht; set_solver | apply completes_part].
    intros x. unfold class_in. rewrite Ht. split.
    + intros [Hx | Hx]; [exists x | exists (x - ri_value r)]; (split; [lia |]); rewrite !elem_of_cons; lia.
    + intros (a & Ha & Hx). rewrite !elem_of_cons, elem_of_nil in Hx. lia.
  - rewrite <- !Z.add_opp_r. eexists. split; [apply put_shifted; intros a Ha; unfold class_in; rewrite Ht; set_solver | apply completes_part].
    intros x. unfold class_in. rewrite Ht. split.
    + intros [Hx | Hx]; [exists x | exists (x + ri_value r)]; (split; [lia |]); rewrite !elem_of_cons; lia.
    + intros (a & Ha & Hx). rewrite !elem_of_cons, elem_of_nil in Hx. lia.
  - rewrite !land_one. apply (put_alternating 0); [lia | | by rewrite Z.sub_0_r | by rewrite Z.sub_0_r].
    intros a _. unfold class_in. rewrite Ht. by rewrite Z.sub_0_r, Z.add_0_r.
  - rewrite !land_one. apply (put_alternating 1); [lia | | rewrite Z.odd_sub; by destruct (Z.odd lo) | rewrite Z.odd_sub; by destruct (Z.odd hi)].
    intros a _. unfold class_in. rewrite Ht. by rewrite <- Z.add_assoc.
Qed.
End part.

(** ** The operations *)

Lemma completes_next lo mid hi P Q :
  lo <= mid < hi -> completes lo mid P -> completes (mid + 1) hi Q -> completes lo hi (fun x => P x \/ Q x).
Proof.
  intros Hm HP HQ x. simpl. transitivity ((lo <= x <= mid \/ P x) \/ (mid + 1 <= x <= hi \/ Q x)).
  - split; [intros [Hx | [Hx | Hx]]; try tauto | intros [[Hx | Hx] | [Hx | Hx]]; try tauto; left; lia].
    destruct (decide (x <= mid)); [left; left; lia | right; left; lia].
  - rewrite (HP x), (HQ x). simpl. split.
    + intros [(a & Ha & Hx) | (a & Ha & Hx)]; exists a; (split; [lia | done]).
    + intros (a & Ha & Hx). destruct (decide (a <= mid)); [left | right]; exists a; (split; [lia | done]).
Qed.

(** The following entry of the table starts where this one ends. *)
Lemma next_entry i r hi : aget rangeInfo i = Some r -> ri_end r < hi < 65536 ->
  exists r', aget rangeInfo (i + 1) = Some r' /\ ri_begin r' = ri_end r + 1.
Proof.
  intros (Hi0 & Hi & _)%aget_nat Hhi. pose proof (contiguous_from _ _ _ _ rangeInfo_contiguous Hi) as Hb.
  destruct (holds_total (ri_end r + 1)) as (j & r' & Hj); [lia |]. pose proof Hj as [Hg Hr']. pose proof Hg as (Hj0 & Hl & _)%aget_nat.
  assert (Z.to_nat i < Z.to_nat j)%nat as Hij.
  { destruct (Nat.lt_trichotomy (Z.to_nat i) (Z.to_nat j)) as [| [E | Hlt]]; [done | rewrite E in Hi; simplify_eq; lia |].
    pose proof (contiguous_order _ _ _ _ _ _ rangeInfo_contiguous Hl Hi Hlt). lia. }
  assert (is_Some (rangeInfo !! Z.to_nat (i + 1))) as [r1 Hr1].
  { apply lookup_lt_is_Some. apply lookup_lt_Some in Hl. lia. }
  assert (aget rangeInfo (i + 1) = Some r1) as Hg1 by (unfold aget; by rewrite (proj2 (Z.ltb_ge _ _)) by lia).
  pose proof (contiguous_order _ _ (Z.to_nat i) (Z.to_nat (i + 1)) _ _ rangeInfo_contiguous Hi Hr1 ltac:(lia)).
  destruct (decide (Z.to_nat (i + 1) = Z.to_nat j)) as [E | Hne].
  - rewrite E in Hr1. simplify_eq. exists r'. split; [done | lia].
  - pose proof (contiguous_from _ _ _ _ rangeInfo_contiguous Hr1).
    pose proof (contiguous_order _ _ (Z.to_nat (i + 1)) (Z.to_nat j) _ _ rangeInfo_contiguous Hr1 Hl ltac:(lia)). lia.
Qed.

Lemma collects_info ic i r (m : UCS2CanonicalizationRange -> ClassM unit) P :
  aget rangeInfo i = Some r -> collects ic (m r) P -> collects ic (r ← info_at i; m r) P.
Proof. intros Hr Hm c Hc Hok. wp_step. apply (wp_info_at _ _ r); [done |]. by apply Hm. Qed.

Lemma collects_find ic i r ch (m : Z -> ClassM unit) P :
  holds i r ch -> collects ic (m i) P -> collects ic (i ← rangeInfoFor ch; m i) P.
Proof. intros Hr Hm c Hc Hok. wp_step. apply (rangeInfoFor_ok _ i r); [done |]. by apply Hm. Qed.

Lemma putRange_loop_ok ic hi fuel : forall i r lo,
  holds i r lo -> 128 <= lo <= hi -> hi < 65536 -> Z.of_nat (length rangeInfo) <= i + Z.of_nat fuel ->
  exists P, collects ic (putRange_loop fuel i lo hi) P /\ completes lo hi P.
Proof.
  induction fuel as [| fuel IH]; intros i r lo Hh Hlo Hhi Hfuel; pose proof Hh as [Hr Hin]; pose proof (aget_nat _ _ _ Hr) as (Hi0 & _ & Hlen); [lia |].
  destruct (put_equivalents_ok ic i r lo (Z.min (ri_end r) hi)) as (P & HP & Hc); [done | lia | lia | lia |]. simpl.
  destruct (Z.eqb_spec hi (Z.min (ri_end r) hi)) as [He | Hne].
  - exists P. rewrite <- He in Hc. split; [| done]. eapply collects_iff.
    { apply (collects_info ic i r); [done |]. rewrite <- He, Z.eqb_refl, He. apply collects_seq; [exact HP | apply collects_ret]. }
    intros x. simpl. tauto.
  - destruct (next_entry i r hi Hr) as (r' & Hr' & Hb); [lia |]. pose proof (aget_nat _ _ _ Hr') as (_ & Hl' & _).
    pose proof (contiguous_from _ _ _ _ rangeInfo_contiguous Hl') as Hw.
    destruct (IH (i + 1) r' (ri_begin r')) as (Q & HQ & Hd); [split; [done | lia] | lia | done | lia |].
    exists (fun x => P x \/ Q x). split.
    + apply (collects_info ic i r); [done |]. rewrite (proj2 (Z.eqb_neq _ _)) by done.
      apply collects_seq; [done |]. by apply (collects_info ic (i + 1) r').
    + replace (Z.min (ri_end r) hi) with (ri_end r) in Hc by lia. rewrite Hb in Hd.
      apply (completes_next lo (ri_end r)); [lia | done | done].
Qed.

Lemma ascii_equivalents lo hi x : 0 <= lo -> hi < 128 ->
  range_matches true lo hi x <->
  lo <= x <= hi \/ ((lo <= 90 /\ 65 <= hi) /\ Z.max lo 65 + 32 <= x <= Z.min hi 90 + 32) \/
  ((lo <= 122 /\ 97 <= hi) /\ Z.max lo 97 - 32 <= x <= Z.min hi 122 - 32).
Proof.
  intros Hlo Hhi. simpl. split.
  - intros (a & Ha & Hx). rewrite (proj1 (ascii_class_of a ltac:(lia))) in Hx. unfold ascii_class in Hx.
    destruct (Z.leb_spec 65 a), (Z.leb_spec a 90), (Z.leb_spec 97 a), (Z.leb_spec a 122); simpl in Hx;
      rewrite !elem_of_cons, elem_of_nil in Hx; lia.
  - assert (forall a, lo <= a <= hi -> x ∈ ascii_class a -> exists a, lo <= a <= hi /\ x ∈ class_of a) as Hw.
    { intros a Ha Hx. exists a. split; [done |]. by rewrite (proj1 (ascii_class_of a ltac:(lia))). }
    intros [Hx | [Hx | Hx]]; [apply (Hw x) | apply (Hw (x - 32)) | apply (Hw (x + 32))]; try lia; unfold ascii_class.
    + destruct (_ && _); [| destruct (_ && _)]; set_solver.
    + rewrite !(proj2 (Z.leb_le _ _)) by lia. simpl. rewrite !elem_of_cons. lia.
    + rewrite (proj2 (Z.leb_gt _ 90)) by lia. rewrite !(proj2 (Z.leb_le _ _)) by lia. simpl. rewrite !elem_of_cons. lia.
Qed.

Lemma put_ascii_range_ok ic lo hi :
  0 <= lo <= hi -> lo < 128 -> collects ic (put_ascii_range lo hi) (range_matches ic lo (Z.min hi 127)).
Proof.
  intros Hlo Hl. unfold put_ascii_range.
  change (chr "A") with 65. change (chr "Z") with 90. change (chr "a") with 97. change (chr "z") with 122.
  eapply collects_iff.
  - apply collects_seq; [apply addSortedRange_ascii; lia |]. apply collects_case, collects_when. intros _.
    apply collects_seq; apply collects_when; intros [H1%Z.leb_le H2%Z.leb_le]%andb_true_iff; apply addSortedRange_ascii; lia.
  - intros x. simpl. rewrite !andb_true_iff, !Z.leb_le. destruct ic; [| simpl; naive_solver].
    rewrite ascii_equivalents by lia. change (65 - 97) with (-32). change (97 - 65) with 32. unfold Z.sub. tauto.
Qed.

Lemma range_split ic lo hi x : 0 <= lo <= hi -> 128 <= hi ->
  range_matches ic lo hi x <-> (lo <= 127 /\ range_matches ic lo (Z.min hi 127) x) \/ range_matches ic (Z.max lo 128) hi x.
Proof.
  intros Hlo Hhi. destruct ic; simpl; [| lia]. split.
  - intros (a & Ha & Hx). destruct (decide (a <= 127)); [left; split; [lia |] | right]; exists a; (split; [lia | done]).
  - intros [[_ (a & Ha & Hx)] | (a & Ha & Hx)]; exists a; (split; [lia | done]).
Qed.

Theorem putRange_ok ic lo hi : 0 <= lo <= hi -> hi < 65536 -> collects ic (putRange lo hi) (range_matches ic lo hi).
Proof.
  intros Hlo Hhi. unfold putRange. change 0x7f with 127. change 0x80 with 128.
  assert (collects ic (mwhen (lo <=? 127) (put_ascii_range lo hi)) (fun x => lo <= 127 /\ range_matches ic lo (Z.min hi 127) x)) as H1.
  { eapply collects_iff; [apply collects_when; intros Hl%Z.leb_le; apply put_ascii_range_ok; lia |]. intros x. simpl. by rewrite Z.leb_le. }
  destruct (Z.leb_spec hi 127) as [Hle | Hgt].
  { eapply collects_iff; [apply collects_seq; [exact H1 | apply collects_ret] |]. intros x. simpl. rewrite Z.min_l by lia.
    split; [tauto |]. intros Hx. left. split; [lia | done]. }
  eapply collects_iff; [apply collects_seq; [exact H1 |] | intros x; simpl; symmetry; apply range_split; lia].
  destruct (holds_total (Z.max lo 128)) as (i & r & Hr); [lia |].
  destruct (putRange_loop_ok ic hi (length rangeInfo) i r (Z.max lo 128)) as (P & HP & Hc); [done | lia | done | |].
  { destruct Hr as [(H0 & _)%aget_nat _]. lia. }
  assert (collects ic (addSortedRange m_rangesUnicode (Z.max lo 128) hi) (fun x => Z.max lo 128 <= x <= hi)) as H2
    by (apply addSortedRange_unicode; lia).
  destruct ic.
  - eapply collects_iff; [apply collects_seq; [exact H2 | apply collects_case; by apply (collects_find true i r)] |]. exact Hc.
  - eapply collects_iff; [apply collects_seq; [exact H2 | apply collects_case; apply collects_ret] |]. simpl. tauto.
Qed.

Lemma collects_assert ic b m P : b = true -> collects ic m P -> collects ic (class_assert b;; m) P.
Proof. intros -> Hm c Hc Hok. by apply Hm. Qed.

Lemma lxor_one x : Z.lxor x 1 = 2 * (x / 2) + (1 - x mod 2).
Proof.
  assert (forall k, Z.lxor (2 * k) 1 = 2 * k + 1) as Heven.
  { intros k. symmetry. apply Z.add_nocarry_lxor. change 1 with (Z.ones 1). rewrite Z.land_ones by lia.
    change (2 ^ 1) with 2. rewrite Z.mul_comm. by apply Z.mod_mul. }
  rewrite (Z.div_mod x 2) at 1 by done. destruct (Z.mod_pos_bound x 2 ltac:(lia)).
  assert (x mod 2 = 0 \/ x mod 2 = 1) as [-> | ->] by lia; [rewrite Z.add_0_r, Heven; lia |].
  rewrite <- Heven, Z.lxor_assoc, Z.lxor_nilpotent, Z.lxor_0_r. lia.
Qed.

Lemma holds_range i r ch : holds i r ch -> 0 <= ch < 65536.
Proof. intros [(_ & Hi & _)%aget_nat Hr]. pose proof (contiguous_from _ _ _ _ rangeInfo_contiguous Hi). lia. Qed.

(** The other character of a pair. *)
Lemma getCanonicalPair_ok i r ch :
  holds i r ch -> ri_type r <> CanonicalizeUnique -> ri_type r <> CanonicalizeSet ->
  exists p, (forall x, x ∈ class_of ch <-> x = ch \/ x = p) /\
  forall (c : CharacterClassConstructor) Q, Q p c -> wp (getCanonicalPair r ch) c Q.
Proof.
  intros Hh Hu Hs. pose proof Hh as [_ Hr]. destruct (range_ok_at _ _ _ Hh Hu) as (_ & _ & Hm & _).
  assert (forall x, x ∈ class_in r ch -> u16 x = x) as Hw by (intros x Hx; apply u16_id, Hm, Hx).
  assert (forall p, (forall c : CharacterClassConstructor, getCanonicalPair r ch c = Ok (p, c)) ->
    forall (c : CharacterClassConstructor) Q, Q p c -> wp (getCanonicalPair r ch) c Q) as Hwp by (intros p Hp c Q HQ; by apply (wp_intro _ _ p c)).
  rewrite (class_of_holds _ _ _ Hh). unfold getCanonicalPair, class_assert in *. rewrite !(proj2 (Z.leb_le _ _)) in * by lia.
  unfold class_in in *. destruct (ri_type r); try done;
    (eexists; split; [| apply Hwp; intros c; reflexivity]); intros x.
  - rewrite Hw by set_solver. set_solver.
  - rewrite Hw by set_solver. set_solver.
  - rewrite lxor_one, !elem_of_cons, elem_of_nil. Z.to_euclidean_division_equations; lia.
  - rewrite lxor_one, Hw, !elem_of_cons, elem_of_nil; [| rewrite !elem_of_cons]; Z.to_euclidean_division_equations; lia.
Qed.

Lemma putUnicodeIgnoreCase_ok i r ch :
  holds i r ch -> 128 <= ch -> ri_type r <> CanonicalizeUnique ->
  collects true (putUnicodeIgnoreCase ch i) (char_matches true ch).
Proof.
  intros Hh Hch Hu. pose proof Hh as [Hg Hr]. unfold putUnicodeIgnoreCase. pose proof (holds_range _ _ _ Hh).
  assert (forall x, x ∈ class_of ch -> 128 <= x < 65536) as Hx.
  { intros x Hx. destruct (class_facts ch ltac:(done)) as [_ Hf]. destruct (Hf x Hx). lia. }
  apply collects_case, collects_assert; [done |]. apply collects_assert; [apply Z.ltb_lt; lia |].
  apply (collects_info true i r); [done |]. apply collects_assert; [by rewrite !(proj2 (Z.leb_le _ _)) by lia |].
  apply collects_assert; [by apply bool_decide_eq_true |]. case_bool_decide as Hs.
  - destruct (range_ok_at _ _ _ Hh Hu) as (_ & _ & _ & Hset). specialize (Hset Hs). rewrite <- (class_of_holds _ _ _ Hh) in Hset.
    apply (collects_iff _ _ (fun x => exists a, a ∈ class_of ch /\ x = a)); [| simpl; naive_solver].
    intros c Hc Hok. wp_step. apply (wp_set_at _ _ _ _ Hset). apply (collects_each true _ _ (fun a x => x = a)); [| done | done].
    intros a Ha. by apply addSorted_unicode, Hx.
  - destruct (getCanonicalPair_ok _ _ _ Hh Hu Hs) as (p & Hp & Hwp).
    eapply collects_iff; [apply collects_seq; [apply addSorted_unicode; lia |] | intros x; simpl; symmetry; apply Hp].
    intros c Hc Hok. wp_step. apply Hwp. apply (addSorted_unicode true p); [apply Hx, Hp; by right | done | done].
Qed.

Theorem putChar_ok ic ch : 0 <= ch < 65536 -> collects ic (putChar ch) (char_matches ic ch).
Proof.
  intros Hch. unfold putChar. apply collects_case. change 0x7f with 127. destruct (Z.leb_spec ch 127) as [Hle | Hgt].
  - destruct (ascii_class_of ch ltac:(lia)) as [H1 H2]. rewrite H2 in H1. destruct ic; simpl; [| by apply addSorted_ascii; lia].
    destruct (isASCIIAlpha ch) eqn:Ea.
    + assert (forall x, x ∈ class_of ch -> 0 <= x < 128) as Hx.
      { intros x Hx. destruct (class_facts ch Hch) as [_ Hf]. destruct (Hf x Hx). lia. }
      rewrite H1 in Hx. unfold char_matches. rewrite H1.
      eapply collects_iff; [apply collects_seq; apply addSorted_ascii; apply Hx; set_solver | set_solver].
    + unfold char_matches. rewrite H1. eapply collects_iff; [apply addSorted_ascii; lia | set_solver].
  - destruct ic; simpl; [| by apply addSorted_unicode; lia]. destruct (holds_total ch Hch) as (i & r & Hh).
    apply (collects_find true i r); [done |]. apply (collects_info true i r); [apply Hh |]. case_bool_decide as Hu.
    + eapply collects_iff; [apply addSorted_unicode; lia |]. unfold char_matches, class_of. rewrite (range_of_holds _ _ _ Hh). unfold class_in. rewrite Hu. set_solver.
    + apply (putUnicodeIgnoreCase_ok i r); [done | lia | done].
Qed.

Lemma separated_elem from to l r : separated from to l -> r ∈ l -> from <= cr_begin r <= cr_end r /\ cr_end r < to.
Proof.
  revert from. induction l as [| r0 l IH]; intros from Hs Hr; [set_solver |]. simpl in Hs. destruct Hs as (H1 & H2 & H3).
  apply elem_of_cons in Hr as [-> | Hr]; [done |]. destruct (IH _ H3 Hr). lia.
Qed.

Theorem append_ok ic other : class_ok other -> collects ic (append other) (class_has other).
Proof.
  intros [[_ H1] H2 [_ H3] H4]. unfold append. rewrite Forall_forall in H1, H3. eapply collects_iff.
  - apply collects_seq; [apply (collects_each _ _ _ (fun a x => x = a)); intros a Ha; by apply addSorted_ascii, H1 |].
    apply collects_seq; [apply (collects_each _ _ _ (fun r x => cr_begin r <= x <= cr_end r)); intros r Hr; by apply addSortedRange_ascii; apply (separated_elem _ _ _ _ H2) |].
    apply collects_seq; [apply (collects_each _ _ _ (fun a x => x = a)); intros a Ha; by apply addSorted_unicode, H3 |].
    apply (collects_each _ _ _ (fun r x => cr_begin r <= x <= cr_end r)); intros r Hr; by apply addSortedRange_unicode; apply (separated_elem _ _ _ _ H4).
  - intros x. unfold class_has, in_ranges. simpl. rewrite !Exists_exists. naive_solver.
Qed.

(** ** Matching *)

Lemma in_ranges_existsb x l : existsb (in_crange x) l = true <-> in_ranges x l.
Proof.
  unfold in_ranges. rewrite existsb_exists, Exists_exists. setoid_rewrite list_elem_of_In. unfold in_crange.
  setoid_rewrite andb_true_iff. setoid_rewrite Z.leb_le. done.
Qed.

Lemma in_separated from to l x : separated from to l -> in_ranges x l -> from <= x < to.
Proof. unfold in_ranges. intros Hs (r & Hr & Hx)%Exists_exists. destruct (separated_elem _ _ _ _ Hs Hr). lia. Qed.

Lemma ascii_mask ch : 0 <= ch < 65536 -> truthy (Z.land ch 0xFF80) = (128 <=? ch).
Proof.
  intros Hch. assert (Z.land ch 0xFF80 = ch / 128 * 128) as ->.
  { change 0xFF80 with (Z.shiftl (Z.ones 9) 7). replace (ch / 128 * 128) with (Z.shiftl (Z.land (Z.shiftr ch 7) (Z.ones 9)) 7).
    - rewrite Z.shiftl_land. apply Z.bits_inj'. intros n Hn. rewrite !Z.land_spec, !Z.shiftl_spec by done.
      destruct (Z.ltb_spec n 7); [by rewrite (Z.testbit_neg_r (Z.ones 9)), !andb_false_r by lia |].
      rewrite Z.shiftr_spec by lia. by replace (n - 7 + 7) with n by lia.
    - rewrite Z.shiftl_mul_pow2, Z.land_ones, Z.shiftr_div_pow2 by done. change (2 ^ 7) with 128. change (2 ^ 9) with 512.
      rewrite Z.mod_small; [done |]. Z.to_euclidean_division_equations; lia. }
  unfold truthy. destruct (Z.eqb_spec (ch / 128 * 128) 0), (Z.leb_spec 128 ch); simpl; try done; Z.to_euclidean_division_equations; lia.
Qed.

Theorem testCharacterClass_ok c ch :
  class_ok c -> 0 <= ch < 65536 -> testCharacterClass c ch = true <-> class_has c ch.
Proof.
  intros [[_ H1] H2 [_ H3] H4] Hch. unfold testCharacterClass, class_has. rewrite ascii_mask by done. rewrite Forall_forall in H1, H3.
  destruct (Z.leb_spec 128 ch); rewrite orb_true_iff, elem_existsb, in_ranges_existsb.
  - split; [by right |]. intros [[Hx%H1 | Hx%(in_separated _ _ _ _ H2)] | Hx]; [lia | lia | done].
  - split; [by left |]. intros [Hx | [Hx%H3 | Hx%(in_separated _ _ _ _ H4)]]; [done | lia | lia].
Qed.
