(* ===== verification/ClassProps.v ===== *)
(** * Character classes: what the constructor and the comparison promise

    Any sequence of characters, ranges and classes put into the constructor, and
    the equivalence of characters the class is closed under. *)

From stdpp Require Import base numbers list sets.
From S2P Require Import Prelude Ctype YarrCanonicalize YarrCase YarrClass YarrClassProof.

#[local] Open Scope Z_scope.

(** ** Equivalence of characters *)

Definition code_unit (ch : Z) : Prop := 0 <= ch < 65536.

(** The comparison answers yes. *)
Definition equivalent (a b : Z) : Prop := areCanonicallyEquivalent a b tt = Ok (true, tt).

Lemma equivalent_class a b : code_unit a -> equivalent a b <-> b ∈ class_of a.
Proof.
  intros Ha. pose proof (areCanonicallyEquivalent_ok tt a b Ha) as Hw. unfold wp, equivalent in *.
  destruct (areCanonicallyEquivalent a b tt) as [[r []] | e]; [| done]. destruct Hw as [_ <-]. split; congruence.
Qed.

(** C13: ignoring case is an equivalence of characters.  For all UTF-16 code
    units the comparison under case and the test for a character that is equal
    to no other run without a fault: the binary search finds the entry of the
    table, and no set is read outside the tables.  The comparison is
    reflexive, symmetric and transitive although its second argument is never
    looked up, it keeps ASCII apart from the other characters, and the test
    answers yes exactly for the characters equivalent to themselves only. *)
Theorem canonical_equivalence a : code_unit a ->
  (forall b, exists r, areCanonicallyEquivalent a b tt = Ok (r, tt)) /\
  equivalent a a /\
  (forall b, equivalent a b -> code_unit b /\ (a < 128 <-> b < 128) /\ equivalent b a) /\
  (forall b c, equivalent a b -> equivalent b c -> equivalent a c) /\
  exists u, isCanonicallyUnique a tt = Ok (u, tt) /\ (u = true <-> forall b, equivalent a b -> b = a).
Proof.
  intros Ha. destruct (class_facts a Ha) as [Hrefl Hf]. split_and!.
  - intros b. pose proof (areCanonicallyEquivalent_ok tt a b Ha) as Hw. unfold wp in Hw.
    destruct (areCanonicallyEquivalent a b tt) as [[r []] | e]; [by exists r | done].
  - by apply equivalent_class.
  - intros b Hb%equivalent_class; [| done]. destruct (Hf b Hb) as (H1 & H2 & H3). split; [done |]. split; [lia |].
    apply equivalent_class; [done |]. by rewrite H3.
  - intros b c Hb%equivalent_class Hc; [| done]. destruct (Hf b Hb) as (H1 & H2 & H3).
    apply equivalent_class in Hc; [| done]. apply equivalent_class; [done |]. by rewrite <- H3.
  - pose proof (isCanonicallyUnique_ok tt a Ha) as Hw. unfold wp in Hw.
    destruct (isCanonicallyUnique a tt) as [[u []] | e]; [| done]. destruct Hw as [_ Hu]. exists u. split; [done |]. rewrite Hu.
    split; intros Hall b Hb; apply Hall; by apply equivalent_class.
Qed.

(** The three forms of sigma. *)
Lemma canonical_equivalence_witness : code_unit 0x3a3 /\ equivalent 0x3a3 0x3c2 /\ equivalent 0x3a3 0x3c3.
Proof.
  assert (code_unit 0x3c2) as Hc by (split; lia).
  destruct (canonical_equivalence 0x3c2 Hc) as (_ & _ & Hsym & Htrans & _).
  destruct (Hsym 0x3a3) as (H1 & _ & H2); [vm_compute; reflexivity |].
  split; [exact H1 | split; [exact H2 | vm_compute; reflexivity]].
Defined.

(** ** Classes *)

(** What the parser puts into a class. *)
Inductive put :=
  | Put_char (ch : Z)
  | Put_range (lo hi : Z)
  | Put_class (other : CharacterClass).

Definition do_put (p : put) : ClassM unit :=
  match p with
  | Put_char ch => putChar ch
  | Put_range lo hi => putRange lo hi
  | Put_class other => append other
  end.

Definition build_class (ic : bool) (puts : list put) : res class_fault (CharacterClass * CharacterClassConstructor) :=
  (for_each puts do_put;; charClass) (new_constructor ic).

Definition put_ok (p : put) : Prop :=
  match p with
  | Put_char ch => code_unit ch
  | Put_range lo hi => code_unit lo /\ code_unit hi /\ lo <= hi
  | Put_class other => class_ok other
  end.

(** The characters that are asked for. *)
Definition put_accepts (ic : bool) (p : put) (ch : Z) : Prop :=
  match p with
  | Put_char a => if ic then equivalent a ch else ch = a
  | Put_range lo hi => if ic then exists a, lo <= a <= hi /\ equivalent a ch else lo <= ch <= hi
  | Put_class other => testCharacterClass other ch = true
  end.

Lemma do_put_ok ic p : put_ok p ->
  exists P, collects ic (do_put p) P /\ forall ch, code_unit ch -> P ch <-> put_accepts ic p ch.
Proof.
  destruct p as [a | lo hi | other]; simpl; intros Hp.
  - exists (char_matches ic a). split; [by apply putChar_ok |]. intros ch _. destruct ic; simpl; [by rewrite equivalent_class | done].
  - destruct Hp as (H1 & H2 & H3). exists (range_matches ic lo hi). unfold code_unit in *. split; [apply putRange_ok; lia |].
    intros ch _. destruct ic; simpl; [| done]. split; intros (a & Ha & Hx); exists a; (split; [done |]); apply equivalent_class; unfold code_unit; [lia | done | lia | done].
  - exists (class_has other). split; [by apply append_ok |]. intros ch Hch. by rewrite testCharacterClass_ok.
Qed.

Lemma for_each_put_ok ic puts : Forall put_ok puts ->
  exists P, collects ic (for_each puts do_put) P /\ forall ch, code_unit ch -> P ch <-> Exists (fun p => put_accepts ic p ch) puts.
Proof.
  induction 1 as [| p puts Hp _ (P & HP & Hc)]; simpl.
  - exists (fun _ => False). split; [apply collects_ret |]. intros ch _. by rewrite Exists_nil.
  - destruct (do_put_ok ic p Hp) as (P0 & HP0 & Hc0). exists (fun x => P0 x \/ P x). split; [by apply collects_seq |].
    intros ch Hch. by rewrite Exists_cons, (Hc0 ch Hch), (Hc ch Hch).
Qed.

Lemma new_class_ok ic : class_ok (contents (new_constructor ic)) /\ forall x, ~ class_has (contents (new_constructor ic)) x.
Proof.
  split; [split; simpl; by repeat constructor |]. intros x [[Hx | Hx] | [Hx | Hx]]; simpl in Hx;
    first [by apply elem_of_nil in Hx | by apply in_ranges_nil in Hx].
Qed.

(** C14: character classes are exact.  Whatever characters, ranges in order and
    classes are put into a constructor, in whatever order, it runs without a
    fault, gives a class whose vectors are sorted without duplicates, whose
    ranges are separated by a gap and whose ASCII part is in the vectors for
    ASCII, and is empty again.  Matching accepts a code unit exactly when it
    was put in or, if case is ignored, the run-time comparison under case
    finds it equivalent to a character that was put in. *)
Theorem character_class_exact ic puts : Forall put_ok puts ->
  exists c, build_class ic puts = Ok (c, new_constructor ic) /\ class_ok c /\
  forall ch, code_unit ch -> testCharacterClass c ch = true <-> Exists (fun p => put_accepts ic p ch) puts.
Proof.
  intros Hputs. destruct (for_each_put_ok ic puts Hputs) as (P & HP & Hc). destruct (new_class_ok ic) as [Hok Hno].
  specialize (HP (new_constructor ic) eq_refl Hok). apply wp_inv in HP as ([] & c' & Hrun & [Hcase Hok' Hhas]).
  exists (contents c'). split_and!; [| done |].
  - unfold build_class. unfold mbind at 1, M_bind at 1. rewrite Hrun. unfold charClass. destruct c'. simpl in *. by subst.
  - intros ch Hch. rewrite testCharacterClass_ok, Hhas, (Hc ch Hch) by done. split; [| by right]. intros [Hx | Hx]; [by destruct (Hno ch) | done].
Qed.

(** [/[\dk-s\xe0-\xe4\u03c2]/i]. *)
Lemma character_class_exact_witness :
  let puts := [Put_class (mk_class [] [mk_crange 0x30 0x39] [] []); Put_range 0x6b 0x73; Put_range 0xe0 0xe4; Put_char 0x3c2] in
  Forall put_ok puts /\
  exists c, build_class true puts = Ok (c, new_constructor true) /\
    testCharacterClass c 0x35 = true /\ testCharacterClass c 0x4b = true /\ testCharacterClass c 0xc4 = true /\ testCharacterClass c 0x3a3 = true /\
    testCharacterClass c 0x212a = false.
Proof.
  intros puts. assert (Forall put_ok puts) as Hp by (repeat constructor; vm_compute; discriminate).
  split; [exact Hp |]. destruct (character_class_exact true puts Hp) as (c & Hb & _ & Hc). exists c. split; [exact Hb |].
  assert (forall ch, code_unit ch -> Exists (fun p => put_accepts true p ch) puts -> testCharacterClass c ch = true) as Hyes
    by (intros ch H1 H2; apply Hc; assumption).
  split_and!.
  - apply Hyes; [split; lia |]. left. reflexivity.
  - apply Hyes; [split; lia |]. right. left. exists 0x6b. split; [lia | vm_compute; reflexivity].
  - apply Hyes; [split; lia |]. right. right. left. exists 0xe4. split; [lia | vm_compute; reflexivity].
  - apply Hyes; [split; lia |]. right. right. right. left. vm_compute; reflexivity.
  - vm_compute in Hb. injection Hb as <-. reflexivity.
Defined.
