(* ===== verification/YarrPattern.v ===== *)
(** * Regular expression patterns

    yarr/YarrPattern.h and YarrPattern.cpp: the tree of terms, alternatives and
    disjunctions, [YarrPatternConstructor], which builds it as the delegate of
    the parser, and [YarrPattern::compile] with its passes over the tree.

    A disjunction is owned by the one term that points to it, so the tree is a
    value.  While it is built, [m_alternative] is the place in it: the
    alternative itself, those before it in its disjunction, and the frames of
    the parentheses around it, innermost first, whose alternatives end in the
    term of these parentheses.  The vectors that own disjunctions and classes are
    left out; a pointer to a class is the class, or the cache it is in.  A field
    that is not initialised is [None]. *)

From Stdlib Require Import Ascii.
From stdpp Require Import base numbers list.
From S2P Require Import Prelude Ctype Yarr YarrCanonicalize YarrClass.

#[local] Open Scope Z_scope.

(** ** The tree *)

Inductive QuantifierType := QuantifierFixedCount | QuantifierGreedy | QuantifierNonGreedy.

#[global] Instance QuantifierType_eq_dec : EqDecision QuantifierType.
Proof. solve_decision. Defined.

Inductive class_ptr :=
  | newlineCached | digitsCached | spacesCached | wordcharCached
  | User (characterClass : CharacterClass).

Definition is_newline (c : class_ptr) : bool := match c with newlineCached => true | _ => false end.

Section tree.
Context (Term : Type).

Record PatternAlternative_ := mk_alternative {
  m_terms : list Term;
  m_minimumSize : option Z;
  m_onceThrough : bool;
  m_hasFixedSize : bool;
  m_startsWithBOL : bool;
  m_containsBOL : bool
}.

Record PatternDisjunction_ := mk_disjunction {
  m_alternatives : list PatternAlternative_;
  d_minimumSize : option Z;
  d_callFrameSize : option Z;
  d_hasFixedSize : bool
}.

Record Parentheses_ := mk_parentheses {
  p_disjunction : PatternDisjunction_;
  p_subpatternId : Z;
  p_lastSubpatternId : option Z;
  p_isCopy : bool;
  p_isTerminal : bool
}.

Inductive TermType_ :=
  | TypeAssertionBOL
  | TypeAssertionEOL
  | TypeAssertionWordBoundary
  | TypePatternCharacter (patternCharacter : Z)
  | TypeCharacterClass (characterClass : class_ptr)
  | TypeBackReference (backReferenceSubpatternId : Z)
  | TypeForwardReference
  | TypeParenthesesSubpattern (parentheses : Parentheses_)
  | TypeParentheticalAssertion (parentheses : Parentheses_)
  | TypeDotStarEnclosure (bolAnchor eolAnchor : bool).
End tree.

Arguments mk_alternative {Term}.
Arguments m_terms {Term}.
Arguments m_minimumSize {Term}.
Arguments m_onceThrough {Term}.
Arguments m_hasFixedSize {Term}.
Arguments m_startsWithBOL {Term}.
Arguments m_containsBOL {Term}.
Arguments mk_disjunction {Term}.
Arguments m_alternatives {Term}.
Arguments d_minimumSize {Term}.
Arguments d_callFrameSize {Term}.
Arguments d_hasFixedSize {Term}.
Arguments mk_parentheses {Term}.
Arguments p_disjunction {Term}.
Arguments p_subpatternId {Term}.
Arguments p_lastSubpatternId {Term}.
Arguments p_isCopy {Term}.
Arguments p_isTerminal {Term}.
Arguments TypeAssertionBOL {Term}.
Arguments TypeAssertionEOL {Term}.
Arguments TypeAssertionWordBoundary {Term}.
Arguments TypePatternCharacter {Term}.
Arguments TypeCharacterClass {Term}.
Arguments TypeBackReference {Term}.
Arguments TypeForwardReference {Term}.
Arguments TypeParenthesesSubpattern {Term}.
Arguments TypeParentheticalAssertion {Term}.
Arguments TypeDotStarEnclosure {Term}.

Inductive PatternTerm := mk_term {
  t_type : TermType_ PatternTerm;
  t_capture : bool;
  t_invert : bool;
  t_quantityType : QuantifierType;
  t_quantityCount : Z;
  t_inputPosition : option Z;
  t_frameLocation : option Z
}.

Abbreviation PatternAlternative := (PatternAlternative_ PatternTerm).
Abbreviation PatternDisjunction := (PatternDisjunction_ PatternTerm).
Abbreviation Parentheses := (Parentheses_ PatternTerm).
Abbreviation TermType := (TermType_ PatternTerm).

Definition new_alternative : PatternAlternative := mk_alternative [] None false false false false.
Definition new_disjunction (alternatives : list PatternAlternative) : PatternDisjunction :=
  mk_disjunction alternatives None None false.

(** A new term matches once. *)
Definition new_term (type : TermType) (capture invert : bool) : PatternTerm :=
  mk_term type capture invert QuantifierFixedCount 1 None None.
Definition quantify (count : Z) (type : QuantifierType) (t : PatternTerm) : PatternTerm :=
  mk_term (t_type t) (t_capture t) (t_invert t) type count (t_inputPosition t) (t_frameLocation t).
Definition set_type (type : TermType) (t : PatternTerm) : PatternTerm :=
  mk_term type (t_capture t) (t_invert t) (t_quantityType t) (t_quantityCount t) (t_inputPosition t) (t_frameLocation t).
Definition set_terms (terms : list PatternTerm) (a : PatternAlternative) : PatternAlternative :=
  mk_alternative terms (m_minimumSize a) (m_onceThrough a) (m_hasFixedSize a) (m_startsWithBOL a) (m_containsBOL a).
Definition set_disjunction (d : PatternDisjunction) (p : Parentheses) : Parentheses :=
  mk_parentheses d (p_subpatternId p) (p_lastSubpatternId p) (p_isCopy p) (p_isTerminal p).
Definition append_term (t : PatternTerm) (a : PatternAlternative) : PatternAlternative := set_terms (m_terms a ++ [t]) a.

(** ** Faults *)

Inductive pattern_fault :=
  | Pattern_assert
  | Vector_overflow
  | Checked_overflow
  | Null_disjunction
  | Pattern_class (f : class_fault)
  | Pattern_parser (f : yarr_fault).

Abbreviation PR := (res pattern_fault).

#[global] Instance PR_ret : MRet PR := fun A a => Ok a.
#[global] Instance PR_bind : MBind PR := fun A B f m => match m with Ok a => f a | Err e => Err e end.

Definition p_assert (b : bool) : PR unit := if b then Ok tt else Err Pattern_assert.

(** The function applied along a list, from its front. *)
Definition res_map {A B} (f : A -> PR B) : list A -> PR (list B) :=
  fix go (l : list A) : PR (list B) :=
    match l with
    | [] => Ok []
    | x :: l' => y ← f x; ys ← go l'; Ok (y :: ys)
    end.

(** Addition and subtraction of [Checked<unsigned>]. *)
Definition checked_add (a b : Z) : PR Z := if a + b <? 2 ^ 32 then Ok (a + b) else Err Checked_overflow.
Definition checked_sub (a b : Z) : PR Z := if b <=? a then Ok (a - b) else Err Checked_overflow.

(** ** The pattern *)

Record YarrPattern := mk_pattern {
  m_ignoreCase : bool;
  m_multiline : bool;
  m_containsBackreferences : bool;
  m_patternContainsBOL : bool;
  m_counts : PatternCounts;
  m_body : PatternDisjunction
}.

(** The classes that are generated at build time. *)
Class BuiltInClasses := {
  newlineCreate : CharacterClass;
  digitsCreate : CharacterClass;
  spacesCreate : CharacterClass;
  wordcharCreate : CharacterClass;
  nondigitsCreate : CharacterClass;
  nonspacesCreate : CharacterClass;
  nonwordcharCreate : CharacterClass
}.

(** The class a pointer points to. *)
Definition class_at `{BuiltInClasses} (c : class_ptr) : CharacterClass :=
  match c with
  | newlineCached => newlineCreate
  | digitsCached => digitsCreate
  | spacesCached => spacesCreate
  | wordcharCached => wordcharCreate
  | User c => c
  end.

(** ** The constructor *)

(** An open parenthesis: the alternatives before the one it is in, and that one,
    whose last term is the parenthesis. *)
Record Frame := mk_frame { fr_before : list PatternAlternative; fr_alternative : PatternAlternative }.

Record YarrPatternConstructor := mk_pattern_constructor {
  m_pattern : YarrPattern;
  m_before : list PatternAlternative;
  m_alternative : PatternAlternative;
  m_enclosing : list Frame;
  m_characterClassConstructor : CharacterClassConstructor;
  m_invertCharacterClass : option bool;
  m_invertParentheticalAssertion : bool
}.

Definition eta_pattern (p : YarrPattern) : YarrPattern :=
  mk_pattern (m_ignoreCase p) (m_multiline p) (m_containsBackreferences p) (m_patternContainsBOL p) (m_counts p) (m_body p).
#[global] Instance upd_m_containsBackreferences : Upd m_containsBackreferences := ltac:(mk_upd eta_pattern m_containsBackreferences).
#[global] Instance upd_m_patternContainsBOL : Upd m_patternContainsBOL := ltac:(mk_upd eta_pattern m_patternContainsBOL).
#[global] Instance upd_m_counts : Upd m_counts := ltac:(mk_upd eta_pattern m_counts).
#[global] Instance upd_m_body : Upd m_body := ltac:(mk_upd eta_pattern m_body).

Definition eta_pattern_constructor (c : YarrPatternConstructor) : YarrPatternConstructor :=
  mk_pattern_constructor (m_pattern c) (m_before c) (m_alternative c) (m_enclosing c) (m_characterClassConstructor c)
    (m_invertCharacterClass c) (m_invertParentheticalAssertion c).
#[global] Instance upd_m_pattern : Upd m_pattern := ltac:(mk_upd eta_pattern_constructor m_pattern).
#[global] Instance upd_m_before : Upd m_before := ltac:(mk_upd eta_pattern_constructor m_before).
#[global] Instance upd_m_alternative : Upd m_alternative := ltac:(mk_upd eta_pattern_constructor m_alternative).
#[global] Instance upd_m_enclosing : Upd m_enclosing := ltac:(mk_upd eta_pattern_constructor m_enclosing).
#[global] Instance upd_m_characterClassConstructor : Upd m_characterClassConstructor :=
  ltac:(mk_upd eta_pattern_constructor m_characterClassConstructor).
#[global] Instance upd_m_invertCharacterClass : Upd m_invertCharacterClass :=
  ltac:(mk_upd eta_pattern_constructor m_invertCharacterClass).
#[global] Instance upd_m_invertParentheticalAssertion : Upd m_invertParentheticalAssertion :=
  ltac:(mk_upd eta_pattern_constructor m_invertParentheticalAssertion).

(** [PatternAlternative::lastTerm] and [removeLastTerm]. *)
Definition lastTerm (a : PatternAlternative) : PR PatternTerm :=
  match last (m_terms a) with Some t => Ok t | None => Err Pattern_assert end.
Definition removeLastTerm (a : PatternAlternative) : PR PatternAlternative :=
  match m_terms a with [] => Err Pattern_assert | _ => Ok (set_terms (removelast (m_terms a)) a) end.

(** *** Copies *)

Definition copyAlternative (copyTerm : PatternTerm -> PR PatternTerm) (a : PatternAlternative) : PR PatternAlternative :=
  terms ← res_map copyTerm (m_terms a); Ok (set_terms terms new_alternative).

(** The alternatives that are copied. *)
Definition keeps (filterStartsWithBOL : bool) (a : PatternAlternative) : bool := negb filterStartsWithBOL || negb (m_startsWithBOL a).

Definition copyAlternatives (copyTerm : PatternTerm -> PR PatternTerm) (filterStartsWithBOL : bool)
    : list PatternAlternative -> PR (list PatternAlternative) :=
  fix go (l : list PatternAlternative) : PR (list PatternAlternative) :=
    match l with
    | [] => Ok []
    | a :: l' =>
        if keeps filterStartsWithBOL a then a' ← copyAlternative copyTerm a; l'' ← go l'; Ok (a' :: l'')
        else go l'
    end.

(** Without an alternative to copy there is no disjunction. *)
Definition copyDisjunction_ (copyTerm : PatternTerm -> PR PatternTerm) (filterStartsWithBOL : bool) (d : PatternDisjunction)
    : PR (option PatternDisjunction) :=
  alternatives ← copyAlternatives copyTerm filterStartsWithBOL (m_alternatives d);
  Ok (match alternatives with [] => None | _ => Some (new_disjunction alternatives) end).

(** The null pointer of a term whose disjunction has no copy is dereferenced by
    [setupOffsets]; it is a fault here. *)
Fixpoint copyTerm (filterStartsWithBOL : bool) (t : PatternTerm) : PR PatternTerm :=
  let copyParentheses (p : Parentheses) : PR Parentheses :=
    d ← copyDisjunction_ (copyTerm filterStartsWithBOL) filterStartsWithBOL (p_disjunction p);
    match d with Some d => Ok (set_disjunction d p) | None => Err Null_disjunction end in
  match t_type t with
  | TypeParenthesesSubpattern p => p' ← copyParentheses p; Ok (set_type (TypeParenthesesSubpattern p') t)
  | TypeParentheticalAssertion p => p' ← copyParentheses p; Ok (set_type (TypeParentheticalAssertion p') t)
  | _ => Ok t
  end.

Definition copyDisjunction (filterStartsWithBOL : bool) (d : PatternDisjunction) : PR (option PatternDisjunction) :=
  copyDisjunction_ (copyTerm filterStartsWithBOL) filterStartsWithBOL d.

(** *** The callbacks *)

Module Constructor.

Definition new_constructor (ignoreCase multiline : bool) : YarrPatternConstructor :=
  mk_pattern_constructor (mk_pattern ignoreCase multiline false false Yarr.reset (new_disjunction [])) [] new_alternative []
    (YarrClass.new_constructor ignoreCase) None false.

Definition reset (c : YarrPatternConstructor) : YarrPatternConstructor :=
  c <| m_pattern := mk_pattern (m_ignoreCase (m_pattern c)) (m_multiline (m_pattern c)) false false Yarr.reset (new_disjunction []) |>
    <| m_characterClassConstructor := YarrClass.new_constructor (m_isCaseInsensitive (m_characterClassConstructor c)) |>
    <| m_before := [] |> <| m_alternative := new_alternative |> <| m_enclosing := [] |>.

(** The alternative with another term. *)
Definition add (t : PatternTerm) (c : YarrPatternConstructor) : YarrPatternConstructor :=
  c <| m_alternative := append_term t (m_alternative c) |>.

(** An operation of the class constructor. *)
Definition in_class {A} (m : ClassM A) (c : YarrPatternConstructor) : PR (A * YarrPatternConstructor) :=
  match m (m_characterClassConstructor c) with
  | Ok (a, cc) => Ok (a, c <| m_characterClassConstructor := cc |>)
  | Err f => Err (Pattern_class f)
  end.
Definition put_class (m : ClassM unit) (c : YarrPatternConstructor) : PR YarrPatternConstructor := r ← in_class m c; Ok r.2.

Definition mark_bol (starts : bool) (a : PatternAlternative) : PatternAlternative :=
  mk_alternative (m_terms a) (m_minimumSize a) (m_onceThrough a) (m_hasFixedSize a) (m_startsWithBOL a || starts) true.

Definition assertionBOL (c : YarrPatternConstructor) : PR YarrPatternConstructor :=
  let a := m_alternative c in
  let c :=
    if bool_decide (length (m_terms a) = 0%nat) && negb (m_invertParentheticalAssertion c) then
      c <| m_alternative := mark_bol true a |> <| m_pattern := (m_pattern c) <| m_patternContainsBOL := true |> |>
    else c in
  Ok (add (new_term TypeAssertionBOL false false) c).

Definition assertionEOL (c : YarrPatternConstructor) : PR YarrPatternConstructor :=
  Ok (add (new_term TypeAssertionEOL false false) c).
Definition assertionWordBoundary (invert : bool) (c : YarrPatternConstructor) : PR YarrPatternConstructor :=
  Ok (add (new_term TypeAssertionWordBoundary false invert) c).

(** The class that was collected, as a term. *)
Definition add_class (invert : bool) (c : YarrPatternConstructor) : PR YarrPatternConstructor :=
  r ← in_class charClass c;
  let '(newCharacterClass, c) := r in
  Ok (add (new_term (TypeCharacterClass (User newCharacterClass)) false invert) c).

Definition atomPatternCharacter (ch : Z) (c : YarrPatternConstructor) : PR YarrPatternConstructor :=
  let plain := Ok (add (new_term (TypePatternCharacter ch) false false) c) in
  if negb (m_ignoreCase (m_pattern c)) || isASCII ch then plain
  else
    r ← in_class (info ← rangeInfoFor ch; r ← info_at info; mret (info, r)) c;
    let '((info, range), c) := r in
    if bool_decide (ri_type range = CanonicalizeUnique) then plain
    else c ← put_class (putUnicodeIgnoreCase ch info) c; add_class false c.

Definition atomBuiltInCharacterClass (classID : BuiltInCharacterClassID) (invert : bool) (c : YarrPatternConstructor)
    : PR YarrPatternConstructor :=
  let class := match classID with
    | DigitClassID => digitsCached | SpaceClassID => spacesCached
    | WordClassID => wordcharCached | NewlineClassID => newlineCached end in
  Ok (add (new_term (TypeCharacterClass class) false invert) c).

Definition atomCharacterClassBegin (invert : bool) (c : YarrPatternConstructor) : PR YarrPatternConstructor :=
  Ok (c <| m_invertCharacterClass := Some invert |>).
Definition atomCharacterClassAtom (ch : Z) (c : YarrPatternConstructor) : PR YarrPatternConstructor := put_class (putChar ch) c.
Definition atomCharacterClassRange (begin_ end_ : Z) (c : YarrPatternConstructor) : PR YarrPatternConstructor :=
  put_class (putRange begin_ end_) c.

Definition atomCharacterClassBuiltIn `{BuiltInClasses} (classID : BuiltInCharacterClassID) (invert : bool)
    (c : YarrPatternConstructor) : PR YarrPatternConstructor :=
  match classID with
  | DigitClassID => put_class (append (if invert then nondigitsCreate else digitsCreate)) c
  | SpaceClassID => put_class (append (if invert then nonspacesCreate else spacesCreate)) c
  | WordClassID => put_class (append (if invert then nonwordcharCreate else wordcharCreate)) c
  | NewlineClassID => Err Pattern_assert
  end.

Definition atomCharacterClassEnd (c : YarrPatternConstructor) : PR YarrPatternConstructor :=
  match m_invertCharacterClass c with
  | Some invert => add_class invert c
  | None => Err Pattern_assert
  end.

(** Enter the new parentheses [t]. *)
Definition open (t : PatternTerm) (c : YarrPatternConstructor) : YarrPatternConstructor :=
  c <| m_enclosing := mk_frame (m_before c) (append_term t (m_alternative c)) :: m_enclosing c |>
    <| m_before := [] |> <| m_alternative := new_alternative |>.

Definition new_parentheses (subpatternId : Z) : Parentheses := mk_parentheses (new_disjunction []) subpatternId None false false.

Definition atomParenthesesSubpatternBegin (capture : bool) (c : YarrPatternConstructor) : PR YarrPatternConstructor :=
  let subpatternId := u32 (m_numSubpatterns (m_counts (m_pattern c)) + 1) in
  let c := c <| m_pattern := (m_pattern c) <| m_counts := count_subpattern capture (m_counts (m_pattern c)) |> |> in
  Ok (open (new_term (TypeParenthesesSubpattern (new_parentheses subpatternId)) capture false) c).

Definition atomParentheticalAssertionBegin (invert : bool) (c : YarrPatternConstructor) : PR YarrPatternConstructor :=
  let subpatternId := u32 (m_numSubpatterns (m_counts (m_pattern c)) + 1) in
  Ok ((open (new_term (TypeParentheticalAssertion (new_parentheses subpatternId)) false invert) c)
    <| m_invertParentheticalAssertion := invert |>).

(** The term of parentheses that end. *)
Definition close (d : PatternDisjunction) (lastSubpatternId : Z) (t : PatternTerm) : PR PatternTerm :=
  let closed (p : Parentheses) := mk_parentheses d (p_subpatternId p) (Some lastSubpatternId) (p_isCopy p) (p_isTerminal p) in
  match t_type t with
  | TypeParenthesesSubpattern p => Ok (set_type (TypeParenthesesSubpattern (closed p)) t)
  | TypeParentheticalAssertion p => Ok (set_type (TypeParentheticalAssertion (closed p)) t)
  | _ => Err Pattern_assert
  end.

Definition atomParenthesesEnd (c : YarrPatternConstructor) : PR YarrPatternConstructor :=
  match m_enclosing c with
  | [] => Err Pattern_assert
  | f :: enclosing =>
      let parenthesesDisjunction := new_disjunction (m_before c ++ [m_alternative c]) in
      let alternative := fr_alternative f in
      t ← lastTerm alternative;
      let numParenAlternatives := length (m_alternatives parenthesesDisjunction) in
      let numBOLAnchoredAlts := length (List.filter m_startsWithBOL (m_alternatives parenthesesDisjunction)) in
      let alternative :=
        if negb (Nat.eqb numBOLAnchoredAlts 0) then mark_bol (Nat.eqb numBOLAnchoredAlts numParenAlternatives) alternative
        else alternative in
      t ← close parenthesesDisjunction (m_numSubpatterns (m_counts (m_pattern c))) t;
      Ok (c <| m_before := fr_before f |>
            <| m_alternative := set_terms (removelast (m_terms alternative) ++ [t]) alternative |>
            <| m_enclosing := enclosing |> <| m_invertParentheticalAssertion := false |>)
  end.

(** Whether the reference is inside its own parentheses. *)
Fixpoint inside_own (subpatternId : Z) (frames : list Frame) : PR bool :=
  match frames with
  | [] => Ok false
  | f :: frames' =>
      t ← lastTerm (fr_alternative f);
      match t_type t with
      | TypeParenthesesSubpattern p =>
          if t_capture t && (subpatternId =? p_subpatternId p) then Ok true else inside_own subpatternId frames'
      | TypeParentheticalAssertion _ => inside_own subpatternId frames'
      | _ => Err Pattern_assert
      end
  end.

Definition atomBackReference (subpatternId : Z) (c : YarrPatternConstructor) : PR YarrPatternConstructor :=
  p_assert (truthy subpatternId);;
  let p := m_pattern c in
  let c := c <| m_pattern := p <| m_containsBackreferences := true |> <| m_counts := count_back_reference subpatternId (m_counts p) |> |> in
  if m_numSubpatterns (m_counts (m_pattern c)) <? subpatternId then Ok (add (new_term TypeForwardReference false false) c)
  else
    inside ← inside_own subpatternId (m_enclosing c);
    Ok (add (if inside : bool then new_term TypeForwardReference false false else new_term (TypeBackReference subpatternId) false false) c).

Definition mark_copy (t : PatternTerm) : PatternTerm :=
  match t_type t with
  | TypeParenthesesSubpattern p =>
      set_type (TypeParenthesesSubpattern (mk_parentheses (p_disjunction p) (p_subpatternId p) (p_lastSubpatternId p) true (p_isTerminal p))) t
  | _ => t
  end.

Definition replaceLast (t : PatternTerm) (a : PatternAlternative) : PatternAlternative := set_terms (removelast (m_terms a) ++ [t]) a.

Definition quantifyAtom (min max : Z) (greedy : bool) (c : YarrPatternConstructor) : PR YarrPatternConstructor :=
  p_assert (min <=? max);;
  p_assert (bool_decide (m_terms (m_alternative c) <> []));;
  if negb (truthy max) then a ← removeLastTerm (m_alternative c); Ok (c <| m_alternative := a |>)
  else
    t ← lastTerm (m_alternative c);
    p_assert (match t_type t with TypeAssertionBOL | TypeAssertionEOL | TypeAssertionWordBoundary => false | _ => true end);;
    p_assert ((t_quantityCount t =? 1) && bool_decide (t_quantityType t = QuantifierFixedCount));;
    let lazy_or_greedy := if greedy then QuantifierGreedy else QuantifierNonGreedy in
    match t_type t with
    | TypeParentheticalAssertion _ =>
        if negb (truthy min) then a ← removeLastTerm (m_alternative c); Ok (c <| m_alternative := a |>) else Ok c
    | _ =>
        if min =? 0 then Ok (c <| m_alternative := replaceLast (quantify max lazy_or_greedy t) (m_alternative c) |>)
        else
          let t := quantify min QuantifierFixedCount t in
          let a := replaceLast t (m_alternative c) in
          if min =? max then Ok (c <| m_alternative := a |>)
          else
            copy ← copyTerm false t;
            let copy := mark_copy (quantify (if max =? quantifyInfinite then max else max - min) lazy_or_greedy copy) in
            Ok (c <| m_alternative := append_term copy a |>)
    end.

Definition disjunction (c : YarrPatternConstructor) : PR YarrPatternConstructor :=
  Ok (c <| m_before := m_before c ++ [m_alternative c] |> <| m_alternative := new_alternative |>).

End Constructor.

(** The constructor as the delegate of the parser; after a fault nothing is done. *)
#[global] Instance PatternDelegate `{BuiltInClasses} : Delegate (PR YarrPatternConstructor) := {|
  Yarr.assertionBOL := fun d => d ≫= Constructor.assertionBOL;
  Yarr.assertionEOL := fun d => d ≫= Constructor.assertionEOL;
  Yarr.assertionWordBoundary := fun invert d => d ≫= Constructor.assertionWordBoundary invert;
  Yarr.atomPatternCharacter := fun ch d => d ≫= Constructor.atomPatternCharacter ch;
  Yarr.atomBuiltInCharacterClass := fun classID invert d => d ≫= Constructor.atomBuiltInCharacterClass classID invert;
  Yarr.atomCharacterClassBegin := fun invert d => d ≫= Constructor.atomCharacterClassBegin invert;
  Yarr.atomCharacterClassAtom := fun ch d => d ≫= Constructor.atomCharacterClassAtom ch;
  Yarr.atomCharacterClassRange := fun begin_ end_ d => d ≫= Constructor.atomCharacterClassRange begin_ end_;
  Yarr.atomCharacterClassBuiltIn := fun classID invert d => d ≫= Constructor.atomCharacterClassBuiltIn classID invert;
  Yarr.atomCharacterClassEnd := fun d => d ≫= Constructor.atomCharacterClassEnd;
  Yarr.atomParenthesesSubpatternBegin := fun capture d => d ≫= Constructor.atomParenthesesSubpatternBegin capture;
  Yarr.atomParentheticalAssertionBegin := fun invert d => d ≫= Constructor.atomParentheticalAssertionBegin invert;
  Yarr.atomParenthesesEnd := fun d => d ≫= Constructor.atomParenthesesEnd;
  Yarr.atomBackReference := fun subpatternId d => d ≫= Constructor.atomBackReference subpatternId;
  Yarr.quantifyAtom := fun min max greedy d => d ≫= Constructor.quantifyAtom min max greedy;
  Yarr.disjunction := fun d => d ≫= Constructor.disjunction
|}.

(** ** Offsets *)

Definition YarrStackSpaceForBackTrackInfoPatternCharacter : Z := 1.
Definition YarrStackSpaceForBackTrackInfoCharacterClass : Z := 1.
Definition YarrStackSpaceForBackTrackInfoBackReference : Z := 2.
Definition YarrStackSpaceForBackTrackInfoAlternative : Z := 1.
Definition YarrStackSpaceForBackTrackInfoParentheticalAssertion : Z := 1.
Definition YarrStackSpaceForBackTrackInfoParenthesesOnce : Z := 1.
Definition YarrStackSpaceForBackTrackInfoParenthesesTerminal : Z := 1.
Definition YarrStackSpaceForBackTrackInfoParentheses : Z := 2.

(** What the loop over the terms of an alternative keeps. *)
Record Offsets := mk_offsets { o_callFrameSize : Z; o_inputPosition : Z; o_hasFixedSize : bool }.

Definition is_fixed (t : PatternTerm) : bool := bool_decide (t_quantityType t = QuantifierFixedCount).

(** The position is converted to [int]. *)
Definition set_position (pos : Z) (t : PatternTerm) : PatternTerm :=
  mk_term (t_type t) (t_capture t) (t_invert t) (t_quantityType t) (t_quantityCount t) (Some (s32 pos)) (t_frameLocation t).
Definition set_frame (frame : Z) (t : PatternTerm) : PatternTerm :=
  mk_term (t_type t) (t_capture t) (t_invert t) (t_quantityType t) (t_quantityCount t) (t_inputPosition t) (Some frame).

(** A term that matches one character at a time. *)
Definition setup_single (space : Z) (t : PatternTerm) (o : Offsets) : PR (PatternTerm * Offsets) :=
  let t := set_position (o_inputPosition o) t in
  if negb (is_fixed t) then
    Ok (set_frame (o_callFrameSize o) t, mk_offsets (u32 (o_callFrameSize o + space)) (o_inputPosition o) false)
  else
    pos ← checked_add (o_inputPosition o) (t_quantityCount t);
    Ok (t, mk_offsets (o_callFrameSize o) pos (o_hasFixedSize o)).

Section offsets.
Context (setupTerm : PatternTerm -> Z -> Offsets -> PR (PatternTerm * Offsets)).

Definition setupTerms (initialInputPosition : Z) : list PatternTerm -> Offsets -> PR (list PatternTerm * Offsets) :=
  fix go (terms : list PatternTerm) (o : Offsets) : PR (list PatternTerm * Offsets) :=
    match terms with
    | [] => Ok ([], o)
    | t :: terms' =>
        r ← setupTerm t initialInputPosition o;
        rs ← go terms' r.2;
        Ok (r.1 :: rs.1, rs.2)
    end.

Definition setupAlternativeOffsets (a : PatternAlternative) (currentCallFrameSize initialInputPosition : Z)
    : PR (PatternAlternative * Z) :=
  r ← setupTerms initialInputPosition (m_terms a) (mk_offsets currentCallFrameSize initialInputPosition true);
  minimumSize ← checked_sub (o_inputPosition r.2) initialInputPosition;
  Ok (mk_alternative r.1 (Some minimumSize) (m_onceThrough a) (o_hasFixedSize r.2) (m_startsWithBOL a) (m_containsBOL a),
      o_callFrameSize r.2).

(** The alternatives, the least of their sizes, the largest of their frames, and whether all sizes are fixed. *)
Definition setupAlternatives (callFrameSize inputPosition : Z) : list PatternAlternative -> Z -> Z -> bool ->
    PR (list PatternAlternative * (Z * Z * bool)) :=
  fix go (alternatives : list PatternAlternative) (minimumInputSize maximumCallFrameSize : Z) (hasFixedSize : bool) :=
    match alternatives with
    | [] => Ok ([], (minimumInputSize, maximumCallFrameSize, hasFixedSize))
    | a :: alternatives' =>
        r ← setupAlternativeOffsets a callFrameSize inputPosition;
        rs ← go alternatives' (Z.min minimumInputSize (default 0 (m_minimumSize r.1))) (Z.max maximumCallFrameSize r.2)
               (hasFixedSize && m_hasFixedSize r.1);
        Ok (r.1 :: rs.1, rs.2)
    end.

Definition setupDisjunctionOffsets_ (isBody : bool) (d : PatternDisjunction) (initialCallFrameSize initialInputPosition : Z)
    : PR (PatternDisjunction * Z) :=
  let initialCallFrameSize :=
    if negb isBody && (1 <? Z.of_nat (length (m_alternatives d)))
    then u32 (initialCallFrameSize + YarrStackSpaceForBackTrackInfoAlternative) else initialCallFrameSize in
  r ← setupAlternatives initialCallFrameSize initialInputPosition (m_alternatives d) (2 ^ 32 - 1) 0 true;
  let '(alternatives, (minimumInputSize, maximumCallFrameSize, hasFixedSize)) := r in
  p_assert (negb (minimumInputSize =? 2 ^ 32 - 1));;
  p_assert (initialCallFrameSize <=? maximumCallFrameSize);;
  Ok (mk_disjunction alternatives (Some minimumInputSize) (Some maximumCallFrameSize) hasFixedSize, maximumCallFrameSize).

(** The two cases of parentheses. *)
Definition setup_group (p : Parentheses) (t : PatternTerm) (o : Offsets) : PR (PatternTerm * Offsets) :=
  let frame := o_callFrameSize o in
  let pos := o_inputPosition o in
  let setupNested := setupDisjunctionOffsets_ false in
  if (t_quantityCount t =? 1) && negb (p_isCopy p) then
    let size := if negb (is_fixed t) then u32 (frame + YarrStackSpaceForBackTrackInfoParenthesesOnce) else frame in
    r ← setupNested (p_disjunction p) size pos;
    pos ← (if is_fixed t then checked_add pos (default 0 (d_minimumSize r.1)) else Ok pos);
    Ok (set_position pos (set_frame frame (set_type (TypeParenthesesSubpattern (set_disjunction r.1 p)) t)), mk_offsets r.2 pos false)
  else if p_isTerminal p then
    r ← setupNested (p_disjunction p) (u32 (frame + YarrStackSpaceForBackTrackInfoParenthesesTerminal)) pos;
    Ok (set_position pos (set_frame frame (set_type (TypeParenthesesSubpattern (set_disjunction r.1 p)) t)), mk_offsets r.2 pos false)
  else
    r ← setupNested (p_disjunction p) 0 pos;
    Ok (set_position pos (set_frame frame (set_type (TypeParenthesesSubpattern (set_disjunction r.1 p)) t)),
        mk_offsets (u32 (frame + YarrStackSpaceForBackTrackInfoParentheses)) pos false).

Definition setup_lookahead (p : Parentheses) (t : PatternTerm) (o : Offsets) : PR (PatternTerm * Offsets) :=
  let frame := o_callFrameSize o in
  let pos := o_inputPosition o in
  r ← setupDisjunctionOffsets_ false (p_disjunction p) (u32 (frame + YarrStackSpaceForBackTrackInfoParentheticalAssertion)) pos;
  Ok (set_position pos (set_frame frame (set_type (TypeParentheticalAssertion (set_disjunction r.1 p)) t)),
      mk_offsets r.2 pos (o_hasFixedSize o)).
End offsets.

Fixpoint setupTerm (t : PatternTerm) (initialInputPosition : Z) (o : Offsets) : PR (PatternTerm * Offsets) :=
  let frame := o_callFrameSize o in
  let pos := o_inputPosition o in
  match t_type t with
  | TypeAssertionBOL | TypeAssertionEOL | TypeAssertionWordBoundary => Ok (set_position pos t, o)
  | TypeBackReference _ =>
      Ok (set_frame frame (set_position pos t), mk_offsets (u32 (frame + YarrStackSpaceForBackTrackInfoBackReference)) pos false)
  | TypeForwardReference => Ok (t, o)
  | TypePatternCharacter _ => setup_single YarrStackSpaceForBackTrackInfoPatternCharacter t o
  | TypeCharacterClass _ => setup_single YarrStackSpaceForBackTrackInfoCharacterClass t o
  | TypeParenthesesSubpattern p => setup_group setupTerm p t o
  | TypeParentheticalAssertion p => setup_lookahead setupTerm p t o
  | TypeDotStarEnclosure _ _ => Ok (set_position initialInputPosition t, mk_offsets frame pos false)
  end.

Definition setupDisjunctionOffsets (isBody : bool) (d : PatternDisjunction) (initialCallFrameSize initialInputPosition : Z)
    : PR (PatternDisjunction * Z) :=
  setupDisjunctionOffsets_ setupTerm isBody d initialCallFrameSize initialInputPosition.

Definition setupOffsets (p : YarrPattern) : PR YarrPattern :=
  r ← setupDisjunctionOffsets true (m_body p) 0 0; Ok (p <| m_body := r.1 |>).

(** ** Optimisations *)

Definition mark_terminal (t : PatternTerm) : PatternTerm :=
  match t_type t with
  | TypeParenthesesSubpattern p =>
      if bool_decide (t_quantityType t = QuantifierGreedy) && (t_quantityCount t =? quantifyInfinite) && negb (t_capture t) then
        set_type (TypeParenthesesSubpattern (mk_parentheses (p_disjunction p) (p_subpatternId p) (p_lastSubpatternId p) (p_isCopy p) true)) t
      else t
  | _ => t
  end.

Definition checkForTerminalParentheses (p : YarrPattern) : YarrPattern :=
  if truthy (m_numSubpatterns (m_counts p)) then p
  else
    let check_last (a : PatternAlternative) :=
      match last (m_terms a) with
      | Some t => set_terms (removelast (m_terms a) ++ [mark_terminal t]) a
      | None => a
      end in
    let d := m_body p in
    p <| m_body := mk_disjunction (map check_last (m_alternatives d)) (d_minimumSize d) (d_callFrameSize d) (d_hasFixedSize d) |>.

Definition setOnceThrough (a : PatternAlternative) : PatternAlternative :=
  mk_alternative (m_terms a) (m_minimumSize a) true (m_hasFixedSize a) (m_startsWithBOL a) (m_containsBOL a).

Definition optimizeBOL (p : YarrPattern) : PR YarrPattern :=
  let d := m_body p in
  if negb (m_patternContainsBOL p) || m_multiline p then Ok p
  else
    loopDisjunction ← copyDisjunction true d;
    let loop := match loopDisjunction with Some l => m_alternatives l | None => [] end in
    Ok (p <| m_body := mk_disjunction (map setOnceThrough (m_alternatives d) ++ loop)
               (d_minimumSize d) (d_callFrameSize d) (d_hasFixedSize d) |>).

(** The loop of [containsCapturingTerms] over the terms from [termIndex] on. *)
Definition scan_terms (capturing : PatternTerm -> PR bool) : list PatternTerm -> Z -> Z -> PR bool :=
  fix go (terms : list PatternTerm) (termIndex lastTermIndex : Z) : PR bool :=
    if lastTermIndex <? termIndex then Ok false
    else match terms with
         | [] => Err Vector_overflow
         | t :: terms' =>
             b ← capturing t;
             if (b : bool) then Ok true else go terms' (termIndex + 1) lastTermIndex
         end.

Fixpoint capturing_term (t : PatternTerm) : PR bool :=
  if t_capture t then Ok true
  else match t_type t with
       | TypeParenthesesSubpattern p =>
           (fix go (alternatives : list PatternAlternative) : PR bool :=
              match alternatives with
              | [] => Ok false
              | a :: alternatives' =>
                  b ← scan_terms capturing_term (m_terms a) 0 (u64 (Z.of_nat (length (m_terms a)) - 1));
                  if (b : bool) then Ok true else go alternatives'
              end) (m_alternatives (p_disjunction p))
       | _ => Ok false
       end.

Definition containsCapturingTerms (a : PatternAlternative) (firstTermIndex lastTermIndex : Z) : PR bool :=
  scan_terms capturing_term (drop (Z.to_nat firstTermIndex) (m_terms a)) firstTermIndex lastTermIndex.

(** A term of the class [.] with a quantifier. *)
Definition is_dot_star (t : PatternTerm) (nonGreedy : bool) : bool :=
  match t_type t with
  | TypeCharacterClass c =>
      is_newline c && (bool_decide (t_quantityType t = QuantifierGreedy) || (nonGreedy && bool_decide (t_quantityType t = QuantifierNonGreedy)))
  | _ => false
  end.

Definition term_at (terms : list PatternTerm) (i : Z) : PR PatternTerm :=
  match aget terms i with Some t => Ok t | None => Err Vector_overflow end.

Definition optimizeDotStarWrappedExpressions (p : YarrPattern) : PR YarrPattern :=
  match m_alternatives (m_body p) with
  | [alternative] =>
      let terms := m_terms alternative in
      let size := Z.of_nat (length terms) in
      if size <? 3 then Ok p
      else
        t0 ← term_at terms 0;
        let startsWithBOL := match t_type t0 with TypeAssertionBOL => true | _ => false end in
        let termIndex := if startsWithBOL then 1 else 0 in
        firstNonAnchorTerm ← term_at terms termIndex;
        if negb (is_dot_star firstNonAnchorTerm true) then Ok p
        else
          let firstExpressionTerm := termIndex + 1 in
          tl ← term_at terms (size - 1);
          let endsWithEOL := match t_type tl with TypeAssertionEOL => true | _ => false end in
          let termIndex := if endsWithEOL then size - 2 else size - 1 in
          lastNonAnchorTerm ← term_at terms termIndex;
          if negb (is_dot_star lastNonAnchorTerm false) then Ok p
          else
            let lastExpressionTerm := termIndex - 1 in
            if lastExpressionTerm <? firstExpressionTerm then Ok p
            else
              capturing ← containsCapturingTerms alternative firstExpressionTerm lastExpressionTerm;
              if (capturing : bool) then Ok p
              else
                let expression := drop (Z.to_nat firstExpressionTerm) (take (Z.to_nat (lastExpressionTerm + 1)) terms) in
                let enclosure := new_term (TypeDotStarEnclosure startsWithBOL endsWithEOL) false false in
                let d := m_body p in
                Ok (p <| m_body := mk_disjunction [set_terms (expression ++ [enclosure]) alternative]
                          (d_minimumSize d) (d_callFrameSize d) (d_hasFixedSize d) |>
                      <| m_patternContainsBOL := false |>)
  | _ => Ok p
  end.

(** ** Compilation *)

(** The pattern with the tree that was built. *)
Definition built (c : YarrPatternConstructor) : YarrPattern :=
  (m_pattern c) <| m_body := new_disjunction (m_before c ++ [m_alternative c]) |>.

Definition optimize (p : YarrPattern) : PR YarrPattern :=
  let p := checkForTerminalParentheses p in
  p ← optimizeDotStarWrappedExpressions p;
  p ← optimizeBOL p;
  setupOffsets p.

(** The parser's verdict and the constructor after its calls. *)
Definition run_parser `{BuiltInClasses} (c : YarrPatternConstructor) (patternString : list Z) (backReferenceLimit : Z)
    : PR (ErrorCode * YarrPatternConstructor) :=
  match parse (Ok c : PR YarrPatternConstructor) patternString backReferenceLimit with
  | Ok (e, Ok c) => Ok (e, c)
  | Ok (_, Err f) => Err f
  | Err f => Err (Pattern_parser f)
  end.

(** The parse, and the second one without the back references that are none. *)
Definition parsePattern `{BuiltInClasses} (ignoreCase multiline : bool) (patternString : list Z)
    : PR (ErrorCode * YarrPatternConstructor) :=
  r ← run_parser (Constructor.new_constructor ignoreCase multiline) patternString quantifyInfinite;
  let '(error, c) := r in
  if bool_decide (error <> NoError) then Ok (error, c)
  else if containsIllegalBackReference (m_counts (m_pattern c)) then
    let numSubpatterns := m_numSubpatterns (m_counts (m_pattern c)) in
    r ← run_parser (Constructor.reset c) patternString numSubpatterns;
    let '(error, c) := r in
    p_assert (bool_decide (error = NoError));;
    p_assert (numSubpatterns =? m_numSubpatterns (m_counts (m_pattern c)));;
    Ok (NoError, c)
  else Ok (NoError, c).

Definition compilePattern `{BuiltInClasses} (ignoreCase multiline : bool) (patternString : list Z) : PR (ErrorCode * YarrPattern) :=
  r ← parsePattern ignoreCase multiline patternString;
  let '(error, c) := r in
  if bool_decide (error <> NoError) then Ok (error, m_pattern c)
  else p ← optimize (built c); Ok (NoError, p).
