(* ===== verification/YarrMatch.v ===== *)
(** * What regular expressions match

    The results of a match in the order in which a backtracking matcher tries
    them, as ECMA-262 5.1, 15.10.2, prescribes it: for a term of the tree of
    [YarrPattern], and for the abstract syntax of patterns, whose calls of the
    parser's delegate are [calls].  A match is a position in the input, the
    position where it began, and the captures.  This is the meaning of a tree,
    beside which the matchers' loop of terminal parentheses is
    [terminal_loop]. *)

From Stdlib Require Import Ascii.
From stdpp Require Import base numbers list gmap.
From S2P Require Import Prelude Ctype Yarr YarrProof YarrCanonicalize YarrClass YarrPattern.

#[local] Open Scope Z_scope.

Record mstate := mk_mstate { s_begin : nat; s_pos : nat; s_captures : gmap Z (nat * nat) }.

Definition at_pos (i : nat) (s : mstate) : mstate := mk_mstate (s_begin s) i (s_captures s).
Definition with_captures (m : gmap Z (nat * nat)) (s : mstate) : mstate := mk_mstate (s_begin s) (s_pos s) m.

(** The captures from [lo] to [hi] undefined. *)
Definition clear (lo hi : Z) (s : mstate) : mstate :=
  with_captures (filter (fun kv => ~ (lo <= kv.1 <= hi)) (s_captures s)) s.
Definition set_capture (id : Z) (b : nat) (s : mstate) : mstate := with_captures (<[id := (b, s_pos s)]> (s_captures s)) s.

Abbreviation matcher := (mstate -> list mstate).

(** ** Repetition *)

Fixpoint iter (n : nat) (R : matcher) (s : mstate) : list mstate :=
  match n with
  | O => [s]
  | S n' => R s ≫= iter n' R
  end.

(** How often at most; [None] is without a bound. *)
Definition quantity (max : Z) : option Z := if max =? quantifyInfinite then None else Some max.
Definition less (count : option Z) : option Z := (fun n => n - 1) <$> count.

Definition advances (s : mstate) (s' : mstate) : bool := Nat.ltb (s_pos s) (s_pos s').

(** Further iterations, none of them empty. *)
Fixpoint optional (fuel : nat) (greedy : bool) (count : option Z) (R : matcher) (s : mstate) : list mstate :=
  match fuel with
  | O => [s]
  | S fuel' =>
      if match count with Some n => n <=? 0 | None => false end then [s]
      else
        let more := List.filter (advances s) (R s) ≫= optional fuel' greedy (less count) R in
        if greedy then more ++ [s] else s :: more
  end.

Section matching.
Context `{BuiltInClasses} (ignoreCase multiline : bool) (input : list Z).

Definition test (c : class_ptr) (ch : Z) : bool := testCharacterClass (class_at c) ch.

(** The comparison of characters. *)
Definition same_char (a b : Z) : bool :=
  if ignoreCase then match areCanonicallyEquivalent a b tt with Ok (r, _) => r | Err _ => false end else a =? b.

Definition one_char (accepts : Z -> bool) : matcher := fun s =>
  match input !! s_pos s with
  | Some ch => if accepts ch then [at_pos (S (s_pos s)) s] else []
  | None => []
  end.

Definition guard (b : bool) : matcher := fun s => if b then [s] else [].

Definition newline_at (i : nat) : bool := match input !! i with Some ch => test newlineCached ch | None => false end.
Definition wordchar_at (i : nat) : bool := match input !! i with Some ch => test wordcharCached ch | None => false end.

Definition begins_line (i : nat) : bool := match i with O => true | S i' => multiline && newline_at i' end.
Definition ends_line (i : nat) : bool := Nat.eqb i (length input) || (multiline && newline_at i).
Definition at_boundary (i : nat) : bool := xorb (match i with O => false | S i' => wordchar_at i' end) (wordchar_at i).

Definition bol : matcher := fun s => guard (begins_line (s_pos s)) s.
Definition eol : matcher := fun s => guard (ends_line (s_pos s)) s.
Definition word_boundary (invert : bool) : matcher := fun s => guard (xorb invert (at_boundary (s_pos s))) s.

Definition back_reference (id : Z) : matcher := fun s =>
  match s_captures s !! id with
  | None => [s]
  | Some (b, e) =>
      let text := take (e - b) (drop b input) in
      let there := take (e - b) (drop (s_pos s) input) in
      if Nat.eqb (length there) (length text) && forallb (fun p => same_char p.1 p.2) (zip text there)
      then [at_pos (s_pos s + length text) s] else []
  end.

(** One iteration of parentheses. *)
Definition group (capture : bool) (id : Z) (inner : matcher) : matcher := fun s =>
  (fun s' => if capture then set_capture id (s_pos s) s' else s') <$> inner s.
Definition look (invert : bool) (inner : matcher) : matcher := fun s =>
  match inner s with
  | [] => if invert then [s] else []
  | s' :: _ => if invert then [] else [with_captures (s_captures s') s]
  end.

Definition repeated (greedy : bool) (count : option Z) (R : matcher) : matcher := fun s =>
  optional (length input - s_pos s) greedy count R s.

Definition sequence {A} (f : A -> matcher) : list A -> matcher :=
  fix go (l : list A) (s : mstate) : list mstate := match l with [] => [s] | x :: l' => f x s ≫= go l' end.
Definition choice {A} (f : A -> matcher) : list A -> matcher :=
  fix go (l : list A) (s : mstate) : list mstate := match l with [] => [] | x :: l' => f x s ++ go l' s end.

(** The enclosure moves the match to the borders of its lines. *)
Fixpoint line_begin (i : nat) : nat := match i with O => O | S i' => if newline_at i' then i else line_begin i' end.
Fixpoint line_end (fuel i : nat) : nat :=
  match fuel with O => i | S fuel' => if newline_at i then i else line_end fuel' (S i) end.
Definition enclosure (bolAnchor eolAnchor : bool) : matcher := fun s =>
  let b := line_begin (s_begin s) in
  let e := line_end (length input - s_pos s) (s_pos s) in
  if ((negb (Nat.eqb b 0) && bolAnchor) || (negb (Nat.eqb e (length input)) && eolAnchor)) && negb multiline then []
  else [mk_mstate b e (s_captures s)].

(** ** Terms *)

Definition quantified (t : PatternTerm) (R : matcher) : matcher :=
  match t_quantityType t with
  | QuantifierFixedCount => iter (Z.to_nat (t_quantityCount t)) R
  | QuantifierGreedy => repeated true (quantity (t_quantityCount t)) R
  | QuantifierNonGreedy => repeated false (quantity (t_quantityCount t)) R
  end.

Definition last_id (p : Parentheses) : Z := default 0 (p_lastSubpatternId p).

(** One iteration of a term, over the matchers of the terms inside. *)
Definition once_ (term : PatternTerm -> matcher) (t : PatternTerm) : matcher :=
  let inner (p : Parentheses) : matcher := fun s =>
    choice (fun a => sequence term (m_terms a)) (m_alternatives (p_disjunction p)) (clear (p_subpatternId p) (last_id p) s) in
  match t_type t with
  | TypeAssertionBOL => bol
  | TypeAssertionEOL => eol
  | TypeAssertionWordBoundary => word_boundary (t_invert t)
  | TypePatternCharacter ch => one_char (same_char ch)
  | TypeCharacterClass c => one_char (fun ch => xorb (t_invert t) (test c ch))
  | TypeBackReference id => back_reference id
  | TypeForwardReference => fun s => [s]
  | TypeParenthesesSubpattern p => group (t_capture t) (p_subpatternId p) (inner p)
  | TypeParentheticalAssertion p => look (t_invert t) (inner p)
  | TypeDotStarEnclosure b e => enclosure b e
  end.

Fixpoint match_term (t : PatternTerm) : matcher := quantified t (once_ match_term t).

Definition once (t : PatternTerm) : matcher := once_ match_term t.
Definition match_alternative (a : PatternAlternative) : matcher := sequence match_term (m_terms a).
Definition match_alternatives (l : list PatternAlternative) : matcher := choice match_alternative l.

(** Terminal parentheses: each iteration keeps its first match that is not empty,
    and without one the match goes on behind the parentheses, never to come back
    to an earlier iteration. *)
Fixpoint terminal_loop (fuel : nat) (R : matcher) (s : mstate) : mstate :=
  match fuel with
  | O => s
  | S fuel' =>
      match List.filter (advances s) (R s) with
      | [] => s
      | s' :: _ => terminal_loop fuel' R s'
      end
  end.

Definition is_terminal (t : PatternTerm) : bool :=
  match t_type t with TypeParenthesesSubpattern p => p_isTerminal p | _ => false end.

(** Terms with no way back into terminal parentheses. *)
Fixpoint match_committed (t : PatternTerm) : matcher := fun s =>
  if is_terminal t then [terminal_loop (length input - s_pos s) (once_ match_committed t) s]
  else quantified t (once_ match_committed t) s.

(** The search: from each position on, but the alternatives that are tried once
    only at the first one. *)
Fixpoint search (fuel : nat) (match_at : nat -> list mstate) (start : nat) : option mstate :=
  match match_at start with
  | s :: _ => Some s
  | [] => match fuel with O => None | S fuel' => search fuel' match_at (S start) end
  end.

Definition match_begin (i : nat) : mstate := mk_mstate i i ∅.

(** The alternatives that are tried at [i] by a search from [start]. *)
Definition alternatives_at (p : YarrPattern) (start i : nat) : list PatternAlternative :=
  List.filter (fun a => Nat.eqb i start || negb (m_onceThrough a)) (m_alternatives (m_body p)).

Definition exec_committed (p : YarrPattern) (start : nat) : option mstate :=
  search (length input - start)
    (fun i => choice (fun a => sequence match_committed (m_terms a)) (alternatives_at p start i) (match_begin i)) start.

Definition exec (p : YarrPattern) (start : nat) : option mstate :=
  let alternatives := m_alternatives (m_body p) in
  search (length input - start)
    (fun i => match_alternatives (List.filter (fun a => Nat.eqb i start || negb (m_onceThrough a)) alternatives) (match_begin i)) start.

End matching.
