(* ===== verification/YarrRegex.v ===== *)
(** * The abstract syntax of patterns and its meaning

    A pattern as a tree of the grammar's productions, the calls the parser's
    delegate receives for it, and its matches in the order of ECMA-262 5.1:
    capturing parentheses are numbered from left to right, an iteration of a
    quantified atom starts with the captures inside it undefined, and beyond
    the required number of iterations an empty one does not count. *)

From stdpp Require Import base numbers list gmap.
From S2P Require Import Prelude Ctype Yarr YarrProof YarrCanonicalize YarrClass YarrPattern YarrMatch.

#[local] Open Scope Z_scope.

Inductive member :=
  | Member_char (ch : Z)
  | Member_range (lo hi : Z)
  | Member_class (classID : BuiltInCharacterClassID) (invert : bool).

Inductive regex :=
  | Bol | Eol | Boundary (invert : bool)
  | Char (ch : Z)
  | BuiltIn (classID : BuiltInCharacterClassID) (invert : bool)
  | Class_ (invert : bool) (members : list member)
  | BackRef (n : Z)
  | Group (capture : bool) (alternatives : list (list regex))
  | Look (invert : bool) (alternatives : list (list regex))
  | Repeat (atom : regex) (min max : Z) (greedy : bool).

(** Induction with the hypothesis for all parts. *)
Section regex_ind.
Context (P : regex -> Prop).
Context (Hleaf : forall r, match r with Group _ _ | Look _ _ | Repeat _ _ _ _ => False | _ => True end -> P r).
Context (Hgroup : forall capture alts, Forall (Forall P) alts -> P (Group capture alts)).
Context (Hlook : forall invert alts, Forall (Forall P) alts -> P (Look invert alts)).
Context (Hrepeat : forall r min max greedy, P r -> P (Repeat r min max greedy)).

Fixpoint regex_nested (r : regex) : P r :=
  let all_alternatives := fix go (l : list (list regex)) : Forall (Forall P) l :=
    match l with
    | [] => Forall_nil_2 (Forall P)
    | a :: l' =>
        Forall_cons_2 (Forall P) _ _
          ((fix all (a : list regex) : Forall P a :=
              match a with [] => Forall_nil_2 P | x :: a' => Forall_cons_2 P _ _ (regex_nested x) (all a') end) a)
          (go l')
    end in
  match r with
  | Group capture alts => Hgroup capture alts (all_alternatives alts)
  | Look invert alts => Hlook invert alts (all_alternatives alts)
  | Repeat r min max greedy => Hrepeat r min max greedy (regex_nested r)
  | r => Hleaf r I
  end.
End regex_ind.

(** ** Calls *)

Definition member_call (m : member) : event :=
  match m with
  | Member_char ch => EvClassAtom ch
  | Member_range lo hi => EvClassRange lo hi
  | Member_class classID invert => EvClassBuiltIn classID invert
  end.

Definition separated_calls (f : list regex -> list event) : list (list regex) -> list event :=
  fix go (l : list (list regex)) : list event :=
    match l with
    | [] => []
    | a :: l' => f a ++ match l' with [] => [] | _ => EvDisjunction :: go l' end
    end.

Definition concat_calls (f : regex -> list event) : list regex -> list event :=
  fix go (l : list regex) : list event := match l with [] => [] | r :: l' => f r ++ go l' end.

Fixpoint calls (r : regex) : list event :=
  match r with
  | Bol => [EvBOL]
  | Eol => [EvEOL]
  | Boundary invert => [EvWordBoundary invert]
  | Char ch => [EvPatternCharacter ch]
  | BuiltIn classID invert => [EvBuiltIn classID invert]
  | Class_ invert members => EvClassBegin invert :: map member_call members ++ [EvClassEnd]
  | BackRef n => [EvBackReference n]
  | Group capture alts => EvSubpatternBegin capture :: separated_calls (concat_calls calls) alts ++ [EvParenthesesEnd]
  | Look invert alts => EvAssertionBegin invert :: separated_calls (concat_calls calls) alts ++ [EvParenthesesEnd]
  | Repeat r min max greedy => calls r ++ [EvQuantify min max greedy]
  end.
Definition calls_of (alts : list (list regex)) : list event := separated_calls (concat_calls calls) alts.

(** What the parser makes sure of. *)
Definition member_ok (m : member) : Prop :=
  match m with
  | Member_char ch => is_uchar ch = true
  | Member_range lo hi => is_uchar lo = true /\ is_uchar hi = true /\ lo <= hi
  | Member_class classID _ => classID <> NewlineClassID
  end.

Definition is_atom (r : regex) : bool :=
  match r with Bol | Eol | Boundary _ | Repeat _ _ _ _ => false | _ => true end.

Definition all_of (P : regex -> Prop) : list regex -> Prop :=
  fix go (l : list regex) : Prop := match l with [] => True | r :: l' => P r /\ go l' end.
Definition alternatives_of (P : regex -> Prop) : list (list regex) -> Prop :=
  fix go (l : list (list regex)) : Prop := match l with [] => True | a :: l' => all_of P a /\ go l' end.

Fixpoint regex_ok (r : regex) : Prop :=
  match r with
  | Char ch => is_uchar ch = true
  | Class_ _ members => Forall member_ok members
  | BackRef n => 1 <= n <= quantifyInfinite
  | Group _ alts | Look _ alts => alts <> [] /\ alternatives_of regex_ok alts
  | Repeat r min max _ => is_atom r = true /\ regex_ok r /\ 0 <= min <= max /\ min < quantifyInfinite /\ max <= quantifyInfinite
  | _ => True
  end.
Definition pattern_ok (alts : list (list regex)) : Prop := alts <> [] /\ alternatives_of regex_ok alts.

(** ** Captures *)

Definition sum_of {A} (f : A -> Z) : list A -> Z := fix go (l : list A) : Z := match l with [] => 0 | x :: l' => f x + go l' end.

Fixpoint captures (r : regex) : Z :=
  match r with
  | Group capture alts => (if capture then 1 else 0) + sum_of (sum_of captures) alts
  | Look _ alts => sum_of (sum_of captures) alts
  | Repeat r _ _ _ => captures r
  | _ => 0
  end.
Definition captures_of (alts : list (list regex)) : Z := sum_of (sum_of captures) alts.

(** ** Meaning *)

Section meaning.
Context `{BuiltInClasses} (ignoreCase multiline : bool) (input : list Z).

Definition built_in (classID : BuiltInCharacterClassID) (invert : bool) (ch : Z) : bool :=
  xorb invert (testCharacterClass (class_at match classID with
    | DigitClassID => digitsCached | SpaceClassID => spacesCached
    | WordClassID => wordcharCached | NewlineClassID => newlineCached end) ch).

(** The generated complements of built-in classes. *)
Definition member_class (classID : BuiltInCharacterClassID) (invert : bool) : CharacterClass :=
  match classID with
  | DigitClassID => if invert then nondigitsCreate else digitsCreate
  | SpaceClassID => if invert then nonspacesCreate else spacesCreate
  | WordClassID => if invert then nonwordcharCreate else wordcharCreate
  | NewlineClassID => newlineCreate
  end.

(** Whether a class has a character, up to case if case is ignored. *)
Definition member_has (ch : Z) (m : member) : bool :=
  match m with
  | Member_char a => same_char ignoreCase a ch
  | Member_range lo hi =>
      if ignoreCase then existsb (fun a => same_char true a ch) (seqZ lo (hi - lo + 1)) else (lo <=? ch) && (ch <=? hi)
  | Member_class classID invert => testCharacterClass (member_class classID invert) ch
  end.

(** A list whose elements have captures, each numbered after those before it. *)
Definition numbered {A} (count : A -> Z) (f : Z -> A -> matcher) : Z -> list A -> matcher :=
  fix go (n : Z) (l : list A) (s : mstate) : list mstate :=
    match l with [] => [s] | x :: l' => f n x s ≫= go (n + count x) l' end.
Definition numbered_choice {A} (count : A -> Z) (f : Z -> A -> matcher) : Z -> list A -> matcher :=
  fix go (n : Z) (l : list A) (s : mstate) : list mstate :=
    match l with [] => [] | x :: l' => f n x s ++ go (n + count x) l' s end.

(** The matches of [r], before which [n] capturing parentheses were opened. *)
Fixpoint meaning (n : Z) (r : regex) {struct r} : matcher :=
  let inner (n : Z) (alts : list (list regex)) : matcher :=
    numbered_choice (sum_of captures) (fun n a => numbered captures (fun n r => meaning n r) n a) n alts in
  match r with
  | Bol => bol multiline input
  | Eol => eol multiline input
  | Boundary invert => word_boundary input invert
  | Char ch => one_char input (same_char ignoreCase ch)
  | BuiltIn classID invert => one_char input (built_in classID invert)
  | Class_ invert members => one_char input (fun ch => xorb invert (existsb (member_has ch) members))
  | BackRef k => back_reference ignoreCase input k
  | Group capture alts => group capture (n + 1) (inner (if capture then n + 1 else n) alts)
  | Look invert alts => look invert (inner n alts)
  | Repeat r min max greedy =>
      let R : matcher := fun s => meaning n r (clear (n + 1) (n + captures r) s) in
      fun s => iter (Z.to_nat min) R s ≫=
        repeated input greedy (if max =? quantifyInfinite then None else Some (max - min)) R
  end.

Definition meaning_sequence (n : Z) (a : list regex) : matcher := numbered captures meaning n a.
Definition meaning_of (n : Z) (alts : list (list regex)) : matcher :=
  numbered_choice (sum_of captures) meaning_sequence n alts.

(** The search of ECMA-262: the first position at which an alternative matches. *)
Definition find_first (alts : list (list regex)) (start : nat) : option mstate :=
  search (length input - start) (fun i => meaning_of 0 alts (match_begin i)) start.

End meaning.

(** ** Where a pattern has [^] *)

Definition any_of {A} (f : A -> bool) : list A -> bool := fix go (l : list A) : bool := match l with [] => false | x :: l' => f x || go l' end.
Definition every {A} (f : A -> bool) : list A -> bool := fix go (l : list A) : bool := match l with [] => true | x :: l' => f x && go l' end.

Fixpoint has_bol (r : regex) : bool :=
  match r with
  | Bol => true
  | Group _ alts | Look _ alts => any_of (any_of has_bol) alts
  | Repeat r _ _ _ => has_bol r
  | _ => false
  end.

(** No [^] is inside an optional part or a lookahead. *)
Fixpoint bol_safe (r : regex) : bool :=
  match r with
  | Group _ alts => every (every bol_safe) alts
  | Look _ alts => every (every bol_safe) alts && negb (any_of (any_of has_bol) alts)
  | Repeat r min _ _ => bol_safe r && negb ((min =? 0) && has_bol r)
  | _ => true
  end.
