(* ===== verification/YarrMatchProof.v ===== *)
(** * Matching: what a match may change

    The combinators of [YarrMatch], and the frame of the meaning of a regular
    expression: a match moves forward and touches no captures but its own. *)

From stdpp Require Import base numbers list gmap.
From S2P Require Import Prelude Ctype Yarr YarrProof YarrCanonicalize YarrClass YarrPattern YarrMatch YarrRegex.

#[local] Open Scope Z_scope.

(** ** Lists of results *)

Lemma bind_ext {A B} (f g : A -> list B) l : (forall x, x ∈ l -> f x = g x) -> l ≫= f = l ≫= g.
Proof.
  induction l as [| x l IH]; intros Hfg; [done |]. rewrite !bind_cons.
  rewrite (Hfg x) by set_solver. f_equal. apply IH. intros y Hy. apply Hfg. set_solver.
Qed.

Lemma bind_ret {A} (l : list A) : l ≫= (fun x => [x]) = l.
Proof. induction l as [| x l IH]; [done |]. rewrite !bind_cons. simpl. f_equal. exact IH. Qed.

Lemma bind_assoc {A B C} (l : list A) (f : A -> list B) (g : B -> list C) : (l ≫= f) ≫= g = l ≫= (fun x => f x ≫= g).
Proof. induction l as [| x l IH]; [done |]. rewrite !bind_cons. rewrite bind_app. f_equal. exact IH. Qed.

Lemma bind_nil {A B} (l : list A) (f : A -> list B) : (forall x, x ∈ l -> f x = []) -> l ≫= f = [].
Proof.
  induction l as [| x l IH]; intros Hf; [done |]. rewrite !bind_cons. rewrite (Hf x) by set_solver.
  apply IH. intros y Hy. apply Hf. set_solver.
Qed.

Lemma sequence_app {A} (f : A -> matcher) l1 l2 s : sequence f (l1 ++ l2) s = sequence f l1 s ≫= sequence f l2.
Proof.
  revert s. induction l1 as [| x l1 IH]; intros s; simpl; [by rewrite app_nil_r |].
  rewrite bind_assoc. apply bind_ext. intros s' _. apply IH.
Qed.

Lemma sequence_one {A} (f : A -> matcher) x s : sequence f [x] s = f x s.
Proof. apply bind_ret. Qed.

Lemma choice_app {A} (f : A -> matcher) l1 l2 s : choice f (l1 ++ l2) s = choice f l1 s ++ choice f l2 s.
Proof. induction l1 as [| x l1 IH]; [done |]. simpl. by rewrite IH, app_assoc. Qed.

Lemma choice_ext {A} (f g : A -> matcher) l s : (forall x, x ∈ l -> f x s = g x s) -> choice f l s = choice g l s.
Proof. induction l as [| x l IH]; intros Hfg; [done |]. simpl. rewrite Hfg, IH by set_solver. done. Qed.

(** ** Repetition *)

(** Matchers that agree on [P], which the first keeps, agree repeated. *)
Lemma iter_ext (P : mstate -> Prop) (R R' : matcher) n s :
  (forall s, P s -> R s = R' s) -> (forall s s', P s -> s' ∈ R s -> P s') -> P s -> iter n R s = iter n R' s.
Proof.
  intros Heq HP. revert s. induction n as [| n IH]; intros s Hs; [done |]. simpl. rewrite <- Heq by done.
  apply bind_ext. intros s' Hs'. apply IH. by eapply HP.
Qed.

Lemma optional_ext (P : mstate -> Prop) (R R' : matcher) fuel greedy count s :
  (forall s, P s -> R s = R' s) -> (forall s s', P s -> s' ∈ R s -> P s') -> P s ->
  optional fuel greedy count R s = optional fuel greedy count R' s.
Proof.
  intros Heq HP. revert s count. induction fuel as [| fuel IH]; intros s count Hs; [done |]. simpl.
  destruct (match count with Some n => n <=? 0 | None => false end); [done |]. rewrite <- Heq by done.
  rewrite (bind_ext _ (optional fuel greedy (less count) R') (List.filter (advances s) (R s))); [done |].
  intros s' Hs'. apply IH. apply list_elem_of_In, filter_In in Hs' as [Hs'%list_elem_of_In _]. by eapply HP.
Qed.

(** What every iteration keeps. *)
Lemma iter_inv (P : mstate -> Prop) (R : matcher) n s s' :
  (forall s s', P s -> s' ∈ R s -> P s') -> P s -> s' ∈ iter n R s -> P s'.
Proof.
  intros HP. revert s. induction n as [| n IH]; intros s Hs Hin; simpl in Hin; [set_solver |].
  apply list_elem_of_bind in Hin as (s1 & Hin & Hs1). eapply IH; [| exact Hin]. by eapply HP.
Qed.

Lemma optional_inv (P : mstate -> Prop) (R : matcher) fuel greedy count s s' :
  (forall s s', P s -> s' ∈ R s -> P s') -> P s -> s' ∈ optional fuel greedy count R s -> P s'.
Proof.
  intros HP. revert s count. induction fuel as [| fuel IH]; intros s count Hs Hin; simpl in Hin; [set_solver |].
  destruct (match count with Some n => n <=? 0 | None => false end); [set_solver |].
  assert (s' = s \/ s' ∈ List.filter (advances s) (R s) ≫= optional fuel greedy (less count) R) as [-> | Hmore]; [| done |].
  { destruct greedy; [apply elem_of_app in Hin | apply elem_of_cons in Hin]; set_solver. }
  apply list_elem_of_bind in Hmore as (s1 & Hin1 & Hs1). apply list_elem_of_In, filter_In in Hs1 as [Hs1%list_elem_of_In _].
  eapply IH; [| exact Hin1]. by eapply HP.
Qed.

(** At the end of the input an iteration does not move on, so any two fuels
    that reach it give the same matches. *)
Lemma optional_end N fuel greedy count (R : matcher) s : (forall s', s' ∈ R s -> s_pos s' <= N)%nat -> s_pos s = N ->
  optional fuel greedy count R s = [s].
Proof.
  intros HR Hs. destruct fuel as [| fuel]; [done |]. simpl. destruct (match count with Some n => n <=? 0 | None => false end); [done |].
  assert (List.filter (advances s) (R s) = []) as ->; [| by destruct greedy].
  revert HR. generalize (R s). intros l. induction l as [| x l IH]; intros Hl; [done |]. simpl. unfold advances at 1.
  rewrite (proj2 (Nat.ltb_ge _ _)) by (rewrite Hs; apply Hl; set_solver). apply IH. intros s' Hs'. apply Hl. set_solver.
Qed.

Lemma optional_enough N f1 f2 greedy count (R : matcher) s :
  (forall s s', s_pos s <= N -> s' ∈ R s -> s_pos s' <= N)%nat -> (s_pos s <= N)%nat -> (N - s_pos s <= f1)%nat -> (N - s_pos s <= f2)%nat ->
  optional f1 greedy count R s = optional f2 greedy count R s.
Proof.
  intros HR. revert f2 count s. induction f1 as [| f1 IH]; intros f2 count s Hs H1 H2.
  - symmetry. apply (optional_end N); [intros s'; by apply HR | lia].
  - destruct (decide (s_pos s = N)) as [He | Hne]; [rewrite !(optional_end N); [done | intros s'; by apply HR | done | intros s'; by apply HR | done] |].
    destruct f2 as [| f2]; [lia |]. simpl. destruct (match count with Some n => n <=? 0 | None => false end); [done |].
    assert (List.filter (advances s) (R s) ≫= optional f1 greedy (less count) R = List.filter (advances s) (R s) ≫= optional f2 greedy (less count) R) as ->; [| done].
    apply bind_ext. intros s' Hs'. apply list_elem_of_In, filter_In in Hs' as [Hs'%list_elem_of_In Ha%Nat.ltb_lt].
    pose proof (HR s s' Hs Hs'). apply IH; lia.
Qed.

(** ** Frames *)

(** From [s] a match may have got to [s'] with captures above [lo] up to [hi]. *)
Record frame (lo hi : Z) (s s' : mstate) : Prop := mk_mframe {
  fr_begin : s_begin s' = s_begin s;
  fr_pos : (s_pos s <= s_pos s')%nat;
  fr_captures : forall k, ~ (lo < k <= hi) -> s_captures s' !! k = s_captures s !! k
}.

Lemma frame_refl lo hi s : frame lo hi s s.
Proof. by split. Qed.

Lemma frame_trans lo mid hi s s1 s' : lo <= mid <= hi -> frame lo mid s s1 -> frame mid hi s1 s' -> frame lo hi s s'.
Proof. intros Hm [B1 P1 C1] [B2 P2 C2]. split; [congruence | lia |]. intros k Hk. rewrite C2, C1 by lia. done. Qed.

Lemma frame_mono lo hi lo' hi' s s' : lo' <= lo -> hi <= hi' -> frame lo hi s s' -> frame lo' hi' s s'.
Proof. intros H1 H2 [B P C]. split; [done | done |]. intros k Hk. apply C. lia. Qed.

Lemma frame_step lo hi s s1 s' : frame lo hi s s1 -> frame lo hi s1 s' -> frame lo hi s s'.
Proof. intros [B1 P1 C1] [B2 P2 C2]. split; [congruence | lia |]. intros k Hk. by rewrite C2, C1. Qed.

Lemma frame_clear lo hi s : frame lo hi s (clear (lo + 1) hi s).
Proof.
  split; [done | done |]. intros k Hk. simpl. destruct (s_captures s !! k) as [v |] eqn:E.
  - apply map_lookup_filter_Some_2; [done |]. simpl. lia.
  - apply map_lookup_filter_None. by left.
Qed.

Definition nonneg {A} (count : A -> Z) (l : list A) : Prop := forall x, x ∈ l -> 0 <= count x.

Lemma sum_nonneg {A} (count : A -> Z) l : nonneg count l -> 0 <= sum_of count l.
Proof.
  unfold nonneg. induction l as [| x l IH]; intros Hl; simpl; [done |]. pose proof (Hl x ltac:(set_solver)).
  pose proof (IH ltac:(set_solver)). lia.
Qed.

Lemma sum_app {A} (count : A -> Z) l1 l2 : sum_of count (l1 ++ l2) = sum_of count l1 + sum_of count l2.
Proof. induction l1 as [| x l1 IH]; simpl; lia. Qed.

Lemma captures_nonneg r : 0 <= captures r.
Proof.
  assert (forall alts, Forall (Forall (fun r => 0 <= captures r)) alts -> 0 <= sum_of (sum_of captures) alts) as Hsum.
  { intros alts Ha. apply sum_nonneg. intros a Hin. apply sum_nonneg. intros r' Hr'.
    rewrite Forall_forall in Ha. pose proof (Ha a Hin) as Hb. rewrite Forall_forall in Hb. by apply Hb. }
  induction r as [r Hr | capture alts IH | invert alts IH | r min max greedy IH] using regex_nested; simpl.
  - by destruct r.
  - pose proof (Hsum alts IH). destruct capture; lia.
  - by apply Hsum.
  - done.
Qed.

Lemma sum_captures_nonneg a : 0 <= sum_of captures a.
Proof. apply sum_nonneg. intros r _. apply captures_nonneg. Qed.

Lemma captures_of_nonneg alts : 0 <= captures_of alts.
Proof. apply sum_nonneg. intros a _. apply sum_captures_nonneg. Qed.

Section frames.
Context `{BuiltInClasses} (ignoreCase multiline : bool) (input : list Z).

(** Every result of [R] is framed. *)
Definition framed (lo hi : Z) (R : matcher) : Prop := forall s s', s' ∈ R s -> frame lo hi s s'.

Lemma framed_one_char n accepts : framed n n (one_char input accepts).
Proof.
  intros s s'. unfold one_char. destruct (input !! s_pos s) as [ch |]; [destruct (accepts ch) |]; [| set_solver | set_solver].
  intros ->%list_elem_of_singleton. split; [done | simpl; lia | done].
Qed.

Lemma framed_guard n (b : mstate -> bool) : framed n n (fun s => guard (b s) s).
Proof. intros s s'. unfold guard. destruct (b s); [intros ->%list_elem_of_singleton; apply frame_refl | set_solver]. Qed.

Lemma framed_back_reference n id : framed n n (back_reference ignoreCase input id).
Proof.
  intros s s'. unfold back_reference. destruct (s_captures s !! id) as [[b e] |].
  - destruct (_ && _); [| set_solver]. intros ->%list_elem_of_singleton. split; [done | simpl; lia | done].
  - intros ->%list_elem_of_singleton. apply frame_refl.
Qed.

Lemma framed_numbered {A} (count : A -> Z) (f : Z -> A -> matcher) l n :
  nonneg count l -> (forall x n, x ∈ l -> framed n (n + count x) (f n x)) -> framed n (n + sum_of count l) (numbered count f n l).
Proof.
  unfold nonneg. revert n. induction l as [| x l IH]; intros n Hn Hf s s' Hin; simpl in *.
  - apply list_elem_of_singleton in Hin as ->. apply frame_refl.
  - apply list_elem_of_bind in Hin as (s1 & Hin & Hs1). pose proof (Hn x ltac:(set_solver)).
    assert (0 <= sum_of count l) by (apply sum_nonneg; unfold nonneg; set_solver).
    apply (frame_trans n (n + count x) _ s s1); [lia | by apply Hf; [set_solver |] |].
    rewrite Z.add_assoc. apply IH; [set_solver | intros y m Hy; apply Hf; set_solver | done].
Qed.

Lemma framed_numbered_choice {A} (count : A -> Z) (f : Z -> A -> matcher) l n :
  nonneg count l -> (forall x n, x ∈ l -> framed n (n + count x) (f n x)) ->
  framed n (n + sum_of count l) (numbered_choice count f n l).
Proof.
  unfold nonneg. revert n. induction l as [| x l IH]; intros n Hn Hf s s' Hin; simpl in *; [set_solver |].
  pose proof (Hn x ltac:(set_solver)). assert (0 <= sum_of count l) by (apply sum_nonneg; unfold nonneg; set_solver).
  apply elem_of_app in Hin as [Hin | Hin].
  - apply (frame_mono n (n + count x)); [lia | lia |]. by apply (Hf x n ltac:(set_solver)).
  - apply (frame_mono (n + count x) (n + count x + sum_of count l)); [lia | lia |].
    eapply IH; [set_solver | intros y m Hy; apply Hf; set_solver | done].
Qed.

Lemma framed_group capture n m inner :
  n <= m -> framed (if capture : bool then n + 1 else n) m inner ->
  (capture = true -> n + 1 <= m) -> framed n m (group capture (n + 1) inner).
Proof.
  intros Hm Hi Hc s s' (s1 & -> & Hs1)%list_elem_of_fmap. destruct (Hi _ _ Hs1) as [B P C]. destruct capture.
  - specialize (Hc eq_refl). split; [done | done |]. intros k Hk. simpl. rewrite lookup_insert_ne by lia. apply C. lia.
  - by split.
Qed.

Lemma framed_look invert n m inner : framed n m inner -> framed n m (look invert inner).
Proof.
  intros Hi s s'. unfold look. destruct (inner s) as [| s1 l] eqn:E; destruct invert; try set_solver.
  - intros ->%list_elem_of_singleton. apply frame_refl.
  - intros ->%list_elem_of_singleton. destruct (Hi s s1) as [B P C]; [rewrite E; set_solver |]. by split.
Qed.

Lemma framed_repeat min greedy count n m R : framed n m R ->
  framed n m (fun s => iter min R s ≫= repeated input greedy count R).
Proof.
  intros HR s s' (s1 & Hs' & Hs1)%list_elem_of_bind. apply (frame_step _ _ s s1).
  - eapply (iter_inv (frame n m s)); [| apply frame_refl | exact Hs1]. intros a b Ha Hb. eapply frame_step; [done | by apply HR].
  - unfold repeated in Hs'. eapply (optional_inv (frame n m s1)); [| apply frame_refl | exact Hs'].
    intros a b Ha Hb. eapply frame_step; [done | by apply HR].
Qed.

Lemma framed_meaning r : forall n, framed n (n + captures r) (meaning ignoreCase multiline input n r).
Proof.
  assert (forall alts n, Forall (Forall (fun r => forall n, framed n (n + captures r) (meaning ignoreCase multiline input n r))) alts ->
    framed n (n + sum_of (sum_of captures) alts) (meaning_of ignoreCase multiline input n alts)) as Hinner.
  { intros alts n Ha. rewrite Forall_forall in Ha. apply framed_numbered_choice; [intros a _; apply sum_captures_nonneg |].
    intros a m Hin. specialize (Ha a Hin). rewrite Forall_forall in Ha. apply framed_numbered; [intros x _; apply captures_nonneg |].
    intros x k Hx. by apply Ha. }
  induction r as [r Hr | capture alts IH | invert alts IH | r min max greedy IH] using regex_nested; intros n.
  - destruct r; try done; simpl; rewrite Z.add_0_r; first [apply framed_one_char | apply (framed_guard n (fun s => _)) | apply framed_back_reference].
  - pose proof (captures_of_nonneg alts) as Hn. unfold captures_of in Hn. cbn [captures]. destruct capture.
    + apply (framed_group true); [lia | rewrite Z.add_assoc; apply Hinner, IH | lia].
    + apply (framed_group false); [lia | apply Hinner, IH | done].
  - apply framed_look, Hinner, IH.
  - apply framed_repeat. intros s s' Hs'. apply (frame_step _ _ s (clear (n + 1) (n + captures r) s)); [apply frame_clear | by apply IH].
Qed.

Lemma framed_sequence n a : framed n (n + sum_of captures a) (meaning_sequence ignoreCase multiline input n a).
Proof. apply framed_numbered; [intros x _; apply captures_nonneg |]. intros x k _. apply framed_meaning. Qed.

Lemma framed_alternatives n alts : framed n (n + captures_of alts) (meaning_of ignoreCase multiline input n alts).
Proof. apply framed_numbered_choice; [intros a _; apply sum_captures_nonneg |]. intros a k _. apply framed_sequence. Qed.

End frames.
