(* ===== verification/YarrTree.v ===== *)
(** * The tree of a pattern: induction, copies, anchors

    Properties of the terms, alternatives and disjunctions of [YarrPattern] that
    do not depend on how they were built. *)

From stdpp Require Import base numbers list gmap.
From S2P Require Import Prelude Ctype Yarr YarrCanonicalize YarrClass YarrPattern YarrMatch YarrRegex YarrMatchProof.

#[local] Open Scope Z_scope.

(** ** Induction *)

Definition parentheses_of (t : PatternTerm) : option Parentheses :=
  match t_type t with TypeParenthesesSubpattern p | TypeParentheticalAssertion p => Some p | _ => None end.

(** The alternatives between the parentheses of a term. *)
Definition nested (t : PatternTerm) : list PatternAlternative :=
  match parentheses_of t with Some p => m_alternatives (p_disjunction p) | None => [] end.

(** Parentheses have an alternative, and [Q] holds of all alternatives inside. *)
Inductive term_ok (Q : PatternAlternative -> Prop) : PatternTerm -> Prop :=
  | term_ok_intro t :
      (is_Some (parentheses_of t) -> nested t <> []) ->
      (forall a, a ∈ nested t -> Q a) ->
      (forall a t', a ∈ nested t -> t' ∈ m_terms a -> term_ok Q t') ->
      term_ok Q t.

Definition terms_ok (Q : PatternAlternative -> Prop) (ts : list PatternTerm) : Prop := forall t, t ∈ ts -> term_ok Q t.
Definition alternative_ok (Q : PatternAlternative -> Prop) (a : PatternAlternative) : Prop := Q a /\ terms_ok Q (m_terms a).

Abbreviation any := (fun _ : PatternAlternative => True).

Lemma term_ok_mono (Q Q' : PatternAlternative -> Prop) t : (forall a, Q a -> Q' a) -> term_ok Q t -> term_ok Q' t.
Proof. intros HQ. induction 1 as [t H1 H2 _ IH]. constructor; [done | eauto | eauto]. Qed.

Lemma term_ok_leaf Q t : parentheses_of t = None -> term_ok Q t.
Proof.
  intros Hp. assert (nested t = []) as Hn by (unfold nested; by rewrite Hp).
  constructor; rewrite ?Hn; [rewrite Hp; by intros [] | set_solver | set_solver].
Qed.

Lemma term_ok_parens Q t p : parentheses_of t = Some p -> m_alternatives (p_disjunction p) <> [] ->
  (forall a, a ∈ m_alternatives (p_disjunction p) -> alternative_ok Q a) -> term_ok Q t.
Proof.
  intros Hp Hne Ha. assert (nested t = m_alternatives (p_disjunction p)) as Hn by (unfold nested; by rewrite Hp).
  constructor; rewrite ?Hn; [done | intros a Hin; by apply Ha | intros a t' Hin Ht; by apply (Ha a Hin)].
Qed.

(** The quantifier, the positions and the flags of the parentheses do not matter. *)
Lemma term_ok_nested Q t t' : (is_Some (parentheses_of t') -> is_Some (parentheses_of t)) -> nested t' = nested t -> term_ok Q t -> term_ok Q t'.
Proof. intros Hp Hn Ht0. revert Hp Hn. destruct Ht0 as [t0 H1 H2 H3]. intros Hp Hn. constructor; rewrite ?Hn; [intros Ht; by apply H1, Hp | exact H2 | exact H3]. Qed.

(** ** Matching of terms *)

Section tree.
Context `{BuiltInClasses} (ignoreCase multiline : bool) (input : list Z).

Abbreviation matches := (match_term ignoreCase multiline input).
Abbreviation once := (once ignoreCase multiline input).

Lemma match_term_once t s : matches t s = quantified input t (once t) s.
Proof. by destruct t as [[] ? ? ? ? ? ?]. Qed.

Lemma quantified_ext t R R' s : (forall s, R s = R' s) -> quantified input t R s = quantified input t R' s.
Proof.
  intros HR. unfold quantified, repeated. destruct (t_quantityType t).
  - by apply (iter_ext (fun _ => True)).
  - by apply (optional_ext (fun _ => True)).
  - by apply (optional_ext (fun _ => True)).
Qed.

(** The matches between parentheses. *)
Definition inner (p : Parentheses) : matcher := fun s =>
  match_alternatives ignoreCase multiline input (m_alternatives (p_disjunction p)) (clear (p_subpatternId p) (last_id p) s).

Lemma once_group t p s : t_type t = TypeParenthesesSubpattern p -> once t s = group (t_capture t) (p_subpatternId p) (inner p) s.
Proof. intros Ht. unfold YarrMatch.once, once_. by rewrite Ht. Qed.
Lemma once_look t p s : t_type t = TypeParentheticalAssertion p -> once t s = look (t_invert t) (inner p) s.
Proof. intros Ht. unfold YarrMatch.once, once_. by rewrite Ht. Qed.

(** A term that does not repeat matches once. *)
Lemma matches_once t s : t_quantityType t = QuantifierFixedCount -> t_quantityCount t = 1 -> matches t s = once t s.
Proof. intros H1 H2. rewrite match_term_once. unfold quantified. rewrite H1, H2. simpl. apply bind_ret. Qed.

Lemma look_pos invert R s s' : s' ∈ look invert R s -> s_pos s' = s_pos s.
Proof. unfold look. destruct (R s) as [| s1 l], invert; try set_solver; by intros ->%list_elem_of_singleton. Qed.

(** Matching moves forward. *)
Definition forward (R : matcher) : Prop := forall s s', s' ∈ R s -> (s_pos s <= s_pos s')%nat.

Lemma forward_sequence {A} (f : A -> matcher) l : (forall x, x ∈ l -> forward (f x)) -> forward (sequence f l).
Proof.
  induction l as [| x l IH]; intros Hf s s' Hin; simpl in Hin; [by apply list_elem_of_singleton in Hin as -> |].
  apply list_elem_of_bind in Hin as (s1 & Hin & Hs1). apply Hf in Hs1; [| set_solver].
  apply IH in Hin; [lia | set_solver].
Qed.

Lemma forward_choice {A} (f : A -> matcher) l : (forall x, x ∈ l -> forward (f x)) -> forward (choice f l).
Proof.
  induction l as [| x l IH]; intros Hf s s' Hin; simpl in Hin; [set_solver |].
  apply elem_of_app in Hin as [Hin | Hin]; [by apply (Hf x ltac:(set_solver)) | by apply IH; [set_solver |]].
Qed.

Lemma forward_quantified t R : forward R -> forward (quantified input t R).
Proof.
  intros HR s s'. assert (forall a b, (s_pos s <= s_pos a)%nat -> b ∈ R a -> (s_pos s <= s_pos b)%nat) as Hstep.
  { intros a b Ha Hb. apply HR in Hb. lia. }
  unfold quantified, repeated. destruct (t_quantityType t); intros Hin.
  - by apply (iter_inv (fun x => s_pos s <= s_pos x)%nat _ _ _ _ Hstep) in Hin.
  - by apply (optional_inv (fun x => s_pos s <= s_pos x)%nat _ _ _ _ _ _ Hstep) in Hin.
  - by apply (optional_inv (fun x => s_pos s <= s_pos x)%nat _ _ _ _ _ _ Hstep) in Hin.
Qed.

Lemma line_end_ge fuel i : (i <= line_end input fuel i)%nat.
Proof. revert i. induction fuel as [| fuel IH]; intros i; simpl; [done |]. destruct (newline_at input i); [done |]. specialize (IH (S i)). lia. Qed.

Lemma forward_term t : term_ok any t -> forward (matches t).
Proof.
  induction 1 as [t _ _ _ IH]. assert (forward (once t)) as Hon.
  { assert (forall p, parentheses_of t = Some p -> forward (inner p)) as Hin.
    { intros p Hp s s' Hs'. unfold inner, match_alternatives in Hs'. eapply (forward_choice _ _) in Hs'; [exact Hs' |].
      intros a Ha. apply forward_sequence. intros t' Ht'. apply (IH a); [| done]. unfold nested. by rewrite Hp. }
    unfold parentheses_of in Hin. unfold YarrMatch.once, once_. fold inner. intros s s'.
    destruct (t_type t) as [| | | ch | c | id | | p | p | b e] eqn:Ht.
    - intros Hs'. by apply (framed_guard 0 (fun s => begins_line multiline input (s_pos s))) in Hs' as [_ Hp _].
    - intros Hs'. by apply (framed_guard 0 (fun s => ends_line multiline input (s_pos s))) in Hs' as [_ Hp _].
    - intros Hs'. by apply (framed_guard 0 (fun s => xorb (t_invert t) (at_boundary input (s_pos s)))) in Hs' as [_ Hp _].
    - intros Hs'. by apply (framed_one_char input 0) in Hs' as [_ Hp _].
    - intros Hs'. by apply (framed_one_char input 0) in Hs' as [_ Hp _].
    - intros Hs'. by apply (framed_back_reference ignoreCase input 0) in Hs' as [_ Hp _].
    - by intros ->%list_elem_of_singleton.
    - intros (s1 & -> & Hs1)%list_elem_of_fmap. apply (Hin p eq_refl) in Hs1. by destruct (t_capture t).
    - intros Hs'%look_pos. lia.
    - unfold enclosure. destruct (_ && _); [set_solver |]. intros ->%list_elem_of_singleton. apply line_end_ge. }
  intros s s'. rewrite match_term_once. by apply forward_quantified.
Qed.

Lemma forward_terms ts : terms_ok any ts -> forward (sequence matches ts).
Proof. intros Hts. apply forward_sequence. intros t Ht. by apply forward_term, Hts. Qed.

End tree.

(** ** Anchors *)

Section anchors.
Context `{BuiltInClasses} (ignoreCase multiline : bool).

Abbreviation matches := (match_term ignoreCase multiline).

(** Terms that match at the start of the input only. *)
Definition anchored (ts : list PatternTerm) : Prop :=
  multiline = false -> forall input s, (0 < s_pos s)%nat -> sequence (matches input) ts s = [].

Definition all_flagged (t : PatternTerm) : Prop :=
  is_Some (parentheses_of t) /\ forall a, a ∈ nested t -> m_startsWithBOL a = true.

Definition unflagged (a : PatternAlternative) : Prop := m_startsWithBOL a = false.

Definition is_lookahead (t : PatternTerm) : bool := match t_type t with TypeParentheticalAssertion _ => true | _ => false end.

(** No alternative in a lookahead is flagged. *)
Definition looks_unflagged (ts : list PatternTerm) : Prop := forall t, t ∈ ts -> is_lookahead t = true -> term_ok unflagged t.

(** The flag of an alternative is right, and set if parentheses in it have all their flags set. *)
Definition flag_ok (a : PatternAlternative) : Prop :=
  (m_startsWithBOL a = true -> anchored (m_terms a)) /\
  ((exists t, t ∈ m_terms a /\ all_flagged t) -> m_startsWithBOL a = true) /\
  looks_unflagged (m_terms a).

Lemma unflagged_term t : term_ok unflagged t -> ~ all_flagged t.
Proof.
  intros Ht [Hp Hall]. revert Hp Hall. destruct Ht as [t Hne Hun _]. intros Hp Hall.
  destruct (nested t) as [| a l] eqn:E; [by apply Hne in Hp |].
  pose proof (Hall a ltac:(set_solver)) as H1. pose proof (Hun a ltac:(set_solver)) as H2. unfold unflagged in H2. congruence.
Qed.

Lemma unflagged_ok t : term_ok unflagged t -> term_ok flag_ok t.
Proof.
  induction 1 as [t H1 H2 H3 IH]. constructor; [done | | done]. intros a Ha. pose proof (H2 a Ha) as Hf. unfold unflagged in Hf. split.
  - congruence.
  - split; [| by intros t' Ht' _; apply (H3 a)]. intros (t' & Ht' & Hall). by destruct (unflagged_term t' (H3 a t' Ha Ht')).
Qed.

Lemma anchored_app ts1 ts2 : terms_ok any ts1 -> anchored ts1 \/ anchored ts2 -> anchored (ts1 ++ ts2).
Proof.
  intros Hok Han Hm input s Hs. rewrite sequence_app. destruct Han as [Han | Han].
  - by rewrite (Han Hm).
  - apply bind_nil. intros s' Hs'. apply (Han Hm). apply (forward_terms ignoreCase multiline input ts1 Hok) in Hs'. lia.
Qed.

(** ** Copies *)

(** A copy has the fields of the original, and its matches wherever [C] holds. *)
Record copy_of (C : mstate -> Prop) (t t' : PatternTerm) : Prop := mk_copy_of {
  cp_capture : t_capture t' = t_capture t;
  cp_invert : t_invert t' = t_invert t;
  cp_quantityType : t_quantityType t' = t_quantityType t;
  cp_quantityCount : t_quantityCount t' = t_quantityCount t;
  cp_unflagged : term_ok unflagged t';
  cp_once : forall input s, C s -> once ignoreCase multiline input t' s = once ignoreCase multiline input t s
}.

(** Where a copy has to match like the original: what is filtered matches nowhere else. *)
Definition where_copied (filterStartsWithBOL : bool) (s : mstate) : Prop :=
  filterStartsWithBOL = true -> multiline = false /\ (0 < s_pos s)%nat.

Lemma where_forward b s s' : where_copied b s -> (s_pos s <= s_pos s')%nat -> where_copied b s'.
Proof. intros Hs Hp Hb. destruct (Hs Hb). split; [done | lia]. Qed.

Lemma copy_matches b t t' input s : term_ok any t -> copy_of (where_copied b) t t' -> where_copied b s -> matches input t' s = matches input t s.
Proof.
  intros Hok Hc Hs. rewrite !match_term_once. destruct Hc as [_ _ Ht Hn Hun Ho]. unfold quantified, repeated. rewrite Ht, Hn.
  assert (forall s, where_copied b s -> once ignoreCase multiline input t' s = once ignoreCase multiline input t s) as Heq by (intros; by apply Ho).
  assert (forall a x, where_copied b a -> x ∈ once ignoreCase multiline input t' a -> where_copied b x) as Hfw.
  { intros a x Ha Hx. eapply where_forward; [exact Ha |]. rewrite Ho in Hx by done.
    assert (x ∈ matches input (quantify 1 QuantifierFixedCount t) a) as Hm by (by rewrite matches_once).
    eapply forward_term; [| exact Hm]. by apply (term_ok_nested any t). }
  destruct (t_quantityType t); [eapply (iter_ext (where_copied b)) | eapply (optional_ext (where_copied b)) ..]; done.
Qed.

Definition copy_ok (b : bool) : PatternAlternative -> Prop := if b then flag_ok else any.

(** The alternatives of a copy. *)
Lemma copyAlternatives_ok b l :
  (forall a t, a ∈ l -> keeps b a = true -> t ∈ m_terms a -> term_ok any t /\ exists t', copyTerm b t = Ok t' /\ copy_of (where_copied b) t t') ->
  (forall a, a ∈ l -> keeps b a = false -> anchored (m_terms a)) ->
  exists l', copyAlternatives (copyTerm b) b l = Ok l' /\ (forall a, a ∈ l' -> alternative_ok unflagged a) /\
    (l' = [] -> forall a, a ∈ l -> keeps b a = false) /\
    forall input s, where_copied b s -> match_alternatives ignoreCase multiline input l' s = match_alternatives ignoreCase multiline input l s.
Proof.
  induction l as [| a l IH]; intros Hk Han; [exists []; split_and!; [done | set_solver | set_solver | done] |].
  destruct IH as (l' & Hl' & Hun & Hnil & Heq); [intros; apply (Hk a0); [set_solver | done | done] | intros; apply Han; [set_solver | done] |].
  simpl. destruct (keeps b a) eqn:Ek.
  - assert (forall ts, (forall t, t ∈ ts -> t ∈ m_terms a) -> exists ts', res_map (copyTerm b) ts = Ok ts' /\ terms_ok unflagged ts' /\
      forall input s, where_copied b s -> sequence (matches input) ts' s = sequence (matches input) ts s) as Hts.
    { induction ts as [| t ts IHts]; intros Hin; [exists []; split_and!; [done | intros t Ht; set_solver | done] |].
      destruct IHts as (ts' & Hts' & Hunt & Heqt); [set_solver |].
      destruct (Hk a t) as (Hok & t' & Ht' & Hc); [set_solver | done | set_solver |].
      exists (t' :: ts'). split_and!; [simpl; rewrite Ht'; simpl; by rewrite Hts' | |].
      - intros t0 Ht0. apply elem_of_cons in Ht0 as [-> | Ht0]; [apply Hc | by apply Hunt].
      - intros input s Hs. simpl. rewrite (copy_matches b t t' input s Hok Hc Hs). apply bind_ext. intros s' Hs'.
        apply Heqt. eapply where_forward; [exact Hs |]. eapply forward_term; [exact Hok | exact Hs']. }
    destruct (Hts (m_terms a)) as (ts' & Hts' & Hunt & Heqt); [done |].
    exists (set_terms ts' new_alternative :: l'). unfold copyAlternative. rewrite Hts'. simpl. rewrite Hl'. split_and!; [done | | done |].
    + intros a0 Ha0. apply elem_of_cons in Ha0 as [-> | Ha0]; [by split | by apply Hun].
    + intros input s Hs. simpl. rewrite Heq by done. f_equal. by apply Heqt.
  - exists l'. split_and!; [done | done | |].
    + intros Hn a0 Ha0. apply elem_of_cons in Ha0 as [-> | Ha0]; [done | by apply Hnil].
    + intros input s Hs. rewrite Heq by done. simpl. unfold match_alternative at 1. destruct b; [| done].
      destruct (Hs eq_refl) as [Hm Hp]. by rewrite (Han a ltac:(set_solver) Ek Hm).
Qed.

Lemma copyTerm_ok b t : term_ok (copy_ok b) t -> (b = true -> ~ all_flagged t) ->
  exists t', copyTerm b t = Ok t' /\ copy_of (where_copied b) t t'.
Proof.
  intros Hok. assert (Hany := term_ok_mono _ any t (fun a _ => I) Hok). revert Hany.
  induction Hok as [t Hne HQ Hin IH]. intros Hany Hfl. destruct (parentheses_of t) as [p |] eqn:Ep.
  2:{ exists t. split; [| split; [done | done | done | done | by apply term_ok_leaf | reflexivity]].
      destruct t as [ty ? ? ? ? ? ?]. unfold parentheses_of in Ep. simpl in *. by destruct ty. }
  assert (nested t = m_alternatives (p_disjunction p)) as Hn by (unfold nested; by rewrite Ep).
  destruct (copyAlternatives_ok b (nested t)) as (l' & Hl' & Hun & Hnil & Heq).
  - intros a t' Ha Hk Ht'. assert (term_ok any t') as Hok' by (eapply term_ok_mono; [| by apply (Hin a)]; done).
    split; [done |]. apply (IH a t' Ha Ht' Hok'). intros -> Hall. destruct (HQ a Ha) as (_ & Hf & _).
    unfold keeps in Hk. rewrite Hf in Hk by eauto. done.
  - intros a Ha Hk. destruct b; [| done]. destruct (HQ a Ha) as [Hf _]. apply Hf. unfold keeps in Hk. simpl in Hk. by apply negb_false_iff in Hk.
  - assert (l' <> []) as Hl.
    { intros ->. destruct b; [apply (Hfl eq_refl); split; [by rewrite Ep |] |].
      - intros a Ha. specialize (Hnil eq_refl a Ha). unfold keeps in Hnil. simpl in Hnil. by apply negb_false_iff in Hnil.
      - destruct (nested t) as [| a l] eqn:E; [by destruct (Hne (mk_is_Some _ p eq_refl)) |]. by specialize (Hnil eq_refl a ltac:(set_solver)). }
    assert (copyDisjunction_ (copyTerm b) b (p_disjunction p) = Ok (Some (new_disjunction l'))) as Hd.
    { unfold copyDisjunction_. rewrite <- Hn, Hl'. simpl. by destruct l'. }
    assert (forall ty, copyTerm b t = Ok (set_type ty t) -> parentheses_of (set_type ty t) = Some (set_disjunction (new_disjunction l') p) ->
      term_ok unflagged (set_type ty t)) as Hunt by (intros ty _ Hty; by apply (term_ok_parens _ _ _ Hty)).
    assert (forall input s, where_copied b s -> inner ignoreCase multiline input (set_disjunction (new_disjunction l') p) s = inner ignoreCase multiline input p s) as Hin'.
    { intros input s Hs. unfold inner. simpl. rewrite <- Hn. by apply Heq. }
    unfold parentheses_of in Ep. destruct (t_type t) as [| | | | | | | p0 | p0 |] eqn:Ht; try done; injection Ep as ->.
    + exists (set_type (TypeParenthesesSubpattern (set_disjunction (new_disjunction l') p)) t).
      assert (copyTerm b t = Ok (set_type (TypeParenthesesSubpattern (set_disjunction (new_disjunction l') p)) t)) as Hc
        by (destruct t as [ty ? ? ? ? ? ?]; simpl in *; subst ty; by rewrite Hd).
      split; [done |]. split; [done | done | done | done | by apply Hunt |]. intros input s Hs.
      rewrite (once_group _ _ _ _ p s Ht). rewrite (once_group _ _ _ _ (set_disjunction (new_disjunction l') p)) by done.
      unfold group. simpl. by rewrite Hin'.
    + exists (set_type (TypeParentheticalAssertion (set_disjunction (new_disjunction l') p)) t).
      assert (copyTerm b t = Ok (set_type (TypeParentheticalAssertion (set_disjunction (new_disjunction l') p)) t)) as Hc
        by (destruct t as [ty ? ? ? ? ? ?]; simpl in *; subst ty; by rewrite Hd).
      split; [done |]. split; [done | done | done | done | by apply Hunt |]. intros input s Hs.
      rewrite (once_look _ _ _ _ p s Ht). rewrite (once_look _ _ _ _ (set_disjunction (new_disjunction l') p)) by done.
      unfold look. simpl. by rewrite Hin'.
Qed.

End anchors.

(** ** Counts *)

(** What a copy is. *)
Lemma copyTerm_inv b t t' : copyTerm b t = Ok t' ->
  t_quantityType t' = t_quantityType t /\ t_quantityCount t' = t_quantityCount t /\ t_capture t' = t_capture t /\ t_invert t' = t_invert t /\
  match t_type t with
  | TypeParenthesesSubpattern p => exists l, copyAlternatives (copyTerm b) b (m_alternatives (p_disjunction p)) = Ok l /\
      t_type t' = TypeParenthesesSubpattern (set_disjunction (new_disjunction l) p)
  | TypeParentheticalAssertion p => exists l, copyAlternatives (copyTerm b) b (m_alternatives (p_disjunction p)) = Ok l /\
      t_type t' = TypeParentheticalAssertion (set_disjunction (new_disjunction l) p)
  | _ => t' = t
  end.
Proof.
  intros Hc. destruct t as [ty ? ? ? ? ? ?]; destruct ty as [| | | | | | | p | p |]; simpl in Hc; try (injection Hc as <-; done);
    unfold copyDisjunction_ in Hc; (destruct (copyAlternatives (copyTerm b) b (m_alternatives (p_disjunction p))) as [l |] eqn:E; [| done]);
    (destruct l as [| a l]; [done |]); injection Hc as <-; (split_and!; [done | done | done | done |]); simpl; exists (a :: l); done.
Qed.

(** The terms of copied alternatives are copies. *)
Lemma copyAlternatives_all (P : PatternTerm -> Prop) b l l' :
  (forall a t t', a ∈ l -> t ∈ m_terms a -> copyTerm b t = Ok t' -> P t') -> copyAlternatives (copyTerm b) b l = Ok l' ->
  forall a t, a ∈ l' -> t ∈ m_terms a -> P t.
Proof.
  revert l'. induction l as [| a l IH]; intros l' HP Hl' x t Hx Ht; [injection Hl' as <-; by apply elem_of_nil in Hx |]. simpl in Hl'.
  assert (forall a' t t', a' ∈ l -> t ∈ m_terms a' -> copyTerm b t = Ok t' -> P t') as HP' by (intros a' t1 t1' Ha'; apply (HP a'); set_solver).
  destruct (keeps b a); [| by apply (IH l' HP' Hl' x)].
  destruct (copyAlternative (copyTerm b) a) as [a' |] eqn:Ea; [| done]. simpl in Hl'.
  destruct (copyAlternatives (copyTerm b) b l) as [l'' |] eqn:El; [| done]. injection Hl' as <-.
  apply elem_of_cons in Hx as [-> | Hx]; [| by apply (IH l'' HP' eq_refl x)].
  unfold copyAlternative in Ea. destruct (res_map (copyTerm b) (m_terms a)) as [ts |] eqn:Em; [| done]. injection Ea as <-. simpl in Ht.
  assert (forall t t', t ∈ m_terms a -> copyTerm b t = Ok t' -> P t') as HPa by (intros t1 t1'; apply (HP a); set_solver).
  revert ts Em Ht HPa. generalize (m_terms a). intros ts0. induction ts0 as [| t0 ts0 IHts]; intros ts Em Ht HPa; [injection Em as <-; by apply elem_of_nil in Ht |].
  simpl in Em. destruct (copyTerm b t0) as [t0' |] eqn:Et; [| done]. simpl in Em. destruct (res_map (copyTerm b) ts0) as [ts' |]; [| done].
  injection Em as <-. apply elem_of_cons in Ht as [-> | Ht]; [apply (HPa t0); set_solver |].
  apply (IHts ts'); [done | done |]. intros t1 t1' Ht1. apply HPa. set_solver.
Qed.

(** A copy of parentheses has an alternative. *)
Lemma copyTerm_nonempty b t t' : copyTerm b t = Ok t' -> is_Some (parentheses_of t') -> nested t' <> [].
Proof.
  intros Hc. destruct t as [ty ? ? ? ? ? ?]; destruct ty as [| | | | | | | p | p |]; simpl in Hc; try (injection Hc as <-; by intros []);
    unfold copyDisjunction_ in Hc; (destruct (copyAlternatives (copyTerm b) b (m_alternatives (p_disjunction p))) as [l |] eqn:E; [| done]);
    (destruct l as [| a l]; [done |]); injection Hc as <-; done.
Qed.

(** A repetition count is not negative. *)
Definition counted (a : PatternAlternative) : Prop := forall t, t ∈ m_terms a -> 0 <= t_quantityCount t.
Definition counted_term (t : PatternTerm) : Prop := 0 <= t_quantityCount t /\ term_ok counted t.
Definition terms_counted (ts : list PatternTerm) : Prop := forall t, t ∈ ts -> counted_term t.

Lemma counted_alternative a : terms_counted (m_terms a) -> alternative_ok counted a.
Proof. intros Ha. split; intros t Ht; by apply Ha. Qed.

Lemma counted_nested t a : term_ok counted t -> a ∈ nested t -> terms_counted (m_terms a).
Proof. destruct 1 as [t _ H1 H2]. intros Ha t' Ht'. split; [by apply (H1 a) | by apply (H2 a)]. Qed.

Lemma copyTerm_counted b t t' : counted_term t -> copyTerm b t = Ok t' -> counted_term t'.
Proof.
  intros [Hc Ht]. revert Hc t'. induction Ht as [t _ HQ _ IH]. intros Hc t' Ht'. pose proof (copyTerm_nonempty b t t' Ht') as Hne.
  destruct (copyTerm_inv b t t' Ht') as (_ & E & _ & _ & Hty). split; [by rewrite E |].
  assert (forall a, a ∈ nested t' -> terms_counted (m_terms a)) as Hall.
  2:{ constructor; [exact Hne | intros a Ha t1 Ht1; by apply (Hall a Ha) | intros a t1 Ha Ht1; by apply (Hall a Ha)]. }
  intros a Ha. unfold nested, parentheses_of in *. destruct (t_type t) as [| | | | | | | p | p |] eqn:Et;
    try (subst t'; rewrite Et in Ha; by apply elem_of_nil in Ha);
    destruct Hty as (l & Hl & Et'); rewrite Et' in Ha; simpl in Ha; intros t1 Ht1; revert Ha Ht1;
    apply (copyAlternatives_all counted_term b _ _ ltac:(intros a0 t0 t0' Ha0 Ht0; apply (IH a0 t0 Ha0 Ht0); by apply (HQ a0)) Hl).
Qed.
