(* ===== verification/YarrBuild.v ===== *)
(** * The constructor of patterns builds the tree of a regular expression

    Run on the calls of a regular expression, [YarrPatternConstructor] does not
    fault, and appends terms that match what the regular expression means. *)

From Stdlib Require Import Ascii.
From stdpp Require Import base numbers list sets gmap.
From S2P Require Import Prelude Ctype Yarr YarrProof YarrCanonicalize YarrCase YarrClass YarrClassProof YarrPattern YarrMatch YarrRegex YarrMatchProof YarrTree.

#[local] Open Scope Z_scope.

(** What is relied on of the generated classes: that they are classes. *)
Class BuiltInClassesOk `{BuiltInClasses} : Prop := {
  digits_ok : class_ok digitsCreate;
  spaces_ok : class_ok spacesCreate;
  wordchar_ok : class_ok wordcharCreate;
  nondigits_ok : class_ok nondigitsCreate;
  nonspaces_ok : class_ok nonspacesCreate;
  nonwordchar_ok : class_ok nonwordcharCreate
}.

Definition code_units (input : list Z) : Prop := forall ch, ch ∈ input -> 0 <= ch < 65536.

(** ** Fresh states *)

(** No capture above [n] is defined, and none of [O], the parentheses around. *)
Definition fresh (n : Z) (O : list Z) (s : mstate) : Prop := forall k, n < k \/ k ∈ O -> s_captures s !! k = None.

Lemma fresh_mono n n' O s : n <= n' -> fresh n O s -> fresh n' O s.
Proof. intros Hn Hf k [Hk | Hk]; apply Hf; [left; lia | by right]. Qed.

Lemma fresh_open n O s : fresh n O s -> fresh (n + 1) (n + 1 :: O) s.
Proof. intros Hf k [Hk | Hk]; apply Hf; [left; lia |]. apply elem_of_cons in Hk as [-> | Hk]; [left; lia | by right]. Qed.

Lemma fresh_frame n m O s s' : (forall k, k ∈ O -> k <= n) -> n <= m -> fresh n O s -> frame n m s s' -> fresh m O s'.
Proof.
  intros HO Hm Hf [_ _ Hc] k Hk. rewrite Hc; [apply Hf; destruct Hk; [left; lia | by right] |].
  destruct Hk as [Hk | Hk%HO]; lia.
Qed.

Lemma clear_lookup lo hi s k : s_captures (clear lo hi s) !! k = if decide (lo <= k <= hi) then None else s_captures s !! k.
Proof.
  simpl. destruct (decide (lo <= k <= hi)) as [Hk | Hk].
  - apply map_lookup_filter_None. right. intros v _ Hn. by destruct Hn.
  - destruct (s_captures s !! k) as [v |] eqn:E; [by apply map_lookup_filter_Some_2 | apply map_lookup_filter_None; by left].
Qed.

Lemma mstate_eq s s' : s_begin s = s_begin s' -> s_pos s = s_pos s' -> (forall k, s_captures s !! k = s_captures s' !! k) -> s = s'.
Proof. destruct s, s'. simpl. intros -> -> Hk. f_equal. by apply map_eq. Qed.

Lemma clear_fresh n O s lo hi : fresh n O s -> n < lo -> clear lo hi s = s.
Proof.
  intros Hf Hn. apply mstate_eq; [done | done |]. intros k. rewrite clear_lookup.
  destruct (decide (lo <= k <= hi)); [| done]. symmetry. apply Hf. left. lia.
Qed.

Lemma fresh_clear n m O s : fresh m O s -> fresh n O (clear (n + 1) m s).
Proof.
  intros Hf k Hk. rewrite clear_lookup. destruct (decide (n + 1 <= k <= m)); [done |]. apply Hf.
  destruct Hk; [left; lia | by right].
Qed.

Lemma clear_idem lo hi s : clear lo hi (clear lo hi s) = clear lo hi s.
Proof.
  apply mstate_eq; [done | done |]. intros k. rewrite !clear_lookup. by destruct (decide (lo <= k <= hi)).
Qed.

(** Clearing what a match may have captured undoes it. *)
Lemma clear_frame n m O s s' : fresh n O s -> frame n m s s' -> s_pos s' = s_pos s -> clear (n + 1) m s' = s.
Proof.
  intros Hf [Hb _ Hc] Hp. apply mstate_eq; [done | done |]. intros k. rewrite clear_lookup.
  destruct (decide (n + 1 <= k <= m)); [symmetry; apply Hf; left; lia |]. apply Hc. lia.
Qed.

(** ** Characters *)

Lemma same_char_ok ic a ch : 0 <= a < 65536 -> same_char ic a ch = true <-> char_matches ic a ch.
Proof.
  intros Ha. unfold same_char, char_matches. destruct ic; [| rewrite Z.eqb_eq; naive_solver].
  pose proof (areCanonicallyEquivalent_ok tt a ch Ha) as Hw. unfold wp in Hw.
  destruct (areCanonicallyEquivalent a ch tt) as [[r []] |]; [by apply Hw | done].
Qed.

Section members.
Context `{BuiltInClassesOk}.

Definition put_member (m : member) : ClassM unit :=
  match m with
  | Member_char ch => putChar ch
  | Member_range lo hi => putRange lo hi
  | Member_class classID invert => append (member_class classID invert)
  end.

Lemma is_uchar_ok c : is_uchar c = true -> 0 <= c < 65536.
Proof. unfold is_uchar. intros [H1%Z.leb_le H2%Z.ltb_lt]%andb_true_iff. lia. Qed.

Lemma member_class_ok classID invert : classID <> NewlineClassID -> class_ok (member_class classID invert).
Proof.
  intros Hn. destruct classID, invert; simpl;
    first [apply nondigits_ok | apply digits_ok | apply nonspaces_ok | apply spaces_ok | apply nonwordchar_ok | apply wordchar_ok | done].
Qed.

Lemma put_member_ok ic m : member_ok m ->
  exists P, collects ic (put_member m) P /\ forall ch, 0 <= ch < 65536 -> P ch <-> member_has ic ch m = true.
Proof.
  destruct m as [a | lo hi | classID invert]; simpl; intros Hm.
  - apply is_uchar_ok in Hm. exists (char_matches ic a). split; [by apply putChar_ok |]. intros ch _. symmetry. by apply same_char_ok.
  - destruct Hm as (Hl%is_uchar_ok & Hh%is_uchar_ok & Hle). exists (range_matches ic lo hi). split; [apply putRange_ok; lia |].
    intros ch _. destruct ic; simpl; [| rewrite andb_true_iff, !Z.leb_le; done]. rewrite existsb_exists. setoid_rewrite <- list_elem_of_In.
    setoid_rewrite elem_of_seqZ. split; intros (a & Ha & Hx); exists a; (split; [lia |]);
      [by apply (same_char_ok true a ch ltac:(lia)) | by apply (same_char_ok true a ch ltac:(lia)) in Hx].
  - exists (class_has (member_class classID invert)). split; [by apply append_ok, member_class_ok |].
    intros ch Hch. symmetry. apply testCharacterClass_ok; [by apply member_class_ok | done].
Qed.

End members.

Lemma one_char_ext (input : list Z) (f g : Z -> bool) s :
  code_units input -> (forall ch, 0 <= ch < 65536 -> f ch = g ch) -> one_char input f s = one_char input g s.
Proof.
  intros Hin Hfg. unfold one_char. destruct (input !! s_pos s) as [ch |] eqn:E; [| done].
  rewrite Hfg; [done |]. apply Hin. by eapply list_elem_of_lookup_2.
Qed.

(** ** What the calls of a regular expression do *)

Section build.
Context `{BuiltInClassesOk} (ignoreCase multiline : bool).

Abbreviation matches := (match_term ignoreCase multiline).
Abbreviation matches_once := (once ignoreCase multiline).

Definition num (c : YarrPatternConstructor) : Z := m_numSubpatterns (m_counts (m_pattern c)).

(** The capturing parentheses that are open. *)
Definition open_id (f : Frame) : list Z :=
  match last (m_terms (fr_alternative f)) with
  | Some t => match t_type t with TypeParenthesesSubpattern p => if t_capture t then [p_subpatternId p] else [] | _ => [] end
  | None => []
  end.
Definition open_ids (c : YarrPatternConstructor) : list Z := m_enclosing c ≫= open_id.

Definition frame_ok (f : Frame) : Prop := exists t, last (m_terms (fr_alternative f)) = Some t /\ is_Some (parentheses_of t).

(** Between the parts of a pattern. *)
Record ready (c : YarrPatternConstructor) : Prop := mk_ready {
  rd_class : m_characterClassConstructor c = YarrClass.new_constructor ignoreCase;
  rd_ignoreCase : m_ignoreCase (m_pattern c) = ignoreCase;
  rd_multiline : m_multiline (m_pattern c) = multiline;
  rd_frames : Forall frame_ok (m_enclosing c);
  rd_num : 0 <= num c;
  rd_open : forall k, k ∈ open_ids c -> k <= num c
}.

(** The terms [ts] were added to the alternative, and [k] captures opened. *)
Record extends (c c' : YarrPatternConstructor) (k : Z) (ts : list PatternTerm) : Prop := mk_extends {
  ex_before : m_before c' = m_before c;
  ex_enclosing : m_enclosing c' = m_enclosing c;
  ex_terms : m_terms (m_alternative c') = m_terms (m_alternative c) ++ ts;
  ex_num : num c' = num c + k;
  ex_ready : ready c'
}.

Abbreviation starts := (@m_startsWithBOL PatternTerm).

(** The terms [ts] mean [meant] in states without captures above [n] or in [O];
    what the flags of alternatives say where the part has a [^] or not. *)
Record result (n : Z) (O : list Z) (meant : list Z -> matcher) (hasBol safe : bool)
    (a a' : PatternAlternative) (ts : list PatternTerm) : Prop := mk_result {
  re_ok : terms_ok any ts;
  re_counted : terms_counted ts;
  re_once : m_onceThrough a' = m_onceThrough a;
  re_means : forall input s, code_units input -> fresh n O s -> sequence (matches input) ts s = meant input s;
  re_plain : hasBol = false -> starts a' = starts a /\ terms_ok unflagged ts;
  re_flags : safe = true -> terms_ok (flag_ok ignoreCase multiline) ts /\
    (starts a = true -> starts a' = true) /\
    (starts a' = true -> starts a = true \/ anchored ignoreCase multiline ts) /\
    ((exists t, t ∈ ts /\ all_flagged t) -> starts a' = true) /\
    looks_unflagged ts
}.

Definition is_look (r : regex) : bool := match r with Look _ _ => true | _ => false end.

(** The one term of an atom, before a quantifier. *)
Record atom_term (n : Z) (O : list Z) (r : regex) (t : PatternTerm) : Prop := mk_atom_term {
  at_count : t_quantityCount t = 1;
  at_quantity : t_quantityType t = QuantifierFixedCount;
  at_kind : match t_type t with TypeAssertionBOL | TypeAssertionEOL | TypeAssertionWordBoundary => false | _ => true end = true;
  at_look : is_look r = true -> exists p, t_type t = TypeParentheticalAssertion p;
  at_no_look : is_look r = false -> (forall p, t_type t <> TypeParentheticalAssertion p) /\
    forall input s, matches_once input t (clear (n + 1) (n + captures r) s) = matches_once input t s;
  at_once : forall input s, code_units input -> fresh n O s -> matches_once input t s = meaning ignoreCase multiline input n r s
}.

Abbreviation run := (foldl (run_event (D := PR YarrPatternConstructor))).

Definition builds (r : regex) : Prop := forall c,
  regex_ok r -> ready c -> num c + captures r < 2 ^ 32 - 1 ->
  exists c' ts, run (Ok c) (calls r) = Ok c' /\ extends c c' (captures r) ts /\
    result (num c) (open_ids c) (fun input => meaning ignoreCase multiline input (num c) r) (has_bol r) (bol_safe r)
      (m_alternative c) (m_alternative c') ts /\
    (is_atom r = true -> exists t, ts = [t] /\ atom_term (num c) (open_ids c) r t).

(** *** Terms without parts *)

Lemma extends_add c t : ready c -> extends c (Constructor.add t c) 0 [t].
Proof.
  intros Hr. destruct c, Hr. split; [done | done | done | simpl; unfold num; simpl; lia | by split].
Qed.

Lemma leaf_not_flagged t : parentheses_of t = None -> ~ all_flagged t.
Proof. intros Hp [Hs _]. rewrite Hp in Hs. by destruct Hs. Qed.

Lemma looks_plain ts : terms_ok unflagged ts -> looks_unflagged ts.
Proof. intros Hts t Ht _. by apply Hts. Qed.

Lemma counted_one t : t_quantityCount t = 1 -> term_ok counted t -> terms_counted [t].
Proof. intros Hc Ht t' ->%list_elem_of_singleton. split; [lia | done]. Qed.

Lemma counted_leaf t : parentheses_of t = None -> t_quantityCount t = 1 -> terms_counted [t].
Proof. intros Hp Hc. apply counted_one; [done | by apply term_ok_leaf]. Qed.

(** A single new term that has no alternatives. *)
Lemma result_leaf n O r a t :
  has_bol r = false -> parentheses_of t = None -> t_quantityCount t = 1 -> t_quantityType t = QuantifierFixedCount ->
  (forall input s, code_units input -> fresh n O s -> matches_once input t s = meaning ignoreCase multiline input n r s) ->
  result n O (fun input => meaning ignoreCase multiline input n r) (has_bol r) (bol_safe r) a (append_term t a) [t].
Proof.
  intros Hb Hp Hc Hq Hm.
  assert (forall Q, terms_ok Q [t]) as Hok by (intros Q t' ->%list_elem_of_singleton; by apply term_ok_leaf).
  split; [done | by apply counted_leaf | done | | |].
  - intros input s Hi Hf. rewrite sequence_one, YarrTree.matches_once by done. by apply Hm.
  - intros _. by split.
  - intros _. split; [done |]. split; [done |]. split; [by left |]. split; [| by apply looks_plain].
    intros (t' & ->%list_elem_of_singleton & Hall). by apply leaf_not_flagged in Hall.
Qed.

Lemma clear_empty n s : clear (n + 1) (n + 0) s = s.
Proof. apply mstate_eq; [done | done |]. intros k. rewrite clear_lookup. rewrite decide_False by lia. done. Qed.

Lemma atom_leaf n O r t :
  is_look r = false -> captures r = 0 -> parentheses_of t = None ->
  match t_type t with TypeAssertionBOL | TypeAssertionEOL | TypeAssertionWordBoundary => false | _ => true end = true ->
  t_quantityCount t = 1 -> t_quantityType t = QuantifierFixedCount ->
  (forall input s, code_units input -> fresh n O s -> matches_once input t s = meaning ignoreCase multiline input n r s) ->
  atom_term n O r t.
Proof.
  intros Hl Hc Hp Hk H1 H2 Hm. split; [done | done | done | congruence | | done]. intros _. split.
  - intros p Ht. unfold parentheses_of in Hp. by rewrite Ht in Hp.
  - intros input s. by rewrite Hc, clear_empty.
Qed.

(** The calls of [r] add the term [t] to [c]. *)
Lemma builds_leaf r c c1 t :
  ready c -> has_bol r = false -> captures r = 0 -> is_look r = false ->
  run (Ok c) (calls r) = Ok (Constructor.add t c1) ->
  extends c c1 0 [] -> m_alternative c1 = m_alternative c ->
  parentheses_of t = None ->
  (is_atom r = true -> match t_type t with TypeAssertionBOL | TypeAssertionEOL | TypeAssertionWordBoundary => false | _ => true end = true) ->
  t_quantityCount t = 1 -> t_quantityType t = QuantifierFixedCount ->
  (forall input s, code_units input -> fresh (num c) (open_ids c) s ->
     matches_once input t s = meaning ignoreCase multiline input (num c) r s) ->
  exists c' ts, run (Ok c) (calls r) = Ok c' /\ extends c c' (captures r) ts /\
    result (num c) (open_ids c) (fun input => meaning ignoreCase multiline input (num c) r) (has_bol r) (bol_safe r)
      (m_alternative c) (m_alternative c') ts /\
    (is_atom r = true -> exists t, ts = [t] /\ atom_term (num c) (open_ids c) r t).
Proof.
  intros Hr Hb Hc Hl Hrun [X1 X2 X3 X4 X5] Halt Hp Hk H1 H2 Hm. exists (Constructor.add t c1), [t].
  destruct (extends_add c1 t X5) as [Y1 Y2 Y3 Y4 Y5]. split; [done |]. split; [| split].
  - split; [congruence | congruence | rewrite Y3, Halt; done | lia | done].
  - assert (m_alternative (Constructor.add t c1) = append_term t (m_alternative c)) as -> by (rewrite <- Halt; by destruct c1).
    by apply result_leaf.
  - intros Ha. exists t. split; [done |]. by apply atom_leaf; auto.
Qed.

Lemma extends_refl c : ready c -> extends c c 0 [].
Proof. intros Hr. split; [done | done | by rewrite app_nil_r | lia | done]. Qed.

Lemma builds_bol : builds Bol.
Proof.
  intros c _ Hr _. set (t := new_term TypeAssertionBOL false false).
  assert (forall c1, m_before c1 = m_before c -> m_enclosing c1 = m_enclosing c -> m_terms (m_alternative c1) = m_terms (m_alternative c) ->
    num c1 = num c -> ready c1 -> extends c (Constructor.add t c1) 0 [t]) as Hext.
  { intros c1 H1 H2 H3 H4 H5. destruct (extends_add c1 t H5) as [Y1 Y2 Y3 Y4 Y5]. split; [congruence | congruence | by rewrite Y3, H3 | lia | done]. }
  assert (forall b : bool, run (Ok c) (calls Bol) = Ok (Constructor.add t (if b then c <| m_alternative := Constructor.mark_bol true (m_alternative c) |>
    <| m_pattern := (m_pattern c) <| m_patternContainsBOL := true |> |> else c)) ->
    exists c' ts, run (Ok c) (calls Bol) = Ok c' /\ extends c c' 0 ts /\
      result (num c) (open_ids c) (fun input => meaning ignoreCase multiline input (num c) Bol) true true (m_alternative c) (m_alternative c') ts) as Hb.
  { intros b Hrun. eexists _, [t]. split; [exact Hrun |]. split.
    - apply Hext; destruct b; try done. destruct Hr. by split.
    - assert (forall Q, terms_ok Q [t]) as Hok by (intros Q t' ->%list_elem_of_singleton; by apply term_ok_leaf).
      split; [done | by apply counted_leaf | by destruct b | | done |].
      + intros input s _ _. by rewrite sequence_one, YarrTree.matches_once.
      + intros _. split; [done |]. split; [destruct b; simpl; by destruct (starts (m_alternative c)) |]. split.
        * intros _. right. intros Hm input s Hs. rewrite sequence_one, YarrTree.matches_once by done.
          unfold matches_once, once_. simpl. unfold bol, begins_line. rewrite Hm. destruct (s_pos s); [lia | done].
        * split; [| by apply looks_plain]. intros (t' & ->%list_elem_of_singleton & Hall). by apply leaf_not_flagged in Hall. }
  edestruct Hb as (c' & ts & H1 & H2 & H3); [| exists c', ts; split; [exact H1 |]; split; [exact H2 |]; split; [exact H3 | done]].
  simpl. unfold Constructor.assertionBOL. reflexivity.
Qed.

Lemma builds_eol : builds Eol.
Proof. intros c _ Hr _. eapply (builds_leaf Eol c c); try done. by apply extends_refl. Qed.

Lemma builds_boundary invert : builds (Boundary invert).
Proof. intros c _ Hr _. eapply (builds_leaf (Boundary invert) c c); try done. by apply extends_refl. Qed.

Lemma builds_builtin classID invert : builds (BuiltIn classID invert).
Proof. intros c _ Hr _. eapply (builds_leaf (BuiltIn classID invert) c c); try done; first [by apply extends_refl | by destruct classID]. Qed.

Lemma inside_own_ok id frames : Forall frame_ok frames ->
  Constructor.inside_own id frames = Ok (bool_decide (id ∈ frames ≫= open_id)).
Proof.
  induction 1 as [| f frames (t & Ht & [p Hp]) _ IH]; [done |]. rewrite bind_cons.
  assert (lastTerm (fr_alternative f) = Ok t) as Hl by (unfold lastTerm; by rewrite Ht).
  assert (open_id f = match t_type t with TypeParenthesesSubpattern p => if t_capture t then [p_subpatternId p] else [] | _ => [] end) as ->
    by (unfold open_id; by rewrite Ht).
  simpl. rewrite Hl. unfold parentheses_of in Hp. cbn [mbind PR_bind]. destruct (t_type t) as [| | | | | | | p0 | p0 |] eqn:E; try done; rewrite IH.
  destruct (t_capture t); simpl; [| done]. destruct (Z.eqb_spec id (p_subpatternId p0)) as [-> | Hne]; f_equal; symmetry.
  - apply bool_decide_eq_true. set_solver.
  - apply bool_decide_ext. set_solver.
Qed.

Lemma builds_backref k : builds (BackRef k).
Proof.
  intros c Hok Hr _. simpl in Hok.
  set (c1 := c <| m_pattern := (m_pattern c) <| m_containsBackreferences := true |> <| m_counts := count_back_reference k (m_counts (m_pattern c)) |> |>).
  set (t := if bool_decide (num c < k \/ k ∈ open_ids c) then new_term TypeForwardReference false false else new_term (TypeBackReference k) false false).
  assert (parentheses_of t = None /\ t_quantityCount t = 1 /\ t_quantityType t = QuantifierFixedCount) as (Hp & H1 & H2)
    by (unfold t; by case_bool_decide).
  eapply (builds_leaf (BackRef k) c c1 t); try done.
  - simpl. unfold Constructor.atomBackReference. unfold truthy. rewrite (proj2 (Z.eqb_neq k 0)) by lia. simpl.
    unfold t. change (m_numSubpatterns (m_counts (m_pattern c))) with (num c). destruct (Z.ltb_spec (num c) k) as [Hlt | Hge].
    + rewrite bool_decide_eq_true_2 by (by left). done.
    + rewrite inside_own_ok by apply Hr. simpl. f_equal. f_equal. change (m_enclosing c ≫= open_id) with (open_ids c).
      case_bool_decide as Ho; case_bool_decide as Hd; try done; [destruct Hd; by right | destruct Hd; [lia | done]].
  - destruct Hr. split; [done | done | by rewrite app_nil_r | unfold num; simpl; lia | by split].
  - unfold t. by case_bool_decide.
  - intros input s _ Hf. unfold t. case_bool_decide as Hd; [| done]. simpl. unfold matches_once, once_, back_reference. simpl. by rewrite (Hf k Hd).
Qed.

(** *** Classes *)

Lemma put_class_ok (m : ClassM unit) P c :
  collects ignoreCase m P -> m_isCaseInsensitive (m_characterClassConstructor c) = ignoreCase ->
  class_ok (contents (m_characterClassConstructor c)) ->
  exists cc, Constructor.put_class m c = Ok (c <| m_characterClassConstructor := cc |>) /\
    collected (m_characterClassConstructor c) cc P.
Proof.
  intros Hm Hic Hok. specialize (Hm _ Hic Hok). apply wp_inv in Hm as ([] & cc & Hrun & Hc). exists cc. split; [| done].
  unfold Constructor.put_class, Constructor.in_class. by rewrite Hrun.
Qed.

Lemma run_member m c : member_ok m ->
  run_event (D := PR YarrPatternConstructor) (Ok c) (member_call m) = Constructor.put_class (put_member m) c.
Proof. destruct m as [| | [] ?]; simpl; by intros ?. Qed.

Lemma run_members members : forall c, Forall member_ok members ->
  m_isCaseInsensitive (m_characterClassConstructor c) = ignoreCase -> class_ok (contents (m_characterClassConstructor c)) ->
  exists cc, run (Ok c) (map member_call members) = Ok (c <| m_characterClassConstructor := cc |>) /\
    m_isCaseInsensitive cc = ignoreCase /\ class_ok (contents cc) /\
    forall ch, 0 <= ch < 65536 -> class_has (contents cc) ch <->
      class_has (contents (m_characterClassConstructor c)) ch \/ existsb (member_has ignoreCase ch) members = true.
Proof.
  induction members as [| m members IH]; intros c Hms Hic Hok.
  - exists (m_characterClassConstructor c). simpl. split; [by destruct c |]. split; [done |]. split; [done |]. intros ch _. naive_solver.
  - apply Forall_cons in Hms as [Hm Hms]. destruct (put_member_ok ignoreCase m Hm) as (P & HP & Hch).
    destruct (put_class_ok _ P c HP Hic Hok) as (cc & Hrun & [Hcase Hok' Hhas]).
    destruct (IH (c <| m_characterClassConstructor := cc |>)) as (cc' & Hrun' & Hic' & Hok'' & Hhas'); [done | simpl; congruence | done |].
    exists cc'. cbn [map foldl]. rewrite run_member, Hrun by done. split; [rewrite Hrun'; by destruct c |]. split; [done |]. split; [done |].
    intros ch Hu. rewrite (Hhas' ch Hu). simpl. rewrite (Hhas ch), (Hch ch Hu), orb_true_iff. tauto.
Qed.

(** The collected class becomes a term, and the class constructor is empty again. *)
Lemma add_class_ok invert c : m_isCaseInsensitive (m_characterClassConstructor c) = ignoreCase ->
  Constructor.add_class invert c =
  Ok (Constructor.add (new_term (TypeCharacterClass (User (contents (m_characterClassConstructor c)))) false invert)
        (c <| m_characterClassConstructor := YarrClass.new_constructor ignoreCase |>)).
Proof. intros Hic. unfold Constructor.add_class, Constructor.in_class, charClass. destruct (m_characterClassConstructor c). simpl in *. by subst. Qed.

Lemma new_contents : class_ok (contents (YarrClass.new_constructor ignoreCase)) /\ forall x, ~ class_has (contents (YarrClass.new_constructor ignoreCase)) x.
Proof.
  split; [split; simpl; by repeat constructor |]. intros x [[Hx | Hx] | [Hx | Hx]]; simpl in Hx;
    first [by apply elem_of_nil in Hx | by apply in_ranges_nil in Hx].
Qed.

Lemma builds_class invert members : builds (Class_ invert members).
Proof.
  intros c Hok Hr _. simpl in Hok. destruct new_contents as [Hnew Hno]. set (c1 := c <| m_invertCharacterClass := Some invert |>).
  destruct (run_members members c1 Hok) as (cc & Hrun & Hic & Hcok & Hhas); [simpl; by rewrite (rd_class _ Hr) | simpl; by rewrite (rd_class _ Hr) |].
  eapply (builds_leaf (Class_ invert members) c (c1 <| m_characterClassConstructor := YarrClass.new_constructor ignoreCase |>)
    (new_term (TypeCharacterClass (User (contents cc))) false invert)); try done.
  - cbn [calls foldl]. rewrite foldl_app. change (run_event (Ok c) (EvClassBegin invert)) with (Ok c1 : PR YarrPatternConstructor).
    rewrite Hrun. cbn [foldl run_event atomCharacterClassEnd PatternDelegate mbind PR_bind]. unfold Constructor.atomCharacterClassEnd.
    simpl. rewrite add_class_ok by done. by destruct c.
  - destruct Hr. split; [done | done | by rewrite app_nil_r | unfold num; simpl; lia | by split].
  - intros input s Hi _. unfold matches_once, once_. simpl. apply one_char_ext; [done |]. intros ch Hu. f_equal. unfold test. simpl.
    apply eq_true_iff_eq. rewrite testCharacterClass_ok, Hhas by done. simpl. rewrite (rd_class _ Hr). split; [intros [Hx | Hx] | by right]; [by destruct (Hno ch) | done].
Qed.

Lemma not_ascii ch : 0 <= ch < 65536 -> isASCII ch = false -> 128 <= ch.
Proof.
  intros Hch Ha. destruct (Z.leb_spec 128 ch) as [| Hlt]; [done |]. exfalso. revert Ha.
  assert (forallb isASCII (seqZ 0 128) = true) as Hall by (by vm_compute).
  rewrite (proj1 (forallb_forall _ _) Hall ch); [done |]. apply list_elem_of_In, elem_of_seqZ. lia.
Qed.

Lemma builds_char ch : builds (Char ch).
Proof.
  intros c Hok Hr _. simpl in Hok. apply is_uchar_ok in Hok. pose proof Hr as [Rc Ri _ _ _ _].
  assert (forall c1, extends c c1 0 [] -> m_alternative c1 = m_alternative c ->
    Constructor.atomPatternCharacter ch c = Ok (Constructor.add (new_term (TypePatternCharacter ch) false false) c1) ->
    exists c' ts, run (Ok c) (calls (Char ch)) = Ok c' /\ extends c c' (captures (Char ch)) ts /\
      result (num c) (open_ids c) (fun input => meaning ignoreCase multiline input (num c) (Char ch)) (has_bol (Char ch)) (bol_safe (Char ch))
        (m_alternative c) (m_alternative c') ts /\
      (is_atom (Char ch) = true -> exists t, ts = [t] /\ atom_term (num c) (open_ids c) (Char ch) t)) as Hplain.
  { intros c1 Hx Ha Hrun. by eapply (builds_leaf (Char ch) c c1). }
  unfold Constructor.atomPatternCharacter in Hplain. rewrite Ri in Hplain.
  destruct (negb ignoreCase || isASCII ch) eqn:Ea; [eapply Hplain; [by apply extends_refl | done | done] |].
  apply orb_false_iff in Ea as [Hic%negb_false_iff Ha0]. pose proof (not_ascii ch Hok Ha0) as Ha.
  destruct (holds_total ch Hok) as (i & r & Hh).
  assert (Constructor.in_class (info ← rangeInfoFor ch; r ← info_at info; mret (info, r)) c = Ok ((i, r), c)) as Hin.
  { unfold Constructor.in_class. assert (wp (info ← rangeInfoFor ch; r ← info_at info; mret (info, r)) (m_characterClassConstructor c)
      (fun x cc => x = (i, r) /\ cc = m_characterClassConstructor c)) as Hw.
    { wp_step. apply (rangeInfoFor_ok _ i r); [done |]. wp_step. apply (wp_info_at _ _ r); [apply Hh |]. by wp_step. }
    apply wp_inv in Hw as (x & cc & -> & -> & ->). by destruct c. }
  rewrite Hin in Hplain. cbn [mbind PR_bind] in Hplain.
  case_bool_decide as Hu; [eapply Hplain; [by apply extends_refl | done | done] |]. clear Hplain.
  destruct new_contents as [Hnew Hno].
  destruct (put_class_ok (putUnicodeIgnoreCase ch i) (char_matches true ch) c) as (cc & Hrun & [Hcase Hcok Hhas]);
    [rewrite Hic; by eapply putUnicodeIgnoreCase_ok | by rewrite Rc | by rewrite Rc |].
  rewrite Rc in Hcase, Hhas.
  eapply (builds_leaf (Char ch) c (c <| m_characterClassConstructor := YarrClass.new_constructor ignoreCase |>)
    (new_term (TypeCharacterClass (User (contents cc))) false false)); try done.
  - simpl. unfold Constructor.atomPatternCharacter. rewrite Ri, Hic, Ha0, Hin. cbn [negb orb mbind PR_bind].
    rewrite bool_decide_eq_false_2, Hrun by done. cbn [mbind PR_bind]. rewrite add_class_ok by done. rewrite Hic. by destruct c.
  - destruct Hr. split; [done | done | by rewrite app_nil_r | unfold num; simpl; lia | by split].
  - intros input s Hi _. unfold matches_once, once_. simpl. apply one_char_ext; [done |]. intros x Hx. unfold test. simpl.
    apply eq_true_iff_eq. rewrite testCharacterClass_ok, Hhas, same_char_ok by done. rewrite Hic.
    split; [intros [Hn | Hn] | by right]; [by destruct (Hno x) | done].
Qed.

(** *** Sequences and alternatives *)

Lemma result_nil n O a : result n O (fun _ s => [s]) false true a a [].
Proof.
  assert (forall Q, terms_ok Q []) as Hok by (intros Q t Ht; by apply elem_of_nil in Ht).
  split; [done | intros t Ht; by apply elem_of_nil in Ht | done | done | done |]. intros _. split; [done |]. split; [done |]. split; [by left |].
  split; [| by apply looks_plain]. intros (t & Ht & _). by apply elem_of_nil in Ht.
Qed.

Lemma terms_ok_app Q ts1 ts2 : terms_ok Q ts1 -> terms_ok Q ts2 -> terms_ok Q (ts1 ++ ts2).
Proof. intros H1 H2 t Ht. apply elem_of_app in Ht as [Ht | Ht]; [by apply H1 | by apply H2]. Qed.

Lemma result_app n k O M1 M2 b1 b2 s1 s2 a a1 a2 ts1 ts2 :
  0 <= k -> (forall x, x ∈ O -> x <= n) -> (forall input, framed n (n + k) (M1 input)) ->
  result n O M1 b1 s1 a a1 ts1 -> result (n + k) O M2 b2 s2 a1 a2 ts2 ->
  result n O (fun input s => M1 input s ≫= M2 input) (b1 || b2) (s1 && s2) a a2 (ts1 ++ ts2).
Proof.
  intros Hk HO Hfr [A1 N1 E1 B1 C1 D1] [A2 N2 E2 B2 C2 D2]. split.
  - by apply terms_ok_app.
  - intros t Ht. apply elem_of_app in Ht as [Ht | Ht]; [by apply N1 | by apply N2].
  - congruence.
  - intros input s Hi Hf. rewrite sequence_app, B1 by done. apply bind_ext. intros s' Hs'. apply B2; [done |].
    eapply fresh_frame; [done | | done | by apply (Hfr input)]; lia.
  - intros [Hb1 Hb2]%orb_false_iff. destruct (C1 Hb1) as [F1 U1], (C2 Hb2) as [F2 U2]. split; [congruence | by apply terms_ok_app].
  - intros [Hs1 Hs2]%andb_true_iff. destruct (D1 Hs1) as (F1 & G1 & I1 & J1 & K1), (D2 Hs2) as (F2 & G2 & I2 & J2 & K2).
    split; [by apply terms_ok_app |]. split; [auto |]. split.
    + intros H2. destruct (I2 H2) as [H1 | H1]; [destruct (I1 H1) as [H0' | H0']; [by left |] |]; right; apply anchored_app; auto.
    + split; [| intros t Ht; apply elem_of_app in Ht as [Ht | Ht]; [by apply K1 | by apply K2]].
      intros (t & Ht & Hall). apply elem_of_app in Ht as [Ht | Ht]; [apply G2, J1 | apply J2]; eauto.
Qed.

Lemma build_sequence rs : Forall builds rs -> forall c,
  all_of regex_ok rs -> ready c -> num c + sum_of captures rs < 2 ^ 32 - 1 ->
  exists c' ts, run (Ok c) (concat_calls calls rs) = Ok c' /\ extends c c' (sum_of captures rs) ts /\
    result (num c) (open_ids c) (fun input => meaning_sequence ignoreCase multiline input (num c) rs) (any_of has_bol rs) (every bol_safe rs)
      (m_alternative c) (m_alternative c') ts.
Proof.
  induction 1 as [| r rs Hb _ IH]; intros c Hok Hr Hn.
  { exists c, []. split; [done |]. split; [by apply extends_refl | apply result_nil]. }
  simpl in Hok, Hn. destruct Hok as [Hok1 Hok2]. pose proof (captures_nonneg r) as Hc1. pose proof (sum_captures_nonneg rs) as Hc2.
  destruct (Hb c Hok1 Hr) as (c1 & ts1 & Hrun1 & [X1 X2 X3 X4 X5] & R1 & _); [lia |].
  destruct (IH c1 Hok2 X5) as (c2 & ts2 & Hrun2 & [Y1 Y2 Y3 Y4 Y5] & R2); [lia |].
  exists c2, (ts1 ++ ts2). simpl. rewrite foldl_app, Hrun1, Hrun2. split; [done |]. split.
  - split; [congruence | congruence | rewrite Y3, X3; by rewrite app_assoc | lia | done].
  - assert (open_ids c1 = open_ids c) as Ho by (unfold open_ids; by rewrite X2). rewrite Ho, X4 in R2.
    eapply (result_app _ _ _ (fun input => meaning ignoreCase multiline input (num c) r)); [exact Hc1 | apply Hr | | exact R1 | exact R2].
    intros input. apply framed_meaning.
Qed.

(** The alternatives [l] of a disjunction mean [meant]. *)
Record choice_result (n : Z) (O : list Z) (meant : list Z -> matcher) (hasBol safe : bool) (l : list PatternAlternative) : Prop := mk_choice_result {
  ch_some : l <> [];
  ch_ok : forall a, a ∈ l -> alternative_ok any a;
  ch_counted : forall a, a ∈ l -> terms_counted (m_terms a);
  ch_once : forall a, a ∈ l -> m_onceThrough a = false;
  ch_means : forall input s, code_units input -> fresh n O s -> match_alternatives ignoreCase multiline input l s = meant input s;
  ch_plain : hasBol = false -> forall a, a ∈ l -> alternative_ok unflagged a;
  ch_flags : safe = true -> forall a, a ∈ l -> alternative_ok (flag_ok ignoreCase multiline) a
}.

Lemma choice_one n O M hb safe a ts :
  result n O M hb safe new_alternative a ts -> m_terms a = ts -> choice_result n O M hb safe [a].
Proof.
  intros [A N E B C D] Ht. split.
  - done.
  - intros a' ->%list_elem_of_singleton. split; [done | by rewrite Ht].
  - intros a' ->%list_elem_of_singleton. by rewrite Ht.
  - by intros a' ->%list_elem_of_singleton.
  - intros input s Hi Hf. unfold match_alternatives. simpl. rewrite app_nil_r. unfold match_alternative. rewrite Ht. by apply B.
  - intros Hb a' ->%list_elem_of_singleton. destruct (C Hb) as [F U]. split; [exact F | by rewrite Ht].
  - intros Hs a' ->%list_elem_of_singleton. destruct (D Hs) as (F & _ & I & J & K). split; [| by rewrite Ht].
    split; rewrite Ht; [| done]. intros Hf. by destruct (I Hf).
Qed.

Lemma choice_cons n k O M1 M2 b1 b2 s1 s2 a l :
  0 <= k -> choice_result n O M1 b1 s1 [a] -> choice_result (n + k) O M2 b2 s2 l ->
  choice_result n O (fun input s => M1 input s ++ M2 input s) (b1 || b2) (s1 && s2) (a :: l).
Proof.
  intros Hk [_ A1 N1 E1 B1 C1 D1] [_ A2 N2 E2 B2 C2 D2]. split.
  - done.
  - intros a' Ha. apply elem_of_cons in Ha as [-> | Ha]; [apply A1; set_solver | by apply A2].
  - intros a' Ha. apply elem_of_cons in Ha as [-> | Ha]; [apply N1; set_solver | by apply N2].
  - intros a' Ha. apply elem_of_cons in Ha as [-> | Ha]; [apply E1; set_solver | by apply E2].
  - intros input s Hi Hf. rewrite <- B1, <- B2 by first [done | eapply fresh_mono; [| exact Hf]; lia]. simpl. by rewrite app_nil_r.
  - intros [Hb1 Hb2]%orb_false_iff a' Ha. apply elem_of_cons in Ha as [-> | Ha]; [apply C1; [done | set_solver] | by apply C2].
  - intros [Hs1 Hs2]%andb_true_iff a' Ha. apply elem_of_cons in Ha as [-> | Ha]; [apply D1; [done | set_solver] | by apply D2].
Qed.

Lemma choice_means n O M M' hb hb' safe safe' l :
  (forall input s, M input s = M' input s) -> hb = hb' -> safe = safe' -> choice_result n O M hb safe l -> choice_result n O M' hb' safe' l.
Proof. intros HM -> -> [A B N F C D E]. split; [done | done | done | done | | done | done]. intros input s Hi Hf. rewrite C by done. apply HM. Qed.

Lemma build_alternatives alts : Forall (Forall builds) alts -> alts <> [] -> forall c,
  alternatives_of regex_ok alts -> ready c -> m_alternative c = new_alternative -> num c + captures_of alts < 2 ^ 32 - 1 ->
  exists c' l, run (Ok c) (calls_of alts) = Ok c' /\ m_enclosing c' = m_enclosing c /\ num c' = num c + captures_of alts /\ ready c' /\
    m_before c' ++ [m_alternative c'] = m_before c ++ l /\
    choice_result (num c) (open_ids c) (fun input => meaning_of ignoreCase multiline input (num c) alts)
      (any_of (any_of has_bol) alts) (every (every bol_safe) alts) l.
Proof.
  induction 1 as [| a alts Hb _ IH]; intros Hne c Hok Hr Hnew Hn; [done |]. clear Hne.
  simpl in Hok. destruct Hok as [Hok1 Hok2]. unfold captures_of in Hn. simpl in Hn.
  pose proof (sum_captures_nonneg a) as Hc1. pose proof (captures_of_nonneg alts) as Hc2. unfold captures_of in Hc2.
  destruct (build_sequence a Hb c Hok1 Hr) as (c1 & ts & Hrun & [X1 X2 X3 X4 X5] & R); [lia |]. rewrite Hnew in X3, R.
  pose proof (choice_one _ _ _ _ _ _ _ R X3) as Hone. destruct alts as [| a2 alts].
  - exists c1, [m_alternative c1]. unfold calls_of. simpl. rewrite app_nil_r, X1. split; [done |]. split; [done |]. split; [unfold captures_of; simpl; lia |].
    split; [done |]. split; [done |]. eapply choice_means; [| | | exact Hone].
    + intros input s. unfold meaning_of. simpl. by rewrite app_nil_r.
    + simpl. by rewrite orb_false_r.
    + simpl. by rewrite andb_true_r.
  - set (c2 := c1 <| m_before := m_before c1 ++ [m_alternative c1] |> <| m_alternative := new_alternative |>).
    assert (ready c2) as Hr2 by (destruct X5; by split).
    destruct (IH ltac:(done) c2 Hok2 Hr2) as (c' & l & Hrun' & E1 & E2 & E3 & E4 & Hch); [done | unfold captures_of; change (num c2) with (num c1); lia |].
    change (num c2) with (num c1) in *. change (m_enclosing c2) with (m_enclosing c1) in E1.
    exists c', (m_alternative c1 :: l). split; [| split; [| split; [| split; [| split]]]].
    + unfold calls_of in *. cbn [separated_calls]. rewrite foldl_app, Hrun. exact Hrun'.
    + congruence.
    + rewrite E2, X4. unfold captures_of. simpl. lia.
    + done.
    + rewrite E4. unfold c2. simpl. by rewrite <- app_assoc, X1.
    + assert (open_ids c2 = open_ids c) as Ho by (unfold open_ids; simpl; by rewrite X2). rewrite Ho, X4 in Hch.
      eapply choice_means; [| | | exact (choice_cons _ _ _ _ _ _ _ _ _ _ _ Hc1 Hone Hch)]; done.
Qed.

(** *** Parentheses *)

(** The flags that bubble up from the alternatives [l]. *)
Definition bubble (l : list PatternAlternative) (a : PatternAlternative) : PatternAlternative :=
  if negb (Nat.eqb (length (List.filter starts l)) 0) then Constructor.mark_bol (Nat.eqb (length (List.filter starts l)) (length l)) a else a.

Lemma filter_all l : length (List.filter starts l) = length l <-> forall a, a ∈ l -> starts a = true.
Proof.
  induction l as [| a l IH]; simpl; [split; [set_solver | done] |]. destruct (starts a) eqn:E; simpl.
  - split; [intros [= Hl] b Hb | intros Hall]; [apply elem_of_cons in Hb as [-> | Hb]; [done | by apply IH] |].
    f_equal. apply IH. intros b Hb. apply Hall. set_solver.
  - split; [intros Hl; exfalso; pose proof (filter_length_le starts l); lia |]. intros Hall. rewrite (Hall a) in E by set_solver. done.
Qed.

Lemma bubble_starts l a : l <> [] -> starts (bubble l a) = true <-> starts a = true \/ forall b, b ∈ l -> starts b = true.
Proof.
  intros Hl. rewrite <- filter_all. unfold bubble. destruct (Nat.eqb_spec (length (List.filter starts l)) 0) as [He | Hn]; simpl.
  - split; [by left |]. intros [? | Hall]; [done |]. rewrite He in Hall. by destruct l.
  - rewrite orb_true_iff, Nat.eqb_eq. done.
Qed.

Lemma bubble_terms l a : m_terms (bubble l a) = m_terms a.
Proof. unfold bubble. by destruct (negb _). Qed.

Lemma atomParenthesesEnd_ok c B A t E l t' :
  m_enclosing c = mk_frame B (append_term t A) :: E -> m_before c ++ [m_alternative c] = l ->
  Constructor.close (new_disjunction l) (num c) t = Ok t' ->
  Constructor.atomParenthesesEnd c = Ok (c <| m_before := B |> <| m_alternative := append_term t' (bubble l A) |>
    <| m_enclosing := E |> <| m_invertParentheticalAssertion := false |>).
Proof.
  intros HE Hl Hc. unfold Constructor.atomParenthesesEnd. rewrite HE. cbn [fr_alternative fr_before].
  assert (lastTerm (append_term t A) = Ok t) as -> by (unfold lastTerm; simpl; by rewrite last_snoc).
  cbn [mbind PR_bind m_alternatives new_disjunction]. rewrite Hl. change (m_numSubpatterns (m_counts (m_pattern c))) with (num c).
  fold (new_disjunction l). rewrite Hc. cbn [mbind PR_bind]. do 4 f_equal.
  unfold bubble. destruct (negb _); unfold append_term, set_terms; simpl; by rewrite removelast_last.
Qed.

(** A new term for parentheses around the alternatives [l]. *)
Lemma result_parens n O meant hb safe n1 O1 inner0 safe0 l a t p :
  choice_result n1 O1 inner0 hb safe0 l -> parentheses_of t = Some p -> m_alternatives (p_disjunction p) = l ->
  t_quantityCount t = 1 -> t_quantityType t = QuantifierFixedCount ->
  (forall input s, code_units input -> fresh n O s -> matches_once input t s = meant input s) ->
  (safe = true -> safe0 = true /\ ((forall b, b ∈ l -> starts b = true) -> (forall b, b ∈ l -> anchored ignoreCase multiline (m_terms b)) ->
     anchored ignoreCase multiline [t]) /\ (is_lookahead t = true -> hb = false)) ->
  result n O meant hb safe a (append_term t (bubble l a)) [t].
Proof.
  intros [Hne A N _ B C D] Hp Hl Hc Hq Hm Hs. subst l. set (l := m_alternatives (p_disjunction p)) in *.
  assert (nested t = l) as Hn by (unfold nested; by rewrite Hp).
  assert (forall Q : PatternAlternative -> Prop, (forall b, b ∈ l -> alternative_ok Q b) -> terms_ok Q [t]) as Hok.
  { intros Q HQ t' ->%list_elem_of_singleton. by apply (term_ok_parens Q t p). }
  split.
  - by apply Hok.
  - apply counted_one; [done |]. apply (Hok counted); [| set_solver]. intros b Hb. by apply counted_alternative, N.
  - unfold bubble. by destruct (negb _).
  - intros input s Hi Hf. rewrite sequence_one, YarrTree.matches_once by done. by apply Hm.
  - intros Hb. split; [| by apply Hok, C]. destruct (bubble_starts l a Hne) as [H1 _]. change (starts (append_term t (bubble l a))) with (starts (bubble l a)).
    destruct (starts (bubble l a)) eqn:E.
    + destruct (H1 eq_refl) as [-> | Hall]; [done |]. exfalso. destruct l as [| b l']; [done |].
      destruct (C Hb b ltac:(set_solver)) as [U _]. unfold unflagged in U. rewrite (Hall b) in U by set_solver. done.
    + symmetry. apply not_true_iff_false. intros Ha. rewrite (proj2 (bubble_starts l a Hne)) in E by (by left). done.
  - intros Hsafe. destruct (Hs Hsafe) as (Hs0 & Han & Hlook). change (starts (append_term t (bubble l a))) with (starts (bubble l a)). split; [by apply Hok, D |].
    split; [intros Ha; apply bubble_starts; [done | by left] |]. split.
    + intros [Ha | Hall]%bubble_starts; [by left | right | done]. apply Han; [done |]. intros b Hb. apply (D Hs0 b Hb). by apply Hall.
    + split; [| intros t' Ht' Hlk; apply list_elem_of_singleton in Ht' as ->; apply (Hok unflagged); [by apply C, Hlook | set_solver]].
      intros (t' & ->%list_elem_of_singleton & Hall). apply bubble_starts; [done |]. right. intros b Hb. apply Hall. by rewrite Hn.
Qed.

Lemma inner_anchored l input s :
  multiline = false -> (0 < s_pos s)%nat -> (forall b, b ∈ l -> anchored ignoreCase multiline (m_terms b)) ->
  match_alternatives ignoreCase multiline input l s = [].
Proof.
  intros Hm Hs. induction l as [| b l IH]; intros Hall; [done |]. simpl. rewrite IH by set_solver.
  unfold match_alternative. rewrite (Hall b ltac:(set_solver) Hm input s Hs). done.
Qed.

Lemma u32_small x : 0 <= x < 2 ^ 32 -> u32 x = x.
Proof. intros Hx. by apply u32_id. Qed.

(** Between a new opening parenthesis [t0] and its end: the frame that is
    opened, the alternatives inside, and the closed term [t]. *)
Lemma build_inside alts c c1 t0 p0 k :
  Forall (Forall builds) alts -> alts <> [] -> alternatives_of regex_ok alts -> ready c -> 0 <= k ->
  m_enclosing c1 = mk_frame (m_before c) (append_term t0 (m_alternative c)) :: m_enclosing c ->
  m_before c1 = [] -> m_alternative c1 = new_alternative -> num c1 = num c + k ->
  m_characterClassConstructor c1 = m_characterClassConstructor c ->
  m_ignoreCase (m_pattern c1) = m_ignoreCase (m_pattern c) -> m_multiline (m_pattern c1) = m_multiline (m_pattern c) ->
  parentheses_of t0 = Some p0 -> (forall x, x ∈ open_id (mk_frame [] (append_term t0 new_alternative)) -> x <= num c + k) ->
  num c + k + captures_of alts < 2 ^ 32 - 1 ->
  exists c2 l, (forall t, Constructor.close (new_disjunction l) (num c + k + captures_of alts) t0 = Ok t ->
      run (Ok c1) (calls_of alts ++ [EvParenthesesEnd]) = Ok (c2 t) /\ extends c (c2 t) (k + captures_of alts) [t] /\
      m_alternative (c2 t) = append_term t (bubble l (m_alternative c))) /\
    choice_result (num c + k) (open_id (mk_frame [] (append_term t0 new_alternative)) ++ open_ids c)
      (fun input => meaning_of ignoreCase multiline input (num c + k) alts) (any_of (any_of has_bol) alts) (every (every bol_safe) alts) l.
Proof.
  intros Hb Hne Hok Hr Hk HE HB HA Hn Hcc Hic Hml Hp Hid Hlt. pose proof Hr as [R1 R2 R3 R4 R5 R6].
  assert (open_ids c1 = open_id (mk_frame [] (append_term t0 new_alternative)) ++ open_ids c) as Ho.
  { unfold open_ids. rewrite HE. simpl. f_equal. unfold open_id. simpl. by rewrite last_snoc. }
  assert (ready c1) as Hr1.
  { split; [congruence | congruence | congruence | | lia |].
    - rewrite HE. constructor; [| done]. exists t0. split; [apply last_snoc | by eexists].
    - intros x Hx. rewrite Ho in Hx. rewrite Hn. apply elem_of_app in Hx as [Hx | Hx]; [by apply Hid | specialize (R6 x Hx); lia]. }
  destruct (build_alternatives alts Hb Hne c1 Hok Hr1 HA) as (c2 & l & Hrun & E1 & E2 & E3 & E4 & Hch); [lia |].
  rewrite Hn, Ho in *. rewrite HB in E4. change ([] ++ l) with l in E4.
  exists (fun t => c2 <| m_before := m_before c |> <| m_alternative := append_term t (bubble l (m_alternative c)) |>
    <| m_enclosing := m_enclosing c |> <| m_invertParentheticalAssertion := false |>), l. split; [| done].
  intros t Ht. rewrite <- E2 in Ht. split; [| split; [| done]].
  - rewrite foldl_app, Hrun. simpl. apply (atomParenthesesEnd_ok _ _ _ t0); [by rewrite E1 | done | done].
  - destruct E3 as [Q1 Q2 Q3 Q4 Q5 Q6]. split; [done | done | simpl; by rewrite bubble_terms | change (num c2 = num c + (k + captures_of alts)); lia |].
    split; [done | done | done | done | done |]. intros x Hx. change (x ∈ open_ids c) in Hx. specialize (R6 x Hx). change (x <= num c2).
    pose proof (captures_of_nonneg alts). lia.
Qed.

Lemma builds_group capture alts : Forall (Forall builds) alts -> builds (Group capture alts).
Proof.
  intros Hb c [Hne Hok] Hr Hn. change (captures (Group capture alts)) with ((if capture then 1 else 0) + captures_of alts) in *.
  pose proof (captures_of_nonneg alts) as Hc0. pose proof (rd_num _ Hr) as Hn0. set (n := num c) in *. set (k := if capture then 1 else 0) in *.
  assert (0 <= k <= 1) as Hk by (unfold k; by destruct capture).
  set (t0 := new_term (TypeParenthesesSubpattern (Constructor.new_parentheses (n + 1))) capture false).
  set (c1 := Constructor.open t0 (c <| m_pattern := (m_pattern c) <| m_counts := count_subpattern capture (m_counts (m_pattern c)) |> |>)).
  assert (num c1 = n + k) as Hn1.
  { unfold c1, num, k. destruct capture; simpl; change (m_numSubpatterns (m_counts (m_pattern c))) with n; [apply u32_small; lia | lia]. }
  assert (open_id (mk_frame [] (append_term t0 new_alternative)) = if capture then [n + 1] else []) as Ho by done.
  destruct (build_inside alts c c1 t0 (Constructor.new_parentheses (n + 1)) k Hb Hne Hok Hr) as (c2 & l & Hc2 & Hch); try done; [lia | | fold n; lia |].
  { rewrite Ho. unfold k. fold n. destruct capture; [intros x ->%list_elem_of_singleton; lia | set_solver]. }
  fold n in Hc2, Hch. rewrite Ho in Hch.
  set (p := mk_parentheses (new_disjunction l) (n + 1) (Some (n + k + captures_of alts)) false false).
  set (t := new_term (TypeParenthesesSubpattern p) capture false). destruct (Hc2 t eq_refl) as (Hrun & Hext & Halt).
  assert (forall input s, matches_once input t (clear (n + 1) (n + (k + captures_of alts)) s) = matches_once input t s) as Hclear.
  { intros input s. rewrite !(once_group _ _ _ _ p) by done. rewrite Z.add_assoc. unfold group, inner.
    change (p_subpatternId p) with (n + 1). change (last_id p) with (n + k + captures_of alts). by rewrite clear_idem. }
  assert (forall input s, code_units input -> fresh n (open_ids c) s ->
    matches_once input t s = meaning ignoreCase multiline input n (Group capture alts) s) as Honce.
  { intros input s Hi Hf. rewrite (once_group _ _ _ _ p) by done. unfold group, inner. change (p_subpatternId p) with (n + 1).
    rewrite (clear_fresh n (open_ids c)) by (done || lia). change (m_alternatives (p_disjunction p)) with l.
    rewrite (ch_means _ _ _ _ _ _ Hch) by (done || (unfold k; destruct capture; [by apply fresh_open | rewrite Z.add_0_r; done])).
    unfold k. destruct capture; [done |]. by rewrite Z.add_0_r. }
  exists (c2 t), [t]. split; [| split; [exact Hext | split]].
  - rewrite <- Hrun. cbn [calls foldl run_event atomParenthesesSubpatternBegin PatternDelegate mbind PR_bind]. unfold Constructor.atomParenthesesSubpatternBegin.
    change (m_numSubpatterns (m_counts (m_pattern c))) with n. by rewrite u32_small by lia.
  - rewrite Halt. eapply (result_parens n (open_ids c) _ _ _ _ _ _ _ l); [exact Hch | reflexivity | done | done | done | exact Honce |].
    intros Hs. split; [exact Hs |]. split; [| done]. intros _ Han Hm input s Hp. rewrite sequence_one, YarrTree.matches_once, (once_group _ _ _ _ p) by done.
    unfold group, inner. by rewrite inner_anchored.
  - intros _. exists t. split; [done |]. split; [done | done | done | done | | exact Honce]. intros _. by split.
Qed.

Lemma builds_look invert alts : Forall (Forall builds) alts -> builds (Look invert alts).
Proof.
  intros Hb c [Hne Hok] Hr Hn. change (captures (Look invert alts)) with (captures_of alts) in *.
  pose proof (captures_of_nonneg alts) as Hc0. pose proof (rd_num _ Hr) as Hn0. set (n := num c) in *.
  set (t0 := new_term (TypeParentheticalAssertion (Constructor.new_parentheses (n + 1))) false invert).
  set (c1 := (Constructor.open t0 c) <| m_invertParentheticalAssertion := invert |>).
  destruct (build_inside alts c c1 t0 (Constructor.new_parentheses (n + 1)) 0 Hb Hne Hok Hr) as (c2 & l & Hc2 & Hch); try done;
    [unfold num, c1; simpl; by rewrite Z.add_0_r | intros x Hx; by apply elem_of_nil in Hx | fold n; lia |].
  fold n in Hc2, Hch. rewrite Z.add_0_r in Hc2, Hch. change (open_id (mk_frame [] (append_term t0 new_alternative)) ++ open_ids c) with (open_ids c) in Hch.
  set (p := mk_parentheses (new_disjunction l) (n + 1) (Some (n + captures_of alts)) false false).
  set (t := new_term (TypeParentheticalAssertion p) false invert). destruct (Hc2 t eq_refl) as (Hrun & Hext & Halt).
  assert (forall input s, code_units input -> fresh n (open_ids c) s ->
    matches_once input t s = meaning ignoreCase multiline input n (Look invert alts) s) as Honce.
  { intros input s Hi Hf. rewrite (once_look _ _ _ _ p) by done. unfold look, inner. change (p_subpatternId p) with (n + 1).
    rewrite (clear_fresh n (open_ids c)) by (done || lia). change (m_alternatives (p_disjunction p)) with l.
    by rewrite (ch_means _ _ _ _ _ _ Hch). }
  exists (c2 t), [t]. split; [| split; [exact Hext | split]].
  - rewrite <- Hrun. cbn [calls foldl run_event atomParentheticalAssertionBegin PatternDelegate mbind PR_bind]. unfold Constructor.atomParentheticalAssertionBegin.
    change (m_numSubpatterns (m_counts (m_pattern c))) with n. by rewrite u32_small by lia.
  - rewrite Halt. eapply (result_parens n (open_ids c) _ _ _ _ _ _ _ l); [exact Hch | reflexivity | done | done | done | exact Honce |].
    simpl. intros [Hs Hneg%negb_true_iff]%andb_true_iff. split; [exact Hs |]. split; [| done]. intros Hall _. exfalso.
    destruct Hch as [Hl _ _ _ _ Hplain _]. destruct l as [| b l]; [done |]. destruct (Hplain Hneg b ltac:(set_solver)) as [U _].
    unfold unflagged in U. rewrite (Hall b) in U by set_solver. done.
  - intros _. exists t. split; [done |]. split; [done | done | done | intros _; by exists p | done | exact Honce].
Qed.

(** *** Quantifiers *)

Definition rest (min max : Z) : option Z := if max =? quantifyInfinite then None else Some (max - min).

Lemma repeat_ext input (P : mstate -> Prop) (R R' : matcher) n greedy count s :
  (forall s, P s -> R s = R' s) -> (forall s s', P s -> s' ∈ R s -> P s') -> P s ->
  iter n R s ≫= repeated input greedy count R = iter n R' s ≫= repeated input greedy count R'.
Proof.
  intros Heq HP Hs. rewrite <- (iter_ext P R R' n s Heq HP Hs). apply bind_ext. intros s' Hs'.
  apply (optional_ext P); [done | done |]. by eapply iter_inv.
Qed.

Lemma meaning_repeat input n r min max greedy s :
  let R := fun s => meaning ignoreCase multiline input n r (clear (n + 1) (n + captures r) s) in
  meaning ignoreCase multiline input n (Repeat r min max greedy) s = iter (Z.to_nat min) R s ≫= repeated input greedy (rest min max) R.
Proof. done. Qed.

(** The iterations of a quantified atom that is no lookahead are those of its term. *)
Lemma repeat_means n O r t min max greedy input s :
  atom_term n O r t -> is_look r = false -> (forall k, k ∈ O -> k <= n) -> code_units input -> fresh n O s ->
  meaning ignoreCase multiline input n (Repeat r min max greedy) s =
  iter (Z.to_nat min) (matches_once input t) s ≫= repeated input greedy (rest min max) (matches_once input t).
Proof.
  intros Ht Hl HO Hi Hf. pose proof (captures_nonneg r) as Hc. destruct (at_no_look _ _ _ _ Ht Hl) as [_ Hclear].
  rewrite meaning_repeat. apply (repeat_ext input (fresh (n + captures r) O)).
  - intros s0 Hs0. cbv beta. rewrite <- (at_once _ _ _ _ Ht) by (done || by apply fresh_clear). apply Hclear.
  - intros s0 s1 Hs0 Hs1. apply (framed_meaning ignoreCase multiline input r n) in Hs1.
    eapply (fresh_frame n (n + captures r) O (clear (n + 1) (n + captures r) s0)); [done | lia | by apply fresh_clear | done].
  - eapply fresh_mono; [| done]. lia.
Qed.

(** A lookahead does not move, so it is tried at most once. *)
Lemma optional_still fuel greedy count (R : matcher) s : (forall s', s' ∈ R s -> s_pos s' = s_pos s) -> optional fuel greedy count R s = [s].
Proof.
  intros HR. destruct fuel as [| fuel]; [done |]. simpl. destruct (match count with Some n => n <=? 0 | None => false end); [done |].
  assert (List.filter (advances s) (R s) = []) as ->; [| by destruct greedy].
  assert (forall l, (forall x, x ∈ l -> s_pos x = s_pos s) -> List.filter (advances s) l = []) as Hall; [| by apply Hall].
  induction l as [| x l IH]; intros Hx; [done |]. simpl. unfold advances at 1. rewrite (Hx x) by set_solver.
  rewrite Nat.ltb_irrefl. apply IH. set_solver.
Qed.

Lemma look_single invert (R : matcher) s : look invert R s = [] \/ exists s', look invert R s = [s'].
Proof. unfold look. destruct (R s), invert; eauto. Qed.

Lemma repeat_look n O invert alts min max greedy input s :
  (forall k, k ∈ O -> k <= n) -> fresh n O s -> 0 <= min ->
  meaning ignoreCase multiline input n (Repeat (Look invert alts) min max greedy) s =
  if min =? 0 then [s] else meaning ignoreCase multiline input n (Look invert alts) s.
Proof.
  intros HO Hf Hmin. set (r := Look invert alts). set (R := fun s => meaning ignoreCase multiline input n r (clear (n + 1) (n + captures r) s)).
  assert (forall s0 s1, s1 ∈ R s0 -> s_pos s1 = s_pos s0) as Hpos by (intros s0 s1 Hs1; unfold R, r in Hs1; simpl in Hs1; by apply look_pos in Hs1).
  assert (forall m s0, iter m R s0 ≫= repeated input greedy (rest min max) R = iter m R s0) as Hopt.
  { intros m s0. rewrite <- (bind_ret (iter m R s0)) at 2. apply bind_ext. intros s1 _. by apply optional_still, Hpos. }
  rewrite meaning_repeat. cbv zeta. fold R. rewrite Hopt. destruct (Z.eqb_spec min 0) as [-> | Hne]; [done |].
  assert (R s = meaning ignoreCase multiline input n r s) as HRs by (unfold R; by rewrite (clear_fresh n O) by (done || lia)).
  rewrite <- HRs. replace (Z.to_nat min) with (S (Z.to_nat min - 1)) by lia. generalize (Z.to_nat min - 1)%nat. intros m. simpl.
  assert (R s = [] \/ exists s', R s = [s'] /\ R s' = [s']) as [-> | (s' & HR & HR')]; [| done |].
  - destruct (look_single invert (meaning_of ignoreCase multiline input n alts) s) as [E | [s' E]];
      change (look invert (meaning_of ignoreCase multiline input n alts) s) with (meaning ignoreCase multiline input n r s) in E;
      rewrite <- HRs in E; [by left |]. right. exists s'. split; [done |]. unfold R.
    rewrite (clear_frame n (n + captures r) O s s'); [by rewrite <- HRs | done | | apply Hpos; rewrite E; set_solver].
    apply (framed_meaning ignoreCase multiline input r n). rewrite <- HRs, E. set_solver.
  - rewrite HR. simpl. rewrite app_nil_r. induction m as [| m IH]; [done |]. simpl. rewrite HR'. simpl. by rewrite app_nil_r.
Qed.

(** The alternative of a constructor replaced. *)
Definition with_terms (ts : list PatternTerm) (c : YarrPatternConstructor) : YarrPatternConstructor :=
  c <| m_alternative := set_terms ts (m_alternative c) |>.

Lemma extends_with c c1 k ts ts' :
  extends c c1 k ts -> extends c (with_terms (m_terms (m_alternative c) ++ ts') c1) k ts'.
Proof. intros [X1 X2 X3 X4 X5]. split; [done | done | done | done |]. destruct X5. by split. Qed.

(** The cases of [quantifyAtom] after the term [t] of an atom. *)
Definition quantified_terms (min max : Z) (greedy : bool) (t : PatternTerm) : PR (list PatternTerm) :=
  let kind := if greedy then QuantifierGreedy else QuantifierNonGreedy in
  if max =? 0 then Ok []
  else match t_type t with
       | TypeParentheticalAssertion _ => Ok (if min =? 0 then [] else [t])
       | _ =>
           if min =? 0 then Ok [quantify max kind t]
           else if min =? max then Ok [quantify min QuantifierFixedCount t]
           else copy ← copyTerm false (quantify min QuantifierFixedCount t);
                Ok [quantify min QuantifierFixedCount t;
                    Constructor.mark_copy (quantify (if max =? quantifyInfinite then max else max - min) kind copy)]
       end.

Lemma quantifyAtom_terms n O r min max greedy c t before :
  m_terms (m_alternative c) = before ++ [t] -> atom_term n O r t -> min <= max ->
  Constructor.quantifyAtom min max greedy c = (ts ← quantified_terms min max greedy t; Ok (with_terms (before ++ ts) c)).
Proof.
  intros Ht [A1 A2 A3 _ _ _] Hle. unfold Constructor.quantifyAtom, quantified_terms, p_assert, lastTerm, removeLastTerm, truthy.
  rewrite (proj2 (Z.leb_le _ _)) by done. rewrite Ht, last_snoc. rewrite (bool_decide_eq_true_2 (_ <> [])) by (by destruct before).
  cbn [mbind PR_bind]. rewrite A1, A2, A3, Z.eqb_refl, (bool_decide_eq_true_2 (QuantifierFixedCount = _)) by done. cbn [andb mbind PR_bind].
  assert (forall x, (match before ++ [t] with [] => Err Pattern_assert | _ => Ok x end : PR PatternAlternative) = Ok x) as Hm by (intros x; by destruct before).
  assert (forall t', Constructor.replaceLast t' (m_alternative c) = set_terms (before ++ [t']) (m_alternative c)) as Hrep
    by (intros t'; unfold Constructor.replaceLast; by rewrite Ht, removelast_last).
  assert (forall t1 t2, append_term t2 (Constructor.replaceLast t1 (m_alternative c)) = set_terms (before ++ [t1; t2]) (m_alternative c)) as Hrep2
    by (intros t1 t2; rewrite Hrep; unfold append_term, set_terms; simpl; by rewrite <- app_assoc).
  assert (with_terms (before ++ [t]) c = c) as Hid by (unfold with_terms; rewrite <- Ht; destruct c as [? ? [] ? ? ? ?]; done).
  rewrite negb_involutive, !Hm, removelast_last. cbn [mbind PR_bind].
  destruct (Z.eqb_spec max 0) as [Hz | Hnz]; cbn [mbind PR_bind]; [by rewrite app_nil_r |]. rewrite negb_involutive.
  destruct (t_type t); try done; try (destruct (Z.eqb_spec min 0); cbn [mbind PR_bind]; [by rewrite ?app_nil_r, ?Hrep |];
    destruct (Z.eqb_spec min max); cbn [mbind PR_bind]; [by rewrite Hrep |];
    destruct (copyTerm false (quantify min QuantifierFixedCount t)); cbn [mbind PR_bind]; by rewrite ?Hrep2).
  destruct (Z.eqb_spec min 0); cbn [mbind PR_bind]; [by rewrite app_nil_r | by rewrite Hid].
Qed.

(** What is shown of the terms [ts] in place of the atom's term [t]. *)
Record requantified (n : Z) (O : list Z) (r : regex) (min max : Z) (greedy : bool) (t : PatternTerm) (ts : list PatternTerm) : Prop := mk_requantified {
  rq_ok : forall Q, (forall x, term_ok unflagged x -> term_ok Q x) -> term_ok Q t -> terms_ok Q ts;
  rq_counted : counted_term t -> terms_counted ts;
  rq_anchored : 0 < min -> anchored ignoreCase multiline [t] -> anchored ignoreCase multiline ts;
  rq_flagged : (exists x, x ∈ ts /\ all_flagged x) -> all_flagged t;
  rq_looks : forall x, x ∈ ts -> is_lookahead x = true -> x = t \/ term_ok unflagged x;
  rq_means : forall input s, code_units input -> fresh n O s ->
    sequence (matches input) ts s = meaning ignoreCase multiline input n (Repeat r min max greedy) s
}.

(** The terms [ts] in place of [t], whose alternatives are those of [t] or copies without flags. *)
Lemma result_quantified n O r t min max greedy a a1 ts before :
  result n O (fun input => meaning ignoreCase multiline input n r) (has_bol r) (bol_safe r) a a1 [t] -> 0 <= min ->
  requantified n O r min max greedy t ts ->
  result n O (fun input => meaning ignoreCase multiline input n (Repeat r min max greedy))
    (has_bol (Repeat r min max greedy)) (bol_safe (Repeat r min max greedy)) a (set_terms before a1) ts.
Proof.
  intros [A N E0 B C D] Hmin [Hok Hcn Han Hfl Hlk Hm]. simpl has_bol. simpl bol_safe. split; [| apply Hcn, N; set_solver | done | done | |].
  - apply Hok; [intros x Hx; by apply (term_ok_mono unflagged) | apply A; set_solver].
  - intros Hb. destruct (C Hb) as [E U]. split; [exact E |]. apply Hok; [done | apply U; set_solver].
  - intros [Hs Hz%negb_true_iff]%andb_true_iff. destruct (D Hs) as (F & G & I & J & K). change (starts (set_terms before a1)) with (starts a1).
    split; [apply Hok; [apply unflagged_ok | apply F; set_solver] |]. split; [done |]. split.
    + intros H1. destruct (I H1) as [H2 | H2]; [by left |]. destruct (decide (0 < min)) as [Hp | Hp]; [right; by apply Han |].
      left. replace min with 0 in Hz by lia. simpl in Hz. destruct (C Hz) as [E _]. congruence.
    + split; [intros Hex; apply J; exists t; split; [set_solver | by apply Hfl] |].
      intros x Hx Hl. destruct (Hlk x Hx Hl) as [-> | Hun]; [apply K; [set_solver | done] | done].
Qed.

Lemma anchored_quantify min t q : 0 < min -> t_quantityType t = QuantifierFixedCount -> t_quantityCount t = 1 ->
  q = quantify min QuantifierFixedCount t -> anchored ignoreCase multiline [t] -> anchored ignoreCase multiline [q].
Proof.
  intros Hmin H1 H2 -> Han Hm input s Hs. specialize (Han Hm input s Hs). rewrite sequence_one, YarrTree.matches_once in Han by done.
  rewrite sequence_one, match_term_once. unfold quantified. simpl. replace (Z.to_nat min) with (S (Z.to_nat min - 1)) by lia. simpl.
  change (matches_once input (quantify min QuantifierFixedCount t) s) with (matches_once input t s). by rewrite Han.
Qed.

Lemma quantity_rest min max : 0 < min -> max <= quantifyInfinite ->
  quantity (if max =? quantifyInfinite then max else max - min) = rest min max.
Proof.
  intros H1 H2. unfold quantity, rest. destruct (Z.eqb_spec max quantifyInfinite) as [-> | Hne]; [done |].
  by rewrite (proj2 (Z.eqb_neq (max - min) quantifyInfinite)) by lia.
Qed.

Lemma repeated_none input greedy (R : matcher) s : repeated input greedy (Some 0) R s = [s].
Proof. unfold repeated. by destruct (length input - s_pos s)%nat. Qed.

Lemma match_quantified input t (greedy : bool) count R s :
  t_quantityType t = (if greedy then QuantifierGreedy else QuantifierNonGreedy) -> t_quantityCount t = count ->
  (forall s, matches_once input t s = R s) -> matches input t s = repeated input greedy (quantity count) R s.
Proof.
  intros Ht Hc HR. rewrite match_term_once. unfold quantified, repeated. rewrite Ht, Hc.
  destruct greedy; by apply (optional_ext (fun _ => True)).
Qed.

Lemma match_fixed input t count R s :
  t_quantityType t = QuantifierFixedCount -> t_quantityCount t = count ->
  (forall s, matches_once input t s = R s) -> matches input t s = iter (Z.to_nat count) R s.
Proof. intros Ht Hc HR. rewrite match_term_once. unfold quantified. rewrite Ht, Hc. by apply (iter_ext (fun _ => True)). Qed.

Lemma mark_copy_same t : let t' := Constructor.mark_copy t in
  t_quantityType t' = t_quantityType t /\ t_quantityCount t' = t_quantityCount t /\ nested t' = nested t /\
  (is_Some (parentheses_of t') -> is_Some (parentheses_of t)) /\ forall input s, matches_once input t' s = matches_once input t s.
Proof.
  unfold Constructor.mark_copy, nested, parentheses_of. destruct (t_type t) as [| | | | | | | p | p |] eqn:E; rewrite ?E; try done.
  simpl. split; [done |]. split; [done |]. split; [done |]. split; [done |]. intros input s.
  rewrite (once_group _ _ _ t p s E). by rewrite (once_group _ _ _ _ (mk_parentheses (p_disjunction p) (p_subpatternId p) (p_lastSubpatternId p) true (p_isTerminal p))).
Qed.

Lemma singles_ok (Q : PatternAlternative -> Prop) t t' : nested t' = nested t -> (is_Some (parentheses_of t') -> is_Some (parentheses_of t)) ->
  term_ok Q t -> terms_ok Q [t'].
Proof. intros Hn Hp Ht x ->%list_elem_of_singleton. by apply (term_ok_nested Q t). Qed.

(** The terms of a quantified atom that is no lookahead. *)
Lemma quantified_plain n O r t min max greedy :
  atom_term n O r t -> is_look r = false -> (forall k, k ∈ O -> k <= n) -> term_ok any t ->
  0 <= min <= max -> min < quantifyInfinite -> max <= quantifyInfinite -> max <> 0 ->
  exists ts, quantified_terms min max greedy t = Ok ts /\ requantified n O r min max greedy t ts.
Proof.
  intros Ht Hl HO Hany Hle Hfin Hmax Hnz. pose proof Ht as [A1 A2 _ _ _ _]. destruct (at_no_look _ _ _ _ Ht Hl) as [Hnl _].
  set (kind := if greedy then QuantifierGreedy else QuantifierNonGreedy). set (q := quantify min QuantifierFixedCount t).
  assert (quantified_terms min max greedy t = if min =? 0 then Ok [quantify max kind t] else if min =? max then Ok [q] else
      copy ← copyTerm false q; Ok [q; Constructor.mark_copy (quantify (if max =? quantifyInfinite then max else max - min) kind copy)]) as ->.
  { unfold quantified_terms. rewrite (proj2 (Z.eqb_neq max 0)) by done. destruct (t_type t) as [| | | | | | | | p |] eqn:E; try done. by destruct (Hnl p). }
  assert (forall x, x ∈ [q] /\ all_flagged x -> all_flagged t) as Hq by (intros x [->%list_elem_of_singleton Hall]; exact Hall).
  assert (is_lookahead t = false) as Hnlk by (unfold is_lookahead; destruct (t_type t) as [| | | | | | | | p |]; try done; by destruct (Hnl p)).
  assert (forall count k x, x = quantify count k t -> is_lookahead x = true -> x = t \/ term_ok unflagged x) as Hlk
    by (intros count k x -> Hx; change (is_lookahead t = true) in Hx; congruence).
  assert (forall input s, matches input q s = iter (Z.to_nat min) (matches_once input t) s) as Hmq by (intros; by apply match_fixed).
  assert (term_ok counted t -> counted_term q) as Hqc by (intros Hct; split; [simpl; lia | by apply (term_ok_nested _ t)]).
  destruct (Z.eqb_spec min 0) as [-> | Hmin]; [| destruct (Z.eqb_spec min max) as [<- | Hne]].
  - eexists. split; [done |].
    split; [intros Q _; by apply singles_ok | intros [_ Hct] x ->%list_elem_of_singleton; split; [simpl; lia | by apply (term_ok_nested _ t)] | lia |
      by intros (x & ->%list_elem_of_singleton & Hall) | intros x Hx%list_elem_of_singleton; by eapply Hlk |].
    intros input s Hi Hf. rewrite sequence_one, (repeat_means n O r t) by done. rewrite (match_quantified input _ greedy max (matches_once input t)) by done.
    simpl iter. cbn [mbind list_bind]. rewrite app_nil_r. unfold rest, quantity. by rewrite Z.sub_0_r.
  - exists [q]. split; [done |].
    split; [intros Q _; by apply singles_ok | intros [_ Hct] x ->%list_elem_of_singleton; by apply Hqc | intros Hp; by apply (anchored_quantify min t q) | intros (x & Hx); by apply (Hq x) |
      intros x Hx%list_elem_of_singleton; by eapply Hlk |].
    intros input s Hi Hf. rewrite sequence_one, (repeat_means n O r t), Hmq by done.
    unfold rest. rewrite (proj2 (Z.eqb_neq min quantifyInfinite)), Z.sub_diag by lia. rewrite <- (bind_ret (iter _ _ s)) at 1.
    apply bind_ext. intros s' _. by rewrite repeated_none.
  - destruct (copyTerm_ok ignoreCase multiline false q) as (copy & Hc & [C1 C2 C3 C4 C5 C6]); [by apply (term_ok_nested any t) | done |].
    rewrite Hc. set (k := if max =? quantifyInfinite then max else max - min). set (m := Constructor.mark_copy (quantify k kind copy)).
    destruct (mark_copy_same (quantify k kind copy)) as (M1 & M2 & M3 & M4 & M5). fold m in M1, M2, M3, M4, M5.
    exists [q; m]. split; [done |]. change [q; m] with ([q] ++ [m]). assert (term_ok unflagged m) as Hm by (by apply (term_ok_nested _ copy)).
    split.
    + intros Q Hun HQ. apply terms_ok_app; [by apply (singles_ok Q t) | intros x ->%list_elem_of_singleton; by apply Hun].
    + intros [_ Hct] x Hx. apply elem_of_app in Hx as [->%list_elem_of_singleton | ->%list_elem_of_singleton]; [by apply Hqc |].
      destruct (copyTerm_counted false q copy (Hqc Hct) Hc) as [_ Hcc]. split; [rewrite M2; unfold k; simpl; destruct (max =? quantifyInfinite); lia |].
      by apply (term_ok_nested counted copy).
    + intros Hp Han. apply anchored_app; [by apply (singles_ok any t) | left; by apply (anchored_quantify min t q)].
    + intros (x & Hx & Hall). apply elem_of_app in Hx as [Hx | ->%list_elem_of_singleton]; [by apply (Hq x) | by apply unflagged_term in Hall].
    + intros x Hx Hl'. apply elem_of_app in Hx as [Hx%list_elem_of_singleton | ->%list_elem_of_singleton]; [by eapply Hlk | by right].
    + intros input s Hi Hf. rewrite sequence_app, sequence_one, (repeat_means n O r t), Hmq by done. apply bind_ext. intros s' _.
      rewrite sequence_one, (match_quantified input m greedy k (matches_once input t) s' M1 M2); [unfold k; rewrite quantity_rest by lia; done |].
      intros s0. rewrite M5. change (matches_once input (quantify k kind copy) s0) with (matches_once input copy s0).
      by rewrite C6.
Qed.

(** An atom that is removed. *)
Lemma requantified_none n O r max greedy t :
  (forall input s, code_units input -> fresh n O s -> meaning ignoreCase multiline input n (Repeat r 0 max greedy) s = [s]) ->
  requantified n O r 0 max greedy t [].
Proof.
  intros Hid. split; [intros Q _ _ x Hx; by apply elem_of_nil in Hx | intros _ x Hx; by apply elem_of_nil in Hx | lia | intros (x & Hx & _); by apply elem_of_nil in Hx | set_solver |].
  intros input s Hi Hf. by rewrite Hid.
Qed.

(** The terms of a quantified atom. *)
Lemma quantified_any n O r t min max greedy a a1 :
  atom_term n O r t -> result n O (fun input => meaning ignoreCase multiline input n r) (has_bol r) (bol_safe r) a a1 [t] ->
  (forall k, k ∈ O -> k <= n) -> 0 <= min <= max -> min < quantifyInfinite -> max <= quantifyInfinite ->
  exists ts, quantified_terms min max greedy t = Ok ts /\ requantified n O r min max greedy t ts.
Proof.
  intros Ht Hres HO Hle Hfin Hmax. destruct (decide (max = 0)) as [-> | Hnz].
  - exists []. split; [done |]. assert (min = 0) as -> by lia. apply requantified_none. intros input s _ _.
    rewrite meaning_repeat. cbv zeta. simpl iter. cbn [mbind list_bind]. by rewrite app_nil_r, repeated_none.
  - destruct (is_look r) eqn:Hl.
    2:{ assert (term_ok any t) as Hany by (apply (re_ok _ _ _ _ _ _ _ _ Hres); set_solver). exact (quantified_plain n O r t min max greedy Ht Hl HO Hany Hle Hfin Hmax Hnz). }
    destruct r as [| | | | | | | | invert alts |]; try done. destruct (at_look _ _ _ _ Ht eq_refl) as [p Hp].
    exists (if min =? 0 then [] else [t]). split; [unfold quantified_terms; by rewrite (proj2 (Z.eqb_neq max 0)), Hp |].
    destruct (Z.eqb_spec min 0) as [-> | Hz].
    + apply requantified_none. intros input s Hi Hf. by rewrite (repeat_look n O) by (done || lia).
    + split; [intros Q _ HQ; by apply (singles_ok Q t) | by intros Hct x ->%list_elem_of_singleton | done | by intros (x & ->%list_elem_of_singleton & Hall) |
        intros x Hx%list_elem_of_singleton _; by left |].
      intros input s Hi Hf. rewrite (repeat_look n O) by (done || lia). rewrite (proj2 (Z.eqb_neq min 0)) by done. by apply Hres.
Qed.

Lemma builds_repeat r min max greedy : builds r -> builds (Repeat r min max greedy).
Proof.
  intros Hb c (Hat & Hok & Hle & Hfin & Hmax) Hr Hn. change (captures (Repeat r min max greedy)) with (captures r) in *.
  destruct (Hb c Hok Hr Hn) as (c1 & ts1 & Hrun & Hext & Hres & Hatom). destruct (Hatom Hat) as (t & -> & Ht).
  pose proof Hext as [X1 X2 X3 X4 X5]. assert (forall k, k ∈ open_ids c -> k <= num c) as HO by apply Hr.
  destruct (quantified_any _ _ r t min max greedy _ _ Ht Hres HO Hle Hfin Hmax) as (ts & Hts & Hrq).
  exists (with_terms (m_terms (m_alternative c) ++ ts) c1), ts. split; [| split; [by eapply extends_with | split; [| done]]].
  - simpl calls. rewrite foldl_app, Hrun. simpl. by rewrite (quantifyAtom_terms (num c) (open_ids c) r min max greedy c1 t _ X3 Ht), Hts by lia.
  - apply (result_quantified _ _ r t); [done | lia | done].
Qed.

Theorem builds_all r : builds r.
Proof.
  induction r as [r Hr | capture alts IH | invert alts IH | r min max greedy IH] using regex_nested.
  - destruct r; try done; [apply builds_bol | apply builds_eol | apply builds_boundary | apply builds_char | apply builds_builtin | apply builds_class | apply builds_backref].
  - by apply builds_group.
  - by apply builds_look.
  - by apply builds_repeat.
Qed.
End build.
