(* ===== verification/YarrSyntax.v ===== *)
(** * The calls of the parser are those of a regular expression

    A trace that the protocol of [YarrProof] accepts and that leaves nothing
    open is [calls_of] some pattern. *)

From stdpp Require Import base numbers list.
From S2P Require Import Prelude Ctype Yarr YarrProof YarrSim YarrPattern YarrMatch YarrRegex.

#[local] Open Scope Z_scope.

(** A disjunction that is being read: the alternatives before, and the current one. *)
Record level := mk_level { lv_alternatives : list (list regex); lv_current : list regex }.

Inductive opening := Open_group (capture : bool) | Open_look (invert : bool).

Definition opening_call (o : opening) : event :=
  match o with Open_group capture => EvSubpatternBegin capture | Open_look invert => EvAssertionBegin invert end.
Definition enclose (o : opening) (alts : list (list regex)) : regex :=
  match o with Open_group capture => Group capture alts | Open_look invert => Look invert alts end.

Definition level_calls (l : level) : list event := calls_of (lv_alternatives l ++ [lv_current l]).
Fixpoint stack_calls (stack : list (opening * level)) : list event :=
  match stack with
  | [] => []
  | (o, l) :: stack' => stack_calls stack' ++ level_calls l ++ [opening_call o]
  end.
Definition class_calls (class : option (bool * list member)) : list event :=
  match class with Some (invert, members) => EvClassBegin invert :: map member_call members | None => [] end.

Definition level_ok (l : level) : Prop := alternatives_of regex_ok (lv_alternatives l) /\ all_of regex_ok (lv_current l).

(** The trace [t] in the state [s] of the protocol. *)
Record reading (t : list event) (s : proto) (stack : list (opening * level)) (l : level) (class : option (bool * list member)) : Prop := mk_reading {
  rg_calls : t = stack_calls stack ++ level_calls l ++ class_calls class;
  rg_depth : p_depth s = length stack;
  rg_class : p_class s = bool_decide (is_Some class);
  rg_atom : p_atom s = true -> exists before r, lv_current l = before ++ [r] /\ is_atom r = true;
  rg_ok : level_ok l /\ Forall (fun x => level_ok x.2) stack;
  rg_members : forall invert members, class = Some (invert, members) -> Forall member_ok members
}.

Lemma all_of_app P l1 l2 : all_of P (l1 ++ l2) <-> all_of P l1 /\ all_of P l2.
Proof. induction l1 as [| r l1 IH]; simpl; [tauto |]. rewrite IH. tauto. Qed.

Lemma alternatives_of_app P l1 l2 : alternatives_of P (l1 ++ l2) <-> alternatives_of P l1 /\ alternatives_of P l2.
Proof. induction l1 as [| a l1 IH]; simpl; [tauto |]. rewrite IH. tauto. Qed.

Lemma concat_app a r : concat_calls calls (a ++ [r]) = concat_calls calls a ++ calls r.
Proof. induction a as [| x a IH]; simpl; [by rewrite app_nil_r |]. by rewrite IH, app_assoc. Qed.

(** Another part, or another alternative, at the end. *)
Lemma calls_of_snoc alts a b :
  calls_of (alts ++ [a]) ++ b = calls_of alts ++ (match alts with [] => [] | _ => [EvDisjunction] end) ++ concat_calls calls a ++ b.
Proof.
  induction alts as [| x alts IH]; [simpl; by rewrite app_nil_r |]. unfold calls_of in *. cbn [app separated_calls].
  rewrite <- !app_assoc. f_equal. destruct alts as [| y alts]; cbn [app separated_calls] in *; [by rewrite app_nil_r |].
  f_equal. rewrite IH. by rewrite <- app_assoc.
Qed.

Lemma level_add l r : level_calls (mk_level (lv_alternatives l) (lv_current l ++ [r])) = level_calls l ++ calls r.
Proof.
  unfold level_calls. simpl. rewrite <- (app_nil_r (calls_of _)). rewrite !calls_of_snoc, concat_app, app_nil_r. done.
Qed.

Lemma level_disjunction l : level_calls (mk_level (lv_alternatives l ++ [lv_current l]) []) = level_calls l ++ [EvDisjunction].
Proof.
  unfold level_calls. simpl. rewrite <- (app_nil_r (calls_of (_ ++ [[]]))). rewrite calls_of_snoc. simpl. rewrite app_nil_r.
  by destruct (lv_alternatives l ++ [lv_current l]) eqn:E; [destruct (lv_alternatives l) |].
Qed.

Lemma level_ok_add l r : level_ok l -> regex_ok r -> level_ok (mk_level (lv_alternatives l) (lv_current l ++ [r])).
Proof. intros [H1 H2] Hr. split; [done |]. simpl. rewrite all_of_app. simpl. tauto. Qed.

Section step.
Context (limit : Z) (Hlimit : limit <= quantifyInfinite).

(** A new part [r] that is not in a class. *)
Lemma reading_add t s stack l r e atom :
  reading t s stack l None -> calls r = [e] -> regex_ok r -> (atom = true -> is_atom r = true) ->
  reading (t ++ [e]) (mk_proto (p_depth s) false atom) stack (mk_level (lv_alternatives l) (lv_current l ++ [r])) None.
Proof.
  intros [H1 H2 H3 H4 [H5 H6] H7] He Hr Ha. split; [| done | done | | | done].
  - rewrite H1, level_add, He. simpl. rewrite !app_nil_r. by rewrite <- app_assoc.
  - intros Hat. exists (lv_current l), r. split; [done | by apply Ha].
  - split; [by apply level_ok_add | done].
Qed.

Lemma reading_open t s stack l o :
  reading t s stack l None ->
  reading (t ++ [opening_call o]) (mk_proto (S (p_depth s)) false false) ((o, l) :: stack) (mk_level [] []) None.
Proof.
  intros [H1 H2 H3 H4 [H5 H6] H7]. split; [| simpl; lia | done | done | | done].
  - rewrite H1. simpl. rewrite !app_nil_r. by rewrite <- app_assoc.
  - split; [by split | by constructor].
Qed.

Lemma reading_close t s stack l o l' :
  reading t s ((o, l') :: stack) l None ->
  reading (t ++ [EvParenthesesEnd]) (mk_proto (length stack) false true) stack
    (mk_level (lv_alternatives l') (lv_current l' ++ [enclose o (lv_alternatives l ++ [lv_current l])])) None.
Proof.
  intros [H1 H2 H3 H4 [[H5 H5'] H6] H7]. apply Forall_cons in H6 as [H6 H8]. split; [| done | done | | | done].
  - rewrite H1, level_add. simpl. rewrite !app_nil_r, <- !app_assoc. do 2 f_equal.
    destruct o; simpl; fold (calls_of (lv_alternatives l ++ [lv_current l])); done.
  - intros _. eexists _, _. split; [done |]. by destruct o.
  - split; [| done]. apply level_ok_add; [done |]. assert (alternatives_of regex_ok (lv_alternatives l ++ [lv_current l])) as Ha
      by (apply alternatives_of_app; simpl; tauto).
    destruct o; simpl; (split; [by destruct (lv_alternatives l) | done]).
Qed.

Lemma reading_quantify t s stack l min max greedy :
  reading t s stack l None -> p_atom s = true -> 0 <= min <= max -> min < quantifyInfinite -> max <= quantifyInfinite ->
  exists l', reading (t ++ [EvQuantify min max greedy]) (mk_proto (p_depth s) false false) stack l' None.
Proof.
  intros [H1 H2 H3 H4 [[H5 H5'] H6] H7] Ha Hle Hmin Hmax. destruct (H4 Ha) as (before & r & Hl & Hat).
  exists (mk_level (lv_alternatives l) (before ++ [Repeat r min max greedy])). rewrite Hl, all_of_app in H5'. simpl in H5'. split; [| done | done | done | | done].
  - rewrite H1. pose proof (level_add (mk_level (lv_alternatives l) before) (Repeat r min max greedy)) as Hn.
    pose proof (level_add (mk_level (lv_alternatives l) before) r) as Ho. simpl in Hn, Ho. rewrite Hn.
    assert (level_calls l = level_calls (mk_level (lv_alternatives l) (before ++ [r]))) as -> by (rewrite <- Hl; by destruct l).
    rewrite Ho. simpl. rewrite !app_nil_r. by rewrite <- !app_assoc.
  - split; [| done]. split; [done |]. simpl. rewrite all_of_app. simpl. tauto.
Qed.

Lemma reading_step t s s' e stack l class :
  reading t s stack l class -> pstep limit s e = Some s' -> exists stack' l' class', reading (t ++ [e]) s' stack' l' class'.
Proof using Hlimit.
  intros Hr Hs. pose proof Hr as [H1 H2 H3 H4 H5 H6]. destruct class as [[invert members] |]; simpl in H3.
  - assert (forall m, member_ok m -> reading (t ++ [member_call m]) s stack l (Some (invert, members ++ [m]))) as Hmem.
    { intros m Hm. split; [| done | done | done | done |].
      - rewrite H1. simpl. rewrite map_app. simpl. by rewrite <- !app_assoc.
      - intros i ms [= <- <-]. apply Forall_app. split; [by eapply H6 | by repeat constructor]. }
    unfold pstep in Hs. rewrite H3 in Hs. destruct e; try done.
    + destruct (is_uchar ch) eqn:E; [| done]. injection Hs as <-. exists stack, l, (Some (invert, members ++ [Member_char ch])). by apply (Hmem (Member_char ch)).
    + destruct (is_uchar begin_ && is_uchar end_ && (begin_ <=? end_)) eqn:E; [| done]. injection Hs as <-.
      apply andb_true_iff in E as [[E1 E2]%andb_true_iff E3%Z.leb_le].
      exists stack, l, (Some (invert, members ++ [Member_range begin_ end_])). by apply (Hmem (Member_range begin_ end_)).
    + destruct (is_escape classID) eqn:E; [| done]. injection Hs as <-.
      exists stack, l, (Some (invert, members ++ [Member_class classID invert0])). apply (Hmem (Member_class classID invert0)). simpl. by intros ->.
    + injection Hs as <-. exists stack, (mk_level (lv_alternatives l) (lv_current l ++ [Class_ invert members])), None.
      split; [| done | done | | | done].
      * rewrite H1, level_add. simpl. rewrite !app_nil_r, <- !app_assoc. done.
      * intros _. eexists _, _. split; [done |]. done.
      * destruct H5 as [H5 H5']. split; [| done]. apply level_ok_add; [done |]. simpl. by eapply H6.
  - unfold pstep in Hs. rewrite H3 in Hs. destruct e; try done.
    + injection Hs as <-. eexists _, _, _. by apply (reading_add t s stack l Bol).
    + injection Hs as <-. eexists _, _, _. by apply (reading_add t s stack l Eol).
    + injection Hs as <-. eexists _, _, _. by apply (reading_add t s stack l (Boundary invert)).
    + destruct (is_uchar ch) eqn:E; [| done]. injection Hs as <-. eexists _, _, _. by apply (reading_add t s stack l (Char ch)).
    + injection Hs as <-. eexists _, _, _. by apply (reading_add t s stack l (BuiltIn classID invert)).
    + injection Hs as <-. exists stack, l, (Some (invert, [])). split; [| done | done | done | done |].
      * rewrite H1. simpl. rewrite !app_nil_r. by rewrite <- app_assoc.
      * by intros i ms [= <- <-].
    + injection Hs as <-. eexists _, _, _. by apply (reading_open t s stack l (Open_group capture)).
    + injection Hs as <-. eexists _, _, _. by apply (reading_open t s stack l (Open_look invert)).
    + destruct stack as [| [o l'] stack]; rewrite H2 in Hs; [done |]. injection Hs as <-. eexists _, _, _. by apply (reading_close t s).
    + destruct (_ && _) eqn:E; [| done]. injection Hs as <-. apply andb_true_iff in E as [E1%Z.leb_le E2%Z.leb_le].
      eexists _, _, _. apply (reading_add t s stack l (BackRef n)); [done | done | simpl; lia | done].
    + destruct (_ && _) eqn:E; [| done]. injection Hs as <-. zbool. destruct (reading_quantify t s stack l min max greedy) as [l' Hl']; [done | done | lia | lia | lia |].
      by eexists _, l', _.
    + injection Hs as <-. exists stack, (mk_level (lv_alternatives l ++ [lv_current l]) []), None. destruct H5 as [[H5 H5'] H7]. split; [| done | done | done | | done].
      * rewrite H1, level_disjunction. simpl. rewrite !app_nil_r. by rewrite <- app_assoc.
      * split; [| done]. split; [| done]. simpl. apply alternatives_of_app. simpl. tauto.
Qed.

Lemma trace_reading t s : prun limit t = Some s -> exists stack l class, reading t s stack l class.
Proof using Hlimit.
  revert s. induction t as [| e t IH] using rev_ind; intros s Hs.
  - injection Hs as <-. exists [], (mk_level [] []), None. by split.
  - unfold prun in Hs. rewrite foldl_snoc in Hs. fold (prun limit t) in Hs. destruct (prun limit t) as [s0 |]; [| done].
    destruct (IH s0 eq_refl) as (stack & l & class & Hr). by eapply reading_step.
Qed.

Theorem trace_calls t s : prun limit t = Some s -> p_depth s = O -> p_class s = false ->
  exists alts, pattern_ok alts /\ t = calls_of alts.
Proof using Hlimit.
  intros Hs Hd Hc. destruct (trace_reading t s Hs) as (stack & l & class & [H1 H2 H3 _ [[H5 H5'] _] _]).
  destruct stack; [| simpl in H2; congruence]. destruct class as [p |]; [rewrite Hc in H3; by destruct (bool_decide_eq_false_1 _ (eq_sym H3)) |].
  exists (lv_alternatives l ++ [lv_current l]). split; [split; [by destruct (lv_alternatives l) | apply alternatives_of_app; simpl; tauto] |].
  rewrite H1. simpl. by rewrite app_nil_r.
Qed.
End step.
