(* ===== verification/YarrCounts.v ===== *)
(** * What the calls of a parse count

    Every token opens at most one pair of parentheses, so the delegate sees no
    more of them than the loop over the tokens has rounds: the size of the
    pattern, which the parser bounds, keeps the counters of the constructor of
    patterns from wrapping.  And the number of captures does not depend on the
    limit of back references. *)

From Stdlib Require Import Ascii.
From stdpp Require Import base numbers list.
From S2P Require Import Prelude Ctype Yarr YarrProof YarrSim.

#[local] Open Scope Z_scope.

Definition is_open (e : event) : bool := match e with EvSubpatternBegin _ => true | _ => false end.
Definition opens (t : list event) : nat := length (List.filter is_open t).

Lemma opens_app t1 t2 : opens (t1 ++ t2) = (opens t1 + opens t2)%nat.
Proof. unfold opens. by rewrite List.filter_app, length_app. Qed.

Section opens.
Context (data : list Z) (limit : Z).

Abbreviation P := (Parser (list event)).
Abbreviation YM := (M yarr_fault P).

(** At most [k] parentheses are opened. *)
Definition grows (k : nat) {A} (m : YM A) : Prop :=
  forall p a p', m p = Ok (a, p') -> (opens (m_delegate p') <= opens (m_delegate p) + k)%nat.
Abbreviation quiet := (grows 0).

Lemma grows_mono k k' {A} (m : YM A) : (k <= k')%nat -> grows k m -> grows k' m.
Proof. intros Hk Hm p a p' H. specialize (Hm _ _ _ H). lia. Qed.

Lemma grows_bind k k' {A B} (m : YM A) (f : A -> YM B) : grows k m -> (forall a, grows k' (f a)) -> grows (k + k') (m ≫= f).
Proof.
  intros Hm Hf p b p' H. unfold mbind, M_bind in H. destruct (m p) as [[a p1] | e] eqn:E; [| done].
  specialize (Hm _ _ _ E). specialize (Hf _ _ _ _ H). lia.
Qed.
Lemma grows_before k {A B} (m : YM A) (f : A -> YM B) : quiet m -> (forall a, grows k (f a)) -> grows k (m ≫= f).
Proof. apply (grows_bind 0). Qed.
Lemma grows_after k {A B} (m : YM A) (f : A -> YM B) : grows k m -> (forall a, quiet (f a)) -> grows k (m ≫= f).
Proof. intros Hm Hf. apply (grows_mono (k + 0)); [lia |]. by apply grows_bind. Qed.

Lemma quiet_ret {A} (a : A) : quiet (mret a).
Proof. intros p a' p' [= -> ->]. lia. Qed.
Lemma quiet_fail {A} e : quiet (mfail e : YM A).
Proof. by intros p a p' [=]. Qed.
Lemma quiet_of_opt {A} e (o : option A) : quiet (of_opt e o : YM A).
Proof. destruct o; [apply quiet_ret | apply quiet_fail]. Qed.
Lemma quiet_gets {A} (f : P -> A) : quiet (mgets f).
Proof. intros p a p' [= _ ->]. lia. Qed.
Lemma quiet_mod (f : P -> P) : (forall p, m_delegate (f p) = m_delegate p) -> quiet (mmod f).
Proof. intros Hf p a p' [= _ <-]. rewrite Hf. lia. Qed.

(** A call appends its event. *)
Lemma grows_emit k (f : list event -> list event) e :
  (forall t, f t = t ++ [e]) -> (opens [e] <= k)%nat -> grows k (emit f).
Proof. intros Hf He p a p' [= _ <-]. simpl. rewrite Hf, opens_app. lia. Qed.

Create HintDb quiet.
Ltac quiet_step :=
  first
    [ assumption
    | solve [eapply grows_emit; [intros ?; reflexivity | apply Nat.le_refl]]
    | solve [auto with quiet nocore]
    | apply quiet_ret | apply quiet_fail | apply quiet_of_opt
    | apply grows_before; [| intros ?]
    | apply quiet_gets
    | apply quiet_mod; reflexivity
    | match goal with |- context [match ?x with _ => _ end] => destruct x end ].
Ltac quiets := repeat quiet_step.
Ltac quiet_def c := unfold c; quiets.

(** ** The readers *)

Lemma quiet_assert b : quiet (y_assert b).
Proof. quiet_def @y_assert. Qed.
Lemma quiet_throw e : quiet (throw e).
Proof. quiet_def @throw. Qed.
Lemma quiet_no_error : quiet no_error.
Proof. quiet_def @no_error. Qed.
Hint Resolve quiet_assert quiet_throw quiet_no_error : quiet.
Lemma quiet_assert_no_error : quiet assert_no_error.
Proof. quiet_def @assert_no_error. Qed.
Lemma quiet_save : quiet saveState.
Proof. quiet_def @saveState. Qed.
Lemma quiet_restore s : quiet (restoreState s).
Proof. quiet_def @restoreState. Qed.
Lemma quiet_end : quiet (atEndOfPattern data).
Proof. quiet_def @atEndOfPattern. Qed.
Lemma quiet_peek : quiet (peek data).
Proof. quiet_def @peek. Qed.
Lemma quiet_consume : quiet (consume data).
Proof. quiet_def @consume. Qed.
Hint Resolve quiet_assert_no_error quiet_save quiet_restore quiet_end quiet_peek quiet_consume : quiet.
Lemma quiet_isDigit : quiet (peekIsDigit data).
Proof. quiet_def @peekIsDigit. Qed.
Hint Resolve quiet_isDigit : quiet.
Lemma quiet_peekDigit : quiet (peekDigit data).
Proof. quiet_def @peekDigit. Qed.
Lemma quiet_consumeDigit : quiet (consumeDigit data).
Proof. quiet_def @consumeDigit. Qed.
Hint Resolve quiet_peekDigit quiet_consumeDigit : quiet.
Lemma quiet_number_loop fuel : forall n, quiet (consumeNumber_loop data fuel n).
Proof. induction fuel; intros n; cbn [consumeNumber_loop]; quiets. Qed.
Lemma quiet_octal_loop fuel : forall n, quiet (consumeOctal_loop data fuel n).
Proof. induction fuel; intros n; cbn [consumeOctal_loop]; quiets. Qed.
Lemma quiet_hex_loop count s : forall n, quiet (tryConsumeHex_loop data count s n).
Proof. induction count; intros n; cbn [tryConsumeHex_loop]; quiets. Qed.
Hint Resolve quiet_number_loop quiet_octal_loop quiet_hex_loop : quiet.
Lemma quiet_number : quiet (consumeNumber data).
Proof. quiet_def @consumeNumber. Qed.
Lemma quiet_octal : quiet (consumeOctal data).
Proof. quiet_def @consumeOctal. Qed.
Lemma quiet_try ch : quiet (tryConsume data ch).
Proof. quiet_def @tryConsume. Qed.
Lemma quiet_hex count : quiet (tryConsumeHex data count).
Proof. quiet_def @tryConsumeHex. Qed.
Hint Resolve quiet_number quiet_octal quiet_try quiet_hex : quiet.

(** ** Classes and escapes *)

Lemma quiet_flush : quiet flush_character.
Proof. quiet_def @flush_character. Qed.
Lemma quiet_state s : quiet (set_class_state s).
Proof. quiet_def @set_class_state. Qed.
Hint Resolve quiet_flush quiet_state : quiet.
Lemma quiet_class_char ch r : quiet (class_atomPatternCharacter ch r).
Proof. quiet_def @class_atomPatternCharacter. Qed.
Lemma quiet_class_builtin i b : quiet (class_atomBuiltInCharacterClass i b).
Proof. quiet_def @class_atomBuiltInCharacterClass. Qed.
Lemma quiet_class_end : quiet class_end.
Proof. quiet_def @class_end. Qed.
Lemma quiet_class_begin b : quiet (class_begin b).
Proof. quiet_def @class_begin. Qed.
Hint Resolve quiet_class_char quiet_class_builtin quiet_class_end quiet_class_begin : quiet.

Record quiet_del (del : EscapeDelegate YM) : Prop := {
  qd_char ch : quiet (e_atomPatternCharacter del ch);
  qd_builtin i b : quiet (e_atomBuiltInCharacterClass del i b);
  qd_boundary b : quiet (e_assertionWordBoundary del b);
  qd_back n : quiet (e_atomBackReference del n)
}.
Hint Resolve qd_char qd_builtin qd_boundary qd_back : quiet.

Lemma quiet_escape cc del : quiet_del del -> quiet (parseEscape data limit cc del).
Proof.
  intros Hdel. assert (quiet (escape_octal data del)) by quiet_def @escape_octal.
  unfold parseEscape, escape_switch, escape_boundary, escape_class, escape_char, escape_hex, escape_control, escape_decimal.
  quiets.
Qed.

Lemma quiet_member : quiet_del member_delegate.
Proof. split; intros; simpl; quiets. Qed.
Lemma quiet_class : quiet_del class_delegate.
Proof. split; intros; simpl; quiets. Qed.
Hint Resolve quiet_escape quiet_member quiet_class : quiet.

(** ** Tokens *)

Lemma quiet_class_loop fuel : quiet (parseCharacterClass_loop data limit fuel).
Proof. induction fuel; cbn [parseCharacterClass_loop]; unfold parseCharacterClassEscape; quiets. Qed.
Hint Resolve quiet_class_loop : quiet.
Lemma quiet_parseCharacterClass : quiet (parseCharacterClass data limit).
Proof. quiet_def @parseCharacterClass. Qed.
Lemma quiet_parseParenthesesEnd : quiet (parseParenthesesEnd data).
Proof. quiet_def @parseParenthesesEnd. Qed.
Lemma quiet_parseQuantifier b min max : quiet (parseQuantifier data b min max).
Proof. quiet_def @parseQuantifier. Qed.
Lemma quiet_plain : quiet (plain_character data).
Proof. quiet_def @plain_character. Qed.
Hint Resolve quiet_parseCharacterClass quiet_parseParenthesesEnd quiet_parseQuantifier quiet_plain : quiet.
Lemma quiet_parseBraces b : quiet (parseBraces data b).
Proof. quiet_def @parseBraces. Qed.
Lemma quiet_parseAtomEscape : quiet (parseAtomEscape data limit).
Proof. quiet_def @parseAtomEscape. Qed.
Hint Resolve quiet_parseBraces quiet_parseAtomEscape : quiet.

(** The one token that is not quiet. *)
Ltac grows_step :=
  first
    [ assumption
    | solve [eapply grows_emit; [intros ?; reflexivity | apply Nat.le_refl]]
    | solve [apply (grows_mono 0); [lia | quiets]]
    | apply grows_before; [solve [quiets] | intros ?]
    | apply grows_after; [| intros ?; solve [quiets]]
    | match goal with |- context [match ?x with _ => _ end] => destruct x end ].
Ltac growing := repeat grows_step.

Lemma grows_parseParenthesesBegin : grows 1 (parseParenthesesBegin data).
Proof. unfold parseParenthesesBegin. growing. Qed.

Lemma grows_parseToken b c : grows 1 (parseToken data limit b c).
Proof. pose proof grows_parseParenthesesBegin. unfold parseToken. growing. Qed.

Lemma grows_tokens fuel : forall b, grows fuel (parseTokens_loop data limit fuel b).
Proof.
  induction fuel as [| fuel IH]; intros b; cbn [parseTokens_loop]; [apply quiet_fail |].
  apply grows_before; [quiets | intros e]. destruct e; [apply (grows_mono 0); [lia | unfold mwhen; quiets] |].
  apply grows_before; [quiets | intros c]. apply (grows_bind 1); [apply grows_parseToken |]. intros atom.
  apply grows_before; [quiets | intros ok]. destruct ok; [apply IH | apply (grows_mono 0); [lia | quiets]].
Qed.

(** The parser refuses longer patterns. *)
Lemma parse_opens e t : parse [] data limit = Ok (e, t) -> Z.of_nat (opens t) <= MAX_PATTERN_SIZE + 1.
Proof.
  destruct (Z_of_nat_complete (MAX_PATTERN_SIZE + 1)) as [N HN]; [by unfold MAX_PATTERN_SIZE |].
  assert (grows N (parse_pattern data limit)) as Hg.
  { unfold parse_pattern. apply grows_after; [| intros []; quiets].
    destruct (MAX_PATTERN_SIZE <? m_size data) eqn:Hs; [apply (grows_mono 0); [lia | quiets] |].
    unfold parseTokens. apply Z.ltb_ge in Hs. unfold loop_fuel. eapply grows_mono; [| apply grows_tokens]. unfold m_size in Hs. lia. }
  unfold parse. intros H. destruct (parse_pattern data limit (init_parser [])) as [[e' p] | f] eqn:E; [| done].
  injection H as <- <-. specialize (Hg _ _ _ E). change (opens (m_delegate (init_parser []))) with O in Hg. lia.
Qed.

End opens.

(** ** Captures and back references *)

(** The number of capturing parentheses alone, as a delegate. *)
#[local] Instance CaptureDelegate : Delegate Z := {|
  assertionBOL := fun d => d;
  assertionEOL := fun d => d;
  assertionWordBoundary := fun _ d => d;
  atomPatternCharacter := fun _ d => d;
  atomBuiltInCharacterClass := fun _ _ d => d;
  atomCharacterClassBegin := fun _ d => d;
  atomCharacterClassAtom := fun _ d => d;
  atomCharacterClassRange := fun _ _ d => d;
  atomCharacterClassBuiltIn := fun _ _ d => d;
  atomCharacterClassEnd := fun d => d;
  atomParenthesesSubpatternBegin := fun capture d => if capture then u32 (d + 1) else d;
  atomParentheticalAssertionBegin := fun _ d => d;
  atomParenthesesEnd := fun d => d;
  atomBackReference := fun _ d => d;
  quantifyAtom := fun _ _ _ d => d;
  disjunction := fun d => d
|}.

(** Both parses of [compile] count the same captures. *)
Lemma counts_limit data L1 L2 :
  Forall (fun c => is_uchar c = true) data ->
  exists e c1 c2, parse reset data L1 = Ok (e, c1) /\ parse reset data L2 = Ok (e, c2) /\
    m_numSubpatterns c1 = m_numSubpatterns c2.
Proof.
  intros Hdata.
  assert (forall e c, m_numSubpatterns (run_event c e) = run_event (m_numSubpatterns c) e) as Hhom.
  { intros [] c; try done. simpl. by destruct capture. }
  pose proof (parse_hom m_numSubpatterns reset data L1 Hhom) as H1.
  pose proof (parse_hom m_numSubpatterns reset data L2 Hhom) as H2.
  rewrite (parse_limit (HD := CaptureDelegate) (fun _ _ => eq_refl) (fun _ _ => eq_refl) data Hdata _ L1 L2) in H1.
  destruct (parse_trace data L1 Hdata) as (e1 & t1 & _ & Ht1 & _).
  destruct (parse_trace data L2 Hdata) as (e2 & t2 & _ & Ht2 & _).
  rewrite (parse_fold reset data L1), Ht1 in *. rewrite (parse_fold reset data L2), Ht2 in *.
  rewrite H1 in H2. simplify_eq. eauto 10.
Qed.

(** Back references within the limit keep the maximum within it. *)
Lemma max_reference limit t s :
  0 <= limit -> prun limit t = Some s -> m_maxBackReference (foldl run_event reset t) <= limit.
Proof.
  intros Hl. revert s. induction t as [|e t IH] using rev_ind; intros s Hs; [done |].
  unfold prun in Hs. rewrite foldl_snoc. rewrite foldl_snoc in Hs. fold (prun limit t) in Hs.
  destruct (prun limit t) as [s'|] eqn:Et; [| done]. specialize (IH _ eq_refl).
  destruct e; simpl in *; try done.
  - by destruct capture.
  - destruct (p_class s'); [done |]. destruct (_ && _) eqn:Hb; [| done]. zbool. lia.
Qed.

(** The maximum is one. *)
Lemma reference_counted t n : EvBackReference n ∈ t -> n <= m_maxBackReference (foldl run_event reset t).
Proof.
  induction t as [| e t IH] using rev_ind; intros Hn; [by apply elem_of_nil in Hn |]. rewrite foldl_snoc.
  apply elem_of_app in Hn as [Hn | <-%list_elem_of_singleton]; [specialize (IH Hn) | simpl; lia].
  destruct e; simpl; try done; [by destruct capture | lia].
Qed.
