(* ===== verification/YarrConstruct.v ===== *)
(** * The constructor of patterns on the calls of a parse

    On every trace the parser produces, that of a syntax error included,
    [YarrPatternConstructor] does not fault; without an error the tree it
    leaves means what the regular expression means that the trace reads. *)

From Stdlib Require Import Ascii.
From stdpp Require Import base numbers list sets gmap.
From S2P Require Import Prelude Ctype Yarr YarrProof YarrSim YarrCanonicalize YarrClass YarrClassProof YarrPattern YarrMatch YarrRegex YarrMatchProof YarrTree YarrBuild YarrSyntax YarrCounts.

#[local] Open Scope Z_scope.

(** ** Captures and calls *)

Lemma opens_cons e t : opens (e :: t) = (opens [e] + opens t)%nat.
Proof. apply (opens_app [e]). Qed.

Lemma separated_opens (count : list regex -> Z) f alts :
  (forall a, a ∈ alts -> count a <= Z.of_nat (opens (f a))) -> sum_of count alts <= Z.of_nat (opens (separated_calls f alts)).
Proof.
  induction alts as [| a alts IH]; intros Ha; [done |]. cbn [sum_of separated_calls]. rewrite opens_app.
  pose proof (Ha a ltac:(set_solver)). specialize (IH ltac:(set_solver)). destruct alts as [| b alts]; [simpl in *; lia |].
  rewrite opens_cons. lia.
Qed.

Lemma concat_opens a : (forall r, r ∈ a -> captures r <= Z.of_nat (opens (calls r))) -> sum_of captures a <= Z.of_nat (opens (concat_calls calls a)).
Proof.
  induction a as [| r a IH]; intros Hr; [done |]. cbn [sum_of concat_calls]. rewrite opens_app.
  pose proof (Hr r ltac:(set_solver)). specialize (IH ltac:(set_solver)). lia.
Qed.

Lemma captures_opens r : captures r <= Z.of_nat (opens (calls r)).
Proof.
  assert (forall alts, Forall (Forall (fun r => captures r <= Z.of_nat (opens (calls r)))) alts ->
    sum_of (sum_of captures) alts <= Z.of_nat (opens (separated_calls (concat_calls calls) alts))) as Halts.
  { intros alts Ha. rewrite Forall_forall in Ha. apply separated_opens. intros a Hin. apply concat_opens. intros r' Hr'.
    specialize (Ha a Hin). rewrite Forall_forall in Ha. by apply Ha. }
  induction r as [r Hr | capture alts IH | invert alts IH | r min max greedy IH] using regex_nested; cbn [captures calls].
  - destruct r; try done; simpl; lia.
  - rewrite opens_cons, opens_app. specialize (Halts alts IH). destruct capture; [change (opens [EvSubpatternBegin true]) with 1%nat |]; lia.
  - rewrite opens_cons, opens_app. specialize (Halts alts IH). lia.
  - rewrite opens_app. lia.
Qed.

Lemma captures_of_opens alts : captures_of alts <= Z.of_nat (opens (calls_of alts)).
Proof. apply separated_opens. intros a _. apply concat_opens. intros r _. apply captures_opens. Qed.

(** ** The parses of [YarrPattern::compile] *)

(** The calls of the parse that builds the pattern: the first one, or the second
    one if a back reference is beyond the captures. *)
Definition accepted_trace (data : list Z) : option (list event) :=
  match parse [] data quantifyInfinite with
  | Ok (NoError, t) =>
      let c := foldl run_event reset t in
      if containsIllegalBackReference c then
        match parse [] data (m_numSubpatterns c) with Ok (NoError, t') => Some t' | _ => None end
      else Some t
  | _ => None
  end.

(** The parser reads [data] as [alts]. *)
Definition reads (data : list Z) (alts : list (list regex)) : Prop := accepted_trace data = Some (calls_of alts) /\ pattern_ok alts.

(** ** Runs *)

Section run.
Context `{BuiltInClassesOk} (ignoreCase multiline : bool).

Abbreviation run := (foldl (run_event (D := PR YarrPatternConstructor))).
Abbreviation ready := (ready ignoreCase multiline).

Lemma builds_alternatives alts : Forall (Forall (builds ignoreCase multiline)) alts.
Proof. apply Forall_forall. intros a _. apply Forall_forall. intros r _. apply builds_all. Qed.

(** At the start of a disjunction. *)
Definition starting (c : YarrPatternConstructor) : Prop := ready c /\ m_alternative c = new_alternative.

(** The run on [t] leaves a constructor that opened no more than [t] does. *)
Definition runs (P : YarrPatternConstructor -> Prop) (c : YarrPatternConstructor) (t : list event) : Prop :=
  exists c', run (Ok c) t = Ok c' /\ P c' /\ num c' <= num c + Z.of_nat (opens t).

Lemma runs_app P Q c t1 t2 : runs P c t1 -> (forall c1, P c1 -> num c1 <= num c + Z.of_nat (opens t1) -> runs Q c1 t2) -> runs Q c (t1 ++ t2).
Proof.
  intros (c1 & H1 & HP & Hn) Hq. destruct (Hq c1 HP Hn) as (c2 & H2 & HQ & Hn2). exists c2. rewrite foldl_app, H1, opens_app.
  split; [done |]. split; [done | lia].
Qed.

Lemma run_level l c : level_ok l -> starting c -> num c + Z.of_nat (opens (level_calls l)) < 2 ^ 32 - 1 -> runs ready c (level_calls l).
Proof.
  intros [H1 H2] [Hr Hn] Hlt. set (alts := lv_alternatives l ++ [lv_current l]). pose proof (captures_of_opens alts) as Hc.
  change (level_calls l) with (calls_of alts) in *.
  destruct (build_alternatives ignoreCase multiline alts (builds_alternatives alts)) with (c := c) as (c' & _ & Hrun & _ & Hnum & Hr' & _).
  - unfold alts. by destruct (lv_alternatives l).
  - apply alternatives_of_app. simpl. tauto.
  - done.
  - done.
  - lia.
  - exists c'. split; [done |]. split; [done | lia].
Qed.

Lemma starting_open c t : ready c -> num c + 1 < 2 ^ 32 -> is_Some (parentheses_of t) ->
  (forall k, k ∈ open_id (mk_frame [] (append_term t new_alternative)) -> k <= num c) -> starting (Constructor.open t c).
Proof.
  intros [R1 R2 R3 R4 R5 R6] Hlt Hp Hid. split; [| done]. split; [done | done | done | | done |].
  - constructor; [| done]. exists t. split; [apply last_snoc | done].
  - intros k Hk. unfold open_ids in Hk. simpl in Hk. apply elem_of_app in Hk as [Hk | Hk]; [| by apply R6].
    apply Hid. unfold open_id in *. simpl in *. by rewrite last_snoc in Hk.
Qed.

Lemma run_opening o c : ready c -> num c + 1 < 2 ^ 32 -> runs starting c [opening_call o].
Proof.
  intros Hr Hlt. pose proof (rd_num _ _ _ Hr) as Hn. destruct o as [capture | invert]; eexists; (split; [reflexivity |]).
  - assert (m_numSubpatterns (count_subpattern capture (m_counts (m_pattern c))) = if capture then num c + 1 else num c) as Hcount.
    { destruct capture; [| done]. change (u32 (num c + 1) = num c + 1). apply u32_id. lia. }
    split; [| unfold num at 1; simpl; rewrite Hcount; destruct capture; change (opens [EvSubpatternBegin _]) with 1%nat; lia].
    assert (ready (c <| m_pattern := (m_pattern c) <| m_counts := count_subpattern capture (m_counts (m_pattern c)) |> |>)) as Hr'.
    { destruct Hr as [R1 R2 R3 R4 R5 R6]. split; [done | done | done | done | |]; unfold num; simpl; rewrite Hcount.
      - destruct capture; lia.
      - intros k Hk. specialize (R6 k Hk). destruct capture; lia. }
    set (c1 := c <| m_pattern := _ |>) in *. assert (num c1 = if capture then num c + 1 else num c) as Hn1 by done.
    split; [| done]. destruct Hr' as [R1 R2 R3 R4 R5 R6]. split; [done | done | done | | done |].
    + constructor; [| done]. eexists. split; [apply last_snoc | by eexists].
    + intros k Hk. change (num _) with (num c1). unfold open_ids in Hk. simpl in Hk. apply elem_of_app in Hk as [Hk | Hk]; [| by apply R6].
      unfold open_id in Hk. simpl in Hk. rewrite last_snoc in Hk. simpl in Hk. change (m_numSubpatterns (m_counts (m_pattern c))) with (num c) in Hk.
      rewrite u32_id in Hk by lia. destruct capture; [| by apply elem_of_nil in Hk]. apply list_elem_of_singleton in Hk as ->. lia.
  - split; [| change (num c <= num c + 0); lia].
    destruct (starting_open c (new_term (TypeParentheticalAssertion (Constructor.new_parentheses (u32 (num c + 1)))) false invert) Hr Hlt) as [H1 H2];
      [by eexists | intros k Hk; by apply elem_of_nil in Hk |].
    destruct H1 as [R1 R2 R3 R4 R5 R6]. split; [by split | done].
Qed.

Lemma run_stack stack c : Forall (fun x => level_ok x.2) stack -> starting c ->
  num c + Z.of_nat (opens (stack_calls stack)) < 2 ^ 32 - 1 -> runs starting c (stack_calls stack).
Proof.
  intros Hok Hs. induction stack as [| [o l] stack IH]; intros Hlt; [exists c; split; [done |]; split; [done | lia] |].
  apply Forall_cons in Hok as [Hl Hok]. cbn [stack_calls] in *. rewrite !opens_app in Hlt.
  apply (runs_app starting); [apply IH; [done | lia] |]. intros c1 Hs1 Hn1.
  apply (runs_app ready); [apply run_level; [done | done | lia] |]. intros c2 Hr2 Hn2. apply run_opening; [done | lia].
Qed.

Lemma run_class class c : (forall invert members, class = Some (invert, members) -> Forall member_ok members) -> ready c ->
  runs (fun _ => True) c (class_calls class).
Proof.
  intros Hm Hr. destruct class as [[invert members] |]; [| exists c; split; [done |]; split; [done | simpl; lia]].
  specialize (Hm _ _ eq_refl). cbn [class_calls]. pose proof (rd_class _ _ _ Hr) as Hc. set (c1 := c <| m_invertCharacterClass := Some invert |>).
  destruct (run_members ignoreCase members c1) as (cc & Hrun & _); [done | change (m_characterClassConstructor c1) with (m_characterClassConstructor c); by rewrite Hc | |].
  { change (m_characterClassConstructor c1) with (m_characterClassConstructor c). rewrite Hc. apply new_contents. }
  eexists. split; [simpl; exact Hrun |]. split; [done |]. change (num c <= num c + Z.of_nat (opens (EvClassBegin invert :: map member_call members))). lia.
Qed.

(** The trace of any parse, to its end or to an error. *)
Lemma run_trace limit t s c : limit <= quantifyInfinite -> prun limit t = Some s -> starting c ->
  num c + Z.of_nat (opens t) < 2 ^ 32 - 1 -> exists c', run (Ok c) t = Ok c'.
Proof.
  intros Hl Hs Hc Hlt. destruct (trace_reading limit Hl t s Hs) as (stack & l & class & [-> _ _ _ [Hok1 Hok2] Hm]).
  rewrite !opens_app in Hlt. destruct (runs_app starting (fun _ => True) c (stack_calls stack) (level_calls l ++ class_calls class)) as (c' & Hrun & _).
  - apply run_stack; [done | done | lia].
  - intros c1 Hs1 Hn1. apply (runs_app ready); [apply run_level; [done | done | lia] |]. intros c2 Hr2 Hn2. by apply run_class.
  - by exists c'.
Qed.

(** ** The tree of a pattern *)

(** The alternatives [l] are those of a tree for [alts]. *)
Definition tree_of (alts : list (list regex)) (l : list PatternAlternative) : Prop :=
  choice_result ignoreCase multiline 0 [] (fun input => meaning_of ignoreCase multiline input 0 alts)
    (any_of (any_of has_bol) alts) (every (every bol_safe) alts) l.

Lemma run_calls alts c : pattern_ok alts -> starting c -> m_before c = [] -> m_enclosing c = [] -> num c = 0 ->
  captures_of alts < 2 ^ 32 - 1 ->
  exists c', run (Ok c) (calls_of alts) = Ok c' /\ ready c' /\ num c' = captures_of alts /\ tree_of alts (m_before c' ++ [m_alternative c']).
Proof.
  intros [Hne Hok] [Hr Hnew] Hb He Hn Hlt.
  destruct (build_alternatives ignoreCase multiline alts (builds_alternatives alts) Hne c Hok Hr Hnew) as (c' & l & Hrun & E1 & E2 & E3 & E4 & Hch);
    [lia |]. exists c'. split; [done |]. split; [done |]. split; [lia |]. rewrite E4, Hb. unfold tree_of.
  assert (open_ids c = []) as Ho by (unfold open_ids; by rewrite He). by rewrite Hn, Ho in Hch.
Qed.

(** ** The counters *)

Abbreviation counts := (fun c => m_counts (m_pattern c)).

Lemma class_counts {A} (m : ClassM A) c a c' : Constructor.in_class m c = Ok (a, c') -> counts c' = counts c.
Proof. unfold Constructor.in_class. destruct (m _) as [[a' cc] |]; [by intros [= _ <-] | done]. Qed.

Lemma put_counts m c c' : Constructor.put_class m c = Ok c' -> counts c' = counts c.
Proof.
  unfold Constructor.put_class. destruct (Constructor.in_class m c) as [[a c1] |] eqn:E; [| done]. simpl. intros [= <-].
  by apply class_counts in E.
Qed.

Lemma add_class_counts invert c c' : Constructor.add_class invert c = Ok c' -> counts c' = counts c.
Proof.
  unfold Constructor.add_class. destruct (Constructor.in_class _ c) as [[a c1] |] eqn:E; [| done]. simpl. intros [= <-].
  by apply class_counts in E.
Qed.

Lemma bind_Ok {A B} (m : PR A) (f : A -> PR B) b : (m ≫= f) = Ok b -> exists a, m = Ok a /\ f a = Ok b.
Proof. destruct m as [a |]; [by exists a | done]. Qed.

(** The constructor counts like the counters alone. *)
Lemma event_counts e c c' : run_event (D := PR YarrPatternConstructor) (Ok c) e = Ok c' -> counts c' = run_event (counts c) e.
Proof.
  destruct e; cbn [run_event PatternDelegate CountsDelegate mbind PR_bind assertionBOL assertionEOL assertionWordBoundary atomPatternCharacter
    atomBuiltInCharacterClass atomCharacterClassBegin atomCharacterClassAtom atomCharacterClassRange atomCharacterClassBuiltIn atomCharacterClassEnd
    atomParenthesesSubpatternBegin atomParentheticalAssertionBegin atomParenthesesEnd atomBackReference quantifyAtom disjunction]; intros Hrun.
  - injection Hrun as <-. by destruct (_ && _).
  - by injection Hrun as <-.
  - by injection Hrun as <-.
  - revert Hrun. unfold Constructor.atomPatternCharacter. destruct (_ || _); [by intros [= <-] |].
    intros ([[info r] c1] & E & Hrun)%bind_Ok. apply class_counts in E. rewrite <- E. revert Hrun. case_bool_decide; [by intros [= <-] |].
    intros (c2 & E2 & Hrun)%bind_Ok. apply put_counts in E2. apply add_class_counts in Hrun. congruence.
  - by injection Hrun as <-.
  - by injection Hrun as <-.
  - by apply put_counts in Hrun.
  - by apply put_counts in Hrun.
  - unfold Constructor.atomCharacterClassBuiltIn in Hrun. by destruct classID; try apply put_counts in Hrun.
  - unfold Constructor.atomCharacterClassEnd in Hrun. destruct (m_invertCharacterClass c); [by apply add_class_counts in Hrun | done].
  - by injection Hrun as <-.
  - by injection Hrun as <-.
  - unfold Constructor.atomParenthesesEnd in Hrun. destruct (m_enclosing c) as [| f E]; [done |].
    apply bind_Ok in Hrun as (t & _ & Hrun). apply bind_Ok in Hrun as (t' & _ & Hrun). by injection Hrun as <-.
  - unfold Constructor.atomBackReference in Hrun. apply bind_Ok in Hrun as (_ & _ & Hrun). destruct (_ <? _) in Hrun; [by injection Hrun as <- |].
    apply bind_Ok in Hrun as (inside & _ & Hrun). by injection Hrun as <-.
  - unfold Constructor.quantifyAtom in Hrun. apply bind_Ok in Hrun as (_ & _ & Hrun). apply bind_Ok in Hrun as (_ & _ & Hrun).
    destruct (negb (truthy max)); [apply bind_Ok in Hrun as (a & _ & Hrun); by injection Hrun as <- |].
    apply bind_Ok in Hrun as (t & _ & Hrun). apply bind_Ok in Hrun as (_ & _ & Hrun). apply bind_Ok in Hrun as (_ & _ & Hrun).
    assert (forall r, (if min =? 0 then Ok (c <| m_alternative := Constructor.replaceLast (quantify max (if greedy then QuantifierGreedy else QuantifierNonGreedy) t) (m_alternative c) |>)
        else if min =? max then Ok (c <| m_alternative := Constructor.replaceLast (quantify min QuantifierFixedCount t) (m_alternative c) |>)
        else copy ← copyTerm false (quantify min QuantifierFixedCount t); Ok (c <| m_alternative := r copy |>)) = (Ok c' : PR YarrPatternConstructor) -> counts c' = counts c) as Hcase.
    { intros r. destruct (min =? 0); [by intros [= <-] |]. destruct (min =? max); [by intros [= <-] |].
      intros (copy & _ & Hr)%bind_Ok. by injection Hr as <-. }
    destruct (t_type t); try (by eapply (Hcase (fun copy => _))). destruct (negb (truthy min)); [| by injection Hrun as <-].
    apply bind_Ok in Hrun as (a & _ & Hrun). by injection Hrun as <-.
  - by injection Hrun as <-.
Qed.

Lemma run_counts t c c' : run (Ok c) t = Ok c' -> counts c' = foldl run_event (counts c) t.
Proof.
  revert c. induction t as [| e t IH]; intros c Hrun; [by injection Hrun as <- |]. cbn [foldl] in *.
  destruct (run_event (D := PR YarrPatternConstructor) (Ok c) e) as [c1 | f] eqn:E.
  - rewrite <- (event_counts e c c1 E). by apply IH.
  - exfalso. clear -Hrun. induction t as [| e t IH]; [done |]. apply IH. cbn [foldl] in Hrun. by destruct e.
Qed.

(** *** The constructor before a parse *)
Record initial (c : YarrPatternConstructor) : Prop := mk_initial {
  in_starting : starting c;
  in_before : m_before c = [];
  in_enclosing : m_enclosing c = [];
  in_counts : counts c = reset
}.

Lemma new_initial : initial (Constructor.new_constructor ignoreCase multiline).
Proof. split; [split; [split | done] | done | done | done]; [done | done | done | by constructor | done | intros k Hk; by apply elem_of_nil in Hk]. Qed.

Lemma reset_initial c : ready c -> initial (Constructor.reset c).
Proof.
  intros [R1 R2 R3 _ _ _]. split; [split; [split | done] | done | done | done]; [simpl; by rewrite R1 | done | done | by constructor | done |
    intros k Hk; by apply elem_of_nil in Hk].
Qed.

Context (data : list Z).
Hypothesis Hdata : Forall (fun c => is_uchar c = true) data.

(** The constructor after the calls [t], those of a regular expression if nothing is open. *)
Definition constructed (t : list event) (c : YarrPatternConstructor) : Prop :=
  (exists alts, pattern_ok alts /\ t = calls_of alts) /\
  forall alts, pattern_ok alts -> t = calls_of alts -> ready c /\ num c = captures_of alts /\ tree_of alts (m_before c ++ [m_alternative c]).

Lemma run_parser_ok c limit : initial c -> limit <= quantifyInfinite ->
  exists e t c', parse [] data limit = Ok (e, t) /\ run_parser c data limit = Ok (e, c') /\ counts c' = foldl run_event reset t /\
    is_Some (prun limit t) /\ (e = NoError -> constructed t c').
Proof using H0 Hdata.
  intros [I1 I2 I3 I4] Hl. destruct (parse_trace data limit Hdata) as (e & t & s & Ht & Hs & Hok).
  pose proof (parse_opens data limit e t Ht) as Hop. assert (num c = 0) as Hn by (unfold num; by rewrite I4).
  destruct (run_trace limit t s c Hl Hs I1) as [c' Hrun]; [rewrite Hn; unfold MAX_PATTERN_SIZE in Hop; lia |].
  exists e, t, c'. split; [done |]. split; [unfold run_parser; by rewrite parse_fold, Ht, Hrun |].
  split; [apply run_counts in Hrun; by rewrite Hrun, I4 |]. split; [by exists s |].
  intros He. destruct (Hok He) as [Hd Hc]. split; [by apply (trace_calls limit Hl t s) |]. intros alts Hp ->. pose proof (captures_of_opens alts) as Hco.
  destruct (run_calls alts c Hp I1 I2 I3 Hn) as (c1 & Hrun1 & Hr1 & Hn1 & Ht1); [unfold MAX_PATTERN_SIZE in Hop; lia |].
  rewrite Hrun in Hrun1. injection Hrun1 as <-. done.
Qed.

(** [YarrPattern::compile] up to its passes over the tree. *)
Lemma parsePattern_ok : exists e c, parsePattern ignoreCase multiline data = Ok (e, c) /\
  (e = NoError -> exists t, accepted_trace data = Some t /\ constructed t c /\ m_maxBackReference (foldl run_event reset t) <= num c).
Proof using H0 Hdata.
  unfold parsePattern. destruct (run_parser_ok _ quantifyInfinite new_initial ltac:(done)) as (e & t & c & Ht & Hrun & Hcounts & _ & Hok).
  rewrite Hrun. cbn [mbind PR_bind]. destruct (decide (e = NoError)) as [-> | He].
  2:{ exists e, c. rewrite bool_decide_eq_true_2 by done. split; [done | by intros ->]. }
  rewrite bool_decide_eq_false_2 by (intros Hne; by apply Hne). destruct (Hok eq_refl) as [(alts & Hp & Hcalls) Hcon].
  unfold accepted_trace. rewrite Ht, <- Hcounts. destruct (containsIllegalBackReference (counts c)) eqn:Hill.
  - destruct (Hcon alts Hp Hcalls) as (Hr & Hn & _).
    destruct (counts_limit data quantifyInfinite (num c) Hdata) as (e & c1 & c2 & H1 & H2 & Hnum).
    rewrite parse_fold, Ht in H1. injection H1 as <- <-. rewrite <- Hcounts in Hnum.
    assert (num c <= quantifyInfinite) as Hle.
    { pose proof (parse_opens data quantifyInfinite _ _ Ht) as Hop. pose proof (captures_of_opens alts). rewrite Hcalls in Hop.
      unfold MAX_PATTERN_SIZE in Hop. unfold quantifyInfinite. lia. }
    destruct (run_parser_ok (Constructor.reset c) (num c) (reset_initial c Hr) Hle) as (e' & t' & c' & Ht' & Hrun' & Hcounts' & [s Hs] & Hok').
    rewrite parse_fold, Ht' in H2. injection H2 as -> <-. change (m_numSubpatterns (m_counts (m_pattern c))) with (num c) in *.
    rewrite Hrun', Ht'. cbn [mbind PR_bind]. rewrite bool_decide_eq_true_2 by done. rewrite Hcounts', <- Hnum, Z.eqb_refl.
    exists NoError, c'. split; [done |]. intros _. exists t'. split; [done |]. split; [by apply Hok' |].
    replace (num c') with (num c) by (rewrite Hnum; unfold num; by rewrite Hcounts').
    by apply (max_reference (num c) t' s (rd_num _ _ _ Hr)).
  - exists NoError, c. split; [done |]. intros _. exists t. split; [done |]. split; [by apply Hok |].
    unfold containsIllegalBackReference in Hill. apply Z.ltb_ge in Hill. by rewrite <- Hcounts.
Qed.
End run.
