(* ===== verification/YarrAnchor.v ===== *)
(** * Unrolling of anchored alternatives: [optimizeBOL]

    The alternatives of the body are tried at the first position only, and
    copies without those that begin with [^] everywhere.  Beyond the start of
    the input the copies match like the originals; at the start they match
    nothing more, if no [^] is in a lookahead. *)

From stdpp Require Import base numbers list gmap.
From S2P Require Import Prelude Ctype Yarr YarrCanonicalize YarrClass YarrPattern YarrMatch YarrRegex YarrMatchProof YarrTree.

#[local] Open Scope Z_scope.

(** ** Inclusion of matchers *)

Definition included (R R' : matcher) : Prop := forall s x, x ∈ R s -> x ∈ R' s.

Lemma included_iter n R R' : included R R' -> included (iter n R) (iter n R').
Proof.
  intros HR. induction n as [| n IH]; intros s x Hx; [done |]. simpl in *.
  apply list_elem_of_bind in Hx as (s1 & Hx & Hs1). apply list_elem_of_bind. exists s1. split; [by apply IH | by apply HR].
Qed.

Lemma included_optional fuel greedy count R R' : included R R' -> included (optional fuel greedy count R) (optional fuel greedy count R').
Proof.
  intros HR. revert count. induction fuel as [| fuel IH]; intros count s x Hx; [done |]. simpl in *.
  destruct (match count with Some n => n <=? 0 | None => false end); [done |].
  assert (x ∈ List.filter (advances s) (R s) ≫= optional fuel greedy (less count) R ->
    x ∈ List.filter (advances s) (R' s) ≫= optional fuel greedy (less count) R') as Hmore.
  { intros (s1 & Hx1 & [Hs1 Ha]%list_elem_of_In%filter_In)%list_elem_of_bind. apply list_elem_of_bind. exists s1. split; [by apply IH |].
    apply list_elem_of_In, filter_In. split; [by apply list_elem_of_In, HR, list_elem_of_In | done]. }
  destruct greedy; [apply elem_of_app in Hx as [Hx | Hx]; apply elem_of_app; auto | apply elem_of_cons in Hx as [Hx | Hx]; apply elem_of_cons; auto].
Qed.

Lemma included_sequence {A} (f : A -> matcher) l l' : Forall2 (fun x' x => included (f x') (f x)) l' l -> included (sequence f l') (sequence f l).
Proof.
  induction 1 as [| x' x l' l Hx _ IH]; intros s y Hy; [done |]. simpl in *.
  apply list_elem_of_bind in Hy as (s1 & Hy & Hs1). apply list_elem_of_bind. exists s1. split; [by apply IH | by apply Hx].
Qed.

Section copies.
Context `{BuiltInClasses} (ignoreCase multiline : bool) (input : list Z).

Abbreviation matches := (match_term ignoreCase multiline input).
Abbreviation once := (once ignoreCase multiline input).

Lemma included_quantified t R R' : included R R' -> included (quantified input t R) (quantified input t R').
Proof.
  intros HR s x. unfold quantified, repeated. destruct (t_quantityType t);
    [by apply included_iter | by apply included_optional | by apply included_optional].
Qed.

(** Filtering copies only where flags are set. *)
Lemma copyAlternatives_unflagged l :
  (forall a, a ∈ l -> unflagged a) -> (forall a t, a ∈ l -> t ∈ m_terms a -> copyTerm true t = copyTerm false t) ->
  copyAlternatives (copyTerm true) true l = copyAlternatives (copyTerm false) false l.
Proof.
  induction l as [| a l IH]; intros Ha Ht; [done |]. simpl.
  assert (keeps true a = true) as -> by (unfold keeps; simpl; rewrite (Ha a ltac:(set_solver)); done).
  rewrite IH by set_solver. assert (copyAlternative (copyTerm true) a = copyAlternative (copyTerm false) a) as ->; [| done].
  unfold copyAlternative. assert (res_map (copyTerm true) (m_terms a) = res_map (copyTerm false) (m_terms a)) as ->; [| done].
  assert (forall ts, (forall t, t ∈ ts -> t ∈ m_terms a) -> res_map (copyTerm true) ts = res_map (copyTerm false) ts) as Hts; [| by apply Hts].
  induction ts as [| t ts IHts]; intros Hin; [done |]. simpl. rewrite (Ht a t), IHts by set_solver. done.
Qed.

Lemma copyTerm_unflagged t : term_ok unflagged t -> copyTerm true t = copyTerm false t.
Proof.
  induction 1 as [t _ Hun _ IH]. assert (forall p, parentheses_of t = Some p ->
    copyDisjunction_ (copyTerm true) true (p_disjunction p) = copyDisjunction_ (copyTerm false) false (p_disjunction p)) as Hd.
  { intros p Hp. unfold copyDisjunction_. unfold nested in *. rewrite Hp in *. by rewrite copyAlternatives_unflagged. }
  unfold parentheses_of in Hd. destruct t as [[] ? ? ? ? ? ?]; try done; simpl in *; by rewrite Hd.
Qed.

Lemma copyAlternatives_sub l : (forall a t t', a ∈ l -> t ∈ m_terms a -> copyTerm true t = Ok t' -> included (matches t') (matches t)) ->
  forall l', copyAlternatives (copyTerm true) true l = Ok l' ->
  included (match_alternatives ignoreCase multiline input l') (match_alternatives ignoreCase multiline input l).
Proof.
  induction l as [| a l IH]; intros Ht l' Hl'; [injection Hl' as <-; by intros s x |]. simpl in Hl'.
  destruct (keeps true a) eqn:Ek.
  2:{ intros s x Hx. simpl. apply elem_of_app. right. revert s x Hx. apply IH; [| done]. intros a' t t' Ha. apply (Ht a'). set_solver. }
  destruct (copyAlternative (copyTerm true) a) as [a' |] eqn:Ea; [| done]. simpl in Hl'.
  destruct (copyAlternatives (copyTerm true) true l) as [l'' |] eqn:El; [| done]. injection Hl' as <-.
  unfold copyAlternative in Ea. destruct (res_map (copyTerm true) (m_terms a)) as [ts |] eqn:Em; [| done]. injection Ea as <-.
  assert (forall ts ts', (forall t, t ∈ ts -> t ∈ m_terms a) -> res_map (copyTerm true) ts = Ok ts' -> Forall2 (fun t' t => included (matches t') (matches t)) ts' ts) as Hts.
  { clear ts Em. induction ts as [| t ts IHts]; intros ts' Hin E; [injection E as <-; constructor |]. simpl in E.
    destruct (copyTerm true t) as [t' |] eqn:Et; [| done]. simpl in E. destruct (res_map (copyTerm true) ts) as [ts'' |]; [| done].
    injection E as <-. constructor; [apply (Ht a t t'); set_solver | apply IHts; [set_solver | done]]. }
  intros s x Hx. simpl in *. apply elem_of_app in Hx as [Hx | Hx]; apply elem_of_app; [left | right].
  - revert Hx. apply included_sequence. by apply Hts.
  - revert s x Hx. apply IH; [| done]. intros a' t t' Ha. apply (Ht a'). set_solver.
Qed.

(** A filtered copy matches nothing more. *)
Lemma copyTerm_sub t : term_ok (flag_ok ignoreCase multiline) t -> (is_lookahead t = true -> term_ok unflagged t) ->
  forall t', copyTerm true t = Ok t' -> included (matches t') (matches t).
Proof.
  induction 1 as [t _ HQ Hin IH]. intros Hlk t' Hc.
  assert (included (once t') (once t)) as Hon.
  2:{ destruct (copyTerm_inv true t t' Hc) as (E1 & E2 & _). intros s x. rewrite !match_term_once.
      assert (quantified input t' = quantified input t) as -> by (unfold quantified; by rewrite E1, E2). by apply included_quantified. }
  destruct (copyTerm_inv true t t' Hc) as (_ & _ & E3 & E4 & Hty). unfold nested, parentheses_of, is_lookahead in *.
  destruct (t_type t) as [| | | | | | | p | p |] eqn:Et; try (subst t'; intros s x Hx; exact Hx).
  - destruct Hty as (l & Hl & Et'). intros s x Hx. rewrite (once_group _ _ _ t p) by done. rewrite (once_group _ _ _ t' _ _ Et'), E3 in Hx.
    apply list_elem_of_fmap in Hx as (y & -> & Hy). apply list_elem_of_fmap. exists y. split; [done |].
    unfold inner in *. simpl in Hy. revert Hy. eapply (copyAlternatives_sub (m_alternatives (p_disjunction p))); [| exact Hl].
    intros a t0 t0' Ha Ht0 Hc0. apply (IH a t0 Ha Ht0); [| done]. intros Hl0. by apply (HQ a Ha).
  - rewrite (copyTerm_unflagged t (Hlk eq_refl)) in Hc.
    destruct (copyTerm_ok ignoreCase multiline false t) as (t1 & Ht1 & Hcopy); [by apply (term_ok_mono unflagged), Hlk | done |].
    rewrite Hc in Ht1. injection Ht1 as <-. intros s x. by rewrite (cp_once _ _ _ _ _ Hcopy).
Qed.
End copies.

(** ** The search *)

(** A search depends on the first results only. *)
Lemma search_head fuel f g start : (forall i, (start <= i)%nat -> head (f i) = head (g i)) -> search fuel f start = search fuel g start.
Proof.
  revert start. induction fuel as [| fuel IH]; intros start Hfg; simpl; pose proof (Hfg start ltac:(lia)) as H0;
    destruct (f start), (g start); simpl in H0; try congruence; try done.
  apply IH. intros i Hi. apply Hfg. lia.
Qed.

Lemma filter_true {A} (f : A -> bool) l : (forall x, x ∈ l -> f x = true) -> List.filter f l = l.
Proof. induction l as [| x l IH]; intros Hf; [done |]. simpl. rewrite (Hf x), IH by set_solver. done. Qed.
Lemma filter_false {A} (f : A -> bool) l : (forall x, x ∈ l -> f x = false) -> List.filter f l = [].
Proof. induction l as [| x l IH]; intros Hf; [done |]. simpl. rewrite (Hf x), IH by set_solver. done. Qed.

Section optimizeBOL.
Context `{BuiltInClasses} (ignoreCase multiline : bool).

Abbreviation alternatives p := (m_alternatives (m_body p)).

Lemma copies_loop copy b l l' : copyAlternatives copy b l = Ok l' -> forall a, a ∈ l' -> m_onceThrough a = false.
Proof.
  revert l'. induction l as [| a l IH]; intros l' Hl' x Hx; [injection Hl' as <-; by apply elem_of_nil in Hx |]. simpl in Hl'.
  destruct (keeps b a); [| by apply (IH l')]. unfold copyAlternative in Hl'.
  destruct (res_map copy (m_terms a)) as [ts |]; [| done]. simpl in Hl'. destruct (copyAlternatives copy b l) as [l'' |]; [| done].
  injection Hl' as <-. apply elem_of_cons in Hx as [-> | Hx]; [done | by apply (IH l'')].
Qed.

Lemma once_through_same input l s :
  match_alternatives ignoreCase multiline input (map setOnceThrough l) s = match_alternatives ignoreCase multiline input l s.
Proof. induction l as [| a l IH]; [done |]. simpl. by rewrite IH. Qed.

Lemma match_alternatives_app input l1 l2 s :
  match_alternatives ignoreCase multiline input (l1 ++ l2) s =
  match_alternatives ignoreCase multiline input l1 s ++ match_alternatives ignoreCase multiline input l2 s.
Proof. apply choice_app. Qed.

(** Before the pass no alternative is tried only once. *)
Definition looping (l : list PatternAlternative) : Prop := forall a, a ∈ l -> m_onceThrough a = false.

Lemma exec_looping input p start : looping (alternatives p) ->
  exec ignoreCase multiline input p start =
  search (length input - start) (fun i => match_alternatives ignoreCase multiline input (alternatives p) (match_begin i)) start.
Proof.
  intros Hl. unfold exec. apply search_head. intros i _. rewrite filter_true; [done |]. intros a Ha. rewrite (Hl a Ha). apply orb_true_r.
Qed.

Lemma optimizeBOL_ok p :
  m_multiline p = multiline -> alternatives p <> [] -> looping (alternatives p) ->
  (forall a, a ∈ alternatives p -> alternative_ok (flag_ok ignoreCase multiline) a) ->
  exists p', optimizeBOL p = Ok p' /\
    (forall input start, exec ignoreCase multiline input p' start = exec ignoreCase multiline input p start) /\
    alternatives p' <> [] /\ forall a, a ∈ alternatives p' -> terms_ok any (m_terms a).
Proof.
  intros Hm Hne Hloop Hok. set (l := alternatives p) in *.
  assert (forall a, a ∈ l -> terms_ok any (m_terms a)) as Hany by (intros a Ha t Ht; eapply term_ok_mono; [| by apply (Hok a Ha)]; done).
  unfold optimizeBOL. destruct (negb (m_patternContainsBOL p) || m_multiline p) eqn:Eb; [by exists p |].
  apply orb_false_iff in Eb as [_ Eb]. rewrite Hm in Eb.
  destruct (copyAlternatives_ok ignoreCase multiline true l) as (l' & Hl' & Hun & _ & Heq).
  - intros a t Ha Hk Ht. destruct (Hok a Ha) as [(Hf & Hall & _) Hts]. split; [by apply (Hany a Ha) |].
    apply copyTerm_ok; [by apply Hts |]. intros _ Hfl. unfold keeps in Hk. rewrite Hall in Hk by eauto. done.
  - intros a Ha Hk. destruct (Hok a Ha) as [(Hf & _) _]. apply Hf. unfold keeps in Hk. simpl in Hk. by apply negb_false_iff in Hk.
  - assert (copyDisjunction true (m_body p) = Ok (match l' with [] => None | _ => Some (new_disjunction l') end)) as ->
      by (unfold copyDisjunction, copyDisjunction_; fold l; by rewrite Hl').
    cbn [mbind PR_bind]. eexists. split; [reflexivity |].
    assert (match match l' with [] => None | _ => Some (new_disjunction l') end with Some d => m_alternatives d | None => [] end = l') as -> by (by destruct l').
    change (m_alternatives (m_body p)) with l. simpl. split; [| split].
    + intros input start. rewrite (exec_looping input p start Hloop). unfold exec. simpl. apply search_head. intros i Hi. fold l. rewrite List.filter_app.
      assert (List.filter (fun a => Nat.eqb i start || negb (m_onceThrough a)) l' = l') as ->.
      { apply filter_true. intros a Ha. rewrite (copies_loop _ _ _ _ Hl' a Ha). apply orb_true_r. }
      rewrite match_alternatives_app.
      destruct (Nat.eqb_spec i start) as [-> | Hne'].
      * rewrite filter_true by done. rewrite once_through_same.
        destruct (match_alternatives ignoreCase multiline input l (match_begin start)) as [| x xs] eqn:E; [| done].
        simpl. destruct (match_alternatives ignoreCase multiline input l' (match_begin start)) as [| y ys] eqn:E'; [done |]. exfalso.
        assert (y ∈ match_alternatives ignoreCase multiline input l (match_begin start)) as Hy.
        { apply (copyAlternatives_sub ignoreCase multiline input l) with (l' := l'); [| done | rewrite E'; set_solver].
          intros a t t' Ha Ht Hc. destruct (Hok a Ha) as [(_ & _ & Hlk) Hts]. apply copyTerm_sub; [by apply Hts | by apply Hlk | done]. }
        rewrite E in Hy. by apply elem_of_nil in Hy.
      * rewrite (filter_false _ (map setOnceThrough l)).
        2:{ intros a (a0 & -> & _)%list_elem_of_fmap. done. }
        simpl. f_equal. apply Heq. intros _. split; [done | simpl; lia].
    + by destruct l.
    + intros a Ha. apply elem_of_app in Ha as [Ha | Ha].
      * apply list_elem_of_fmap in Ha as (a0 & -> & Ha0). by apply (Hany a0).
      * destruct (Hun a Ha) as [_ Hts]. intros t Ht. eapply term_ok_mono; [| by apply Hts]. done.
Qed.
End optimizeBOL.
