(* ===== verification/YarrOffsets.v ===== *)
(** * Input positions and frames: [setupOffsets]

    The pass sets the fields of terms that the matchers' generators read.  It
    does not change what a term matches; the minimum sizes it computes are
    lower bounds of what an alternative consumes; and it does not overflow if
    the tree is not too large. *)

From stdpp Require Import base numbers list gmap.
From S2P Require Import Prelude Ctype Yarr YarrCanonicalize YarrClass YarrPattern YarrMatch YarrRegex YarrMatchProof YarrTree.

#[local] Open Scope Z_scope.

Lemma setup_Ok {A B} (m : PR A) (f : A -> PR B) b : (m ≫= f) = Ok b -> exists a, m = Ok a /\ f a = Ok b.
Proof. destruct m as [a |]; [by exists a | done]. Qed.

Lemma checked_add_Ok a b c : checked_add a b = Ok c -> c = a + b.
Proof. unfold checked_add. destruct (_ <? _); [by intros [= <-] | done]. Qed.
Lemma checked_sub_Ok a b c : checked_sub a b = Ok c -> c = a - b.
Proof. unfold checked_sub. destruct (_ <=? _); [by intros [= <-] | done]. Qed.

Section offsets.
Context `{BuiltInClasses} (ignoreCase multiline : bool).

Abbreviation matches := (match_term ignoreCase multiline).
Abbreviation once := (once ignoreCase multiline).
Abbreviation match_alternative := (match_alternative ignoreCase multiline).
Abbreviation match_alternatives := (match_alternatives ignoreCase multiline).

(** ** Lengths of matches *)

(** On every input a match is at least [m] long; all are [k] long. *)
Definition at_least (m : Z) (R : list Z -> matcher) : Prop := forall input s s', s' ∈ R input s -> Z.of_nat (s_pos s) + m <= Z.of_nat (s_pos s').
Definition exactly (k : Z) (R : list Z -> matcher) : Prop := forall input s s', s' ∈ R input s -> Z.of_nat (s_pos s') = Z.of_nat (s_pos s) + k.

(** What the pass says of an alternative is right. *)
Definition sized (a : PatternAlternative) : Prop :=
  exists m, m_minimumSize a = Some m /\ at_least m (fun input => match_alternative input a) /\
    (m_hasFixedSize a = true -> exists k, exactly k (fun input => match_alternative input a)).

Lemma exactly_at_least k m R : m <= k -> exactly k R -> at_least m R.
Proof. intros Hm HR input s s' Hs'. rewrite (HR input s s' Hs'). lia. Qed.

Lemma sequence_at_least {A} (f : list Z -> A -> matcher) x l m1 m2 :
  at_least m1 (fun input => f input x) -> at_least m2 (fun input => sequence (f input) l) ->
  at_least (m1 + m2) (fun input => sequence (f input) (x :: l)).
Proof. intros H1 H2 input s s' (s1 & Hs' & Hs1)%list_elem_of_bind. apply H1 in Hs1. apply H2 in Hs'. lia. Qed.
Lemma sequence_exactly {A} (f : list Z -> A -> matcher) x l k1 k2 :
  exactly k1 (fun input => f input x) -> exactly k2 (fun input => sequence (f input) l) ->
  exactly (k1 + k2) (fun input => sequence (f input) (x :: l)).
Proof. intros H1 H2 input s s' (s1 & Hs' & Hs1)%list_elem_of_bind. apply H1 in Hs1. apply H2 in Hs'. lia. Qed.

Lemma iter_exactly n k R : (forall s s', s' ∈ R s -> Z.of_nat (s_pos s') = Z.of_nat (s_pos s) + k) ->
  forall s s', s' ∈ iter n R s -> Z.of_nat (s_pos s') = Z.of_nat (s_pos s) + Z.of_nat n * k.
Proof.
  intros HR. induction n as [| n IH]; intros s s' Hs'; simpl in Hs'; [apply list_elem_of_singleton in Hs' as ->; lia |].
  apply list_elem_of_bind in Hs' as (s1 & Hs' & Hs1). apply HR in Hs1. apply IH in Hs'. lia.
Qed.

Lemma one_char_exactly accepts input s s' : s' ∈ one_char input accepts s -> Z.of_nat (s_pos s') = Z.of_nat (s_pos s) + 1.
Proof.
  unfold one_char. destruct (input !! s_pos s) as [ch |]; [destruct (accepts ch) |]; [| set_solver | set_solver].
  intros ->%list_elem_of_singleton. simpl. lia.
Qed.

Lemma guard_still (b : bool) s s' : s' ∈ guard b s -> s_pos s' = s_pos s.
Proof. destruct b; simpl; [by intros ->%list_elem_of_singleton | set_solver]. Qed.

(** A term that matches a fixed number of times matches [count] times its length. *)
Lemma fixed_exactly t k : is_fixed t = true -> exactly k (fun input => once input t) ->
  exactly (Z.of_nat (Z.to_nat (t_quantityCount t)) * k) (fun input => matches input t).
Proof.
  intros Hf%bool_decide_eq_true Hk input s s'. rewrite match_term_once. unfold quantified. rewrite Hf. by apply iter_exactly, Hk.
Qed.

(** A repeated term that does not move does not move. *)
Lemma still_exactly t : exactly 0 (fun input => once input t) -> exactly 0 (fun input => matches input t).
Proof.
  intros Hk input s s'. rewrite match_term_once. set (P := fun x => s_pos x = s_pos s).
  assert (forall a b, P a -> b ∈ once input t a -> P b) as HP by (intros a b Ha Hb; unfold P in *; apply Hk in Hb; lia).
  assert (P s) as Hs by done. intros Hin. assert (P s') as Hs'; [| unfold P in Hs'; lia].
  unfold quantified, repeated in Hin. destruct (t_quantityType t); [by apply (iter_inv P) in Hin | by apply (optional_inv P) in Hin | by apply (optional_inv P) in Hin].
Qed.

Lemma forward_at_least t : term_ok any t -> at_least 0 (fun input => matches input t).
Proof. intros Ht input s s' Hs'. apply (forward_term ignoreCase multiline input t Ht) in Hs'. lia. Qed.

(** ** The pass *)

(** [t'] is [t] with its fields set. *)
Record placed (t t' : PatternTerm) (o o' : Offsets) : Prop := mk_placed {
  pl_same : forall input s, matches input t' s = matches input t s;
  pl_sized : term_ok sized t';
  pl_least : at_least (o_inputPosition o' - o_inputPosition o) (fun input => matches input t);
  pl_fixed : o_hasFixedSize o' = true -> o_hasFixedSize o = true /\ exists k, exactly k (fun input => matches input t)
}.

Section terms.
Context (ts : list PatternTerm) (init : Z).
Hypothesis IH : forall t o t' o', t ∈ ts -> setupTerm t init o = Ok (t', o') -> placed t t' o o'.

Lemma setupTerms_ok o ts' o' : setupTerms setupTerm init ts o = Ok (ts', o') ->
  (forall input s, sequence (matches input) ts' s = sequence (matches input) ts s) /\ terms_ok sized ts' /\
  at_least (o_inputPosition o' - o_inputPosition o) (fun input => sequence (matches input) ts) /\
  (o_hasFixedSize o' = true -> o_hasFixedSize o = true /\ exists k, exactly k (fun input => sequence (matches input) ts)).
Proof using IH.
  revert o ts' o'. induction ts as [| t l IHl]; intros o ts' o' Hs.
  - injection Hs as <- <-. split_and!; [done | intros x Hx; by apply elem_of_nil in Hx | |].
    + intros input s s' ->%list_elem_of_singleton. lia.
    + intros Hf. split; [done |]. exists 0. intros input s s' ->%list_elem_of_singleton. lia.
  - simpl in Hs. apply setup_Ok in Hs as ([t1 o1] & Ht & Hs). apply setup_Ok in Hs as ([l1 o2] & Hl & Hs). injection Hs as <- <-. simpl in *.
    destruct (IH t o t1 o1 ltac:(set_solver) Ht) as [S1 Z1 L1 F1].
    destruct (IHl ltac:(intros; eapply IH; [set_solver | done]) o1 l1 o2 Hl) as (S2 & Z2 & L2 & F2).
    split_and!.
    + intros input s. simpl. rewrite S1. apply bind_ext. intros s' _. apply S2.
    + intros x Hx. apply elem_of_cons in Hx as [-> | Hx]; [done | by apply Z2].
    + replace (o_inputPosition o2 - o_inputPosition o) with ((o_inputPosition o1 - o_inputPosition o) + (o_inputPosition o2 - o_inputPosition o1)) by lia.
      by apply sequence_at_least.
    + intros Hf. destruct (F2 Hf) as [Hf1 [k2 K2]]. destruct (F1 Hf1) as [Hf0 [k1 K1]]. split; [done |]. exists (k1 + k2). by apply sequence_exactly.
Qed.
End terms.

(** [a'] is [a] with its fields set. *)
Definition alike (a' a : PatternAlternative) : Prop :=
  m_onceThrough a' = m_onceThrough a /\ forall input s, match_alternative input a' s = match_alternative input a s.

Lemma alike_alternatives l' l input s : Forall2 alike l' l -> match_alternatives input l' s = match_alternatives input l s.
Proof. induction 1 as [| a' a l' l [_ Ha] _ IH]; [done |]. simpl. rewrite IH. f_equal. apply Ha. Qed.

Lemma alike_filter (f : PatternAlternative -> bool) l' l : (forall a' a, m_onceThrough a' = m_onceThrough a -> f a' = f a) ->
  Forall2 alike l' l -> Forall2 alike (List.filter f l') (List.filter f l).
Proof.
  intros Hf. induction 1 as [| a' a l' l Ha _ IH]; [constructor |]. simpl. rewrite (Hf a' a) by apply Ha.
  destruct (f a); [by constructor | done].
Qed.

Lemma setupAlternative_ok a frame init a' frame' :
  (forall t init o t' o', t ∈ m_terms a -> setupTerm t init o = Ok (t', o') -> placed t t' o o') ->
  setupAlternativeOffsets setupTerm a frame init = Ok (a', frame') ->
  alike a' a /\ alternative_ok sized a'.
Proof.
  intros IH Hs. apply setup_Ok in Hs as ([ts' o'] & Ht & Hs). apply setup_Ok in Hs as (m & ->%checked_sub_Ok & Hs). injection Hs as <- <-. simpl in *.
  destruct (setupTerms_ok (m_terms a) init (fun t o t' o' => IH t init o t' o') _ _ _ Ht) as (S & Z & L & F). simpl in *.
  assert (forall input s, match_alternative input (mk_alternative ts' (Some (o_inputPosition o' - init)) (m_onceThrough a) (o_hasFixedSize o') (m_startsWithBOL a) (m_containsBOL a)) s
    = match_alternative input a s) as Hsame by (intros; apply S).
  split; [by split |]. split; [| done]. eexists. split; [reflexivity |]. split.
  - intros input s s'. rewrite Hsame. apply L.
  - intros Hf. destruct (F Hf) as (_ & k & K). exists k. intros input s s'. rewrite Hsame. apply K.
Qed.

Section alternatives.
Context (l : list PatternAlternative).
Hypothesis IH : forall a t init o t' o', a ∈ l -> t ∈ m_terms a -> setupTerm t init o = Ok (t', o') -> placed t t' o o'.

Lemma setupAlternatives_ok frame init : forall mn mx fx l' mn' mx' fx',
  setupAlternatives setupTerm frame init l mn mx fx = Ok (l', (mn', mx', fx')) ->
  Forall2 alike l' l /\ (forall a, a ∈ l' -> alternative_ok sized a) /\
  mn' <= mn /\ at_least mn' (fun input => match_alternatives input l).
Proof using IH.
  induction l as [| a l0 IHl]; intros mn mx fx l' mn' mx' fx' Hs.
  - injection Hs as <- <- <- <-. split_and!; [constructor | set_solver | done |]. intros input s s' Hs'. by apply elem_of_nil in Hs'.
  - simpl in Hs. apply setup_Ok in Hs as ([a' f'] & Ha & Hs). apply setup_Ok in Hs as ([l1 [[mn1 mx1] fx1]] & Hl & Hs).
    simpl in Hs. injection Hs as <- <- <- <-. simpl in Hl.
    assert (forall a t init o t' o', a ∈ l0 -> t ∈ m_terms a -> setupTerm t init o = Ok (t', o') -> placed t t' o o') as IH0
      by (intros a0 t0 i0 o0 t0' o0' Ha0; apply (IH a0); set_solver).
    destruct (IHl IH0 _ _ _ _ _ _ _ Hl) as (S & Z & Hmn & L).
    destruct (setupAlternative_ok a frame init a' f') as [Sa [Za Zt]]; [intros t0 i0 o0 t0' o0'; apply (IH a); set_solver | done |].
    destruct Za as (m & Hm & La & Fa). rewrite Hm in Hmn. simpl in Hmn.
    split_and!.
    + by constructor.
    + intros x Hx. apply elem_of_cons in Hx as [-> | Hx]; [| by apply Z]. split; [| done]. exists m. done.
    + lia.
    + intros input s s' Hs'. simpl in Hs'. apply elem_of_app in Hs' as [Hs' | Hs']; [| by apply L in Hs'].
      rewrite <- (proj2 Sa) in Hs'. apply La in Hs'. lia.
Qed.

Lemma setupDisjunction_ok isBody d frame init d' frame' : m_alternatives d = l -> l <> [] ->
  setupDisjunctionOffsets_ setupTerm isBody d frame init = Ok (d', frame') ->
  Forall2 alike (m_alternatives d') l /\ (forall a, a ∈ m_alternatives d' -> alternative_ok sized a) /\ m_alternatives d' <> [] /\
  exists m, d_minimumSize d' = Some m /\ at_least m (fun input => match_alternatives input l).
Proof using IH.
  intros Hd Hne Hs. apply setup_Ok in Hs as ([l' [[mn mx] fx]] & Hl & Hs). rewrite Hd in Hl.
  apply setup_Ok in Hs as (_ & _ & Hs). apply setup_Ok in Hs as (_ & _ & Hs). injection Hs as <- <-. simpl.
  destruct (setupAlternatives_ok _ _ _ _ _ _ _ _ _ Hl) as (S & Z & _ & L). split_and!; [done | done | | by exists mn].
  intros ->. by inversion S.
Qed.
End alternatives.

(** A term without parts. *)
Lemma placed_still t t' o o' :
  (forall input s, matches input t' s = matches input t s) -> parentheses_of t' = None ->
  at_least 0 (fun input => matches input t) -> o_inputPosition o' = o_inputPosition o ->
  (o_hasFixedSize o' = true -> o_hasFixedSize o = true /\ exactly 0 (fun input => once input t)) -> placed t t' o o'.
Proof.
  intros S P L Hp F. split; [done | by apply term_ok_leaf | by rewrite Hp, Z.sub_diag |].
  intros Hf. destruct (F Hf) as [Ho K]. split; [done |]. exists 0. by apply still_exactly.
Qed.

(** Setting fields does not change what a term matches. *)
Lemma same_fields t t' input s :
  t_type t' = t_type t -> t_capture t' = t_capture t -> t_invert t' = t_invert t -> t_quantityType t' = t_quantityType t ->
  t_quantityCount t' = t_quantityCount t -> matches input t' s = matches input t s.
Proof.
  intros E1 E2 E3 E4 E5. rewrite !match_term_once. assert (quantified input t' = quantified input t) as -> by (unfold quantified; by rewrite E4, E5).
  apply quantified_ext. intros s0. unfold YarrMatch.once, once_. by rewrite E1, E2, E3.
Qed.

(** Characters and classes. *)
Lemma setup_single_ok space t o t' o' : term_ok any t -> parentheses_of t = None -> exactly 1 (fun input => once input t) ->
  setup_single space t o = Ok (t', o') -> placed t t' o o'.
Proof.
  intros Hok Hp Hone Hs. unfold setup_single in Hs. change (is_fixed (set_position (o_inputPosition o) t)) with (is_fixed t) in Hs.
  destruct (is_fixed t) eqn:Hf; simpl in Hs.
  - apply setup_Ok in Hs as (pos & ->%checked_add_Ok & Hs). injection Hs as <- <-.
    pose proof (fixed_exactly t 1 Hf Hone) as Hex. split; [intros; by apply same_fields | by apply term_ok_leaf | simpl | ].
    + eapply exactly_at_least; [| exact Hex]. lia.
    + intros Ho. split; [done |]. by eexists.
  - injection Hs as <- <-. apply placed_still; [intros; by apply same_fields | done | by apply forward_at_least | done | done].
Qed.

(** Parentheses whose alternatives were set up. *)
Lemma nested_same t t' p d' input s :
  parentheses_of t = Some p -> t_type t' = match t_type t with TypeParenthesesSubpattern _ => TypeParenthesesSubpattern (set_disjunction d' p)
    | _ => TypeParentheticalAssertion (set_disjunction d' p) end ->
  t_capture t' = t_capture t -> t_invert t' = t_invert t -> t_quantityType t' = t_quantityType t -> t_quantityCount t' = t_quantityCount t ->
  Forall2 alike (m_alternatives d') (m_alternatives (p_disjunction p)) ->
  matches input t' s = matches input t s.
Proof.
  intros Hp Ht E2 E3 E4 E5 Hsame. rewrite !match_term_once.
  assert (quantified input t' = quantified input t) as -> by (unfold quantified; by rewrite E4, E5).
  apply quantified_ext. intros s0. unfold parentheses_of in Hp. destruct (t_type t) as [| | | | | | | p0 | p0 |] eqn:Et; try done; injection Hp as ->.
  - rewrite (once_group _ _ _ t p s0 Et), (once_group _ _ _ t' _ s0 Ht), E2. unfold group, inner. simpl. by rewrite (alike_alternatives _ _ _ _ Hsame).
  - rewrite (once_look _ _ _ t p s0 Et), (once_look _ _ _ t' _ s0 Ht), E3. unfold look, inner. simpl. by rewrite (alike_alternatives _ _ _ _ Hsame).
Qed.

(** Parentheses: the position moves on by the least size if they match once. *)
Lemma placed_parens t t' p d' o o' :
  term_ok any t -> parentheses_of t = Some p -> t_type t' = match t_type t with TypeParenthesesSubpattern _ => TypeParenthesesSubpattern (set_disjunction d' p)
    | _ => TypeParentheticalAssertion (set_disjunction d' p) end ->
  t_capture t' = t_capture t -> t_invert t' = t_invert t -> t_quantityType t' = t_quantityType t -> t_quantityCount t' = t_quantityCount t ->
  Forall2 alike (m_alternatives d') (m_alternatives (p_disjunction p)) ->
  (forall a, a ∈ m_alternatives d' -> alternative_ok sized a) -> m_alternatives d' <> [] ->
  at_least (o_inputPosition o' - o_inputPosition o) (fun input => matches input t) ->
  (o_hasFixedSize o' = true -> o_hasFixedSize o = true /\ is_lookahead t = true) -> placed t t' o o'.
Proof.
  intros Hok Hp Ht E2 E3 E4 E5 Hsame Hz Hne L F. split; [intros; by apply (nested_same t t' p d') | | done |].
  - assert (parentheses_of t' = Some (set_disjunction d' p)) as Hp' by (unfold parentheses_of in *; rewrite Ht; by destruct (t_type t)).
    by apply (term_ok_parens _ _ _ Hp').
  - intros Hf. destruct (F Hf) as [Ho Hl]. split; [done |]. exists 0. apply still_exactly. intros input s s'.
    unfold is_lookahead in Hl. destruct (t_type t) as [| | | | | | | | p0 |] eqn:Et; try done. rewrite (once_look _ _ _ t p0 s Et).
    intros Hs'%look_pos. lia.
Qed.

Lemma once_group_least t p m : t_type t = TypeParenthesesSubpattern p -> is_fixed t = true -> t_quantityCount t = 1 ->
  at_least m (fun input => match_alternatives input (m_alternatives (p_disjunction p))) -> at_least m (fun input => matches input t).
Proof.
  intros Ht Hf%bool_decide_eq_true Hc L input s s'. rewrite matches_once, (once_group _ _ _ t p s Ht) by done.
  intros (s1 & -> & Hs1)%list_elem_of_fmap. apply L in Hs1. destruct (t_capture t); simpl in *; lia.
Qed.

Lemma setupTerm_ok t : term_ok any t -> forall init o t' o', setupTerm t init o = Ok (t', o') -> placed t t' o o'.
Proof.
  intros Hok. pose proof Hok as Hok0. induction Hok as [t Hne _ Hin IH]. intros init o t' o' Hs.
  assert (forall p, parentheses_of t = Some p -> m_alternatives (p_disjunction p) <> [] /\
    forall a t0 init o t' o', a ∈ m_alternatives (p_disjunction p) -> t0 ∈ m_terms a -> setupTerm t0 init o = Ok (t', o') -> placed t0 t' o o') as Hnest.
  { intros p Hp. unfold nested in *. rewrite Hp in *. split; [by apply Hne |]. intros a t0 i0 o0 t0' o0' Ha Ht0. apply (IH a t0 Ha Ht0). by apply (Hin a). }
  pose proof (forward_at_least t Hok0) as Hfw.
  destruct (t_type t) as [| | | ch | c | id | | p | p | b e] eqn:Et.
  1-3: (assert (setupTerm t init o = Ok (set_position (o_inputPosition o) t, o)) as E by (destruct t; simpl in *; by subst); rewrite E in Hs;
    injection Hs as <- <-; (apply placed_still; [intros; by apply same_fields | unfold parentheses_of; simpl; by rewrite Et | done | done |]);
    intros Ho; (split; [done |]); intros input s s'; unfold YarrMatch.once, once_; rewrite Et; intros Hs'%guard_still; lia).
  - apply (setup_single_ok 1); [done | unfold parentheses_of; by rewrite Et | | destruct t; simpl in *; by subst].
    intros input s s'. unfold YarrMatch.once, once_. rewrite Et. apply one_char_exactly.
  - apply (setup_single_ok 1); [done | unfold parentheses_of; by rewrite Et | | destruct t; simpl in *; by subst].
    intros input s s'. unfold YarrMatch.once, once_. rewrite Et. apply one_char_exactly.
  - assert (setupTerm t init o = Ok (set_frame (o_callFrameSize o) (set_position (o_inputPosition o) t),
      mk_offsets (u32 (o_callFrameSize o + 2)) (o_inputPosition o) false)) as E by (destruct t; simpl in *; by subst). rewrite E in Hs. injection Hs as <- <-.
    apply placed_still; [intros; by apply same_fields | unfold parentheses_of; simpl; by rewrite Et | done | done | done].
  - assert (setupTerm t init o = Ok (t, o)) as E by (destruct t; simpl in *; by subst). rewrite E in Hs. injection Hs as <- <-.
    apply placed_still; [done | unfold parentheses_of; by rewrite Et | done | done |]. intros Ho. split; [done |].
    intros input s s'. unfold YarrMatch.once, once_. rewrite Et. intros ->%list_elem_of_singleton. lia.
  - assert (parentheses_of t = Some p) as Hp by (unfold parentheses_of; by rewrite Et). destruct (Hnest p Hp) as [Hn IHn].
    assert (setupTerm t init o = setup_group setupTerm p t o) as E by (destruct t; simpl in *; by subst). rewrite E in Hs. clear E.
    unfold setup_group in Hs. destruct (_ && _) eqn:Eo; [| destruct (p_isTerminal p)].
    + apply setup_Ok in Hs as ([d' f'] & Hd & Hs). destruct (setupDisjunction_ok _ IHn _ _ _ _ _ _ eq_refl Hn Hd) as (S & Z & Hn' & m & Hm & L).
      apply setup_Ok in Hs as (pos & Hpos & Hs). injection Hs as <- <-. simpl in Hpos. rewrite Hm in Hpos. simpl in Hpos.
      apply andb_true_iff in Eo as [Eo%Z.eqb_eq _].
      apply (placed_parens t _ p d'); simpl; rewrite ?Et; try done. destruct (is_fixed t) eqn:Hf.
      * apply checked_add_Ok in Hpos as ->. replace (_ - _) with m by lia. by apply (once_group_least t p).
      * injection Hpos as <-. by rewrite Z.sub_diag.
    + apply setup_Ok in Hs as ([d' f'] & Hd & Hs). destruct (setupDisjunction_ok _ IHn _ _ _ _ _ _ eq_refl Hn Hd) as (S & Z & Hn' & m & Hm & L).
      injection Hs as <- <-. apply (placed_parens t _ p d'); simpl; rewrite ?Et, ?Z.sub_diag; done.
    + apply setup_Ok in Hs as ([d' f'] & Hd & Hs). destruct (setupDisjunction_ok _ IHn _ _ _ _ _ _ eq_refl Hn Hd) as (S & Z & Hn' & m & Hm & L).
      injection Hs as <- <-. apply (placed_parens t _ p d'); simpl; rewrite ?Et, ?Z.sub_diag; done.
  - assert (parentheses_of t = Some p) as Hp by (unfold parentheses_of; by rewrite Et). destruct (Hnest p Hp) as [Hn IHn].
    assert (setupTerm t init o = setup_lookahead setupTerm p t o) as E by (destruct t; simpl in *; by subst). rewrite E in Hs. clear E.
    apply setup_Ok in Hs as ([d' f'] & Hd & Hs). destruct (setupDisjunction_ok _ IHn _ _ _ _ _ _ eq_refl Hn Hd) as (S & Z & Hn' & m & Hm & L).
    injection Hs as <- <-. apply (placed_parens t _ p d'); simpl; rewrite ?Et, ?Z.sub_diag; try done. unfold is_lookahead. by rewrite Et.
  - assert (setupTerm t init o = Ok (set_position init t, mk_offsets (o_callFrameSize o) (o_inputPosition o) false)) as E by (destruct t; simpl in *; by subst).
    rewrite E in Hs. injection Hs as <- <-.
    apply placed_still; [intros; by apply same_fields | unfold parentheses_of; simpl; by rewrite Et | done | done | done].
Qed.
End offsets.

(** ** No overflow *)

(** A bound of the positions and of the frame slots of a term. *)
Fixpoint weight (t : PatternTerm) : Z :=
  match t_type t with
  | TypePatternCharacter _ | TypeCharacterClass _ => 1 + (if is_fixed t then t_quantityCount t else 0)
  | TypeBackReference _ => 2
  | TypeParenthesesSubpattern p | TypeParentheticalAssertion p =>
      3 + sum_of (fun a => sum_of weight (m_terms a)) (m_alternatives (p_disjunction p))
  | _ => 0
  end.
Definition terms_weight (ts : list PatternTerm) : Z := sum_of weight ts.
Definition total_weight (l : list PatternAlternative) : Z := sum_of (fun a => terms_weight (m_terms a)) l.

Lemma weight_parens t p : parentheses_of t = Some p -> weight t = 3 + total_weight (m_alternatives (p_disjunction p)).
Proof. intros Hp. destruct t as [[] ? ? ? ? ? ?]; try done; unfold parentheses_of in Hp; simpl in Hp; injection Hp as <-; done. Qed.

Lemma weight_nonneg t : counted_term t -> 0 <= weight t.
Proof.
  intros [Hc Ht]. revert Hc. induction Ht as [t _ HQ _ IH]. intros Hc. destruct (parentheses_of t) as [p |] eqn:Hp.
  - rewrite (weight_parens t p Hp). unfold nested in *. rewrite Hp in *.
    assert (0 <= total_weight (m_alternatives (p_disjunction p))); [| lia]. apply sum_nonneg. intros a Ha. apply sum_nonneg. intros t' Ht'.
    apply (IH a t' Ha Ht'). by apply (HQ a).
  - destruct t as [[] ? ? ? ? ? ?]; simpl in *; try done; destruct (is_fixed _); lia.
Qed.

Lemma terms_weight_nonneg ts : terms_counted ts -> 0 <= terms_weight ts.
Proof. intros Hts. apply sum_nonneg. intros t Ht. by apply weight_nonneg, Hts. Qed.

Definition all_counted (l : list PatternAlternative) : Prop := forall a, a ∈ l -> terms_counted (m_terms a).

Lemma total_weight_nonneg l : all_counted l -> 0 <= total_weight l.
Proof. intros Hl. apply sum_nonneg. intros a Ha. by apply terms_weight_nonneg, Hl. Qed.

(** From [o] there is room for [w] more. *)
Definition room (w : Z) (init : Z) (o : Offsets) : Prop :=
  0 <= init <= o_inputPosition o /\ 0 <= o_callFrameSize o /\ o_inputPosition o + w < 2 ^ 32 - 1 /\ o_callFrameSize o + w < 2 ^ 32 - 1.
Definition within (w : Z) (o o' : Offsets) : Prop :=
  o_inputPosition o <= o_inputPosition o' <= o_inputPosition o + w /\ o_callFrameSize o <= o_callFrameSize o' <= o_callFrameSize o + w.

Definition fits (t : PatternTerm) : Prop := forall init o, room (weight t) init o ->
  exists t' o', setupTerm t init o = Ok (t', o') /\ within (weight t) o o'.

Lemma setupTerms_fits ts init : terms_counted ts -> (forall t, t ∈ ts -> fits t) -> forall o, room (terms_weight ts) init o ->
  exists ts' o', setupTerms setupTerm init ts o = Ok (ts', o') /\ within (terms_weight ts) o o'.
Proof.
  intros Hc Hf. induction ts as [| t ts IH]; intros o Hr; [exists [], o; split; [done | unfold within, terms_weight; simpl; lia] |].
  unfold terms_weight in *. simpl in *. pose proof (weight_nonneg t ltac:(apply Hc; set_solver)) as Hw.
  assert (terms_counted ts) as Hc' by (intros x Hx; apply Hc; set_solver). pose proof (terms_weight_nonneg ts Hc') as Hws. unfold terms_weight in Hws.
  destruct (Hf t ltac:(set_solver) init o) as (t' & o1 & Ht & Hin); [unfold room in *; lia |].
  destruct (IH Hc' ltac:(set_solver) o1) as (ts' & o2 & Hts & Hin'); [unfold room, within in *; lia |].
  rewrite Ht. simpl. rewrite Hts. simpl. eexists _, _. split; [done |]. unfold within in *. simpl. lia.
Qed.

Lemma setupAlternative_fits a frame init : terms_counted (m_terms a) -> (forall t, t ∈ m_terms a -> fits t) ->
  0 <= init -> 0 <= frame -> init + terms_weight (m_terms a) < 2 ^ 32 - 1 -> frame + terms_weight (m_terms a) < 2 ^ 32 - 1 ->
  exists a' f' m, setupAlternativeOffsets setupTerm a frame init = Ok (a', f') /\ m_minimumSize a' = Some m /\
    0 <= m <= terms_weight (m_terms a) /\ frame <= f' <= frame + terms_weight (m_terms a).
Proof.
  intros Hc Hf Hi Hfr H1 H2. destruct (setupTerms_fits (m_terms a) init Hc Hf (mk_offsets frame init true)) as (ts' & o' & Hts & Hp & Hq);
    [unfold room; simpl; lia |]. simpl in Hp, Hq.
  unfold setupAlternativeOffsets. rewrite Hts. simpl. unfold checked_sub. rewrite (proj2 (Z.leb_le _ _)) by lia. simpl.
  eexists _, _, _. split; [reflexivity |]. split; [reflexivity |]. lia.
Qed.

Lemma setupAlternatives_fits l frame init : all_counted l -> (forall a t, a ∈ l -> t ∈ m_terms a -> fits t) ->
  0 <= init -> 0 <= frame -> init + total_weight l < 2 ^ 32 - 1 -> frame + total_weight l < 2 ^ 32 - 1 ->
  forall mn mx fx, 0 <= mn -> 0 <= mx -> exists l' mn' mx' fx', setupAlternatives setupTerm frame init l mn mx fx = Ok (l', (mn', mx', fx')) /\
    0 <= mn' <= mn /\ mx <= mx' <= Z.max mx (frame + total_weight l) /\ (l <> [] -> mn' <= total_weight l /\ frame <= mx').
Proof.
  intros Hc Hf Hi Hfr. induction l as [| a l IH]; intros H1 H2 mn mx fx Hmn Hmx; [exists [], mn, mx, fx; split; [done |]; unfold total_weight; simpl; split_and!; done || lia |].
  unfold total_weight in *. simpl in *. assert (all_counted l) as Hc' by (intros x Hx; apply Hc; set_solver).
  pose proof (total_weight_nonneg l Hc') as Hw. pose proof (terms_weight_nonneg (m_terms a) ltac:(apply Hc; set_solver)) as Hwa. unfold total_weight in Hw.
  destruct (setupAlternative_fits a frame init) as (a' & f' & m & Ha & Hm & Hmb & Hfb);
    [apply Hc; set_solver | intros t Ht; apply (Hf a); set_solver | lia | lia | lia | lia |].
  rewrite Ha. cbn [mbind PR_bind fst snd]. rewrite Hm. cbn [default from_option id].
  destruct (IH Hc' ltac:(intros x t Hx; apply (Hf x); set_solver) ltac:(lia) ltac:(lia) (Z.min mn m) (Z.max mx f') (fx && m_hasFixedSize a'))
    as (l' & mn' & mx' & fx' & Hl & B1 & B2 & B3); [lia | lia |].
  rewrite Hl. simpl. exists (a' :: l'), mn', mx', fx'. split; [done |]. split; [lia |]. split; [lia |]. intros _. lia.
Qed.

Lemma setupDisjunction_fits isBody d frame init : all_counted (m_alternatives d) -> m_alternatives d <> [] ->
  (forall a t, a ∈ m_alternatives d -> t ∈ m_terms a -> fits t) -> 0 <= init -> 0 <= frame ->
  init + total_weight (m_alternatives d) < 2 ^ 32 - 1 -> frame + 1 + total_weight (m_alternatives d) < 2 ^ 32 - 1 ->
  exists d' f' m, setupDisjunctionOffsets_ setupTerm isBody d frame init = Ok (d', f') /\ d_minimumSize d' = Some m /\
    0 <= m <= total_weight (m_alternatives d) /\ frame <= f' <= frame + 1 + total_weight (m_alternatives d).
Proof.
  intros Hc Hne Hf Hi Hfr H1 H2. pose proof (total_weight_nonneg _ Hc) as Hw. unfold setupDisjunctionOffsets_.
  set (frame' := if negb isBody && (1 <? Z.of_nat (length (m_alternatives d))) then u32 (frame + YarrStackSpaceForBackTrackInfoAlternative) else frame).
  assert (frame <= frame' <= frame + 1) as Hfr'.
  { unfold frame'. destruct (_ && _); [| lia]. unfold YarrStackSpaceForBackTrackInfoAlternative. rewrite u32_id by lia. lia. }
  destruct (setupAlternatives_fits (m_alternatives d) frame' init Hc Hf Hi ltac:(lia) H1 ltac:(lia) (2 ^ 32 - 1) 0 true) as (l' & mn & mx & fx & Hl & B1 & B2 & B3); [lia | lia |].
  rewrite Hl. destruct (B3 Hne) as [B4 B5]. cbn [mbind PR_bind]. unfold p_assert.
  rewrite (proj2 (Z.eqb_neq mn (2 ^ 32 - 1))), (proj2 (Z.leb_le frame' mx)) by lia. simpl. eexists _, _, _. split; [reflexivity |]. split; [reflexivity |]. lia.
Qed.

Lemma single_fits space t init o : parentheses_of t = None -> 0 <= t_quantityCount t -> 0 <= space <= 1 ->
  weight t = 1 + (if is_fixed t then t_quantityCount t else 0) -> room (weight t) init o ->
  exists t' o', setup_single space t o = Ok (t', o') /\ within (weight t) o o'.
Proof.
  intros Hp Hc Hsp Hw (R1 & R2 & R3 & R4). rewrite Hw in *. unfold setup_single. change (is_fixed (set_position (o_inputPosition o) t)) with (is_fixed t).
  destruct (is_fixed t); simpl.
  - unfold checked_add. rewrite (proj2 (Z.ltb_lt _ _)) by lia. simpl. eexists _, _. split; [done |]. unfold within. simpl. lia.
  - eexists _, _. split; [done |]. unfold within. simpl. rewrite u32_id by lia. lia.
Qed.

(** Parentheses, whose disjunction fits. *)
Lemma group_fits p t init o : all_counted (m_alternatives (p_disjunction p)) -> m_alternatives (p_disjunction p) <> [] ->
  (forall a t, a ∈ m_alternatives (p_disjunction p) -> t ∈ m_terms a -> fits t) ->
  let w := 3 + total_weight (m_alternatives (p_disjunction p)) in room w init o ->
  exists t' o', setup_group setupTerm p t o = Ok (t', o') /\ within w o o'.
Proof.
  intros Hc Hne Hf w (R1 & R2 & R3 & R4). unfold w in *. pose proof (total_weight_nonneg _ Hc) as Hw.
  assert (forall frame, 0 <= frame -> frame <= o_callFrameSize o + 1 -> exists d' f' m,
    setupDisjunctionOffsets_ setupTerm false (p_disjunction p) frame (o_inputPosition o) = Ok (d', f') /\ d_minimumSize d' = Some m /\
    0 <= m <= total_weight (m_alternatives (p_disjunction p)) /\ frame <= f' <= frame + 1 + total_weight (m_alternatives (p_disjunction p))) as Hd
    by (intros frame H1 H2; apply setupDisjunction_fits; [done | done | done | lia | lia | lia | lia]).
  unfold setup_group, YarrStackSpaceForBackTrackInfoParenthesesOnce, YarrStackSpaceForBackTrackInfoParenthesesTerminal, YarrStackSpaceForBackTrackInfoParentheses.
  rewrite !(u32_id (o_callFrameSize o + _)) by lia. destruct (_ && _); [| destruct (p_isTerminal p)].
  - destruct (Hd (if negb (is_fixed t) then o_callFrameSize o + 1 else o_callFrameSize o)) as (d' & f' & m & E & Hm & B1 & B2); [destruct (negb _); lia | destruct (negb _); lia |].
    rewrite E. simpl. rewrite Hm. simpl. destruct (is_fixed t); simpl in *.
    + unfold checked_add. rewrite (proj2 (Z.ltb_lt _ _)) by lia. simpl. eexists _, _. split; [done |]. unfold within. simpl. lia.
    + eexists _, _. split; [done |]. unfold within. simpl. lia.
  - destruct (Hd (o_callFrameSize o + 1)) as (d' & f' & m & E & Hm & B1 & B2); [lia | lia |]. rewrite E. simpl.
    eexists _, _. split; [done |]. unfold within. simpl. lia.
  - destruct (Hd 0) as (d' & f' & m & E & Hm & B1 & B2); [lia | lia |]. rewrite E. simpl. eexists _, _. split; [done |]. unfold within. simpl. lia.
Qed.

Lemma lookahead_fits p t init o : all_counted (m_alternatives (p_disjunction p)) -> m_alternatives (p_disjunction p) <> [] ->
  (forall a t, a ∈ m_alternatives (p_disjunction p) -> t ∈ m_terms a -> fits t) ->
  let w := 3 + total_weight (m_alternatives (p_disjunction p)) in room w init o ->
  exists t' o', setup_lookahead setupTerm p t o = Ok (t', o') /\ within w o o'.
Proof.
  intros Hc Hne Hf w (R1 & R2 & R3 & R4). unfold w in *. pose proof (total_weight_nonneg _ Hc) as Hw.
  unfold setup_lookahead, YarrStackSpaceForBackTrackInfoParentheticalAssertion. rewrite u32_id by lia.
  destruct (setupDisjunction_fits false (p_disjunction p) (o_callFrameSize o + 1) (o_inputPosition o)) as (d' & f' & m & E & Hm & B1 & B2); try done; try lia.
  rewrite E. simpl. eexists _, _. split; [done |]. unfold within. simpl. lia.
Qed.

Lemma fits_all t : counted_term t -> term_ok any t -> fits t.
Proof.
  intros [Hc Ht] Hany. revert Hc. induction Ht as [t Hne HQ Hin IH]. intros Hc init o Hr.
  assert (forall a t', a ∈ nested t -> t' ∈ m_terms a -> fits t') as Hf.
  { intros a t' Ha Ht'. apply (IH a t' Ha Ht'); [destruct Hany as [? _ _ Hany]; by apply (Hany a) | by apply (HQ a)]. }
  assert (all_counted (nested t)) as Hcn by (intros a Ha t' Ht'; split; [by apply (HQ a) | by apply (Hin a)]). clear HQ Hin IH Hany.
  destruct t as [ty capture invert kind count pos frame].
  assert (forall w, w = 0 -> room w init o -> within w o o) as Hsame by (intros w -> _; unfold within; lia).
  destruct ty as [| | | ch | c | id | | p | p | b e]; cbn [setupTerm t_type].
  - eexists _, _. split; [done | by apply Hsame].
  - eexists _, _. split; [done | by apply Hsame].
  - eexists _, _. split; [done | by apply Hsame].
  - by apply (single_fits _ (mk_term (TypePatternCharacter ch) capture invert kind count pos frame) init).
  - by apply (single_fits _ (mk_term (TypeCharacterClass c) capture invert kind count pos frame) init).
  - eexists _, _. split; [done |]. destruct Hr as (R1 & R2 & R3 & R4). simpl in R3, R4.
    unfold within, YarrStackSpaceForBackTrackInfoBackReference. simpl. rewrite u32_id by lia. lia.
  - eexists _, _. split; [done | by apply Hsame].
  - exact (group_fits p (mk_term _ capture invert kind count pos frame) init o Hcn (Hne (mk_is_Some _ p eq_refl)) Hf Hr).
  - exact (lookahead_fits p (mk_term _ capture invert kind count pos frame) init o Hcn (Hne (mk_is_Some _ p eq_refl)) Hf Hr).
  - eexists _, _. split; [done |]. unfold within. simpl. lia.
Qed.

(** ** Copies are no larger *)

Lemma copyAlternatives_weight b l : all_counted l -> (forall a t t', a ∈ l -> t ∈ m_terms a -> copyTerm b t = Ok t' -> weight t' <= weight t) ->
  forall l', copyAlternatives (copyTerm b) b l = Ok l' -> total_weight l' <= total_weight l.
Proof.
  induction l as [| a l IH]; intros Hc Ht l' Hl'; [injection Hl' as <-; done |]. simpl in Hl'.
  assert (all_counted l) as Hc' by (intros x Hx; apply Hc; set_solver).
  assert (0 <= terms_weight (m_terms a)) as Hw by (apply terms_weight_nonneg, Hc; set_solver).
  assert (forall x t t', x ∈ l -> t ∈ m_terms x -> copyTerm b t = Ok t' -> weight t' <= weight t) as Ht0 by (intros x t t' Hx; apply (Ht x); set_solver).
  change (total_weight (a :: l)) with (terms_weight (m_terms a) + total_weight l). destruct (keeps b a); [| specialize (IH Hc' Ht0 l' Hl'); lia].
  destruct (copyAlternative (copyTerm b) a) as [a' |] eqn:Ea; [| done]. simpl in Hl'.
  destruct (copyAlternatives (copyTerm b) b l) as [l'' |] eqn:El; [| done]. injection Hl' as <-. specialize (IH Hc' Ht0 l'' eq_refl).
  change (total_weight (a' :: l'')) with (terms_weight (m_terms a') + total_weight l''). assert (terms_weight (m_terms a') <= terms_weight (m_terms a)); [| lia].
  unfold copyAlternative in Ea. destruct (res_map (copyTerm b) (m_terms a)) as [ts |] eqn:Em; [| done]. injection Ea as <-. simpl.
  assert (forall t t', t ∈ m_terms a -> copyTerm b t = Ok t' -> weight t' <= weight t) as Hta by (intros t t'; apply (Ht a); set_solver).
  revert ts Em Hta. generalize (m_terms a). intros ts0. induction ts0 as [| t ts0 IHts]; intros ts Em Hta; [by injection Em as <- |].
  simpl in Em. destruct (copyTerm b t) as [t' |] eqn:Et; [| done]. simpl in Em. destruct (res_map (copyTerm b) ts0) as [ts' |]; [| done].
  injection Em as <-. unfold terms_weight in *. simpl. specialize (IHts ts' eq_refl ltac:(set_solver)). pose proof (Hta t t' ltac:(set_solver) Et). lia.
Qed.

Lemma copyTerm_weight b t : counted_term t -> forall t', copyTerm b t = Ok t' -> weight t' <= weight t.
Proof.
  intros [Hc Ht]. revert Hc. induction Ht as [t _ HQ Hin IH]. intros Hc t' Ht'.
  assert (forall l l', all_counted l -> (forall a t t', a ∈ l -> t ∈ m_terms a -> copyTerm b t = Ok t' -> weight t' <= weight t) ->
    copyAlternatives (copyTerm b) b l = Ok l' -> total_weight l' <= total_weight l) as Halts by (intros; by eapply copyAlternatives_weight).
  destruct (copyTerm_inv b t t' Ht') as (_ & _ & _ & _ & Hty).
  assert (all_counted (nested t)) as Hcn by (intros a Ha t1 Ht1; split; [by apply (HQ a) | by apply (Hin a)]).
  assert (forall a t0 t0', a ∈ nested t -> t0 ∈ m_terms a -> copyTerm b t0 = Ok t0' -> weight t0' <= weight t0) as Hn
    by (intros a t0 t0' Ha Ht0; apply (IH a t0 Ha Ht0); by apply (HQ a)).
  unfold nested, parentheses_of in *. destruct (t_type t) as [| | | | | | | p | p |] eqn:Et; try (subst t'; done);
    destruct Hty as (l & Hl & Et'); rewrite (weight_parens t p), (weight_parens t' (set_disjunction (new_disjunction l) p))
      by (unfold parentheses_of; by rewrite ?Et, ?Et'); specialize (Halts _ _ Hcn Hn Hl); simpl; lia.
Qed.
