(* ===== verification/YarrCompile.v ===== *)
(** * [YarrPattern::compile]: the passes together

    The search with the compiled pattern is that of the abstract syntax, for
    patterns whose [^] are where [optimizeBOL] handles them and which
    [optimizeDotStarWrappedExpressions] leaves as they are. *)

From stdpp Require Import base numbers list gmap.
From S2P Require Import Prelude Ctype Yarr YarrProof YarrSim YarrCanonicalize YarrClass YarrClassProof YarrPattern YarrMatch YarrRegex YarrMatchProof YarrTree YarrBuild YarrSyntax YarrCounts YarrConstruct YarrAnchor YarrOffsets.

#[local] Open Scope Z_scope.

Lemma Forall2_in {A B} (R : A -> B -> Prop) l' l x' : Forall2 R l' l -> x' ∈ l' -> exists x, x ∈ l /\ R x' x.
Proof.
  induction 1 as [| y' y l' l Hy _ IH]; intros Hx; [by apply elem_of_nil in Hx |].
  apply elem_of_cons in Hx as [-> | Hx]; [exists y; split; [set_solver | done] | destruct (IH Hx) as (z & ? & ?); exists z; split; [set_solver | done]].
Qed.

Section passes.
Context `{BuiltInClasses} (ignoreCase multiline : bool).

Abbreviation matches := (match_term ignoreCase multiline).
Abbreviation alternatives p := (m_alternatives (m_body p)).
Abbreviation exec := (exec ignoreCase multiline).

(** ** Terminal parentheses *)

(** A term that differs in what no other pass and no match looks at. *)
Record similar (t' t : PatternTerm) : Prop := mk_similar {
  sm_nested : nested t' = nested t;
  sm_parentheses : is_Some (parentheses_of t') <-> is_Some (parentheses_of t);
  sm_count : t_quantityCount t' = t_quantityCount t;
  sm_lookahead : is_lookahead t' = is_lookahead t;
  sm_weight : weight t' = weight t;
  sm_dot nonGreedy : is_dot_star t' nonGreedy = is_dot_star t nonGreedy;
  sm_bol : t_type t' = TypeAssertionBOL <-> t_type t = TypeAssertionBOL;
  sm_matches input s : matches input t' s = matches input t s
}.

Lemma similar_refl t : similar t t.
Proof. by split. Qed.

Lemma mark_terminal_similar t : similar (mark_terminal t) t.
Proof.
  unfold mark_terminal. destruct (t_type t) as [| | | | | | | p | p |] eqn:Et; try apply similar_refl. destruct (_ && _); [| apply similar_refl].
  assert (parentheses_of t = Some p) as Hp by (unfold parentheses_of; by rewrite Et).
  set (p' := mk_parentheses (p_disjunction p) (p_subpatternId p) (p_lastSubpatternId p) (p_isCopy p) true). split.
  - unfold nested, parentheses_of. simpl. by rewrite Et.
  - unfold parentheses_of. simpl. rewrite Et. split; by eexists.
  - done.
  - unfold is_lookahead. simpl. by rewrite Et.
  - by rewrite (weight_parens t p Hp), (weight_parens (set_type (TypeParenthesesSubpattern p') t) p').
  - intros nonGreedy. unfold is_dot_star. simpl. by rewrite Et.
  - simpl. rewrite Et. done.
  - intros input s. rewrite !match_term_once.
    change (quantified input (set_type (TypeParenthesesSubpattern p') t)) with (quantified input t). apply quantified_ext. intros s0.
    by rewrite (once_group _ _ _ t p s0 Et), (once_group _ _ _ _ p').
Qed.

(** An alternative with similar terms. *)
Record similar_alternative (a' a : PatternAlternative) : Prop := mk_similar_alternative {
  sa_terms : Forall2 similar (m_terms a') (m_terms a);
  sa_starts : m_startsWithBOL a' = m_startsWithBOL a;
  sa_once : m_onceThrough a' = m_onceThrough a
}.

Lemma similar_sequence ts' ts input s : Forall2 similar ts' ts -> sequence (matches input) ts' s = sequence (matches input) ts s.
Proof.
  intros Hs. revert s. induction Hs as [| t' t ts' ts Ht _ IH]; intros s; [done |]. simpl. rewrite (sm_matches _ _ Ht). apply bind_ext. intros s' _. apply IH.
Qed.

Lemma similar_ok (Q : PatternAlternative -> Prop) t' t : similar t' t -> term_ok Q t -> term_ok Q t'.
Proof. intros Hs. apply term_ok_nested; [apply Hs | apply Hs]. Qed.

Lemma similar_alike a' a : similar_alternative a' a -> alike ignoreCase multiline a' a.
Proof. intros [Ht _ Ho]. split; [done |]. intros input s. by apply similar_sequence. Qed.

Lemma similar_flag_ok a' a : similar_alternative a' a -> alternative_ok (flag_ok ignoreCase multiline) a -> alternative_ok (flag_ok ignoreCase multiline) a'.
Proof.
  intros [Ht Hst _] [(F1 & F2 & F3) Hok]. split; [split; [| split] |].
  - rewrite Hst. intros Hs Hm input s Hp. rewrite (similar_sequence _ _ _ _ Ht). by apply F1.
  - intros (t' & Ht' & Hp & Hall). destruct (Forall2_in _ _ _ _ Ht Ht') as (t & Hin & Hs). rewrite Hst. apply F2. exists t. split; [done |].
    split; [by apply Hs |]. rewrite <- (sm_nested _ _ Hs). done.
  - intros t' Ht' Hl. destruct (Forall2_in _ _ _ _ Ht Ht') as (t & Hin & Hs). apply (similar_ok _ _ _ Hs). apply F3; [done |]. by rewrite <- (sm_lookahead _ _ Hs).
  - intros t' Ht'. destruct (Forall2_in _ _ _ _ Ht Ht') as (t & Hin & Hs). by apply (similar_ok _ _ _ Hs), Hok.
Qed.

Lemma similar_counted a' a : similar_alternative a' a -> terms_counted (m_terms a) -> terms_counted (m_terms a').
Proof.
  intros [Ht _ _] Hc t' Ht'. destruct (Forall2_in _ _ _ _ Ht Ht') as (t & Hin & Hs). destruct (Hc t Hin) as [H1 H2].
  split; [by rewrite (sm_count _ _ Hs) | by apply (similar_ok _ _ _ Hs)].
Qed.

Lemma similar_weight l' l : Forall2 similar_alternative l' l -> total_weight l' = total_weight l.
Proof.
  induction 1 as [| a' a l' l [Ha _ _] _ IH]; [done |]. change (terms_weight (m_terms a') + total_weight l' = terms_weight (m_terms a) + total_weight l).
  rewrite IH. f_equal. induction Ha as [| t' t ts' ts Ht _ IHt]; [done |]. unfold terms_weight in *. simpl. by rewrite IHt, (sm_weight _ _ Ht).
Qed.

Lemma checkForTerminal_similar p : Forall2 similar_alternative (alternatives (checkForTerminalParentheses p)) (alternatives p).
Proof.
  assert (forall ts, Forall2 similar ts ts) as Hrefl by (intros ts; apply Forall_Forall2_diag, Forall_true; apply similar_refl).
  unfold checkForTerminalParentheses. destruct (truthy _).
  - apply Forall_Forall2_diag, Forall_true. by split.
  - simpl. generalize (alternatives p). intros l. induction l as [| a l IH]; [constructor |]. simpl. constructor; [| done].
    destruct (last (m_terms a)) as [t |] eqn:El; [| by split]. split; [| done | done]. simpl.
    apply last_Some in El as [ts ->]. rewrite removelast_last. apply Forall2_app; [done |]. constructor; [apply mark_terminal_similar | constructor].
Qed.

(** ** The enclosure of [.*] *)

(** The first term that is no [^] is a repeated [.]. *)
Definition begins_with_dots (l : list PatternAlternative) : bool :=
  match l with
  | [a] => match m_terms a with
           | t0 :: ts => match t_type t0 with
                         | TypeAssertionBOL => match ts with t1 :: _ => is_dot_star t1 true | [] => false end
                         | _ => is_dot_star t0 true
                         end
           | [] => false
           end
  | _ => false
  end.

Lemma similar_dots l' l : Forall2 similar_alternative l' l -> begins_with_dots l' = begins_with_dots l.
Proof.
  intros Hl. destruct Hl as [| a' a l' l [Ha _ _] Hl]; [done |]. destruct Hl; [| done]. simpl.
  destruct Ha as [| t0' t0 ts' ts H0 Hts]; [done |]. pose proof (sm_bol _ _ H0) as Hb. pose proof (sm_dot _ _ H0 true) as Hd.
  assert (match ts' with t1 :: _ => is_dot_star t1 true | [] => false end = match ts with t1 :: _ => is_dot_star t1 true | [] => false end) as Hn
    by (destruct Hts as [| t1' t1 ? ? H1 _]; [done | apply H1]).
  destruct (t_type t0') eqn:E', (t_type t0) eqn:E; try done; try (destruct Hb as [H1 H2]; by (specialize (H1 eq_refl) || specialize (H2 eq_refl))).
Qed.

Lemma no_enclosure p : begins_with_dots (alternatives p) = false -> optimizeDotStarWrappedExpressions p = Ok p.
Proof.
  intros Hd. unfold optimizeDotStarWrappedExpressions, begins_with_dots in *. destruct (alternatives p) as [| a [| b l]]; try done.
  destruct (_ <? 3) eqn:Hs; [done |]. destruct (m_terms a) as [| t0 [| t1 ts]]; try done.
  assert (forall t, term_at (t :: t1 :: ts) 0 = Ok t) as H0 by done. assert (term_at (t0 :: t1 :: ts) 1 = Ok t1) as H1 by done.
  rewrite H0. cbn [mbind PR_bind]. destruct (t_type t0) eqn:E; rewrite ?H1, ?H0; cbn [mbind PR_bind]; rewrite Hd; done.
Qed.

(** ** The search *)

Lemma alike_exec p' p input start : Forall2 (alike ignoreCase multiline) (alternatives p') (alternatives p) -> exec input p' start = exec input p start.
Proof.
  intros Hl. unfold YarrMatch.exec. apply search_head. intros i _. f_equal. apply alike_alternatives, alike_filter; [| done].
  intros a' a Ho. by rewrite Ho.
Qed.

(** Trees without negative counts, which every pass keeps. *)
Definition tree_counted (p : YarrPattern) : Prop := alternatives p <> [] /\ all_counted (alternatives p).

Lemma counted_any ts : terms_counted ts -> terms_ok any ts.
Proof. intros Hts t Ht. destruct (Hts t Ht) as [_ Hok]. by apply (term_ok_mono counted). Qed.

Lemma checkForTerminal_counted p : tree_counted p -> tree_counted (checkForTerminalParentheses p).
Proof.
  intros [Hne Hc]. pose proof (checkForTerminal_similar p) as Hs. split; [intros E; rewrite E in Hs; inversion Hs; congruence |].
  intros a' Ha'. destruct (Forall2_in _ _ _ _ Hs Ha') as (a & Ha & Hsim). by apply (similar_counted _ _ Hsim), Hc.
Qed.

Lemma dot_star_counted p p' : optimizeDotStarWrappedExpressions p = Ok p' -> tree_counted p -> tree_counted p'.
Proof.
  intros Hp [Hne Hc]. unfold optimizeDotStarWrappedExpressions in Hp.
  destruct (alternatives p) as [| a [| b l]] eqn:El; [by injection Hp as <- | | injection Hp as <-; split; rewrite El; done].
  assert (tree_counted p) as Hsame by (split; rewrite El; done). destruct (_ <? 3); [by injection Hp as <- |].
  apply setup_Ok in Hp as (t0 & _ & Hp). apply setup_Ok in Hp as (t1 & _ & Hp). destruct (negb _); [by injection Hp as <- |].
  apply setup_Ok in Hp as (tl & _ & Hp). apply setup_Ok in Hp as (t2 & _ & Hp). destruct (negb _); [by injection Hp as <- |].
  destruct (_ <? _); [by injection Hp as <- |]. apply setup_Ok in Hp as (capturing & _ & Hp). destruct capturing; injection Hp as <-; [done |].
  split; [done |]. intros a' ->%list_elem_of_singleton t Ht. simpl in Ht. apply elem_of_app in Ht as [Ht | ->%list_elem_of_singleton].
  - apply (Hc a); [set_solver |]. apply list_elem_of_lookup in Ht as [i Hi]. rewrite lookup_drop in Hi.
    apply lookup_take_Some in Hi as [Hi _]. by apply (list_elem_of_lookup_2 _ _ _ Hi).
  - split; [done | by apply term_ok_leaf].
Qed.

(** The first pass that copies makes the tree at most twice as large. *)
Lemma optimizeBOL_size p p' : optimizeBOL p = Ok p' -> all_counted (alternatives p) ->
  all_counted (alternatives p') /\ total_weight (alternatives p') <= 2 * total_weight (alternatives p).
Proof.
  intros Hp Hc. pose proof (total_weight_nonneg _ Hc) as Hw. unfold optimizeBOL in Hp. destruct (_ || _); [injection Hp as <-; split; [done | lia] |].
  apply setup_Ok in Hp as (d & Hd & Hp). injection Hp as <-. simpl. unfold copyDisjunction, copyDisjunction_ in Hd.
  destruct (copyAlternatives (copyTerm true) true (alternatives p)) as [l' |] eqn:El; [| done]. injection Hd as <-.
  assert (match match l' with [] => None | _ => Some (new_disjunction l') end with Some l => m_alternatives l | None => [] end = l') as -> by (by destruct l').
  assert (total_weight (map setOnceThrough (alternatives p)) = total_weight (alternatives p)) as Hsame.
  { clear. generalize (alternatives p). intros l. induction l as [| a l IH]; [done |]. unfold total_weight in *. simpl. by rewrite IH. }
  split.
  - intros a Ha. apply elem_of_app in Ha as [Ha | Ha].
    + apply list_elem_of_fmap in Ha as (a0 & -> & Ha0). by apply (Hc a0).
    + intros t Ht. revert Ha Ht. apply (copyAlternatives_all counted_term true _ _ ltac:(intros a0 t0 t0' Ha0 Ht0; apply copyTerm_counted; by apply (Hc a0)) El).
  - unfold total_weight in *. rewrite sum_app, Hsame.
    assert (total_weight l' <= total_weight (alternatives p)); [| unfold total_weight in *; lia].
    apply (copyAlternatives_weight true (alternatives p)); [done | | done]. intros a t t' Ha Ht. apply copyTerm_weight. by apply (Hc a).
Qed.

Lemma optimizeBOL_counted p p' : optimizeBOL p = Ok p' -> tree_counted p -> tree_counted p'.
Proof.
  intros Hp [Hne Hc]. split; [| by apply (optimizeBOL_size p)]. unfold optimizeBOL in Hp. destruct (_ || _); [by injection Hp as <- |].
  apply setup_Ok in Hp as (d & _ & Hp). injection Hp as <-. simpl. by destruct (alternatives p).
Qed.

(** The positions and sizes of the whole tree. *)
Lemma setupOffsets_inv p p' : setupOffsets p = Ok p' -> tree_counted p ->
  Forall2 (alike ignoreCase multiline) (alternatives p') (alternatives p) /\ forall a, a ∈ alternatives p' -> alternative_ok (sized ignoreCase multiline) a.
Proof.
  intros Hp [Hne Hc]. apply setup_Ok in Hp as ([d' f'] & Hd & Hp). injection Hp as <-. simpl. unfold setupDisjunctionOffsets in Hd.
  destruct (setupDisjunction_ok ignoreCase multiline (alternatives p)) with (2 := eq_refl (alternatives p)) (3 := Hne) (4 := Hd) as (S & Z & _); [| done].
  intros a t init o t' o' Ha Ht. apply setupTerm_ok. by apply (counted_any (m_terms a)), Ht; apply Hc.
Qed.

Lemma setupOffsets_fits p : tree_counted p -> total_weight (alternatives p) < 2 ^ 32 - 2 -> exists p', setupOffsets p = Ok p'.
Proof.
  intros [Hne Hc] Hw. destruct (setupDisjunction_fits true (m_body p) 0 0 Hc Hne) as (d' & f' & m & Hd & _); [| done | done | lia | lia |].
  { intros a t Ha Ht. apply fits_all; [by apply (Hc a) | by apply (counted_any (m_terms a)); [apply Hc |]]. }
  unfold setupOffsets, setupDisjunctionOffsets. rewrite Hd. by eexists.
Qed.

(** The sizes in a compiled tree are right. *)
Lemma optimize_sized p p' : optimize p = Ok p' -> tree_counted p -> forall a, a ∈ alternatives p' -> alternative_ok (sized ignoreCase multiline) a.
Proof.
  intros Hp Hc. apply setup_Ok in Hp as (p1 & H1 & Hp). apply setup_Ok in Hp as (p2 & H2 & Hp).
  apply (setupOffsets_inv _ _ Hp). apply (optimizeBOL_counted _ _ H2). apply (dot_star_counted _ _ H1). by apply checkForTerminal_counted.
Qed.

(** The passes succeed on a tree that is not too large, and keep the search. *)
Lemma optimize_ok p : m_multiline p = multiline -> tree_counted p -> looping (alternatives p) ->
  (multiline = true \/ forall a, a ∈ alternatives p -> alternative_ok (flag_ok ignoreCase multiline) a) ->
  begins_with_dots (alternatives p) = false -> 2 * total_weight (alternatives p) < 2 ^ 32 - 2 ->
  exists p', optimize p = Ok p' /\ forall input start, exec input p' start =
    search (length input - start) (fun i => match_alternatives ignoreCase multiline input (alternatives p) (match_begin i)) start.
Proof.
  intros Hm Hc Hloop Hflags Hdots Hw. set (p1 := checkForTerminalParentheses p). pose proof (checkForTerminal_similar p) as Hsim. fold p1 in Hsim.
  pose proof (checkForTerminal_counted p Hc) as Hc1. fold p1 in Hc1.
  assert (looping (alternatives p1)) as Hloop1.
  { intros a' Ha'. destruct (Forall2_in _ _ _ _ Hsim Ha') as (a & Ha & Hs). rewrite (sa_once _ _ Hs). by apply Hloop. }
  assert (m_multiline p1 = multiline) as Hm1 by (unfold p1, checkForTerminalParentheses; by destruct (truthy _)).
  assert (Forall2 (alike ignoreCase multiline) (alternatives p1) (alternatives p)) as Hal by (eapply Forall2_impl; [exact Hsim | apply similar_alike]).
  assert (exists p2, optimizeBOL p1 = Ok p2 /\ forall input start, exec input p2 start = exec input p1 start) as (p2 & Hp2 & He2).
  { destruct Hflags as [Hml | Hfl].
    - exists p1. split; [| done]. unfold optimizeBOL. rewrite Hm1, Hml. by rewrite orb_true_r.
    - destruct (optimizeBOL_ok ignoreCase multiline p1 Hm1 (proj1 Hc1) Hloop1) as (p2 & Hp2 & He & _); [| by exists p2].
      intros a' Ha'. destruct (Forall2_in _ _ _ _ Hsim Ha') as (a & Ha & Hs). by apply (similar_flag_ok _ _ Hs), Hfl. }
  pose proof (optimizeBOL_counted _ _ Hp2 Hc1) as Hc2. destruct (optimizeBOL_size _ _ Hp2 (proj2 Hc1)) as [_ Hw2].
  rewrite (similar_weight _ _ Hsim) in Hw2. destruct (setupOffsets_fits p2 Hc2) as [p3 Hp3]; [lia |]. exists p3. split.
  - unfold optimize. fold p1. rewrite no_enclosure by (by rewrite (similar_dots _ _ Hsim)). cbn [mbind PR_bind]. rewrite Hp2. exact Hp3.
  - intros input start. destruct (setupOffsets_inv _ _ Hp3 Hc2) as [Hal3 _]. rewrite (alike_exec _ _ _ _ Hal3), He2, exec_looping by done.
    apply search_head. intros i _. f_equal. by apply alike_alternatives.
Qed.
End passes.
