(* ===== verification/YarrTerminal.v ===== *)
(** * Terminal parentheses: [checkForTerminalParentheses]

    Parentheses at the end of the pattern that the matchers never come back to.
    They are marked nowhere else, all other passes leave the marks where they
    are, and the search without a way back finds the same. *)

From stdpp Require Import base numbers list gmap.
From S2P Require Import Prelude Ctype Yarr YarrProof YarrSim YarrCanonicalize YarrClass YarrPattern YarrMatch YarrRegex YarrMatchProof YarrTree YarrConstruct YarrAnchor YarrOffsets YarrCompile.

#[local] Open Scope Z_scope.

(** ** Marks *)

(** Parentheses that repeat without bound, greedily and without a capture. *)
Definition repeats (t : PatternTerm) : bool :=
  match t_type t with
  | TypeParenthesesSubpattern _ =>
      bool_decide (t_quantityType t = QuantifierGreedy) && (t_quantityCount t =? quantifyInfinite) && negb (t_capture t)
  | _ => false
  end.

(** No parentheses in the term are marked. *)
Inductive plain : PatternTerm -> Prop :=
  | plain_intro t :
      is_terminal t = false -> (forall a t', a ∈ nested t -> t' ∈ m_terms a -> plain t') -> plain t.

Definition plain_alternative (a : PatternAlternative) : Prop := forall t, t ∈ m_terms a -> plain t.
Definition plain_inside (t : PatternTerm) : Prop := forall a, a ∈ nested t -> plain_alternative a.

(** An alternative of the body: all its terms but the last are unmarked, and the
    last one is marked if [marks] and it repeats. *)
Definition tail_marked (marks : bool) (a : PatternAlternative) : Prop :=
  forall ts t, m_terms a = ts ++ [t] -> Forall plain ts /\ plain_inside t /\ is_terminal t = marks && repeats t.

Lemma plain_iff t : plain t <-> is_terminal t = false /\ plain_inside t.
Proof. split; [intros [t' Hm Hn]; split; [done | intros a Ha t0; by apply Hn] | intros [Hm Hn]; constructor; [done |]; intros a t' Ha; by apply Hn]. Qed.

Lemma plain_leaf t : parentheses_of t = None -> plain t.
Proof.
  intros Hp. apply plain_iff. split; [| unfold plain_inside, nested; rewrite Hp; intros a Ha; by apply elem_of_nil in Ha].
  unfold is_terminal, parentheses_of in *. by destruct (t_type t).
Qed.

Lemma plain_tail a : plain_alternative a -> tail_marked false a.
Proof.
  intros Ha ts t Ht. unfold plain_alternative in Ha. rewrite Ht in Ha. split; [| destruct (proj1 (plain_iff t) (Ha t ltac:(set_solver))); by split].
  apply list.Forall_forall. intros x Hx. apply Ha. set_solver.
Qed.

(** [t'] is marked and quantified like [t], and its parts are unmarked if those of [t] are. *)
Record marked_like (t' t : PatternTerm) : Prop := mk_marked_like {
  ml_terminal : is_terminal t' = is_terminal t;
  ml_repeats : repeats t' = repeats t;
  ml_inside : plain_inside t -> plain_inside t'
}.

Lemma marked_like_refl t : marked_like t t.
Proof. by split. Qed.

Lemma marked_plain t' t : marked_like t' t -> plain t -> plain t'.
Proof. intros [H1 _ H2]. rewrite !plain_iff, H1. intros [? ?]. auto. Qed.

Lemma marked_tail marks a' a : Forall2 marked_like (m_terms a') (m_terms a) -> tail_marked marks a -> tail_marked marks a'.
Proof.
  intros Hs Ha ts' t' Ht. rewrite Ht in Hs. apply Forall2_app_inv_l in Hs as (ts & l & Hts & Hl & Heq).
  apply Forall2_cons_inv_l in Hl as (t & l' & Hm & Hl & ->). apply Forall2_nil_inv_l in Hl as ->.
  destruct (Ha ts t Heq) as (Hp & Hin & Hmark). split_and!.
  - clear -Hp Hts. induction Hts as [|x' x ts' ts Hx _ IH]; [constructor |]. apply Forall_cons in Hp as [Hx0 Hp].
    constructor; [by apply (marked_plain x' x) | by apply IH].
  - by apply (ml_inside _ _ Hm).
  - by rewrite (ml_terminal _ _ Hm), (ml_repeats _ _ Hm).
Qed.

(** ** Copies *)

Lemma res_map_Ok {A B} (f : A -> PR B) l : forall l', res_map f l = Ok l' -> Forall2 (fun x' x => f x = Ok x') l' l.
Proof.
  induction l as [|x l IH]; intros l' Hl; [by injection Hl as <- |]. simpl in Hl.
  apply setup_Ok in Hl as (x' & Hx & Hl). apply setup_Ok in Hl as (l'' & Hl'' & Hl). injection Hl as <-.
  constructor; [done | by apply IH].
Qed.

Lemma copyAlternatives_from b l : forall l', copyAlternatives (copyTerm b) b l = Ok l' ->
  forall a', a' ∈ l' -> exists a, a ∈ l /\ Forall2 (fun t' t => copyTerm b t = Ok t') (m_terms a') (m_terms a).
Proof.
  induction l as [|a l IH]; intros l' Hl a' Ha'; [injection Hl as <-; by apply elem_of_nil in Ha' |]. simpl in Hl. destruct (keeps b a).
  - apply setup_Ok in Hl as (a1 & Ha & Hl). apply setup_Ok in Hl as (l1 & Hl1 & Hl). injection Hl as <-.
    apply elem_of_cons in Ha' as [-> | Ha']; [| destruct (IH l1 Hl1 a' Ha') as (a0 & ? & ?); exists a0; split; [set_solver | done]].
    exists a. split; [set_solver |]. apply setup_Ok in Ha as (ts & Hts & Ha). injection Ha as <-. by apply res_map_Ok.
  - destruct (IH l' Hl a' Ha') as (a0 & ? & ?). exists a0. split; [set_solver | done].
Qed.

Lemma copyTerm_plain b t : plain t -> forall t', copyTerm b t = Ok t' -> plain t'.
Proof.
  induction 1 as [t Hm _ IH]. intros t' Ht. destruct (copyTerm_inv b t t' Ht) as (_ & _ & _ & _ & Hty).
  unfold nested, parentheses_of, is_terminal in *.
  destruct (t_type t) as [| | | | | | | p | p |] eqn:E; try (subst t'; apply plain_leaf; unfold parentheses_of; by rewrite E);
    destruct Hty as (l & Hl & Hty); apply plain_iff; unfold is_terminal, plain_inside, nested, parentheses_of; rewrite Hty; (split; [done |]);
    intros a Ha t0; revert Ha; apply (copyAlternatives_all plain b _ _ ltac:(intros a0 t1 t1' Ha0 Ht1; by apply (IH a0)) Hl).
Qed.

Lemma copyTerm_marked b t t' : copyTerm b t = Ok t' -> marked_like t' t.
Proof.
  intros Ht. destruct (copyTerm_inv b t t' Ht) as (E1 & E2 & E3 & E4 & Hty).
  destruct (t_type t) as [| | | | | | | p | p |] eqn:E; try (subst t'; apply marked_like_refl); destruct Hty as (l & Hl & Hty);
    (split; [unfold is_terminal; by rewrite Hty, E | unfold repeats; by rewrite Hty, E, ?E1, ?E2, ?E3 |]);
    unfold plain_inside, nested, parentheses_of; rewrite Hty, E; intros Hin a Ha t0; revert Ha;
    apply (copyAlternatives_all plain b _ _ ltac:(intros a0 t1 t1' Ha0 Ht1; apply copyTerm_plain; by apply (Hin a0)) Hl).
Qed.

(** ** Offsets *)

Lemma setupTerms_from init ts : forall o ts' o', setupTerms setupTerm init ts o = Ok (ts', o') ->
  Forall2 (fun t' t => exists o o', setupTerm t init o = Ok (t', o')) ts' ts.
Proof.
  induction ts as [|t ts IH]; intros o ts' o' Hs; [by injection Hs as <- <- |]. simpl in Hs.
  apply setup_Ok in Hs as ([t1 o1] & Ht & Hs). apply setup_Ok in Hs as ([ts1 o2] & Hts & Hs). injection Hs as <- <-.
  constructor; [by eauto | by apply (IH o1 _ o2)].
Qed.

Definition set_up (t' t : PatternTerm) : Prop := exists init o o', setupTerm t init o = Ok (t', o').

Lemma setupAlternatives_from frame init l : forall mn mx fx r, setupAlternatives setupTerm frame init l mn mx fx = Ok r ->
  Forall2 (fun a' a => Forall2 set_up (m_terms a') (m_terms a)) r.1 l.
Proof.
  induction l as [|a l IH]; intros mn mx fx r Hs; [by injection Hs as <- |]. simpl in Hs.
  apply setup_Ok in Hs as ([a' f'] & Ha & Hs). apply setup_Ok in Hs as ([l' r'] & Hl & Hs). injection Hs as <-.
  constructor; [| by apply (IH _ _ _ _ Hl)]. apply setup_Ok in Ha as ([ts o'] & Hts & Ha). apply setup_Ok in Ha as (m & _ & Ha). injection Ha as <- _.
  simpl. eapply Forall2_impl; [by apply (setupTerms_from _ _ _ _ _ Hts) |]. intros t' t (o1 & o2 & Ht). by exists init, o1, o2.
Qed.

Lemma setupDisjunction_from isBody d frame init r : setupDisjunctionOffsets_ setupTerm isBody d frame init = Ok r ->
  Forall2 (fun a' a => Forall2 set_up (m_terms a') (m_terms a)) (m_alternatives r.1) (m_alternatives d).
Proof.
  intros Hs. apply setup_Ok in Hs as ([l' [[mn mx] fx]] & Hl & Hs). apply setup_Ok in Hs as (_ & _ & Hs). apply setup_Ok in Hs as (_ & _ & Hs).
  injection Hs as <-. by apply (setupAlternatives_from _ _ _ _ _ _ _ Hl).
Qed.

(** What the pass does to a term. *)
Lemma setupTerm_inv t init o t' o' : setupTerm t init o = Ok (t', o') ->
  t_quantityType t' = t_quantityType t /\ t_quantityCount t' = t_quantityCount t /\ t_capture t' = t_capture t /\
  match t_type t with
  | TypeParenthesesSubpattern p => exists d frame r, setupDisjunctionOffsets_ setupTerm false (p_disjunction p) frame (o_inputPosition o) = Ok r /\
      d = r.1 /\ t_type t' = TypeParenthesesSubpattern (set_disjunction d p)
  | TypeParentheticalAssertion p => exists d frame r, setupDisjunctionOffsets_ setupTerm false (p_disjunction p) frame (o_inputPosition o) = Ok r /\
      d = r.1 /\ t_type t' = TypeParentheticalAssertion (set_disjunction d p)
  | _ => t_type t' = t_type t
  end.
Proof.
  intros Hs. destruct t as [ty ? ? ? ? ? ?]; destruct ty as [| | | | | | | p | p |]; cbn [setupTerm t_type] in Hs;
    try (injection Hs as <- <-; done);
    try (unfold setup_single in Hs; destruct (negb _); [injection Hs as <- <-; done | apply setup_Ok in Hs as (pos & _ & Hs); injection Hs as <- <-; done]).
  - unfold setup_group in Hs. destruct (_ && _); [| destruct (p_isTerminal p)].
    + apply setup_Ok in Hs as (r & Hr & Hs). apply setup_Ok in Hs as (pos & _ & Hs). injection Hs as <- <-. split_and!; [done | done | done |]. by eexists _, _, r.
    + apply setup_Ok in Hs as (r & Hr & Hs). injection Hs as <- <-. split_and!; [done | done | done |]. by eexists _, _, r.
    + apply setup_Ok in Hs as (r & Hr & Hs). injection Hs as <- <-. split_and!; [done | done | done |]. by eexists _, _, r.
  - apply setup_Ok in Hs as (r & Hr & Hs). injection Hs as <- <-. split_and!; [done | done | done |]. by eexists _, _, r.
Qed.

Lemma setupTerm_plain t : plain t -> forall t', set_up t' t -> plain t'.
Proof.
  induction 1 as [t Hm _ IH]. intros t' (init & o & o' & Ht). destruct (setupTerm_inv _ _ _ _ _ Ht) as (_ & _ & _ & Hty).
  unfold nested, parentheses_of, is_terminal in *.
  destruct (t_type t) as [| | | | | | | p | p |] eqn:E; try (apply plain_leaf; unfold parentheses_of; by rewrite Hty);
    destruct Hty as (d & frame & r & Hr & -> & Hty); apply plain_iff; unfold is_terminal, plain_inside, nested, parentheses_of; rewrite Hty; (split; [done |]);
    intros a' Ha' t0 Ht0; apply setupDisjunction_from in Hr; simpl in Ha';
    destruct (Forall2_in _ _ _ _ Hr Ha') as (a & Ha & Hts); destruct (Forall2_in _ _ _ _ Hts Ht0) as (t1 & Ht1 & Hup); by apply (IH a t1).
Qed.

Lemma setupTerm_marked t' t : set_up t' t -> marked_like t' t.
Proof.
  intros (init & o & o' & Ht). destruct (setupTerm_inv _ _ _ _ _ Ht) as (E1 & E2 & E3 & Hty).
  destruct (t_type t) as [| | | | | | | p | p |] eqn:E;
    try (split; [unfold is_terminal; by rewrite Hty, E | unfold repeats; by rewrite Hty, E |
                 intros _ a Ha; unfold nested, parentheses_of in Ha; rewrite Hty in Ha; by apply elem_of_nil in Ha]);
    destruct Hty as (d & frame & r & Hr & -> & Hty);
    (split; [unfold is_terminal; by rewrite Hty, E | unfold repeats; by rewrite Hty, E, ?E1, ?E2, ?E3 |]);
    unfold plain_inside, nested, parentheses_of; rewrite Hty, E; intros Hin a' Ha' t0 Ht0; apply setupDisjunction_from in Hr; simpl in Ha';
    destruct (Forall2_in _ _ _ _ Hr Ha') as (a & Ha & Hts); destruct (Forall2_in _ _ _ _ Hts Ht0) as (t1 & Ht1 & Hup);
    by apply (setupTerm_plain t1); [apply (Hin a) |].
Qed.

(** ** The passes *)

Abbreviation alternatives p := (m_alternatives (m_body p)).

(** The alternatives of the body are marked as [marks] says. *)
Definition body_marked (marks : bool) (p : YarrPattern) : Prop := forall a, a ∈ alternatives p -> tail_marked marks a.

Definition no_captures (p : YarrPattern) : bool := negb (truthy (m_numSubpatterns (m_counts p))).

Lemma mark_terminal_marked t : plain t -> plain_inside (mark_terminal t) /\ is_terminal (mark_terminal t) = repeats (mark_terminal t).
Proof.
  intros [Hm Hn]%plain_iff. unfold mark_terminal. destruct (t_type t) as [| | | | | | | p | p |] eqn:E;
    try (split; [exact Hn |]; rewrite Hm; unfold repeats; by rewrite E).
  destruct (_ && _) eqn:Er.
  - split; [| unfold is_terminal, repeats; simpl; by rewrite Er]. unfold plain_inside, nested, parentheses_of in *. rewrite E in Hn. exact Hn.
  - split; [exact Hn |]. rewrite Hm. unfold repeats. by rewrite E, Er.
Qed.

Lemma checkForTerminal_marked p : (forall a, a ∈ alternatives p -> plain_alternative a) -> body_marked (no_captures p) (checkForTerminalParentheses p).
Proof.
  intros Hp. unfold checkForTerminalParentheses, no_captures. destruct (truthy _); [intros a Ha; by apply plain_tail, Hp |].
  intros a' (a & -> & Ha)%list_elem_of_fmap ts t Ht. specialize (Hp a Ha). destruct (last (m_terms a)) as [t0 |] eqn:El.
  - apply last_Some in El as [ts0 El]. simpl in Ht. rewrite El, removelast_last in Ht. apply app_inj_tail in Ht as [<- <-].
    unfold plain_alternative in Hp. rewrite El in Hp. split; [apply list.Forall_forall; intros x Hx; apply Hp; set_solver |].
    apply mark_terminal_marked, Hp. set_solver.
  - apply last_None in El. rewrite El in Ht. by destruct ts.
Qed.

Lemma dot_star_marked marks p p' : optimizeDotStarWrappedExpressions p = Ok p' -> body_marked marks p -> body_marked marks p' /\ no_captures p' = no_captures p.
Proof.
  intros Hp Hm. unfold optimizeDotStarWrappedExpressions in Hp.
  destruct (alternatives p) as [| a [| b l]] eqn:El; [by injection Hp as <- | | by injection Hp as <-].
  destruct (Z.ltb_spec (Z.of_nat (length (m_terms a))) 3) as [_ | Hsize]; [by injection Hp as <- |].
  apply setup_Ok in Hp as (t0 & _ & Hp). apply setup_Ok in Hp as (t1 & _ & Hp). destruct (negb _); [by injection Hp as <- |].
  apply setup_Ok in Hp as (tl & _ & Hp). apply setup_Ok in Hp as (t2 & _ & Hp). destruct (negb _); [by injection Hp as <- |].
  destruct (_ <? _); [by injection Hp as <- |]. apply setup_Ok in Hp as (capturing & _ & Hp). destruct capturing; injection Hp as <-; [done |].
  split; [| done]. intros a' ->%list_elem_of_singleton ts t Ht. simpl in Ht. apply app_inj_tail in Ht as [<- <-].
  assert (forall b e, plain (new_term (TypeDotStarEnclosure b e) false false)) as Hen by (intros; by apply plain_leaf).
  split; [| split; [by apply plain_iff, Hen | by rewrite andb_false_r]].
  destruct (exists_last (l := m_terms a)) as (ts & t & Ht); [intros Hn; rewrite Hn in Hsize; by apply Hsize |].
  destruct (Hm a ltac:(rewrite El; set_solver) ts t Ht) as [Hts _]. rewrite Ht, length_app. simpl length.
  assert (forall b : bool, (Z.to_nat ((if b then Z.of_nat (length ts + 1) - 2 else Z.of_nat (length ts + 1) - 1) - 1 + 1) <= length ts)%nat) as Hn
    by (intros []; clear; lia).
  apply Forall_drop. rewrite take_app_le by apply Hn. by apply Forall_take.
Qed.

Lemma optimizeBOL_marked marks p p' : optimizeBOL p = Ok p' -> body_marked marks p -> body_marked marks p' /\ no_captures p' = no_captures p.
Proof.
  intros Hp Hm. unfold optimizeBOL in Hp. destruct (_ || _); [by injection Hp as <- |].
  apply setup_Ok in Hp as (d & Hd & Hp). injection Hp as <-. split; [| done]. unfold copyDisjunction, copyDisjunction_ in Hd.
  apply setup_Ok in Hd as (l' & Hl & Hd). injection Hd as <-. intros a Ha. simpl in Ha. apply elem_of_app in Ha as [Ha | Ha].
  - apply list_elem_of_fmap in Ha as (a0 & -> & Ha0). exact (Hm a0 Ha0).
  - assert (a ∈ l') as Ha' by (by destruct l'). destruct (copyAlternatives_from _ _ _ Hl a Ha') as (a0 & Ha0 & Hts).
    apply (marked_tail marks a a0); [| by apply Hm]. eapply Forall2_impl; [exact Hts | intros t' t; apply copyTerm_marked].
Qed.

Lemma setupOffsets_marked marks p p' : setupOffsets p = Ok p' -> body_marked marks p -> body_marked marks p' /\ no_captures p' = no_captures p.
Proof.
  intros Hp Hm. apply setup_Ok in Hp as (r & Hr & Hp). injection Hp as <-. split; [| done]. apply setupDisjunction_from in Hr.
  intros a' Ha'. destruct (Forall2_in _ _ _ _ Hr Ha') as (a & Ha & Hts). apply (marked_tail marks a' a); [| by apply Hm].
  eapply Forall2_impl; [exact Hts | apply setupTerm_marked].
Qed.

(** After all passes the parentheses at the end are marked if there is no capture. *)
Lemma optimize_marked p p' : (forall a, a ∈ alternatives p -> plain_alternative a) -> optimize p = Ok p' ->
  body_marked (no_captures p') p'.
Proof.
  intros Hpl Hp. assert (no_captures (checkForTerminalParentheses p) = no_captures p) as H0
    by (unfold checkForTerminalParentheses; by destruct (truthy (m_numSubpatterns (m_counts p)))).
  apply setup_Ok in Hp as (p1 & H1 & Hp). apply setup_Ok in Hp as (p2 & H2 & Hp).
  destruct (dot_star_marked _ _ _ H1 (checkForTerminal_marked p Hpl)) as [M1 C1].
  destruct (optimizeBOL_marked _ _ _ H2 M1) as [M2 C2]. destruct (setupOffsets_marked _ _ _ Hp M2) as [M3 C3].
  by rewrite C3, C2, C1, H0.
Qed.

(** ** The constructor marks nothing *)

(** The alternatives that a constructor holds. *)
Definition held (c : YarrPatternConstructor) : list PatternAlternative :=
  m_before c ++ [m_alternative c] ++ (m_enclosing c ≫= fun f => fr_before f ++ [fr_alternative f]).

Definition unmarked (c : YarrPatternConstructor) : Prop := Forall plain_alternative (held c).

Lemma unmarked_iff c : unmarked c <->
  Forall plain_alternative (m_before c) /\ plain_alternative (m_alternative c) /\
  Forall (fun f => Forall plain_alternative (fr_before f) /\ plain_alternative (fr_alternative f)) (m_enclosing c).
Proof.
  unfold unmarked, held. rewrite !Forall_app, Forall_singleton, Forall_bind.
  assert (forall f, Forall plain_alternative (fr_before f ++ [fr_alternative f]) <->
    Forall plain_alternative (fr_before f) /\ plain_alternative (fr_alternative f)) as Hf by (intros f; by rewrite Forall_app, Forall_singleton).
  rewrite (Forall_iff _ _ _ Hf). tauto.
Qed.

Lemma plain_append t a : plain_alternative a -> plain t -> plain_alternative (append_term t a).
Proof. intros Ha Ht t' [Ht' | ->%list_elem_of_singleton]%elem_of_app; [by apply Ha | done]. Qed.

Lemma plain_replace t a : plain_alternative a -> plain t -> plain_alternative (Constructor.replaceLast t a).
Proof.
  intros Ha Ht t' [Ht' | ->%list_elem_of_singleton]%elem_of_app; [| done]. apply Ha.
  destruct (m_terms a) as [|x l] eqn:E using rev_ind; [by apply elem_of_nil in Ht' |]. rewrite removelast_last in Ht'. set_solver.
Qed.

Lemma plain_removed a a' : removeLastTerm a = Ok a' -> plain_alternative a -> plain_alternative a'.
Proof.
  unfold removeLastTerm. intros Hr Ha t' Ht'. apply Ha. destruct (m_terms a) as [|x l _] eqn:E using rev_ind; [done |].
  assert (set_terms (removelast (l ++ [x])) a = a') as <- by (by destruct l; injection Hr). simpl in Ht'. rewrite removelast_last in Ht'. set_solver.
Qed.

Lemma plain_last a t : lastTerm a = Ok t -> plain_alternative a -> plain t.
Proof. unfold lastTerm. destruct (last (m_terms a)) as [t0 |] eqn:El; intros [= <-] Ha. apply Ha. apply last_Some in El as [l ->]. set_solver. Qed.

Lemma plain_quantify count kind t : plain t -> plain (quantify count kind t).
Proof. rewrite !plain_iff. by intros [Hm Hn]. Qed.

Lemma plain_mark_copy t : plain t -> plain (Constructor.mark_copy t).
Proof.
  rewrite !plain_iff. intros [Hm Hn]. unfold Constructor.mark_copy, is_terminal, plain_inside, nested, parentheses_of in *.
  destruct (t_type t) as [| | | | | | | p | p |] eqn:E; simpl; rewrite ?E; by split.
Qed.

(** A term is added, or the alternative replaced. *)
Lemma unmarked_alternative c a : unmarked c -> plain_alternative a -> unmarked (c <| m_alternative := a |>).
Proof. rewrite !unmarked_iff. intros (H1 & _ & H3) Ha. by split_and!. Qed.

Lemma unmarked_add c t : unmarked c -> plain t -> unmarked (Constructor.add t c).
Proof. intros Hc Ht. apply unmarked_alternative; [done |]. apply plain_append; [| done]. by apply unmarked_iff in Hc as (_ & ? & _). Qed.

Lemma unmarked_leaf c t : unmarked c -> parentheses_of t = None -> unmarked (Constructor.add t c).
Proof. intros Hc Ht. apply unmarked_add; [done | by apply plain_leaf]. Qed.

Lemma unmarked_held c c' : held c' = held c -> unmarked c -> unmarked c'.
Proof. unfold unmarked. by intros ->. Qed.

Lemma class_held {A} (m : ClassM A) c a c' : Constructor.in_class m c = Ok (a, c') -> held c' = held c.
Proof. unfold Constructor.in_class. destruct (m _) as [[a' cc] |]; [by intros [= _ <-] | done]. Qed.

Lemma unmarked_put m c c' : Constructor.put_class m c = Ok c' -> unmarked c -> unmarked c'.
Proof. intros ([a c1] & E & [= <-])%setup_Ok. apply unmarked_held. by apply class_held in E. Qed.

Lemma unmarked_add_class invert c c' : Constructor.add_class invert c = Ok c' -> unmarked c -> unmarked c'.
Proof.
  intros ([a c1] & E & [= <-])%setup_Ok Hc. apply unmarked_leaf; [| done]. apply (unmarked_held c); [by apply class_held in E | done].
Qed.

Lemma unmarked_open c t : unmarked c -> plain t -> unmarked (Constructor.open t c).
Proof.
  rewrite !unmarked_iff. intros (H1 & H2 & H3) Ht. split_and!; [by constructor | intros t' Ht'; by apply elem_of_nil in Ht' |].
  constructor; [| done]. split; [done | by apply plain_append].
Qed.

Lemma unmarked_close c c' : Constructor.atomParenthesesEnd c = Ok c' -> unmarked c -> unmarked c'.
Proof.
  unfold Constructor.atomParenthesesEnd. intros Hc Hu. apply unmarked_iff in Hu as (H1 & H2 & H3). destruct (m_enclosing c) as [|f E] eqn:Ee; [done |].
  apply Forall_cons in H3 as [[F1 F2] H3]. apply setup_Ok in Hc as (t & Ht & Hc). apply setup_Ok in Hc as (t' & Ht' & Hc). injection Hc as <-.
  apply unmarked_iff. split_and!; [done | | done]. set (a := if _ : bool then _ else _).
  assert (m_terms a = m_terms (fr_alternative f)) as Ea by (unfold a; by destruct (negb _)).
  assert (plain_alternative a) as Ha by (unfold plain_alternative; by rewrite Ea).
  apply (plain_replace t' a Ha). pose proof (plain_last _ _ Ht F2) as [Hm _]%plain_iff. unfold Constructor.close in Ht'.
  assert (forall p, parentheses_of t' = Some p -> m_alternatives (p_disjunction p) = m_before c ++ [m_alternative c] -> plain_inside t') as Hin.
  { intros p Hp Hd b Hb. unfold nested in Hb. rewrite Hp, Hd in Hb. apply elem_of_app in Hb as [Hb | ->%list_elem_of_singleton]; [| done].
    by apply (proj1 (list.Forall_forall _ _) H1). }
  apply plain_iff. unfold is_terminal in *. destruct (t_type t) as [| | | | | | | p | p |] eqn:Et; try discriminate Ht';
    (injection Ht' as <-; split; [first [exact Hm | reflexivity] | exact (Hin _ eq_refl eq_refl)]).
Qed.

Lemma unmarked_quantify min max greedy c c' : Constructor.quantifyAtom min max greedy c = Ok c' -> unmarked c -> unmarked c'.
Proof.
  unfold Constructor.quantifyAtom. intros Hc Hu. pose proof (proj1 (unmarked_iff c) Hu) as (_ & Ha & _).
  apply setup_Ok in Hc as (_ & _ & Hc). apply setup_Ok in Hc as (_ & _ & Hc).
  assert (forall c', (a ← removeLastTerm (m_alternative c); Ok (c <| m_alternative := a |>)) = Ok c' -> unmarked c') as Hrm.
  { intros c1 (a & E & [= <-])%setup_Ok. apply unmarked_alternative; [done |]. by apply (plain_removed _ _ E). }
  destruct (negb (truthy max)); [by apply Hrm |]. apply setup_Ok in Hc as (t & Et & Hc). pose proof (plain_last _ _ Et Ha) as Ht.
  apply setup_Ok in Hc as (_ & _ & Hc). apply setup_Ok in Hc as (_ & _ & Hc).
  assert (forall t, plain t -> unmarked (c <| m_alternative := Constructor.replaceLast t (m_alternative c) |>)) as Hrep
    by (intros t0 Ht0; apply unmarked_alternative; [exact Hu | by apply plain_replace]).
  assert (forall r c', (forall copy, plain copy -> plain_alternative (r copy)) ->
    (if min =? 0 then Ok (c <| m_alternative := Constructor.replaceLast (quantify max (if greedy then QuantifierGreedy else QuantifierNonGreedy) t) (m_alternative c) |>)
     else if min =? max then Ok (c <| m_alternative := Constructor.replaceLast (quantify min QuantifierFixedCount t) (m_alternative c) |>)
     else copy ← copyTerm false (quantify min QuantifierFixedCount t); Ok (c <| m_alternative := r copy |>)) = (Ok c' : PR YarrPatternConstructor) -> unmarked c') as Hcase.
  { intros r c1 Hr. destruct (min =? 0); [intros [= <-]; by apply Hrep, plain_quantify |].
    destruct (min =? max); [intros [= <-]; by apply Hrep, plain_quantify |].
    intros (copy & Hcopy & [= <-])%setup_Ok. apply unmarked_alternative; [done |]. apply Hr.
    eapply copyTerm_plain; [| exact Hcopy]. by apply plain_quantify. }
  assert (forall copy, plain copy -> plain_alternative (append_term (Constructor.mark_copy (quantify (if max =? quantifyInfinite then max else max - min)
    (if greedy then QuantifierGreedy else QuantifierNonGreedy) copy)) (Constructor.replaceLast (quantify min QuantifierFixedCount t) (m_alternative c)))) as Hr.
  { intros copy Hcopy. apply plain_append; [apply plain_replace; [done | by apply plain_quantify] |]. by apply plain_mark_copy, plain_quantify. }
  destruct (t_type t); try exact (Hcase _ c' Hr Hc). destruct (negb (truthy min)); [exact (Hrm c' Hc) | injection Hc as <-; exact Hu].
Qed.

Section compiled.
Context `{BuiltInClasses} (ignoreCase multiline : bool).

Lemma unmarked_event e c c' : run_event (D := PR YarrPatternConstructor) (Ok c) e = Ok c' -> unmarked c -> unmarked c'.
Proof.
  destruct e; cbn [run_event PatternDelegate mbind PR_bind assertionBOL assertionEOL assertionWordBoundary atomPatternCharacter
    atomBuiltInCharacterClass atomCharacterClassBegin atomCharacterClassAtom atomCharacterClassRange atomCharacterClassBuiltIn atomCharacterClassEnd
    atomParenthesesSubpatternBegin atomParentheticalAssertionBegin atomParenthesesEnd atomBackReference quantifyAtom disjunction]; intros Hrun Hc.
  - injection Hrun as <-. apply unmarked_leaf; [| done]. destruct (_ && _); [| done].
    apply (unmarked_held (c <| m_alternative := Constructor.mark_bol true (m_alternative c) |>)); [done |].
    apply unmarked_alternative; [done |]. by apply unmarked_iff in Hc as (_ & ? & _).
  - injection Hrun as <-. by apply unmarked_leaf.
  - injection Hrun as <-. by apply unmarked_leaf.
  - revert Hrun. unfold Constructor.atomPatternCharacter. destruct (_ || _); [intros [= <-]; by apply unmarked_leaf |].
    intros ([[info r] c1] & E & Hrun)%setup_Ok. apply class_held in E. revert Hrun.
    case_bool_decide; [intros [= <-]; by apply unmarked_leaf |]. apply (unmarked_held _ _ E) in Hc.
    intros (c2 & E2 & Hrun)%setup_Ok. apply (unmarked_put _ _ _ E2) in Hc. by apply (unmarked_add_class _ _ _ Hrun).
  - injection Hrun as <-. by apply unmarked_leaf.
  - by injection Hrun as <-.
  - by apply (unmarked_put _ _ _ Hrun).
  - by apply (unmarked_put _ _ _ Hrun).
  - unfold Constructor.atomCharacterClassBuiltIn in Hrun. destruct classID; try exact (unmarked_put _ _ _ Hrun Hc). discriminate Hrun.
  - unfold Constructor.atomCharacterClassEnd in Hrun. destruct (m_invertCharacterClass c); [exact (unmarked_add_class _ _ _ Hrun Hc) | discriminate Hrun].
  - injection Hrun as <-. apply unmarked_open; [exact Hc |]. apply plain_iff. split; [done |]. intros a Ha. by apply elem_of_nil in Ha.
  - injection Hrun as <-. apply (unmarked_held (Constructor.open (new_term (TypeParentheticalAssertion (Constructor.new_parentheses
      (u32 (m_numSubpatterns (m_counts (m_pattern c)) + 1)))) false invert) c)); [done |].
    apply unmarked_open; [exact Hc |]. apply plain_iff. split; [done |]. intros a Ha. by apply elem_of_nil in Ha.
  - exact (unmarked_close _ _ Hrun Hc).
  - unfold Constructor.atomBackReference in Hrun. apply setup_Ok in Hrun as (_ & _ & Hrun). destruct (_ <? _) in Hrun.
    + injection Hrun as <-. by apply unmarked_leaf.
    + apply setup_Ok in Hrun as (inside & _ & Hrun). injection Hrun as <-. apply unmarked_leaf; [done | by destruct inside].
  - exact (unmarked_quantify _ _ _ _ _ Hrun Hc).
  - injection Hrun as <-. apply unmarked_iff in Hc as (H1 & H2 & H3). apply unmarked_iff. split_and!; [| intros t Ht; by apply elem_of_nil in Ht | done].
    apply Forall_app. split; [done |]. by constructor.
Qed.

Lemma unmarked_run t : forall c c', foldl (run_event (D := PR YarrPatternConstructor)) (Ok c) t = Ok c' -> unmarked c -> unmarked c'.
Proof.
  induction t as [| e t IH]; intros c c' Hrun Hc; [by injection Hrun as <- |]. cbn [foldl] in Hrun.
  destruct (run_event (D := PR YarrPatternConstructor) (Ok c) e) as [c1 | f] eqn:E; [by apply (IH c1 c' Hrun), (unmarked_event e c) |].
  exfalso. clear -Hrun. induction t as [| e t IH]; [done |]. apply IH. cbn [foldl] in Hrun. by destruct e.
Qed.

Lemma unmarked_new c : m_before c = [] -> m_enclosing c = [] -> m_alternative c = new_alternative -> unmarked c.
Proof.
  intros H1 H2 H3. apply unmarked_iff. rewrite H1, H2, H3. split_and!; [by constructor | intros t Ht; by apply elem_of_nil in Ht | by constructor].
Qed.

Lemma run_parser_unmarked c data limit e c' : run_parser c data limit = Ok (e, c') -> unmarked c -> unmarked c'.
Proof.
  unfold run_parser. rewrite parse_fold. destruct (parse [] data limit) as [[e' t] |]; [| done].
  destruct (foldl run_event (Ok c) t) as [c1 |] eqn:E; [| done]. intros [= <- <-]. by apply (unmarked_run t).
Qed.

Lemma parsePattern_unmarked data e c : parsePattern ignoreCase multiline data = Ok (e, c) -> unmarked c.
Proof.
  intros ([e1 c1] & H1 & Hp)%setup_Ok. apply run_parser_unmarked in H1; [| by apply unmarked_new].
  case_bool_decide; [by injection Hp as _ <- |]. destruct (containsIllegalBackReference _); [| by injection Hp as _ <-].
  apply setup_Ok in Hp as ([e2 c2] & H2 & Hp). apply run_parser_unmarked in H2; [| by apply unmarked_new].
  apply setup_Ok in Hp as (_ & _ & Hp). apply setup_Ok in Hp as (_ & _ & Hp). by injection Hp as _ <-.
Qed.

(** The marks in a compiled tree. *)
Lemma compiled_marked data p : compilePattern ignoreCase multiline data = Ok (NoError, p) -> body_marked (no_captures p) p.
Proof.
  intros ([e c] & Hc & Hp)%setup_Ok. apply parsePattern_unmarked in Hc. case_bool_decide as He; [injection Hp as -> _; by destruct He |].
  apply setup_Ok in Hp as (p' & Hp' & [= <-]). apply (optimize_marked (built c)); [| done].
  apply unmarked_iff in Hc as (H1 & H2 & _). intros a Ha. simpl in Ha. apply elem_of_app in Ha as [Ha | ->%list_elem_of_singleton]; [| done].
  by apply (proj1 (list.Forall_forall _ _) H1).
Qed.

(** ** The search without a way back *)

Abbreviation matches := (match_term ignoreCase multiline).
Abbreviation committed := (match_committed ignoreCase multiline).

Lemma committed_once input t s : committed input t s =
  if is_terminal t then [terminal_loop (length input - s_pos s) (once_ ignoreCase multiline input (committed input) t) s]
  else quantified input t (once_ ignoreCase multiline input (committed input) t) s.
Proof. by destruct t as [[] ? ? ? ? ? ?]. Qed.

Lemma sequence_ext {A} (f g : A -> matcher) l s : (forall x s, x ∈ l -> f x s = g x s) -> sequence f l s = sequence g l s.
Proof.
  revert s. induction l as [| x l IH]; intros s Hfg; [done |]. simpl. rewrite Hfg by set_solver. apply bind_ext. intros s' _. apply IH. set_solver.
Qed.

(** One iteration over unmarked parts. *)
Lemma once_same input t s : (forall a t' s, a ∈ nested t -> t' ∈ m_terms a -> committed input t' s = matches input t' s) ->
  once_ ignoreCase multiline input (committed input) t s = once ignoreCase multiline input t s.
Proof.
  intros Hn. unfold once, once_. assert (forall p, parentheses_of t = Some p -> forall s, choice (fun a => sequence (committed input) (m_terms a)) (m_alternatives (p_disjunction p)) s
    = choice (fun a => sequence (matches input) (m_terms a)) (m_alternatives (p_disjunction p)) s) as Hch.
  { intros p Hp s0. apply choice_ext. intros a Ha. apply sequence_ext. intros t' s1 Ht'. apply (Hn a); [| done]. unfold nested. by rewrite Hp. }
  unfold parentheses_of in Hch. destruct (t_type t) as [| | | | | | | p | p |]; try done; unfold group, look; by rewrite (Hch p eq_refl).
Qed.

Lemma committed_plain input t : plain t -> forall s, committed input t s = matches input t s.
Proof.
  induction 1 as [t Hm _ IH]. intros s. rewrite committed_once, Hm, match_term_once. apply quantified_ext. intros s0. apply once_same.
  intros a t' s1 Ha Ht'. by apply IH with a.
Qed.

(** A greedy repetition first gives what the iterations without a way back reach. *)
Lemma optional_first fuel (R : matcher) s : head (optional fuel true None R s) = Some (terminal_loop fuel R s).
Proof.
  revert s. induction fuel as [| fuel IH]; intros s; [done |]. simpl. destruct (List.filter (advances s) (R s)) as [| s' l]; [done |].
  simpl. specialize (IH s'). destruct (optional fuel true None R s'); [done | exact IH].
Qed.

Lemma head_bind {A B} (f g : A -> list B) l : (forall x, head (f x) = head (g x)) -> head (l ≫= f) = head (l ≫= g).
Proof.
  intros Hfg. induction l as [| x l IH]; [done |]. simpl. specialize (Hfg x). destruct (f x), (g x); simpl in *; try done.
Qed.

(** The first match of a term whose parts are unmarked. *)
Lemma committed_first input marks t s : plain_inside t -> is_terminal t = marks && repeats t -> head (committed input t s) = head (matches input t s).
Proof.
  intros Hin Hm. rewrite committed_once, match_term_once.
  assert (forall s, once_ ignoreCase multiline input (committed input) t s = once ignoreCase multiline input t s) as Hon
    by (intros s0; apply once_same; intros a t' s1 Ha Ht'; by apply committed_plain, (Hin a)).
  destruct (is_terminal t); [| f_equal; by apply quantified_ext]. symmetry in Hm. apply andb_true_iff in Hm as [_ Hr]. unfold repeats in Hr.
  destruct (t_type t); try done. apply andb_true_iff in Hr as [[Hq%bool_decide_eq_true Hc%Z.eqb_eq]%andb_true_iff _].
  unfold quantified, repeated, quantity. rewrite Hq, Hc, Z.eqb_refl, optional_first. simpl. f_equal.
  generalize (length input - s_pos s)%nat. intros fuel. revert s. induction fuel as [| fuel IH]; intros s; [done |]. simpl. rewrite Hon.
  destruct (List.filter _ _); [done | apply IH].
Qed.

Lemma exec_committed_same marks p input start : body_marked marks p -> exec_committed ignoreCase multiline input p start = exec ignoreCase multiline input p start.
Proof.
  intros Hp. unfold exec_committed, exec. apply search_head. intros i _. unfold alternatives_at, match_alternatives, match_alternative.
  assert (forall a, a ∈ List.filter (fun a => Nat.eqb i start || negb (m_onceThrough a)) (alternatives p) -> tail_marked marks a) as Hl
    by (intros a [Ha _]%list_elem_of_In%filter_In; by apply Hp, list_elem_of_In).
  revert Hl. generalize (List.filter (fun a => Nat.eqb i start || negb (m_onceThrough a)) (alternatives p)). intros l Hl.
  assert (forall a s, a ∈ l -> head (sequence (committed input) (m_terms a) s) = head (sequence (matches input) (m_terms a) s)) as Hseq.
  { intros a s Ha. destruct (m_terms a) as [| t ts _] eqn:E using rev_ind; [done |]. destruct (Hl a Ha ts t E) as (Hts & Hin & Hm).
    rewrite !sequence_app, (sequence_ext (committed input) (matches input)) by (intros x s0 Hx; by apply committed_plain, (proj1 (list.Forall_forall _ _) Hts)).
    apply head_bind. intros s0. rewrite !sequence_one. by apply (committed_first input marks). }
  clear Hl. induction l as [| a l IH]; [done |]. simpl. specialize (IH ltac:(intros; apply Hseq; set_solver)). pose proof (Hseq a (match_begin i) ltac:(set_solver)) as Ha.
  destruct (sequence (committed input) (m_terms a) _), (sequence (matches input) (m_terms a) _); simpl in *; try done.
Qed.
End compiled.
