(* ===== verification/PatternProps.v ===== *)
(** * Regular expression patterns: properties *)

From Stdlib Require Import Ascii.
From stdpp Require Import base numbers list strings gmap.
From S2P Require Import Prelude Ctype Yarr YarrProof YarrSim YarrProps YarrCanonicalize YarrClass YarrClassProof YarrPattern YarrMatch YarrRegex YarrMatchProof YarrTree YarrBuild YarrSyntax YarrCounts YarrConstruct YarrAnchor YarrOffsets YarrCompile YarrTerminal.

#[local] Open Scope Z_scope.

(** ** Classes for the examples *)

#[local] Instance example_classes : BuiltInClasses := {|
  newlineCreate := mk_class [10; 13] [] [0x2028; 0x2029] [];
  digitsCreate := mk_class [] [mk_crange 48 57] [] [];
  spacesCreate := mk_class [9; 10; 11; 12; 13; 32] [] [160] [];
  wordcharCreate := mk_class [95] [mk_crange 48 57; mk_crange 65 90; mk_crange 97 122] [] [];
  nondigitsCreate := mk_class [] [mk_crange 0 47; mk_crange 58 127] [] [mk_crange 128 65535];
  nonspacesCreate := mk_class [] [mk_crange 0 8; mk_crange 14 31; mk_crange 33 127] [] [mk_crange 128 159; mk_crange 161 65535];
  nonwordcharCreate := mk_class [96] [mk_crange 0 47; mk_crange 58 64; mk_crange 91 94; mk_crange 123 127] [] [mk_crange 128 65535]
|}.

#[local] Instance example_classes_ok : BuiltInClassesOk.
Proof. split; split; unfold sorted_chars, separated; simpl; repeat constructor; lia. Qed.

(** A pattern that is not compiled. *)
Definition empty_pattern (ignoreCase multiline : bool) : YarrPattern := built (Constructor.new_constructor ignoreCase multiline).

(** The constructor and the pattern of an example. *)
Definition example_constructor (re : string) : YarrPatternConstructor :=
  match parsePattern false false (chars re) with Ok (_, c) => c | Err _ => Constructor.new_constructor false false end.
Definition example_pattern (re : string) : YarrPattern :=
  match compilePattern false false (chars re) with Ok (_, p) => p | Err _ => empty_pattern false false end.

(** ** The tree *)

Section tree_facts.
Context `{BuiltInClassesOk} (ignoreCase multiline : bool).

Lemma tree_of_counted alts l p : tree_of ignoreCase multiline alts l -> m_alternatives (m_body p) = l -> tree_counted p.
Proof. intros Ht <-. split; [apply (ch_some _ _ _ _ _ _ _ _ Ht) | intros a Ha; by apply (ch_counted _ _ _ _ _ _ _ _ Ht)]. Qed.

(** At the start of a match there are no captures. *)
Lemma tree_of_means alts l input i : tree_of ignoreCase multiline alts l -> code_units input ->
  match_alternatives ignoreCase multiline input l (match_begin i) = meaning_of ignoreCase multiline input 0 alts (match_begin i).
Proof. intros Ht Hi. apply (ch_means _ _ _ _ _ _ _ _ Ht); [done |]. intros k _. apply lookup_empty. Qed.
End tree_facts.

(** [C15] Whatever the pattern of code units, the parses of
    [YarrPattern::compile] drive its constructor without a fault, a syntax error
    included.  Without an error the pattern is read as some list of
    alternatives: its back references are to captures of the pattern, as many
    as were counted, and from every position of every input the tree that was
    built has the matches of ECMA-262 in their order, captures included. *)
Theorem pattern_tree `{BuiltInClassesOk} ignoreCase multiline data
    (Hdata : Forall (fun c => is_uchar c = true) data) :
  exists e c, parsePattern ignoreCase multiline data = Ok (e, c) /\
    (e = NoError -> exists alts, reads data alts /\
      m_numSubpatterns (m_counts (m_pattern c)) = captures_of alts /\
      (forall n, EvBackReference n ∈ calls_of alts -> n <= captures_of alts) /\
      forall input i, code_units input ->
        match_alternatives ignoreCase multiline input (m_alternatives (m_body (built c))) (match_begin i) =
        meaning_of ignoreCase multiline input 0 alts (match_begin i)).
Proof.
  destruct (parsePattern_ok ignoreCase multiline data Hdata) as (e & c & Hp & Hok). exists e, c. split; [done |]. intros He.
  destruct (Hok He) as (t & Ht & [(alts & Hpat & ->) Hcon] & Hmax). destruct (Hcon alts Hpat eq_refl) as (_ & Hn & Htree).
  exists alts. split; [by split |]. split; [exact Hn |]. split.
  - intros n Href%reference_counted. lia.
  - intros input i Hi. by apply tree_of_means.
Qed.

Lemma pattern_tree_witness :
  exists e c, parsePattern true false (chars "(?:(a)|b)*\1\2[^x-z]") = Ok (e, c) /\
    (e = NoError -> exists alts, reads (chars "(?:(a)|b)*\1\2[^x-z]") alts /\
      m_numSubpatterns (m_counts (m_pattern c)) = captures_of alts /\
      (forall n, EvBackReference n ∈ calls_of alts -> n <= captures_of alts) /\
      forall input i, code_units input ->
        match_alternatives true false input (m_alternatives (m_body (built c))) (match_begin i) =
        meaning_of true false input 0 alts (match_begin i)).
Proof. apply (pattern_tree true false (chars "(?:(a)|b)*\1\2[^x-z]")). repeat constructor. Defined.

(** ** The compiled pattern *)

(** [C16] [YarrPattern::compile] returns, and the search with what it compiled
    finds what ECMA-262 prescribes, from every position of every input: the
    first position where an alternative matches, its first match, and the
    captures.  The pattern must not begin with a repeated [.], since
    [optimizeDotStarWrappedExpressions] changes what some of these match, nor,
    unless it is multiline, have a [^] in an optional part or in a lookahead,
    where [optimizeBOL] errs; and its tree must be of a size that the 32 bits
    of its offsets hold. *)
Theorem compile_search `{BuiltInClassesOk} ignoreCase multiline data alts c
    (Hdata : Forall (fun c => is_uchar c = true) data)
    (Hparse : parsePattern ignoreCase multiline data = Ok (NoError, c))
    (Halts : reads data alts)
    (Hbol : multiline || every (every bol_safe) alts = true)
    (Hdots : begins_with_dots (m_alternatives (m_body (built c))) = false)
    (Hsize : 2 * total_weight (m_alternatives (m_body (built c))) < 2 ^ 32 - 2) :
  exists p, compilePattern ignoreCase multiline data = Ok (NoError, p) /\
    forall input start, code_units input ->
      exec ignoreCase multiline input p start = find_first ignoreCase multiline input alts start.
Proof.
  destruct (parsePattern_ok ignoreCase multiline data Hdata) as (e & c' & Hp & Hok). rewrite Hparse in Hp. injection Hp as <- <-.
  destruct (Hok eq_refl) as (t & Ht & [_ Hcon] & _). destruct Halts as [Htr Hpat]. rewrite Ht in Htr. injection Htr as ->.
  destruct (Hcon alts Hpat eq_refl) as (Hr & _ & Htree).
  destruct (optimize_ok ignoreCase multiline (built c)) as (p & Hopt & Hexec); [apply Hr | by eapply tree_of_counted | | | done | done |].
  - intros a Ha. by apply (ch_once _ _ _ _ _ _ _ _ Htree).
  - apply orb_true_iff in Hbol as [Hm | Hb]; [by left | right]. intros a Ha. by apply (ch_flags _ _ _ _ _ _ _ _ Htree).
  - exists p. split; [unfold compilePattern; rewrite Hparse; simpl; by rewrite Hopt |]. intros input start Hi. rewrite Hexec.
    apply search_head. intros i _. f_equal. by apply tree_of_means.
Qed.

Lemma compile_search_witness :
  exists p, compilePattern false false (chars "^a|(?:b|^c(d))(e*)\1") = Ok (NoError, p) /\
    forall input start, code_units input -> exec false false input p start =
      find_first false false input
        [[Bol; Char 97]; [Group false [[Char 98]; [Bol; Char 99; Group true [[Char 100]]]]; Group true [[Repeat (Char 101) 0 quantifyInfinite true]]; BackRef 1]] start.
Proof.
  apply (compile_search false false (chars "^a|(?:b|^c(d))(e*)\1") _ (example_constructor "^a|(?:b|^c(d))(e*)\1"));
    [by repeat constructor | by vm_compute | split; [by vm_compute | by repeat split] | by vm_compute | by vm_compute | by vm_compute].
Defined.

(** [C17] Whatever is compiled, passes over the tree included, the minimum size
    of every alternative in the tree, of the body and between parentheses, is a
    lower bound of the length of its matches on every input, so that the
    matchers may check for that much input first; and all matches of an
    alternative that is said to have a fixed size have the same length. *)
Theorem compiled_sizes `{BuiltInClassesOk} ignoreCase multiline data p
    (Hdata : Forall (fun c => is_uchar c = true) data)
    (Hcompile : compilePattern ignoreCase multiline data = Ok (NoError, p)) :
  Forall (alternative_ok (sized ignoreCase multiline)) (m_alternatives (m_body p)).
Proof.
  apply list.Forall_forall.
  destruct (parsePattern_ok ignoreCase multiline data Hdata) as (e & c & Hp & Hok). unfold compilePattern in Hcompile. rewrite Hp in Hcompile.
  cbn [mbind PR_bind] in Hcompile. case_bool_decide as He; [injection Hcompile as -> _; by destruct He |].
  destruct (Hok ltac:(by destruct (decide (e = NoError)))) as (t & _ & [(alts & Hpat & Ht) Hcon] & _).
  destruct (Hcon alts Hpat Ht) as (_ & _ & Htree).
  apply setup_Ok in Hcompile as (p' & Hopt & Hc). injection Hc as <-. apply (optimize_sized _ _ _ _ Hopt). by eapply tree_of_counted.
Qed.

Lemma compiled_sizes_witness :
  Forall (alternative_ok (sized false false)) (m_alternatives (m_body (example_pattern "ab{3}(?:cd|e)|.*f.*"))).
Proof. apply (compiled_sizes false false (chars "ab{3}(?:cd|e)|.*f.*")); [by repeat constructor | by vm_compute]. Defined.

(** [C18] Whatever is compiled, without captures the parentheses at the end of an
    alternative of the body that repeat greedily and without bound are marked as
    terminal, and no others are, in no place of the tree.  The matchers give up
    the way back into what is marked: each iteration keeps its first match, and
    nothing that could fail follows.  Still the search from every position of
    every input finds the same as with all ways back. *)
Theorem terminal_parentheses `{BuiltInClasses} ignoreCase multiline data p
    (Hcompile : compilePattern ignoreCase multiline data = Ok (NoError, p)) :
  Forall (tail_marked (no_captures p)) (m_alternatives (m_body p)) /\
  forall input start, exec_committed ignoreCase multiline input p start = exec ignoreCase multiline input p start.
Proof.
  pose proof (compiled_marked _ _ _ _ Hcompile) as Hm. split; [by apply list.Forall_forall |].
  intros input start. by apply (exec_committed_same _ _ (no_captures p)).
Qed.

(** The last parentheses of both alternatives, once unrolled, are marked. *)
Lemma terminal_parentheses_witness :
  let p := example_pattern "^(?:ab)*c(?:a|ab)*|x(?:a+)*" in
  no_captures p = true /\ (fun a => last (is_terminal <$> m_terms a)) <$> m_alternatives (m_body p) = [Some true; Some true; Some true] /\
  Forall (tail_marked (no_captures p)) (m_alternatives (m_body p)) /\
  forall input start, exec_committed false false input p start = exec false false input p start.
Proof.
  split; [by vm_compute |]. split; [by vm_compute |].
  apply (terminal_parentheses false false (chars "^(?:ab)*c(?:a|ab)*|x(?:a+)*")). by vm_compute.
Defined.

(** ** Where compiled patterns deviate *)

(** Begin and end of what is found. *)
Definition extent (m : option mstate) : option (nat * nat) := (fun s => (s_begin s, s_pos s)) <$> m.

(** The search with the compiled pattern of [re], which reads as [alts], has
    the result [got] where ECMA-262 has [expected]. *)
Definition deviates (re : string) (alts : list (list regex)) (input : string) (start : nat) (got expected : option (nat * nat)) : Prop :=
  reads (chars re) alts /\
  compilePattern false false (chars re) = Ok (NoError, example_pattern re) /\
  extent (exec false false (chars input) (example_pattern re) start) = got /\
  extent (find_first false false (chars input) alts start) = expected.

Ltac deviation := split; [split; [by vm_compute | by repeat split] |]; split; [by vm_compute |]; split; by vm_compute.

Definition dot : regex := BuiltIn NewlineClassID true.
Definition dots : regex := Repeat dot 0 quantifyInfinite true.

(** What [compile_search] leaves out it has to.  An optional dot at the
    front is taken for [.*]; a pattern between [.*] matches before the position
    where the search starts; a [^] in optional parentheses, or in an optional
    lookahead that is removed, keeps the pattern from matching elsewhere; an
    alternative that is dropped from a lookahead gives a match that there is
    not; and an empty alternative between [.*] reads outside the vector of its
    terms. *)
Theorem compile_deviations :
  deviates ".?b.*" [[Repeat dot 0 1 true; Char 98; dots]] "aab" 0 (Some (0, 3)%nat) (Some (1, 3)%nat) /\
  deviates ".*a.*" [[dots; Char 97; dots]] "xaa" 2 (Some (0, 3)%nat) (Some (2, 3)%nat) /\
  deviates "(?:^a)?b" [[Repeat (Group false [[Bol; Char 97]]) 0 1 true; Char 98]] "xb" 0 None (Some (1, 2)%nat) /\
  deviates "(?=^a)?b" [[Repeat (Look false [[Bol; Char 97]]) 0 1 true; Char 98]] "xb" 0 None (Some (1, 2)%nat) /\
  deviates "(?=^(a)|)\1ab" [[Look false [[Bol; Group true [[Char 97]]]; []]; BackRef 1; Char 97; Char 98]] "ab" 0 (Some (0, 2)%nat) None /\
  reads (chars ".*(?:a|).*") [[dots; Group false [[Char 97]; []]; dots]] /\
  compilePattern false false (chars ".*(?:a|).*") = Err Vector_overflow.
Proof.
  split_and!; [deviation | deviation | deviation | deviation | deviation | split; [by vm_compute | by repeat split] | by vm_compute].
Qed.
