(* ===== verification/StringHasher.v ===== *)
(** * String hashing

    [wtf/StringHasher.h]: the incremental hash of strings, two characters at a
    time, with a pending character in between.  The three fields are a record;
    the assertions and reads behind the data are faults.  The overloads of the
    source have a suffix: [_n] for data with a length, [_z] for data that a
    zero ends. *)

From stdpp Require Import base numbers list.
From S2P Require Import Prelude.

#[local] Open Scope Z_scope.

Inductive hasher_fault := Hasher_assert | Hasher_read.

Record StringHasher := mk_hasher {
  m_hash : Z;
  m_hasPendingCharacter : bool;
  m_pendingCharacter : Z
}.

Definition stringHashingStartValue : Z := 0x9E3779B9.
Definition flagCount : Z := 8.

Definition new_hasher : StringHasher := mk_hasher stringHashingStartValue false 0.

Abbreviation HM := (M hasher_fault StringHasher).

Definition hasher_assert (b : bool) : HM unit := if b then mret tt else mfail Hasher_assert.

(** The arithmetic on [m_hash] of a pair of characters. *)
Definition hash_pair (h a b : Z) : Z :=
  let h := u32 (h + a) in
  let h := Z.lxor (u32 (Z.shiftl h 16)) (Z.lxor (Z.shiftl b 11) h) in
  u32 (h + Z.shiftr h 11).

Definition addCharactersAssumingAligned (a b : Z) : HM unit :=
  s ← mget;
  hasher_assert (negb (m_hasPendingCharacter s));;
  mput (mk_hasher (hash_pair (m_hash s) a b) (m_hasPendingCharacter s) (m_pendingCharacter s)).

Definition set_pending (b : bool) : HM unit :=
  mmod (fun s => mk_hasher (m_hash s) b (m_pendingCharacter s)).

Definition addCharacter (character : Z) : HM unit :=
  s ← mget;
  if m_hasPendingCharacter s then
    set_pending false;; addCharactersAssumingAligned (m_pendingCharacter s) character
  else mput (mk_hasher (m_hash s) true character).

Definition addCharacters (a b : Z) : HM unit :=
  s ← mget;
  if m_hasPendingCharacter s then
    set_pending false;;
    addCharactersAssumingAligned (m_pendingCharacter s) a;;
    mmod (fun s => mk_hasher (m_hash s) (m_hasPendingCharacter s) b);;
    set_pending true
  else addCharactersAssumingAligned a b.

Section data.
(** The characters' type and its conversion to [UChar]. *)
Context {T : Type} (Converter : T -> Z).

(** The loop over the pairs: what is left of the data after [length] of them. *)
Fixpoint aligned_pairs (data : list T) (length : nat) {struct length} : HM (list T) :=
  match length with
  | O => mret data
  | S length' =>
      match data with
      | a :: b :: data' => addCharactersAssumingAligned (Converter a) (Converter b);; aligned_pairs data' length'
      | _ => mfail Hasher_read
      end
  end.

Definition addCharactersAssumingAligned_n (data : list T) (length : Z) : HM unit :=
  s ← mget;
  hasher_assert (negb (m_hasPendingCharacter s));;
  let remainder := truthy (Z.land length 1) in
  data ← aligned_pairs data (Z.to_nat (Z.shiftr length 1));
  if remainder then
    match data with
    | c :: _ => addCharacter (Converter c)
    | [] => mfail Hasher_read
    end
  else mret tt.

Definition addCharacters_n (data : list T) (length : Z) : HM unit :=
  s ← mget;
  if m_hasPendingCharacter s && truthy length then
    set_pending false;;
    match data with
    | c :: data => addCharactersAssumingAligned (m_pendingCharacter s) (Converter c);;
                   addCharactersAssumingAligned_n data (u32 (length - 1))
    | [] => mfail Hasher_read
    end
  else addCharactersAssumingAligned_n data length.

(** Whether a character is the terminator. *)
Context (is_zero : T -> bool).

Fixpoint aligned_z (data : list T) : HM unit :=
  match data with
  | [] => mfail Hasher_read
  | a :: rest =>
      if is_zero a then mret tt
      else match rest with
           | [] => mfail Hasher_read
           | b :: data =>
               if is_zero b then addCharacter (Converter a)
               else addCharactersAssumingAligned (Converter a) (Converter b);; aligned_z data
           end
  end.

Definition addCharactersAssumingAligned_z (data : list T) : HM unit :=
  s ← mget;
  hasher_assert (negb (m_hasPendingCharacter s));;
  aligned_z data.

Definition addCharacters_z (data : list T) : HM unit :=
  s ← mget;
  match data with
  | [] => if m_hasPendingCharacter s then mfail Hasher_read else addCharactersAssumingAligned_z data
  | c :: rest =>
      if m_hasPendingCharacter s && negb (is_zero c) then
        set_pending false;;
        addCharactersAssumingAligned (m_pendingCharacter s) (Converter c);;
        addCharactersAssumingAligned_z rest
      else addCharactersAssumingAligned_z data
  end.

End data.

Definition avalancheBits (s : StringHasher) : Z :=
  let result := m_hash s in
  let result :=
    if m_hasPendingCharacter s then
      let result := u32 (result + m_pendingCharacter s) in
      let result := Z.lxor result (u32 (Z.shiftl result 11)) in
      u32 (result + Z.shiftr result 17)
    else result in
  let result := Z.lxor result (u32 (Z.shiftl result 3)) in
  let result := u32 (result + Z.shiftr result 5) in
  let result := Z.lxor result (u32 (Z.shiftl result 2)) in
  let result := u32 (result + Z.shiftr result 15) in
  Z.lxor result (u32 (Z.shiftl result 10)).

Definition hashWithTop8BitsMasked (s : StringHasher) : Z :=
  let result := Z.land (avalancheBits s) (Z.shiftl 1 (4 * 8 - flagCount) - 1) in
  if truthy result then result else Z.shiftr 0x80000000 flagCount.

Definition hash (s : StringHasher) : Z :=
  let result := avalancheBits s in
  if truthy result then result else 0x80000000.

(** [computeHash] and [computeHashAndMaskTop8Bits], of both kinds of data. *)
Definition run_hasher {A} (m : HM unit) (f : StringHasher -> A) : res hasher_fault A :=
  match m new_hasher with
  | Ok (_, s) => Ok (f s)
  | Err e => Err e
  end.
Definition computeHashAndMaskTop8Bits_n {T} (Converter : T -> Z) data length :=
  run_hasher (addCharactersAssumingAligned_n Converter data length) hashWithTop8BitsMasked.
Definition computeHashAndMaskTop8Bits_z {T} (Converter : T -> Z) is_zero data :=
  run_hasher (addCharactersAssumingAligned_z Converter is_zero data) hashWithTop8BitsMasked.
Definition computeHash_n {T} (Converter : T -> Z) data length :=
  run_hasher (addCharactersAssumingAligned_n Converter data length) hash.
Definition computeHash_z {T} (Converter : T -> Z) is_zero data :=
  run_hasher (addCharactersAssumingAligned_z Converter is_zero data) hash.

(** [hashMemory]: the memory as 16-bit units. *)
Definition hashMemory (data : list Z) (length : Z) : res hasher_fault Z :=
  if length mod 2 =? 0 then computeHashAndMaskTop8Bits_n id data (length / 2) else Err Hasher_assert.

(** ** The hash as a function of the characters *)

(** The state after a sequence of characters, one at a time. *)
Definition add1 (s : StringHasher) (c : Z) : StringHasher :=
  if m_hasPendingCharacter s then mk_hasher (hash_pair (m_hash s) (m_pendingCharacter s) c) false (m_pendingCharacter s)
  else mk_hasher (m_hash s) true c.

(** States that differ only in a character that is not pending. *)
Definition same_hash (s1 s2 : StringHasher) : Prop :=
  m_hash s1 = m_hash s2 /\ m_hasPendingCharacter s1 = m_hasPendingCharacter s2 /\
  (m_hasPendingCharacter s1 = true -> m_pendingCharacter s1 = m_pendingCharacter s2).

#[global] Instance same_hash_equiv : Equivalence same_hash.
Proof.
  split.
  - done.
  - intros s1 s2 (H1 & H2 & H3). repeat split; [done | done |]. intros H. symmetry. apply H3. congruence.
  - intros s1 s2 s3 (H1 & H2 & H3) (H4 & H5 & H6).
    repeat split; [congruence | congruence |]. intros H. rewrite H3 by done. apply H6. congruence.
Qed.

#[global] Instance add1_proper : Proper (same_hash ==> eq ==> same_hash) add1.
Proof.
  intros s1 s2 (H1 & H2 & H3) c ? <-. unfold add1. rewrite <- H2, H1.
  destruct (m_hasPendingCharacter s1); [by rewrite H3 |]. done.
Qed.

#[global] Instance avalancheBits_proper : Proper (same_hash ==> eq) avalancheBits.
Proof.
  intros s1 s2 (H1 & H2 & H3). unfold avalancheBits. rewrite <- H2, H1.
  destruct (m_hasPendingCharacter s1); [by rewrite H3 |]. done.
Qed.

#[global] Instance foldl_add1_proper : Proper (same_hash ==> eq ==> same_hash) (foldl add1).
Proof.
  intros s1 s2 Hs l ? <-. revert s1 s2 Hs. induction l as [|c l IH]; intros s1 s2 Hs; [done |].
  apply IH. by rewrite Hs.
Qed.

(** A computation that adds the characters [cs]. *)
Definition adds (m : HM unit) (s : StringHasher) (cs : list Z) : Prop :=
  wp m s (fun _ s' => same_hash s' (foldl add1 s cs)).

Lemma pair_eq s a b :
  m_hasPendingCharacter s = false ->
  addCharactersAssumingAligned a b s
    = Ok (tt, mk_hasher (hash_pair (m_hash s) a b) false (m_pendingCharacter s)).
Proof. intros Hp. unfold addCharactersAssumingAligned, mget, mbind, M_bind. by rewrite Hp. Qed.

Lemma adds_pair s a b :
  m_hasPendingCharacter s = false -> adds (addCharactersAssumingAligned a b) s [a; b].
Proof.
  intros Hp. eapply wp_intro; [by apply pair_eq |]. simpl. unfold add1 at 2. by rewrite Hp.
Qed.

(** Sequential composition adds the characters of both parts. *)
Lemma adds_seq m1 m2 s cs1 cs2 :
  adds m1 s cs1 -> (forall s', same_hash s' (foldl add1 s cs1) -> adds m2 s' cs2) ->
  adds (m1 ;; m2) s (cs1 ++ cs2).
Proof.
  intros H1 H2. unfold adds. wp_step. eapply wp_mono; [exact H1 |]. intros [] s' Hs'.
  eapply wp_mono; [by apply H2 |]. intros [] s'' Hs''. by rewrite foldl_app, Hs'', Hs'.
Qed.

Lemma adds_ret s : adds (mret tt) s [].
Proof. unfold adds. wp_step. reflexivity. Qed.

(** A character joins the pending one. *)
Lemma join_eq s c :
  m_hasPendingCharacter s = true ->
  (set_pending false ;; addCharactersAssumingAligned (m_pendingCharacter s) c) s = Ok (tt, add1 s c).
Proof. intros Hp. unfold add1. rewrite Hp. by destruct s. Qed.

Lemma add1_pending s c :
  m_hasPendingCharacter (add1 s c) = negb (m_hasPendingCharacter s).
Proof. unfold add1. by destruct (m_hasPendingCharacter s). Qed.

Lemma addCharacter_eq s c : addCharacter c s = Ok (tt, add1 s c).
Proof. destruct s as [h [] c']; done. Qed.

Lemma adds_addCharacter s c : adds (addCharacter c) s [c].
Proof. eapply wp_intro; [apply addCharacter_eq | done]. Qed.

Lemma adds_addCharacters s a b : adds (addCharacters a b) s [a; b].
Proof.
  destruct s as [h [] c]; [| by apply adds_pair]. by eapply wp_intro.
Qed.

Lemma same_pending s s' : same_hash s s' -> m_hasPendingCharacter s = m_hasPendingCharacter s'.
Proof. by intros (_ & ? & _). Qed.

Lemma two_pending s a b : m_hasPendingCharacter (foldl add1 s [a; b]) = m_hasPendingCharacter s.
Proof. simpl. by rewrite !add1_pending, negb_involutive. Qed.

Section data_proof.
Context {T : Type} (Converter : T -> Z).

(** Data with a length. *)

Lemma aligned_pairs_ok n : forall (data : list T) s,
  m_hasPendingCharacter s = false -> (2 * n <= length data)%nat ->
  wp (aligned_pairs Converter data n) s (fun rest s' =>
    rest = drop (2 * n) data /\ same_hash s' (foldl add1 s (Converter <$> take (2 * n) data))).
Proof.
  induction n as [|n IH]; intros data s Hp Hl; [done |].
  replace (2 * S n)%nat with (S (S (2 * n))) in * by lia.
  destruct data as [|a [|b data]]; simpl in Hl; [lia | lia |]. cbn [aligned_pairs]. wp_step.
  eapply wp_mono; [by apply adds_pair |]. intros [] s' Hs'.
  pose proof (same_pending _ _ Hs') as Hp'. rewrite two_pending, Hp in Hp'.
  eapply wp_mono; [apply IH; [done | lia] |]. intros rest s'' [-> Hs'']. split; [done |].
  change (foldl add1 s (Converter <$> take (S (S (2 * n))) (a :: b :: data)))
    with (foldl add1 (foldl add1 s [Converter a; Converter b]) (Converter <$> take (2 * n) data)).
  by rewrite Hs'', Hs'.
Qed.

Lemma land_1 n : 0 <= n -> truthy (Z.land n 1) = negb (n mod 2 =? 0).
Proof. intros. unfold truthy. change 1 with (Z.ones 1). by rewrite Z.land_ones. Qed.

Lemma adds_aligned_n (data : list T) n s :
  m_hasPendingCharacter s = false -> 0 <= n <= Z.of_nat (length data) ->
  adds (addCharactersAssumingAligned_n Converter data n) s (Converter <$> take (Z.to_nat n) data).
Proof.
  intros Hp Hn. unfold addCharactersAssumingAligned_n, adds. do 2 wp_step. rewrite Hp. wp_step.
  apply wp_ret. cbv zeta. wp_step. rewrite Z.shiftr_div_pow2 by lia. change (2 ^ 1) with 2.
  set (k := Z.to_nat (n / 2)).
  assert (n = Z.of_nat (2 * k) + n mod 2) as Hk by (subst k; pose proof (Z.div_mod n 2); pose proof (Z.div_pos n 2); lia).
  pose proof (Z.mod_pos_bound n 2 ltac:(lia)) as Hm.
  eapply wp_mono; [apply aligned_pairs_ok; [done | lia] |]. intros rest s' [-> Hs'].
  rewrite land_1 by lia. destruct (Z.eqb_spec (n mod 2) 0) as [H0 | H0]; cbn [negb].
  - apply wp_ret. replace (Z.to_nat n) with (2 * k)%nat by lia. exact Hs'.
  - destruct (lookup_lt_is_Some_2 data (2 * k)) as [c Hc]; [lia |]. rewrite (drop_S _ _ _ Hc).
    eapply wp_mono; [apply adds_addCharacter |]. intros [] s'' Hs''.
    replace (Z.to_nat n) with (S (2 * k)) by lia.
    by rewrite (take_S_r _ _ _ Hc), fmap_app, foldl_app, Hs'', Hs'.
Qed.

(** With a pending character the data must not be empty: the aligned loop
    asserts that there is none. *)
Lemma adds_addCharacters_n (data : list T) n s :
  0 <= n <= Z.of_nat (length data) -> n < 2 ^ 32 -> (n <> 0 \/ m_hasPendingCharacter s = false) ->
  adds (addCharacters_n Converter data n) s (Converter <$> take (Z.to_nat n) data).
Proof.
  intros Hn Hb Hne. unfold addCharacters_n, adds. do 2 wp_step.
  destruct (m_hasPendingCharacter s) eqn:Hp; simpl; [| by apply adds_aligned_n].
  destruct Hne as [H0 | ?]; [| done]. unfold truthy. rewrite (proj2 (Z.eqb_neq _ _) H0). simpl.
  destruct data as [|c data]; simpl in Hn; [lia |].
  replace (Z.to_nat n) with (S (Z.to_nat (n - 1))) by lia. rewrite u32_id by lia.
  rewrite <- bind_assoc_M. 
  change (Converter <$> take (S (Z.to_nat (n - 1))) (c :: data))
    with ([Converter c] ++ (Converter <$> take (Z.to_nat (n - 1)) data)).
  apply adds_seq.
  - eapply wp_intro; [by apply join_eq | done].
  - intros s' Hs'. apply adds_aligned_n; [| lia]. rewrite (same_pending _ _ Hs'). simpl.
    by rewrite add1_pending, Hp.
Qed.

(** Data that a zero ends. *)
Context (is_zero : T -> bool).

Lemma aligned_z_ok n : forall (data : list T) z rest s,
  (length data <= n)%nat -> m_hasPendingCharacter s = false ->
  Forall (fun c => is_zero c = false) data -> is_zero z = true ->
  adds (aligned_z Converter is_zero (data ++ z :: rest)) s (Converter <$> data).
Proof.
  induction n as [|n IH]; intros data z rest s Hl Hp Hd Hz; (destruct data as [|a [|b data]];
    simpl in Hl; [cbn; rewrite Hz; apply adds_ret | | ]); try lia.
  - apply Forall_cons in Hd as [Ha _]. cbn. rewrite Ha, Hz. apply adds_addCharacter.
  - apply Forall_cons in Hd as [Ha [Hb Hd]%Forall_cons]. cbn. rewrite Ha, Hb.
    apply (adds_seq _ _ _ [_; _]); [by apply adds_pair |]. intros s' Hs'.
    apply IH; [lia | | done | done]. by rewrite (same_pending _ _ Hs'), two_pending.
Qed.

Lemma adds_aligned_z (data : list T) z rest s :
  m_hasPendingCharacter s = false ->
  Forall (fun c => is_zero c = false) data -> is_zero z = true ->
  adds (addCharactersAssumingAligned_z Converter is_zero (data ++ z :: rest)) s (Converter <$> data).
Proof.
  intros Hp Hd Hz. unfold addCharactersAssumingAligned_z, adds. do 2 wp_step. rewrite Hp. wp_step.
  apply wp_ret. by eapply aligned_z_ok.
Qed.

Lemma adds_addCharacters_z (data : list T) z rest s :
  Forall (fun c => is_zero c = false) data -> is_zero z = true ->
  (data <> [] \/ m_hasPendingCharacter s = false) ->
  adds (addCharacters_z Converter is_zero (data ++ z :: rest)) s (Converter <$> data).
Proof.
  intros Hd Hz Hne. unfold addCharacters_z, adds. do 2 wp_step.
  destruct (m_hasPendingCharacter s) eqn:Hp.
  - destruct Hne as [Hne | ?]; [| done]. destruct data as [|c data]; [done |].
    apply Forall_cons in Hd as [Hc Hd]. cbn [app andb]. rewrite Hc. cbn [negb].
    rewrite <- bind_assoc_M. 
    change (Converter <$> c :: data) with ([Converter c] ++ (Converter <$> data)). apply adds_seq.
    + eapply wp_intro; [by apply join_eq | done].
    + intros s' Hs'. apply adds_aligned_z; [| done | done]. rewrite (same_pending _ _ Hs'). simpl.
      by rewrite add1_pending, Hp.
  - destruct data as [|c data]; [by apply (adds_aligned_z [] z) | by apply (adds_aligned_z (c :: data) z)].
Qed.

End data_proof.

(** ** The ranges of the hash *)

Lemma lxor_u32 a b : 0 <= a < 2 ^ 32 -> 0 <= b < 2 ^ 32 -> 0 <= Z.lxor a b < 2 ^ 32.
Proof.
  intros Ha Hb. enough (u32 (Z.lxor a b) = Z.lxor a b) as <- by apply u32_range.
  unfold u32, uwrap. apply Z.bits_inj'. intros n Hn.
  destruct (Z.ltb_spec n 32); [by apply Z.mod_pow2_bits_low |].
  rewrite Z.mod_pow2_bits_high, Z.lxor_spec by lia.
  by rewrite <- (Z.mod_small a (2 ^ 32)), <- (Z.mod_small b (2 ^ 32)), !Z.mod_pow2_bits_high by lia.
Qed.

Lemma avalancheBits_range s : 0 <= avalancheBits s < 2 ^ 32.
Proof. unfold avalancheBits. apply lxor_u32; apply u32_range. Qed.

Lemma masked_range s : 0 < hashWithTop8BitsMasked s < 2 ^ 24.
Proof.
  unfold hashWithTop8BitsMasked, flagCount. change (Z.shiftl 1 _ - 1) with (Z.ones 24).
  rewrite Z.land_ones by lia. change (Z.shiftr 0x80000000 8) with 0x800000.
  pose proof (Z.mod_pos_bound (avalancheBits s) (2 ^ 24) ltac:(lia)) as Hr. revert Hr.
  generalize (avalancheBits s mod 2 ^ 24). intros r Hr. unfold truthy.
  destruct (Z.eqb_spec r 0); simpl; lia.
Qed.

Lemma hash_range s : 0 < hash s < 2 ^ 32.
Proof.
  pose proof (avalancheBits_range s). unfold hash, truthy.
  destruct (Z.eqb_spec (avalancheBits s) 0); simpl; lia.
Qed.
