(* ===== verification/Utf8.v ===== *)
(** * Conversions between UTF-8, UTF-16 and Latin-1

    [wtf/unicode/UTF8.cpp], the ICU macros it uses, and the users of the hash,
    the comparison and the conversion in [wtf/text/AtomicString.cpp].  A pair of pointers
    into a string is the list of what lies between them; bytes are 0 to 255
    and code units 0 to 65535.  [None] is a read behind the end of the data, a
    failed assertion or an exhausted fuel. *)

From stdpp Require Import base numbers list.
From S2P Require Import Prelude Ctype StringHasher.

#[local] Open Scope Z_scope.

(** ** ICU *)

Definition U_IS_BMP (c : Z) : bool := u32 c <=? 0xFFFF.
Definition U_IS_SUPPLEMENTARY (c : Z) : bool := u32 (c - 0x10000) <=? 0xFFFFF.
Definition U_IS_SURROGATE (c : Z) : bool := Z.land c 0xFFFFF800 =? 0xD800.
Definition U16_LEAD (supplementary : Z) : Z := u16 (Z.shiftr supplementary 10 + 0xD7C0).
Definition U16_TRAIL (supplementary : Z) : Z := u16 (Z.lor (Z.land supplementary 0x3FF) 0xDC00).

Definition replacementCharacter : Z := 0xFFFD.

(** ** Sequences *)

Definition inlineUTF8SequenceLengthNonASCII (b0 : Z) : Z :=
  if negb (Z.land b0 0xC0 =? 0xC0) then 0
  else if Z.land b0 0xE0 =? 0xC0 then 2
  else if Z.land b0 0xF0 =? 0xE0 then 3
  else if Z.land b0 0xF8 =? 0xF0 then 4
  else 0.

Definition inlineUTF8SequenceLength (b0 : Z) : Z :=
  if isASCII b0 then 1 else inlineUTF8SequenceLengthNonASCII b0.
Definition UTF8SequenceLength (b0 : Z) : Z :=
  if isASCII b0 then 1 else inlineUTF8SequenceLengthNonASCII b0.

(** A byte that continues a sequence, and its payload. *)
Definition is_continuation (b : Z) : bool := Z.land b 0xC0 =? 0x80.
Definition payload (b : Z) : Z := Z.land b 0x3F.

Definition decodeUTF8Sequence (sequence : list Z) : option Z :=
  b0 ← aget sequence 0;
  let length := inlineUTF8SequenceLength b0 in
  if length =? 0 then Some (-1)
  else
    b1 ← aget sequence 1;
    if length =? 1 then Some (if truthy b1 then -1 else b0)
    else if negb (is_continuation b1) then Some (-1)
    else
      b2 ← aget sequence 2;
      if length =? 2 then
        if truthy b2 then Some (-1)
        else
          let c := Z.lor (Z.shiftl (Z.land b0 0x1F) 6) (payload b1) in
          Some (if c <? 0x80 then -1 else c)
      else if negb (is_continuation b2) then Some (-1)
      else
        b3 ← aget sequence 3;
        if length =? 3 then
          if truthy b3 then Some (-1)
          else
            let c := Z.lor (Z.lor (Z.shiftl (Z.land b0 0xF) 12) (Z.shiftl (payload b1) 6)) (payload b2) in
            Some (if c <? 0x800 then -1 else if (0xD800 <=? c) && (c <=? 0xDFFF) then -1 else c)
        else if negb (is_continuation b3) then Some (-1)
        else
          b4 ← aget sequence 4;
          if length =? 4 then
            if truthy b4 then Some (-1)
            else
              let c := Z.lor (Z.lor (Z.lor (Z.shiftl (Z.land b0 0x7) 18) (Z.shiftl (payload b1) 12))
                         (Z.shiftl (payload b2) 6)) (payload b3) in
              Some (if (c <? 0x10000) || (0x10FFFF <? c) then -1 else c)
          else Some (-1).

(** ** Encoding *)

Inductive ConversionResult := conversionOK | sourceExhausted | targetExhausted | sourceIllegal.

Definition firstByteMark : list Z := [0x00; 0x00; 0xC0; 0xE0; 0xF0; 0xF8; 0xFC].

(** The cases of the writing [switch] that fall through: the bytes are written
    from the last one back to the first. *)
Fixpoint put_tail (n : nat) (ch : Z) (written : list Z) : Z * list Z :=
  match n with
  | O => (ch, written)
  | S n' => put_tail n' (Z.shiftr ch 6) (u8 (Z.land (Z.lor ch 0x80) 0xBF) :: written)
  end.

Definition write_sequence (ch bytesToWrite : Z) : option (list Z) :=
  let '(ch, tail) := put_tail (Z.to_nat (bytesToWrite - 1)) ch [] in
  mark ← aget firstByteMark bytesToWrite;
  Some (u8 (Z.lor ch mark) :: tail).

(** The loops take what is left of the source, what was written and the room
    left in the target; they return the first two. *)
Fixpoint convertLatin1ToUTF8_loop (source target : list Z) (room : Z)
    : option (ConversionResult * list Z * list Z) :=
  match source with
  | [] => Some (conversionOK, source, target)
  | ch :: rest =>
      let bytesToWrite := if ch <? 0x80 then 1 else 2 in
      if room <? bytesToWrite then Some (targetExhausted, source, target)
      else
        bytes ← write_sequence ch bytesToWrite;
        convertLatin1ToUTF8_loop rest (target ++ bytes) (room - bytesToWrite)
  end.

Definition convertLatin1ToUTF8 (source : list Z) (room : Z) :=
  convertLatin1ToUTF8_loop source [] room.

(** How many bytes a character takes, and the character that is written. *)
Definition bytes_to_write (ch : Z) : Z * Z :=
  if ch <? 0x80 then (1, ch)
  else if ch <? 0x800 then (2, ch)
  else if ch <? 0x10000 then (3, ch)
  else if ch <? 0x110000 then (4, ch)
  else (3, replacementCharacter).

Fixpoint convertUTF16ToUTF8_loop (strict : bool) (source target : list Z) (room : Z)
    : option (ConversionResult * list Z * list Z) :=
  match source with
  | [] => Some (conversionOK, source, target)
  | ch :: rest =>
      let write (ch : Z) (next : list Z -> Z -> option (ConversionResult * list Z * list Z)) :=
        let '(bytesToWrite, ch) := bytes_to_write ch in
        if room <? bytesToWrite then Some (targetExhausted, source, target)
        else
          bytes ← write_sequence ch bytesToWrite;
          next (target ++ bytes) (room - bytesToWrite) in
      if (0xD800 <=? ch) && (ch <=? 0xDBFF) then
        match rest with
        | ch2 :: rest2 =>
            if (0xDC00 <=? ch2) && (ch2 <=? 0xDFFF) then
              write (Z.shiftl (ch - 0xD800) 10 + (ch2 - 0xDC00) + 0x10000)
                (convertUTF16ToUTF8_loop strict rest2)
            else if strict then Some (sourceIllegal, source, target)
            else write ch (convertUTF16ToUTF8_loop strict rest)
        | [] => Some (sourceExhausted, source, target)
        end
      else if strict && ((0xDC00 <=? ch) && (ch <=? 0xDFFF)) then Some (sourceIllegal, source, target)
      else write ch (convertUTF16ToUTF8_loop strict rest)
  end.

Definition convertUTF16ToUTF8 (source : list Z) (room : Z) (strict : bool) :=
  convertUTF16ToUTF8_loop strict source [] room.

(** ** Decoding *)

Definition in_trail (a : Z) : bool := (0x80 <=? a) && (a <=? 0xBF).

(** The case of two bytes, with the switch on the first. *)
Definition legal_second (b0 a : Z) : bool :=
  if 0xBF <? a then false
  else if b0 =? 0xE0 then 0xA0 <=? a
  else if b0 =? 0xED then a <=? 0x9F
  else if b0 =? 0xF0 then 0x90 <=? a
  else if b0 =? 0xF4 then a <=? 0x8F
  else 0x80 <=? a.

Definition legal_first (b0 : Z) : bool :=
  negb ((0x80 <=? b0) && (b0 <? 0xC2)) && negb (0xF4 <? b0).

Definition isLegalUTF8 (source : list Z) (length : Z) : option bool :=
  b0 ← aget source 0;
  if length =? 4 then
    a3 ← aget source 3;
    if negb (in_trail a3) then Some false
    else
      a2 ← aget source 2;
      if negb (in_trail a2) then Some false
      else a1 ← aget source 1; Some (legal_second b0 a1 && legal_first b0)
  else if length =? 3 then
    a2 ← aget source 2;
    if negb (in_trail a2) then Some false
    else a1 ← aget source 1; Some (legal_second b0 a1 && legal_first b0)
  else if length =? 2 then a1 ← aget source 1; Some (legal_second b0 a1 && legal_first b0)
  else if length =? 1 then Some (legal_first b0)
  else Some false.

Definition offsetsFromUTF8 : list Z :=
  [0x00000000; 0x00003080; 0x000E2080; 0x03C82080; s32 0xFA082080; s32 0x82082080].

(** The additions and shifts of the falling cases; the value of the up to four
    bytes read here stays below [2 ^ 26]. *)
Fixpoint read_bytes (n : nat) (sequence : list Z) (character : Z) : option (Z * list Z) :=
  match n with
  | O => Some (character, sequence)
  | S n' =>
      match sequence with
      | [] => None
      | b :: sequence =>
          let character := character + b in
          read_bytes n' sequence (match n' with O => character | _ => Z.shiftl character 6 end)
      end
  end.

Definition readUTF8Sequence (sequence : list Z) (length : Z) : option (Z * list Z) :=
  '(character, sequence) ← read_bytes (Z.to_nat length) sequence 0;
  offset ← aget offsetsFromUTF8 (length - 1);
  Some (character - offset, sequence).

Fixpoint convertUTF8ToUTF16_loop (fuel : nat) (strict : bool) (source target : list Z) (room orAllData : Z)
    : option (ConversionResult * list Z * list Z * Z) :=
  match fuel with
  | O => None
  | S fuel' =>
      match source with
      | [] => Some (conversionOK, source, target, orAllData)
      | b0 :: _ =>
          let stop (r : ConversionResult) := Some (r, source, target, orAllData) in
          let utf8SequenceLength := inlineUTF8SequenceLength b0 in
          if Z.of_nat (length source) <? utf8SequenceLength then stop sourceExhausted
          else
            legal ← isLegalUTF8 source utf8SequenceLength;
            if negb legal then stop sourceIllegal
            else
              '(character, rest) ← readUTF8Sequence source utf8SequenceLength;
              let replace :=
                convertUTF8ToUTF16_loop fuel' strict rest (target ++ [replacementCharacter]) (room - 1)
                  (Z.lor orAllData replacementCharacter) in
              if room <=? 0 then stop targetExhausted
              else if U_IS_BMP character then
                if U_IS_SURROGATE character then
                  if strict then stop sourceIllegal else replace
                else
                  convertUTF8ToUTF16_loop fuel' strict rest (target ++ [u16 character]) (room - 1)
                    (u16 (Z.lor orAllData character))
              else if U_IS_SUPPLEMENTARY character then
                if room <=? 1 then stop targetExhausted
                else
                  convertUTF8ToUTF16_loop fuel' strict rest
                    (target ++ [U16_LEAD character; U16_TRAIL character]) (room - 2) 0xFFFF
              else if strict then stop sourceIllegal else replace
      end
  end.

(** The result, the rest of the source, the target and [sourceAllASCII]. *)
Definition convertUTF8ToUTF16 (source : list Z) (room : Z) (strict : bool)
    : option (ConversionResult * list Z * list Z * bool) :=
  '(result, source, target, orAllData) ←
    convertUTF8ToUTF16_loop (S (length source)) strict source [] room 0;
  Some (result, source, target, negb (truthy (Z.land orAllData (Z.lnot 0x7F)))).

(** ** Hash and comparison *)

Definition hasher_run (m : M hasher_fault StringHasher unit) (s : StringHasher) : option StringHasher :=
  match m s with
  | Ok (_, s) => Some s
  | Err _ => None
  end.

(** The bytes of a sequence behind the first are not zero. *)
Fixpoint no_zero (n : nat) (data : list Z) (i : Z) : option bool :=
  match n with
  | O => Some true
  | S n' => b ← aget data i; if truthy b then no_zero n' data (i + 1) else Some false
  end.

(** [hasEnd] tells whether [dataEnd] is given; without it a zero byte ends the
    data.  The result is the hash, [dataLength] and [utf16Length]. *)
Fixpoint hash_loop (fuel : nat) (hasEnd : bool) (data : list Z) (hasher : StringHasher)
    (dataLength utf16Length : Z) : option (Z * Z * Z) :=
  match fuel with
  | O => None
  | S fuel' =>
      more ← (if hasEnd then Some (bool_decide (data <> []))
              else b0 ← aget data 0; Some (truthy b0));
      if negb more then Some (hashWithTop8BitsMasked hasher, dataLength, utf16Length)
      else
        b0 ← aget data 0;
        if isASCII b0 then
          hasher ← hasher_run (addCharacter b0) hasher;
          hash_loop fuel' hasEnd (drop 1 data) hasher (u32 (dataLength + 1)) (u32 (utf16Length + 1))
        else
          let utf8SequenceLength := inlineUTF8SequenceLengthNonASCII b0 in
          let dataLength := u32 (dataLength + utf8SequenceLength) in
          complete ← (if hasEnd then Some (negb (Z.of_nat (length data) <? utf8SequenceLength))
                      else no_zero (Z.to_nat (utf8SequenceLength - 1)) data 1);
          if negb complete then Some (0, dataLength, utf16Length)
          else
            legal ← isLegalUTF8 data utf8SequenceLength;
            if negb legal then Some (0, dataLength, utf16Length)
            else
              '(character, data) ← readUTF8Sequence data utf8SequenceLength;
              if isASCII character then None
              else if U_IS_BMP character then
                if U_IS_SURROGATE character then Some (0, dataLength, utf16Length)
                else
                  hasher ← hasher_run (addCharacter (u16 character)) hasher;
                  hash_loop fuel' hasEnd data hasher dataLength (u32 (utf16Length + 1))
              else if U_IS_SUPPLEMENTARY character then
                hasher ← hasher_run (addCharacters (U16_LEAD character) (U16_TRAIL character)) hasher;
                hash_loop fuel' hasEnd data hasher dataLength (u32 (utf16Length + 2))
              else Some (0, dataLength, utf16Length)
  end.

(** On a null pointer the references are left as they are. *)
Definition calculateStringHashAndLengthFromUTF8MaskingTop8Bits (data : option (list Z)) (hasEnd : bool)
    (dataLength utf16Length : Z) : option (Z * Z * Z) :=
  match data with
  | None => Some (0, dataLength, utf16Length)
  | Some data => hash_loop (S (length data)) hasEnd data new_hasher 0 0
  end.

Fixpoint equal_loop (fuel : nat) (a b : list Z) : option bool :=
  match fuel with
  | O => None
  | S fuel' =>
      match b with
      | [] => Some (bool_decide (a = []))
      | b0 :: rest =>
          if isASCII b0 then
            a0 ← aget a 0;
            if negb (a0 =? b0) then Some false else equal_loop fuel' (drop 1 a) rest
          else
            let utf8SequenceLength := inlineUTF8SequenceLengthNonASCII b0 in
            if Z.of_nat (length b) <? utf8SequenceLength then Some false
            else
              legal ← isLegalUTF8 b utf8SequenceLength;
              if negb legal then Some false
              else
                '(character, b) ← readUTF8Sequence b utf8SequenceLength;
                if isASCII character then None
                else if U_IS_BMP character then
                  if U_IS_SURROGATE character then Some false
                  else
                    a0 ← aget a 0;
                    if negb (a0 =? character) then Some false else equal_loop fuel' (drop 1 a) b
                else if U_IS_SUPPLEMENTARY character then
                  a0 ← aget a 0;
                  if negb (a0 =? U16_LEAD character) then Some false
                  else
                    a1 ← aget a 1;
                    if negb (a1 =? U16_TRAIL character) then Some false
                    else equal_loop fuel' (drop 2 a) b
                else Some false
      end
  end.

Definition equalUTF16WithUTF8 (a b : list Z) : option bool := equal_loop (S (length b)) a b.

(** ** Atomic strings from UTF-8 *)

Record HashAndUTF8Characters := mk_utf8_buffer {
  buf_hash : Z;
  buf_characters : list Z;
  buf_length : Z;
  buf_utf16Length : Z
}.

(** The comparison of the characters when the buffer is ASCII only. *)
Fixpoint equal_ascii (n : nat) (string buffer : list Z) : option bool :=
  match n with
  | O => Some true
  | S n' =>
      match string, buffer with
      | s :: string, b :: buffer =>
          if negb (isASCII b) then None
          else if negb (s =? b) then Some false else equal_ascii n' string buffer
      | _, _ => None
      end
  end.

(** [HashAndUTF8CharactersTranslator::equal]; the string's characters of
    either width are a list. *)
Definition translator_equal (string : list Z) (buffer : HashAndUTF8Characters) : option bool :=
  if negb (buf_utf16Length buffer =? Z.of_nat (length string)) then Some false
  else if negb (buf_utf16Length buffer =? buf_length buffer) then
    equalUTF16WithUTF8 string (take (Z.to_nat (buf_length buffer)) (buf_characters buffer))
  else equal_ascii (Z.to_nat (buf_length buffer)) string (buf_characters buffer).

(** A [StringImpl]: its characters, and the hash above seven flags. *)
Record StringImpl := mk_string { string_characters : list Z; m_hashAndFlags : Z }.

Definition s_flagCount : Z := 7.
Definition s_flagMask : Z := Z.shiftl 1 s_flagCount - 1.
Definition BufferInternal : Z := 0.
Definition s_hashFlag8BitBuffer : Z := Z.shiftl 1 5.
Definition s_hashFlagIsAtomic : Z := Z.shiftl 1 4.

Definition rawHash (s : StringImpl) : Z := Z.shiftr (m_hashAndFlags s) s_flagCount.
Definition hasHash (s : StringImpl) : bool := negb (rawHash s =? 0).
Definition is8Bit (s : StringImpl) : bool := truthy (Z.land (m_hashAndFlags s) s_hashFlag8BitBuffer).
Definition isAtomic (s : StringImpl) : bool := truthy (Z.land (m_hashAndFlags s) s_hashFlagIsAtomic).

Definition setHash (h : Z) (s : StringImpl) : option StringImpl :=
  if hasHash s then None
  else match computeHashAndMaskTop8Bits_n id (string_characters s) (Z.of_nat (length (string_characters s))) with
  | Ok canonical =>
      let shifted := u32 (Z.shiftl h s_flagCount) in
      if negb (h =? canonical) then None
      else if truthy (Z.land h (Z.shiftl s_flagMask (32 - s_flagCount))) then None
      else if truthy (Z.land shifted (m_hashAndFlags s)) then None
      else if negb (truthy shifted) then None
      else Some (mk_string (string_characters s) (Z.lor (m_hashAndFlags s) shifted))
  | Err _ => None
  end.

(** The string is neither static nor the empty unique one. *)
Definition setIsAtomic (s : StringImpl) : StringImpl :=
  mk_string (string_characters s) (Z.lor (m_hashAndFlags s) s_hashFlagIsAtomic).

(** Strings are created with room for [length] characters of [size] bytes, and
    the program crashes if there are too many.  Without characters it is the
    shared empty string, which has a hash. *)
Definition sizeof_StringImpl : Z := 32.
Definition maxLength (size : Z) : Z := (2 ^ 32 - 1 - sizeof_StringImpl) / size.
Definition create (size flags : Z) (characters : list Z) : option StringImpl :=
  let length := Z.of_nat (length characters) in
  if (length =? 0) || (maxLength size <? length) then None else Some (mk_string characters flags).

(** [HashAndUTF8CharactersTranslator::translate]: all characters of the new
    string are initialised by the conversion. *)
Definition translator_translate (buffer : HashAndUTF8Characters) : option StringImpl :=
  let source := take (Z.to_nat (buf_length buffer)) (buf_characters buffer) in
  '(result, _, target, isAllASCII) ← convertUTF8ToUTF16 source (buf_utf16Length buffer) true;
  match result with
  | conversionOK =>
      newString ← (if Z.of_nat (length target) =? buf_utf16Length buffer then create 2 BufferInternal target else None);
      newString ← (if (isAllASCII : bool) then create 1 (Z.lor s_hashFlag8BitBuffer BufferInternal) source else Some newString);
      newString ← setHash (buf_hash buffer) newString;
      Some (setIsAtomic newString)
  | _ => None
  end.

(** The atom of a text: null, the empty one, or that of the string table for a
    key. *)
Inductive Atom := nullAtom | emptyAtom | addToStringTable (buffer : HashAndUTF8Characters).

(** [AtomicString::fromUTF8Internal] up to the lookup in the table. *)
Definition fromUTF8Internal (charactersStart : list Z) (hasEnd : bool) : option Atom :=
  '(h, l, l16) ← calculateStringHashAndLengthFromUTF8MaskingTop8Bits (Some charactersStart) hasEnd 0 0;
  if h =? 0 then Some nullAtom else Some (addToStringTable (mk_utf8_buffer h charactersStart l l16)).

(** The two overloads of [AtomicString::fromUTF8], on a pointer to [characters]:
    with a length, and for data that a zero ends. *)
Definition fromUTF8_n (characters : option (list Z)) (length : Z) : option Atom :=
  match characters with
  | None => Some nullAtom
  | Some characters =>
      if length =? 0 then Some emptyAtom else fromUTF8Internal (take (Z.to_nat length) characters) true
  end.

Definition fromUTF8_z (characters : option (list Z)) : option Atom :=
  match characters with
  | None => Some nullAtom
  | Some characters =>
      c0 ← aget characters 0;
      if negb (truthy c0) then Some emptyAtom else fromUTF8Internal characters false
  end.
