(* ===== verification/Utf8Proof.v ===== *)
(** * UTF-8 and UTF-16: the code against the encodings

    [utf8_enc] and [utf16_enc] are the encodings of a code point by division;
    the readers and writers of [Utf8] compute them with masks and shifts. *)

From stdpp Require Import base numbers list.
From S2P Require Import Prelude Ctype StringHasher Utf8.

#[local] Open Scope Z_scope.

(** ** The encodings *)

Definition utf8_enc (c : Z) : list Z :=
  if c <? 0x80 then [c]
  else if c <? 0x800 then [0xC0 + c / 64; 0x80 + c mod 64]
  else if c <? 0x10000 then [0xE0 + c / 4096; 0x80 + c / 64 mod 64; 0x80 + c mod 64]
  else [0xF0 + c / 262144; 0x80 + c / 4096 mod 64; 0x80 + c / 64 mod 64; 0x80 + c mod 64].

Definition utf16_enc (c : Z) : list Z :=
  if c <? 0x10000 then [c] else [0xD800 + (c - 0x10000) / 1024; 0xDC00 + (c - 0x10000) mod 1024].

Definition is_surrogate (c : Z) : bool := (0xD800 <=? c) && (c <=? 0xDFFF).
Definition is_code_point (c : Z) : bool := (0 <=? c) && (c <? 0x110000).
Definition is_scalar (c : Z) : bool := is_code_point c && negb (is_surrogate c).

Definition is_byte (b : Z) : Prop := 0 <= b < 256.
Definition is_unit (u : Z) : Prop := 0 <= u < 65536.

Lemma scalar_spec c : is_scalar c = true <-> (0 <= c < 0xD800 \/ 0xE000 <= c < 0x110000).
Proof.
  unfold is_scalar, is_code_point, is_surrogate.
  destruct (Z.leb_spec 0 c), (Z.ltb_spec c 0x110000), (Z.leb_spec 0xD800 c), (Z.leb_spec c 0xDFFF);
    simpl; split; (done || lia).
Qed.

(** ** Bits *)

(** Equations between bytes, checked on all of them. *)
Lemma byte_forall (P : Z -> bool) :
  forallb P (Z.of_nat <$> seq 0 256) = true -> forall b, is_byte b -> P b = true.
Proof.
  intros H b Hb. apply (proj1 (forallb_forall _ _) H), list_elem_of_In, list_elem_of_fmap.
  exists (Z.to_nat b). unfold is_byte in Hb. rewrite Z2Nat.id by lia. split; [done |]. apply elem_of_seq. lia.
Qed.

Lemma tail_byte ch : 0 <= ch -> u8 (Z.land (Z.lor ch 0x80) 0xBF) = 0x80 + ch mod 64.
Proof.
  intros Hch. assert (Z.land (Z.lor ch 0x80) 0xBF = Z.lor (Z.land ch 0x3F) 0x80) as ->.
  { apply Z.bits_inj'. intros n Hn. rewrite !Z.land_spec, !Z.lor_spec, Z.land_spec.
    assert (n = 0 \/ n = 1 \/ n = 2 \/ n = 3 \/ n = 4 \/ n = 5 \/ n = 6 \/ n = 7 \/ 8 <= n) as H by lia.
    destruct H as [-> | [-> | [-> | [-> | [-> | [-> | [-> | [-> | H]]]]]]]];
      try (destruct (Z.testbit ch _); reflexivity).
    rewrite (Z.bits_above_log2 0xBF n ltac:(lia) ltac:(change (Z.log2 0xBF) with 7; lia)).
    rewrite (Z.bits_above_log2 0x3F n ltac:(lia) ltac:(change (Z.log2 0x3F) with 5; lia)).
    rewrite (Z.bits_above_log2 0x80 n ltac:(lia) ltac:(change (Z.log2 0x80) with 7; lia)).
    by rewrite !andb_false_r. }
  change 0x3F with (Z.ones 6). rewrite Z.land_ones by lia. change (2 ^ 6) with 64.
  pose proof (Z.mod_pos_bound ch 64 ltac:(lia)).
  change 0x80 with (Z.shiftl 2 6). rewrite lor_shiftl_add by lia. change (Z.shiftl 2 6) with 128.
  rewrite u8_id; lia.
Qed.

Lemma mark_byte ch m k : 0 <= k -> 0 <= ch < 2 ^ k -> 0 <= m -> ch + m * 2 ^ k < 256 ->
  u8 (Z.lor ch (m * 2 ^ k)) = m * 2 ^ k + ch.
Proof.
  intros Hk Hch Hm Hb. pose proof (Z.pow_nonneg 2 k ltac:(lia)). pose proof (Z.mul_nonneg_nonneg m (2 ^ k)).
  rewrite <- (Z.shiftl_mul_pow2 m k) at 1 by lia. rewrite lor_shiftl_add by lia. rewrite u8_id; lia.
Qed.

(** ** Writing *)

Ltac split_code c :=
  destruct (Z.ltb_spec c 0x80) as [Hc1 | Hc1]; [| destruct (Z.ltb_spec c 0x800) as [Hc2 | Hc2];
    [| destruct (Z.ltb_spec c 0x10000) as [Hc3 | Hc3]]].

Ltac zdiv := Z.to_euclidean_division_equations; lia.

Lemma bytes_to_write_ok c :
  is_code_point c = true -> bytes_to_write c = (Z.of_nat (length (utf8_enc c)), c).
Proof.
  unfold is_code_point. intros. zbool. unfold bytes_to_write, utf8_enc.
  split_code c; try done. by rewrite (proj2 (Z.ltb_lt c 0x110000)) by lia.
Qed.

Lemma write_sequence_ok c :
  is_code_point c = true -> write_sequence c (Z.of_nat (length (utf8_enc c))) = Some (utf8_enc c).
Proof.
  unfold is_code_point. intros. zbool. unfold utf8_enc.
  set (tail ch := u8 (Z.land (Z.lor ch 0x80) 0xBF)).
  assert (forall ch, 0 <= ch -> tail ch = 0x80 + ch mod 64) as Htail by (intros; by apply tail_byte).
  assert (forall ch, Z.shiftr ch 6 = ch / 64) as Hsh by (intros; by apply Z.shiftr_div_pow2).
  assert (0 <= c / 64 /\ 0 <= c / 64 / 64) as [H64 H64'] by zdiv.
  split_code c.
  - change (Some [u8 (Z.lor c 0)] = Some [c]). by rewrite Z.lor_0_r, u8_id by lia.
  - change (Some [u8 (Z.lor (Z.shiftr c 6) 0xC0); tail c] = Some [0xC0 + c / 64; 0x80 + c mod 64]).
    rewrite Hsh, Htail by done. change 0xC0 with (6 * 2 ^ 5). by rewrite mark_byte by zdiv.
  - change (Some [u8 (Z.lor (Z.shiftr (Z.shiftr c 6) 6) 0xE0); tail (Z.shiftr c 6); tail c]
      = Some [0xE0 + c / 4096; 0x80 + c / 64 mod 64; 0x80 + c mod 64]).
    rewrite !Hsh, !Htail by done. rewrite Z.div_div by lia. change (64 * 64) with 4096.
    change 0xE0 with (14 * 2 ^ 4). by rewrite mark_byte by zdiv.
  - change (Some [u8 (Z.lor (Z.shiftr (Z.shiftr (Z.shiftr c 6) 6) 6) 0xF0); tail (Z.shiftr (Z.shiftr c 6) 6);
        tail (Z.shiftr c 6); tail c]
      = Some [0xF0 + c / 262144; 0x80 + c / 4096 mod 64; 0x80 + c / 64 mod 64; 0x80 + c mod 64]).
    rewrite !Hsh, !Htail by done. rewrite !Z.div_div by lia. change (64 * 64) with 4096.
    change (64 * (64 * 64)) with 262144. change (4096 * 64) with 262144.
    change 0xF0 with (30 * 2 ^ 3). by rewrite mark_byte by zdiv.
Qed.

(** ** Reading *)

(** The length that the first byte announces. *)
Definition announced (b : Z) : Z :=
  if b <? 0x80 then 1 else if b <? 0xC0 then 0 else if b <? 0xE0 then 2
  else if b <? 0xF0 then 3 else if b <? 0xF8 then 4 else 0.

Lemma announced_length b : is_byte b -> inlineUTF8SequenceLength b = announced b.
Proof.
  intros Hb. apply Z.eqb_eq. revert b Hb.
  apply (byte_forall (fun b => inlineUTF8SequenceLength b =? announced b)). by vm_compute.
Qed.

Lemma sequence_length b :
  is_byte b ->
  inlineUTF8SequenceLength b =
    if b <? 0x80 then 1 else if b <? 0xC0 then 0 else if b <? 0xE0 then 2
    else if b <? 0xF0 then 3 else if b <? 0xF8 then 4 else 0.
Proof. apply announced_length. Qed.

Lemma ascii_byte b : is_byte b -> isASCII b = (b <? 0x80).
Proof.
  intros Hb. apply Bool.eqb_prop. revert b Hb.
  apply (byte_forall (fun b => eqb (isASCII b) (b <? 0x80))). by vm_compute.
Qed.

(** Reading the bytes as numbers to the base 64. *)
Lemma read_2 b0 b1 rest : readUTF8Sequence (b0 :: b1 :: rest) 2 = Some (b0 * 64 + b1 - 0x3080, rest).
Proof. 
  change (Some (Z.shiftl (0 + b0) 6 + b1 - 0x3080, rest) = Some (b0 * 64 + b1 - 0x3080, rest)).
  by rewrite Z.shiftl_mul_pow2 by lia.
Qed.
Lemma read_3 b0 b1 b2 rest :
  readUTF8Sequence (b0 :: b1 :: b2 :: rest) 3 = Some ((b0 * 64 + b1) * 64 + b2 - 0xE2080, rest).
Proof.
  change (Some (Z.shiftl (Z.shiftl (0 + b0) 6 + b1) 6 + b2 - 0xE2080, rest)
    = Some ((b0 * 64 + b1) * 64 + b2 - 0xE2080, rest)).
  by rewrite !Z.shiftl_mul_pow2 by lia.
Qed.
Lemma read_4 b0 b1 b2 b3 rest :
  readUTF8Sequence (b0 :: b1 :: b2 :: b3 :: rest) 4
    = Some (((b0 * 64 + b1) * 64 + b2) * 64 + b3 - 0x3C82080, rest).
Proof.
  change (Some (Z.shiftl (Z.shiftl (Z.shiftl (0 + b0) 6 + b1) 6 + b2) 6 + b3 - 0x3C82080, rest)
    = Some (((b0 * 64 + b1) * 64 + b2) * 64 + b3 - 0x3C82080, rest)).
  by rewrite !Z.shiftl_mul_pow2 by lia.
Qed.

(** Two families of sequences that are not UTF-8: after [0xED] and [0xF4] the
    test of the second byte has an upper bound only. *)
Inductive irregular (c : Z) : list Z -> Prop :=
  | irregular_ED a t :
      0 <= a < 0x80 -> 0x80 <= t <= 0xBF -> c = 0xD000 + (a - 0x80) * 64 + (t - 0x80) -> irregular c [0xED; a; t]
  | irregular_F4 a t u :
      0 <= a < 0x80 -> 0x80 <= t <= 0xBF -> 0x80 <= u <= 0xBF ->
      c = 0x100000 + (a - 0x80) * 4096 + (t - 0x80) * 64 + (u - 0x80) -> irregular c [0xF4; a; t; u].

(** What the reader accepts for a code point: its encoding, or an irregular
    sequence. *)
Inductive seq_of (c : Z) (s : list Z) : Prop :=
  | seq_enc : is_scalar c = true -> s = utf8_enc c -> seq_of c s
  | seq_irregular : irregular c s -> seq_of c s.

Lemma seq_of_scalar c s : seq_of c s -> is_scalar c = true.
Proof. destruct 1 as [| []]; [done | apply scalar_spec; lia ..]. Qed.

Lemma irregular_not_ascii c s : irregular c s -> (c <? 0x80) = false.
Proof. intros []; apply Z.ltb_ge; lia. Qed.

Lemma irregular_not_encoding c c' : is_scalar c' = true -> ~ irregular c (utf8_enc c').
Proof.
  intros Hc'%scalar_spec Hs. inversion Hs as [a t Ha Ht _ Heq | a t u Ha Ht Hu _ Heq]; clear Hs; revert Heq; unfold utf8_enc;
    split_code c'; intros [=]; zdiv.
Qed.

(** The tests of [isLegalUTF8] as conditions. *)
Definition legal2 (b0 b1 : Z) : Prop :=
  0xC2 <= b0 <= 0xF4 /\ b1 <= 0xBF /\ (b0 = 0xE0 -> 0xA0 <= b1) /\ (b0 = 0xED -> b1 <= 0x9F) /\
  (b0 = 0xF0 -> 0x90 <= b1) /\ (b0 = 0xF4 -> b1 <= 0x8F) /\ (b0 <> 0xED -> b0 <> 0xF4 -> 0x80 <= b1).

Lemma legal2_spec b0 b1 :
  0xC0 <= b0 < 0xF8 -> is_byte b1 -> legal_second b0 b1 && legal_first b0 = true <-> legal2 b0 b1.
Proof.
  intros Hb0 [Hb1 Hb1']. unfold legal2, legal_second, legal_first.
  destruct (Z.ltb_spec 0xBF b1); [split; [done | lia] |].
  rewrite (proj2 (Z.leb_le 0x80 b0)) by lia.
  destruct (Z.ltb_spec b0 0xC2), (Z.ltb_spec 0xF4 b0); cbn [negb andb]; rewrite ?andb_false_r, ?andb_true_r;
    try (split; [done | lia]).
  destruct (Z.eqb_spec b0 0xE0), (Z.eqb_spec b0 0xED), (Z.eqb_spec b0 0xF0), (Z.eqb_spec b0 0xF4);
    rewrite Z.leb_le; lia.
Qed.

Lemma in_trail_spec b : in_trail b = true <-> 0x80 <= b <= 0xBF.
Proof. unfold in_trail. rewrite andb_true_iff, !Z.leb_le. lia. Qed.

Lemma legal_2 b0 b1 rest : isLegalUTF8 (b0 :: b1 :: rest) 2 = Some (legal_second b0 b1 && legal_first b0).
Proof. done. Qed.
Lemma legal_3 b0 b1 b2 rest :
  isLegalUTF8 (b0 :: b1 :: b2 :: rest) 3 = Some (in_trail b2 && (legal_second b0 b1 && legal_first b0)).
Proof.
  change (isLegalUTF8 _ _) with (if negb (in_trail b2) then Some false
    else Some (legal_second b0 b1 && legal_first b0)). by destruct (in_trail b2).
Qed.
Lemma legal_4 b0 b1 b2 b3 rest :
  isLegalUTF8 (b0 :: b1 :: b2 :: b3 :: rest) 4
    = Some (in_trail b3 && (in_trail b2 && (legal_second b0 b1 && legal_first b0))).
Proof.
  change (isLegalUTF8 _ _) with (if negb (in_trail b3) then Some false
    else if negb (in_trail b2) then Some false else Some (legal_second b0 b1 && legal_first b0)).
  by destruct (in_trail b3), (in_trail b2).
Qed.

(** The first sequence of [source] is read as [c]. *)
Record reads (source : list Z) (len c : Z) (rest : list Z) : Prop := {
  reads_fits : len <= Z.of_nat (length source);
  reads_first : exists b0 tl, source = b0 :: tl /\ is_byte b0 /\ inlineUTF8SequenceLength b0 = len;
  reads_legal : isLegalUTF8 source len = Some true;
  reads_char : readUTF8Sequence source len = Some (c, rest)
}.

Ltac first_byte b :=
  eexists b, _; split; [reflexivity |]; split; [unfold is_byte; lia |];
  rewrite sequence_length by (unfold is_byte; lia);
  repeat first [rewrite (proj2 (Z.ltb_lt b _)) by lia | rewrite (proj2 (Z.ltb_ge b _)) by lia]; done.

Lemma reads_2 b0 b1 rest :
  0xC0 <= b0 < 0xE0 -> is_byte b1 -> legal2 b0 b1 ->
  reads (b0 :: b1 :: rest) 2 (b0 * 64 + b1 - 0x3080) rest.
Proof.
  intros Hb0 Hb1 Hl. split; [simpl; lia | first_byte b0 | | apply read_2].
  rewrite legal_2. f_equal. apply legal2_spec; [lia | done | done].
Qed.

Lemma reads_3 b0 b1 b2 rest :
  0xE0 <= b0 < 0xF0 -> is_byte b1 -> legal2 b0 b1 -> 0x80 <= b2 <= 0xBF ->
  reads (b0 :: b1 :: b2 :: rest) 3 ((b0 * 64 + b1) * 64 + b2 - 0xE2080) rest.
Proof.
  intros Hb0 Hb1 Hl Hb2. split; [simpl; lia | first_byte b0 | | apply read_3].
  rewrite legal_3, (proj2 (in_trail_spec b2)) by lia. f_equal. apply legal2_spec; [lia | done | done].
Qed.

Lemma reads_4 b0 b1 b2 b3 rest :
  0xF0 <= b0 < 0xF8 -> is_byte b1 -> legal2 b0 b1 -> 0x80 <= b2 <= 0xBF -> 0x80 <= b3 <= 0xBF ->
  reads (b0 :: b1 :: b2 :: b3 :: rest) 4 (((b0 * 64 + b1) * 64 + b2) * 64 + b3 - 0x3C82080) rest.
Proof.
  intros Hb0 Hb1 Hl Hb2 Hb3. split; [simpl; lia | first_byte b0 | | apply read_4].
  rewrite legal_4, (proj2 (in_trail_spec b2)), (proj2 (in_trail_spec b3)) by lia. f_equal.
  apply legal2_spec; [lia | done | done].
Qed.

Lemma reads_1 b0 rest : 0 <= b0 < 0x80 -> reads (b0 :: rest) 1 b0 rest.
Proof.
  intros Hb0. split; [simpl; lia | first_byte b0 | | by change (Some (0 + b0 - 0, rest) = Some (b0, rest)); rewrite Z.sub_0_r].
  change (Some (legal_first b0) = Some true). unfold legal_first.
  by rewrite (proj2 (Z.leb_gt 0x80 b0)), (proj2 (Z.ltb_ge 0xF4 b0)) by lia.
Qed.

(** What is accepted is read. *)
Lemma seq_of_reads c s rest : seq_of c s -> reads (s ++ rest) (Z.of_nat (length s)) c rest.
Proof.
  destruct 1 as [Hs%scalar_spec -> | [a t Ha Ht -> | a t u Ha Ht Hu ->]].
  - unfold utf8_enc. split_code c; cbn [app length Z.of_nat Pos.of_succ_nat Pos.succ].
    + apply reads_1; lia.
    + replace c with ((0xC0 + c / 64) * 64 + (0x80 + c mod 64) - 0x3080) at 3 by zdiv.
      apply reads_2; unfold is_byte, legal2; zdiv.
    + replace c with (((0xE0 + c / 4096) * 64 + (0x80 + c / 64 mod 64)) * 64 + (0x80 + c mod 64) - 0xE2080) at 4 by zdiv.
      apply reads_3; unfold is_byte, legal2; zdiv.
    + replace c with ((((0xF0 + c / 262144) * 64 + (0x80 + c / 4096 mod 64)) * 64 + (0x80 + c / 64 mod 64)) * 64
        + (0x80 + c mod 64) - 0x3C82080) at 5 by zdiv.
      apply reads_4; unfold is_byte, legal2; zdiv.
  - replace (_ + _ + _) with ((0xED * 64 + a) * 64 + t - 0xE2080) by lia.
    apply reads_3; unfold is_byte, legal2; lia.
  - replace (_ + _ + _ + _) with (((0xF4 * 64 + a) * 64 + t) * 64 + u - 0x3C82080) by lia.
    apply reads_4; unfold is_byte, legal2; lia.
Qed.

(** The encodings of the code points that are read. *)
Lemma enc2_eq b0 b1 :
  0xC0 <= b0 < 0xE0 -> 0x80 <= b1 <= 0xBF -> 0x80 <= b0 * 64 + b1 - 0x3080 ->
  utf8_enc (b0 * 64 + b1 - 0x3080) = [b0; b1].
Proof.
  intros Hb0 Hb1 Hv. set (c := _ - _) in *. unfold utf8_enc.
  rewrite (proj2 (Z.ltb_ge c 0x80)), (proj2 (Z.ltb_lt c 0x800)) by lia. repeat f_equal; zdiv.
Qed.

Lemma enc3_eq b0 b1 b2 :
  0xE0 <= b0 < 0xF0 -> 0x80 <= b1 <= 0xBF -> 0x80 <= b2 <= 0xBF ->
  0x800 <= (b0 * 64 + b1) * 64 + b2 - 0xE2080 ->
  utf8_enc ((b0 * 64 + b1) * 64 + b2 - 0xE2080) = [b0; b1; b2].
Proof.
  intros Hb0 Hb1 Hb2 Hv. set (c := _ - _) in *. unfold utf8_enc.
  rewrite (proj2 (Z.ltb_ge c 0x80)), (proj2 (Z.ltb_ge c 0x800)), (proj2 (Z.ltb_lt c 0x10000)) by lia.
  repeat f_equal; zdiv.
Qed.

Lemma enc4_eq b0 b1 b2 b3 :
  0xF0 <= b0 < 0xF8 -> 0x80 <= b1 <= 0xBF -> 0x80 <= b2 <= 0xBF -> 0x80 <= b3 <= 0xBF ->
  0x10000 <= ((b0 * 64 + b1) * 64 + b2) * 64 + b3 - 0x3C82080 ->
  utf8_enc (((b0 * 64 + b1) * 64 + b2) * 64 + b3 - 0x3C82080) = [b0; b1; b2; b3].
Proof.
  intros Hb0 Hb1 Hb2 Hb3 Hv. set (c := _ - _) in *. unfold utf8_enc.
  rewrite (proj2 (Z.ltb_ge c 0x80)), (proj2 (Z.ltb_ge c 0x800)), (proj2 (Z.ltb_ge c 0x10000)) by lia.
  repeat f_equal; zdiv.
Qed.

Lemma enc_2 b0 b1 :
  0xC0 <= b0 < 0xE0 -> is_byte b1 -> legal2 b0 b1 -> seq_of (b0 * 64 + b1 - 0x3080) [b0; b1].
Proof.
  intros Hb0 [Hb1 Hb1'] Hl. unfold legal2 in Hl. rewrite <- (enc2_eq b0 b1) by lia.
  apply seq_enc; [apply scalar_spec; lia | done].
Qed.

Lemma enc_3 b0 b1 b2 :
  0xE0 <= b0 < 0xF0 -> is_byte b1 -> legal2 b0 b1 -> 0x80 <= b2 <= 0xBF ->
  seq_of ((b0 * 64 + b1) * 64 + b2 - 0xE2080) [b0; b1; b2].
Proof.
  intros Hb0 [Hb1 Hb1'] Hl Hb2. unfold legal2 in Hl.
  destruct (decide (b0 = 0xED /\ b1 < 0x80)) as [[-> Hq] |]; [apply seq_irregular, irregular_ED; lia |].
  rewrite <- (enc3_eq b0 b1 b2) by lia. apply seq_enc; [apply scalar_spec; lia | done].
Qed.

Lemma enc_4 b0 b1 b2 b3 :
  0xF0 <= b0 < 0xF8 -> is_byte b1 -> legal2 b0 b1 -> 0x80 <= b2 <= 0xBF -> 0x80 <= b3 <= 0xBF ->
  seq_of (((b0 * 64 + b1) * 64 + b2) * 64 + b3 - 0x3C82080) [b0; b1; b2; b3].
Proof.
  intros Hb0 [Hb1 Hb1'] Hl Hb2 Hb3. unfold legal2 in Hl.
  destruct (decide (b0 = 0xF4 /\ b1 < 0x80)) as [[-> Hq] |]; [apply seq_irregular, irregular_F4; lia |].
  rewrite <- (enc4_eq b0 b1 b2 b3) by lia. apply seq_enc; [apply scalar_spec; lia | done].
Qed.

Lemma enc_1 b0 : 0 <= b0 < 0x80 -> seq_of b0 [b0].
Proof.
  intros Hb0. apply seq_enc; [apply scalar_spec; lia |].
  unfold utf8_enc. by rewrite (proj2 (Z.ltb_lt b0 0x80)) by lia.
Qed.

(** A source starts with an accepted sequence, or the tests refuse it. *)
Definition starts (source : list Z) : Prop := exists c s rest, seq_of c s /\ source = s ++ rest.

Definition refused (source : list Z) (len : Z) : Prop :=
  Z.of_nat (length source) < len \/ len <= Z.of_nat (length source) /\ isLegalUTF8 source len = Some false.

Lemma read_cases b0 tl :
  Forall is_byte (b0 :: tl) -> starts (b0 :: tl) \/ refused (b0 :: tl) (inlineUTF8SequenceLength b0).
Proof.
  intros [Hb0 Htl]%Forall_cons. rewrite sequence_length by done. pose proof Hb0 as [Hb0' Hb0''].
  destruct (Z.ltb_spec b0 0x80).
  { left. exists b0, [b0], tl. split; [apply enc_1; lia | done]. }
  destruct (Z.ltb_spec b0 0xC0); [right; right; split; [simpl; lia | done] |].
  destruct (Z.ltb_spec b0 0xE0).
  { destruct tl as [|b1 tl]; [by right; left |]. apply Forall_cons in Htl as [Hb1 _].
    destruct (legal_second b0 b1 && legal_first b0) eqn:Hl.
    - left. exists (b0 * 64 + b1 - 0x3080), [b0; b1], tl. split; [| done].
      apply enc_2; [lia | done |]. apply legal2_spec; [lia | done | done].
    - right. right. split; [simpl; lia |]. by rewrite legal_2, Hl. }
  destruct (Z.ltb_spec b0 0xF0).
  { destruct tl as [|b1 [|b2 tl]]; [by right; left | by right; left |].
    apply Forall_cons in Htl as [Hb1 [Hb2 _]%Forall_cons].
    destruct (in_trail b2 && (legal_second b0 b1 && legal_first b0)) eqn:Hl.
    - apply andb_true_iff in Hl as [Ht%in_trail_spec Hl]. left. eexists _, [b0; b1; b2], tl. split; [| done].
      apply enc_3; [lia | done | | done]. apply legal2_spec; [lia | done | done].
    - right. right. split; [simpl; lia |]. by rewrite legal_3, Hl. }
  destruct (Z.ltb_spec b0 0xF8); [| right; right; split; [simpl; lia | done]].
  destruct tl as [|b1 [|b2 [|b3 tl]]]; [by right; left | by right; left | by right; left |].
  apply Forall_cons in Htl as [Hb1 [Hb2 [Hb3 _]%Forall_cons]%Forall_cons].
  destruct (in_trail b3 && (in_trail b2 && (legal_second b0 b1 && legal_first b0))) eqn:Hl.
  - apply andb_true_iff in Hl as [Ht3%in_trail_spec [Ht2%in_trail_spec Hl]%andb_true_iff].
    left. eexists _, [b0; b1; b2; b3], tl. split; [| done].
    apply enc_4; [lia | done | | done | done]. apply legal2_spec; [lia | done | done].
  - right. right. split; [simpl; lia |]. by rewrite legal_4, Hl.
Qed.

(** The two cases exclude each other. *)
Lemma refused_not_starts b0 tl :
  refused (b0 :: tl) (inlineUTF8SequenceLength b0) -> ~ starts (b0 :: tl).
Proof.
  intros Hr (c & s & rest & Hs & Heq). pose proof (seq_of_reads c s rest Hs) as [Hf (b & t & Hb & _ & Hlen) Hl _].
  rewrite <- Heq in *. simplify_eq. rewrite Hlen in Hr. destruct Hr as [? | [_ Hr]]; [lia |].
  by rewrite Hl in Hr.
Qed.

(** ** UTF-16 code units *)

Lemma ldiff_ones_div c n : 0 <= n -> Z.ldiff c (Z.ones n) = c / 2 ^ n * 2 ^ n.
Proof. intros. by rewrite Z.ldiff_ones_r, Z.shiftl_mul_pow2, Z.shiftr_div_pow2. Qed.

Lemma surrogate_spec c : 0 <= c < 2 ^ 32 -> U_IS_SURROGATE c = is_surrogate c.
Proof.
  intros Hc. unfold U_IS_SURROGATE.
  assert (Z.land c 0xFFFFF800 = Z.ldiff c (Z.ones 11)) as ->.
  { change 0xFFFFF800 with (Z.ldiff (Z.ones 32) (Z.ones 11)). apply Z.bits_inj'. intros n Hn.
    rewrite Z.land_spec, !Z.ldiff_spec, andb_assoc. f_equal. rewrite <- Z.land_spec, Z.land_ones by lia.
    by rewrite Z.mod_small. }
  rewrite ldiff_ones_div by lia. unfold is_surrogate.
  destruct (Z.eqb_spec (c / 2 ^ 11 * 2 ^ 11) 0xD800), (Z.leb_spec 0xD800 c), (Z.leb_spec c 0xDFFF);
    simpl; (done || zdiv).
Qed.

Lemma isASCII_spec c : 0 <= c -> isASCII c = (c <? 0x80).
Proof.
  intros Hc. unfold isASCII. change (Z.lnot 0x7F) with (Z.lnot (Z.ones 7)).
  rewrite <- Z.ldiff_land, ldiff_ones_div by lia.
  destruct (Z.eqb_spec (c / 2 ^ 7 * 2 ^ 7) 0), (Z.ltb_spec c 0x80); (done || zdiv).
Qed.

Lemma isASCII_lor a b : isASCII (Z.lor a b) = isASCII a && isASCII b.
Proof.
  unfold isASCII. rewrite Z.land_lor_distr_l.
  destruct (Z.eqb_spec (Z.land a (Z.lnot 0x7F)) 0) as [-> | Ha]; simpl; [done |].
  apply Z.eqb_neq. intros H%Z.lor_eq_0_iff. tauto.
Qed.

Lemma bmp_units c :
  is_scalar c = true -> c < 0x10000 ->
  U_IS_BMP c = true /\ U_IS_SURROGATE c = false /\ u16 c = c /\ utf16_enc c = [c].
Proof.
  intros Hs Hc. pose proof (proj1 (scalar_spec c) Hs). split_and!.
  - unfold U_IS_BMP. rewrite u32_id by lia. apply Z.leb_le. lia.
  - rewrite surrogate_spec by lia. unfold is_scalar in Hs. zbool. done.
  - apply u16_id. lia.
  - unfold utf16_enc. by rewrite (proj2 (Z.ltb_lt c 0x10000)).
Qed.

Lemma supplementary_units c :
  is_scalar c = true -> 0x10000 <= c ->
  U_IS_BMP c = false /\ U_IS_SUPPLEMENTARY c = true /\ [U16_LEAD c; U16_TRAIL c] = utf16_enc c.
Proof.
  intros Hs Hc. apply scalar_spec in Hs. split_and!.
  - unfold U_IS_BMP. rewrite u32_id by lia. apply Z.leb_gt. lia.
  - unfold U_IS_SUPPLEMENTARY. rewrite u32_id by lia. apply Z.leb_le. lia.
  - unfold utf16_enc, U16_LEAD, U16_TRAIL. rewrite (proj2 (Z.ltb_ge c 0x10000)) by lia.
    rewrite Z.shiftr_div_pow2 by lia. change 0x3FF with (Z.ones 10). rewrite Z.land_ones by lia.
    change 0xDC00 with (Z.shiftl 55 10) at 1. pose proof (Z.mod_pos_bound c (2 ^ 10) ltac:(lia)).
    rewrite lor_shiftl_add by lia. change (2 ^ 10) with 1024 in *.
    rewrite (u16_id (c / 1024 + _)), (u16_id (c mod 1024 + _)) by zdiv.
    f_equal; [zdiv | f_equal; zdiv].
Qed.

(** [orAllData] after a character. *)
Definition or_all (orAllData c : Z) : Z := if c <? 0x10000 then u16 (Z.lor orAllData c) else 0xFFFF.

Lemma or_all_ascii o c :
  0 <= o < 65536 -> is_scalar c = true ->
  0 <= or_all o c < 65536 /\ isASCII (or_all o c) = isASCII o && (c <? 0x80).
Proof.
  intros Ho Hs. unfold or_all. destruct (Z.ltb_spec c 0x10000) as [Hc | Hc].
  - split; [apply u16_range |]. pose proof (proj1 (scalar_spec c) Hs).
    assert (0 <= Z.lor o c < 65536) as Hl.
    { enough (u16 (Z.lor o c) = Z.lor o c) as <- by apply u16_range. unfold u16, uwrap.
      apply Z.bits_inj'. intros n Hn. destruct (Z.ltb_spec n 16); [by apply Z.mod_pow2_bits_low |].
      rewrite Z.mod_pow2_bits_high, Z.lor_spec by lia.
      by rewrite <- (Z.mod_small o (2 ^ 16)), <- (Z.mod_small c (2 ^ 16)), !Z.mod_pow2_bits_high by lia. }
    rewrite u16_id by done. rewrite isASCII_lor. f_equal. by apply isASCII_spec; lia.
  - split; [lia |]. rewrite (proj2 (Z.ltb_ge c 0x80)) by lia. by rewrite andb_false_r.
Qed.

(** ** UTF-8 to UTF-16 *)

Lemma utf16_enc_length c : 1 <= Z.of_nat (length (utf16_enc c)) <= 2.
Proof. unfold utf16_enc. destruct (c <? 0x10000); simpl; lia. Qed.

Lemma decode_seq fuel strict c s rest target room o :
  seq_of c s ->
  convertUTF8ToUTF16_loop (S fuel) strict (s ++ rest) target room o =
    if room <? Z.of_nat (length (utf16_enc c)) then Some (targetExhausted, s ++ rest, target, o)
    else convertUTF8ToUTF16_loop fuel strict rest (target ++ utf16_enc c)
           (room - Z.of_nat (length (utf16_enc c))) (or_all o c).
Proof.
  intros Hs. pose proof (seq_of_scalar _ _ Hs) as Hsc. 
  destruct (seq_of_reads c s rest Hs) as [Hf (b0 & tl & Heq & Hb & Hlen) Hl Hr].
  rewrite Heq in *. cbn [convertUTF8ToUTF16_loop]. rewrite Hlen, (proj2 (Z.ltb_ge _ _)) by done.
  rewrite Hl. cbn [mbind option_bind negb]. rewrite Hr. cbn [mbind option_bind]. unfold or_all.
  destruct (Z.ltb_spec c 0x10000) as [Hc | Hc].
  - destruct (bmp_units c Hsc Hc) as (-> & -> & -> & ->). cbn [length].
    destruct (Z.leb_spec room 0), (Z.ltb_spec room (Z.of_nat 1)); (done || lia).
  - destruct (supplementary_units c Hsc Hc) as (-> & -> & <-). cbn [length].
    destruct (Z.leb_spec room 0), (Z.leb_spec room 1), (Z.ltb_spec room (Z.of_nat 2)); (done || lia).
Qed.

Lemma decode_refused fuel strict b0 tl target room o :
  refused (b0 :: tl) (inlineUTF8SequenceLength b0) ->
  convertUTF8ToUTF16_loop (S fuel) strict (b0 :: tl) target room o =
    Some (if Z.of_nat (length (b0 :: tl)) <? inlineUTF8SequenceLength b0 then sourceExhausted else sourceIllegal,
          b0 :: tl, target, o).
Proof.
  intros [Hlt | [Hge Hl]]; cbn [convertUTF8ToUTF16_loop].
  - by rewrite (proj2 (Z.ltb_lt _ _)) by done.
  - rewrite (proj2 (Z.ltb_ge _ _)) by done. by rewrite Hl.
Qed.

(** What a conversion stopped at: at bytes that start no accepted sequence it
    is exhausted when fewer are left than the first one announces. *)
Definition stopped8 (r : ConversionResult) (rest : list Z) (room : Z) : Prop :=
  match r with
  | conversionOK => rest = []
  | sourceExhausted => ~ starts rest /\ exists b0 tl, rest = b0 :: tl /\ Z.of_nat (length rest) < announced b0
  | sourceIllegal => ~ starts rest /\ exists b0 tl, rest = b0 :: tl /\ announced b0 <= Z.of_nat (length rest)
  | targetExhausted => exists c s tl, seq_of c s /\ rest = s ++ tl /\ room < Z.of_nat (length (utf16_enc c))
  end.

Lemma decode_loop_ok fuel : forall strict source target room o,
  Forall is_byte source -> (length source < fuel)%nat -> 0 <= o < 65536 ->
  exists r cs ss rest o',
    convertUTF8ToUTF16_loop fuel strict source target room o = Some (r, rest, target ++ mjoin (utf16_enc <$> cs), o') /\
    source = mjoin ss ++ rest /\ Forall2 seq_of cs ss /\
    stopped8 r rest (room - Z.of_nat (length (mjoin (utf16_enc <$> cs)))) /\
    isASCII o' = isASCII o && forallb (fun c => c <? 0x80) cs.
Proof.
  induction fuel as [|fuel IH]; intros strict source target room o Hb Hf Ho; [lia |].
  destruct source as [|b0 tl].
  { exists conversionOK, [], [], [], o. simpl. rewrite app_nil_r, andb_true_r. by split_and!. }
  destruct (read_cases b0 tl Hb) as [(c & s & rest & Hs & Heq) | Hr].
  - rewrite Heq, (decode_seq _ _ c) by done. destruct (Z.ltb_spec room (Z.of_nat (length (utf16_enc c)))) as [Hr | Hr].
    + exists targetExhausted, [], [], (s ++ rest), o. simpl. rewrite app_nil_r, andb_true_r.
      split_and!; [done | done | constructor | | done]. exists c, s, rest. split_and!; [done | done | lia].
    + assert (length s <> O) as Hs0.
      { destruct (seq_of_reads c s rest Hs) as [_ (b & t & _ & Hb0 & Hlen) Hl _]. intros H0.
        rewrite H0 in *. destruct s; [| done]. by destruct rest. }
      assert (Forall is_byte rest) as Hb' by (rewrite Heq in Hb; by apply Forall_app in Hb as [_ ?]).
      assert (length rest < fuel)%nat as Hf'.
      { assert (length (b0 :: tl) = length (s ++ rest)) as H by (by rewrite Heq). rewrite length_app in H. lia. }
      destruct (or_all_ascii o c Ho (seq_of_scalar _ _ Hs)) as [Ho' Ha].
      destruct (IH strict rest (target ++ utf16_enc c) (room - Z.of_nat (length (utf16_enc c))) (or_all o c) Hb' Hf' Ho')
        as (r & cs & ss & rest' & o' & -> & -> & Hss & Hst & Has).
      exists r, (c :: cs), (s :: ss), rest', o'. simpl. rewrite <- !app_assoc. split_and!; [done | done | by constructor | |].
      * by rewrite length_app, Nat2Z.inj_add, Z.sub_add_distr.
      * by rewrite Has, Ha, <- andb_assoc.
  - rewrite (decode_refused fuel strict b0 tl target room o Hr). eexists _, [], [], (b0 :: tl), o.
    rewrite app_nil_r, andb_true_r. split; [done |]. split_and!; [done | constructor | | done].
    pose proof (refused_not_starts _ _ Hr). apply Forall_cons in Hb as [Hb0 _]. rewrite announced_length by done.
    destruct (Z.ltb_spec (Z.of_nat (length (b0 :: tl))) (announced b0)); (split; [done | by exists b0, tl]).
Qed.

(** The two modes never differ: what they treat differently does not pass
    [isLegalUTF8]. *)
Lemma decode_modes fuel : forall strict source target room o,
  Forall is_byte source ->
  convertUTF8ToUTF16_loop fuel strict source target room o = convertUTF8ToUTF16_loop fuel true source target room o.
Proof.
  induction fuel as [|fuel IH]; intros strict source target room o Hb; [done |]. destruct source as [|b0 tl]; [done |].
  destruct (read_cases b0 tl Hb) as [(c & s & rest & Hs & Heq) | Hr].
  - rewrite Heq in *. apply Forall_app in Hb as [_ Hb]. rewrite !(decode_seq _ _ c) by done.
    destruct (_ <? _); [done | by apply IH].
  - by rewrite !decode_refused.
Qed.

(** Text is read in one way only. *)
Lemma seq_of_unique c s rest c' s' rest' :
  seq_of c s -> seq_of c' s' -> s ++ rest = s' ++ rest' -> c = c' /\ s = s' /\ rest = rest'.
Proof.
  intros Hs Hs' Heq.
  destruct (seq_of_reads c s rest Hs) as [_ (b & tl & Hb & _ & Hlen) _ Hr].
  destruct (seq_of_reads c' s' rest' Hs') as [_ (b' & tl' & Hb' & _ & Hlen') _ Hr'].
  rewrite <- Heq in Hb', Hr'. rewrite Hb in Hb'. injection Hb' as <- _. rewrite Hlen in Hlen'. rewrite <- Hlen', Hr in Hr'.
  injection Hr' as -> ->. split_and!; [done | by apply app_inv_tail in Heq | done].
Qed.

Lemma seq_of_nonempty c s : seq_of c s -> s <> [].
Proof. intros Hs ->. destruct (seq_of_reads c [] [] Hs) as [_ (b & t & Hb & _) _ _]. done. Qed.

Lemma seqs_unique cs ss : forall cs' ss',
  Forall2 seq_of cs ss -> Forall2 seq_of cs' ss' -> mjoin ss = mjoin ss' -> cs = cs' /\ ss = ss'.
Proof.
  intros cs' ss' H. revert cs' ss'. induction H as [|c s cs ss Hs Hss IH]; intros cs' ss' H' Heq.
  - destruct H' as [|c' s' cs' ss' Hs' _]; [done |]. pose proof (seq_of_nonempty _ _ Hs'). by destruct s'.
  - destruct H' as [|c' s' cs' ss' Hs' Hss']; [pose proof (seq_of_nonempty _ _ Hs); by destruct s |].
    destruct (seq_of_unique c s (mjoin ss) c' s' (mjoin ss') Hs Hs' Heq) as (-> & -> & Heq').
    by destruct (IH _ _ Hss' Heq') as [-> ->].
Qed.

(** ** UTF-16 to UTF-8 *)

(** The room, the bytes and the rest of the loop. *)
Definition encode_then (c : Z) (source target : list Z) (room : Z)
    (next : list Z -> Z -> option (ConversionResult * list Z * list Z)) :=
  if room <? Z.of_nat (length (utf8_enc c)) then Some (targetExhausted, source, target)
  else next (target ++ utf8_enc c) (room - Z.of_nat (length (utf8_enc c))).

Lemma write_code_point c source target room next :
  is_code_point c = true ->
  (let '(bytesToWrite, ch) := bytes_to_write c in
   if room <? bytesToWrite then Some (targetExhausted, source, target)
   else bytes ← write_sequence ch bytesToWrite; next (target ++ bytes) (room - bytesToWrite))
  = encode_then c source target room next.
Proof.
  intros Hc. rewrite bytes_to_write_ok by done. unfold encode_then.
  destruct (room <? _); [done |]. by rewrite write_sequence_ok.
Qed.

Definition is_high (u : Z) : bool := (0xD800 <=? u) && (u <=? 0xDBFF).
Definition is_low (u : Z) : bool := (0xDC00 <=? u) && (u <=? 0xDFFF).

(** A pair of surrogates as the code computes it. *)
Definition pair_value (h l : Z) : Z := Z.shiftl (h - 0xD800) 10 + (l - 0xDC00) + 0x10000.

Lemma pair_ok h l :
  is_high h = true -> is_low l = true ->
  is_scalar (pair_value h l) = true /\ utf16_enc (pair_value h l) = [h; l].
Proof.
  unfold is_high, is_low, pair_value. intros Hh Hl. zbool. rewrite Z.shiftl_mul_pow2 by lia.
  change (2 ^ 10) with 1024. set (c := _ + _). assert (0x10000 <= c < 0x110000) as Hc by lia. split.
  - apply scalar_spec. lia.
  - unfold utf16_enc. rewrite (proj2 (Z.ltb_ge c 0x10000)) by lia. f_equal; [zdiv | f_equal; zdiv].
Qed.

Lemma unit_ok u : is_unit u -> is_code_point u = true /\ utf16_enc u = [u].
Proof.
  unfold is_unit, is_code_point, utf16_enc. intros Hu. rewrite (proj2 (Z.leb_le 0 u)),
    (proj2 (Z.ltb_lt u 0x110000)), (proj2 (Z.ltb_lt u 0x10000)) by lia. done.
Qed.

Lemma surrogate_split u : is_surrogate u = is_high u || is_low u.
Proof.
  unfold is_surrogate, is_high, is_low.
  destruct (Z.leb_spec 0xD800 u), (Z.leb_spec u 0xDFFF), (Z.leb_spec u 0xDBFF), (Z.leb_spec 0xDC00 u);
    (done || lia).
Qed.

(** The four ways of a round. *)
Lemma encode_pair strict h l rest target room :
  is_high h = true -> is_low l = true ->
  convertUTF16ToUTF8_loop strict (h :: l :: rest) target room
    = encode_then (pair_value h l) (h :: l :: rest) target room (convertUTF16ToUTF8_loop strict rest).
Proof.
  intros Hh Hl. cbn [convertUTF16ToUTF8_loop]. fold (is_high h) (is_low l). rewrite Hh, Hl.
  apply write_code_point. destruct (pair_ok h l Hh Hl) as [Hs _]. unfold is_scalar in Hs. by zbool.
Qed.

Lemma encode_unit strict u rest target room :
  is_unit u -> is_high u = false -> (strict = true -> is_low u = false) ->
  convertUTF16ToUTF8_loop strict (u :: rest) target room
    = encode_then u (u :: rest) target room (convertUTF16ToUTF8_loop strict rest).
Proof.
  intros Hu Hh Hl. cbn [convertUTF16ToUTF8_loop]. fold (is_high u) (is_low u). rewrite Hh.
  assert (strict && is_low u = false) as -> by (destruct strict; [by apply Hl | done]).
  apply write_code_point. by apply unit_ok.
Qed.

Lemma encode_lone strict h u rest target room :
  is_unit h -> is_high h = true -> is_low u = false ->
  convertUTF16ToUTF8_loop strict (h :: u :: rest) target room
    = if strict then Some (sourceIllegal, h :: u :: rest, target)
      else encode_then h (h :: u :: rest) target room (convertUTF16ToUTF8_loop strict (u :: rest)).
Proof.
  intros Hu Hh Hl. rewrite <- write_code_point by (by apply unit_ok).
  cbn [convertUTF16ToUTF8_loop]. fold (is_high h) (is_low u). rewrite Hh, Hl. by destruct strict.
Qed.

(** What a conversion stopped at. *)
Definition unpaired (rest : list Z) : Prop :=
  exists u tl, rest = u :: tl /\
    (is_low u = true \/ is_high u = true /\ match tl with l :: _ => is_low l = false | [] => False end).
Definition stopped16 (strict : bool) (r : ConversionResult) (rest : list Z) (room : Z) : Prop :=
  match r with
  | conversionOK => rest = []
  | sourceExhausted => exists h, rest = [h] /\ is_high h = true
  | sourceIllegal => strict = true /\ unpaired rest
  | targetExhausted => exists c tl, rest = utf16_enc c ++ tl /\ room < Z.of_nat (length (utf8_enc c))
  end.

Definition encodable (strict : bool) (c : Z) : Prop :=
  is_code_point c = true /\ (strict = true -> is_scalar c = true).

Lemma encode_cases strict u tl target room :
  Forall is_unit (u :: tl) ->
  (exists c rest, encodable strict c /\ u :: tl = utf16_enc c ++ rest /\
     convertUTF16ToUTF8_loop strict (u :: tl) target room
       = encode_then c (u :: tl) target room (convertUTF16ToUTF8_loop strict rest)) \/
  (exists r, (r = sourceExhausted \/ r = sourceIllegal) /\ stopped16 strict r (u :: tl) room /\
     convertUTF16ToUTF8_loop strict (u :: tl) target room = Some (r, u :: tl, target)).
Proof.
  intros [Hu Htl]%Forall_cons. destruct (unit_ok u Hu) as [Hcu Heu].
  destruct (is_high u) eqn:Hh.
  - destruct tl as [|l tl].
    + right. exists sourceExhausted. split; [by left |]. split; [by exists u |].
      cbn [convertUTF16ToUTF8_loop]. fold (is_high u). by rewrite Hh.
    + destruct (is_low l) eqn:Hl.
      * destruct (pair_ok u l Hh Hl) as [Hs He]. left. exists (pair_value u l), tl. rewrite He.
        split; [| split; [done | by apply encode_pair]]. split; [| done]. unfold is_scalar in Hs. by zbool.
      * rewrite encode_lone by done. destruct strict.
        -- right. exists sourceIllegal. split; [by right |]. split; [| done]. split; [done |].
           exists u, (l :: tl). split; [done |]. by right.
        -- left. exists u, (l :: tl). rewrite Heu. done.
  - destruct (strict && is_low u) eqn:Hsl.
    + apply andb_true_iff in Hsl as [-> Hl]. right. exists sourceIllegal. split; [by right |].
      split; [split; [done |]; exists u, tl; by split; [| left] |].
      cbn [convertUTF16ToUTF8_loop]. fold (is_high u) (is_low u). by rewrite Hh, Hl.
    + assert (strict = true -> is_low u = false) as Hl by (intros ->; done).
      left. exists u, tl. rewrite Heu. split; [| split; [done | by apply encode_unit]]. split; [done |].
      intros Hst. unfold is_scalar. by rewrite Hcu, surrogate_split, Hh, Hl.
Qed.

Lemma encode_loop_ok n : forall strict source target room,
  (length source <= n)%nat -> Forall is_unit source ->
  exists r cs rest,
    convertUTF16ToUTF8_loop strict source target room = Some (r, rest, target ++ mjoin (utf8_enc <$> cs)) /\
    source = mjoin (utf16_enc <$> cs) ++ rest /\ Forall (encodable strict) cs /\
    stopped16 strict r rest (room - Z.of_nat (length (mjoin (utf8_enc <$> cs)))).
Proof.
  induction n as [|n IH]; intros strict source target room Hn Hu; (destruct source as [|u tl];
    [exists conversionOK, [], []; simpl; rewrite app_nil_r; by split_and! |]); simpl in Hn; [lia |].
  destruct (encode_cases strict u tl target room Hu) as [(c & rest & Hc & Heq & ->) | (r & Hr & Hst & ->)].
  - unfold encode_then. destruct (Z.ltb_spec room (Z.of_nat (length (utf8_enc c)))) as [Hlt | Hge].
    + exists targetExhausted, [], (u :: tl). simpl. rewrite app_nil_r. split_and!; [done | done | done |].
      exists c, rest. split; [done | lia].
    + assert (length (u :: tl) = length (utf16_enc c ++ rest)) as Hlen by (by rewrite Heq).
      rewrite length_app in Hlen. pose proof (utf16_enc_length c). simpl in Hlen.
      rewrite Heq in Hu |- *. apply Forall_app in Hu as [_ Hu].
      destruct (IH strict rest (target ++ utf8_enc c) (room - Z.of_nat (length (utf8_enc c))) ltac:(lia) Hu)
        as (r & cs & rest' & -> & -> & Hcs & Hst).
      exists r, (c :: cs), rest'. simpl. rewrite <- !app_assoc. split_and!; [done | done | by constructor |].
      by rewrite length_app, Nat2Z.inj_add, Z.sub_add_distr.
  - exists r, [], (u :: tl). simpl. rewrite app_nil_r, Z.sub_0_r. by split_and!.
Qed.

(** ** Round trip *)

Lemma decode_all cs : forall ss fuel strict target room o,
  Forall2 seq_of cs ss -> (length cs < fuel)%nat -> Z.of_nat (length (mjoin (utf16_enc <$> cs))) <= room ->
  convertUTF8ToUTF16_loop fuel strict (mjoin ss) target room o
    = Some (conversionOK, [], target ++ mjoin (utf16_enc <$> cs), foldl or_all o cs).
Proof.
  induction cs as [|c cs IH]; intros ss fuel strict target room o Hss Hf Hr.
  - apply Forall2_nil_inv_l in Hss as ->. destruct fuel; [simpl in Hf; lia |]. simpl. by rewrite app_nil_r.
  - apply Forall2_cons_inv_l in Hss as (s & ss' & Hs & Hss & ->). destruct fuel as [|fuel]; [simpl in Hf; lia |].
    simpl in Hf. change (mjoin (utf16_enc <$> c :: cs)) with (utf16_enc c ++ mjoin (utf16_enc <$> cs)) in *.
    rewrite length_app in Hr. change (mjoin (s :: ss')) with (s ++ mjoin ss'). rewrite (decode_seq _ _ c), (proj2 (Z.ltb_ge _ _)) by (done || lia).
    rewrite IH by (done || lia). simpl. by rewrite app_assoc.
Qed.

Lemma or_all_ascii_list cs : forall o,
  0 <= o < 65536 -> Forall (fun c => is_scalar c = true) cs ->
  isASCII (foldl or_all o cs) = isASCII o && forallb (fun c => c <? 0x80) cs.
Proof.
  induction cs as [|c cs IH]; intros o Ho Hcs; [by rewrite andb_true_r |]. apply Forall_cons in Hcs as [Hc Hcs].
  destruct (or_all_ascii o c Ho Hc) as [Ho' Ha]. simpl. by rewrite IH, Ha, andb_assoc.
Qed.

Lemma seqs_scalar cs ss : Forall2 seq_of cs ss -> Forall (fun c => is_scalar c = true) cs.
Proof. induction 1; constructor; [by eapply seq_of_scalar | done]. Qed.

Lemma length_seqs cs ss : Forall2 seq_of cs ss -> (length cs <= length (mjoin ss))%nat.
Proof.
  induction 1 as [|c s cs ss Hs Hss IH]; [done |]. change (mjoin (s :: ss)) with (s ++ mjoin ss).
  rewrite length_app. pose proof (seq_of_nonempty _ _ Hs). destruct s; [done |]. simpl. lia.
Qed.

(** Text of accepted sequences is converted when there is room. *)
Lemma convert_text cs ss room strict :
  Forall2 seq_of cs ss -> Z.of_nat (length (mjoin (utf16_enc <$> cs))) <= room ->
  convertUTF8ToUTF16 (mjoin ss) room strict
    = Some (conversionOK, [], mjoin (utf16_enc <$> cs), forallb (fun c => c <? 0x80) cs).
Proof.
  intros Hss Hr. unfold convertUTF8ToUTF16. rewrite (decode_all cs ss).
  - cbn [mbind option_bind app]. do 2 f_equal. rewrite <- (andb_true_l (forallb _ cs)).
    change (true && ?b) with (isASCII 0 && b). rewrite <- or_all_ascii_list by (done || by eapply seqs_scalar).
    unfold isASCII, truthy. apply negb_involutive.
  - done.
  - pose proof (length_seqs _ _ Hss). lia.
  - done.
Qed.

Lemma enc_seqs cs : Forall (fun c => is_scalar c = true) cs -> Forall2 seq_of cs (utf8_enc <$> cs).
Proof. induction 1; constructor; [by apply seq_enc | done]. Qed.

(** ** Hash of UTF-8 *)

Lemma hasher_run_adds m s cs :
  adds m s cs -> exists s', hasher_run m s = Some s' /\ same_hash s' (foldl add1 s cs).
Proof.
  intros H. destruct (wp_inv _ _ _ H) as ([] & s' & Hm & Hs). exists s'. unfold hasher_run. by rewrite Hm.
Qed.

(** An accepted sequence of more than one byte is not ASCII. *)
Lemma seq_of_cases c s :
  seq_of c s ->
  (0 <= c < 0x80 /\ s = [c]) \/
  (0x80 <= c /\ exists b0 tl, s = b0 :: tl /\ is_byte b0 /\ isASCII b0 = false /\
     inlineUTF8SequenceLengthNonASCII b0 = Z.of_nat (length s) /\ isASCII c = false /\
     (length (utf16_enc c) < length s)%nat).
Proof.
  intros Hs. pose proof (seq_of_scalar _ _ Hs) as Hsc%scalar_spec.
  destruct (seq_of_reads c s [] Hs) as [_ (b0 & tl & Heq & Hb & Hlen) _ _]. rewrite app_nil_r in Heq.
  destruct (Z.ltb_spec c 0x80) as [Hc | Hc].
  - left. split; [lia |]. destruct Hs as [_ -> | []]; [| lia | lia].
    unfold utf8_enc. by rewrite (proj2 (Z.ltb_lt c 0x80)).
  - right. split; [done |]. exists b0, tl.
    assert (isASCII c = false) as Hac by (rewrite isASCII_spec by lia; by apply Z.ltb_ge).
    assert (2 <= length s /\ length (utf16_enc c) < length s)%nat as [Hl2 Hl16].
    { unfold utf16_enc. destruct Hs as [_ -> | []]; simpl.
      - unfold utf8_enc. rewrite (proj2 (Z.ltb_ge c 0x80)) by done.
        destruct (Z.ltb_spec c 0x800), (Z.ltb_spec c 0x10000); simpl; lia.
      - destruct (_ <? 0x10000); simpl; lia.
      - destruct (_ <? 0x10000); simpl; lia. }
    assert (isASCII b0 = false) as Hab.
    { unfold inlineUTF8SequenceLength in Hlen. destruct (isASCII b0); [lia | done]. }
    unfold inlineUTF8SequenceLength in Hlen. rewrite Hab in Hlen. split_and!; done || lia.
Qed.

Definition nonzero (b : Z) : Prop := b <> 0.

Lemma no_zero_ok n : forall data i,
  Forall nonzero (take n (drop i data)) -> (i + n <= length data)%nat ->
  no_zero n data (Z.of_nat i) = Some true.
Proof.
  induction n as [|n IH]; intros data i Hz Hl; [done |]. cbn [no_zero].
  destruct (lookup_lt_is_Some_2 data i) as [b Hb]; [lia |].
  assert (aget data (Z.of_nat i) = Some b) as -> by (apply aget_Some; split; [lia | by rewrite Nat2Z.id]).
  rewrite (drop_S _ _ _ Hb) in Hz. simpl in Hz. apply Forall_cons in Hz as [Hb0 Hz]. cbn [mbind option_bind].
  unfold truthy. rewrite (proj2 (Z.eqb_neq _ _) Hb0). cbn [negb].
  replace (Z.of_nat i + 1) with (Z.of_nat (S i)) by lia. apply IH; [done | lia].
Qed.

(** ** A single sequence *)

Lemma continuation_spec b : is_byte b -> is_continuation b = in_trail b.
Proof.
  intros Hb. apply Bool.eqb_prop. revert b Hb.
  apply (byte_forall (fun b => eqb (is_continuation b) (in_trail b))). by vm_compute.
Qed.

Lemma payload_spec b : 0x80 <= b <= 0xBF -> payload b = b - 0x80.
Proof.
  intros Hb. unfold payload. change 0x3F with (Z.ones 6). rewrite Z.land_ones by lia.
  change (2 ^ 6) with 64. zdiv.
Qed.

Lemma lor_shiftl_low a b k : 0 <= k -> 0 <= b < 2 ^ k -> Z.lor (Z.shiftl a k) b = a * 2 ^ k + b.
Proof. intros. rewrite Z.lor_comm, lor_shiftl_add by done. lia. Qed.

Lemma value_2 b0 b1 :
  0xC0 <= b0 < 0xE0 -> 0x80 <= b1 <= 0xBF ->
  Z.lor (Z.shiftl (Z.land b0 0x1F) 6) (payload b1) = b0 * 64 + b1 - 0x3080.
Proof.
  intros H0 H1. rewrite payload_spec, lor_shiftl_low by lia. change 0x1F with (Z.ones 5).
  rewrite Z.land_ones by lia. change (2 ^ 5) with 32. change (2 ^ 6) with 64. zdiv.
Qed.

Lemma value_3 b0 b1 b2 :
  0xE0 <= b0 < 0xF0 -> 0x80 <= b1 <= 0xBF -> 0x80 <= b2 <= 0xBF ->
  Z.lor (Z.lor (Z.shiftl (Z.land b0 0xF) 12) (Z.shiftl (payload b1) 6)) (payload b2)
    = (b0 * 64 + b1) * 64 + b2 - 0xE2080.
Proof.
  intros H0 H1 H2. rewrite !payload_spec by lia.
  change (Z.shiftl (Z.land b0 0xF) 12) with (Z.shiftl (Z.land b0 0xF) (6 + 6)).
  rewrite <- Z.shiftl_shiftl, <- Z.shiftl_lor by lia. rewrite (lor_shiftl_low (Z.land b0 0xF)) by lia.
  rewrite lor_shiftl_low by lia. change 0xF with (Z.ones 4). rewrite Z.land_ones by lia.
  change (2 ^ 4) with 16. change (2 ^ 6) with 64. zdiv.
Qed.

Lemma value_4 b0 b1 b2 b3 :
  0xF0 <= b0 < 0xF8 -> 0x80 <= b1 <= 0xBF -> 0x80 <= b2 <= 0xBF -> 0x80 <= b3 <= 0xBF ->
  Z.lor (Z.lor (Z.lor (Z.shiftl (Z.land b0 0x7) 18) (Z.shiftl (payload b1) 12)) (Z.shiftl (payload b2) 6)) (payload b3)
    = ((b0 * 64 + b1) * 64 + b2) * 64 + b3 - 0x3C82080.
Proof.
  intros H0 H1 H2 H3. rewrite !payload_spec by lia.
  change (Z.shiftl (Z.land b0 0x7) 18) with (Z.shiftl (Z.land b0 0x7) (6 + 6 + 6)).
  change (Z.shiftl (b1 - 0x80) 12) with (Z.shiftl (b1 - 0x80) (6 + 6)).
  rewrite <- !Z.shiftl_shiftl, <- !Z.shiftl_lor by lia.
  rewrite (lor_shiftl_low (Z.land b0 0x7)) by lia. rewrite (lor_shiftl_low (_ + _)) by lia.
  rewrite lor_shiftl_low by lia. change 0x7 with (Z.ones 3). rewrite Z.land_ones by lia.
  change (2 ^ 3) with 8. change (2 ^ 6) with 64. zdiv.
Qed.

(** What [decodeUTF8Sequence] returns, by the length of the sequence. *)
Lemma decode_len b0 tl len :
  is_byte b0 -> inlineUTF8SequenceLength b0 = len ->
  decodeUTF8Sequence (b0 :: tl) =
    if len =? 0 then Some (-1)
    else b1 ← tl !! 0%nat;
      if len =? 1 then Some (if truthy b1 then -1 else b0)
      else if negb (is_continuation b1) then Some (-1)
      else b2 ← tl !! 1%nat;
        if len =? 2 then
          if truthy b2 then Some (-1)
          else let c := Z.lor (Z.shiftl (Z.land b0 0x1F) 6) (payload b1) in Some (if c <? 0x80 then -1 else c)
        else if negb (is_continuation b2) then Some (-1)
        else b3 ← tl !! 2%nat;
          if len =? 3 then
            if truthy b3 then Some (-1)
            else
              let c := Z.lor (Z.lor (Z.shiftl (Z.land b0 0xF) 12) (Z.shiftl (payload b1) 6)) (payload b2) in
              Some (if c <? 0x800 then -1 else if is_surrogate c then -1 else c)
          else if negb (is_continuation b3) then Some (-1)
          else b4 ← tl !! 3%nat;
            if len =? 4 then
              if truthy b4 then Some (-1)
              else
                let c := Z.lor (Z.lor (Z.lor (Z.shiftl (Z.land b0 0x7) 18) (Z.shiftl (payload b1) 12))
                           (Z.shiftl (payload b2) 6)) (payload b3) in
                Some (if (c <? 0x10000) || (0x10FFFF <? c) then -1 else c)
            else Some (-1).
Proof. by intros _ <-. Qed.

Lemma truthy_false b : truthy b = false -> b = 0.
Proof. unfold truthy. intros. by zbool. Qed.

Ltac len_hyp H := cbn [Z.eqb Pos.eqb mbind option_bind lookup list_lookup negb] in H.

(** The next byte continues the sequence, or the sequence is refused. *)
Lemma decode_sound sequence c :
  Forall is_byte sequence -> decodeUTF8Sequence sequence = Some c -> 0 <= c ->
  is_scalar c = true /\ exists junk, sequence = utf8_enc c ++ 0 :: junk.
Proof.
  intros Hb Hd Hc. destruct sequence as [|b0 tl]; [done |]. apply Forall_cons in Hb as [Hb0 Hb].
  rewrite (decode_len _ _ _ Hb0 (sequence_length b0 Hb0)) in Hd. destruct Hb0 as [Hb0 Hb0'].
  destruct (Z.ltb_spec b0 0x80) as [H80 | H80].
  { len_hyp Hd. destruct tl as [|b1 tl]; [done |]. len_hyp Hd. destruct (truthy b1) eqn:Ht; simplify_eq; [lia |].
    apply truthy_false in Ht as ->. split; [apply scalar_spec; lia |]. exists tl. unfold utf8_enc.
    by rewrite (proj2 (Z.ltb_lt c 0x80)). }
  destruct (Z.ltb_spec b0 0xC0) as [HC0 | HC0]; [len_hyp Hd; simplify_eq; lia |].
  destruct tl as [|b1 tl]; [cbn in Hd; repeat case_match; simplify_eq; lia |]. apply Forall_cons in Hb as [Hb1 Hb].
  len_hyp Hd. rewrite continuation_spec in Hd by done. destruct (Z.ltb_spec b0 0xE0) as [HE0 | HE0].
  { len_hyp Hd. destruct (in_trail b1) eqn:Ht1; len_hyp Hd; [| simplify_eq; lia]. apply in_trail_spec in Ht1.
    destruct tl as [|b2 tl]; [done |]. len_hyp Hd. destruct (truthy b2) eqn:Ht; [simplify_eq; lia |].
    apply truthy_false in Ht as ->. rewrite value_2 in Hd by lia. cbv zeta in Hd. simplify_eq.
    destruct (Z.ltb_spec (b0 * 64 + b1 - 0x3080) 0x80); [lia |]. rewrite enc2_eq by lia.
    split; [apply scalar_spec; lia | by exists tl]. }
  destruct (Z.ltb_spec b0 0xF0) as [HF0 | HF0].
  { len_hyp Hd. destruct (in_trail b1) eqn:Ht1; len_hyp Hd; [| simplify_eq; lia]. apply in_trail_spec in Ht1.
    destruct tl as [|b2 tl]; [done |]. apply Forall_cons in Hb as [Hb2 Hb]. len_hyp Hd.
    rewrite continuation_spec in Hd by done. destruct (in_trail b2) eqn:Ht2; len_hyp Hd; [| simplify_eq; lia].
    apply in_trail_spec in Ht2. destruct tl as [|b3 tl]; [done |]. len_hyp Hd.
    destruct (truthy b3) eqn:Ht; [simplify_eq; lia |].
    apply truthy_false in Ht as ->. rewrite value_3 in Hd by lia. cbv zeta in Hd. simplify_eq.
    destruct (Z.ltb_spec ((b0 * 64 + b1) * 64 + b2 - 0xE2080) 0x800); [lia |].
    destruct (is_surrogate _) eqn:Hsur; [lia |]. rewrite enc3_eq by lia. split; [| by exists tl].
    unfold is_scalar, is_code_point. rewrite Hsur. cbn [negb]. rewrite andb_true_r, andb_true_iff, Z.leb_le, Z.ltb_lt. lia. }
  destruct (Z.ltb_spec b0 0xF8) as [HF8 | HF8]; [| len_hyp Hd; simplify_eq; lia].
  len_hyp Hd. destruct (in_trail b1) eqn:Ht1; len_hyp Hd; [| simplify_eq; lia]. apply in_trail_spec in Ht1.
  destruct tl as [|b2 tl]; [done |]. apply Forall_cons in Hb as [Hb2 Hb]. len_hyp Hd.
  rewrite continuation_spec in Hd by done. destruct (in_trail b2) eqn:Ht2; len_hyp Hd; [| simplify_eq; lia].
  apply in_trail_spec in Ht2. destruct tl as [|b3 tl]; [done |]. apply Forall_cons in Hb as [Hb3 Hb]. len_hyp Hd.
  rewrite continuation_spec in Hd by done. destruct (in_trail b3) eqn:Ht3; len_hyp Hd; [| simplify_eq; lia].
  apply in_trail_spec in Ht3. destruct tl as [|b4 tl]; [done |]. len_hyp Hd.
  destruct (truthy b4) eqn:Ht; [simplify_eq; lia |].
  apply truthy_false in Ht as ->. rewrite value_4 in Hd by lia. cbv zeta in Hd. simplify_eq.
  destruct (_ || _) eqn:Hrange; [lia |]. apply orb_false_iff in Hrange as [Hr1%Z.ltb_ge Hr2%Z.ltb_ge].
  rewrite enc4_eq by lia. split; [apply scalar_spec; lia | by exists tl].
Qed.

Lemma decode_complete c junk :
  is_scalar c = true -> decodeUTF8Sequence (utf8_enc c ++ 0 :: junk) = Some c.
Proof.
  intros Hs. pose proof (proj1 (scalar_spec c) Hs) as Hc.
  destruct (seq_of_reads c _ (0 :: junk) (seq_enc c _ Hs eq_refl)) as [_ (b0 & tl & Heq & Hb & Hlen) _ _].
  rewrite Heq, (decode_len _ _ _ Hb Hlen). revert Heq Hlen. unfold utf8_enc.
  split_code c; cbn [app length Z.of_nat Pos.of_succ_nat Pos.succ]; intros [= <- <-] Hlen;
    cbn [Z.eqb Pos.eqb mbind option_bind lookup list_lookup]; [done | ..];
    rewrite ?continuation_spec, ?(fun b => proj2 (in_trail_spec b)) by (unfold is_byte; zdiv);
    cbn [negb truthy Z.eqb mbind option_bind].
  - rewrite value_2 by zdiv. replace (_ * 64 + _ - _) with c by zdiv. by rewrite (proj2 (Z.ltb_ge c 0x80)).
  - rewrite value_3 by zdiv. replace (_ * 64 + _ - _) with c by zdiv.
    rewrite (proj2 (Z.ltb_ge c 0x800)) by done. unfold is_scalar in Hs. zbool. by destruct (is_surrogate c).
  - rewrite value_4 by zdiv. replace (_ * 64 + _ - _) with c by zdiv.
    by rewrite (proj2 (Z.ltb_ge c 0x10000)), (proj2 (Z.ltb_ge 0x10FFFF c)) by lia.
Qed.
