(* ===== verification/Utf8Hash.v ===== *)
(** * Hash and comparison of UTF-8 text

    The hash that is computed from UTF-8 is the hash of the decoded code units,
    the comparison of a string with UTF-8 is the comparison with the decoded
    code units, and the string made of UTF-8 is the decoded one: what the table
    of atomic strings relies on. *)

From stdpp Require Import base numbers list.
From S2P Require Import Prelude Ctype StringHasher Utf8 Utf8Proof.

#[local] Open Scope Z_scope.

(** The code units of a list of code points. *)
Definition units (cs : list Z) : list Z := mjoin (utf16_enc <$> cs).

Lemma units_cons c cs : units (c :: cs) = utf16_enc c ++ units cs.
Proof. done. Qed.

Lemma u32_add a b : u32 (u32 a + b) = u32 (a + b).
Proof. unfold u32, uwrap. by rewrite Zplus_mod_idemp_l. Qed.

(** ** The hash *)

Lemma hash_step fuel hasEnd c s rest h dl ul :
  seq_of c s -> (hasEnd = true \/ Forall nonzero s) ->
  exists h', same_hash h' (foldl add1 h (utf16_enc c)) /\
    hash_loop (S fuel) hasEnd (s ++ rest) h dl ul
      = hash_loop fuel hasEnd rest h' (u32 (dl + Z.of_nat (length s)))
          (u32 (ul + Z.of_nat (length (utf16_enc c)))).
Proof.
  intros Hs Hz. pose proof (seq_of_scalar _ _ Hs) as Hsc.
  destruct (seq_of_reads c s rest Hs) as [Hf _ Hl Hr].
  destruct (seq_of_cases c s Hs) as [[Hc ->] | (Hc & b0 & tl & Heq & Hb & Hab & Hlen & Hac & _)].
  - destruct (hasher_run_adds _ h _ (adds_addCharacter h c)) as (h' & Hh & Hsame).
    assert (utf16_enc c = [c]) as Heq by (unfold utf16_enc; by rewrite (proj2 (Z.ltb_lt c 0x10000)) by lia).
    exists h'. rewrite Heq. split; [done |]. cbn [hash_loop app].
    assert ((if hasEnd then Some (bool_decide (c :: rest <> []))
             else b0 ← aget (c :: rest) 0; Some (truthy b0)) = Some true) as ->.
    { destruct Hz as [-> | Hz]; [done |]. apply Forall_cons in Hz as [Hz _].
      destruct hasEnd; [done |]. simpl. unfold truthy. by rewrite (proj2 (Z.eqb_neq _ _) Hz). }
    cbn [mbind option_bind negb]. change (aget (c :: rest) 0) with (Some c). cbn [mbind option_bind].
    rewrite isASCII_spec, (proj2 (Z.ltb_lt c 0x80)), Hh by lia. done.
  - assert (aget (s ++ rest) 0 = Some b0) as Hx by (by rewrite Heq).
    assert ((if hasEnd then Some (bool_decide (s ++ rest <> []))
             else b0 ← aget (s ++ rest) 0; Some (truthy b0)) = Some true) as Hmore.
    { destruct hasEnd; [by rewrite Heq |]. destruct Hz as [? | Hz]; [done |]. rewrite Hx. simpl.
      rewrite Heq in Hz. apply Forall_cons in Hz as [Hz _]. unfold truthy. by rewrite (proj2 (Z.eqb_neq _ _) Hz). }
    assert ((if hasEnd then Some (negb (Z.of_nat (length (s ++ rest)) <? Z.of_nat (length s)))
             else no_zero (Z.to_nat (Z.of_nat (length s) - 1)) (s ++ rest) 1) = Some true) as Hcomp.
    { destruct hasEnd; [by rewrite (proj2 (Z.ltb_ge _ _)) |]. destruct Hz as [? | Hz]; [done |].
      apply (no_zero_ok _ _ 1); [| rewrite length_app, Heq; simpl; lia].
      rewrite Heq in *. simpl. rewrite drop_0, take_app_le by lia. apply Forall_take. by apply Forall_cons in Hz as [_ ?]. }
    cbn [hash_loop]. rewrite Hmore. cbn [mbind option_bind negb]. rewrite Hx. cbn [mbind option_bind].
    rewrite Hab, Hlen, Hcomp. cbn [mbind option_bind negb]. rewrite Hl. cbn [mbind option_bind negb].
    rewrite Hr. cbn [mbind option_bind]. rewrite Hac.
    destruct (Z.lt_ge_cases c 0x10000) as [Hbmp | Hsup].
    + destruct (bmp_units c Hsc Hbmp) as (-> & -> & -> & ->).
      destruct (hasher_run_adds _ h _ (adds_addCharacter h c)) as (h' & Hh & Hsame).
      exists h'. split; [done |]. by rewrite Hh.
    + destruct (supplementary_units c Hsc Hsup) as (-> & -> & <-).
      destruct (hasher_run_adds _ h _ (adds_addCharacters h (U16_LEAD c) (U16_TRAIL c))) as (h' & Hh & Hsame).
      exists h'. split; [done |]. by rewrite Hh.
Qed.

(** What follows the text: nothing when the end is given, and otherwise the zero
    that ends it, of which there is none inside. *)
Definition ended (hasEnd : bool) (text tail : list Z) : Prop :=
  if hasEnd then tail = [] else Forall nonzero text /\ exists junk, tail = 0 :: junk.

Lemma ended_app hasEnd s rest tail :
  ended hasEnd (s ++ rest) tail -> ended hasEnd rest tail /\ (hasEnd = true \/ Forall nonzero s).
Proof. destruct hasEnd; [intros ->; split; [done | by left] |]. intros [[Hs Hr]%Forall_app Ht]. split; [done | by right]. Qed.

Lemma aget_app (s tail : list Z) i b : aget s i = Some b -> aget (s ++ tail) i = Some b.
Proof. rewrite !aget_Some. intros [Hi Hb]. split; [done | by apply lookup_app_l_Some]. Qed.

(** The tests read the sequence only. *)
Lemma isLegalUTF8_app s tail len b : isLegalUTF8 s len = Some b -> isLegalUTF8 (s ++ tail) len = Some b.
Proof.
  unfold isLegalUTF8. intros Hl.
  repeat (match type of Hl with
          | (aget s ?i ≫= _) = _ =>
              let x := fresh "x" in let H := fresh "H" in
              destruct (aget s i) as [x |] eqn:H; [rewrite (aget_app _ tail _ _ H); cbn [mbind option_bind] in * | done]
          | (if ?c then _ else _) = _ => destruct c
          end; try done).
Qed.

Lemma no_zero_ends n : forall text junk i,
  Forall nonzero text -> (i <= length text < i + n)%nat -> no_zero n (text ++ 0 :: junk) (Z.of_nat i) = Some false.
Proof.
  induction n as [|n IH]; intros text junk i Hz Hi; [lia |]. cbn [no_zero].
  destruct (decide (i = length text)) as [-> | Hne].
  - assert (aget (text ++ 0 :: junk) (Z.of_nat (length text)) = Some 0) as ->; [| done].
    apply aget_Some. split; [lia |]. by rewrite Nat2Z.id, list_lookup_middle.
  - destruct (lookup_lt_is_Some_2 text i) as [b Hb]; [lia |].
    assert (aget (text ++ 0 :: junk) (Z.of_nat i) = Some b) as ->
      by (apply aget_app, aget_Some; split; [lia | by rewrite Nat2Z.id]).
    cbn [mbind option_bind]. unfold truthy. pose proof (proj1 (Forall_lookup _ _) Hz i b Hb) as Hb0.
    rewrite (proj2 (Z.eqb_neq _ _) Hb0). cbn [negb]. replace (Z.of_nat i + 1) with (Z.of_nat (S i)) by lia.
    apply IH; [done | lia].
Qed.

(** There is a first byte. *)
Lemma ended_more hasEnd b0 tl tail :
  ended hasEnd (b0 :: tl) tail ->
  (if hasEnd then Some (bool_decide ((b0 :: tl) ++ tail <> []))
   else b ← aget ((b0 :: tl) ++ tail) 0; Some (truthy b)) = Some true.
Proof.
  destruct hasEnd; [done |]. intros [[Hb0 _]%Forall_cons _]. change (aget _ 0) with (Some b0). simpl.
  unfold truthy. by rewrite (proj2 (Z.eqb_neq _ _) Hb0).
Qed.

Lemma hash_refused fuel hasEnd b0 tl tail h dl ul :
  Forall is_byte (b0 :: tl) -> ended hasEnd (b0 :: tl) tail -> refused (b0 :: tl) (inlineUTF8SequenceLength b0) ->
  exists dl', hash_loop (S fuel) hasEnd ((b0 :: tl) ++ tail) h dl ul = Some (0, dl', ul).
Proof.
  intros [Hb _]%Forall_cons Hend Hr. cbn [hash_loop]. rewrite (ended_more _ _ _ _ Hend). cbn [mbind option_bind negb].
  change (aget ((b0 :: tl) ++ tail) 0) with (Some b0). cbn [mbind option_bind].
  assert (isASCII b0 = false) as Hab.
  { destruct (isASCII b0) eqn:Hab; [| done]. exfalso. apply (refused_not_starts _ _ Hr).
    rewrite ascii_byte in Hab by done. exists b0, [b0], tl. split; [| done]. apply enc_1. destruct Hb. zlia. }
  assert (inlineUTF8SequenceLength b0 = inlineUTF8SequenceLengthNonASCII b0) as Hlen
    by (unfold inlineUTF8SequenceLength; by rewrite Hab).
  rewrite Hlen in Hr. rewrite Hab. cbv zeta. set (n := inlineUTF8SequenceLengthNonASCII b0) in *.
  assert (exists complete, (if hasEnd then Some (negb (Z.of_nat (length ((b0 :: tl) ++ tail)) <? n))
            else no_zero (Z.to_nat (n - 1)) ((b0 :: tl) ++ tail) 1) = Some complete /\
          (complete = false \/ isLegalUTF8 (b0 :: tl) n = Some false)) as (complete & -> & Hc).
  { destruct hasEnd; cbn [ended] in Hend.
    - subst tail. rewrite app_nil_r. eexists. split; [done |].
      destruct Hr as [Hlt | [_ Hl]]; [left; by rewrite (proj2 (Z.ltb_lt _ _)) | by right].
    - destruct Hend as [Hz (junk & ->)]. destruct Hr as [Hlt | [Hge Hl]].
      + exists false. split; [| by left]. apply (no_zero_ends _ (b0 :: tl) junk 1); [done | simpl in *; lia].
      + exists true. split; [| by right]. apply (no_zero_ok _ _ 1); [| rewrite length_app; simpl in *; lia].
        rewrite drop_app_le by (simpl; lia). rewrite take_app_le by (rewrite length_drop; simpl in *; lia).
        by apply Forall_take, Forall_drop. }
  cbn [mbind option_bind]. destruct complete; cbn [negb]; [| by eauto].
  destruct Hc as [? | Hl]; [done |]. rewrite (isLegalUTF8_app _ tail _ _ Hl). simpl. eauto.
Qed.

Lemma masked_proper s1 s2 : same_hash s1 s2 -> hashWithTop8BitsMasked s1 = hashWithTop8BitsMasked s2.
Proof. intros H. unfold hashWithTop8BitsMasked. by rewrite (avalancheBits_proper _ _ H). Qed.

(** The text [text] is read as the code points [cs]. *)
Definition decodes (text cs : list Z) : Prop := exists ss, text = mjoin ss /\ Forall2 seq_of cs ss.

Lemma decodes_unique text cs cs' : decodes text cs -> decodes text cs' -> cs = cs'.
Proof. intros (ss & -> & Hss) (ss' & Heq & Hss'). by destruct (seqs_unique _ _ _ _ Hss Hss' Heq). Qed.

(** The hash of the decoded text, or 0 for text that is not accepted. *)
Lemma hash_loop_ok fuel hasEnd tail : forall text h dl ul,
  Forall is_byte text -> ended hasEnd text tail -> (length text < fuel)%nat ->
  (exists cs, decodes text cs /\
     hash_loop fuel hasEnd (text ++ tail) h (u32 dl) (u32 ul)
       = Some (hashWithTop8BitsMasked (foldl add1 h (units cs)), u32 (dl + Z.of_nat (length text)),
           u32 (ul + Z.of_nat (length (units cs))))) \/
  (forall cs, ~ decodes text cs) /\
  (exists dl' ul', hash_loop fuel hasEnd (text ++ tail) h (u32 dl) (u32 ul) = Some (0, dl', ul')).
Proof.
  induction fuel as [|fuel IH]; intros text h dl ul Hb Hend Hf; [lia |]. destruct text as [|b0 tl].
  { left. exists []. split; [by exists [] |]. simpl. rewrite !Z.add_0_r.
    destruct hasEnd; [by rewrite Hend | by destruct Hend as [_ (junk & ->)]]. }
  destruct (read_cases b0 tl Hb) as [(c & s & rest & Hs & Heq) | Hr].
  - rewrite Heq in *. apply Forall_app in Hb as [Hbs Hbr]. destruct (ended_app _ _ _ _ Hend) as [Hend' Hz].
    rewrite <- app_assoc. destruct (hash_step fuel hasEnd c s (rest ++ tail) h (u32 dl) (u32 ul) Hs Hz) as (h' & Hsame & ->).
    pose proof (seq_of_nonempty _ _ Hs) as Hs0. assert (length s <> O) by (by destruct s).
    rewrite length_app in Hf. rewrite !u32_add.
    destruct (IH rest h' (dl + Z.of_nat (length s)) (ul + Z.of_nat (length (utf16_enc c))) Hbr Hend' ltac:(lia))
      as [(cs & (ss & -> & Hss) & ->) | [Hno (dl' & ul' & ->)]]; [left | right; split; [| by eauto]].
    + exists (c :: cs). split; [exists (s :: ss); split; [done | by constructor] |].
      rewrite units_cons, foldl_app, !length_app, !Nat2Z.inj_add, !Z.add_assoc. do 3 f_equal.
      apply masked_proper. by rewrite Hsame.
    + intros cs (ss & Hj & Hss). destruct Hss as [|c' s' cs ss Hs' Hss]; [by destruct s |].
      destruct (seq_of_unique c s rest c' s' (mjoin ss) Hs Hs' Hj) as (_ & _ & ->). apply (Hno cs). by exists ss.
  - right. split; [| by destruct (hash_refused fuel hasEnd b0 tl tail h (u32 dl) (u32 ul) Hb Hend Hr); eauto].
    intros cs (ss & Hj & Hss). apply (refused_not_starts _ _ Hr).
    destruct Hss as [|c s cs ss Hs Hss]; [done |]. by exists c, s, (mjoin ss).
Qed.

(** ** The comparison *)

Lemma bool_decide_cons (a b : Z) (l1 l2 : list Z) :
  bool_decide (a :: l1 = b :: l2) = (a =? b) && bool_decide (l1 = l2).
Proof.
  destruct (Z.eqb_spec a b) as [-> | Hne]; simpl.
  - apply bool_decide_ext. split; [by intros [=] | by intros ->].
  - apply bool_decide_eq_false. by intros [=].
Qed.

Lemma equal_step fuel c s rest a :
  seq_of c s -> (length (utf16_enc c) <= length a)%nat ->
  equal_loop (S fuel) a (s ++ rest)
    = if bool_decide (take (length (utf16_enc c)) a = utf16_enc c)
      then equal_loop fuel (drop (length (utf16_enc c)) a) rest else Some false.
Proof.
  intros Hs Ha. pose proof (seq_of_scalar _ _ Hs) as Hsc.
  destruct (seq_of_reads c s rest Hs) as [Hf _ Hl Hr].
  destruct (seq_of_cases c s Hs) as [[Hc ->] | (Hc & b0 & tl & Heq & Hb & Hab & Hlen & Hac & _)].
  - assert (utf16_enc c = [c]) as Heq by (unfold utf16_enc; by rewrite (proj2 (Z.ltb_lt c 0x10000)) by lia).
    rewrite Heq in *. destruct a as [|a0 a]; [simpl in Ha; lia |]. cbn [equal_loop app length take drop].
    rewrite isASCII_spec, (proj2 (Z.ltb_lt c 0x80)) by lia. change (aget (a0 :: a) 0) with (Some a0).
    cbn [mbind option_bind]. rewrite bool_decide_cons, (bool_decide_eq_true_2 (take 0 a = [])), andb_true_r by done.
    by destruct (a0 =? c).
  - rewrite Heq in *. cbn [equal_loop app]. change ((b0 :: tl) ++ rest) with (b0 :: tl ++ rest) in *.
    rewrite Hab, Hlen, (proj2 (Z.ltb_ge _ _)) by done. rewrite Hl. cbn [mbind option_bind negb].
    rewrite Hr. cbn [mbind option_bind]. rewrite Hac.
    destruct (Z.lt_ge_cases c 0x10000) as [Hbmp | Hsup].
    + destruct (bmp_units c Hsc Hbmp) as (-> & -> & _ & Heq16). rewrite Heq16 in *.
      destruct a as [|a0 a]; [simpl in Ha; lia |]. cbn [length take drop].
      change (aget (a0 :: a) 0) with (Some a0). cbn [mbind option_bind].
      rewrite bool_decide_cons, (bool_decide_eq_true_2 (take 0 a = [])), andb_true_r by done. by destruct (a0 =? c).
    + destruct (supplementary_units c Hsc Hsup) as (-> & -> & Heq16). rewrite <- Heq16 in *.
      destruct a as [|a0 [|a1 a]]; [simpl in Ha; lia | simpl in Ha; lia |]. cbn [length take drop].
      change (aget (a0 :: a1 :: a) 0) with (Some a0). change (aget (a0 :: a1 :: a) 1) with (Some a1).
      cbn [mbind option_bind]. rewrite !bool_decide_cons, (bool_decide_eq_true_2 (take 0 a = [])), andb_true_r by done.
      by destruct (a0 =? _), (a1 =? _).
Qed.

Lemma app_eq_split {A} (a l1 l2 : list A) `{EqDecision A} :
  bool_decide (a = l1 ++ l2) = bool_decide (take (length l1) a = l1) && bool_decide (drop (length l1) a = l2).
Proof.
  destruct (bool_decide_reflect (take (length l1) a = l1)) as [H1 | H1]; simpl.
  - apply bool_decide_ext. rewrite <- (take_drop (length l1) a) at 1. rewrite H1. split; [apply app_inv_head | by intros ->].
  - apply bool_decide_eq_false. intros ->. apply H1. by rewrite take_app_length.
Qed.

Lemma equal_loop_ok cs : forall ss fuel a,
  Forall2 seq_of cs ss -> (length cs < fuel)%nat -> length a = length (units cs) ->
  equal_loop fuel a (mjoin ss) = Some (bool_decide (a = units cs)).
Proof.
  induction cs as [|c cs IH]; intros ss fuel a Hss Hf Ha; (destruct fuel as [|fuel]; [simpl in Hf; lia |]).
  - apply Forall2_nil_inv_l in Hss as ->. cbn. f_equal. by apply bool_decide_ext.
  - apply Forall2_cons_inv_l in Hss as (s & ss' & Hs & Hss & ->). rewrite units_cons, length_app in Ha.
    change (mjoin (s :: ss')) with (s ++ mjoin ss'). rewrite (equal_step _ c) by (done || lia).
    rewrite units_cons, app_eq_split. destruct (bool_decide (take _ a = utf16_enc c)); simpl; [| done].
    apply IH; [done | simpl in Hf; lia |]. rewrite length_drop. lia.
Qed.

(** As many bytes as code units: the text is ASCII. *)
Lemma ascii_text cs ss :
  Forall2 seq_of cs ss -> (length (units cs) <= length (mjoin ss))%nat /\
  (length (units cs) = length (mjoin ss) -> mjoin ss = cs /\ units cs = cs /\ Forall (fun c => 0 <= c < 0x80) cs).
Proof.
  induction 1 as [|c s cs ss Hs Hss [IHle IHeq]]; [done |].
  rewrite units_cons. change (mjoin (s :: ss)) with (s ++ mjoin ss). rewrite !length_app.
  destruct (seq_of_cases c s Hs) as [[Hc ->] | (Hc & b0 & tl & _ & _ & _ & _ & _ & Hlt)].
  - assert (utf16_enc c = [c]) as -> by (unfold utf16_enc; by rewrite (proj2 (Z.ltb_lt c 0x10000)) by lia).
    simpl. split; [lia |]. intros Heq. destruct IHeq as (-> & -> & IHa); [lia |]. auto.
  - split; [lia | lia].
Qed.

Lemma equal_ascii_ok cs tail : forall string,
  Forall (fun c => 0 <= c < 0x80) cs -> length string = length cs ->
  equal_ascii (length cs) string (cs ++ tail) = Some (bool_decide (string = cs)).
Proof.
  induction cs as [|c cs IH]; intros string Ha Hl.
  - by destruct string.
  - destruct string as [|s string]; [done |]. apply Forall_cons in Ha as [Hc Ha]. cbn [length equal_ascii app].
    rewrite isASCII_spec, (proj2 (Z.ltb_lt c 0x80)), bool_decide_cons by lia. cbn [negb].
    destruct (s =? c); simpl; [apply IH; [done | by simpl in Hl; lia] | done].
Qed.

(** The buffer of a text, with what follows it. *)
Definition text_buffer (h : Z) (text tail cs : list Z) : HashAndUTF8Characters :=
  mk_utf8_buffer h (text ++ tail) (Z.of_nat (length text)) (Z.of_nat (length (units cs))).

Lemma translator_equal_ok cs text tail string h :
  decodes text cs -> translator_equal string (text_buffer h text tail cs) = Some (bool_decide (string = units cs)).
Proof.
  intros (ss & -> & Hss). unfold translator_equal. cbn [text_buffer buf_utf16Length buf_length buf_characters].
  destruct (Z.eqb_spec (Z.of_nat (length (units cs))) (Z.of_nat (length string))) as [Hl | Hl]; cbn [negb].
  2:{ rewrite bool_decide_eq_false_2; [done |]. intros ->. lia. }
  destruct (Z.eqb_spec (Z.of_nat (length (units cs))) (Z.of_nat (length (mjoin ss)))) as [He | He]; cbn [negb];
    rewrite Nat2Z.id.
  - destruct (ascii_text cs ss Hss) as [_ Hasc]. destruct Hasc as (Hj & Hu & Ha); [lia |].
    rewrite Hj, Hu in *. apply equal_ascii_ok; [done | lia].
  - rewrite take_app_length. unfold equalUTF16WithUTF8. pose proof (length_seqs _ _ Hss).
    apply equal_loop_ok; [done | lia | lia].
Qed.

(** ** The new string *)

Lemma ascii_units cs ss :
  Forall2 seq_of cs ss -> forallb (fun c => c <? 0x80) cs = true -> mjoin ss = units cs.
Proof.
  induction 1 as [|c s cs ss Hs Hss IH]; [done |]. cbn [forallb]. intros [Hc%Z.ltb_lt Hcs]%andb_true_iff.
  rewrite units_cons. change (mjoin (s :: ss)) with (s ++ mjoin ss). rewrite (IH Hcs). f_equal.
  destruct (seq_of_cases c s Hs) as [[_ ->] | [? _]]; [| lia]. unfold utf16_enc. by rewrite (proj2 (Z.ltb_lt c 0x10000)) by lia.
Qed.

(** The hash of a list of characters in one call. *)
Lemma hash_of_list us : computeHashAndMaskTop8Bits_n id us (Z.of_nat (length us)) = Ok (hashWithTop8BitsMasked (foldl add1 new_hasher us)).
Proof.
  unfold computeHashAndMaskTop8Bits_n, run_hasher.
  destruct (wp_inv _ _ _ (adds_aligned_n id us (Z.of_nat (length us)) new_hasher eq_refl ltac:(lia))) as ([] & s' & -> & Hsame).
  rewrite Nat2Z.id, firstn_all, list_fmap_id in Hsame. f_equal. exact (masked_proper _ _ Hsame).
Qed.

Lemma land_high h f n : 0 <= n -> 0 <= f < 2 ^ n -> Z.land (Z.shiftl h n) f = 0.
Proof.
  intros Hn Hf. apply Z.bits_inj'. intros i Hi. rewrite Z.land_spec, Z.bits_0. destruct (Z.ltb_spec i n).
  - by rewrite Z.shiftl_spec_low.
  - rewrite <- (Z.mod_small f (2 ^ n)), Z.mod_pow2_bits_high by lia. apply andb_false_r.
Qed.

(** The hash of a list of characters is that of a new string. *)
Lemma setHash_ok us f h :
  h = hashWithTop8BitsMasked (foldl add1 new_hasher us) -> 0 <= f < 2 ^ 7 ->
  setHash h (mk_string us f) = Some (mk_string us (Z.lor f (Z.shiftl h 7))).
Proof.
  intros -> Hf. unfold setHash, hasHash, rawHash, s_flagMask, s_flagCount. cbn [m_hashAndFlags string_characters].
  rewrite Z.shiftr_div_pow2, Z.div_small, hash_of_list, Z.eqb_refl by lia. cbn [Z.eqb negb].
  pose proof (masked_range (foldl add1 new_hasher us)) as Hr. set (h := hashWithTop8BitsMasked _) in *.
  assert (u32 (Z.shiftl h 7) = Z.shiftl h 7) as -> by (rewrite Z.shiftl_mul_pow2, u32_id; lia).
  change (Z.shiftl (Z.shiftl 1 7 - 1) (32 - 7)) with (Z.shiftl 127 25). rewrite (Z.land_comm h), !land_high by lia.
  unfold truthy. rewrite (proj2 (Z.eqb_neq (Z.shiftl h 7) 0)) by (rewrite Z.shiftl_mul_pow2; lia).
  by rewrite Z.eqb_refl.
Qed.

(** The new string of the code points [cs]. *)
Definition atomic_string (cs : list Z) (h : Z) (s : StringImpl) : Prop :=
  string_characters s = units cs /\ rawHash s = h /\ isAtomic s = true /\ is8Bit s = forallb (fun c => c <? 0x80) cs.

Lemma flagged_ok us cs f h :
  us = units cs -> f = (if forallb (fun c => c <? 0x80) cs then s_hashFlag8BitBuffer else 0) ->
  atomic_string cs h (setIsAtomic (mk_string us (Z.lor f (Z.shiftl h 7)))).
Proof.
  intros -> ->. unfold atomic_string, rawHash, isAtomic, is8Bit, s_flagCount. cbn [setIsAtomic string_characters m_hashAndFlags].
  set (f := if _ : bool then _ else 0). split_and!; [done | | |].
  - rewrite !Z.shiftr_lor, Z.shiftr_shiftl_l by lia. change (Z.shiftr s_hashFlagIsAtomic 7) with 0. rewrite Z.lor_0_r.
    change (Z.shiftl h (7 - 7)) with h. by unfold f; destruct (forallb _ cs).
  - rewrite Z.land_lor_distr_l. change (Z.land s_hashFlagIsAtomic s_hashFlagIsAtomic) with 16. unfold truthy.
    apply negb_true_iff, Z.eqb_neq. intros [_ ?]%Z.lor_eq_0_iff. done.
  - rewrite !Z.land_lor_distr_l, land_high by done. change (Z.land s_hashFlagIsAtomic s_hashFlag8BitBuffer) with 0. rewrite !Z.lor_0_r.
    by unfold f; destruct (forallb _ cs).
Qed.

Lemma translator_translate_ok cs text tail h :
  decodes text cs -> h = hashWithTop8BitsMasked (foldl add1 new_hasher (units cs)) ->
  0 < Z.of_nat (length (units cs)) <= maxLength 2 ->
  exists s, translator_translate (text_buffer h text tail cs) = Some s /\ atomic_string cs h s.
Proof.
  intros (ss & -> & Hss) Hh Hl. unfold translator_translate. cbn [text_buffer buf_hash buf_utf16Length buf_length buf_characters].
  rewrite Nat2Z.id, take_app_length, (convert_text cs ss) by (done || unfold units; lia). cbn [mbind option_bind].
  fold (units cs). rewrite Z.eqb_refl.
  assert (forall size f, 1 <= size <= 2 -> create size f (units cs) = Some (mk_string (units cs) f)) as Hc.
  { intros size f Hs. unfold create. assert (maxLength 2 <= maxLength size) by (unfold maxLength; apply Z.div_le_compat_l; unfold sizeof_StringImpl; lia).
    by rewrite (proj2 (Z.eqb_neq _ 0)), (proj2 (Z.ltb_ge _ _)) by lia. }
  rewrite Hc by lia. cbn [mbind option_bind].
  destruct (forallb _ cs) eqn:Ha.
  - rewrite (ascii_units cs ss), Hc by (done || lia). cbn [mbind option_bind]. rewrite setHash_ok by done.
    eexists. split; [done |]. apply flagged_ok; [done | by rewrite Ha].
  - cbn [mbind option_bind]. rewrite setHash_ok by done. eexists. split; [done |]. apply flagged_ok; [done | by rewrite Ha].
Qed.

(** ** The key *)

(** [buffer] is a key of the text [cs]: the table's own hash and comparison, and
    the new string if it is not too long, without a read outside the texts or a
    failed assertion. *)
Record key_of (cs : list Z) (buffer : HashAndUTF8Characters) : Prop := {
  key_hash : computeHashAndMaskTop8Bits_n id (units cs) (Z.of_nat (length (units cs))) = Ok (buf_hash buffer);
  key_equal : forall string, translator_equal string buffer = Some (bool_decide (string = units cs));
  key_translate : Z.of_nat (length (units cs)) <= maxLength 2 ->
    exists s, translator_translate buffer = Some s /\ atomic_string cs (buf_hash buffer) s
}.

(** The atom of a text, accepted or not. *)
Definition atom_of (text : list Z) (atom : option Atom) : Prop :=
  (forall cs, decodes text cs -> exists buffer, atom = Some (addToStringTable buffer) /\ key_of cs buffer) /\
  ((forall cs, ~ decodes text cs) <-> atom = Some nullAtom).

Lemma fromUTF8Internal_ok hasEnd text tail :
  Forall is_byte text -> Z.of_nat (length text) < 2 ^ 32 -> text <> [] -> ended hasEnd text tail ->
  atom_of text (fromUTF8Internal (text ++ tail) hasEnd).
Proof.
  intros Hb Hl Hne Hend. unfold fromUTF8Internal, calculateStringHashAndLengthFromUTF8MaskingTop8Bits.
  destruct (hash_loop_ok (S (length (text ++ tail))) hasEnd tail text new_hasher 0 0 Hb Hend ltac:(rewrite length_app; lia))
    as [(cs & Hcs & Hh) | [Hno (dl & ul & Hh)]]; change (u32 0) with 0 in Hh; rewrite Hh; cbn [mbind option_bind].
  2:{ split; [intros cs Hcs; by destruct (Hno cs) | by split]. }
  pose proof (masked_range (foldl add1 new_hasher (units cs))) as Hr.
  rewrite (proj2 (Z.eqb_neq (hashWithTop8BitsMasked _) 0)) by lia. pose proof Hcs as (ss & -> & Hss).
  destruct (ascii_text cs ss Hss) as [Hle _]. rewrite !Z.add_0_l, !u32_id by lia. split.
  - intros cs' Hcs'. rewrite <- (decodes_unique _ _ _ Hcs Hcs'). eexists. split; [done |].
    split; [apply hash_of_list | intros string; by apply translator_equal_ok | intros Hmax].
    change (mk_utf8_buffer ?h _ _ _) with (text_buffer h (mjoin ss) tail cs). apply translator_translate_ok; [done | done |].
    split; [| done]. destruct Hss as [|c s cs ss Hs Hss]; [done |]. rewrite units_cons, length_app. pose proof (utf16_enc_length c). lia.
  - split; [intros Hno; by destruct (Hno cs) | done].
Qed.
