(* ===== verification/TextProps.v ===== *)
(** * Text: properties of the conversions and of the string hash *)

From stdpp Require Import base numbers list.
From S2P Require Import Prelude Ctype StringHasher Utf8 Utf8Proof Utf8Hash.

#[local] Open Scope Z_scope.

(** [C19] Conversion from UTF-8, for all bytes and every room in the target: it
    reads nothing outside the source and ends; what it consumes is a sequence of
    accepted code points and what it writes is their UTF-16.  It stops at the
    end; at bytes that start no accepted sequence, where the source is exhausted
    if fewer bytes are left than the first one announces, and illegal otherwise;
    or at a code point for which there is no room.  The flag tells whether all
    of the code points are ASCII.  The result is the same in both modes: what
    the lenient mode would convert, isolated surrogates and values above
    [0x10FFFF], is refused before the mode is looked at, other than [UTF8.h]
    says. *)
Theorem convertUTF8ToUTF16_exact source room strict (Hb : Forall is_byte source) :
  convertUTF8ToUTF16 source room strict = convertUTF8ToUTF16 source room true /\
  exists r cs ss rest,
    convertUTF8ToUTF16 source room strict
      = Some (r, rest, mjoin (utf16_enc <$> cs), forallb (fun c => c <? 0x80) cs) /\
    source = mjoin ss ++ rest /\ Forall2 seq_of cs ss /\
    stopped8 r rest (room - Z.of_nat (length (mjoin (utf16_enc <$> cs)))).
Proof.
  split; [unfold convertUTF8ToUTF16; by rewrite (decode_modes _ strict) |].
  destruct (decode_loop_ok (S (length source)) strict source [] room 0 Hb ltac:(lia) ltac:(lia))
    as (r & cs & ss & rest & o & Hc & Hs & Hss & Hst & Ho).
  exists r, cs, ss, rest. unfold convertUTF8ToUTF16. rewrite Hc. cbn [mbind option_bind app].
  split_and!; [| done | done | done]. do 2 f_equal. change (isASCII o = forallb (fun c => c <? 0x80) cs) in Ho. rewrite <- Ho. unfold isASCII, truthy. apply negb_involutive.
Qed.

(** The encoding of a surrogate, in the lenient mode, behind two characters. *)
Lemma convertUTF8ToUTF16_exact_witness :
  Forall is_byte [0x41; 0xE2; 0x82; 0xAC; 0xED; 0xA0; 0x80] /\
  convertUTF8ToUTF16 [0x41; 0xE2; 0x82; 0xAC; 0xED; 0xA0; 0x80] 10 false
    = Some (sourceIllegal, [0xED; 0xA0; 0x80], [0x41; 0x20AC], false) /\
  convertUTF8ToUTF16 [0x41; 0xE2; 0x82; 0xAC; 0xED; 0xA0; 0x80] 10 false
    = convertUTF8ToUTF16 [0x41; 0xE2; 0x82; 0xAC; 0xED; 0xA0; 0x80] 10 true /\
  exists r cs ss rest,
    convertUTF8ToUTF16 [0x41; 0xE2; 0x82; 0xAC; 0xED; 0xA0; 0x80] 10 false
      = Some (r, rest, mjoin (utf16_enc <$> cs), forallb (fun c => c <? 0x80) cs) /\
    [0x41; 0xE2; 0x82; 0xAC; 0xED; 0xA0; 0x80] = mjoin ss ++ rest /\ Forall2 seq_of cs ss /\
    stopped8 r rest (10 - Z.of_nat (length (mjoin (utf16_enc <$> cs)))).
Proof.
  assert (Forall is_byte [0x41; 0xE2; 0x82; 0xAC; 0xED; 0xA0; 0x80]) as H
    by (repeat constructor; discriminate).
  split; [exact H |]. split; [by vm_compute |]. apply (convertUTF8ToUTF16_exact _ 10 false H).
Defined.

(** [C20] Conversion from UTF-16, for all code units, every room and both
    modes: what it consumes is the UTF-16 of a sequence of code points, what it
    writes is their UTF-8, and it stops at the end, at a high surrogate at the
    end of the source, at an unpaired surrogate (in strict mode only) or at a
    code point for which there is no room.  In strict mode no code point is a
    surrogate. *)
Theorem convertUTF16ToUTF8_exact source room strict (Hu : Forall is_unit source) :
  exists r cs rest,
    convertUTF16ToUTF8 source room strict = Some (r, rest, mjoin (utf8_enc <$> cs)) /\
    source = mjoin (utf16_enc <$> cs) ++ rest /\ Forall (encodable strict) cs /\
    stopped16 strict r rest (room - Z.of_nat (length (mjoin (utf8_enc <$> cs)))).
Proof. by apply (encode_loop_ok (length source) strict source [] room). Qed.

Lemma convertUTF16ToUTF8_exact_witness :
  Forall is_unit [0x41; 0xD83D; 0xDE00; 0xDC00] /\
  exists r cs rest,
    convertUTF16ToUTF8 [0x41; 0xD83D; 0xDE00; 0xDC00] 10 true = Some (r, rest, mjoin (utf8_enc <$> cs)) /\
    [0x41; 0xD83D; 0xDE00; 0xDC00] = mjoin (utf16_enc <$> cs) ++ rest /\ Forall (encodable true) cs /\
    stopped16 true r rest (10 - Z.of_nat (length (mjoin (utf8_enc <$> cs)))).
Proof.
  assert (Forall is_unit [0x41; 0xD83D; 0xDE00; 0xDC00]) as H by (repeat constructor; discriminate).
  split; [exact H |]. apply (convertUTF16ToUTF8_exact _ 10 true H).
Defined.

(** [C21] A string that converts to UTF-8 in strict mode is what the UTF-8
    converts back to. *)
Theorem utf16_roundtrip source room target rest strict (Hu : Forall is_unit source)
    (Hconv : convertUTF16ToUTF8 source room true = Some (conversionOK, rest, target)) :
  exists ascii,
    convertUTF8ToUTF16 target (Z.of_nat (length source)) strict = Some (conversionOK, [], source, ascii).
Proof.
  destruct (encode_loop_ok (length source) true source [] room ltac:(lia) Hu) as (r & cs & rest' & Hc & Hs & Hcs & Hst).
  unfold convertUTF16ToUTF8 in Hconv. rewrite Hc in Hconv. simplify_eq/=. rewrite app_nil_r.
  unfold convertUTF8ToUTF16.
  assert (Forall2 seq_of cs (utf8_enc <$> cs)) as Hss.
  { apply enc_seqs. eapply Forall_impl; [exact Hcs |]. intros c [_ Hc']. by apply Hc'. }
  rewrite (decode_all cs (utf8_enc <$> cs)); [| done | | done].
  - simpl. eauto.
  - pose proof (length_seqs _ _ Hss). lia.
Qed.

Lemma utf16_roundtrip_witness :
  convertUTF16ToUTF8 [0x20AC; 0xD83D; 0xDE00] 7 true
    = Some (conversionOK, [], [0xE2; 0x82; 0xAC; 0xF0; 0x9F; 0x98; 0x80]) /\
  exists ascii, convertUTF8ToUTF16 [0xE2; 0x82; 0xAC; 0xF0; 0x9F; 0x98; 0x80] 3 true
    = Some (conversionOK, [], [0x20AC; 0xD83D; 0xDE00], ascii).
Proof.
  split; [by vm_compute |].
  apply (utf16_roundtrip [0x20AC; 0xD83D; 0xDE00] 7 _ [] true);
    [repeat constructor; discriminate | by vm_compute].
Defined.

(** [C22] The decoder accepts text that is not UTF-8, in both modes: between any
    code points a sequence of [0xED] or [0xF4], a second byte below [0x80] and
    the continuation bytes passes the tests and is converted to one code point,
    so that an ASCII character is swallowed, although the text is the encoding
    of no list of code points. *)
Theorem illegal_sequence_accepted before after c s room strict
    (Hbefore : Forall (fun c => is_scalar c = true) before) (Hafter : Forall (fun c => is_scalar c = true) after)
    (Hs : irregular c s) (Hroom : Z.of_nat (length (units (before ++ c :: after))) <= room) :
  convertUTF8ToUTF16 (mjoin (utf8_enc <$> before) ++ s ++ mjoin (utf8_enc <$> after)) room strict
    = Some (conversionOK, [], units (before ++ c :: after), false) /\
  (forall cs, Forall (fun c => is_scalar c = true) cs ->
     mjoin (utf8_enc <$> before) ++ s ++ mjoin (utf8_enc <$> after) <> mjoin (utf8_enc <$> cs)).
Proof.
  assert (mjoin (utf8_enc <$> before) ++ s ++ mjoin (utf8_enc <$> after)
    = mjoin ((utf8_enc <$> before) ++ s :: (utf8_enc <$> after))) as -> by (by rewrite join_app).
  assert (Forall2 seq_of (before ++ c :: after) ((utf8_enc <$> before) ++ s :: (utf8_enc <$> after))) as Hss.
  { apply Forall2_app; [by apply enc_seqs |]. constructor; [by apply seq_irregular | by apply enc_seqs]. }
  split.
  - rewrite (convert_text _ _ room strict Hss Hroom). do 2 f_equal. rewrite forallb_app. cbn [forallb].
    by rewrite (irregular_not_ascii c s Hs), andb_false_r.
  - intros cs Hcs Heq. destruct (seqs_unique _ _ _ _ Hss (enc_seqs cs Hcs) Heq) as [_ Henc].
    assert (s ∈ utf8_enc <$> cs) as (c' & -> & Hc')%list_elem_of_fmap by (rewrite <- Henc; apply elem_of_app; right; left).
    apply (irregular_not_encoding c c'); [by eapply (proj1 (Forall_forall _ _)) in Hc'; [| exact Hcs] | done].
Qed.

(** A quotation mark after [0xF4], and one after [0xED]. *)
Lemma illegal_sequence_accepted_witness :
  (convertUTF8ToUTF16 [0x61; 0xF4; 0x22; 0x80; 0x80; 0xC3; 0xA9] 4 true
     = Some (conversionOK, [], [0x61; 0xDA48; 0xDC00; 0xE9], false) /\
   (forall cs, Forall (fun c => is_scalar c = true) cs ->
      [0x61; 0xF4; 0x22; 0x80; 0x80; 0xC3; 0xA9] <> mjoin (utf8_enc <$> cs))) /\
  (convertUTF8ToUTF16 [0xED; 0x22; 0x80] 1 false = Some (conversionOK, [], [0xB880], false) /\
   (forall cs, Forall (fun c => is_scalar c = true) cs -> [0xED; 0x22; 0x80] <> mjoin (utf8_enc <$> cs))).
Proof.
  split.
  - apply (illegal_sequence_accepted [0x61] [0xE9] 0xA2000 [0xF4; 0x22; 0x80; 0x80] 4 true);
      [by repeat constructor | by repeat constructor | apply irregular_F4; lia | by vm_compute].
  - apply (illegal_sequence_accepted [] [] 0xB880 [0xED; 0x22; 0x80]);
      [by constructor | by constructor | apply irregular_ED; lia | by vm_compute].
Defined.

(** [C23] Atomic strings from UTF-8, with a length or with a zero at the end,
    whatever follows the text in memory.  When the text is accepted, the atom is
    that of a key with the hash that [StringHasher] gives the decoded code
    units; the comparison of the key with a string of the table is the
    comparison with the decoded code units; and the string that is made of the
    key, unless it is longer than any string, is the decoded one with this hash,
    atomic, and of 8 bits if it is ASCII; all without a read outside the texts, a
    failed assertion or an uninitialised character.  The atom is null exactly for
    text that is not accepted. *)
Theorem atomic_string_utf8 text junk (Hb : Forall is_byte text) (Hl : Z.of_nat (length text) < 2 ^ 32) (Hne : text <> []) :
  atom_of text (fromUTF8_n (Some (text ++ junk)) (Z.of_nat (length text))) /\
  (Forall nonzero text -> atom_of text (fromUTF8_z (Some (text ++ 0 :: junk)))).
Proof.
  split.
  - unfold fromUTF8_n. rewrite (proj2 (Z.eqb_neq _ 0)) by (by destruct text). rewrite Nat2Z.id, take_app_length.
    rewrite <- (app_nil_r text) at 2. by apply fromUTF8Internal_ok.
  - intros Hz. assert (fromUTF8_z (Some (text ++ 0 :: junk)) = fromUTF8Internal (text ++ 0 :: junk) false) as ->;
      [| apply fromUTF8Internal_ok; [done | done | done |]; split; [done | by exists junk]].
    destruct text as [|b0 tl]; [done |]. apply Forall_cons in Hz as [Hb0 _]. unfold fromUTF8_z. change (aget _ 0) with (Some b0).
    cbn [mbind option_bind]. unfold truthy. by rewrite (proj2 (Z.eqb_neq _ _) Hb0).
Qed.

(** Text with a supplementary character, and text that is cut off. *)
Lemma atomic_string_utf8_witness :
  (exists buffer, fromUTF8_n (Some [0x68; 0xC3; 0xA9; 0xF0; 0x9F; 0x98; 0x80; 0xFF]) 7 = Some (addToStringTable buffer) /\
     key_of [0x68; 0xE9; 0x1F600] buffer) /\
  (exists buffer, fromUTF8_z (Some [0x68; 0xC3; 0xA9; 0xF0; 0x9F; 0x98; 0x80; 0]) = Some (addToStringTable buffer) /\
     key_of [0x68; 0xE9; 0x1F600] buffer) /\
  fromUTF8_z (Some [0x68; 0xC3; 0]) = Some nullAtom.
Proof.
  set (text := [0x68; 0xC3; 0xA9; 0xF0; 0x9F; 0x98; 0x80]).
  assert (decodes text [0x68; 0xE9; 0x1F600]) as Hd.
  { exists (utf8_enc <$> [0x68; 0xE9; 0x1F600]). split; [done | apply enc_seqs; by repeat constructor]. }
  split; [| split].
  - apply (atomic_string_utf8 text [0xFF]); [repeat constructor; discriminate | done | done | done].
  - apply (atomic_string_utf8 text []); [repeat constructor; discriminate | done | done | repeat constructor; discriminate | done].
  - apply (atomic_string_utf8 [0x68; 0xC3] []); [repeat constructor; discriminate | done | done | repeat constructor; discriminate |].
    intros cs (ss & Hj & Hss). assert (atom_of [0x68; 0xC3] (Some nullAtom)) as [_ [_ Hno]]; [| by apply (Hno eq_refl cs); exists ss].
    exact (fromUTF8Internal_ok true [0x68; 0xC3] [] ltac:(repeat constructor; discriminate) eq_refl ltac:(done) eq_refl).
Defined.

(** ** The incremental hash *)

(** A call of the hasher and the characters it adds. *)
Inductive hasher_call :=
  | Call1 (c : Z) | Call2 (a b : Z) | CallN (data : list Z) | CallZ (data : list Z).

Definition call_chars (o : hasher_call) : list Z :=
  match o with
  | Call1 c => [c]
  | Call2 a b => [a; b]
  | CallN data | CallZ data => data
  end.

Definition is_nul (c : Z) : bool := c =? 0.

Definition run_call (o : hasher_call) : M hasher_fault StringHasher unit :=
  match o with
  | Call1 c => addCharacter c
  | Call2 a b => addCharacters a b
  | CallN data => addCharacters_n id data (Z.of_nat (length data))
  | CallZ data => addCharacters_z id is_nul (data ++ [0])
  end.

Fixpoint run_calls (os : list hasher_call) : M hasher_fault StringHasher unit :=
  match os with
  | [] => mret tt
  | o :: os => run_call o ;; run_calls os
  end.

(** Data is not empty, and has no zero inside when a zero ends it. *)
Definition call_ok (o : hasher_call) : Prop :=
  match o with
  | CallN data => data <> [] /\ Z.of_nat (length data) < 2 ^ 32
  | CallZ data => data <> [] /\ Forall (fun c => is_nul c = false) data
  | _ => True
  end.

Lemma run_call_adds o s : call_ok o -> adds (run_call o) s (call_chars o).
Proof.
  destruct o as [c | a b | data | data]; simpl; intros Ho.
  - apply adds_addCharacter.
  - apply adds_addCharacters.
  - destruct Ho as [Hne Hl]. pose proof (adds_addCharacters_n id data (Z.of_nat (length data)) s ltac:(lia) Hl) as H.
    rewrite Nat2Z.id, firstn_all, list_fmap_id in H. apply H. left. destruct data; [done | simpl; lia].
  - destruct Ho as [Hne Hz]. rewrite <- (list_fmap_id data) at 2. apply adds_addCharacters_z; [done | done | by left].
Qed.

Lemma run_calls_adds os : forall s, Forall call_ok os -> adds (run_calls os) s (os ≫= call_chars).
Proof.
  induction os as [|o os IH]; intros s Hos; [apply adds_ret |]. apply Forall_cons in Hos as [Ho Hos].
  change ((o :: os) ≫= call_chars) with (call_chars o ++ (os ≫= call_chars)).
  apply (adds_seq (run_call o) (run_calls os)); [by apply run_call_adds | intros; by apply IH].
Qed.

(** [C24] The hash depends on the characters only: however the characters of a
    string are divided among calls of the hasher, with a pending character in
    between or not, the calls succeed and leave the hash of the whole string,
    both masked and unmasked; it is not 0 and the masked one has 24 bits. *)
Theorem hasher_incremental os (Hos : Forall call_ok os) :
  exists s, run_calls os new_hasher = Ok (tt, s) /\
    computeHash_n id (os ≫= call_chars) (Z.of_nat (length (os ≫= call_chars))) = Ok (hash s) /\
    computeHashAndMaskTop8Bits_n id (os ≫= call_chars) (Z.of_nat (length (os ≫= call_chars)))
      = Ok (hashWithTop8BitsMasked s) /\
    0 < hash s < 2 ^ 32 /\ 0 < hashWithTop8BitsMasked s < 2 ^ 24.
Proof.
  destruct (wp_inv _ _ _ (run_calls_adds os new_hasher Hos)) as ([] & s & Hr & Hs). exists s.
  set (cs := os ≫= call_chars) in *.
  destruct (wp_inv _ _ _ (adds_aligned_n id cs (Z.of_nat (length cs)) new_hasher eq_refl ltac:(lia)))
    as ([] & s' & Hm & Hs'). rewrite Nat2Z.id, firstn_all, list_fmap_id in Hs'.
  assert (same_hash s' s) as Hsame by (by rewrite Hs', Hs).
  unfold computeHash_n, computeHashAndMaskTop8Bits_n, run_hasher. rewrite Hm.
  split_and!; [done | | by rewrite (masked_proper _ _ Hsame) | apply hash_range | apply hash_range
              | apply masked_range | apply masked_range].
  unfold hash. by rewrite (avalancheBits_proper _ _ Hsame).
Qed.

Lemma hasher_incremental_witness :
  exists s, run_calls [Call1 104; CallN [105; 106]; Call2 107 108; CallZ [109]] new_hasher = Ok (tt, s) /\
    computeHash_n id [104; 105; 106; 107; 108; 109] 6 = Ok (hash s) /\
    computeHashAndMaskTop8Bits_n id [104; 105; 106; 107; 108; 109] 6 = Ok (hashWithTop8BitsMasked s) /\
    0 < hash s < 2 ^ 32 /\ 0 < hashWithTop8BitsMasked s < 2 ^ 24.
Proof.
  apply (hasher_incremental [Call1 104; CallN [105; 106]; Call2 107 108; CallZ [109]]).
  repeat constructor; discriminate.
Defined.

(** Latin-1 text is UTF-16 text: both conversions to UTF-8 agree on it, in
    both modes and for every room. *)
Theorem latin1_as_utf16 source target room strict (Hb : Forall is_byte source) :
  convertLatin1ToUTF8_loop source target room = convertUTF16ToUTF8_loop strict source target room.
Proof.
  revert target room. induction Hb as [|ch source [Hc0 Hc1] Hb IH]; intros target room; [done |].
  rewrite encode_unit; [| unfold is_unit; lia | |].
  - cbn [convertLatin1ToUTF8_loop]. unfold encode_then.
    assert (is_code_point ch = true) as Hp.
    { unfold is_code_point. apply andb_true_iff. rewrite Z.leb_le, Z.ltb_lt. lia. }
    assert ((if ch <? 0x80 then 1 else 2) = Z.of_nat (length (utf8_enc ch))) as Hlen.
    { unfold utf8_enc. rewrite (proj2 (Z.ltb_lt ch 0x800)) by lia. by destruct (ch <? 0x80). }
    rewrite Hlen, write_sequence_ok by done. destruct (room <? _); [done | apply IH].
  - unfold is_high. by rewrite (proj2 (Z.leb_gt 0xD800 ch)) by lia.
  - intros _. unfold is_low. by rewrite (proj2 (Z.leb_gt 0xDC00 ch)) by lia.
Qed.

Lemma latin1_as_utf16_witness :
  convertLatin1ToUTF8_loop [0x63; 0xE9] [] 3 = convertUTF16ToUTF8_loop true [0x63; 0xE9] [] 3.
Proof. apply (latin1_as_utf16 [0x63; 0xE9] [] 3 true). repeat constructor; discriminate. Defined.

(** [decodeUTF8Sequence] returns a code point exactly for its encoding
    followed by the terminator: no other bytes are accepted, and no surrogate
    or overlong form. *)
Theorem decodeUTF8Sequence_exact sequence c (Hb : Forall is_byte sequence) (Hc : 0 <= c) :
  decodeUTF8Sequence sequence = Some c <->
  is_scalar c = true /\ exists junk, sequence = utf8_enc c ++ 0 :: junk.
Proof.
  split; [intros Hd; by apply decode_sound |]. intros [Hs [junk ->]]. by apply decode_complete.
Qed.

Lemma decodeUTF8Sequence_exact_witness :
  decodeUTF8Sequence [0xE2; 0x82; 0xAC; 0] = Some 0x20AC <->
  is_scalar 0x20AC = true /\ exists junk, [0xE2; 0x82; 0xAC; 0] = utf8_enc 0x20AC ++ 0 :: junk.
Proof. apply (decodeUTF8Sequence_exact [0xE2; 0x82; 0xAC; 0] 0x20AC); [repeat constructor; discriminate | lia]. Defined.
