(* ===== verification/AssemblerBuffer.v ===== *)
(** * The assembler's buffer

    [AssemblerBuffer] and [AssemblerLabel] of
    JavaScriptCore/assembler/AssemblerBuffer.h: the growing array of bytes the
    assemblers write machine code into.  The backing [Vector<char>] does not
    initialise its elements, so a cell is an [option]: [None] until it is
    written.  The second half is a small program logic for code that appends
    to the buffer ([writes] where the space is there, [formats] where it is
    made), used for every instruction of the assembler. *)

From stdpp Require Import base numbers list.
From S2P Require Import Prelude.

#[local] Open Scope Z_scope.

(** ** Bytes in memory *)

(** What can go wrong: an assertion, an overflow of a signed integer, an
    access outside the array, a read of a byte never written, [CRASH()], a
    loop out of fuel. *)
Inductive asm_fault :=
  | Asm_assert | Asm_overflow | Asm_oob | Asm_uninit | Asm_crash | Asm_fuel.

(** An array of bytes, written in [n]-byte pieces. *)
Abbreviation cells := (list (option Z)).

Definition cells_store (l : cells) (i : Z) (bs : list Z) : option cells :=
  if (0 <=? i) && (i + Z.of_nat (length bs) <=? Z.of_nat (length l)) then
    Some (take (Z.to_nat i) l ++ (Some <$> bs) ++ drop (Z.to_nat i + length bs) l)
  else None.

Definition cells_load (l : cells) (i : Z) (n : nat) : option cells :=
  if (0 <=? i) && (i + Z.of_nat n <=? Z.of_nat (length l)) then
    Some (take n (drop (Z.to_nat i) l))
  else None.

(** ** AssemblerLabel: an offset, all ones when it is not set *)

Definition UINT32_MAX : Z := 4294967295.

Definition AssemblerLabel : Type := Z.

Definition label_unset : AssemblerLabel := UINT32_MAX.
Definition isSet (l : AssemblerLabel) : bool := negb (l =? UINT32_MAX).
Definition labelAtOffset (l : AssemblerLabel) (offset : Z) : AssemblerLabel := u32 (l + offset).

(** ** The buffer *)

Record AssemblerBuffer := mk_buffer {
  m_storage : cells;
  m_capacity : Z;
  m_index : Z
}.

Definition eta_buffer (b : AssemblerBuffer) : AssemblerBuffer :=
  mk_buffer (m_storage b) (m_capacity b) (m_index b).

#[global] Instance upd_m_storage : Upd m_storage := ltac:(mk_upd eta_buffer m_storage).
#[global] Instance upd_m_capacity : Upd m_capacity := ltac:(mk_upd eta_buffer m_capacity).
#[global] Instance upd_m_index : Upd m_index := ltac:(mk_upd eta_buffer m_index).

Abbreviation BM := (M asm_fault AssemblerBuffer).

Definition asm_assert {S} (b : bool) : M asm_fault S unit :=
  if b then mret tt else mfail Asm_assert.

(** Signed 32-bit arithmetic: leaving the range is undefined. *)
Definition in_int32 (v : Z) : bool := (-2147483648 <=? v) && (v <=? 2147483647).
Definition int32 {S} (v : Z) : M asm_fault S Z :=
  if in_int32 v then mret v else mfail Asm_overflow.

Definition inlineCapacity : Z := 128.

Definition new_buffer : AssemblerBuffer :=
  mk_buffer (replicate (Z.to_nat inlineCapacity) None) inlineCapacity 0.

Definition isAvailable (space : Z) : BM bool :=
  b ← mget; e ← int32 (m_index b + space); mret (e <=? m_capacity b).

(** [Vector::grow] keeps the elements and adds uninitialised ones. *)
Definition vector_grow (l : cells) (size : Z) : cells :=
  l ++ replicate (Z.to_nat size - length l) None.

Definition grow (extraCapacity : Z) : BM unit :=
  b ← mget;
  more ← int32 (Z.quot (m_capacity b) 2 + extraCapacity);
  capacity ← int32 (m_capacity b + more);
  mput (b <| m_capacity := capacity |> <| m_storage := vector_grow (m_storage b) capacity |>).

Definition ensureSpace (space : Z) : BM unit :=
  available ← isAvailable space;
  if (available : bool) then mret tt else grow 0.

Definition isAligned (b : AssemblerBuffer) (alignment : Z) : bool :=
  Z.land (m_index b) (alignment - 1) =? 0.

Definition store_at_index (bs : list Z) : BM unit :=
  b ← mget;
  l ← of_opt Asm_oob (cells_store (m_storage b) (m_index b) bs);
  i ← int32 (m_index b + Z.of_nat (length bs));
  mput (b <| m_storage := l |> <| m_index := i |>).

(** [putIntegralUnchecked] for an integer type of [n] bytes. *)
Definition putIntegralUnchecked (n : nat) (value : Z) : BM unit :=
  available ← isAvailable (Z.of_nat n);
  asm_assert available;;
  store_at_index (le_bytes n value).

Definition putIntegral (n : nat) (value : Z) : BM unit :=
  ensureSpace (Z.of_nat n);; putIntegralUnchecked n value.

Definition putByteUnchecked (value : Z) : BM unit := putIntegralUnchecked 1 value.
Definition putByte (value : Z) : BM unit := putIntegral 1 value.
Definition putShortUnchecked (value : Z) : BM unit := putIntegralUnchecked 2 value.
Definition putShort (value : Z) : BM unit := putIntegral 2 value.
Definition putIntUnchecked (value : Z) : BM unit := putIntegralUnchecked 4 value.
Definition putInt (value : Z) : BM unit := putIntegral 4 value.
Definition putInt64Unchecked (value : Z) : BM unit := putIntegralUnchecked 8 value.
Definition putInt64 (value : Z) : BM unit := putIntegral 8 value.

Definition codeSize (b : AssemblerBuffer) : Z := m_index b.
Definition buffer_label : BM AssemblerLabel := mgets m_index.

Definition append (data : list Z) : BM unit :=
  let size := Z.of_nat (length data) in
  available ← isAvailable size;
  (if (available : bool) then mret tt else grow size);;
  store_at_index data.

(** ** Invariant

    The capacity is that of the storage, the bytes below the index have been
    written, and the capacity exceeds what the code needed by at most the
    growth factor, so that it cannot overflow while the code is short. *)

Definition code (b : AssemblerBuffer) : cells := take (Z.to_nat (m_index b)) (m_storage b).

Definition maxCodeSize : Z := 536870912.

Record buffer_wf (b : AssemblerBuffer) : Prop := mk_buffer_wf {
  wf_capacity : m_capacity b = Z.of_nat (length (m_storage b));
  wf_inline : inlineCapacity <= m_capacity b;
  wf_index : 0 <= m_index b <= m_capacity b;
  wf_slack : m_capacity b <= inlineCapacity \/ 2 * m_capacity b <= 3 * (m_index b + 16);
  wf_written : Forall is_Some (code b)
}.

Definition room (b : AssemblerBuffer) : Z := m_capacity b - m_index b.

Lemma new_buffer_wf : buffer_wf new_buffer.
Proof. constructor; try done; by left. Qed.

(** ** Lemmas on bytes *)

Lemma cells_store_Some l i bs :
  0 <= i -> i + Z.of_nat (length bs) <= Z.of_nat (length l) ->
  exists l', cells_store l i bs = Some l' /\ length l' = length l /\
    take (Z.to_nat i + length bs) l' = take (Z.to_nat i) l ++ (Some <$> bs).
Proof.
  intros. unfold cells_store.
  rewrite (proj2 (Z.leb_le 0 i)), (proj2 (Z.leb_le _ (Z.of_nat (length l)))) by lia.
  eexists. split_and!; [done | |].
  - rewrite !length_app, length_take, length_fmap, length_drop. lia.
  - rewrite app_assoc, take_app_length'; [done |].
    rewrite length_app, length_take, length_fmap. lia.
Qed.

Lemma int32_ok {S} v (s : S) Q : in_int32 v = true -> Q v s -> wp (int32 v) s Q.
Proof. unfold int32. by intros ->. Qed.

Lemma in_int32_true v : -2147483648 <= v <= 2147483647 -> in_int32 v = true.
Proof. intros. unfold in_int32. apply andb_true_iff. split; apply Z.leb_le; lia. Qed.

(** ** A program logic for appending code *)

Lemma isAvailable_ok b space (Q : bool -> AssemblerBuffer -> Prop) :
  buffer_wf b -> m_index b <= maxCodeSize -> 0 <= space <= 1024 ->
  Q (space <=? room b) b -> wp (isAvailable space) b Q.
Proof.
  intros [] Hmax Hs HQ. unfold isAvailable, maxCodeSize in *. wp_step. wp_step. wp_step.
  apply int32_ok; [apply in_int32_true; lia |]. wp_step.
  replace (m_index b + space <=? m_capacity b) with (space <=? room b); [done |].
  unfold room. lia.
Qed.

Lemma ensureSpace_ok b space (Q : unit -> AssemblerBuffer -> Prop) :
  buffer_wf b -> m_index b <= maxCodeSize -> 0 <= space <= 16 ->
  (forall b', buffer_wf b' -> code b' = code b -> m_index b' = m_index b -> space <= room b' ->
     Q tt b') ->
  wp (ensureSpace space) b Q.
Proof.
  intros Hwf Hmax Hs HQ. unfold ensureSpace. wp_step.
  apply isAvailable_ok; [done | done | lia |]. apply wp_if; intros Ha; [wp_step; apply HQ; zlia || done |].
  destruct Hwf as [Hc Hi Hx Hsl Hw]. unfold room, maxCodeSize, inlineCapacity in *. zbool.
  unfold grow. wp_step. wp_step. rewrite Z.quot_div_nonneg, Z.add_0_r by lia.
  assert (m_capacity b `div` 2 * 2 <= m_capacity b < m_capacity b `div` 2 * 2 + 2)
    by (pose proof (Z.div_mod (m_capacity b) 2); pose proof (Z.mod_pos_bound (m_capacity b) 2); lia).
  wp_step. apply int32_ok; [apply in_int32_true; lia |].
  wp_step. apply int32_ok; [apply in_int32_true; lia |].
  assert (length (vector_grow (m_storage b) (m_capacity b + m_capacity b `div` 2))
    = Z.to_nat (m_capacity b + m_capacity b `div` 2)) as Hl
    by (unfold vector_grow; rewrite length_app, length_replicate; lia).
  assert (take (Z.to_nat (m_index b)) (vector_grow (m_storage b) (m_capacity b + m_capacity b `div` 2))
    = code b) as Hcode by (unfold vector_grow, code; rewrite take_app_le by lia; done).
  apply HQ; [constructor; simpl; try rewrite Hl; unfold inlineCapacity | done | done | simpl; lia];
    try lia.
  unfold code. simpl. by rewrite Hcode.
Qed.

Lemma store_at_index_ok b bs (Q : unit -> AssemblerBuffer -> Prop) :
  buffer_wf b -> m_index b <= maxCodeSize -> Z.of_nat (length bs) <= room b ->
  Z.of_nat (length bs) <= 1024 ->
  (forall b', buffer_wf b' -> code b' = code b ++ (Some <$> bs) ->
     m_index b' = m_index b + Z.of_nat (length bs) -> m_capacity b' = m_capacity b -> Q tt b') ->
  wp (store_at_index bs) b Q.
Proof.
  intros [Hc Hi Hx Hsl Hw] Hmax Hroom Hle HQ. unfold store_at_index, room, maxCodeSize in *.
  wp_step. wp_step.
  destruct (cells_store_Some (m_storage b) (m_index b) bs) as (l & Hl & Hlen & Htake); [lia | lia |].
  wp_step. apply (wp_of_opt _ _ _ _ l Hl). wp_step.
  apply int32_ok; [apply in_int32_true; lia |].
  assert (take (Z.to_nat (m_index b + Z.of_nat (length bs))) l = code b ++ (Some <$> bs)) as Hcode
    by (unfold code; rewrite <- Htake; f_equal; lia).
  apply HQ; [constructor; simpl | done | done | done]; try rewrite Hlen; try lia.
  unfold code. simpl. rewrite Hcode. apply Forall_app. split; [done |].
  apply Forall_fmap, Forall_true. by eexists.
Qed.

(** [m] returns [a] and appends the bytes [bs] where there is room for them. *)
Definition writes {A} (m : BM A) (bs : list Z) (a : A) : Prop := forall b,
  buffer_wf b -> m_index b + Z.of_nat (length bs) <= maxCodeSize ->
  Z.of_nat (length bs) <= room b ->
  wp m b (fun a' b' => a' = a /\ buffer_wf b' /\ code b' = code b ++ (Some <$> bs) /\
    m_index b' = m_index b + Z.of_nat (length bs) /\ room b' = room b - Z.of_nat (length bs)).

(** [m] makes room for an instruction and appends the bytes [bs] of it. *)
Definition formats (m : BM unit) (bs : list Z) : Prop := forall b,
  buffer_wf b -> m_index b + Z.of_nat (length bs) <= maxCodeSize ->
  wp m b (fun _ b' => buffer_wf b' /\ code b' = code b ++ (Some <$> bs) /\
    m_index b' = m_index b + Z.of_nat (length bs) /\ 16 - Z.of_nat (length bs) <= room b').

Lemma putIntegralUnchecked_writes n v :
  (n <= 8)%nat -> writes (putIntegralUnchecked n v) (le_bytes n v) tt.
Proof.
  intros Hn b Hwf Hmax Hroom. rewrite length_le_bytes in *. unfold putIntegralUnchecked.
  wp_step. apply isAvailable_ok; [done | lia | lia |].
  rewrite (proj2 (Z.leb_le _ _)) by lia. wp_step. apply wp_ret.
  apply store_at_index_ok; rewrite ?length_le_bytes; [done | lia | done | lia |].
  intros b' ? ? Hi Hc. split_and!; [done | done | done | done |]. unfold room. lia.
Qed.

Lemma writes_nil : writes (mret tt) [] tt.
Proof.
  intros b Hwf Hmax Hroom. wp_step. simpl. rewrite app_nil_r, Z.add_0_r, Z.sub_0_r. done.
Qed.

Lemma writes_bind {A B} (m : BM A) (f : A -> BM B) bs cs a c :
  writes m bs a -> writes (f a) cs c -> writes (m ≫= f) (bs ++ cs) c.
Proof.
  intros Hm Hf b Hwf Hmax Hroom. rewrite length_app in *. apply wp_bind.
  eapply wp_mono; [apply Hm; [done | lia | lia] |].
  intros a' b1 (-> & Hwf1 & Hc1 & Hi1 & Hr1).
  eapply wp_mono; [apply Hf; [done | lia | lia] |].
  intros c' b2 (-> & Hwf2 & Hc2 & Hi2 & Hr2).
  split_and!; [done | done | | lia | lia].
  by rewrite Hc2, Hc1, fmap_app, app_assoc.
Qed.

Lemma ensureSpace_formats (m : BM unit) bs :
  (length bs <= 16)%nat -> writes m bs tt -> formats (ensureSpace 16;; m) bs.
Proof.
  intros Hlen Hm b Hwf Hmax. wp_step. apply ensureSpace_ok; [done | lia | lia |].
  intros b' Hwf' Hc Hi Hr. eapply wp_mono; [apply Hm; [done | lia | lia] |].
  intros _ b2 (_ & Hwf2 & Hc2 & Hi2 & Hr2). rewrite Hc2, Hc. split_and!; [done | done | lia | lia].
Qed.

(** What follows an instruction's opcode and operands, its immediate. *)
Lemma formats_writes (m : BM unit) (k : BM unit) bs cs :
  (length bs + length cs <= 16)%nat -> formats m bs -> writes k cs tt ->
  formats (m;; k) (bs ++ cs).
Proof.
  intros Hlen Hm Hk b Hwf Hmax. apply wp_bind.
  rewrite length_app in Hmax. eapply wp_mono; [apply Hm; [done | lia] |].
  intros [] b1 (Hwf1 & Hc1 & Hi1 & Hr1). eapply wp_mono; [apply Hk; [done | lia | lia] |].
  intros _ b2 (_ & Hwf2 & Hc2 & Hi2 & Hr2). rewrite length_app.
  split_and!; [done | | lia | lia]. by rewrite Hc2, Hc1, fmap_app, app_assoc.
Qed.

(** A byte put with its own check, alone and before an instruction. *)
Lemma putByte_ok v b :
  buffer_wf b -> m_index b + 1 <= maxCodeSize ->
  wp (putByte v) b (fun _ b' => buffer_wf b' /\ code b' = code b ++ [Some (u8 v)] /\
    m_index b' = m_index b + 1).
Proof.
  intros Hwf Hmax. unfold putByte, putIntegral. apply wp_bind.
  apply ensureSpace_ok; [done | lia | lia |]. intros b1 Hwf1 Hc1 Hi1 Hr1.
  eapply wp_mono; [apply (putIntegralUnchecked_writes 1); [lia | done | simpl; lia | done] |].
  intros [] b2 (_ & Hwf2 & Hc2 & Hi2 & Hr2). split_and!; [done | | simpl in *; lia].
  by rewrite Hc2, Hc1.
Qed.

Lemma putByte_formats v (m : BM unit) bs :
  formats m bs -> formats (putByte v;; m) (u8 v :: bs).
Proof.
  intros Hm b Hwf Hmax. simpl length in *. apply wp_bind.
  eapply wp_mono; [apply putByte_ok; [done | lia] |]. intros [] b2 (Hwf2 & Hc2 & Hi2).
  eapply wp_mono; [apply Hm; [done | lia] |]. intros _ b3 (Hwf3 & Hc3 & Hi3 & Hr3).
  split_and!; [done | | lia | lia]. by rewrite Hc3, Hc2, <- app_assoc.
Qed.
