(* ===== verification/X86Formatter.v ===== *)
(** * The x86 instruction formatter

    The registers, opcodes and [X86InstructionFormatter] of
    JavaScriptCore/assembler/X86Assembler.h: REX prefixes, opcode bytes,
    mod/rm and SIB bytes and displacements, written into the buffer.  The
    class [Target] is the build, [CPU(X86_64)] or 32-bit.  Overloaded methods
    have a suffix for their operands: [_r] a register in the opcode, [_rr] two
    registers, [_m] base and offset, [_sib] base, index, scale and offset,
    [_addr] an absolute address, [_group] an opcode extension.  The lemmas
    give the bytes each of them writes. *)

From stdpp Require Import base numbers list.
From S2P Require Import Prelude AssemblerBuffer.

#[local] Open Scope Z_scope.

(** The build: whether [CPU(X86_64)] holds. *)
Class Target := x86_64 : bool.

(** ** Registers *)

Inductive RegisterID :=
  | eax | ecx | edx | ebx | esp | ebp | esi | edi | r8 | r9 | r10 | r11 | r12 | r13 | r14
  | r15.

Definition RegisterID_code (r : RegisterID) : Z :=
  match r with
  | eax => 0 | ecx => 1 | edx => 2 | ebx => 3 | esp => 4 | ebp => 5 | esi => 6 | edi => 7
  | r8 => 8 | r9 => 9 | r10 => 10 | r11 => 11 | r12 => 12 | r13 => 13 | r14 => 14
  | r15 => 15
  end.

Coercion RegisterID_code : RegisterID >-> Z.

Inductive XMMRegisterID :=
  | xmm0 | xmm1 | xmm2 | xmm3 | xmm4 | xmm5 | xmm6 | xmm7 | xmm8 | xmm9 | xmm10 | xmm11
  | xmm12 | xmm13 | xmm14 | xmm15.

Definition XMMRegisterID_code (r : XMMRegisterID) : Z :=
  match r with
  | xmm0 => 0 | xmm1 => 1 | xmm2 => 2 | xmm3 => 3 | xmm4 => 4 | xmm5 => 5 | xmm6 => 6
  | xmm7 => 7 | xmm8 => 8 | xmm9 => 9 | xmm10 => 10 | xmm11 => 11 | xmm12 => 12
  | xmm13 => 13 | xmm14 => 14 | xmm15 => 15
  end.

Coercion XMMRegisterID_code : XMMRegisterID >-> Z.

Inductive Condition :=
  | ConditionO | ConditionNO | ConditionB | ConditionAE | ConditionE | ConditionNE
  | ConditionBE | ConditionA | ConditionS | ConditionNS | ConditionP | ConditionNP
  | ConditionL | ConditionGE | ConditionLE | ConditionG.

Definition Condition_code (r : Condition) : Z :=
  match r with
  | ConditionO => 0 | ConditionNO => 1 | ConditionB => 2 | ConditionAE => 3
  | ConditionE => 4 | ConditionNE => 5 | ConditionBE => 6 | ConditionA => 7
  | ConditionS => 8 | ConditionNS => 9 | ConditionP => 10 | ConditionNP => 11
  | ConditionL => 12 | ConditionGE => 13 | ConditionLE => 14 | ConditionG => 15
  end.

Coercion Condition_code : Condition >-> Z.

Definition ConditionC : Condition := ConditionB.
Definition ConditionNC : Condition := ConditionAE.

(** Registers [r8] and above exist in the 64-bit build only. *)
Definition has_reg `{!Target} (r : Z) : bool := x86_64 || (r <? 8).

(** ** Opcodes: enumerations used as integers *)

Definition OP_ADD_EvGv : Z := 0x01.
Definition OP_ADD_GvEv : Z := 0x03.
Definition OP_OR_EvGv : Z := 0x09.
Definition OP_OR_GvEv : Z := 0x0B.
Definition OP_2BYTE_ESCAPE : Z := 0x0F.
Definition OP_AND_EvGv : Z := 0x21.
Definition OP_AND_GvEv : Z := 0x23.
Definition OP_SUB_EvGv : Z := 0x29.
Definition OP_SUB_GvEv : Z := 0x2B.
Definition PRE_PREDICT_BRANCH_NOT_TAKEN : Z := 0x2E.
Definition OP_XOR_EvGv : Z := 0x31.
Definition OP_XOR_GvEv : Z := 0x33.
Definition OP_CMP_EvGv : Z := 0x39.
Definition OP_CMP_GvEv : Z := 0x3B.
Definition PRE_REX : Z := 0x40.
Definition OP_PUSH_EAX : Z := 0x50.
Definition OP_POP_EAX : Z := 0x58.
Definition OP_MOVSXD_GvEv : Z := 0x63.
Definition PRE_OPERAND_SIZE : Z := 0x66.
Definition PRE_SSE_66 : Z := 0x66.
Definition OP_PUSH_Iz : Z := 0x68.
Definition OP_IMUL_GvEvIz : Z := 0x69.
Definition OP_GROUP1_EbIb : Z := 0x80.
Definition OP_GROUP1_EvIz : Z := 0x81.
Definition OP_GROUP1_EvIb : Z := 0x83.
Definition OP_TEST_EbGb : Z := 0x84.
Definition OP_TEST_EvGv : Z := 0x85.
Definition OP_XCHG_EvGv : Z := 0x87.
Definition OP_MOV_EbGb : Z := 0x88.
Definition OP_MOV_EvGv : Z := 0x89.
Definition OP_MOV_GvEv : Z := 0x8B.
Definition OP_LEA : Z := 0x8D.
Definition OP_GROUP1A_Ev : Z := 0x8F.
Definition OP_NOP : Z := 0x90.
Definition OP_CDQ : Z := 0x99.
Definition OP_MOV_EAXOv : Z := 0xA1.
Definition OP_MOV_OvEAX : Z := 0xA3.
Definition OP_MOV_EAXIv : Z := 0xB8.
Definition OP_GROUP2_EvIb : Z := 0xC1.
Definition OP_RET : Z := 0xC3.
Definition OP_GROUP11_EvIb : Z := 0xC6.
Definition OP_GROUP11_EvIz : Z := 0xC7.
Definition OP_INT3 : Z := 0xCC.
Definition OP_GROUP2_Ev1 : Z := 0xD1.
Definition OP_GROUP2_EvCL : Z := 0xD3.
Definition OP_ESCAPE_DD : Z := 0xDD.
Definition OP_CALL_rel32 : Z := 0xE8.
Definition OP_JMP_rel32 : Z := 0xE9.
Definition PRE_SSE_F2 : Z := 0xF2.
Definition PRE_SSE_F3 : Z := 0xF3.
Definition OP_HLT : Z := 0xF4.
Definition OP_GROUP3_EbIb : Z := 0xF6.
Definition OP_GROUP3_Ev : Z := 0xF7.
Definition OP_GROUP3_EvIz : Z := 0xF7.
Definition OP_GROUP5_Ev : Z := 0xFF.

Definition OP2_MOVSD_VsdWsd : Z := 0x10.
Definition OP2_MOVSD_WsdVsd : Z := 0x11.
Definition OP2_MOVSS_VsdWsd : Z := 0x10.
Definition OP2_MOVSS_WsdVsd : Z := 0x11.
Definition OP2_CVTSI2SD_VsdEd : Z := 0x2A.
Definition OP2_CVTTSD2SI_GdWsd : Z := 0x2C.
Definition OP2_UCOMISD_VsdWsd : Z := 0x2E.
Definition OP2_ADDSD_VsdWsd : Z := 0x58.
Definition OP2_MULSD_VsdWsd : Z := 0x59.
Definition OP2_CVTSD2SS_VsdWsd : Z := 0x5A.
Definition OP2_CVTSS2SD_VsdWsd : Z := 0x5A.
Definition OP2_SUBSD_VsdWsd : Z := 0x5C.
Definition OP2_DIVSD_VsdWsd : Z := 0x5E.
Definition OP2_SQRTSD_VsdWsd : Z := 0x51.
Definition OP2_ANDNPD_VpdWpd : Z := 0x55.
Definition OP2_XORPD_VpdWpd : Z := 0x57.
Definition OP2_MOVD_VdEd : Z := 0x6E.
Definition OP2_MOVD_EdVd : Z := 0x7E.
Definition OP2_JCC_rel32 : Z := 0x80.
Definition OP_SETCC : Z := 0x90.
Definition OP2_3BYTE_ESCAPE : Z := 0xAE.
Definition OP2_IMUL_GvEv : Z := 0xAF.
Definition OP2_MOVZX_GvEb : Z := 0xB6.
Definition OP2_MOVSX_GvEb : Z := 0xBE.
Definition OP2_MOVZX_GvEw : Z := 0xB7.
Definition OP2_MOVSX_GvEw : Z := 0xBF.
Definition OP2_PEXTRW_GdUdIb : Z := 0xC5.
Definition OP2_PSLLQ_UdqIb : Z := 0x73.
Definition OP2_PSRLQ_UdqIb : Z := 0x73.
Definition OP2_POR_VdqWdq : Z := 0xEB.

Definition OP3_MFENCE : Z := 0xF0.

Definition GROUP1_OP_ADD : Z := 0.
Definition GROUP1_OP_OR : Z := 1.
Definition GROUP1_OP_ADC : Z := 2.
Definition GROUP1_OP_AND : Z := 4.
Definition GROUP1_OP_SUB : Z := 5.
Definition GROUP1_OP_XOR : Z := 6.
Definition GROUP1_OP_CMP : Z := 7.
Definition GROUP1A_OP_POP : Z := 0.
Definition GROUP2_OP_ROL : Z := 0.
Definition GROUP2_OP_ROR : Z := 1.
Definition GROUP2_OP_RCL : Z := 2.
Definition GROUP2_OP_RCR : Z := 3.
Definition GROUP2_OP_SHL : Z := 4.
Definition GROUP2_OP_SHR : Z := 5.
Definition GROUP2_OP_SAR : Z := 7.
Definition GROUP3_OP_TEST : Z := 0.
Definition GROUP3_OP_NOT : Z := 2.
Definition GROUP3_OP_NEG : Z := 3.
Definition GROUP3_OP_IDIV : Z := 7.
Definition GROUP5_OP_CALLN : Z := 2.
Definition GROUP5_OP_JMPN : Z := 4.
Definition GROUP5_OP_PUSH : Z := 6.
Definition GROUP11_MOV : Z := 0.
Definition GROUP14_OP_PSLLQ : Z := 6.
Definition GROUP14_OP_PSRLQ : Z := 2.
Definition ESCAPE_DD_FSTP_doubleReal : Z := 3.

Definition jccRel32 (cond : Condition) : Z := OP2_JCC_rel32 + cond.
Definition setccOpcode (cond : Condition) : Z := OP_SETCC + cond.
(** A signed 8-bit value in 32 bits. *)
Definition CAN_SIGN_EXTEND_8_32 (value : Z) : bool := value =? s8 value.

Section formatter.
Context `{!Target}.

(** ** Internals: REX, mod/rm and SIB bytes *)

Definition maxInstructionSize : Z := 16.

Definition ModRmMemoryNoDisp : Z := 0.
Definition ModRmMemoryDisp8 : Z := 1.
Definition ModRmMemoryDisp32 : Z := 2.
Definition ModRmRegister : Z := 3.

Definition noBase : RegisterID := ebp.
Definition hasSib : RegisterID := esp.
Definition noIndex : RegisterID := esp.
Definition noBase2 : RegisterID := r13.
Definition hasSib2 : RegisterID := r12.

Definition regRequiresRex (reg : Z) : bool := x86_64 && (r8 <=? reg).
Definition byteRegRequiresRex (reg : Z) : bool := x86_64 && (esp <=? reg).

Definition emitRex (w : bool) (r x b : Z) : BM unit :=
  asm_assert (0 <=? r);;
  asm_assert (0 <=? x);;
  asm_assert (0 <=? b);;
  putByteUnchecked
    (Z.lor (Z.lor (Z.lor (Z.lor PRE_REX (Z.shiftl (b2z w) 3)) (Z.shiftl (Z.shiftr r 3) 2))
                  (Z.shiftl (Z.shiftr x 3) 1)) (Z.shiftr b 3)).

Definition emitRexW (r x b : Z) : BM unit := emitRex true r x b.

Definition emitRexIf (condition : bool) (r x b : Z) : BM unit :=
  if x86_64 then mwhen condition (emitRex false r x b) else mret tt.

Definition emitRexIfNeeded (r x b : Z) : BM unit :=
  if x86_64
  then emitRexIf (regRequiresRex r || regRequiresRex x || regRequiresRex b) r x b
  else mret tt.

Definition putModRm (mode reg rm : Z) : BM unit :=
  putByteUnchecked
    (Z.lor (Z.lor (Z.shiftl mode 6) (Z.shiftl (Z.land reg 7) 3)) (Z.land rm 7)).

Definition putModRmSib (mode reg base index scale : Z) : BM unit :=
  asm_assert (negb (mode =? ModRmRegister));;
  putModRm mode reg hasSib;;
  putByteUnchecked
    (Z.lor (Z.lor (Z.shiftl scale 6) (Z.shiftl (Z.land index 7) 3)) (Z.land base 7)).

Definition registerModRM (reg rm : Z) : BM unit := putModRm ModRmRegister reg rm.

(** [base] in the mod/rm byte means that a SIB byte follows. *)
Definition is_hasSib (base : Z) : bool := (base =? hasSib) || (x86_64 && (base =? hasSib2)).
(** [base] without displacement means that there is no base. *)
Definition is_noBase (base : Z) : bool := (base =? noBase) || (x86_64 && (base =? noBase2)).

Definition memoryModRM (reg base offset : Z) : BM unit :=
  if is_hasSib base then
    if offset =? 0 then putModRmSib ModRmMemoryNoDisp reg base noIndex 0
    else if CAN_SIGN_EXTEND_8_32 offset then
      putModRmSib ModRmMemoryDisp8 reg base noIndex 0;;
      putByteUnchecked offset
    else
      putModRmSib ModRmMemoryDisp32 reg base noIndex 0;;
      putIntUnchecked offset
  else
    if (offset =? 0) && negb (is_noBase base) then putModRm ModRmMemoryNoDisp reg base
    else if CAN_SIGN_EXTEND_8_32 offset then
      putModRm ModRmMemoryDisp8 reg base;;
      putByteUnchecked offset
    else
      putModRm ModRmMemoryDisp32 reg base;;
      putIntUnchecked offset.

Definition memoryModRM_disp8 (reg base offset : Z) : BM unit :=
  asm_assert (CAN_SIGN_EXTEND_8_32 offset);;
  if is_hasSib base then
    putModRmSib ModRmMemoryDisp8 reg base noIndex 0;;
    putByteUnchecked offset
  else
    putModRm ModRmMemoryDisp8 reg base;;
    putByteUnchecked offset.

Definition memoryModRM_disp32 (reg base offset : Z) : BM unit :=
  if is_hasSib base then
    putModRmSib ModRmMemoryDisp32 reg base noIndex 0;;
    putIntUnchecked offset
  else
    putModRm ModRmMemoryDisp32 reg base;;
    putIntUnchecked offset.

Definition memoryModRM_sib (reg base index scale offset : Z) : BM unit :=
  asm_assert (negb (index =? noIndex));;
  if (offset =? 0) && negb (is_noBase base) then
    putModRmSib ModRmMemoryNoDisp reg base index scale
  else if CAN_SIGN_EXTEND_8_32 offset then
    putModRmSib ModRmMemoryDisp8 reg base index scale;;
    putByteUnchecked offset
  else
    putModRmSib ModRmMemoryDisp32 reg base index scale;;
    putIntUnchecked offset.

Definition memoryModRM_addr (reg address : Z) : BM unit :=
  putModRm ModRmMemoryNoDisp reg noBase;;
  putIntUnchecked address.

(** ** Legacy prefixes and word-sized operands *)

Definition prefix (pre : Z) : BM unit := putByte pre.

Definition oneByteOp (opcode : Z) : BM unit :=
  ensureSpace maxInstructionSize;;
  putByteUnchecked opcode.

Definition oneByteOp_r (opcode reg : Z) : BM unit :=
  ensureSpace maxInstructionSize;;
  emitRexIfNeeded 0 0 reg;;
  putByteUnchecked (opcode + Z.land reg 7).

Definition oneByteOp_rr (opcode reg rm : Z) : BM unit :=
  ensureSpace maxInstructionSize;;
  emitRexIfNeeded reg 0 rm;;
  putByteUnchecked opcode;;
  registerModRM reg rm.

Definition oneByteOp_m (opcode reg base offset : Z) : BM unit :=
  ensureSpace maxInstructionSize;;
  emitRexIfNeeded reg 0 base;;
  putByteUnchecked opcode;;
  memoryModRM reg base offset.

Definition oneByteOp_disp32 (opcode reg base offset : Z) : BM unit :=
  ensureSpace maxInstructionSize;;
  emitRexIfNeeded reg 0 base;;
  putByteUnchecked opcode;;
  memoryModRM_disp32 reg base offset.

Definition oneByteOp_disp8 (opcode reg base offset : Z) : BM unit :=
  ensureSpace maxInstructionSize;;
  emitRexIfNeeded reg 0 base;;
  putByteUnchecked opcode;;
  memoryModRM_disp8 reg base offset.

Definition oneByteOp_sib (opcode reg base index scale offset : Z) : BM unit :=
  ensureSpace maxInstructionSize;;
  emitRexIfNeeded reg index base;;
  putByteUnchecked opcode;;
  memoryModRM_sib reg base index scale offset.

Definition oneByteOp_addr (opcode reg address : Z) : BM unit :=
  ensureSpace maxInstructionSize;;
  putByteUnchecked opcode;;
  memoryModRM_addr reg address.

Definition twoByteOp (opcode : Z) : BM unit :=
  ensureSpace maxInstructionSize;;
  putByteUnchecked OP_2BYTE_ESCAPE;;
  putByteUnchecked opcode.

Definition twoByteOp_rr (opcode reg rm : Z) : BM unit :=
  ensureSpace maxInstructionSize;;
  emitRexIfNeeded reg 0 rm;;
  putByteUnchecked OP_2BYTE_ESCAPE;;
  putByteUnchecked opcode;;
  registerModRM reg rm.

Definition twoByteOp_m (opcode reg base offset : Z) : BM unit :=
  ensureSpace maxInstructionSize;;
  emitRexIfNeeded reg 0 base;;
  putByteUnchecked OP_2BYTE_ESCAPE;;
  putByteUnchecked opcode;;
  memoryModRM reg base offset.

Definition twoByteOp_sib (opcode reg base index scale offset : Z) : BM unit :=
  ensureSpace maxInstructionSize;;
  emitRexIfNeeded reg index base;;
  putByteUnchecked OP_2BYTE_ESCAPE;;
  putByteUnchecked opcode;;
  memoryModRM_sib reg base index scale offset.

Definition twoByteOp_addr (opcode reg address : Z) : BM unit :=
  ensureSpace maxInstructionSize;;
  putByteUnchecked OP_2BYTE_ESCAPE;;
  putByteUnchecked opcode;;
  memoryModRM_addr reg address.

Definition threeByteOp (opcode : Z) : BM unit :=
  ensureSpace maxInstructionSize;;
  putByteUnchecked OP_2BYTE_ESCAPE;;
  putByteUnchecked OP2_3BYTE_ESCAPE;;
  putByteUnchecked opcode.

(** ** Quad-word operands *)

Definition oneByteOp64 (opcode : Z) : BM unit :=
  ensureSpace maxInstructionSize;;
  emitRexW 0 0 0;;
  putByteUnchecked opcode.

Definition oneByteOp64_r (opcode reg : Z) : BM unit :=
  ensureSpace maxInstructionSize;;
  emitRexW 0 0 reg;;
  putByteUnchecked (opcode + Z.land reg 7).

Definition oneByteOp64_rr (opcode reg rm : Z) : BM unit :=
  ensureSpace maxInstructionSize;;
  emitRexW reg 0 rm;;
  putByteUnchecked opcode;;
  registerModRM reg rm.

Definition oneByteOp64_m (opcode reg base offset : Z) : BM unit :=
  ensureSpace maxInstructionSize;;
  emitRexW reg 0 base;;
  putByteUnchecked opcode;;
  memoryModRM reg base offset.

Definition oneByteOp64_disp32 (opcode reg base offset : Z) : BM unit :=
  ensureSpace maxInstructionSize;;
  emitRexW reg 0 base;;
  putByteUnchecked opcode;;
  memoryModRM_disp32 reg base offset.

Definition oneByteOp64_disp8 (opcode reg base offset : Z) : BM unit :=
  ensureSpace maxInstructionSize;;
  emitRexW reg 0 base;;
  putByteUnchecked opcode;;
  memoryModRM_disp8 reg base offset.

Definition oneByteOp64_sib (opcode reg base index scale offset : Z) : BM unit :=
  ensureSpace maxInstructionSize;;
  emitRexW reg index base;;
  putByteUnchecked opcode;;
  memoryModRM_sib reg base index scale offset.

Definition twoByteOp64_rr (opcode reg rm : Z) : BM unit :=
  ensureSpace maxInstructionSize;;
  emitRexW reg 0 rm;;
  putByteUnchecked OP_2BYTE_ESCAPE;;
  putByteUnchecked opcode;;
  registerModRM reg rm.

(** ** Byte operands *)

Definition oneByteOp8_group (opcode groupOp rm : Z) : BM unit :=
  ensureSpace maxInstructionSize;;
  emitRexIf (byteRegRequiresRex rm) 0 0 rm;;
  putByteUnchecked opcode;;
  registerModRM groupOp rm.

Definition oneByteOp8_rr (opcode reg rm : Z) : BM unit :=
  ensureSpace maxInstructionSize;;
  emitRexIf (byteRegRequiresRex reg || byteRegRequiresRex rm) reg 0 rm;;
  putByteUnchecked opcode;;
  registerModRM reg rm.

Definition oneByteOp8_m (opcode reg base offset : Z) : BM unit :=
  ensureSpace maxInstructionSize;;
  emitRexIf (byteRegRequiresRex reg || byteRegRequiresRex base) reg 0 base;;
  putByteUnchecked opcode;;
  memoryModRM reg base offset.

Definition oneByteOp8_sib (opcode reg base index scale offset : Z) : BM unit :=
  ensureSpace maxInstructionSize;;
  emitRexIf (byteRegRequiresRex reg || regRequiresRex index || regRequiresRex base)
    reg index base;;
  putByteUnchecked opcode;;
  memoryModRM_sib reg base index scale offset.

Definition twoByteOp8_rr (opcode reg rm : Z) : BM unit :=
  ensureSpace maxInstructionSize;;
  emitRexIf (byteRegRequiresRex reg || byteRegRequiresRex rm) reg 0 rm;;
  putByteUnchecked OP_2BYTE_ESCAPE;;
  putByteUnchecked opcode;;
  registerModRM reg rm.

Definition twoByteOp8_group (opcode groupOp rm : Z) : BM unit :=
  ensureSpace maxInstructionSize;;
  emitRexIf (byteRegRequiresRex rm) 0 0 rm;;
  putByteUnchecked OP_2BYTE_ESCAPE;;
  putByteUnchecked opcode;;
  registerModRM groupOp rm.

(** ** Immediates *)

Definition immediate8 (imm : Z) : BM unit := putByteUnchecked imm.
Definition immediate16 (imm : Z) : BM unit := putShortUnchecked imm.
Definition immediate32 (imm : Z) : BM unit := putIntUnchecked imm.
Definition immediate64 (imm : Z) : BM unit := putInt64Unchecked imm.

Definition immediateRel32 : BM AssemblerLabel := putIntUnchecked 0;; buffer_label.

(** ** The bytes they write *)

Definition enc_rex (w : bool) (r x b : Z) : Z :=
  u8 (Z.lor (Z.lor (Z.lor (Z.lor PRE_REX (Z.shiftl (b2z w) 3)) (Z.shiftl (Z.shiftr r 3) 2))
                   (Z.shiftl (Z.shiftr x 3) 1)) (Z.shiftr b 3)).

Definition enc_modrm (mode reg rm : Z) : Z :=
  u8 (Z.lor (Z.lor (Z.shiftl mode 6) (Z.shiftl (Z.land reg 7) 3)) (Z.land rm 7)).

Definition enc_rexIf (condition : bool) (r x b : Z) : list Z :=
  if x86_64 then if condition then [enc_rex false r x b] else [] else [].

Definition enc_rexIfNeeded (r x b : Z) : list Z :=
  enc_rexIf (regRequiresRex r || regRequiresRex x || regRequiresRex b) r x b.

(** The mod/rm byte, with a SIB byte where the base needs one. *)
Definition enc_base (mode reg base : Z) : list Z :=
  if is_hasSib base then [enc_modrm mode reg hasSib; enc_modrm 0 noIndex base]
  else [enc_modrm mode reg base].

(** Mode and displacement bytes for an offset from a base. *)
Definition disp_mode (base offset : Z) : Z :=
  if (offset =? 0) && negb (is_noBase base) then ModRmMemoryNoDisp
  else if CAN_SIGN_EXTEND_8_32 offset then ModRmMemoryDisp8 else ModRmMemoryDisp32.
Definition enc_disp (mode offset : Z) : list Z :=
  if mode =? ModRmMemoryDisp8 then le_bytes 1 offset
  else if mode =? ModRmMemoryDisp32 then le_bytes 4 offset else [].

Definition enc_memory_at (mode reg base offset : Z) : list Z :=
  enc_base mode reg base ++ enc_disp mode offset.
Definition enc_memory (reg base offset : Z) : list Z :=
  enc_memory_at (disp_mode base offset) reg base offset.
Definition enc_memory_sib (reg base index scale offset : Z) : list Z :=
  [enc_modrm (disp_mode base offset) reg hasSib; enc_modrm scale index base] ++
  enc_disp (disp_mode base offset) offset.

Lemma writes_cast {A} (m : BM A) bs cs a : writes m bs a -> bs = cs -> writes m cs a.
Proof. by intros ? <-. Qed.

Lemma writes_assert {A} (c : bool) (m : BM A) bs a :
  c = true -> writes m bs a -> writes (asm_assert c;; m) bs a.
Proof. by intros ->. Qed.

Lemma writes_byte v : writes (putByteUnchecked v) [u8 v] tt.
Proof. apply (putIntegralUnchecked_writes 1). lia. Qed.

Lemma writes_int v : writes (putIntUnchecked v) (le_bytes 4 v) tt.
Proof. apply (putIntegralUnchecked_writes 4). lia. Qed.

Lemma writes_when (c : bool) (m : BM unit) bs :
  writes m bs tt -> writes (mwhen c m) (if c then bs else []) tt.
Proof. destruct c; [done |]. intros _. apply writes_nil. Qed.

Lemma writes_modrm mode reg rm : writes (putModRm mode reg rm) [enc_modrm mode reg rm] tt.
Proof. apply writes_byte. Qed.

Lemma writes_modrm_sib mode reg base index scale :
  mode <> ModRmRegister ->
  writes (putModRmSib mode reg base index scale)
    [enc_modrm mode reg hasSib; enc_modrm scale index base] tt.
Proof.
  intros Hm. apply writes_assert; [by apply negb_true_iff, Z.eqb_neq |].
  apply (writes_bind _ _ [_] [_] tt); [apply writes_modrm | apply writes_byte].
Qed.

Lemma writes_rex w r x b : 0 <= r -> 0 <= x -> 0 <= b -> writes (emitRex w r x b) [enc_rex w r x b] tt.
Proof.
  intros. unfold emitRex. do 3 (apply writes_assert; [by apply Z.leb_le |]). apply writes_byte.
Qed.

Lemma writes_rexIf c r x b :
  0 <= r -> 0 <= x -> 0 <= b -> writes (emitRexIf c r x b) (enc_rexIf c r x b) tt.
Proof.
  intros. unfold emitRexIf, enc_rexIf. destruct x86_64; [| apply writes_nil].
  by apply writes_when, writes_rex.
Qed.

Lemma writes_rexIfNeeded r x b :
  0 <= r -> 0 <= x -> 0 <= b -> writes (emitRexIfNeeded r x b) (enc_rexIfNeeded r x b) tt.
Proof.
  intros. unfold emitRexIfNeeded, enc_rexIfNeeded.
  destruct x86_64 eqn:E; [by apply writes_rexIf |]. unfold enc_rexIf. rewrite E. apply writes_nil.
Qed.

Lemma hasSib_not_noBase base : is_hasSib base = true -> is_noBase base = false.
Proof.
  unfold is_hasSib, is_noBase. destruct x86_64; simpl;
    destruct (Z.eqb_spec base 4), (Z.eqb_spec base 12), (Z.eqb_spec base 5), (Z.eqb_spec base 13);
    simpl; (done || lia).
Qed.

(** One byte of mode, an optional SIB byte, and the displacement. *)
Ltac writes_memory :=
  lazymatch goal with
  | |- writes (mbind _ _) _ _ => eapply (writes_bind _ _ _ _ tt); writes_memory
  | |- writes (putModRmSib _ _ _ _ _) _ _ => apply writes_modrm_sib; discriminate
  | |- writes (putModRm _ _ _) _ _ => apply writes_modrm
  | |- writes (putByteUnchecked _) _ _ => apply writes_byte
  | |- writes (putIntUnchecked _) _ _ => apply writes_int
  end.

Lemma writes_memoryModRM reg base offset :
  writes (memoryModRM reg base offset) (enc_memory reg base offset) tt.
Proof.
  unfold memoryModRM, enc_memory, enc_memory_at, enc_base, disp_mode.
  destruct (is_hasSib base) eqn:Hs; [rewrite (hasSib_not_noBase base Hs) |];
    destruct (offset =? 0), (is_noBase base), (CAN_SIGN_EXTEND_8_32 offset); cbn [andb negb];
    (eapply writes_cast; [writes_memory | reflexivity]).
Qed.

Lemma writes_memoryModRM_disp8 reg base offset :
  CAN_SIGN_EXTEND_8_32 offset = true ->
  writes (memoryModRM_disp8 reg base offset) (enc_memory_at ModRmMemoryDisp8 reg base offset) tt.
Proof.
  intros Hc. apply writes_assert; [done |]. unfold enc_memory_at, enc_base.
  destruct (is_hasSib base); (eapply writes_cast; [writes_memory | reflexivity]).
Qed.

Lemma writes_memoryModRM_disp32 reg base offset :
  writes (memoryModRM_disp32 reg base offset) (enc_memory_at ModRmMemoryDisp32 reg base offset) tt.
Proof.
  unfold memoryModRM_disp32, enc_memory_at, enc_base.
  destruct (is_hasSib base); (eapply writes_cast; [writes_memory | reflexivity]).
Qed.

Lemma writes_memoryModRM_sib reg base (index : Z) scale offset :
  index <> noIndex ->
  writes (memoryModRM_sib reg base index scale offset) (enc_memory_sib reg base index scale offset) tt.
Proof.
  intros Hi. unfold memoryModRM_sib. apply writes_assert; [by apply negb_true_iff, Z.eqb_neq |].
  unfold enc_memory_sib, disp_mode.
  destruct (offset =? 0), (is_noBase base), (CAN_SIGN_EXTEND_8_32 offset); cbn [andb negb];
    (eapply writes_cast; [writes_memory | reflexivity]).
Qed.

Lemma writes_memoryModRM_addr reg address :
  writes (memoryModRM_addr reg address)
    (enc_modrm ModRmMemoryNoDisp reg noBase :: le_bytes 4 address) tt.
Proof. eapply writes_cast; [unfold memoryModRM_addr; writes_memory | reflexivity]. Qed.

(** ** The bytes of the instruction formats

    [op] stands for the opcode bytes.  The sizes leave room for an immediate
    of four bytes after every format, and of eight after those without a
    memory operand. *)

Lemma length_enc_rexIf c r x b : (length (enc_rexIf c r x b) <= 1)%nat.
Proof. unfold enc_rexIf. repeat case_match; simpl; lia. Qed.

Lemma length_enc_disp mode offset : (length (enc_disp mode offset) <= 4)%nat.
Proof. unfold enc_disp. repeat case_match; simpl; lia. Qed.

Lemma length_enc_memory_at mode reg base offset :
  (length (enc_memory_at mode reg base offset) <= 6)%nat.
Proof.
  unfold enc_memory_at, enc_base. rewrite length_app.
  pose proof (length_enc_disp mode offset). case_match; simpl; lia.
Qed.

Lemma length_enc_memory_sib reg base index scale offset :
  (length (enc_memory_sib reg base index scale offset) <= 6)%nat.
Proof.
  unfold enc_memory_sib. rewrite length_app.
  pose proof (length_enc_disp (disp_mode base offset) offset). simpl; lia.
Qed.

Lemma formats_cast (m : BM unit) bs cs : formats m bs -> bs = cs -> formats m cs.
Proof. by intros ? <-. Qed.

(** A format that writes at most [k] bytes. *)
Definition sized (k : nat) (m : BM unit) : Prop :=
  exists bs, (length bs <= k)%nat /\ formats m bs.

Lemma sized_op k m bs : (length bs <= k)%nat -> (k <= 16)%nat -> writes m bs tt ->
  sized k (ensureSpace maxInstructionSize;; m).
Proof. intros. exists bs. split; [done |]. apply ensureSpace_formats; [lia | done]. Qed.

Lemma sized_imm k n (m k2 : BM unit) bs :
  sized k m -> writes k2 bs tt -> (length bs = n)%nat -> (k + n <= 16)%nat ->
  sized (k + n) (m;; k2).
Proof.
  intros (cs & Hl & Hf) Hw <- Hle. exists (cs ++ bs). rewrite length_app. split; [lia |].
  apply formats_writes; [lia | done | done].
Qed.

Lemma writes_quad v : writes (putInt64Unchecked v) (le_bytes 8 v) tt.
Proof. apply (putIntegralUnchecked_writes 8). lia. Qed.

Lemma writes_short v : writes (putShortUnchecked v) (le_bytes 2 v) tt.
Proof. apply (putIntegralUnchecked_writes 2). lia. Qed.

(** Lengths of encodings. *)
Ltac enc_length :=
  unfold enc_rexIfNeeded, enc_memory; rewrite ?length_app;
  repeat match goal with
  | |- context [length (enc_rexIf ?c ?r ?x ?b)] =>
      lazymatch goal with
      | _ : (length (enc_rexIf c r x b) <= 1)%nat |- _ => fail
      | _ => pose proof (length_enc_rexIf c r x b)
      end
  | |- context [length (enc_memory_at ?m ?r ?b ?o)] =>
      lazymatch goal with
      | _ : (length (enc_memory_at m r b o) <= 6)%nat |- _ => fail
      | _ => pose proof (length_enc_memory_at m r b o)
      end
  | |- context [length (enc_memory_sib ?r ?b ?i ?s ?o)] =>
      lazymatch goal with
      | _ : (length (enc_memory_sib r b i s o) <= 6)%nat |- _ => fail
      | _ => pose proof (length_enc_memory_sib r b i s o)
      end
  end; cbn [length le_bytes]; lia.

(** The parts of a format, in the order they are written. *)
Ltac writes_op :=
  lazymatch goal with
  | |- writes (mbind _ _) _ _ => eapply (writes_bind _ _ _ _ tt); writes_op
  | |- writes (emitRexIfNeeded _ _ _) _ _ => apply writes_rexIfNeeded; done
  | |- writes (emitRexIf _ _ _ _) _ _ => apply writes_rexIf; done
  | |- writes (emitRexW _ _ _) _ _ => apply writes_rex; done
  | |- writes (putByteUnchecked _) _ _ => apply writes_byte
  | |- writes (registerModRM _ _) _ _ => apply writes_modrm
  | |- writes (memoryModRM _ _ _) _ _ => apply writes_memoryModRM
  | |- writes (memoryModRM_disp8 _ _ _) _ _ => apply writes_memoryModRM_disp8; done
  | |- writes (memoryModRM_disp32 _ _ _) _ _ => apply writes_memoryModRM_disp32
  | |- writes (memoryModRM_sib _ _ _ _ _) _ _ => apply writes_memoryModRM_sib; done
  | |- writes (memoryModRM_addr _ _) _ _ => apply writes_memoryModRM_addr
  end.

Ltac formats_op f :=
  intros; unfold f; apply ensureSpace_formats; [enc_length | writes_op].
Ltac sized_by H := intros; eexists; split; [| by apply H]; enc_length.

Lemma oneByteOp_formats opcode :
  formats (oneByteOp opcode)
    ([u8 opcode]).
Proof. formats_op oneByteOp. Qed.

Lemma oneByteOp_r_formats opcode reg :
  0 <= reg -> formats (oneByteOp_r opcode reg)
    (enc_rexIfNeeded 0 0 reg ++ [u8 (opcode + Z.land reg 7)]).
Proof. formats_op oneByteOp_r. Qed.

Lemma oneByteOp_rr_formats opcode reg rm :
  0 <= reg -> 0 <= rm -> formats (oneByteOp_rr opcode reg rm)
    (enc_rexIfNeeded reg 0 rm ++ [u8 opcode] ++ [enc_modrm ModRmRegister reg rm]).
Proof. formats_op oneByteOp_rr. Qed.

Lemma oneByteOp_m_formats opcode reg base offset :
  0 <= reg -> 0 <= base -> formats (oneByteOp_m opcode reg base offset)
    (enc_rexIfNeeded reg 0 base ++ [u8 opcode] ++ enc_memory reg base offset).
Proof. formats_op oneByteOp_m. Qed.

Lemma oneByteOp_disp32_formats opcode reg base offset :
  0 <= reg -> 0 <= base -> formats (oneByteOp_disp32 opcode reg base offset)
    (enc_rexIfNeeded reg 0 base ++ [u8 opcode] ++ enc_memory_at ModRmMemoryDisp32 reg base offset).
Proof. formats_op oneByteOp_disp32. Qed.

Lemma oneByteOp_disp8_formats opcode reg base offset :
  0 <= reg -> 0 <= base -> CAN_SIGN_EXTEND_8_32 offset = true -> formats (oneByteOp_disp8 opcode reg base offset)
    (enc_rexIfNeeded reg 0 base ++ [u8 opcode] ++ enc_memory_at ModRmMemoryDisp8 reg base offset).
Proof. formats_op oneByteOp_disp8. Qed.

Lemma oneByteOp_sib_formats opcode reg base (index : Z) scale offset :
  0 <= reg -> 0 <= base -> 0 <= index -> index <> noIndex -> formats (oneByteOp_sib opcode reg base index scale offset)
    (enc_rexIfNeeded reg index base ++ [u8 opcode] ++ enc_memory_sib reg base index scale offset).
Proof. formats_op oneByteOp_sib. Qed.

Lemma oneByteOp_addr_formats opcode reg address :
  formats (oneByteOp_addr opcode reg address)
    ([u8 opcode] ++ (enc_modrm ModRmMemoryNoDisp reg noBase :: le_bytes 4 address)).
Proof. formats_op oneByteOp_addr. Qed.

Lemma twoByteOp_formats opcode :
  formats (twoByteOp opcode)
    ([u8 OP_2BYTE_ESCAPE] ++ [u8 opcode]).
Proof. formats_op twoByteOp. Qed.

Lemma twoByteOp_m_formats opcode reg base offset :
  0 <= reg -> 0 <= base -> formats (twoByteOp_m opcode reg base offset)
    (enc_rexIfNeeded reg 0 base ++ [u8 OP_2BYTE_ESCAPE] ++ [u8 opcode] ++ enc_memory reg base offset).
Proof. formats_op twoByteOp_m. Qed.

Lemma twoByteOp_sib_formats opcode reg base (index : Z) scale offset :
  0 <= reg -> 0 <= base -> 0 <= index -> index <> noIndex -> formats (twoByteOp_sib opcode reg base index scale offset)
    (enc_rexIfNeeded reg index base ++ [u8 OP_2BYTE_ESCAPE] ++ [u8 opcode] ++ enc_memory_sib reg base index scale offset).
Proof. formats_op twoByteOp_sib. Qed.

Lemma twoByteOp_addr_formats opcode reg address :
  formats (twoByteOp_addr opcode reg address)
    ([u8 OP_2BYTE_ESCAPE] ++ [u8 opcode] ++ (enc_modrm ModRmMemoryNoDisp reg noBase :: le_bytes 4 address)).
Proof. formats_op twoByteOp_addr. Qed.

Lemma threeByteOp_formats opcode :
  formats (threeByteOp opcode)
    ([u8 OP_2BYTE_ESCAPE] ++ [u8 OP2_3BYTE_ESCAPE] ++ [u8 opcode]).
Proof. formats_op threeByteOp. Qed.

Lemma twoByteOp_rr_formats opcode reg rm :
  0 <= reg -> 0 <= rm -> formats (twoByteOp_rr opcode reg rm)
    (enc_rexIfNeeded reg 0 rm ++ [u8 OP_2BYTE_ESCAPE] ++ [u8 opcode] ++ [enc_modrm ModRmRegister reg rm]).
Proof. formats_op twoByteOp_rr. Qed.

Lemma oneByteOp64_formats opcode :
  formats (oneByteOp64 opcode)
    ([enc_rex true 0 0 0] ++ [u8 opcode]).
Proof. formats_op oneByteOp64. Qed.

Lemma oneByteOp64_r_formats opcode reg :
  0 <= reg -> formats (oneByteOp64_r opcode reg)
    ([enc_rex true 0 0 reg] ++ [u8 (opcode + Z.land reg 7)]).
Proof. formats_op oneByteOp64_r. Qed.

Lemma oneByteOp64_rr_formats opcode reg rm :
  0 <= reg -> 0 <= rm -> formats (oneByteOp64_rr opcode reg rm)
    ([enc_rex true reg 0 rm] ++ [u8 opcode] ++ [enc_modrm ModRmRegister reg rm]).
Proof. formats_op oneByteOp64_rr. Qed.

Lemma oneByteOp64_m_formats opcode reg base offset :
  0 <= reg -> 0 <= base -> formats (oneByteOp64_m opcode reg base offset)
    ([enc_rex true reg 0 base] ++ [u8 opcode] ++ enc_memory reg base offset).
Proof. formats_op oneByteOp64_m. Qed.

Lemma oneByteOp64_disp32_formats opcode reg base offset :
  0 <= reg -> 0 <= base -> formats (oneByteOp64_disp32 opcode reg base offset)
    ([enc_rex true reg 0 base] ++ [u8 opcode] ++ enc_memory_at ModRmMemoryDisp32 reg base offset).
Proof. formats_op oneByteOp64_disp32. Qed.

Lemma oneByteOp64_disp8_formats opcode reg base offset :
  0 <= reg -> 0 <= base -> CAN_SIGN_EXTEND_8_32 offset = true -> formats (oneByteOp64_disp8 opcode reg base offset)
    ([enc_rex true reg 0 base] ++ [u8 opcode] ++ enc_memory_at ModRmMemoryDisp8 reg base offset).
Proof. formats_op oneByteOp64_disp8. Qed.

Lemma oneByteOp64_sib_formats opcode reg base (index : Z) scale offset :
  0 <= reg -> 0 <= base -> 0 <= index -> index <> noIndex -> formats (oneByteOp64_sib opcode reg base index scale offset)
    ([enc_rex true reg index base] ++ [u8 opcode] ++ enc_memory_sib reg base index scale offset).
Proof. formats_op oneByteOp64_sib. Qed.

Lemma twoByteOp64_rr_formats opcode reg rm :
  0 <= reg -> 0 <= rm -> formats (twoByteOp64_rr opcode reg rm)
    ([enc_rex true reg 0 rm] ++ [u8 OP_2BYTE_ESCAPE] ++ [u8 opcode] ++ [enc_modrm ModRmRegister reg rm]).
Proof. formats_op twoByteOp64_rr. Qed.

Lemma oneByteOp8_group_formats opcode groupOp rm :
  0 <= rm -> formats (oneByteOp8_group opcode groupOp rm)
    (enc_rexIf (byteRegRequiresRex rm) 0 0 rm ++ [u8 opcode] ++ [enc_modrm ModRmRegister groupOp rm]).
Proof. formats_op oneByteOp8_group. Qed.

Lemma oneByteOp8_rr_formats opcode reg rm :
  0 <= reg -> 0 <= rm -> formats (oneByteOp8_rr opcode reg rm)
    (enc_rexIf (byteRegRequiresRex reg || byteRegRequiresRex rm) reg 0 rm ++ [u8 opcode] ++ [enc_modrm ModRmRegister reg rm]).
Proof. formats_op oneByteOp8_rr. Qed.

Lemma oneByteOp8_m_formats opcode reg base offset :
  0 <= reg -> 0 <= base -> formats (oneByteOp8_m opcode reg base offset)
    (enc_rexIf (byteRegRequiresRex reg || byteRegRequiresRex base) reg 0 base ++ [u8 opcode] ++ enc_memory reg base offset).
Proof. formats_op oneByteOp8_m. Qed.

Lemma oneByteOp8_sib_formats opcode reg base (index : Z) scale offset :
  0 <= reg -> 0 <= base -> 0 <= index -> index <> noIndex -> formats (oneByteOp8_sib opcode reg base index scale offset)
    (enc_rexIf (byteRegRequiresRex reg || regRequiresRex index || regRequiresRex base)
       reg index base ++ [u8 opcode] ++ enc_memory_sib reg base index scale offset).
Proof. formats_op oneByteOp8_sib. Qed.

Lemma twoByteOp8_rr_formats opcode reg rm :
  0 <= reg -> 0 <= rm -> formats (twoByteOp8_rr opcode reg rm)
    (enc_rexIf (byteRegRequiresRex reg || byteRegRequiresRex rm) reg 0 rm ++ [u8 OP_2BYTE_ESCAPE] ++ [u8 opcode] ++ [enc_modrm ModRmRegister reg rm]).
Proof. formats_op twoByteOp8_rr. Qed.

Lemma twoByteOp8_group_formats opcode groupOp rm :
  0 <= rm -> formats (twoByteOp8_group opcode groupOp rm)
    (enc_rexIf (byteRegRequiresRex rm) 0 0 rm ++ [u8 OP_2BYTE_ESCAPE] ++ [u8 opcode] ++ [enc_modrm ModRmRegister groupOp rm]).
Proof. formats_op twoByteOp8_group. Qed.

Lemma oneByteOp_sized opcode :
  sized 1 (oneByteOp opcode).
Proof. sized_by oneByteOp_formats. Qed.

Lemma oneByteOp_r_sized opcode reg :
  0 <= reg -> sized 2 (oneByteOp_r opcode reg).
Proof. sized_by oneByteOp_r_formats. Qed.

Lemma oneByteOp_rr_sized opcode reg rm :
  0 <= reg -> 0 <= rm -> sized 3 (oneByteOp_rr opcode reg rm).
Proof. sized_by oneByteOp_rr_formats. Qed.

Lemma oneByteOp_m_sized opcode reg base offset :
  0 <= reg -> 0 <= base -> sized 8 (oneByteOp_m opcode reg base offset).
Proof. sized_by oneByteOp_m_formats. Qed.

Lemma oneByteOp_disp32_sized opcode reg base offset :
  0 <= reg -> 0 <= base -> sized 8 (oneByteOp_disp32 opcode reg base offset).
Proof. sized_by oneByteOp_disp32_formats. Qed.

Lemma oneByteOp_disp8_sized opcode reg base offset :
  0 <= reg -> 0 <= base -> CAN_SIGN_EXTEND_8_32 offset = true -> sized 8 (oneByteOp_disp8 opcode reg base offset).
Proof. sized_by oneByteOp_disp8_formats. Qed.

Lemma oneByteOp_sib_sized opcode reg base (index : Z) scale offset :
  0 <= reg -> 0 <= base -> 0 <= index -> index <> noIndex -> sized 8 (oneByteOp_sib opcode reg base index scale offset).
Proof. sized_by oneByteOp_sib_formats. Qed.

Lemma oneByteOp_addr_sized opcode reg address :
  sized 6 (oneByteOp_addr opcode reg address).
Proof. sized_by oneByteOp_addr_formats. Qed.

Lemma twoByteOp_sized opcode :
  sized 2 (twoByteOp opcode).
Proof. sized_by twoByteOp_formats. Qed.

Lemma twoByteOp_m_sized opcode reg base offset :
  0 <= reg -> 0 <= base -> sized 9 (twoByteOp_m opcode reg base offset).
Proof. sized_by twoByteOp_m_formats. Qed.

Lemma twoByteOp_sib_sized opcode reg base (index : Z) scale offset :
  0 <= reg -> 0 <= base -> 0 <= index -> index <> noIndex -> sized 9 (twoByteOp_sib opcode reg base index scale offset).
Proof. sized_by twoByteOp_sib_formats. Qed.

Lemma twoByteOp_addr_sized opcode reg address :
  sized 7 (twoByteOp_addr opcode reg address).
Proof. sized_by twoByteOp_addr_formats. Qed.

Lemma threeByteOp_sized opcode :
  sized 3 (threeByteOp opcode).
Proof. sized_by threeByteOp_formats. Qed.

Lemma twoByteOp_rr_sized opcode reg rm :
  0 <= reg -> 0 <= rm -> sized 4 (twoByteOp_rr opcode reg rm).
Proof. sized_by twoByteOp_rr_formats. Qed.

Lemma oneByteOp64_sized opcode :
  sized 2 (oneByteOp64 opcode).
Proof. sized_by oneByteOp64_formats. Qed.

Lemma oneByteOp64_r_sized opcode reg :
  0 <= reg -> sized 2 (oneByteOp64_r opcode reg).
Proof. sized_by oneByteOp64_r_formats. Qed.

Lemma oneByteOp64_rr_sized opcode reg rm :
  0 <= reg -> 0 <= rm -> sized 3 (oneByteOp64_rr opcode reg rm).
Proof. sized_by oneByteOp64_rr_formats. Qed.

Lemma oneByteOp64_m_sized opcode reg base offset :
  0 <= reg -> 0 <= base -> sized 8 (oneByteOp64_m opcode reg base offset).
Proof. sized_by oneByteOp64_m_formats. Qed.

Lemma oneByteOp64_disp32_sized opcode reg base offset :
  0 <= reg -> 0 <= base -> sized 8 (oneByteOp64_disp32 opcode reg base offset).
Proof. sized_by oneByteOp64_disp32_formats. Qed.

Lemma oneByteOp64_disp8_sized opcode reg base offset :
  0 <= reg -> 0 <= base -> CAN_SIGN_EXTEND_8_32 offset = true -> sized 8 (oneByteOp64_disp8 opcode reg base offset).
Proof. sized_by oneByteOp64_disp8_formats. Qed.

Lemma oneByteOp64_sib_sized opcode reg base (index : Z) scale offset :
  0 <= reg -> 0 <= base -> 0 <= index -> index <> noIndex -> sized 8 (oneByteOp64_sib opcode reg base index scale offset).
Proof. sized_by oneByteOp64_sib_formats. Qed.

Lemma twoByteOp64_rr_sized opcode reg rm :
  0 <= reg -> 0 <= rm -> sized 4 (twoByteOp64_rr opcode reg rm).
Proof. sized_by twoByteOp64_rr_formats. Qed.

Lemma oneByteOp8_group_sized opcode groupOp rm :
  0 <= rm -> sized 3 (oneByteOp8_group opcode groupOp rm).
Proof. sized_by oneByteOp8_group_formats. Qed.

Lemma oneByteOp8_rr_sized opcode reg rm :
  0 <= reg -> 0 <= rm -> sized 3 (oneByteOp8_rr opcode reg rm).
Proof. sized_by oneByteOp8_rr_formats. Qed.

Lemma oneByteOp8_m_sized opcode reg base offset :
  0 <= reg -> 0 <= base -> sized 8 (oneByteOp8_m opcode reg base offset).
Proof. sized_by oneByteOp8_m_formats. Qed.

Lemma oneByteOp8_sib_sized opcode reg base (index : Z) scale offset :
  0 <= reg -> 0 <= base -> 0 <= index -> index <> noIndex -> sized 8 (oneByteOp8_sib opcode reg base index scale offset).
Proof. sized_by oneByteOp8_sib_formats. Qed.

Lemma twoByteOp8_rr_sized opcode reg rm :
  0 <= reg -> 0 <= rm -> sized 4 (twoByteOp8_rr opcode reg rm).
Proof. sized_by twoByteOp8_rr_formats. Qed.

Lemma twoByteOp8_group_sized opcode groupOp rm :
  0 <= rm -> sized 4 (twoByteOp8_group opcode groupOp rm).
Proof. sized_by twoByteOp8_group_formats. Qed.

End formatter.

Create HintDb asm discriminated.
#[export] Hint Constants Opaque : asm.

#[export] Hint Resolve
  oneByteOp_sized oneByteOp_r_sized oneByteOp_rr_sized oneByteOp_m_sized
  oneByteOp_disp32_sized oneByteOp_disp8_sized oneByteOp_sib_sized oneByteOp_addr_sized
  twoByteOp_sized twoByteOp_m_sized twoByteOp_sib_sized twoByteOp_addr_sized
  threeByteOp_sized twoByteOp_rr_sized oneByteOp64_sized oneByteOp64_r_sized
  oneByteOp64_rr_sized oneByteOp64_m_sized oneByteOp64_disp32_sized
  oneByteOp64_disp8_sized oneByteOp64_sib_sized twoByteOp64_rr_sized
  oneByteOp8_group_sized oneByteOp8_rr_sized oneByteOp8_m_sized oneByteOp8_sib_sized
  twoByteOp8_rr_sized twoByteOp8_group_sized : asm.

Lemma RegisterID_range (r : RegisterID) : 0 <= r < 16.
Proof. by destruct r. Qed.
Lemma XMMRegisterID_range (r : XMMRegisterID) : 0 <= r < 16.
Proof. by destruct r. Qed.

(** The register field holds a register or the extension of an opcode. *)
Ltac field_nonneg :=
  first [apply RegisterID_range | apply XMMRegisterID_range | discriminate].
#[export] Hint Extern 1 (0 <= _) => field_nonneg : asm.
