(* ===== verification/X86Assembler.v ===== *)
(** * The x86 assembler: instructions

    The instruction methods of the class [X86Assembler] of
    JavaScriptCore/assembler/X86Assembler.h, in the order of the header, over
    the formatter of [X86Formatter].  Overloads have a suffix: [_sib] base,
    index and scale, [_addr] an absolute address, [_r] a register, [_xr] and
    [_rx] between a floating point and a general register. *)

From stdpp Require Import base numbers list.
From S2P Require Import Prelude AssemblerBuffer X86Formatter.

#[local] Open Scope Z_scope.

Section assembler.
Context `{!Target}.

(** ** Stack operations *)

Definition push_r (reg : RegisterID) : BM unit :=
  oneByteOp_r OP_PUSH_EAX reg.

Definition pop_r (reg : RegisterID) : BM unit :=
  oneByteOp_r OP_POP_EAX reg.

Definition push_i32 (imm : Z) : BM unit :=
  oneByteOp OP_PUSH_Iz;;
  immediate32 imm.

Definition push_m (offset : Z) (base : RegisterID) : BM unit :=
  oneByteOp_m OP_GROUP5_Ev GROUP5_OP_PUSH base offset.

Definition pop_m (offset : Z) (base : RegisterID) : BM unit :=
  oneByteOp_m OP_GROUP1A_Ev GROUP1A_OP_POP base offset.

(** ** Arithmetic operations *)

Definition adcl_im (imm : Z) (addr : Z) : BM unit :=
  if CAN_SIGN_EXTEND_8_32 imm then
    oneByteOp_addr OP_GROUP1_EvIb GROUP1_OP_ADC addr;;
    immediate8 imm
  else
    oneByteOp_addr OP_GROUP1_EvIz GROUP1_OP_ADC addr;;
    immediate32 imm.

Definition addl_rr (src : RegisterID) (dst : RegisterID) : BM unit :=
  oneByteOp_rr OP_ADD_EvGv src dst.

Definition addl_mr (offset : Z) (base : RegisterID) (dst : RegisterID) : BM unit :=
  oneByteOp_m OP_ADD_GvEv dst base offset.

Definition addl_mr_addr (addr : Z) (dst : RegisterID) : BM unit :=
  oneByteOp_addr OP_ADD_GvEv dst addr.

Definition addl_rm (src : RegisterID) (offset : Z) (base : RegisterID) : BM unit :=
  oneByteOp_m OP_ADD_EvGv src base offset.

Definition addl_ir (imm : Z) (dst : RegisterID) : BM unit :=
  if CAN_SIGN_EXTEND_8_32 imm then
    oneByteOp_rr OP_GROUP1_EvIb GROUP1_OP_ADD dst;;
    immediate8 imm
  else
    oneByteOp_rr OP_GROUP1_EvIz GROUP1_OP_ADD dst;;
    immediate32 imm.

Definition addl_im (imm : Z) (offset : Z) (base : RegisterID) : BM unit :=
  if CAN_SIGN_EXTEND_8_32 imm then
    oneByteOp_m OP_GROUP1_EvIb GROUP1_OP_ADD base offset;;
    immediate8 imm
  else
    oneByteOp_m OP_GROUP1_EvIz GROUP1_OP_ADD base offset;;
    immediate32 imm.

Definition addq_rr (src : RegisterID) (dst : RegisterID) : BM unit :=
  oneByteOp64_rr OP_ADD_EvGv src dst.

Definition addq_mr (offset : Z) (base : RegisterID) (dst : RegisterID) : BM unit :=
  oneByteOp64_m OP_ADD_GvEv dst base offset.

Definition addq_ir (imm : Z) (dst : RegisterID) : BM unit :=
  if CAN_SIGN_EXTEND_8_32 imm then
    oneByteOp64_rr OP_GROUP1_EvIb GROUP1_OP_ADD dst;;
    immediate8 imm
  else
    oneByteOp64_rr OP_GROUP1_EvIz GROUP1_OP_ADD dst;;
    immediate32 imm.

Definition addq_im (imm : Z) (offset : Z) (base : RegisterID) : BM unit :=
  if CAN_SIGN_EXTEND_8_32 imm then
    oneByteOp64_m OP_GROUP1_EvIb GROUP1_OP_ADD base offset;;
    immediate8 imm
  else
    oneByteOp64_m OP_GROUP1_EvIz GROUP1_OP_ADD base offset;;
    immediate32 imm.

Definition addl_im_addr (imm : Z) (addr : Z) : BM unit :=
  if CAN_SIGN_EXTEND_8_32 imm then
    oneByteOp_addr OP_GROUP1_EvIb GROUP1_OP_ADD addr;;
    immediate8 imm
  else
    oneByteOp_addr OP_GROUP1_EvIz GROUP1_OP_ADD addr;;
    immediate32 imm.

Definition andl_rr (src : RegisterID) (dst : RegisterID) : BM unit :=
  oneByteOp_rr OP_AND_EvGv src dst.

Definition andl_mr (offset : Z) (base : RegisterID) (dst : RegisterID) : BM unit :=
  oneByteOp_m OP_AND_GvEv dst base offset.

Definition andl_rm (src : RegisterID) (offset : Z) (base : RegisterID) : BM unit :=
  oneByteOp_m OP_AND_EvGv src base offset.

Definition andl_ir (imm : Z) (dst : RegisterID) : BM unit :=
  if CAN_SIGN_EXTEND_8_32 imm then
    oneByteOp_rr OP_GROUP1_EvIb GROUP1_OP_AND dst;;
    immediate8 imm
  else
    oneByteOp_rr OP_GROUP1_EvIz GROUP1_OP_AND dst;;
    immediate32 imm.

Definition andl_im (imm : Z) (offset : Z) (base : RegisterID) : BM unit :=
  if CAN_SIGN_EXTEND_8_32 imm then
    oneByteOp_m OP_GROUP1_EvIb GROUP1_OP_AND base offset;;
    immediate8 imm
  else
    oneByteOp_m OP_GROUP1_EvIz GROUP1_OP_AND base offset;;
    immediate32 imm.

Definition andq_rr (src : RegisterID) (dst : RegisterID) : BM unit :=
  oneByteOp64_rr OP_AND_EvGv src dst.

Definition andq_ir (imm : Z) (dst : RegisterID) : BM unit :=
  if CAN_SIGN_EXTEND_8_32 imm then
    oneByteOp64_rr OP_GROUP1_EvIb GROUP1_OP_AND dst;;
    immediate8 imm
  else
    oneByteOp64_rr OP_GROUP1_EvIz GROUP1_OP_AND dst;;
    immediate32 imm.

Definition andl_im_addr (imm : Z) (addr : Z) : BM unit :=
  if CAN_SIGN_EXTEND_8_32 imm then
    oneByteOp_addr OP_GROUP1_EvIb GROUP1_OP_AND addr;;
    immediate8 imm
  else
    oneByteOp_addr OP_GROUP1_EvIz GROUP1_OP_AND addr;;
    immediate32 imm.

Definition dec_r (dst : RegisterID) : BM unit :=
  oneByteOp_rr OP_GROUP5_Ev GROUP1_OP_OR dst.

Definition decq_r (dst : RegisterID) : BM unit :=
  oneByteOp64_rr OP_GROUP5_Ev GROUP1_OP_OR dst.

Definition inc_r (dst : RegisterID) : BM unit :=
  oneByteOp_rr OP_GROUP5_Ev GROUP1_OP_ADD dst.

Definition incq_r (dst : RegisterID) : BM unit :=
  oneByteOp64_rr OP_GROUP5_Ev GROUP1_OP_ADD dst.

Definition negl_r (dst : RegisterID) : BM unit :=
  oneByteOp_rr OP_GROUP3_Ev GROUP3_OP_NEG dst.

Definition negq_r (dst : RegisterID) : BM unit :=
  oneByteOp64_rr OP_GROUP3_Ev GROUP3_OP_NEG dst.

Definition negl_m (offset : Z) (base : RegisterID) : BM unit :=
  oneByteOp_m OP_GROUP3_Ev GROUP3_OP_NEG base offset.

Definition notl_r (dst : RegisterID) : BM unit :=
  oneByteOp_rr OP_GROUP3_Ev GROUP3_OP_NOT dst.

Definition notl_m (offset : Z) (base : RegisterID) : BM unit :=
  oneByteOp_m OP_GROUP3_Ev GROUP3_OP_NOT base offset.

Definition orl_rr (src : RegisterID) (dst : RegisterID) : BM unit :=
  oneByteOp_rr OP_OR_EvGv src dst.

Definition orl_mr (offset : Z) (base : RegisterID) (dst : RegisterID) : BM unit :=
  oneByteOp_m OP_OR_GvEv dst base offset.

Definition orl_rm (src : RegisterID) (offset : Z) (base : RegisterID) : BM unit :=
  oneByteOp_m OP_OR_EvGv src base offset.

Definition orl_ir (imm : Z) (dst : RegisterID) : BM unit :=
  if CAN_SIGN_EXTEND_8_32 imm then
    oneByteOp_rr OP_GROUP1_EvIb GROUP1_OP_OR dst;;
    immediate8 imm
  else
    oneByteOp_rr OP_GROUP1_EvIz GROUP1_OP_OR dst;;
    immediate32 imm.

Definition orl_im (imm : Z) (offset : Z) (base : RegisterID) : BM unit :=
  if CAN_SIGN_EXTEND_8_32 imm then
    oneByteOp_m OP_GROUP1_EvIb GROUP1_OP_OR base offset;;
    immediate8 imm
  else
    oneByteOp_m OP_GROUP1_EvIz GROUP1_OP_OR base offset;;
    immediate32 imm.

Definition orq_rr (src : RegisterID) (dst : RegisterID) : BM unit :=
  oneByteOp64_rr OP_OR_EvGv src dst.

Definition orq_ir (imm : Z) (dst : RegisterID) : BM unit :=
  if CAN_SIGN_EXTEND_8_32 imm then
    oneByteOp64_rr OP_GROUP1_EvIb GROUP1_OP_OR dst;;
    immediate8 imm
  else
    oneByteOp64_rr OP_GROUP1_EvIz GROUP1_OP_OR dst;;
    immediate32 imm.

Definition orl_im_addr (imm : Z) (addr : Z) : BM unit :=
  if CAN_SIGN_EXTEND_8_32 imm then
    oneByteOp_addr OP_GROUP1_EvIb GROUP1_OP_OR addr;;
    immediate8 imm
  else
    oneByteOp_addr OP_GROUP1_EvIz GROUP1_OP_OR addr;;
    immediate32 imm.

Definition orl_rm_addr (src : RegisterID) (addr : Z) : BM unit :=
  oneByteOp_addr OP_OR_EvGv src addr.

Definition subl_rr (src : RegisterID) (dst : RegisterID) : BM unit :=
  oneByteOp_rr OP_SUB_EvGv src dst.

Definition subl_mr (offset : Z) (base : RegisterID) (dst : RegisterID) : BM unit :=
  oneByteOp_m OP_SUB_GvEv dst base offset.

Definition subl_rm (src : RegisterID) (offset : Z) (base : RegisterID) : BM unit :=
  oneByteOp_m OP_SUB_EvGv src base offset.

Definition subl_ir (imm : Z) (dst : RegisterID) : BM unit :=
  if CAN_SIGN_EXTEND_8_32 imm then
    oneByteOp_rr OP_GROUP1_EvIb GROUP1_OP_SUB dst;;
    immediate8 imm
  else
    oneByteOp_rr OP_GROUP1_EvIz GROUP1_OP_SUB dst;;
    immediate32 imm.

Definition subl_im (imm : Z) (offset : Z) (base : RegisterID) : BM unit :=
  if CAN_SIGN_EXTEND_8_32 imm then
    oneByteOp_m OP_GROUP1_EvIb GROUP1_OP_SUB base offset;;
    immediate8 imm
  else
    oneByteOp_m OP_GROUP1_EvIz GROUP1_OP_SUB base offset;;
    immediate32 imm.

Definition subq_rr (src : RegisterID) (dst : RegisterID) : BM unit :=
  oneByteOp64_rr OP_SUB_EvGv src dst.

Definition subq_ir (imm : Z) (dst : RegisterID) : BM unit :=
  if CAN_SIGN_EXTEND_8_32 imm then
    oneByteOp64_rr OP_GROUP1_EvIb GROUP1_OP_SUB dst;;
    immediate8 imm
  else
    oneByteOp64_rr OP_GROUP1_EvIz GROUP1_OP_SUB dst;;
    immediate32 imm.

Definition subl_im_addr (imm : Z) (addr : Z) : BM unit :=
  if CAN_SIGN_EXTEND_8_32 imm then
    oneByteOp_addr OP_GROUP1_EvIb GROUP1_OP_SUB addr;;
    immediate8 imm
  else
    oneByteOp_addr OP_GROUP1_EvIz GROUP1_OP_SUB addr;;
    immediate32 imm.

Definition xorl_rr (src : RegisterID) (dst : RegisterID) : BM unit :=
  oneByteOp_rr OP_XOR_EvGv src dst.

Definition xorl_mr (offset : Z) (base : RegisterID) (dst : RegisterID) : BM unit :=
  oneByteOp_m OP_XOR_GvEv dst base offset.

Definition xorl_rm (src : RegisterID) (offset : Z) (base : RegisterID) : BM unit :=
  oneByteOp_m OP_XOR_EvGv src base offset.

Definition xorl_im (imm : Z) (offset : Z) (base : RegisterID) : BM unit :=
  if CAN_SIGN_EXTEND_8_32 imm then
    oneByteOp_m OP_GROUP1_EvIb GROUP1_OP_XOR base offset;;
    immediate8 imm
  else
    oneByteOp_m OP_GROUP1_EvIz GROUP1_OP_XOR base offset;;
    immediate32 imm.

Definition xorl_ir (imm : Z) (dst : RegisterID) : BM unit :=
  if CAN_SIGN_EXTEND_8_32 imm then
    oneByteOp_rr OP_GROUP1_EvIb GROUP1_OP_XOR dst;;
    immediate8 imm
  else
    oneByteOp_rr OP_GROUP1_EvIz GROUP1_OP_XOR dst;;
    immediate32 imm.

Definition xorq_rr (src : RegisterID) (dst : RegisterID) : BM unit :=
  oneByteOp64_rr OP_XOR_EvGv src dst.

Definition xorq_ir (imm : Z) (dst : RegisterID) : BM unit :=
  if CAN_SIGN_EXTEND_8_32 imm then
    oneByteOp64_rr OP_GROUP1_EvIb GROUP1_OP_XOR dst;;
    immediate8 imm
  else
    oneByteOp64_rr OP_GROUP1_EvIz GROUP1_OP_XOR dst;;
    immediate32 imm.

Definition xorq_rm (src : RegisterID) (offset : Z) (base : RegisterID) : BM unit :=
  oneByteOp64_m OP_XOR_EvGv src base offset.

Definition rorq_i8r (imm : Z) (dst : RegisterID) : BM unit :=
  if imm =? 1 then
    oneByteOp64_rr OP_GROUP2_Ev1 GROUP2_OP_ROR dst
  else
    oneByteOp64_rr OP_GROUP2_EvIb GROUP2_OP_ROR dst;;
    immediate8 imm.

Definition sarl_i8r (imm : Z) (dst : RegisterID) : BM unit :=
  if imm =? 1 then
    oneByteOp_rr OP_GROUP2_Ev1 GROUP2_OP_SAR dst
  else
    oneByteOp_rr OP_GROUP2_EvIb GROUP2_OP_SAR dst;;
    immediate8 imm.

Definition sarl_CLr (dst : RegisterID) : BM unit :=
  oneByteOp_rr OP_GROUP2_EvCL GROUP2_OP_SAR dst.

Definition shrl_i8r (imm : Z) (dst : RegisterID) : BM unit :=
  if imm =? 1 then
    oneByteOp_rr OP_GROUP2_Ev1 GROUP2_OP_SHR dst
  else
    oneByteOp_rr OP_GROUP2_EvIb GROUP2_OP_SHR dst;;
    immediate8 imm.

Definition shrl_CLr (dst : RegisterID) : BM unit :=
  oneByteOp_rr OP_GROUP2_EvCL GROUP2_OP_SHR dst.

Definition shll_i8r (imm : Z) (dst : RegisterID) : BM unit :=
  if imm =? 1 then
    oneByteOp_rr OP_GROUP2_Ev1 GROUP2_OP_SHL dst
  else
    oneByteOp_rr OP_GROUP2_EvIb GROUP2_OP_SHL dst;;
    immediate8 imm.

Definition shll_CLr (dst : RegisterID) : BM unit :=
  oneByteOp_rr OP_GROUP2_EvCL GROUP2_OP_SHL dst.

Definition sarq_CLr (dst : RegisterID) : BM unit :=
  oneByteOp64_rr OP_GROUP2_EvCL GROUP2_OP_SAR dst.

Definition sarq_i8r (imm : Z) (dst : RegisterID) : BM unit :=
  if imm =? 1 then
    oneByteOp64_rr OP_GROUP2_Ev1 GROUP2_OP_SAR dst
  else
    oneByteOp64_rr OP_GROUP2_EvIb GROUP2_OP_SAR dst;;
    immediate8 imm.

Definition shlq_i8r (imm : Z) (dst : RegisterID) : BM unit :=
  if imm =? 1 then
    oneByteOp64_rr OP_GROUP2_Ev1 GROUP2_OP_SHL dst
  else
    oneByteOp64_rr OP_GROUP2_EvIb GROUP2_OP_SHL dst;;
    immediate8 imm.

Definition imull_rr (src : RegisterID) (dst : RegisterID) : BM unit :=
  twoByteOp_rr OP2_IMUL_GvEv dst src.

Definition imulq_rr (src : RegisterID) (dst : RegisterID) : BM unit :=
  twoByteOp64_rr OP2_IMUL_GvEv dst src.

Definition imull_mr (offset : Z) (base : RegisterID) (dst : RegisterID) : BM unit :=
  twoByteOp_m OP2_IMUL_GvEv dst base offset.

Definition imull_i32r (src : RegisterID) (value : Z) (dst : RegisterID) : BM unit :=
  oneByteOp_rr OP_IMUL_GvEvIz dst src;;
  immediate32 value.

Definition idivl_r (dst : RegisterID) : BM unit :=
  oneByteOp_rr OP_GROUP3_Ev GROUP3_OP_IDIV dst.

(** ** Comparisons *)

Definition cmpl_rr (src : RegisterID) (dst : RegisterID) : BM unit :=
  oneByteOp_rr OP_CMP_EvGv src dst.

Definition cmpl_rm (src : RegisterID) (offset : Z) (base : RegisterID) : BM unit :=
  oneByteOp_m OP_CMP_EvGv src base offset.

Definition cmpl_mr (offset : Z) (base : RegisterID) (src : RegisterID) : BM unit :=
  oneByteOp_m OP_CMP_GvEv src base offset.

Definition cmpl_ir (imm : Z) (dst : RegisterID) : BM unit :=
  if CAN_SIGN_EXTEND_8_32 imm then
    oneByteOp_rr OP_GROUP1_EvIb GROUP1_OP_CMP dst;;
    immediate8 imm
  else
    oneByteOp_rr OP_GROUP1_EvIz GROUP1_OP_CMP dst;;
    immediate32 imm.

Definition cmpl_ir_force32 (imm : Z) (dst : RegisterID) : BM unit :=
  oneByteOp_rr OP_GROUP1_EvIz GROUP1_OP_CMP dst;;
  immediate32 imm.

Definition cmpl_im (imm : Z) (offset : Z) (base : RegisterID) : BM unit :=
  if CAN_SIGN_EXTEND_8_32 imm then
    oneByteOp_m OP_GROUP1_EvIb GROUP1_OP_CMP base offset;;
    immediate8 imm
  else
    oneByteOp_m OP_GROUP1_EvIz GROUP1_OP_CMP base offset;;
    immediate32 imm.

Definition cmpb_im (imm : Z) (offset : Z) (base : RegisterID) : BM unit :=
  oneByteOp_m OP_GROUP1_EbIb GROUP1_OP_CMP base offset;;
  immediate8 imm.

Definition cmpb_im_sib (imm : Z) (offset : Z) (base : RegisterID) (index : RegisterID) (scale : Z) : BM unit :=
  oneByteOp_sib OP_GROUP1_EbIb GROUP1_OP_CMP base index scale offset;;
  immediate8 imm.

Definition cmpb_im_addr (imm : Z) (addr : Z) : BM unit :=
  oneByteOp_addr OP_GROUP1_EbIb GROUP1_OP_CMP addr;;
  immediate8 imm.

Definition cmpl_im_sib (imm : Z) (offset : Z) (base : RegisterID) (index : RegisterID) (scale : Z) : BM unit :=
  if CAN_SIGN_EXTEND_8_32 imm then
    oneByteOp_sib OP_GROUP1_EvIb GROUP1_OP_CMP base index scale offset;;
    immediate8 imm
  else
    oneByteOp_sib OP_GROUP1_EvIz GROUP1_OP_CMP base index scale offset;;
    immediate32 imm.

Definition cmpl_im_force32 (imm : Z) (offset : Z) (base : RegisterID) : BM unit :=
  oneByteOp_m OP_GROUP1_EvIz GROUP1_OP_CMP base offset;;
  immediate32 imm.

Definition cmpq_rr (src : RegisterID) (dst : RegisterID) : BM unit :=
  oneByteOp64_rr OP_CMP_EvGv src dst.

Definition cmpq_rm (src : RegisterID) (offset : Z) (base : RegisterID) : BM unit :=
  oneByteOp64_m OP_CMP_EvGv src base offset.

Definition cmpq_rm_sib (src : RegisterID) (offset : Z) (base : RegisterID) (index : RegisterID) (scale : Z) : BM unit :=
  oneByteOp64_sib OP_CMP_EvGv src base index scale offset.

Definition cmpq_mr (offset : Z) (base : RegisterID) (src : RegisterID) : BM unit :=
  oneByteOp64_m OP_CMP_GvEv src base offset.

Definition cmpq_ir (imm : Z) (dst : RegisterID) : BM unit :=
  if CAN_SIGN_EXTEND_8_32 imm then
    oneByteOp64_rr OP_GROUP1_EvIb GROUP1_OP_CMP dst;;
    immediate8 imm
  else
    oneByteOp64_rr OP_GROUP1_EvIz GROUP1_OP_CMP dst;;
    immediate32 imm.

Definition cmpq_im (imm : Z) (offset : Z) (base : RegisterID) : BM unit :=
  if CAN_SIGN_EXTEND_8_32 imm then
    oneByteOp64_m OP_GROUP1_EvIb GROUP1_OP_CMP base offset;;
    immediate8 imm
  else
    oneByteOp64_m OP_GROUP1_EvIz GROUP1_OP_CMP base offset;;
    immediate32 imm.

Definition cmpq_im_sib (imm : Z) (offset : Z) (base : RegisterID) (index : RegisterID) (scale : Z) : BM unit :=
  if CAN_SIGN_EXTEND_8_32 imm then
    oneByteOp64_sib OP_GROUP1_EvIb GROUP1_OP_CMP base index scale offset;;
    immediate8 imm
  else
    oneByteOp64_sib OP_GROUP1_EvIz GROUP1_OP_CMP base index scale offset;;
    immediate32 imm.

Definition cmpl_rm_addr (reg : RegisterID) (addr : Z) : BM unit :=
  oneByteOp_addr OP_CMP_EvGv reg addr.

Definition cmpl_im_addr (imm : Z) (addr : Z) : BM unit :=
  if CAN_SIGN_EXTEND_8_32 imm then
    oneByteOp_addr OP_GROUP1_EvIb GROUP1_OP_CMP addr;;
    immediate8 imm
  else
    oneByteOp_addr OP_GROUP1_EvIz GROUP1_OP_CMP addr;;
    immediate32 imm.

Definition cmpw_ir (imm : Z) (dst : RegisterID) : BM unit :=
  if CAN_SIGN_EXTEND_8_32 imm then
    prefix PRE_OPERAND_SIZE;;
    oneByteOp_rr OP_GROUP1_EvIb GROUP1_OP_CMP dst;;
    immediate8 imm
  else
    prefix PRE_OPERAND_SIZE;;
    oneByteOp_rr OP_GROUP1_EvIz GROUP1_OP_CMP dst;;
    immediate16 imm.

Definition cmpw_rm (src : RegisterID) (offset : Z) (base : RegisterID) (index : RegisterID) (scale : Z) : BM unit :=
  prefix PRE_OPERAND_SIZE;;
  oneByteOp_sib OP_CMP_EvGv src base index scale offset.

Definition cmpw_im (imm : Z) (offset : Z) (base : RegisterID) (index : RegisterID) (scale : Z) : BM unit :=
  if CAN_SIGN_EXTEND_8_32 imm then
    prefix PRE_OPERAND_SIZE;;
    oneByteOp_sib OP_GROUP1_EvIb GROUP1_OP_CMP base index scale offset;;
    immediate8 imm
  else
    prefix PRE_OPERAND_SIZE;;
    oneByteOp_sib OP_GROUP1_EvIz GROUP1_OP_CMP base index scale offset;;
    immediate16 imm.

Definition testl_rr (src : RegisterID) (dst : RegisterID) : BM unit :=
  oneByteOp_rr OP_TEST_EvGv src dst.

Definition testl_i32r (imm : Z) (dst : RegisterID) : BM unit :=
  oneByteOp_rr OP_GROUP3_EvIz GROUP3_OP_TEST dst;;
  immediate32 imm.

Definition testl_i32m (imm : Z) (offset : Z) (base : RegisterID) : BM unit :=
  oneByteOp_m OP_GROUP3_EvIz GROUP3_OP_TEST base offset;;
  immediate32 imm.

Definition testb_rr (src : RegisterID) (dst : RegisterID) : BM unit :=
  oneByteOp8_rr OP_TEST_EbGb src dst.

Definition testb_im (imm : Z) (offset : Z) (base : RegisterID) : BM unit :=
  oneByteOp_m OP_GROUP3_EbIb GROUP3_OP_TEST base offset;;
  immediate8 imm.

Definition testb_im_sib (imm : Z) (offset : Z) (base : RegisterID) (index : RegisterID) (scale : Z) : BM unit :=
  oneByteOp_sib OP_GROUP3_EbIb GROUP3_OP_TEST base index scale offset;;
  immediate8 imm.

Definition testb_im_addr (imm : Z) (addr : Z) : BM unit :=
  oneByteOp_addr OP_GROUP3_EbIb GROUP3_OP_TEST addr;;
  immediate8 imm.

Definition testl_i32m_sib (imm : Z) (offset : Z) (base : RegisterID) (index : RegisterID) (scale : Z) : BM unit :=
  oneByteOp_sib OP_GROUP3_EvIz GROUP3_OP_TEST base index scale offset;;
  immediate32 imm.

Definition testq_rr (src : RegisterID) (dst : RegisterID) : BM unit :=
  oneByteOp64_rr OP_TEST_EvGv src dst.

Definition testq_rm (src : RegisterID) (offset : Z) (base : RegisterID) : BM unit :=
  oneByteOp64_m OP_TEST_EvGv src base offset.

Definition testq_i32r (imm : Z) (dst : RegisterID) : BM unit :=
  oneByteOp64_rr OP_GROUP3_EvIz GROUP3_OP_TEST dst;;
  immediate32 imm.

Definition testq_i32m (imm : Z) (offset : Z) (base : RegisterID) : BM unit :=
  oneByteOp64_m OP_GROUP3_EvIz GROUP3_OP_TEST base offset;;
  immediate32 imm.

Definition testq_i32m_sib (imm : Z) (offset : Z) (base : RegisterID) (index : RegisterID) (scale : Z) : BM unit :=
  oneByteOp64_sib OP_GROUP3_EvIz GROUP3_OP_TEST base index scale offset;;
  immediate32 imm.

Definition testw_rr (src : RegisterID) (dst : RegisterID) : BM unit :=
  prefix PRE_OPERAND_SIZE;;
  oneByteOp_rr OP_TEST_EvGv src dst.

Definition testb_i8r (imm : Z) (dst : RegisterID) : BM unit :=
  oneByteOp8_group OP_GROUP3_EbIb GROUP3_OP_TEST dst;;
  immediate8 imm.

Definition setCC_r (cond : Condition) (dst : RegisterID) : BM unit :=
  twoByteOp8_group (setccOpcode cond) 0 dst.

Definition sete_r (dst : RegisterID) : BM unit :=
  twoByteOp8_group (setccOpcode ConditionE) 0 dst.

Definition setz_r (dst : RegisterID) : BM unit :=
  sete_r dst.

Definition setne_r (dst : RegisterID) : BM unit :=
  twoByteOp8_group (setccOpcode ConditionNE) 0 dst.

Definition setnz_r (dst : RegisterID) : BM unit :=
  setne_r dst.

(** ** Various move ops *)

Definition cdq : BM unit :=
  oneByteOp OP_CDQ.

Definition fstpl (offset : Z) (base : RegisterID) : BM unit :=
  oneByteOp_m OP_ESCAPE_DD ESCAPE_DD_FSTP_doubleReal base offset.

Definition xchgl_rr (src : RegisterID) (dst : RegisterID) : BM unit :=
  oneByteOp_rr OP_XCHG_EvGv src dst.

Definition xchgq_rr (src : RegisterID) (dst : RegisterID) : BM unit :=
  oneByteOp64_rr OP_XCHG_EvGv src dst.

Definition movl_rr (src : RegisterID) (dst : RegisterID) : BM unit :=
  oneByteOp_rr OP_MOV_EvGv src dst.

Definition movl_rm (src : RegisterID) (offset : Z) (base : RegisterID) : BM unit :=
  oneByteOp_m OP_MOV_EvGv src base offset.

Definition movl_rm_disp32 (src : RegisterID) (offset : Z) (base : RegisterID) : BM unit :=
  oneByteOp_disp32 OP_MOV_EvGv src base offset.

Definition movl_rm_sib (src : RegisterID) (offset : Z) (base : RegisterID) (index : RegisterID) (scale : Z) : BM unit :=
  oneByteOp_sib OP_MOV_EvGv src base index scale offset.

Definition movl_mEAX (addr : Z) : BM unit :=
  oneByteOp OP_MOV_EAXOv;;
  if x86_64 then
    immediate64 addr
  else
    immediate32 addr.

Definition movl_mr (offset : Z) (base : RegisterID) (dst : RegisterID) : BM unit :=
  oneByteOp_m OP_MOV_GvEv dst base offset.

Definition movl_mr_disp32 (offset : Z) (base : RegisterID) (dst : RegisterID) : BM unit :=
  oneByteOp_disp32 OP_MOV_GvEv dst base offset.

Definition movl_mr_disp8 (offset : Z) (base : RegisterID) (dst : RegisterID) : BM unit :=
  oneByteOp_disp8 OP_MOV_GvEv dst base offset.

Definition movl_mr_sib (offset : Z) (base : RegisterID) (index : RegisterID) (scale : Z) (dst : RegisterID) : BM unit :=
  oneByteOp_sib OP_MOV_GvEv dst base index scale offset.

Definition movl_i32r (imm : Z) (dst : RegisterID) : BM unit :=
  oneByteOp_r OP_MOV_EAXIv dst;;
  immediate32 imm.

Definition movl_i32m (imm : Z) (offset : Z) (base : RegisterID) : BM unit :=
  oneByteOp_m OP_GROUP11_EvIz GROUP11_MOV base offset;;
  immediate32 imm.

Definition movl_i32m_sib (imm : Z) (offset : Z) (base : RegisterID) (index : RegisterID) (scale : Z) : BM unit :=
  oneByteOp_sib OP_GROUP11_EvIz GROUP11_MOV base index scale offset;;
  immediate32 imm.

Definition movb_i8m_addr (imm : Z) (addr : Z) : BM unit :=
  asm_assert ((-128 <=? imm) && (imm <? 128));;
  oneByteOp_addr OP_GROUP11_EvIb GROUP11_MOV addr;;
  immediate8 imm.

Definition movb_i8m (imm : Z) (offset : Z) (base : RegisterID) : BM unit :=
  asm_assert ((-128 <=? imm) && (imm <? 128));;
  oneByteOp_m OP_GROUP11_EvIb GROUP11_MOV base offset;;
  immediate8 imm.

Definition movb_i8m_sib (imm : Z) (offset : Z) (base : RegisterID) (index : RegisterID) (scale : Z) : BM unit :=
  asm_assert ((-128 <=? imm) && (imm <? 128));;
  oneByteOp_sib OP_GROUP11_EvIb GROUP11_MOV base index scale offset;;
  immediate8 imm.

Definition movb_rm_addr (src : RegisterID) (addr : Z) : BM unit :=
  oneByteOp_addr OP_MOV_EbGb src addr.

Definition movb_rm (src : RegisterID) (offset : Z) (base : RegisterID) : BM unit :=
  oneByteOp8_m OP_MOV_EbGb src base offset.

Definition movb_rm_sib (src : RegisterID) (offset : Z) (base : RegisterID) (index : RegisterID) (scale : Z) : BM unit :=
  oneByteOp8_sib OP_MOV_EbGb src base index scale offset.

Definition movw_rm (src : RegisterID) (offset : Z) (base : RegisterID) (index : RegisterID) (scale : Z) : BM unit :=
  prefix PRE_OPERAND_SIZE;;
  oneByteOp8_sib OP_MOV_EvGv src base index scale offset.

Definition movl_EAXm (addr : Z) : BM unit :=
  oneByteOp OP_MOV_OvEAX;;
  if x86_64 then
    immediate64 addr
  else
    immediate32 addr.

Definition movq_rr (src : RegisterID) (dst : RegisterID) : BM unit :=
  oneByteOp64_rr OP_MOV_EvGv src dst.

Definition movq_rm (src : RegisterID) (offset : Z) (base : RegisterID) : BM unit :=
  oneByteOp64_m OP_MOV_EvGv src base offset.

Definition movq_rm_disp32 (src : RegisterID) (offset : Z) (base : RegisterID) : BM unit :=
  oneByteOp64_disp32 OP_MOV_EvGv src base offset.

Definition movq_rm_sib (src : RegisterID) (offset : Z) (base : RegisterID) (index : RegisterID) (scale : Z) : BM unit :=
  oneByteOp64_sib OP_MOV_EvGv src base index scale offset.

Definition movq_mEAX (addr : Z) : BM unit :=
  oneByteOp64 OP_MOV_EAXOv;;
  immediate64 addr.

Definition movq_EAXm (addr : Z) : BM unit :=
  oneByteOp64 OP_MOV_OvEAX;;
  immediate64 addr.

Definition movq_mr (offset : Z) (base : RegisterID) (dst : RegisterID) : BM unit :=
  oneByteOp64_m OP_MOV_GvEv dst base offset.

Definition movq_mr_disp32 (offset : Z) (base : RegisterID) (dst : RegisterID) : BM unit :=
  oneByteOp64_disp32 OP_MOV_GvEv dst base offset.

Definition movq_mr_disp8 (offset : Z) (base : RegisterID) (dst : RegisterID) : BM unit :=
  oneByteOp64_disp8 OP_MOV_GvEv dst base offset.

Definition movq_mr_sib (offset : Z) (base : RegisterID) (index : RegisterID) (scale : Z) (dst : RegisterID) : BM unit :=
  oneByteOp64_sib OP_MOV_GvEv dst base index scale offset.

Definition movq_i32m (imm : Z) (offset : Z) (base : RegisterID) : BM unit :=
  oneByteOp64_m OP_GROUP11_EvIz GROUP11_MOV base offset;;
  immediate32 imm.

Definition movq_i64r (imm : Z) (dst : RegisterID) : BM unit :=
  oneByteOp64_r OP_MOV_EAXIv dst;;
  immediate64 imm.

Definition movsxd_rr (src : RegisterID) (dst : RegisterID) : BM unit :=
  oneByteOp64_rr OP_MOVSXD_GvEv dst src.

Definition movl_rm_addr (src : RegisterID) (addr : Z) : BM unit :=
  if src =? eax then
    movl_EAXm addr
  else
    oneByteOp_addr OP_MOV_EvGv src addr.

Definition movl_mr_addr (addr : Z) (dst : RegisterID) : BM unit :=
  if dst =? eax then
    movl_mEAX addr
  else
    oneByteOp_addr OP_MOV_GvEv dst addr.

Definition movl_i32m_addr (imm : Z) (addr : Z) : BM unit :=
  oneByteOp_addr OP_GROUP11_EvIz GROUP11_MOV addr;;
  immediate32 imm.

Definition movzwl_mr (offset : Z) (base : RegisterID) (dst : RegisterID) : BM unit :=
  twoByteOp_m OP2_MOVZX_GvEw dst base offset.

Definition movzwl_mr_sib (offset : Z) (base : RegisterID) (index : RegisterID) (scale : Z) (dst : RegisterID) : BM unit :=
  twoByteOp_sib OP2_MOVZX_GvEw dst base index scale offset.

Definition movswl_mr (offset : Z) (base : RegisterID) (dst : RegisterID) : BM unit :=
  twoByteOp_m OP2_MOVSX_GvEw dst base offset.

Definition movswl_mr_sib (offset : Z) (base : RegisterID) (index : RegisterID) (scale : Z) (dst : RegisterID) : BM unit :=
  twoByteOp_sib OP2_MOVSX_GvEw dst base index scale offset.

Definition movzbl_mr (offset : Z) (base : RegisterID) (dst : RegisterID) : BM unit :=
  twoByteOp_m OP2_MOVZX_GvEb dst base offset.

Definition movzbl_mr_sib (offset : Z) (base : RegisterID) (index : RegisterID) (scale : Z) (dst : RegisterID) : BM unit :=
  twoByteOp_sib OP2_MOVZX_GvEb dst base index scale offset.

Definition movzbl_mr_addr (address : Z) (dst : RegisterID) : BM unit :=
  twoByteOp_addr OP2_MOVZX_GvEb dst address.

Definition movsbl_mr (offset : Z) (base : RegisterID) (dst : RegisterID) : BM unit :=
  twoByteOp_m OP2_MOVSX_GvEb dst base offset.

Definition movsbl_mr_sib (offset : Z) (base : RegisterID) (index : RegisterID) (scale : Z) (dst : RegisterID) : BM unit :=
  twoByteOp_sib OP2_MOVSX_GvEb dst base index scale offset.

Definition movzbl_rr (src : RegisterID) (dst : RegisterID) : BM unit :=
  twoByteOp8_rr OP2_MOVZX_GvEb dst src.

Definition leal_mr (offset : Z) (base : RegisterID) (dst : RegisterID) : BM unit :=
  oneByteOp_m OP_LEA dst base offset.

Definition leaq_mr (offset : Z) (base : RegisterID) (dst : RegisterID) : BM unit :=
  oneByteOp64_m OP_LEA dst base offset.

(** ** Flow control *)

Definition call : BM AssemblerLabel :=
  oneByteOp OP_CALL_rel32;;
  immediateRel32.

Definition call_r (dst : RegisterID) : BM AssemblerLabel :=
  oneByteOp_rr OP_GROUP5_Ev GROUP5_OP_CALLN dst;;
  buffer_label.

Definition call_m (offset : Z) (base : RegisterID) : BM unit :=
  oneByteOp_m OP_GROUP5_Ev GROUP5_OP_CALLN base offset.

Definition jmp : BM AssemblerLabel :=
  oneByteOp OP_JMP_rel32;;
  immediateRel32.

Definition jmp_r (dst : RegisterID) : BM AssemblerLabel :=
  oneByteOp_rr OP_GROUP5_Ev GROUP5_OP_JMPN dst;;
  buffer_label.

Definition jmp_m (offset : Z) (base : RegisterID) : BM unit :=
  oneByteOp_m OP_GROUP5_Ev GROUP5_OP_JMPN base offset.

Definition jmp_m_addr (address : Z) : BM unit :=
  oneByteOp_addr OP_GROUP5_Ev GROUP5_OP_JMPN address.

Definition jne : BM AssemblerLabel :=
  twoByteOp (jccRel32 ConditionNE);;
  immediateRel32.

Definition jnz : BM AssemblerLabel :=
  jne.

Definition je : BM AssemblerLabel :=
  twoByteOp (jccRel32 ConditionE);;
  immediateRel32.

Definition jz : BM AssemblerLabel :=
  je.

Definition jl : BM AssemblerLabel :=
  twoByteOp (jccRel32 ConditionL);;
  immediateRel32.

Definition jb : BM AssemblerLabel :=
  twoByteOp (jccRel32 ConditionB);;
  immediateRel32.

Definition jle : BM AssemblerLabel :=
  twoByteOp (jccRel32 ConditionLE);;
  immediateRel32.

Definition jbe : BM AssemblerLabel :=
  twoByteOp (jccRel32 ConditionBE);;
  immediateRel32.

Definition jge : BM AssemblerLabel :=
  twoByteOp (jccRel32 ConditionGE);;
  immediateRel32.

Definition jg : BM AssemblerLabel :=
  twoByteOp (jccRel32 ConditionG);;
  immediateRel32.

Definition ja : BM AssemblerLabel :=
  twoByteOp (jccRel32 ConditionA);;
  immediateRel32.

Definition jae : BM AssemblerLabel :=
  twoByteOp (jccRel32 ConditionAE);;
  immediateRel32.

Definition jo : BM AssemblerLabel :=
  twoByteOp (jccRel32 ConditionO);;
  immediateRel32.

Definition jnp : BM AssemblerLabel :=
  twoByteOp (jccRel32 ConditionNP);;
  immediateRel32.

Definition jp : BM AssemblerLabel :=
  twoByteOp (jccRel32 ConditionP);;
  immediateRel32.

Definition js : BM AssemblerLabel :=
  twoByteOp (jccRel32 ConditionS);;
  immediateRel32.

Definition jCC (cond : Condition) : BM AssemblerLabel :=
  twoByteOp (jccRel32 cond);;
  immediateRel32.

(** ** SSE operations *)

Definition addsd_rr (src : XMMRegisterID) (dst : XMMRegisterID) : BM unit :=
  prefix PRE_SSE_F2;;
  twoByteOp_rr OP2_ADDSD_VsdWsd dst src.

Definition addsd_mr (offset : Z) (base : RegisterID) (dst : XMMRegisterID) : BM unit :=
  prefix PRE_SSE_F2;;
  twoByteOp_m OP2_ADDSD_VsdWsd dst base offset.

Definition addsd_mr_addr (address : Z) (dst : XMMRegisterID) : BM unit :=
  prefix PRE_SSE_F2;;
  twoByteOp_addr OP2_ADDSD_VsdWsd dst address.

Definition cvtsi2sd_rr (src : RegisterID) (dst : XMMRegisterID) : BM unit :=
  prefix PRE_SSE_F2;;
  twoByteOp_rr OP2_CVTSI2SD_VsdEd dst src.

Definition cvtsi2sdq_rr (src : RegisterID) (dst : XMMRegisterID) : BM unit :=
  prefix PRE_SSE_F2;;
  twoByteOp64_rr OP2_CVTSI2SD_VsdEd dst src.

Definition cvtsi2sd_mr (offset : Z) (base : RegisterID) (dst : XMMRegisterID) : BM unit :=
  prefix PRE_SSE_F2;;
  twoByteOp_m OP2_CVTSI2SD_VsdEd dst base offset.

Definition cvtsi2sd_mr_addr (address : Z) (dst : XMMRegisterID) : BM unit :=
  prefix PRE_SSE_F2;;
  twoByteOp_addr OP2_CVTSI2SD_VsdEd dst address.

Definition cvttsd2si_rr (src : XMMRegisterID) (dst : RegisterID) : BM unit :=
  prefix PRE_SSE_F2;;
  twoByteOp_rr OP2_CVTTSD2SI_GdWsd dst src.

Definition cvtsd2ss_rr (src : XMMRegisterID) (dst : XMMRegisterID) : BM unit :=
  prefix PRE_SSE_F2;;
  twoByteOp_rr OP2_CVTSD2SS_VsdWsd dst src.

Definition cvtss2sd_rr (src : XMMRegisterID) (dst : XMMRegisterID) : BM unit :=
  prefix PRE_SSE_F3;;
  twoByteOp_rr OP2_CVTSS2SD_VsdWsd dst src.

Definition cvttsd2siq_rr (src : XMMRegisterID) (dst : RegisterID) : BM unit :=
  prefix PRE_SSE_F2;;
  twoByteOp64_rr OP2_CVTTSD2SI_GdWsd dst src.

Definition movd_rr_xr (src : XMMRegisterID) (dst : RegisterID) : BM unit :=
  prefix PRE_SSE_66;;
  twoByteOp_rr OP2_MOVD_EdVd src dst.

Definition movd_rr_rx (src : RegisterID) (dst : XMMRegisterID) : BM unit :=
  prefix PRE_SSE_66;;
  twoByteOp_rr OP2_MOVD_VdEd dst src.

Definition movq_rr_xr (src : XMMRegisterID) (dst : RegisterID) : BM unit :=
  prefix PRE_SSE_66;;
  twoByteOp64_rr OP2_MOVD_EdVd src dst.

Definition movq_rr_rx (src : RegisterID) (dst : XMMRegisterID) : BM unit :=
  prefix PRE_SSE_66;;
  twoByteOp64_rr OP2_MOVD_VdEd dst src.

Definition movsd_rr (src : XMMRegisterID) (dst : XMMRegisterID) : BM unit :=
  prefix PRE_SSE_F2;;
  twoByteOp_rr OP2_MOVSD_VsdWsd dst src.

Definition movsd_rm (src : XMMRegisterID) (offset : Z) (base : RegisterID) : BM unit :=
  prefix PRE_SSE_F2;;
  twoByteOp_m OP2_MOVSD_WsdVsd src base offset.

Definition movsd_rm_sib (src : XMMRegisterID) (offset : Z) (base : RegisterID) (index : RegisterID) (scale : Z) : BM unit :=
  prefix PRE_SSE_F2;;
  twoByteOp_sib OP2_MOVSD_WsdVsd src base index scale offset.

Definition movss_rm (src : XMMRegisterID) (offset : Z) (base : RegisterID) (index : RegisterID) (scale : Z) : BM unit :=
  prefix PRE_SSE_F3;;
  twoByteOp_sib OP2_MOVSD_WsdVsd src base index scale offset.

Definition movsd_mr (offset : Z) (base : RegisterID) (dst : XMMRegisterID) : BM unit :=
  prefix PRE_SSE_F2;;
  twoByteOp_m OP2_MOVSD_VsdWsd dst base offset.

Definition movsd_mr_sib (offset : Z) (base : RegisterID) (index : RegisterID) (scale : Z) (dst : XMMRegisterID) : BM unit :=
  prefix PRE_SSE_F2;;
  twoByteOp_sib OP2_MOVSD_VsdWsd dst base index scale offset.

Definition movss_mr (offset : Z) (base : RegisterID) (index : RegisterID) (scale : Z) (dst : XMMRegisterID) : BM unit :=
  prefix PRE_SSE_F3;;
  twoByteOp_sib OP2_MOVSD_VsdWsd dst base index scale offset.

Definition movsd_mr_addr (address : Z) (dst : XMMRegisterID) : BM unit :=
  prefix PRE_SSE_F2;;
  twoByteOp_addr OP2_MOVSD_VsdWsd dst address.

Definition movsd_rm_addr (src : XMMRegisterID) (address : Z) : BM unit :=
  prefix PRE_SSE_F2;;
  twoByteOp_addr OP2_MOVSD_WsdVsd src address.

Definition mulsd_rr (src : XMMRegisterID) (dst : XMMRegisterID) : BM unit :=
  prefix PRE_SSE_F2;;
  twoByteOp_rr OP2_MULSD_VsdWsd dst src.

Definition mulsd_mr (offset : Z) (base : RegisterID) (dst : XMMRegisterID) : BM unit :=
  prefix PRE_SSE_F2;;
  twoByteOp_m OP2_MULSD_VsdWsd dst base offset.

Definition pextrw_irr (whichWord : Z) (src : XMMRegisterID) (dst : RegisterID) : BM unit :=
  prefix PRE_SSE_66;;
  twoByteOp_rr OP2_PEXTRW_GdUdIb dst src;;
  immediate8 whichWord.

Definition psllq_i8r (imm : Z) (dst : XMMRegisterID) : BM unit :=
  prefix PRE_SSE_66;;
  twoByteOp8_group OP2_PSLLQ_UdqIb GROUP14_OP_PSLLQ dst;;
  immediate8 imm.

Definition psrlq_i8r (imm : Z) (dst : XMMRegisterID) : BM unit :=
  prefix PRE_SSE_66;;
  twoByteOp8_group OP2_PSRLQ_UdqIb GROUP14_OP_PSRLQ dst;;
  immediate8 imm.

Definition por_rr (src : XMMRegisterID) (dst : XMMRegisterID) : BM unit :=
  prefix PRE_SSE_66;;
  twoByteOp_rr OP2_POR_VdqWdq dst src.

Definition subsd_rr (src : XMMRegisterID) (dst : XMMRegisterID) : BM unit :=
  prefix PRE_SSE_F2;;
  twoByteOp_rr OP2_SUBSD_VsdWsd dst src.

Definition subsd_mr (offset : Z) (base : RegisterID) (dst : XMMRegisterID) : BM unit :=
  prefix PRE_SSE_F2;;
  twoByteOp_m OP2_SUBSD_VsdWsd dst base offset.

Definition ucomisd_rr (src : XMMRegisterID) (dst : XMMRegisterID) : BM unit :=
  prefix PRE_SSE_66;;
  twoByteOp_rr OP2_UCOMISD_VsdWsd dst src.

Definition ucomisd_mr (offset : Z) (base : RegisterID) (dst : XMMRegisterID) : BM unit :=
  prefix PRE_SSE_66;;
  twoByteOp_m OP2_UCOMISD_VsdWsd dst base offset.

Definition divsd_rr (src : XMMRegisterID) (dst : XMMRegisterID) : BM unit :=
  prefix PRE_SSE_F2;;
  twoByteOp_rr OP2_DIVSD_VsdWsd dst src.

Definition divsd_mr (offset : Z) (base : RegisterID) (dst : XMMRegisterID) : BM unit :=
  prefix PRE_SSE_F2;;
  twoByteOp_m OP2_DIVSD_VsdWsd dst base offset.

Definition xorpd_rr (src : XMMRegisterID) (dst : XMMRegisterID) : BM unit :=
  prefix PRE_SSE_66;;
  twoByteOp_rr OP2_XORPD_VpdWpd dst src.

Definition andnpd_rr (src : XMMRegisterID) (dst : XMMRegisterID) : BM unit :=
  prefix PRE_SSE_66;;
  twoByteOp_rr OP2_ANDNPD_VpdWpd dst src.

Definition sqrtsd_rr (src : XMMRegisterID) (dst : XMMRegisterID) : BM unit :=
  prefix PRE_SSE_F2;;
  twoByteOp_rr OP2_SQRTSD_VsdWsd dst src.

(** ** Misc instructions *)

Definition int3 : BM unit :=
  oneByteOp OP_INT3.

Definition ret : BM unit :=
  oneByteOp OP_RET.

Definition predictNotTaken : BM unit :=
  prefix PRE_PREDICT_BRANCH_NOT_TAKEN.

Definition mfence : BM unit :=
  threeByteOp OP3_MFENCE.

(** The padding of labels. *)
Definition nop : BM unit := oneByteOp OP_NOP.

End assembler.
