(* ===== verification/X86Calls.v ===== *)
(** * The x86 assembler: its interface

    The instruction methods as a data type, [insn]: [emit] calls the method,
    [insn_ok] is what the method's declaration and assertions ask of the
    arguments (the build it is compiled in, registers that the build has, the
    index register, displacements and immediates that fit).  The result is the
    label of the methods that return one.  Every instruction is shown to fit
    the space the formatter makes for it. *)

From stdpp Require Import base numbers list.
From S2P Require Import Prelude AssemblerBuffer X86Formatter X86Assembler.

#[local] Open Scope Z_scope.

Inductive insn :=
  | I_push_r (reg : RegisterID)
  | I_pop_r (reg : RegisterID)
  | I_push_i32 (imm : Z)
  | I_push_m (offset : Z) (base : RegisterID)
  | I_pop_m (offset : Z) (base : RegisterID)
  | I_adcl_im (imm : Z) (addr : Z)
  | I_addl_rr (src : RegisterID) (dst : RegisterID)
  | I_addl_mr (offset : Z) (base : RegisterID) (dst : RegisterID)
  | I_addl_mr_addr (addr : Z) (dst : RegisterID)
  | I_addl_rm (src : RegisterID) (offset : Z) (base : RegisterID)
  | I_addl_ir (imm : Z) (dst : RegisterID)
  | I_addl_im (imm : Z) (offset : Z) (base : RegisterID)
  | I_addq_rr (src : RegisterID) (dst : RegisterID)
  | I_addq_mr (offset : Z) (base : RegisterID) (dst : RegisterID)
  | I_addq_ir (imm : Z) (dst : RegisterID)
  | I_addq_im (imm : Z) (offset : Z) (base : RegisterID)
  | I_addl_im_addr (imm : Z) (addr : Z)
  | I_andl_rr (src : RegisterID) (dst : RegisterID)
  | I_andl_mr (offset : Z) (base : RegisterID) (dst : RegisterID)
  | I_andl_rm (src : RegisterID) (offset : Z) (base : RegisterID)
  | I_andl_ir (imm : Z) (dst : RegisterID)
  | I_andl_im (imm : Z) (offset : Z) (base : RegisterID)
  | I_andq_rr (src : RegisterID) (dst : RegisterID)
  | I_andq_ir (imm : Z) (dst : RegisterID)
  | I_andl_im_addr (imm : Z) (addr : Z)
  | I_dec_r (dst : RegisterID)
  | I_decq_r (dst : RegisterID)
  | I_inc_r (dst : RegisterID)
  | I_incq_r (dst : RegisterID)
  | I_negl_r (dst : RegisterID)
  | I_negq_r (dst : RegisterID)
  | I_negl_m (offset : Z) (base : RegisterID)
  | I_notl_r (dst : RegisterID)
  | I_notl_m (offset : Z) (base : RegisterID)
  | I_orl_rr (src : RegisterID) (dst : RegisterID)
  | I_orl_mr (offset : Z) (base : RegisterID) (dst : RegisterID)
  | I_orl_rm (src : RegisterID) (offset : Z) (base : RegisterID)
  | I_orl_ir (imm : Z) (dst : RegisterID)
  | I_orl_im (imm : Z) (offset : Z) (base : RegisterID)
  | I_orq_rr (src : RegisterID) (dst : RegisterID)
  | I_orq_ir (imm : Z) (dst : RegisterID)
  | I_orl_im_addr (imm : Z) (addr : Z)
  | I_orl_rm_addr (src : RegisterID) (addr : Z)
  | I_subl_rr (src : RegisterID) (dst : RegisterID)
  | I_subl_mr (offset : Z) (base : RegisterID) (dst : RegisterID)
  | I_subl_rm (src : RegisterID) (offset : Z) (base : RegisterID)
  | I_subl_ir (imm : Z) (dst : RegisterID)
  | I_subl_im (imm : Z) (offset : Z) (base : RegisterID)
  | I_subq_rr (src : RegisterID) (dst : RegisterID)
  | I_subq_ir (imm : Z) (dst : RegisterID)
  | I_subl_im_addr (imm : Z) (addr : Z)
  | I_xorl_rr (src : RegisterID) (dst : RegisterID)
  | I_xorl_mr (offset : Z) (base : RegisterID) (dst : RegisterID)
  | I_xorl_rm (src : RegisterID) (offset : Z) (base : RegisterID)
  | I_xorl_im (imm : Z) (offset : Z) (base : RegisterID)
  | I_xorl_ir (imm : Z) (dst : RegisterID)
  | I_xorq_rr (src : RegisterID) (dst : RegisterID)
  | I_xorq_ir (imm : Z) (dst : RegisterID)
  | I_xorq_rm (src : RegisterID) (offset : Z) (base : RegisterID)
  | I_rorq_i8r (imm : Z) (dst : RegisterID)
  | I_sarl_i8r (imm : Z) (dst : RegisterID)
  | I_sarl_CLr (dst : RegisterID)
  | I_shrl_i8r (imm : Z) (dst : RegisterID)
  | I_shrl_CLr (dst : RegisterID)
  | I_shll_i8r (imm : Z) (dst : RegisterID)
  | I_shll_CLr (dst : RegisterID)
  | I_sarq_CLr (dst : RegisterID)
  | I_sarq_i8r (imm : Z) (dst : RegisterID)
  | I_shlq_i8r (imm : Z) (dst : RegisterID)
  | I_imull_rr (src : RegisterID) (dst : RegisterID)
  | I_imulq_rr (src : RegisterID) (dst : RegisterID)
  | I_imull_mr (offset : Z) (base : RegisterID) (dst : RegisterID)
  | I_imull_i32r (src : RegisterID) (value : Z) (dst : RegisterID)
  | I_idivl_r (dst : RegisterID)
  | I_cmpl_rr (src : RegisterID) (dst : RegisterID)
  | I_cmpl_rm (src : RegisterID) (offset : Z) (base : RegisterID)
  | I_cmpl_mr (offset : Z) (base : RegisterID) (src : RegisterID)
  | I_cmpl_ir (imm : Z) (dst : RegisterID)
  | I_cmpl_ir_force32 (imm : Z) (dst : RegisterID)
  | I_cmpl_im (imm : Z) (offset : Z) (base : RegisterID)
  | I_cmpb_im (imm : Z) (offset : Z) (base : RegisterID)
  | I_cmpb_im_sib (imm : Z) (offset : Z) (base : RegisterID) (index : RegisterID) (scale : Z)
  | I_cmpb_im_addr (imm : Z) (addr : Z)
  | I_cmpl_im_sib (imm : Z) (offset : Z) (base : RegisterID) (index : RegisterID) (scale : Z)
  | I_cmpl_im_force32 (imm : Z) (offset : Z) (base : RegisterID)
  | I_cmpq_rr (src : RegisterID) (dst : RegisterID)
  | I_cmpq_rm (src : RegisterID) (offset : Z) (base : RegisterID)
  | I_cmpq_rm_sib (src : RegisterID) (offset : Z) (base : RegisterID) (index : RegisterID) (scale : Z)
  | I_cmpq_mr (offset : Z) (base : RegisterID) (src : RegisterID)
  | I_cmpq_ir (imm : Z) (dst : RegisterID)
  | I_cmpq_im (imm : Z) (offset : Z) (base : RegisterID)
  | I_cmpq_im_sib (imm : Z) (offset : Z) (base : RegisterID) (index : RegisterID) (scale : Z)
  | I_cmpl_rm_addr (reg : RegisterID) (addr : Z)
  | I_cmpl_im_addr (imm : Z) (addr : Z)
  | I_cmpw_ir (imm : Z) (dst : RegisterID)
  | I_cmpw_rm (src : RegisterID) (offset : Z) (base : RegisterID) (index : RegisterID) (scale : Z)
  | I_cmpw_im (imm : Z) (offset : Z) (base : RegisterID) (index : RegisterID) (scale : Z)
  | I_testl_rr (src : RegisterID) (dst : RegisterID)
  | I_testl_i32r (imm : Z) (dst : RegisterID)
  | I_testl_i32m (imm : Z) (offset : Z) (base : RegisterID)
  | I_testb_rr (src : RegisterID) (dst : RegisterID)
  | I_testb_im (imm : Z) (offset : Z) (base : RegisterID)
  | I_testb_im_sib (imm : Z) (offset : Z) (base : RegisterID) (index : RegisterID) (scale : Z)
  | I_testb_im_addr (imm : Z) (addr : Z)
  | I_testl_i32m_sib (imm : Z) (offset : Z) (base : RegisterID) (index : RegisterID) (scale : Z)
  | I_testq_rr (src : RegisterID) (dst : RegisterID)
  | I_testq_rm (src : RegisterID) (offset : Z) (base : RegisterID)
  | I_testq_i32r (imm : Z) (dst : RegisterID)
  | I_testq_i32m (imm : Z) (offset : Z) (base : RegisterID)
  | I_testq_i32m_sib (imm : Z) (offset : Z) (base : RegisterID) (index : RegisterID) (scale : Z)
  | I_testw_rr (src : RegisterID) (dst : RegisterID)
  | I_testb_i8r (imm : Z) (dst : RegisterID)
  | I_setCC_r (cond : Condition) (dst : RegisterID)
  | I_sete_r (dst : RegisterID)
  | I_setz_r (dst : RegisterID)
  | I_setne_r (dst : RegisterID)
  | I_setnz_r (dst : RegisterID)
  | I_cdq
  | I_fstpl (offset : Z) (base : RegisterID)
  | I_xchgl_rr (src : RegisterID) (dst : RegisterID)
  | I_xchgq_rr (src : RegisterID) (dst : RegisterID)
  | I_movl_rr (src : RegisterID) (dst : RegisterID)
  | I_movl_rm (src : RegisterID) (offset : Z) (base : RegisterID)
  | I_movl_rm_disp32 (src : RegisterID) (offset : Z) (base : RegisterID)
  | I_movl_rm_sib (src : RegisterID) (offset : Z) (base : RegisterID) (index : RegisterID) (scale : Z)
  | I_movl_mEAX (addr : Z)
  | I_movl_mr (offset : Z) (base : RegisterID) (dst : RegisterID)
  | I_movl_mr_disp32 (offset : Z) (base : RegisterID) (dst : RegisterID)
  | I_movl_mr_disp8 (offset : Z) (base : RegisterID) (dst : RegisterID)
  | I_movl_mr_sib (offset : Z) (base : RegisterID) (index : RegisterID) (scale : Z) (dst : RegisterID)
  | I_movl_i32r (imm : Z) (dst : RegisterID)
  | I_movl_i32m (imm : Z) (offset : Z) (base : RegisterID)
  | I_movl_i32m_sib (imm : Z) (offset : Z) (base : RegisterID) (index : RegisterID) (scale : Z)
  | I_movb_i8m_addr (imm : Z) (addr : Z)
  | I_movb_i8m (imm : Z) (offset : Z) (base : RegisterID)
  | I_movb_i8m_sib (imm : Z) (offset : Z) (base : RegisterID) (index : RegisterID) (scale : Z)
  | I_movb_rm_addr (src : RegisterID) (addr : Z)
  | I_movb_rm (src : RegisterID) (offset : Z) (base : RegisterID)
  | I_movb_rm_sib (src : RegisterID) (offset : Z) (base : RegisterID) (index : RegisterID) (scale : Z)
  | I_movw_rm (src : RegisterID) (offset : Z) (base : RegisterID) (index : RegisterID) (scale : Z)
  | I_movl_EAXm (addr : Z)
  | I_movq_rr (src : RegisterID) (dst : RegisterID)
  | I_movq_rm (src : RegisterID) (offset : Z) (base : RegisterID)
  | I_movq_rm_disp32 (src : RegisterID) (offset : Z) (base : RegisterID)
  | I_movq_rm_sib (src : RegisterID) (offset : Z) (base : RegisterID) (index : RegisterID) (scale : Z)
  | I_movq_mEAX (addr : Z)
  | I_movq_EAXm (addr : Z)
  | I_movq_mr (offset : Z) (base : RegisterID) (dst : RegisterID)
  | I_movq_mr_disp32 (offset : Z) (base : RegisterID) (dst : RegisterID)
  | I_movq_mr_disp8 (offset : Z) (base : RegisterID) (dst : RegisterID)
  | I_movq_mr_sib (offset : Z) (base : RegisterID) (index : RegisterID) (scale : Z) (dst : RegisterID)
  | I_movq_i32m (imm : Z) (offset : Z) (base : RegisterID)
  | I_movq_i64r (imm : Z) (dst : RegisterID)
  | I_movsxd_rr (src : RegisterID) (dst : RegisterID)
  | I_movl_rm_addr (src : RegisterID) (addr : Z)
  | I_movl_mr_addr (addr : Z) (dst : RegisterID)
  | I_movl_i32m_addr (imm : Z) (addr : Z)
  | I_movzwl_mr (offset : Z) (base : RegisterID) (dst : RegisterID)
  | I_movzwl_mr_sib (offset : Z) (base : RegisterID) (index : RegisterID) (scale : Z) (dst : RegisterID)
  | I_movswl_mr (offset : Z) (base : RegisterID) (dst : RegisterID)
  | I_movswl_mr_sib (offset : Z) (base : RegisterID) (index : RegisterID) (scale : Z) (dst : RegisterID)
  | I_movzbl_mr (offset : Z) (base : RegisterID) (dst : RegisterID)
  | I_movzbl_mr_sib (offset : Z) (base : RegisterID) (index : RegisterID) (scale : Z) (dst : RegisterID)
  | I_movzbl_mr_addr (address : Z) (dst : RegisterID)
  | I_movsbl_mr (offset : Z) (base : RegisterID) (dst : RegisterID)
  | I_movsbl_mr_sib (offset : Z) (base : RegisterID) (index : RegisterID) (scale : Z) (dst : RegisterID)
  | I_movzbl_rr (src : RegisterID) (dst : RegisterID)
  | I_leal_mr (offset : Z) (base : RegisterID) (dst : RegisterID)
  | I_leaq_mr (offset : Z) (base : RegisterID) (dst : RegisterID)
  | I_call
  | I_call_r (dst : RegisterID)
  | I_call_m (offset : Z) (base : RegisterID)
  | I_jmp
  | I_jmp_r (dst : RegisterID)
  | I_jmp_m (offset : Z) (base : RegisterID)
  | I_jmp_m_addr (address : Z)
  | I_jne
  | I_jnz
  | I_je
  | I_jz
  | I_jl
  | I_jb
  | I_jle
  | I_jbe
  | I_jge
  | I_jg
  | I_ja
  | I_jae
  | I_jo
  | I_jnp
  | I_jp
  | I_js
  | I_jCC (cond : Condition)
  | I_addsd_rr (src : XMMRegisterID) (dst : XMMRegisterID)
  | I_addsd_mr (offset : Z) (base : RegisterID) (dst : XMMRegisterID)
  | I_addsd_mr_addr (address : Z) (dst : XMMRegisterID)
  | I_cvtsi2sd_rr (src : RegisterID) (dst : XMMRegisterID)
  | I_cvtsi2sdq_rr (src : RegisterID) (dst : XMMRegisterID)
  | I_cvtsi2sd_mr (offset : Z) (base : RegisterID) (dst : XMMRegisterID)
  | I_cvtsi2sd_mr_addr (address : Z) (dst : XMMRegisterID)
  | I_cvttsd2si_rr (src : XMMRegisterID) (dst : RegisterID)
  | I_cvtsd2ss_rr (src : XMMRegisterID) (dst : XMMRegisterID)
  | I_cvtss2sd_rr (src : XMMRegisterID) (dst : XMMRegisterID)
  | I_cvttsd2siq_rr (src : XMMRegisterID) (dst : RegisterID)
  | I_movd_rr_xr (src : XMMRegisterID) (dst : RegisterID)
  | I_movd_rr_rx (src : RegisterID) (dst : XMMRegisterID)
  | I_movq_rr_xr (src : XMMRegisterID) (dst : RegisterID)
  | I_movq_rr_rx (src : RegisterID) (dst : XMMRegisterID)
  | I_movsd_rr (src : XMMRegisterID) (dst : XMMRegisterID)
  | I_movsd_rm (src : XMMRegisterID) (offset : Z) (base : RegisterID)
  | I_movsd_rm_sib (src : XMMRegisterID) (offset : Z) (base : RegisterID) (index : RegisterID) (scale : Z)
  | I_movss_rm (src : XMMRegisterID) (offset : Z) (base : RegisterID) (index : RegisterID) (scale : Z)
  | I_movsd_mr (offset : Z) (base : RegisterID) (dst : XMMRegisterID)
  | I_movsd_mr_sib (offset : Z) (base : RegisterID) (index : RegisterID) (scale : Z) (dst : XMMRegisterID)
  | I_movss_mr (offset : Z) (base : RegisterID) (index : RegisterID) (scale : Z) (dst : XMMRegisterID)
  | I_movsd_mr_addr (address : Z) (dst : XMMRegisterID)
  | I_movsd_rm_addr (src : XMMRegisterID) (address : Z)
  | I_mulsd_rr (src : XMMRegisterID) (dst : XMMRegisterID)
  | I_mulsd_mr (offset : Z) (base : RegisterID) (dst : XMMRegisterID)
  | I_pextrw_irr (whichWord : Z) (src : XMMRegisterID) (dst : RegisterID)
  | I_psllq_i8r (imm : Z) (dst : XMMRegisterID)
  | I_psrlq_i8r (imm : Z) (dst : XMMRegisterID)
  | I_por_rr (src : XMMRegisterID) (dst : XMMRegisterID)
  | I_subsd_rr (src : XMMRegisterID) (dst : XMMRegisterID)
  | I_subsd_mr (offset : Z) (base : RegisterID) (dst : XMMRegisterID)
  | I_ucomisd_rr (src : XMMRegisterID) (dst : XMMRegisterID)
  | I_ucomisd_mr (offset : Z) (base : RegisterID) (dst : XMMRegisterID)
  | I_divsd_rr (src : XMMRegisterID) (dst : XMMRegisterID)
  | I_divsd_mr (offset : Z) (base : RegisterID) (dst : XMMRegisterID)
  | I_xorpd_rr (src : XMMRegisterID) (dst : XMMRegisterID)
  | I_andnpd_rr (src : XMMRegisterID) (dst : XMMRegisterID)
  | I_sqrtsd_rr (src : XMMRegisterID) (dst : XMMRegisterID)
  | I_int3
  | I_ret
  | I_predictNotTaken
  | I_mfence.

Definition silent (m : BM unit) : BM (option AssemblerLabel) := m;; mret None.
Definition labelled (m : BM AssemblerLabel) : BM (option AssemblerLabel) := l ← m; mret (Some l).

(** The index of an address is not [esp], which encodes its absence. *)
Definition indexable (index : RegisterID) : bool := negb (index =? noIndex).

Section interface.
Context `{!Target}.

Definition emit (i : insn) : BM (option AssemblerLabel) :=
  match i with
  | I_push_r reg => silent (push_r reg)
  | I_pop_r reg => silent (pop_r reg)
  | I_push_i32 imm => silent (push_i32 imm)
  | I_push_m offset base => silent (push_m offset base)
  | I_pop_m offset base => silent (pop_m offset base)
  | I_adcl_im imm addr => silent (adcl_im imm addr)
  | I_addl_rr src dst => silent (addl_rr src dst)
  | I_addl_mr offset base dst => silent (addl_mr offset base dst)
  | I_addl_mr_addr addr dst => silent (addl_mr_addr addr dst)
  | I_addl_rm src offset base => silent (addl_rm src offset base)
  | I_addl_ir imm dst => silent (addl_ir imm dst)
  | I_addl_im imm offset base => silent (addl_im imm offset base)
  | I_addq_rr src dst => silent (addq_rr src dst)
  | I_addq_mr offset base dst => silent (addq_mr offset base dst)
  | I_addq_ir imm dst => silent (addq_ir imm dst)
  | I_addq_im imm offset base => silent (addq_im imm offset base)
  | I_addl_im_addr imm addr => silent (addl_im_addr imm addr)
  | I_andl_rr src dst => silent (andl_rr src dst)
  | I_andl_mr offset base dst => silent (andl_mr offset base dst)
  | I_andl_rm src offset base => silent (andl_rm src offset base)
  | I_andl_ir imm dst => silent (andl_ir imm dst)
  | I_andl_im imm offset base => silent (andl_im imm offset base)
  | I_andq_rr src dst => silent (andq_rr src dst)
  | I_andq_ir imm dst => silent (andq_ir imm dst)
  | I_andl_im_addr imm addr => silent (andl_im_addr imm addr)
  | I_dec_r dst => silent (dec_r dst)
  | I_decq_r dst => silent (decq_r dst)
  | I_inc_r dst => silent (inc_r dst)
  | I_incq_r dst => silent (incq_r dst)
  | I_negl_r dst => silent (negl_r dst)
  | I_negq_r dst => silent (negq_r dst)
  | I_negl_m offset base => silent (negl_m offset base)
  | I_notl_r dst => silent (notl_r dst)
  | I_notl_m offset base => silent (notl_m offset base)
  | I_orl_rr src dst => silent (orl_rr src dst)
  | I_orl_mr offset base dst => silent (orl_mr offset base dst)
  | I_orl_rm src offset base => silent (orl_rm src offset base)
  | I_orl_ir imm dst => silent (orl_ir imm dst)
  | I_orl_im imm offset base => silent (orl_im imm offset base)
  | I_orq_rr src dst => silent (orq_rr src dst)
  | I_orq_ir imm dst => silent (orq_ir imm dst)
  | I_orl_im_addr imm addr => silent (orl_im_addr imm addr)
  | I_orl_rm_addr src addr => silent (orl_rm_addr src addr)
  | I_subl_rr src dst => silent (subl_rr src dst)
  | I_subl_mr offset base dst => silent (subl_mr offset base dst)
  | I_subl_rm src offset base => silent (subl_rm src offset base)
  | I_subl_ir imm dst => silent (subl_ir imm dst)
  | I_subl_im imm offset base => silent (subl_im imm offset base)
  | I_subq_rr src dst => silent (subq_rr src dst)
  | I_subq_ir imm dst => silent (subq_ir imm dst)
  | I_subl_im_addr imm addr => silent (subl_im_addr imm addr)
  | I_xorl_rr src dst => silent (xorl_rr src dst)
  | I_xorl_mr offset base dst => silent (xorl_mr offset base dst)
  | I_xorl_rm src offset base => silent (xorl_rm src offset base)
  | I_xorl_im imm offset base => silent (xorl_im imm offset base)
  | I_xorl_ir imm dst => silent (xorl_ir imm dst)
  | I_xorq_rr src dst => silent (xorq_rr src dst)
  | I_xorq_ir imm dst => silent (xorq_ir imm dst)
  | I_xorq_rm src offset base => silent (xorq_rm src offset base)
  | I_rorq_i8r imm dst => silent (rorq_i8r imm dst)
  | I_sarl_i8r imm dst => silent (sarl_i8r imm dst)
  | I_sarl_CLr dst => silent (sarl_CLr dst)
  | I_shrl_i8r imm dst => silent (shrl_i8r imm dst)
  | I_shrl_CLr dst => silent (shrl_CLr dst)
  | I_shll_i8r imm dst => silent (shll_i8r imm dst)
  | I_shll_CLr dst => silent (shll_CLr dst)
  | I_sarq_CLr dst => silent (sarq_CLr dst)
  | I_sarq_i8r imm dst => silent (sarq_i8r imm dst)
  | I_shlq_i8r imm dst => silent (shlq_i8r imm dst)
  | I_imull_rr src dst => silent (imull_rr src dst)
  | I_imulq_rr src dst => silent (imulq_rr src dst)
  | I_imull_mr offset base dst => silent (imull_mr offset base dst)
  | I_imull_i32r src value dst => silent (imull_i32r src value dst)
  | I_idivl_r dst => silent (idivl_r dst)
  | I_cmpl_rr src dst => silent (cmpl_rr src dst)
  | I_cmpl_rm src offset base => silent (cmpl_rm src offset base)
  | I_cmpl_mr offset base src => silent (cmpl_mr offset base src)
  | I_cmpl_ir imm dst => silent (cmpl_ir imm dst)
  | I_cmpl_ir_force32 imm dst => silent (cmpl_ir_force32 imm dst)
  | I_cmpl_im imm offset base => silent (cmpl_im imm offset base)
  | I_cmpb_im imm offset base => silent (cmpb_im imm offset base)
  | I_cmpb_im_sib imm offset base index scale => silent (cmpb_im_sib imm offset base index scale)
  | I_cmpb_im_addr imm addr => silent (cmpb_im_addr imm addr)
  | I_cmpl_im_sib imm offset base index scale => silent (cmpl_im_sib imm offset base index scale)
  | I_cmpl_im_force32 imm offset base => silent (cmpl_im_force32 imm offset base)
  | I_cmpq_rr src dst => silent (cmpq_rr src dst)
  | I_cmpq_rm src offset base => silent (cmpq_rm src offset base)
  | I_cmpq_rm_sib src offset base index scale => silent (cmpq_rm_sib src offset base index scale)
  | I_cmpq_mr offset base src => silent (cmpq_mr offset base src)
  | I_cmpq_ir imm dst => silent (cmpq_ir imm dst)
  | I_cmpq_im imm offset base => silent (cmpq_im imm offset base)
  | I_cmpq_im_sib imm offset base index scale => silent (cmpq_im_sib imm offset base index scale)
  | I_cmpl_rm_addr reg addr => silent (cmpl_rm_addr reg addr)
  | I_cmpl_im_addr imm addr => silent (cmpl_im_addr imm addr)
  | I_cmpw_ir imm dst => silent (cmpw_ir imm dst)
  | I_cmpw_rm src offset base index scale => silent (cmpw_rm src offset base index scale)
  | I_cmpw_im imm offset base index scale => silent (cmpw_im imm offset base index scale)
  | I_testl_rr src dst => silent (testl_rr src dst)
  | I_testl_i32r imm dst => silent (testl_i32r imm dst)
  | I_testl_i32m imm offset base => silent (testl_i32m imm offset base)
  | I_testb_rr src dst => silent (testb_rr src dst)
  | I_testb_im imm offset base => silent (testb_im imm offset base)
  | I_testb_im_sib imm offset base index scale => silent (testb_im_sib imm offset base index scale)
  | I_testb_im_addr imm addr => silent (testb_im_addr imm addr)
  | I_testl_i32m_sib imm offset base index scale => silent (testl_i32m_sib imm offset base index scale)
  | I_testq_rr src dst => silent (testq_rr src dst)
  | I_testq_rm src offset base => silent (testq_rm src offset base)
  | I_testq_i32r imm dst => silent (testq_i32r imm dst)
  | I_testq_i32m imm offset base => silent (testq_i32m imm offset base)
  | I_testq_i32m_sib imm offset base index scale => silent (testq_i32m_sib imm offset base index scale)
  | I_testw_rr src dst => silent (testw_rr src dst)
  | I_testb_i8r imm dst => silent (testb_i8r imm dst)
  | I_setCC_r cond dst => silent (setCC_r cond dst)
  | I_sete_r dst => silent (sete_r dst)
  | I_setz_r dst => silent (setz_r dst)
  | I_setne_r dst => silent (setne_r dst)
  | I_setnz_r dst => silent (setnz_r dst)
  | I_cdq => silent cdq
  | I_fstpl offset base => silent (fstpl offset base)
  | I_xchgl_rr src dst => silent (xchgl_rr src dst)
  | I_xchgq_rr src dst => silent (xchgq_rr src dst)
  | I_movl_rr src dst => silent (movl_rr src dst)
  | I_movl_rm src offset base => silent (movl_rm src offset base)
  | I_movl_rm_disp32 src offset base => silent (movl_rm_disp32 src offset base)
  | I_movl_rm_sib src offset base index scale => silent (movl_rm_sib src offset base index scale)
  | I_movl_mEAX addr => silent (movl_mEAX addr)
  | I_movl_mr offset base dst => silent (movl_mr offset base dst)
  | I_movl_mr_disp32 offset base dst => silent (movl_mr_disp32 offset base dst)
  | I_movl_mr_disp8 offset base dst => silent (movl_mr_disp8 offset base dst)
  | I_movl_mr_sib offset base index scale dst => silent (movl_mr_sib offset base index scale dst)
  | I_movl_i32r imm dst => silent (movl_i32r imm dst)
  | I_movl_i32m imm offset base => silent (movl_i32m imm offset base)
  | I_movl_i32m_sib imm offset base index scale => silent (movl_i32m_sib imm offset base index scale)
  | I_movb_i8m_addr imm addr => silent (movb_i8m_addr imm addr)
  | I_movb_i8m imm offset base => silent (movb_i8m imm offset base)
  | I_movb_i8m_sib imm offset base index scale => silent (movb_i8m_sib imm offset base index scale)
  | I_movb_rm_addr src addr => silent (movb_rm_addr src addr)
  | I_movb_rm src offset base => silent (movb_rm src offset base)
  | I_movb_rm_sib src offset base index scale => silent (movb_rm_sib src offset base index scale)
  | I_movw_rm src offset base index scale => silent (movw_rm src offset base index scale)
  | I_movl_EAXm addr => silent (movl_EAXm addr)
  | I_movq_rr src dst => silent (movq_rr src dst)
  | I_movq_rm src offset base => silent (movq_rm src offset base)
  | I_movq_rm_disp32 src offset base => silent (movq_rm_disp32 src offset base)
  | I_movq_rm_sib src offset base index scale => silent (movq_rm_sib src offset base index scale)
  | I_movq_mEAX addr => silent (movq_mEAX addr)
  | I_movq_EAXm addr => silent (movq_EAXm addr)
  | I_movq_mr offset base dst => silent (movq_mr offset base dst)
  | I_movq_mr_disp32 offset base dst => silent (movq_mr_disp32 offset base dst)
  | I_movq_mr_disp8 offset base dst => silent (movq_mr_disp8 offset base dst)
  | I_movq_mr_sib offset base index scale dst => silent (movq_mr_sib offset base index scale dst)
  | I_movq_i32m imm offset base => silent (movq_i32m imm offset base)
  | I_movq_i64r imm dst => silent (movq_i64r imm dst)
  | I_movsxd_rr src dst => silent (movsxd_rr src dst)
  | I_movl_rm_addr src addr => silent (movl_rm_addr src addr)
  | I_movl_mr_addr addr dst => silent (movl_mr_addr addr dst)
  | I_movl_i32m_addr imm addr => silent (movl_i32m_addr imm addr)
  | I_movzwl_mr offset base dst => silent (movzwl_mr offset base dst)
  | I_movzwl_mr_sib offset base index scale dst => silent (movzwl_mr_sib offset base index scale dst)
  | I_movswl_mr offset base dst => silent (movswl_mr offset base dst)
  | I_movswl_mr_sib offset base index scale dst => silent (movswl_mr_sib offset base index scale dst)
  | I_movzbl_mr offset base dst => silent (movzbl_mr offset base dst)
  | I_movzbl_mr_sib offset base index scale dst => silent (movzbl_mr_sib offset base index scale dst)
  | I_movzbl_mr_addr address dst => silent (movzbl_mr_addr address dst)
  | I_movsbl_mr offset base dst => silent (movsbl_mr offset base dst)
  | I_movsbl_mr_sib offset base index scale dst => silent (movsbl_mr_sib offset base index scale dst)
  | I_movzbl_rr src dst => silent (movzbl_rr src dst)
  | I_leal_mr offset base dst => silent (leal_mr offset base dst)
  | I_leaq_mr offset base dst => silent (leaq_mr offset base dst)
  | I_call => labelled call
  | I_call_r dst => labelled (call_r dst)
  | I_call_m offset base => silent (call_m offset base)
  | I_jmp => labelled jmp
  | I_jmp_r dst => labelled (jmp_r dst)
  | I_jmp_m offset base => silent (jmp_m offset base)
  | I_jmp_m_addr address => silent (jmp_m_addr address)
  | I_jne => labelled jne
  | I_jnz => labelled jnz
  | I_je => labelled je
  | I_jz => labelled jz
  | I_jl => labelled jl
  | I_jb => labelled jb
  | I_jle => labelled jle
  | I_jbe => labelled jbe
  | I_jge => labelled jge
  | I_jg => labelled jg
  | I_ja => labelled ja
  | I_jae => labelled jae
  | I_jo => labelled jo
  | I_jnp => labelled jnp
  | I_jp => labelled jp
  | I_js => labelled js
  | I_jCC cond => labelled (jCC cond)
  | I_addsd_rr src dst => silent (addsd_rr src dst)
  | I_addsd_mr offset base dst => silent (addsd_mr offset base dst)
  | I_addsd_mr_addr address dst => silent (addsd_mr_addr address dst)
  | I_cvtsi2sd_rr src dst => silent (cvtsi2sd_rr src dst)
  | I_cvtsi2sdq_rr src dst => silent (cvtsi2sdq_rr src dst)
  | I_cvtsi2sd_mr offset base dst => silent (cvtsi2sd_mr offset base dst)
  | I_cvtsi2sd_mr_addr address dst => silent (cvtsi2sd_mr_addr address dst)
  | I_cvttsd2si_rr src dst => silent (cvttsd2si_rr src dst)
  | I_cvtsd2ss_rr src dst => silent (cvtsd2ss_rr src dst)
  | I_cvtss2sd_rr src dst => silent (cvtss2sd_rr src dst)
  | I_cvttsd2siq_rr src dst => silent (cvttsd2siq_rr src dst)
  | I_movd_rr_xr src dst => silent (movd_rr_xr src dst)
  | I_movd_rr_rx src dst => silent (movd_rr_rx src dst)
  | I_movq_rr_xr src dst => silent (movq_rr_xr src dst)
  | I_movq_rr_rx src dst => silent (movq_rr_rx src dst)
  | I_movsd_rr src dst => silent (movsd_rr src dst)
  | I_movsd_rm src offset base => silent (movsd_rm src offset base)
  | I_movsd_rm_sib src offset base index scale => silent (movsd_rm_sib src offset base index scale)
  | I_movss_rm src offset base index scale => silent (movss_rm src offset base index scale)
  | I_movsd_mr offset base dst => silent (movsd_mr offset base dst)
  | I_movsd_mr_sib offset base index scale dst => silent (movsd_mr_sib offset base index scale dst)
  | I_movss_mr offset base index scale dst => silent (movss_mr offset base index scale dst)
  | I_movsd_mr_addr address dst => silent (movsd_mr_addr address dst)
  | I_movsd_rm_addr src address => silent (movsd_rm_addr src address)
  | I_mulsd_rr src dst => silent (mulsd_rr src dst)
  | I_mulsd_mr offset base dst => silent (mulsd_mr offset base dst)
  | I_pextrw_irr whichWord src dst => silent (pextrw_irr whichWord src dst)
  | I_psllq_i8r imm dst => silent (psllq_i8r imm dst)
  | I_psrlq_i8r imm dst => silent (psrlq_i8r imm dst)
  | I_por_rr src dst => silent (por_rr src dst)
  | I_subsd_rr src dst => silent (subsd_rr src dst)
  | I_subsd_mr offset base dst => silent (subsd_mr offset base dst)
  | I_ucomisd_rr src dst => silent (ucomisd_rr src dst)
  | I_ucomisd_mr offset base dst => silent (ucomisd_mr offset base dst)
  | I_divsd_rr src dst => silent (divsd_rr src dst)
  | I_divsd_mr offset base dst => silent (divsd_mr offset base dst)
  | I_xorpd_rr src dst => silent (xorpd_rr src dst)
  | I_andnpd_rr src dst => silent (andnpd_rr src dst)
  | I_sqrtsd_rr src dst => silent (sqrtsd_rr src dst)
  | I_int3 => silent int3
  | I_ret => silent ret
  | I_predictNotTaken => silent predictNotTaken
  | I_mfence => silent mfence
  end.

Definition insn_ok (i : insn) : bool :=
  match i with
  | I_push_r reg => has_reg reg
  | I_pop_r reg => has_reg reg
  | I_push_i32 _ => true
  | I_push_m _ base => has_reg base
  | I_pop_m _ base => has_reg base
  | I_adcl_im _ _ => negb x86_64
  | I_addl_rr src dst => has_reg src && has_reg dst
  | I_addl_mr _ base dst => has_reg base && has_reg dst
  | I_addl_mr_addr _ dst => negb x86_64 && has_reg dst
  | I_addl_rm src _ base => has_reg src && has_reg base
  | I_addl_ir _ dst => has_reg dst
  | I_addl_im _ _ base => has_reg base
  | I_addq_rr src dst => x86_64 && has_reg src && has_reg dst
  | I_addq_mr _ base dst => x86_64 && has_reg base && has_reg dst
  | I_addq_ir _ dst => x86_64 && has_reg dst
  | I_addq_im _ _ base => x86_64 && has_reg base
  | I_addl_im_addr _ _ => negb x86_64
  | I_andl_rr src dst => has_reg src && has_reg dst
  | I_andl_mr _ base dst => has_reg base && has_reg dst
  | I_andl_rm src _ base => has_reg src && has_reg base
  | I_andl_ir _ dst => has_reg dst
  | I_andl_im _ _ base => has_reg base
  | I_andq_rr src dst => x86_64 && has_reg src && has_reg dst
  | I_andq_ir _ dst => x86_64 && has_reg dst
  | I_andl_im_addr _ _ => negb x86_64
  | I_dec_r dst => has_reg dst
  | I_decq_r dst => x86_64 && has_reg dst
  | I_inc_r dst => has_reg dst
  | I_incq_r dst => x86_64 && has_reg dst
  | I_negl_r dst => has_reg dst
  | I_negq_r dst => x86_64 && has_reg dst
  | I_negl_m _ base => has_reg base
  | I_notl_r dst => has_reg dst
  | I_notl_m _ base => has_reg base
  | I_orl_rr src dst => has_reg src && has_reg dst
  | I_orl_mr _ base dst => has_reg base && has_reg dst
  | I_orl_rm src _ base => has_reg src && has_reg base
  | I_orl_ir _ dst => has_reg dst
  | I_orl_im _ _ base => has_reg base
  | I_orq_rr src dst => x86_64 && has_reg src && has_reg dst
  | I_orq_ir _ dst => x86_64 && has_reg dst
  | I_orl_im_addr _ _ => negb x86_64
  | I_orl_rm_addr src _ => negb x86_64 && has_reg src
  | I_subl_rr src dst => has_reg src && has_reg dst
  | I_subl_mr _ base dst => has_reg base && has_reg dst
  | I_subl_rm src _ base => has_reg src && has_reg base
  | I_subl_ir _ dst => has_reg dst
  | I_subl_im _ _ base => has_reg base
  | I_subq_rr src dst => x86_64 && has_reg src && has_reg dst
  | I_subq_ir _ dst => x86_64 && has_reg dst
  | I_subl_im_addr _ _ => negb x86_64
  | I_xorl_rr src dst => has_reg src && has_reg dst
  | I_xorl_mr _ base dst => has_reg base && has_reg dst
  | I_xorl_rm src _ base => has_reg src && has_reg base
  | I_xorl_im _ _ base => has_reg base
  | I_xorl_ir _ dst => has_reg dst
  | I_xorq_rr src dst => x86_64 && has_reg src && has_reg dst
  | I_xorq_ir _ dst => x86_64 && has_reg dst
  | I_xorq_rm src _ base => x86_64 && has_reg src && has_reg base
  | I_rorq_i8r _ dst => x86_64 && has_reg dst
  | I_sarl_i8r _ dst => has_reg dst
  | I_sarl_CLr dst => has_reg dst
  | I_shrl_i8r _ dst => has_reg dst
  | I_shrl_CLr dst => has_reg dst
  | I_shll_i8r _ dst => has_reg dst
  | I_shll_CLr dst => has_reg dst
  | I_sarq_CLr dst => x86_64 && has_reg dst
  | I_sarq_i8r _ dst => x86_64 && has_reg dst
  | I_shlq_i8r _ dst => x86_64 && has_reg dst
  | I_imull_rr src dst => has_reg src && has_reg dst
  | I_imulq_rr src dst => x86_64 && has_reg src && has_reg dst
  | I_imull_mr _ base dst => has_reg base && has_reg dst
  | I_imull_i32r src _ dst => has_reg src && has_reg dst
  | I_idivl_r dst => has_reg dst
  | I_cmpl_rr src dst => has_reg src && has_reg dst
  | I_cmpl_rm src _ base => has_reg src && has_reg base
  | I_cmpl_mr _ base src => has_reg base && has_reg src
  | I_cmpl_ir _ dst => has_reg dst
  | I_cmpl_ir_force32 _ dst => has_reg dst
  | I_cmpl_im _ _ base => has_reg base
  | I_cmpb_im _ _ base => has_reg base
  | I_cmpb_im_sib _ _ base index _ => has_reg base && has_reg index && indexable index
  | I_cmpb_im_addr _ _ => negb x86_64
  | I_cmpl_im_sib _ _ base index _ => has_reg base && has_reg index && indexable index
  | I_cmpl_im_force32 _ _ base => has_reg base
  | I_cmpq_rr src dst => x86_64 && has_reg src && has_reg dst
  | I_cmpq_rm src _ base => x86_64 && has_reg src && has_reg base
  | I_cmpq_rm_sib src _ base index _ => x86_64 && has_reg src && has_reg base && has_reg index && indexable index
  | I_cmpq_mr _ base src => x86_64 && has_reg base && has_reg src
  | I_cmpq_ir _ dst => x86_64 && has_reg dst
  | I_cmpq_im _ _ base => x86_64 && has_reg base
  | I_cmpq_im_sib _ _ base index _ => x86_64 && has_reg base && has_reg index && indexable index
  | I_cmpl_rm_addr reg _ => negb x86_64 && has_reg reg
  | I_cmpl_im_addr _ _ => negb x86_64
  | I_cmpw_ir _ dst => has_reg dst
  | I_cmpw_rm src _ base index _ => has_reg src && has_reg base && has_reg index && indexable index
  | I_cmpw_im _ _ base index _ => has_reg base && has_reg index && indexable index
  | I_testl_rr src dst => has_reg src && has_reg dst
  | I_testl_i32r _ dst => has_reg dst
  | I_testl_i32m _ _ base => has_reg base
  | I_testb_rr src dst => has_reg src && has_reg dst
  | I_testb_im _ _ base => has_reg base
  | I_testb_im_sib _ _ base index _ => has_reg base && has_reg index && indexable index
  | I_testb_im_addr _ _ => negb x86_64
  | I_testl_i32m_sib _ _ base index _ => has_reg base && has_reg index && indexable index
  | I_testq_rr src dst => x86_64 && has_reg src && has_reg dst
  | I_testq_rm src _ base => x86_64 && has_reg src && has_reg base
  | I_testq_i32r _ dst => x86_64 && has_reg dst
  | I_testq_i32m _ _ base => x86_64 && has_reg base
  | I_testq_i32m_sib _ _ base index _ => x86_64 && has_reg base && has_reg index && indexable index
  | I_testw_rr src dst => has_reg src && has_reg dst
  | I_testb_i8r _ dst => has_reg dst
  | I_setCC_r _ dst => has_reg dst
  | I_sete_r dst => has_reg dst
  | I_setz_r dst => has_reg dst
  | I_setne_r dst => has_reg dst
  | I_setnz_r dst => has_reg dst
  | I_cdq => true
  | I_fstpl _ base => has_reg base
  | I_xchgl_rr src dst => has_reg src && has_reg dst
  | I_xchgq_rr src dst => x86_64 && has_reg src && has_reg dst
  | I_movl_rr src dst => has_reg src && has_reg dst
  | I_movl_rm src _ base => has_reg src && has_reg base
  | I_movl_rm_disp32 src _ base => has_reg src && has_reg base
  | I_movl_rm_sib src _ base index _ => has_reg src && has_reg base && has_reg index && indexable index
  | I_movl_mEAX _ => true
  | I_movl_mr _ base dst => has_reg base && has_reg dst
  | I_movl_mr_disp32 _ base dst => has_reg base && has_reg dst
  | I_movl_mr_disp8 offset base dst => has_reg base && has_reg dst && CAN_SIGN_EXTEND_8_32 offset
  | I_movl_mr_sib _ base index _ dst => has_reg base && has_reg index && has_reg dst && indexable index
  | I_movl_i32r _ dst => has_reg dst
  | I_movl_i32m _ _ base => has_reg base
  | I_movl_i32m_sib _ _ base index _ => has_reg base && has_reg index && indexable index
  | I_movb_i8m_addr imm _ => negb x86_64 && ((-128 <=? imm) && (imm <? 128))
  | I_movb_i8m imm _ base => has_reg base && ((-128 <=? imm) && (imm <? 128))
  | I_movb_i8m_sib imm _ base index _ => has_reg base && has_reg index && indexable index && ((-128 <=? imm) && (imm <? 128))
  | I_movb_rm_addr src _ => negb x86_64 && has_reg src
  | I_movb_rm src _ base => has_reg src && has_reg base
  | I_movb_rm_sib src _ base index _ => has_reg src && has_reg base && has_reg index && indexable index
  | I_movw_rm src _ base index _ => has_reg src && has_reg base && has_reg index && indexable index
  | I_movl_EAXm _ => true
  | I_movq_rr src dst => x86_64 && has_reg src && has_reg dst
  | I_movq_rm src _ base => x86_64 && has_reg src && has_reg base
  | I_movq_rm_disp32 src _ base => x86_64 && has_reg src && has_reg base
  | I_movq_rm_sib src _ base index _ => x86_64 && has_reg src && has_reg base && has_reg index && indexable index
  | I_movq_mEAX _ => x86_64
  | I_movq_EAXm _ => x86_64
  | I_movq_mr _ base dst => x86_64 && has_reg base && has_reg dst
  | I_movq_mr_disp32 _ base dst => x86_64 && has_reg base && has_reg dst
  | I_movq_mr_disp8 offset base dst => x86_64 && has_reg base && has_reg dst && CAN_SIGN_EXTEND_8_32 offset
  | I_movq_mr_sib _ base index _ dst => x86_64 && has_reg base && has_reg index && has_reg dst && indexable index
  | I_movq_i32m _ _ base => x86_64 && has_reg base
  | I_movq_i64r _ dst => x86_64 && has_reg dst
  | I_movsxd_rr src dst => x86_64 && has_reg src && has_reg dst
  | I_movl_rm_addr src _ => negb x86_64 && has_reg src
  | I_movl_mr_addr _ dst => negb x86_64 && has_reg dst
  | I_movl_i32m_addr _ _ => negb x86_64
  | I_movzwl_mr _ base dst => has_reg base && has_reg dst
  | I_movzwl_mr_sib _ base index _ dst => has_reg base && has_reg index && has_reg dst && indexable index
  | I_movswl_mr _ base dst => has_reg base && has_reg dst
  | I_movswl_mr_sib _ base index _ dst => has_reg base && has_reg index && has_reg dst && indexable index
  | I_movzbl_mr _ base dst => has_reg base && has_reg dst
  | I_movzbl_mr_sib _ base index _ dst => has_reg base && has_reg index && has_reg dst && indexable index
  | I_movzbl_mr_addr _ dst => negb x86_64 && has_reg dst
  | I_movsbl_mr _ base dst => has_reg base && has_reg dst
  | I_movsbl_mr_sib _ base index _ dst => has_reg base && has_reg index && has_reg dst && indexable index
  | I_movzbl_rr src dst => has_reg src && has_reg dst
  | I_leal_mr _ base dst => has_reg base && has_reg dst
  | I_leaq_mr _ base dst => x86_64 && has_reg base && has_reg dst
  | I_call => true
  | I_call_r dst => has_reg dst
  | I_call_m _ base => has_reg base
  | I_jmp => true
  | I_jmp_r dst => has_reg dst
  | I_jmp_m _ base => has_reg base
  | I_jmp_m_addr _ => negb x86_64
  | I_jne => true
  | I_jnz => true
  | I_je => true
  | I_jz => true
  | I_jl => true
  | I_jb => true
  | I_jle => true
  | I_jbe => true
  | I_jge => true
  | I_jg => true
  | I_ja => true
  | I_jae => true
  | I_jo => true
  | I_jnp => true
  | I_jp => true
  | I_js => true
  | I_jCC _ => true
  | I_addsd_rr src dst => has_reg src && has_reg dst
  | I_addsd_mr _ base dst => has_reg base && has_reg dst
  | I_addsd_mr_addr _ dst => negb x86_64 && has_reg dst
  | I_cvtsi2sd_rr src dst => has_reg src && has_reg dst
  | I_cvtsi2sdq_rr src dst => x86_64 && has_reg src && has_reg dst
  | I_cvtsi2sd_mr _ base dst => has_reg base && has_reg dst
  | I_cvtsi2sd_mr_addr _ dst => negb x86_64 && has_reg dst
  | I_cvttsd2si_rr src dst => has_reg src && has_reg dst
  | I_cvtsd2ss_rr src dst => has_reg src && has_reg dst
  | I_cvtss2sd_rr src dst => has_reg src && has_reg dst
  | I_cvttsd2siq_rr src dst => x86_64 && has_reg src && has_reg dst
  | I_movd_rr_xr src dst => has_reg src && has_reg dst
  | I_movd_rr_rx src dst => has_reg src && has_reg dst
  | I_movq_rr_xr src dst => x86_64 && has_reg src && has_reg dst
  | I_movq_rr_rx src dst => x86_64 && has_reg src && has_reg dst
  | I_movsd_rr src dst => has_reg src && has_reg dst
  | I_movsd_rm src _ base => has_reg src && has_reg base
  | I_movsd_rm_sib src _ base index _ => has_reg src && has_reg base && has_reg index && indexable index
  | I_movss_rm src _ base index _ => has_reg src && has_reg base && has_reg index && indexable index
  | I_movsd_mr _ base dst => has_reg base && has_reg dst
  | I_movsd_mr_sib _ base index _ dst => has_reg base && has_reg index && has_reg dst && indexable index
  | I_movss_mr _ base index _ dst => has_reg base && has_reg index && has_reg dst && indexable index
  | I_movsd_mr_addr _ dst => negb x86_64 && has_reg dst
  | I_movsd_rm_addr src _ => negb x86_64 && has_reg src
  | I_mulsd_rr src dst => has_reg src && has_reg dst
  | I_mulsd_mr _ base dst => has_reg base && has_reg dst
  | I_pextrw_irr _ src dst => has_reg src && has_reg dst
  | I_psllq_i8r _ dst => has_reg dst
  | I_psrlq_i8r _ dst => has_reg dst
  | I_por_rr src dst => has_reg src && has_reg dst
  | I_subsd_rr src dst => has_reg src && has_reg dst
  | I_subsd_mr _ base dst => has_reg base && has_reg dst
  | I_ucomisd_rr src dst => has_reg src && has_reg dst
  | I_ucomisd_mr _ base dst => has_reg base && has_reg dst
  | I_divsd_rr src dst => has_reg src && has_reg dst
  | I_divsd_mr _ base dst => has_reg base && has_reg dst
  | I_xorpd_rr src dst => has_reg src && has_reg dst
  | I_andnpd_rr src dst => has_reg src && has_reg dst
  | I_sqrtsd_rr src dst => has_reg src && has_reg dst
  | I_int3 => true
  | I_ret => true
  | I_predictNotTaken => true
  | I_mfence => true
  end.

(** ** Every instruction fits *)

(** [m] appends the bytes [bs]; a label it returns is the end of the code. *)
Definition emits (m : BM (option AssemblerLabel)) (bs : list Z) : Prop := forall b,
  buffer_wf b -> m_index b + Z.of_nat (length bs) <= maxCodeSize ->
  wp m b (fun r b' => buffer_wf b' /\ code b' = code b ++ (Some <$> bs) /\
    m_index b' = m_index b + Z.of_nat (length bs) /\ (r = None \/ r = Some (m_index b'))).

Definition emittable (m : BM (option AssemblerLabel)) : Prop :=
  exists bs, (length bs <= 17)%nat /\ emits m bs.

Lemma sized_mono k k' m : sized k m -> (k <= k')%nat -> sized k' m.
Proof. intros (bs & Hl & Hf) ?. exists bs. split; [lia | done]. Qed.

Lemma sized_prefix k p m : sized k m -> sized (S k) (prefix p;; m).
Proof.
  intros (bs & Hl & Hf). exists (u8 p :: bs). split; [simpl; lia |]. by apply putByte_formats.
Qed.

Lemma emittable_prefix p : emittable (silent (prefix p)).
Proof.
  exists [u8 p]. split; [simpl; lia |]. intros b Hwf Hmax. apply wp_bind.
  eapply wp_mono; [by apply putByte_ok |]. intros _ b' (? & ? & ?). wp_step. auto.
Qed.

Lemma emittable_silent k m : sized k m -> (k <= 17)%nat -> emittable (silent m).
Proof.
  intros (bs & Hl & Hf) ?. exists bs. split; [lia |]. intros b Hwf Hmax. apply wp_bind.
  eapply wp_mono; [by apply Hf |]. intros _ b' (? & ? & ? & ?). wp_step. auto.
Qed.

Lemma emittable_label k m : sized k m -> (k <= 17)%nat -> emittable (labelled (m;; buffer_label)).
Proof.
  intros (bs & Hl & Hf) ?. exists bs. split; [lia |]. intros b Hwf Hmax. do 2 apply wp_bind.
  eapply wp_mono; [by apply Hf |]. intros _ b' (? & ? & ? & ?). unfold buffer_label. wp_step. wp_step. auto.
Qed.

Lemma emittable_rel32 k m : sized k m -> (k <= 12)%nat -> emittable (labelled (m;; immediateRel32)).
Proof.
  intros Hs ?.
  destruct (emittable_label (k + 4) (m;; putIntUnchecked 0)) as (bs & Hl & He);
    [eapply (sized_imm _ 4); [done | apply writes_int | done | lia] | lia |].
  exists bs. split; [done |]. intros b Hwf Hmax. specialize (He b Hwf Hmax).
  revert He. unfold labelled, immediateRel32, wp, mbind, M_bind.
  destruct (m b) as [[[] b1]|]; [| done]. by destruct (putIntUnchecked 0 b1) as [[[] b2]|].
Qed.

Lemma emittable_assert (c : bool) m :
  c = true -> emittable (silent m) -> emittable (silent (asm_assert c;; m)).
Proof. by intros ->. Qed.

Lemma indexable_ne (index : RegisterID) : indexable index = true -> (index : Z) <> noIndex.
Proof. unfold indexable. intros. zlia. Qed.

(** Sizes of prefixed instructions and of those with an immediate. *)
Ltac sized_auto :=
  lazymatch goal with
  | |- sized _ (mbind _ (prefix _)) => apply sized_prefix; sized_auto
  | |- sized _ (mbind (fun _ => immediate8 _) _) =>
      eapply (sized_imm _ 1); [sized_auto | apply writes_byte | reflexivity | lia]
  | |- sized _ (mbind (fun _ => immediate16 _) _) =>
      eapply (sized_imm _ 2); [sized_auto | apply writes_short | reflexivity | lia]
  | |- sized _ (mbind (fun _ => immediate32 _) _) =>
      eapply (sized_imm _ 4); [sized_auto | apply writes_int | reflexivity | lia]
  | |- sized _ (mbind (fun _ => immediate64 _) _) =>
      eapply (sized_imm _ 8); [sized_auto | apply writes_quad | reflexivity | lia]
  | |- sized _ _ => solve [eauto using indexable_ne with asm]
  end.

Ltac unfold_head m :=
  lazymatch m with
  | ?f _ => unfold_head f
  | mbind => idtac
  | _ => unfold m
  end.

Ltac emit_auto :=
  lazymatch goal with
  | |- emittable (silent (prefix _)) => apply emittable_prefix
  | |- emittable (silent (mbind _ (asm_assert _))) => apply emittable_assert; [lia | emit_auto]
  | |- emittable (silent (if ?c then _ else _)) => destruct c; emit_auto
  | |- emittable (silent (mbind (fun _ => if ?c then _ else _) _)) => destruct c; emit_auto
  | |- emittable (silent ?m) =>
      first [ eapply emittable_silent; [sized_auto | lia]
            | progress unfold_head m; emit_auto ]
  | |- emittable (labelled (mbind (fun _ => immediateRel32) _)) =>
      eapply emittable_rel32; [sized_auto | lia]
  | |- emittable (labelled (mbind (fun _ => buffer_label) _)) =>
      eapply emittable_label; [sized_auto | lia]
  | |- emittable (labelled ?m) => progress unfold_head m; emit_auto
  end.

Lemma emit_emittable i : insn_ok i = true -> emittable (emit i).
Proof. destruct i; cbn [insn_ok emit]; intros; zbool; emit_auto. Qed.

End interface.
