(* ===== verification/X86Link.v ===== *)
(** * The x86 assembler: labels, linking and patching

    The administrative methods of [X86Assembler] (labels, the padding that
    keeps watchpoints apart, alignment) and those that change code already
    written: in the buffer ([linkJump]) and in memory, at an address.  Memory
    is a region: its base address and its bytes. *)

From stdpp Require Import base numbers list.
From S2P Require Import Prelude AssemblerBuffer X86Formatter X86Assembler X86Calls.

#[local] Open Scope Z_scope.

(** ** Memory *)

Record region := mk_region { r_base : Z; r_cells : cells }.

Abbreviation RM := (M asm_fault region).

Definition mem_store (where_ : Z) (bs : list Z) : RM unit :=
  r ← mget;
  l ← of_opt Asm_oob (cells_store (r_cells r) (where_ - r_base r) bs);
  mput (mk_region (r_base r) l).

(** A read of bytes that were all written. *)
Definition mem_load (where_ : Z) (n : nat) : RM (list Z) :=
  r ← mget;
  l ← of_opt Asm_oob (cells_load (r_cells r) (where_ - r_base r) n);
  of_opt Asm_uninit (mapM id l).

(** Bytes stored one after the other. *)
Fixpoint mem_store_each (where_ : Z) (bs : list Z) : RM unit :=
  match bs with
  | [] => mret tt
  | b :: bs' => mem_store where_ [b];; mem_store_each (where_ + 1) bs'
  end.

Section patching.
Context `{!Target}.

Definition pointer_bytes : nat := if x86_64 then 8 else 4.

(** The difference of two addresses as [intptr_t]. *)
Definition intptr_sub (a b : Z) : RM Z :=
  let w := 8 * Z.of_nat pointer_bytes in
  let d := swrap w a - swrap w b in
  if (- 2 ^ (w - 1) <=? d) && (d <? 2 ^ (w - 1)) then mret d else mfail Asm_overflow.

Definition setPointer (where_ value : Z) : RM unit :=
  mem_store (where_ - Z.of_nat pointer_bytes) (le_bytes pointer_bytes value).

Definition setInt32 (where_ value : Z) : RM unit := mem_store (where_ - 4) (le_bytes 4 value).

Definition setInt8 (where_ value : Z) : RM unit := mem_store (where_ - 1) (le_bytes 1 value).

Definition setRel32 (from to : Z) : RM unit :=
  offset ← intptr_sub to from;
  asm_assert (offset =? s32 offset);;
  setInt32 from offset.

Definition linkJump_code (code_ : Z) (from : AssemblerLabel) (to : Z) : RM unit :=
  asm_assert (isSet from);; setRel32 (code_ + from) to.

Definition linkCall (code_ : Z) (from : AssemblerLabel) (to : Z) : RM unit :=
  asm_assert (isSet from);; setRel32 (code_ + from) to.

Definition linkPointer (code_ : Z) (where_ : AssemblerLabel) (value : Z) : RM unit :=
  asm_assert (isSet where_);; setPointer (code_ + where_) value.

Definition relinkJump (from to : Z) : RM unit := setRel32 from to.
Definition relinkCall (from to : Z) : RM unit := setRel32 from to.

Definition repatchCompact (where_ value : Z) : RM unit :=
  asm_assert (-128 <=? value);;
  asm_assert (value <=? 127);;
  setInt8 where_ value.

Definition repatchInt32 (where_ value : Z) : RM unit := setInt32 where_ value.
Definition repatchPointer (where_ value : Z) : RM unit := setPointer where_ value.

Definition readPointer (where_ : Z) : RM Z :=
  bs ← mem_load (where_ - Z.of_nat pointer_bytes) pointer_bytes; mret (le_combine bs).

Definition maxJumpReplacementSize : Z := 5.

Definition replaceWithJump (instructionStart to : Z) : RM unit :=
  let ptr := instructionStart in
  distance ← intptr_sub to (ptr + 5);
  mem_store ptr [u8 OP_JMP_rel32];;
  mem_store (ptr + 1) (le_bytes 4 (s32 distance)).

Definition revertJumpTo_movq_i64r (instructionStart imm : Z) (dst : RegisterID) : RM unit :=
  let rexBytes := 1 in
  let opcodeBytes := 1 in
  let ptr := instructionStart in
  asm_assert (rexBytes + opcodeBytes <=? maxJumpReplacementSize);;
  mem_store ptr [u8 (Z.lor (Z.lor PRE_REX (Z.shiftl 1 3)) (Z.shiftr dst 3))];;
  mem_store (ptr + 1) [u8 (Z.lor OP_MOV_EAXIv (Z.land dst 7))];;
  mem_store_each (ptr + 2)
    (take (Z.to_nat (maxJumpReplacementSize - (rexBytes + opcodeBytes))) (le_bytes 8 imm)).

Definition revertJumpTo_cmpl_ir_force32 (instructionStart imm : Z) (dst : RegisterID) : RM unit :=
  let opcodeBytes := 1 in
  let modRMBytes := 1 in
  let ptr := instructionStart in
  asm_assert (opcodeBytes + modRMBytes <=? maxJumpReplacementSize);;
  mem_store ptr [u8 OP_GROUP1_EvIz];;
  mem_store (ptr + 1)
    [u8 (Z.lor (Z.lor (Z.shiftl ModRmRegister 6) (Z.shiftl GROUP1_OP_CMP 3)) dst)];;
  mem_store_each (ptr + 2)
    (take (Z.to_nat (maxJumpReplacementSize - (opcodeBytes + modRMBytes))) (le_bytes 4 imm)).

Definition revertJumpTo_cmpl_im_force32 (instructionStart imm offset : Z) (dst : RegisterID)
    : RM unit :=
  asm_assert (offset =? 0);;
  let opcodeBytes := 1 in
  let modRMBytes := 1 in
  let ptr := instructionStart in
  asm_assert (opcodeBytes + modRMBytes <=? maxJumpReplacementSize);;
  mem_store ptr [u8 OP_GROUP1_EvIz];;
  mem_store (ptr + 1)
    [u8 (Z.lor (Z.lor (Z.shiftl ModRmMemoryNoDisp 6) (Z.shiftl GROUP1_OP_CMP 3)) dst)];;
  mem_store_each (ptr + 2)
    (take (Z.to_nat (maxJumpReplacementSize - (opcodeBytes + modRMBytes))) (le_bytes 4 imm)).

Definition mem_byte (ptr : Z) : RM Z := bs ← mem_load ptr 1; mret (le_combine bs).

(** The address of the opcode, after a REX prefix. *)
Definition skip_rex (ptr : Z) : RM Z :=
  if x86_64 then b ← mem_byte ptr; mret (if Z.land b (Z.lnot 15) =? PRE_REX then ptr + 1 else ptr)
  else mret ptr.

Definition replaceWithLoad (instructionStart : Z) : RM unit :=
  ptr ← skip_rex instructionStart;
  b ← mem_byte ptr;
  if b =? OP_MOV_GvEv then mret tt
  else if b =? OP_LEA then mem_store ptr [u8 OP_MOV_GvEv]
  else mfail Asm_crash.

Definition replaceWithAddressComputation (instructionStart : Z) : RM unit :=
  ptr ← skip_rex instructionStart;
  b ← mem_byte ptr;
  if b =? OP_MOV_GvEv then mem_store ptr [u8 OP_LEA]
  else if b =? OP_LEA then mret tt
  else mfail Asm_crash.

Definition fillNops (base_ size : Z) : RM unit :=
  mem_store base_ (replicate (Z.to_nat size) (u8 OP_NOP)).

Definition getCallReturnOffset (call_ : AssemblerLabel) : RM Z :=
  asm_assert (isSet call_);; mret (call_ : Z).

Definition getRelocatedAddress (code_ : Z) (label_ : AssemblerLabel) : RM Z :=
  asm_assert (isSet label_);; mret (uwrap (8 * Z.of_nat pointer_bytes) (code_ + label_)).

Definition getDifferenceBetweenLabels (a b : AssemblerLabel) : Z := s32 (b - a).

End patching.

(** ** The assembler *)

Definition INT_MIN : Z := -2147483648.

Record X86Assembler := mk_assembler {
  m_buffer : AssemblerBuffer;
  m_indexOfLastWatchpoint : Z;
  m_indexOfTailOfLastWatchpoint : Z
}.

Definition eta_assembler (a : X86Assembler) : X86Assembler :=
  mk_assembler (m_buffer a) (m_indexOfLastWatchpoint a) (m_indexOfTailOfLastWatchpoint a).

#[global] Instance upd_m_buffer : Upd m_buffer := ltac:(mk_upd eta_assembler m_buffer).
#[global] Instance upd_m_indexOfLastWatchpoint : Upd m_indexOfLastWatchpoint :=
  ltac:(mk_upd eta_assembler m_indexOfLastWatchpoint).
#[global] Instance upd_m_indexOfTailOfLastWatchpoint : Upd m_indexOfTailOfLastWatchpoint :=
  ltac:(mk_upd eta_assembler m_indexOfTailOfLastWatchpoint).

Definition new_assembler : X86Assembler := mk_assembler new_buffer INT_MIN INT_MIN.

Abbreviation XM := (M asm_fault X86Assembler).

Definition on_buffer {A} (m : BM A) : XM A := fun a =>
  match m (m_buffer a) with
  | Ok (x, b) => Ok (x, a <| m_buffer := b |>)
  | Err e => Err e
  end.

Section admin.
Context `{!Target}.

Fixpoint label_loop (fuel : nat) (result : AssemblerLabel) : XM AssemblerLabel :=
  match fuel with
  | O => mfail Asm_fuel
  | S fuel' =>
      a ← mget;
      if s32 result <? m_indexOfTailOfLastWatchpoint a then
        on_buffer nop;;
        result ← on_buffer buffer_label;
        label_loop fuel' result
      else mret result
  end.

(** At most as many [nop]s as there are bytes up to the end of the watchpoint. *)
Definition label : XM AssemblerLabel :=
  result ← on_buffer buffer_label;
  a ← mget;
  label_loop (S (Z.to_nat (m_indexOfTailOfLastWatchpoint a - result))) result.

Definition labelIgnoringWatchpoints : XM AssemblerLabel := on_buffer buffer_label.

Definition labelForWatchpoint : XM AssemblerLabel :=
  result ← on_buffer buffer_label;
  a ← mget;
  result ← (if s32 result =? m_indexOfLastWatchpoint a then mret result else label);
  mmod (fun a => a <| m_indexOfLastWatchpoint := s32 result |>);;
  mmod (fun a => a <| m_indexOfTailOfLastWatchpoint := s32 (result + maxJumpReplacementSize) |>);;
  mret result.

Fixpoint align_loop (fuel : nat) (alignment : Z) : XM unit :=
  match fuel with
  | O => mfail Asm_fuel
  | S fuel' =>
      a ← mget;
      if isAligned (m_buffer a) alignment then mret tt
      else on_buffer (oneByteOp OP_HLT);; align_loop fuel' alignment
  end.

Definition align (alignment : Z) : XM AssemblerLabel :=
  align_loop (Z.to_nat alignment) alignment;; label.

(** The buffer's bytes, at the address [data] where they happen to be. *)
Definition on_code {A} (data : Z) (m : RM A) : XM A := fun a =>
  match m (mk_region data (m_storage (m_buffer a))) with
  | Ok (x, r) => Ok (x, a <| m_buffer := (m_buffer a) <| m_storage := r_cells r |> |>)
  | Err e => Err e
  end.

Definition linkJump (data : Z) (from to : AssemblerLabel) : XM unit :=
  asm_assert (isSet from);;
  asm_assert (isSet to);;
  on_code data
    (bs ← mem_load (data + from - 4) 4;
     asm_assert (le_combine bs =? 0);;
     setRel32 (data + from) (data + to)).

(** ** Programs: sequences of the assembler's methods *)

Inductive asm_op :=
  | Insn (i : insn)
  | Label
  | LabelIgnoringWatchpoints
  | LabelForWatchpoint
  | Align (alignment : Z).

Definition run_op (o : asm_op) : XM (option AssemblerLabel) :=
  match o with
  | Insn i => on_buffer (emit i)
  | Label => l ← label; mret (Some l)
  | LabelIgnoringWatchpoints => l ← labelIgnoringWatchpoints; mret (Some l)
  | LabelForWatchpoint => l ← labelForWatchpoint; mret (Some l)
  | Align n => l ← align n; mret (Some l)
  end.

Fixpoint run_ops (os : list asm_op) : XM (list (option AssemblerLabel)) :=
  match os with
  | [] => mret []
  | o :: os' => l ← run_op o; ls ← run_ops os'; mret (l :: ls)
  end.

End admin.
