(* ===== verification/X86LinkProof.v ===== *)
(** * The x86 assembler: programs are safe and watchpoints stay apart

    Every sequence of the assembler's methods runs without a fault, and the
    labels it hands out keep clear of the code that may be overwritten by a
    jump at a watchpoint. *)

From stdpp Require Import base numbers list.
From S2P Require Import Prelude AssemblerBuffer X86Formatter X86Assembler X86Calls X86Link.

#[local] Open Scope Z_scope.

(** ** Invariant *)

Definition no_watchpoint (a : X86Assembler) : Prop :=
  m_indexOfLastWatchpoint a = INT_MIN /\ m_indexOfTailOfLastWatchpoint a = INT_MIN.

Definition watchpoint_at (w : Z) (a : X86Assembler) : Prop :=
  m_indexOfLastWatchpoint a = w /\ m_indexOfTailOfLastWatchpoint a = w + maxJumpReplacementSize /\
  0 <= w <= m_index (m_buffer a).

Record asm_wf (a : X86Assembler) : Prop := mk_asm_wf {
  asm_buffer : buffer_wf (m_buffer a);
  asm_watch : no_watchpoint a \/ exists w, watchpoint_at w a
}.

Abbreviation size a := (m_index (m_buffer a)).
Abbreviation tail a := (m_indexOfTailOfLastWatchpoint a).

Lemma new_assembler_wf : asm_wf new_assembler.
Proof. constructor; [apply new_buffer_wf | by left]. Qed.

Lemma s32_id x : -2147483648 <= x < 2147483648 -> s32 x = x.
Proof.
  intros. unfold s32, swrap. change (2 ^ 32) with 4294967296. change (2 ^ (32 - 1)) with 2147483648.
  destruct (Z.ltb_spec x 0).
  - replace (x `mod` 4294967296) with (x + 4294967296);
      [case_match; zlia |].
    apply Z.mod_unique with (-1); lia.
  - rewrite Z.mod_small by lia. case_match; zlia.
Qed.

Lemma swrap_uwrap w x : 0 <= w -> swrap w (uwrap w x) = swrap w x.
Proof. intros. unfold swrap, uwrap. by rewrite Z.mod_mod by lia. Qed.

Lemma asm_size a : asm_wf a -> 0 <= size a.
Proof. intros [[]]. lia. Qed.

Lemma asm_tail a : asm_wf a -> tail a <= size a + maxJumpReplacementSize.
Proof.
  intros [[] [[_ Ht] | (w & _ & Ht & ?)]]; rewrite Ht; unfold INT_MIN, maxJumpReplacementSize; lia.
Qed.

Lemma wp_on_buffer {A} (m : BM A) a (Q : A -> X86Assembler -> Prop) :
  wp m (m_buffer a) (fun x b => Q x (a <| m_buffer := b |>)) -> wp (on_buffer m) a Q.
Proof. unfold wp, on_buffer. by destruct (m (m_buffer a)) as [[x b]|]. Qed.

(** More code keeps the invariant. *)
Lemma asm_wf_grow a b :
  asm_wf a -> buffer_wf b -> size a <= m_index b -> asm_wf (a <| m_buffer := b |>).
Proof.
  intros [Hb Hw] Hb' Hi. constructor; [done |]. destruct Hw as [Hn | (w & H1 & H2 & H3)]; [by left |].
  right. exists w. split_and!; simpl; (done || lia).
Qed.

(** What a method that only appends [bs] does to the assembler. *)
Definition appended (bs : list Z) (a a' : X86Assembler) : Prop :=
  asm_wf a' /\ code (m_buffer a') = code (m_buffer a) ++ (Some <$> bs) /\
  size a' = size a + Z.of_nat (length bs) /\
  m_indexOfLastWatchpoint a' = m_indexOfLastWatchpoint a /\ tail a' = tail a.

Lemma appended_nil a : asm_wf a -> appended [] a a.
Proof. intros. unfold appended. simpl. rewrite app_nil_r. split_and!; (done || lia). Qed.

Lemma appended_trans bs cs a1 a2 a3 :
  appended bs a1 a2 -> appended cs a2 a3 -> appended (bs ++ cs) a1 a3.
Proof.
  intros (_ & Hc1 & Hs1 & Hl1 & Ht1) (Hwf & Hc2 & Hs2 & Hl2 & Ht2). unfold appended.
  rewrite length_app. split_and!; [done | | lia | congruence | congruence].
  by rewrite Hc2, Hc1, fmap_app, app_assoc.
Qed.

Lemma on_buffer_formats m bs a :
  formats m bs -> asm_wf a -> size a + Z.of_nat (length bs) <= maxCodeSize ->
  wp (on_buffer m) a (fun _ a' => appended bs a a').
Proof.
  intros Hm Hwf Hmax. apply wp_on_buffer.
  eapply wp_mono; [apply Hm; [apply Hwf | done] |]. intros _ b' (Hwf' & Hc & Hi & _).
  split_and!; [apply asm_wf_grow; (done || lia) | done | done | done | done].
Qed.

Section programs.
Context `{!Target}.

(** ** Labels *)

Lemma label_loop_ok n a :
  asm_wf a -> (n = Z.to_nat (tail a - size a))%nat ->
  size a + Z.of_nat n <= maxCodeSize ->
  wp (label_loop (S n) (size a)) a (fun l a' =>
    l = size a' /\ appended (replicate n OP_NOP) a a').
Proof.
  revert a. induction n as [|n IH]; intros a Hwf Hn Hmax;
    pose proof (asm_size a Hwf); pose proof (asm_tail a Hwf);
    unfold maxCodeSize, maxJumpReplacementSize in *; cbn [label_loop];
    wp_step; wp_step; rewrite s32_id by lia.
  - rewrite (proj2 (Z.ltb_ge _ _)) by lia. wp_step. split; [done | by apply appended_nil].
  - rewrite (proj2 (Z.ltb_lt _ _)) by lia. wp_step.
    eapply wp_mono; [apply (on_buffer_formats _ [OP_NOP]); [| done | simpl; unfold maxCodeSize; lia] |].
    { eapply formats_cast; [apply oneByteOp_formats | done]. }
    intros [] a1 Ha1. pose proof Ha1 as (Hwf1 & _ & Hs1 & _ & Ht1). simpl in Hs1.
    wp_step. apply wp_on_buffer. unfold buffer_label. wp_step.
    eapply wp_mono.
    + replace (a1 <| m_buffer := m_buffer a1 |>) with a1 by (by destruct a1).
      apply IH; [done | lia | unfold maxCodeSize; lia].
    + intros l a2 [-> Ha2]. split; [done |]. by apply (appended_trans [OP_NOP] (replicate n OP_NOP) _ a1).
Qed.

Lemma label_ok a :
  asm_wf a -> size a + maxJumpReplacementSize <= maxCodeSize ->
  wp label a (fun l a' => l = size a' /\ size a' = Z.max (size a) (tail a) /\
    appended (replicate (Z.to_nat (tail a - size a)) OP_NOP) a a').
Proof.
  intros Hwf Hmax. pose proof (asm_size a Hwf). pose proof (asm_tail a Hwf).
  unfold label. wp_step. apply wp_on_buffer. unfold buffer_label. wp_step. wp_step. wp_step.
  replace (a <| m_buffer := m_buffer a |>) with a by (by destruct a).
  eapply wp_mono; [apply label_loop_ok; [done | done | unfold maxJumpReplacementSize in *; lia] |].
  intros l a' [-> Ha]. split_and!; [done | | done].
  destruct Ha as (_ & _ & -> & _). rewrite length_replicate. lia.
Qed.

Lemma labelForWatchpoint_ok a :
  asm_wf a -> size a + maxJumpReplacementSize <= maxCodeSize ->
  wp labelForWatchpoint a (fun l a' => l = size a' /\ watchpoint_at l a' /\ asm_wf a' /\
    size a <= size a' <= size a + maxJumpReplacementSize /\
    (l = m_indexOfLastWatchpoint a \/ tail a <= l)).
Proof.
  intros Hwf Hmax. pose proof (asm_size a Hwf). pose proof (asm_tail a Hwf).
  unfold labelForWatchpoint. wp_step. apply wp_on_buffer. unfold buffer_label. wp_step.
  wp_step. wp_step. wp_step.
  replace (a <| m_buffer := m_buffer a |>) with a by (by destruct a).
  eapply (wp_mono _ _ (fun l a' => l = size a' /\ asm_wf a' /\
    size a <= size a' <= size a + maxJumpReplacementSize /\
    (l = m_indexOfLastWatchpoint a \/ tail a <= l))).
  - unfold maxCodeSize, maxJumpReplacementSize in *. rewrite s32_id by lia. apply wp_if; intros He.
    + wp_step. zbool. split_and!; (done || lia || by left).
    + eapply wp_mono; [by apply label_ok |]. intros l a' (-> & Hs & Hap).
      split_and!; [done | apply Hap | lia | lia | right; lia].
  - intros l a' (-> & Hwf' & Hs & Hl). wp_step. wp_step. wp_step. wp_step. wp_step.
    unfold maxCodeSize, maxJumpReplacementSize in *. cbn [m_buffer].
    pose proof (asm_size a' Hwf').
    rewrite !s32_id by (unfold maxJumpReplacementSize; lia).
    assert (watchpoint_at (size a') (a' <| m_indexOfLastWatchpoint := size a' |>
      <| m_indexOfTailOfLastWatchpoint := size a' + maxJumpReplacementSize |>)) as Hw
      by (split_and!; simpl; (done || lia)).
    split_and!; [done | done | | simpl; lia | simpl; lia | done].
    constructor; [apply Hwf' | right; by eexists].
Qed.

(** ** Alignment *)

Lemma isAligned_mod b k :
  0 <= k -> isAligned b (2 ^ k) = (m_index b `mod` 2 ^ k =? 0).
Proof. intros. unfold isAligned. by rewrite Z.sub_1_r, <- Z.ones_equiv, Z.land_ones. Qed.

(** The bytes missing to the next multiple. *)
Definition padding (i n : Z) : Z := (- i) `mod` n.

Lemma padding_step i n :
  0 < n -> i `mod` n <> 0 -> padding (i + 1) n = padding i n - 1 /\ 0 < padding i n.
Proof.
  intros Hn Hi. unfold padding. pose proof (Z.mod_pos_bound i n Hn).
  pose proof (Z.mod_opp_l_nz i n ltac:(lia) Hi) as ->.
  split; [| lia]. symmetry. apply Z.mod_unique with (- (i `div` n) - 1); [lia |].
  pose proof (Z.div_mod i n ltac:(lia)). lia.
Qed.

Lemma align_loop_ok k fuel a :
  0 <= k -> asm_wf a -> padding (size a) (2 ^ k) < Z.of_nat fuel ->
  size a + padding (size a) (2 ^ k) <= maxCodeSize ->
  wp (align_loop fuel (2 ^ k)) a (fun _ a' =>
    appended (replicate (Z.to_nat (padding (size a) (2 ^ k))) OP_HLT) a a').
Proof.
  intros Hk. assert (0 < 2 ^ k) as Hpos by lia. revert a.
  induction fuel as [|fuel IH]; intros a Hwf Hf Hmax;
    [pose proof (Z.mod_pos_bound (- size a) _ Hpos); unfold padding in *; lia |].
  cbn [align_loop]. wp_step. wp_step. rewrite isAligned_mod by done. apply wp_if; intros Ha; zbool.
  - wp_step. unfold padding. rewrite Z.mod_opp_l_z by lia. by apply appended_nil.
  - destruct (padding_step (size a) (2 ^ k) Hpos Ha) as [Hp1 Hp2]. wp_step.
    eapply wp_mono; [apply (on_buffer_formats _ [OP_HLT]); [| done | simpl; lia] |].
    { eapply formats_cast; [apply oneByteOp_formats | done]. }
    intros [] a1 Ha1. pose proof Ha1 as (Hwf1 & _ & Hs1 & _). simpl in Hs1.
    change (Z.of_nat 1) with 1 in Hs1.
    eapply wp_mono; [apply IH; [done | rewrite Hs1, Hp1; lia | rewrite Hs1, Hp1; lia] |].
    intros [] a2 Ha2. rewrite Hs1, Hp1 in Ha2.
    replace (Z.to_nat (padding (size a) (2 ^ k)))
      with (S (Z.to_nat (padding (size a) (2 ^ k) - 1))) by lia.
    by apply (appended_trans [OP_HLT] (replicate _ OP_HLT) _ a1).
Qed.

Lemma align_ok k a :
  0 <= k -> asm_wf a -> size a + 2 ^ k + maxJumpReplacementSize <= maxCodeSize ->
  wp (align (2 ^ k)) a (fun l a' => l = size a' /\
    size a' = Z.max (size a + padding (size a) (2 ^ k)) (tail a) /\
    exists bs, appended bs a a').
Proof.
  intros Hk Hwf Hmax. pose proof (Z.mod_pos_bound (- size a) (2 ^ k) ltac:(lia)) as Hp.
  fold (padding (size a) (2 ^ k)) in Hp. unfold align. wp_step.
  eapply wp_mono; [apply align_loop_ok; [done | done | lia |]; unfold maxJumpReplacementSize in *; lia |].
  intros [] a1 Ha1. pose proof Ha1 as (Hwf1 & _ & Hs1 & _ & Ht1). rewrite length_replicate in Hs1.
  eapply wp_mono; [apply label_ok; [done | lia] |]. intros l a2 (-> & Hs2 & Ha2).
  split_and!; [done | rewrite Ht1 in Hs2; lia |]. eexists. by eapply appended_trans.
Qed.

(** ** One method *)

(** The arguments are in order, and a bound on what is written. *)
Definition op_ok (o : asm_op) : bool :=
  match o with
  | Insn i => insn_ok i
  | Align n => (1 <=? n) && (n =? 2 ^ Z.log2 n)
  | _ => true
  end.

Definition op_bound (o : asm_op) : Z :=
  match o with
  | Insn _ => 17
  | Label | LabelForWatchpoint => maxJumpReplacementSize
  | LabelIgnoringWatchpoints => 0
  | Align n => n + maxJumpReplacementSize
  end.

(** The labels that may be the target of a jump. *)
Definition is_target (o : asm_op) : bool :=
  match o with
  | Label | LabelForWatchpoint | Align _ => true
  | Insn _ | LabelIgnoringWatchpoints => false
  end.

(** The watchpoint [w] is known to the assembler, or behind one that is. *)
Definition protects (w : Z) (a : X86Assembler) : Prop :=
  tail a = m_indexOfLastWatchpoint a + maxJumpReplacementSize /\
  (w = m_indexOfLastWatchpoint a \/ w + maxJumpReplacementSize <= m_indexOfLastWatchpoint a).

(** Jumping to [l] does not land inside the jump planted at [w]. *)
Definition clear_of (w l : Z) : Prop := l <= w \/ w + maxJumpReplacementSize <= l.

Record op_post (o : asm_op) (a : X86Assembler) (r : option AssemblerLabel) (a' : X86Assembler)
    : Prop := mk_op_post {
  post_wf : asm_wf a';
  post_size : size a <= size a' <= size a + op_bound o;
  post_label : forall l, r = Some l -> l = size a';
  post_protects : forall w, protects w a -> protects w a';
  post_clear : forall w l, protects w a -> is_target o = true -> r = Some l -> clear_of w l;
  post_watch : forall w, o = LabelForWatchpoint -> r = Some w -> protects w a'
}.

Lemma appended_protects bs a a' w : appended bs a a' -> protects w a -> protects w a'.
Proof. intros (_ & _ & _ & Hl & Ht). unfold protects. by rewrite Hl, Ht. Qed.

(** A method that appends, and returns a label beyond the last watchpoint. *)
Lemma op_post_appended o a r a' bs :
  appended bs a a' -> Z.of_nat (length bs) <= op_bound o ->
  (forall l, r = Some l -> l = size a') -> (is_target o = true -> tail a <= size a') ->
  o <> LabelForWatchpoint -> op_post o a r a'.
Proof.
  intros Ha Hb Hr Ht Hne. pose proof Ha as (Hwf & _ & Hs & _ & _).
  constructor; [done | lia | done | by intros w; eapply appended_protects | | done].
  intros w l [Htl Hw] Hto ->. rewrite (Hr l) by done. specialize (Ht Hto). right.
  unfold maxJumpReplacementSize in *. lia.
Qed.

Lemma emit_post i a :
  insn_ok i = true -> asm_wf a -> size a + 17 <= maxCodeSize ->
  wp (on_buffer (emit i)) a (op_post (Insn i) a).
Proof.
  intros Hok Hwf Hmax. destruct (emit_emittable i Hok) as (bs & Hl & He).
  apply wp_on_buffer. eapply wp_mono; [apply He; [apply Hwf | lia] |].
  intros r b' (Hwf' & Hc & Hi & Hr). apply (op_post_appended _ _ _ _ bs); [| simpl; lia | | done | done].
  - split_and!; [apply asm_wf_grow; (done || lia) | done | done | done | done].
  - intros l ->. destruct Hr as [? | ?]; by simplify_eq.
Qed.

Lemma labelForWatchpoint_post a :
  asm_wf a -> size a + maxJumpReplacementSize <= maxCodeSize ->
  wp labelForWatchpoint a (fun l => op_post LabelForWatchpoint a (Some l)).
Proof.
  intros Hwf Hmax. eapply wp_mono; [by apply labelForWatchpoint_ok |].
  intros l a' (-> & Hw & Hwf' & Hs & Hl). destruct Hw as (Hw1 & Hw2 & Hw3).
  constructor; [done | done | by intros ? [= ->] | | |].
  - intros w (Ht & Hp). split; [lia |]. unfold maxJumpReplacementSize in *. lia.
  - intros w ? (Ht & Hp) _ [= <-]. unfold clear_of, maxJumpReplacementSize in *. lia.
  - intros w _ [= <-]. split; [lia |]. left. lia.
Qed.

Lemma asm_run_op o a :
  op_ok o = true -> asm_wf a -> size a + op_bound o <= maxCodeSize ->
  wp (run_op o) a (op_post o a).
Proof.
  intros Hok Hwf Hmax. destruct o as [i | | | | n]; cbn [run_op op_ok op_bound] in *.
  - by apply emit_post.
  - wp_step. eapply wp_mono; [by apply label_ok |]. intros l a' (-> & Hs & Ha). wp_step.
    eapply op_post_appended; [done | | by intros ? [= ->] | lia | done].
    rewrite length_replicate. pose proof (asm_tail a Hwf). simpl. unfold maxJumpReplacementSize in *. lia.
  - unfold labelIgnoringWatchpoints. wp_step. apply wp_on_buffer. unfold buffer_label. do 2 wp_step.
    replace (a <| m_buffer := m_buffer a |>) with a by (by destruct a).
    eapply op_post_appended; [by apply appended_nil | done | by intros ? [= ->] | done | done].
  - wp_step. eapply wp_mono; [by apply labelForWatchpoint_post |]. intros l a' Hp. by wp_step.
  - zbool. pose proof (Z.log2_nonneg n) as Hk. wp_step. rewrite H1.
    eapply wp_mono; [apply align_ok; [done | done | lia] |].
    intros l a' (-> & Hs & bs & Ha). wp_step.
    pose proof (Z.mod_pos_bound (- size a) (2 ^ Z.log2 n) ltac:(lia)) as Hp.
    fold (padding (size a) (2 ^ Z.log2 n)) in Hp. pose proof (asm_tail a Hwf).
    eapply op_post_appended; [done | | by intros ? [= ->] | lia | done].
    destruct Ha as (_ & _ & Hs' & _). simpl. unfold maxJumpReplacementSize in *. lia.
Qed.

(** ** Sequences *)

Definition ops_bound (os : list asm_op) : Z := foldr (fun o n => op_bound o + n) 0 os.

(** Every label that may be a target keeps clear of every watchpoint. *)
Definition labels_clear (w : Z) (os : list asm_op) (ls : list (option AssemblerLabel)) : Prop :=
  forall j o l, os !! j = Some o -> is_target o = true -> ls !! j = Some (Some l) -> clear_of w l.

Definition watchpoints_clear (os : list asm_op) (ls : list (option AssemblerLabel)) : Prop :=
  forall i w, os !! i = Some LabelForWatchpoint -> ls !! i = Some (Some w) -> labels_clear w os ls.

Record ops_post (os : list asm_op) (a : X86Assembler) (ls : list (option AssemblerLabel))
    (a' : X86Assembler) : Prop := mk_ops_post {
  ops_wf : asm_wf a';
  ops_size : size a <= size a' <= size a + ops_bound os;
  ops_length : length ls = length os;
  ops_labels : forall l, Some l ∈ ls -> size a <= l <= size a';
  ops_clear : forall w, protects w a -> labels_clear w os ls;
  ops_watch : watchpoints_clear os ls
}.

Lemma op_bound_nonneg o : op_ok o = true -> 0 <= op_bound o.
Proof. destruct o; simpl; intros; zbool; unfold maxJumpReplacementSize; lia. Qed.

Lemma ops_post_cons o os a a1 a2 r ls :
  op_post o a r a1 -> ops_post os a1 ls a2 -> ops_post (o :: os) a (r :: ls) a2.
Proof.
  intros H1 H2. pose proof (post_size _ _ _ _ H1). pose proof (ops_size _ _ _ _ H2).
  pose proof (post_label _ _ _ _ H1) as Hl. pose proof (ops_labels _ _ _ _ H2) as Hls.
  assert (forall w l, Some w ∈ ls -> r = Some l -> clear_of w l) as Hpast.
  { intros w l Hw Hr. left. specialize (Hl l Hr). specialize (Hls w Hw). lia. }
  constructor; [apply H2 | simpl; lia | simpl; f_equal; apply H2 | | |].
  - intros l [Hr | Hr]%elem_of_cons; [specialize (Hl l (eq_sym Hr)); lia |].
    specialize (Hls l Hr). lia.
  - intros w Hw [|j] o' l Ho Ht Hr; simplify_eq/=; [by eapply (post_clear _ _ _ _ H1) |].
    eapply (ops_clear _ _ _ _ H2); [by apply (post_protects _ _ _ _ H1) | done..].
  - intros [|i] w Hi Hwi [|j] o' l Hj Ht Hr; simplify_eq/=.
    + by left.
    + eapply (ops_clear _ _ _ _ H2); [by apply (post_watch _ _ _ _ H1) | done..].
    + eapply Hpast; [by eapply list_elem_of_lookup_2 | done].
    + by eapply (ops_watch _ _ _ _ H2).
Qed.

Lemma asm_run_ops os a :
  Forall (fun o => op_ok o = true) os -> asm_wf a -> size a + ops_bound os <= maxCodeSize ->
  wp (run_ops os) a (ops_post os a).
Proof.
  intros Hos. revert a. induction Hos as [|o os Ho Hos IH]; intros a Hwf Hmax; cbn [run_ops].
  - wp_step. constructor; try done; [simpl; lia | by intros l ?%elem_of_nil].
  - simpl in Hmax.
    assert (0 <= ops_bound os) by (clear -Hos; induction Hos as [|o' ? Ho']; simpl;
      [lia | pose proof (op_bound_nonneg _ Ho'); lia]).
    wp_step. eapply wp_mono; [apply asm_run_op; [done | done | lia] |]. intros r a1 Hp1. wp_step.
    pose proof (post_size _ _ _ _ Hp1).
    eapply wp_mono; [apply IH; [apply Hp1 | lia] |]. intros ls a2 Hp2. wp_step.
    by eapply ops_post_cons.
Qed.

(** ** The code of instructions *)

(** The bytes of an instruction: what the method writes into a new buffer. *)
Definition encode (i : insn) : list Z :=
  match emit i new_buffer with
  | Ok (_, b) => omap id (code b)
  | Err _ => []
  end.

Lemma omap_id_Some (bs : list Z) : omap id (Some <$> bs) = bs.
Proof. induction bs as [|b bs IH]; [done |]. simpl. by f_equal. Qed.

Lemma encode_emits i bs : (length bs <= 17)%nat -> emits (emit i) bs -> encode i = bs.
Proof.
  intros Hl He.
  destruct (wp_inv _ _ _ (He new_buffer new_buffer_wf ltac:(unfold maxCodeSize; simpl; lia)))
    as (r & b' & Heq & _ & Hc & _).
  unfold encode. rewrite Heq, Hc. apply omap_id_Some.
Qed.

Lemma emit_encode i a :
  insn_ok i = true -> asm_wf a -> size a + 17 <= maxCodeSize ->
  wp (on_buffer (emit i)) a (fun _ a' => appended (encode i) a a').
Proof.
  intros Hok Hwf Hmax. destruct (emit_emittable i Hok) as (bs & Hl & He).
  rewrite (encode_emits i bs Hl He). apply wp_on_buffer.
  eapply wp_mono; [apply He; [apply Hwf | lia] |]. intros r b' (Hwf' & Hc & Hi & Hr).
  split_and!; [apply asm_wf_grow; (done || lia) | done | done | done | done].
Qed.

Lemma length_encode i : insn_ok i = true -> (length (encode i) <= 17)%nat.
Proof. intros Hok. destruct (emit_emittable i Hok) as (bs & Hl & He). by rewrite (encode_emits i bs). Qed.

Lemma run_insns_code is_ a :
  Forall (fun i => insn_ok i = true) is_ -> asm_wf a ->
  size a + 17 * Z.of_nat (length is_) <= maxCodeSize ->
  wp (run_ops (Insn <$> is_)) a (fun _ a' => appended (concat (encode <$> is_)) a a').
Proof.
  intros His. revert a. induction His as [|i is_ Hi His IH]; intros a Hwf Hmax.
  - by apply appended_nil.
  - cbn [fmap list_fmap run_ops run_op length] in *. wp_step.
    eapply wp_mono; [apply emit_encode; [done | done | lia] |]. intros r a1 Hp1. wp_step.
    pose proof (length_encode i Hi).
    eapply wp_mono; [apply IH; [apply Hp1 | destruct Hp1 as (_ & _ & -> & _); lia] |].
    intros ls a2 Hp2. wp_step. cbn [concat]. by eapply (appended_trans _ _ _ a1).
Qed.
End programs.
