(* ===== verification/X86Decode.v ===== *)
(** * The disassembler reads back what the assembler wrote

    The x86-64 formats with a register and a register or memory operand,
    decoded by udis86: the bytes of [X86Formatter] against the decoder of
    [UdDecode].  The generated tables enter through the entry of the opcode,
    as optable.xml has it. *)

From stdpp Require Import base numbers list.
From S2P Require Import Prelude UdTypes UdInput UdDecode UdDecodeSafe UdPrefix.
From S2P Require Import AssemblerBuffer X86Formatter.

#[local] Open Scope Z_scope.

(** ** The fields of the bytes *)

(** A property of the integers below a bound, checked one by one. *)
Definition check_below (n : nat) (P : Z -> bool) : bool := forallb P (Z.of_nat <$> seq 0 n).

Lemma check_below_ok n P x : check_below n P = true -> 0 <= x < Z.of_nat n -> P x = true.
Proof.
  intros Hc Hx. unfold check_below in Hc. rewrite forallb_forall in Hc. apply Hc.
  apply list_elem_of_In, list_elem_of_fmap. exists (Z.to_nat x). rewrite elem_of_seq. lia.
Qed.

Lemma land7_field x : 0 <= Z.land x 7 < 8.
Proof. change 7 with (Z.ones 3). rewrite Z.land_ones by lia. apply Z.mod_pos_bound. lia. Qed.

(** One byte of three fields: mod/rm and SIB. *)
Definition field_byte (hi mid lo : Z) : Z :=
  u8 (Z.lor (Z.lor (Z.shiftl hi 6) (Z.shiftl mid 3)) lo).

Lemma field_byte_check :
  check_below 4 (fun h => check_below 8 (fun m => check_below 8 (fun l =>
    let b := field_byte h m l in
    (MODRM_MOD b =? h) && (MODRM_REG b =? m) && (MODRM_RM b =? l) &&
    (SIB_S b =? h) && (0 <=? b) && (b <? 256)))) = true.
Proof. by vm_compute. Qed.

Lemma enc_modrm_fields mode reg rm :
  0 <= mode < 4 ->
  MODRM_MOD (enc_modrm mode reg rm) = mode /\ MODRM_REG (enc_modrm mode reg rm) = Z.land reg 7 /\
  MODRM_RM (enc_modrm mode reg rm) = Z.land rm 7 /\
  SIB_S (enc_modrm mode reg rm) = mode /\ is_byte (enc_modrm mode reg rm).
Proof.
  intros Hm. change (enc_modrm mode reg rm) with (field_byte mode (Z.land reg 7) (Z.land rm 7)).
  pose proof (check_below_ok _ _ mode field_byte_check Hm) as H1.
  pose proof (check_below_ok _ _ (Z.land reg 7) H1 (land7_field reg)) as H2.
  pose proof (check_below_ok _ _ (Z.land rm 7) H2 (land7_field rm)) as H3.
  cbv beta zeta in H3. unfold is_byte. zbool. split_and!; lia.
Qed.

Lemma enc_rex_check (w : bool) :
  check_below 16 (fun r => check_below 16 (fun x => check_below 16 (fun b =>
    let c := enc_rex w r x b in
    (REX_W c =? b2z w) && (REX_R c =? Z.shiftr r 3) && (REX_X c =? Z.shiftr x 3) &&
    (REX_B c =? Z.shiftr b 3) && (Z.land c 0xF0 =? 0x40) && (Z.land c 0x40 =? 0x40) &&
    (Z.lor (Z.land c 0x40) (Z.land c 15) =? c) && (0 <=? c) && (c <? 256)))) = true.
Proof. destruct w; by vm_compute. Qed.

(** What the REX bits in effect say: [c] is the prefix, 0 when there is none. *)
Record rex_ok (w : bool) (r x b c : Z) : Prop := mk_rex_ok {
  rex_w : REX_W c = b2z w;
  rex_r : REX_R c = Z.shiftr r 3;
  rex_x : REX_X c = Z.shiftr x 3;
  rex_b : REX_B c = Z.shiftr b 3;
  rex_mask : Z.lor (Z.land c 0x40) (Z.land c 15) = c
}.

Lemma enc_rex_ok w r x b :
  0 <= r < 16 -> 0 <= x < 16 -> 0 <= b < 16 ->
  rex_ok w r x b (enc_rex w r x b) /\ is_rex 64 (enc_rex w r x b) = true /\
  is_byte (enc_rex w r x b).
Proof.
  intros Hr Hx Hb.
  pose proof (check_below_ok _ _ r (enc_rex_check w) Hr) as H1.
  pose proof (check_below_ok _ _ x H1 Hx) as H2.
  pose proof (check_below_ok _ _ b H2 Hb) as H3.
  cbv beta zeta in H3. unfold is_byte, is_rex. zbool. split_and!; [constructor; lia | | lia..].
  by apply Z.eqb_eq.
Qed.

Lemma no_rex_ok r x b : 0 <= r < 8 -> 0 <= x < 8 -> 0 <= b < 8 -> rex_ok false r x b 0.
Proof.
  intros. constructor; try done; symmetry; rewrite Z.shiftr_div_pow2 by lia; apply Z.div_small; lia.
Qed.

(** A register number from its field and its REX bit. *)
Lemma reg_join r : 0 <= r < 16 ->
  u8 (Z.lor (Z.shiftl (Z.shiftr r 3) 3) (Z.land r 7)) = r /\
  Z.lor (Z.land r 7) (Z.shiftl (Z.shiftr r 3) 3) = r.
Proof.
  intros Hr.
  assert (check_below 16 (fun r => (u8 (Z.lor (Z.shiftl (Z.shiftr r 3) 3) (Z.land r 7)) =? r) &&
    (Z.lor (Z.land r 7) (Z.shiftl (Z.shiftr r 3) 3) =? r)) = true) as Hc by by vm_compute.
  pose proof (check_below_ok _ _ r Hc Hr). cbv beta in *. zlia.
Qed.

(** ** Reading the bytes that follow the cursor *)

Definition reading (u : ud) (r : reader) (bs : list Z) : Prop :=
  repr (inp u) r /\ drop (r_pos r) (r_all r) = bs.

Lemma reading_lookup u r c bs : reading u r (c :: bs) ->
  r_all r !! r_pos r = Some c /\ drop (S (r_pos r)) (r_all r) = bs.
Proof.
  intros [_ Hd]. split.
  - rewrite <- (Nat.add_0_r (r_pos r)), <- lookup_drop, Hd. done.
  - rewrite <- Nat.add_1_r, <- drop_drop, Hd. done.
Qed.

Lemma reading_next u r c bs :
  reading u r (c :: bs) -> (r_ctr r < 64)%nat ->
  wp (on_inp ud_inp_next) u (fun d u' => d = c /\ u' = u <| inp := inp u' |> /\
    reading u' (reader_skip 1 r) bs).
Proof.
  intros Hr H64. destruct (reading_lookup _ _ _ _ Hr) as [Hc Hd]. destruct Hr as [Hr _].
  apply wp_on_inp. eapply wp_mono; [by apply ud_inp_next_repr |].
  intros d i' [-> Hi]. rewrite (reader_next_Some r c Hc) in *. split_and!; [done | done |].
  split; [done |]. simpl. by rewrite Nat.add_1_r.
Qed.

Lemma reading_curr u r c bs :
  reading u (reader_skip 1 r) bs -> r_all r !! r_pos r = Some c ->
  wp (on_inp ud_inp_curr) u (fun d u' => d = c /\ u' = u).
Proof.
  intros [Hr Hd] Hc. apply wp_on_inp.
  eapply wp_mono; [apply (ud_inp_curr_repr _ _ c Hr); simpl; [lia |]; by rewrite Nat.add_1_r |].
  intros d i' [-> ->]. split; [done |]. by destruct u.
Qed.

Lemma reader_skip_0 r : reader_skip 0 r = r.
Proof. destruct r. unfold reader_skip. simpl. by rewrite !Nat.add_0_r. Qed.

(** Several bytes at once. *)
Lemma reader_read_drop n r bs cs :
  drop (r_pos r) (r_all r) = bs ++ cs -> length bs = n ->
  reader_read n r = (bs, reader_skip n r).
Proof.
  revert r bs. induction n as [|n IH]; intros r bs Hd Hl.
  - apply nil_length_inv in Hl as ->. cbn [reader_read]. by rewrite reader_skip_0.
  - destruct bs as [|b bs]; [done |]. cbn [reader_read].
    assert (r_all r !! r_pos r = Some b) as Hb
      by (rewrite <- (Nat.add_0_r (r_pos r)), <- lookup_drop, Hd; done).
    rewrite (reader_next_Some r b Hb), (IH _ bs); [by rewrite reader_skip_skip | | simpl in *; lia].
    simpl. rewrite <- drop_drop, Hd. done.
Qed.

Lemma reading_skip u i' r bs cs :
  reading u r (bs ++ cs) -> repr i' (reader_skip (length bs) r) ->
  reading (u <| inp := i' |>) (reader_skip (length bs) r) cs.
Proof.
  intros [_ Hd] Hr. split; [done |]. simpl. rewrite <- drop_drop, Hd. by rewrite drop_app_length.
Qed.

Lemma reading_uint32 u r v cs :
  reading u r (le_bytes 4 v ++ cs) -> (r_ctr r + 4 <= 64)%nat ->
  wp (on_inp ud_inp_uint32) u (fun d u' => d = u32 v /\ u' = u <| inp := inp u' |> /\
    reading u' (reader_skip 4 r) cs).
Proof.
  intros Hr H64. pose proof Hr as [Hrep Hd]. apply wp_on_inp.
  eapply wp_mono; [by apply ud_inp_uint32_repr |]. intros d i' [-> Hi].
  rewrite (reader_read_drop 4 r (le_bytes 4 v) cs Hd) in * by done. cbn [fst snd] in *.
  rewrite le_combine_bytes. split_and!; [done | done |].
  by apply (reading_skip u i' r (le_bytes 4 v) cs).
Qed.

(** ** Operands *)

(** The width of the displacement of a mode, and its value in an operand. *)
Definition disp_width (mode : Z) : Z :=
  if mode =? ModRmMemoryDisp8 then 8 else if mode =? ModRmMemoryDisp32 then 32 else 0.

Definition disp_lval (mode offset_ : Z) : Z :=
  if mode =? ModRmMemoryDisp8 then u8 offset_ else if mode =? ModRmMemoryDisp32 then u32 offset_ else 0.

(** The displacement an operand stands for: sign-extended. *)
Definition operand_disp (o : ud_operand) : Z :=
  if offset o =? 8 then lval_sbyte (lval o)
  else if offset o =? 32 then lval_sdword (lval o) else 0.

Definition mem_mode (mode : Z) : Prop := 0 <= mode < 3.

Lemma mem_mode_cases mode : mem_mode mode ->
  mode = ModRmMemoryNoDisp \/ mode = ModRmMemoryDisp8 \/ mode = ModRmMemoryDisp32.
Proof. unfold mem_mode, ModRmMemoryNoDisp, ModRmMemoryDisp8, ModRmMemoryDisp32. lia. Qed.

Lemma decode_mem64_plain mode rm op u :
  mem_mode mode -> Z.land rm 7 <> 4 -> (mode = ModRmMemoryNoDisp -> Z.land rm 7 <> 5) ->
  decode_mem64 mode rm op u
  = Ok (op <| base := UD_R_RAX + rm |> <| offset := disp_width mode |>, u).
Proof.
  intros Hm H4 H5. unfold decode_mem64. rewrite (proj2 (Z.eqb_neq _ _) H4).
  destruct (mem_mode_cases mode Hm) as [-> | [-> | ->]]; [| done | done].
  cbn [ModRmMemoryNoDisp]. rewrite (proj2 (Z.eqb_neq _ _) (H5 eq_refl)). done.
Qed.

(** The operand of a SIB byte: the index [esp] stands for none. *)
Definition sib_operand (mode base_ index_ scale_ : Z) (op : ud_operand) : ud_operand :=
  op <| base := UD_R_RAX + base_ |> <| offset := disp_width mode |>
     <| index := if index_ =? 4 then UD_NONE : Z else UD_R_RAX + index_ |>
     <| scale := if index_ =? 4 then UD_NONE : Z else Z.land (Z.shiftl 1 scale_) (Z.lnot 1) |>.

(** The selection [decode_mem64] makes among the fields of a SIB byte. *)
Lemma sib_select mode rm base_ index_ s op :
  mem_mode mode -> (mode = ModRmMemoryNoDisp -> base_ = 5 \/ base_ = 13 -> False) ->
  Z.land rm 7 = 4 ->
  let op1 :=
    (if mode =? 1 then op <| base := UD_R_RAX + rm |> <| offset := 8 |>
     else if mode =? 2 then op <| base := UD_R_RAX + rm |> <| offset := 32 |>
     else if (mode =? 0) && (Z.land rm 7 =? 5)
     then op <| base := UD_R_RAX + rm |> <| base := UD_R_RIP |> <| offset := 32 |>
     else op <| base := UD_R_RAX + rm |> <| offset := 0 |>)
      <| scale := s |> <| index := UD_R_RAX + index_ |> <| base := UD_R_RAX + base_ |> in
  let op2 :=
    if index op1 =? UD_R_RSP
    then op1 <| index := UD_NONE |> <| scale := UD_NONE |> else op1 in
  (if (base op2 =? UD_R_RBP) || (base op2 =? UD_R_R13) then
     let op3 := if mode =? 0 then op2 <| base := UD_NONE |> else op2 in
     if mode =? 1 then op3 <| offset := 8 |> else op3 <| offset := 32 |>
   else op2)
  = op <| base := UD_R_RAX + base_ |> <| offset := disp_width mode |>
       <| index := if index_ =? 4 then UD_NONE : Z else UD_R_RAX + index_ |>
       <| scale := if index_ =? 4 then UD_NONE : Z else s |>.
Proof.
  intros Hm H5 H4 op1 op2. subst op1 op2. destruct op as [ty sz lv ba ix wd sc]. rewrite H4.
  assert (forall k, (UD_R_RAX + index_ =? UD_R_RAX + k) = (index_ =? k)) as Hix by (intros; lia).
  assert (forall k, (UD_R_RAX + base_ =? UD_R_RAX + k) = (base_ =? k)) as Hba by (intros; lia).
  specialize (Hix 4). pose proof (Hba 5) as Hb5. specialize (Hba 13).
  change (UD_R_RAX + 4) with (UD_R_RSP : Z) in Hix. change (UD_R_RAX + 5) with (UD_R_RBP : Z) in Hb5.
  change (UD_R_RAX + 13) with (UD_R_R13 : Z) in Hba.
  destruct (mem_mode_cases mode Hm) as [-> | [-> | ->]];
    unfold ModRmMemoryNoDisp, ModRmMemoryDisp8, ModRmMemoryDisp32, disp_width, upd in *; simpl in *;
    rewrite Hix; destruct (index_ =? 4); simpl; rewrite Hb5, Hba;
    destruct (Z.eqb_spec base_ 5), (Z.eqb_spec base_ 13); simpl; try done;
    exfalso; apply H5; auto.
Qed.

Lemma decode_mem64_sib mode rm base_ index_ scale_ w reg op u r bs :
  mem_mode mode -> Z.land rm 7 = 4 -> 0 <= base_ < 16 -> 0 <= index_ < 16 -> 0 <= scale_ < 4 ->
  (mode = ModRmMemoryNoDisp -> Z.land base_ 7 <> 5) ->
  rex_ok w reg index_ base_ (pfx_rex u) ->
  reading u r (enc_modrm scale_ index_ base_ :: bs) -> (r_ctr r < 64)%nat ->
  wp (decode_mem64 mode rm op) u (fun o u' =>
    o = sib_operand mode base_ index_ scale_ op /\ u' = u <| inp := inp u' |> /\
    reading u' (reader_skip 1 r) bs).
Proof.
  intros Hm H4 Hb Hi Hs H5 Hrex Hr H64. destruct (reading_lookup _ _ _ _ Hr) as [Hc _].
  unfold decode_mem64. rewrite (proj2 (Z.eqb_eq _ _) H4).
  wp_step. eapply wp_mono; [by eapply reading_next |]. intros d u' (-> & Hu & Hr').
  wp_step. eapply wp_mono; [by eapply reading_curr |]. intros d u'' [-> ->]. wp_step. wp_step. wp_step.
  split_and!; [| done | done].
  assert (pfx_rex u' = pfx_rex u) as -> by (rewrite Hu; done).
  destruct (enc_modrm_fields scale_ index_ base_ Hs) as (_ & HI & HB & HS & _).
  change (SIB_I ?b) with (MODRM_REG b). change (SIB_B ?b) with (MODRM_RM b).
  rewrite HI, HB, HS, (rex_x _ _ _ _ _ Hrex), (rex_b _ _ _ _ _ Hrex).
  rewrite (proj2 (reg_join index_ Hi)), (proj2 (reg_join base_ Hb)).
  apply sib_select; [done | | done].
  intros Hm0 Hb0. apply (H5 Hm0). by destruct Hb0 as [-> | ->].
Qed.

Lemma decode_disp_ok mode offset_ op u r bs :
  mem_mode mode -> offset op = disp_width mode -> lval op = 0 ->
  reading u r (enc_disp mode offset_ ++ bs) -> (r_ctr r + 4 <= 64)%nat ->
  wp (decode_disp op) u (fun o u' =>
    o = op <| lval := disp_lval mode offset_ |> /\ u' = u <| inp := inp u' |> /\
    reading u' (reader_skip (length (enc_disp mode offset_)) r) bs).
Proof.
  intros Hm Hw Hl Hr H64. unfold decode_disp. rewrite Hw, Hl.
  destruct (mem_mode_cases mode Hm) as [-> | [-> | ->]];
    unfold enc_disp, disp_width, disp_lval, ModRmMemoryNoDisp, ModRmMemoryDisp8, ModRmMemoryDisp32 in *;
    cbn [Z.eqb Pos.eqb app length] in *.
  - wp_step. destruct op; simpl in *. subst. split_and!; [done | by destruct u |].
    by rewrite reader_skip_0.
  - wp_step. eapply wp_mono; [apply (reading_next u r (u8 offset_) bs); [done | lia] |].
    intros d u' (-> & Hu & Hr'). wp_step. split_and!; [| done | done].
    unfold lval_store. simpl. by rewrite (uwrap_id 8) by apply u8_range.
  - wp_step. eapply wp_mono; [by apply (reading_uint32 u r offset_ bs) |].
    intros d u' (-> & Hu & Hr'). wp_step. split_and!; [| done | done].
    unfold lval_store. simpl. by rewrite (uwrap_id 32) by apply u32_range.
Qed.

(** The mod/rm byte [b], read already or next, and then [bs]. *)
Definition modrm_next (u : ud) (r : reader) (b : Z) (bs : list Z) : Prop :=
  (have_modrm u = 0 /\ reading u r (b :: bs)) \/
  (have_modrm u = 1 /\ modrm_byte u = b /\ reading u r bs).

(** The state and the cursor after it. *)
Definition modrm_read (u : ud) : ud -> Z -> Prop := fun u' b =>
  u' = u <| inp := inp u' |> <| modrm_byte := b |> <| have_modrm := 1 |>.

Definition modrm_skip (u : ud) (r : reader) : reader :=
  if have_modrm u =? 0 then reader_skip 1 r else r.

Lemma modrm_ok u r b bs :
  modrm_next u r b bs -> (r_ctr r < 64)%nat ->
  wp modrm u (fun x u' => x = b /\ modrm_read u u' b /\ reading u' (modrm_skip u r) bs).
Proof.
  intros [[Hh Hr] | (Hh & Hb & Hr)] H64; unfold modrm, modrm_skip, modrm_read; rewrite Hh; wp_step; wp_step;
    rewrite Hh; cbn [truthy negb Z.eqb].
  - wp_step. wp_step. eapply wp_mono; [by eapply reading_next |].
    intros d u' (-> & Hu & Hr'). wp_step. wp_step. split_and!; [done | by rewrite Hu | done].
  - wp_step. wp_step. wp_step. split_and!; [done | | done]. subst b. destruct u. simpl in *. by subst.
Qed.

(** The general registers, by the operand size. *)
Definition gpr (wide : bool) (r : Z) : Z := if wide then UD_R_RAX + r else UD_R_EAX + r.
Definition gpr_size (wide : bool) : Z := if wide then 64 else 32.

Definition reg_operand (wide : bool) (r : Z) (op : ud_operand) : ud_operand :=
  op <| op_type := UD_OP_REG |> <| op_size := gpr_size wide |> <| base := gpr wide r |>.

(** The mode of operation the instruction is decoded in. *)
Record insn_mode (wide : bool) (r x b : Z) (u : ud) : Prop := mk_insn_mode {
  mode_opr : opr_mode u = gpr_size wide;
  mode_adr : adr_mode u = 64;
  mode_rex : rex_ok wide r x b (pfx_rex u)
}.

Lemma resolve_size wide r x b u :
  insn_mode wide r x b u -> resolve_operand_size u SZ_V = gpr_size wide.
Proof. intros []. done. Qed.

Lemma decode_gpr_ok wide u r : decode_gpr u (gpr_size wide) r = gpr wide r.
Proof. by destruct wide. Qed.

Lemma insn_mode_read wide r x b u u' c :
  insn_mode wide r x b u -> modrm_read u u' c -> insn_mode wide r x b u'.
Proof. intros [] ->. by constructor. Qed.

Lemma decode_reg_ok wide mode reg x b rm op u r bs :
  0 <= mode < 4 -> 0 <= reg < 16 -> insn_mode wide reg x b u ->
  modrm_next u r (enc_modrm mode reg rm) bs -> (r_ctr r < 64)%nat ->
  wp (decode_modrm_reg op T_GPR SZ_V) u (fun o u' =>
    o = reg_operand wide reg op /\ modrm_read u u' (enc_modrm mode reg rm) /\
    reading u' (modrm_skip u r) bs).
Proof.
  intros Hm Hreg Hmode Hn H64. unfold decode_modrm_reg. wp_step.
  eapply wp_mono; [by eapply modrm_ok |]. intros c u' (-> & Hu & Hr). wp_step. wp_step. wp_step.
  pose proof (insn_mode_read _ _ _ _ _ _ _ Hmode Hu) as Hmode'.
  split_and!; [| done | done].
  destruct (enc_modrm_fields mode reg rm Hm) as (_ & -> & _).
  rewrite (rex_r _ _ _ _ _ (mode_rex _ _ _ _ _ Hmode')), (proj1 (reg_join reg Hreg)).
  rewrite (resolve_size _ _ _ _ _ Hmode'). cbn [op_size upd upd_op_size].
  by rewrite decode_gpr_ok.
Qed.

Lemma decode_rm_reg_ok wide reg x rm op u r bs :
  0 <= rm < 16 -> insn_mode wide reg x rm u ->
  modrm_next u r (enc_modrm ModRmRegister reg rm) bs -> (r_ctr r < 64)%nat ->
  wp (decode_modrm_rm op T_GPR SZ_V) u (fun o u' =>
    o = reg_operand wide rm op /\ modrm_read u u' (enc_modrm ModRmRegister reg rm) /\
    reading u' (modrm_skip u r) bs).
Proof.
  intros Hrm Hmode Hn H64. unfold decode_modrm_rm. wp_step.
  eapply wp_mono; [by eapply modrm_ok |]. intros c u' (-> & Hu & Hr). wp_step. wp_step.
  pose proof (insn_mode_read _ _ _ _ _ _ _ Hmode Hu) as Hmode'.
  destruct (enc_modrm_fields ModRmRegister reg rm ltac:(done)) as (-> & _ & -> & _).
  rewrite (rex_b _ _ _ _ _ (mode_rex _ _ _ _ _ Hmode')), (proj1 (reg_join rm Hrm)).
  rewrite (resolve_size _ _ _ _ _ Hmode'). change (ModRmRegister =? 3) with true. cbv iota.
  wp_step. split_and!; [| done | done]. cbn [op_size upd upd_op_size upd_op_type].
  by rewrite decode_gpr_ok.
Qed.

(** A memory operand as udis86 represents it; the index 4 stands for none. *)
Definition mem_operand (wide : bool) (mode base_ index_ scale_ offset_ : Z) : ud_operand :=
  mk_operand UD_OP_MEM (gpr_size wide) (disp_lval mode offset_) (UD_R_RAX + base_)
    (if index_ =? 4 then UD_NONE : Z else UD_R_RAX + index_) (disp_width mode)
    (if index_ =? 4 then UD_NONE : Z else Z.land (Z.shiftl 1 scale_) (Z.lnot 1)).

(** The bytes after the mod/rm byte. *)
Definition after_modrm (sib : bool) (mode base_ index_ scale_ offset_ : Z) : list Z :=
  (if sib then [enc_modrm scale_ index_ base_] else []) ++ enc_disp mode offset_.

(** The part of a memory operand before the displacement. *)
Lemma decode_address_ok (sib : bool) wide mode reg rm base_ index_ scale_ op u r bs :
  mem_mode mode -> 0 <= base_ < 16 -> 0 <= index_ < 16 -> 0 <= scale_ < 4 ->
  (mode = ModRmMemoryNoDisp -> Z.land base_ 7 <> 5) ->
  (if sib then Z.land rm 7 = 4 else rm = base_ /\ Z.land base_ 7 <> 4 /\ index_ = 4) ->
  index op = 0 -> scale op = 0 ->
  insn_mode wide reg index_ base_ u ->
  reading u r ((if sib then [enc_modrm scale_ index_ base_] else []) ++ bs) -> (r_ctr r < 64)%nat ->
  wp (decode_mem64 mode rm op) u (fun o u' =>
    o = sib_operand mode base_ index_ scale_ op /\ u' = u <| inp := inp u' |> /\
    reading u' (reader_skip (if sib then 1 else 0) r) bs).
Proof.
  intros Hm Hb Hi Hs H5 Hrm Hix Hsc Hmode Hr H64. destruct sib; simpl app in Hr.
  - by eapply decode_mem64_sib; try apply Hmode.
  - destruct Hrm as (-> & H4 & ->). eapply wp_intro; [by apply decode_mem64_plain |].
    split_and!; [| by destruct u |].
    + unfold sib_operand. cbn [Z.eqb Pos.eqb]. destruct op; simpl in *. by subst.
    + by rewrite reader_skip_0.
Qed.

Lemma reader_skip_add j k r : reader_skip j (reader_skip k r) = reader_skip (k + j) r.
Proof. destruct r. unfold reader_skip. simpl. f_equal; lia. Qed.

Lemma decode_rm_mem_ok (sib : bool) wide mode reg rm base_ index_ scale_ offset_ u r bs :
  mem_mode mode -> 0 <= base_ < 16 -> 0 <= index_ < 16 -> 0 <= scale_ < 4 ->
  (mode = ModRmMemoryNoDisp -> Z.land base_ 7 <> 5) ->
  (if sib then rm = 4 else rm = base_ /\ Z.land base_ 7 <> 4 /\ index_ = 4) ->
  insn_mode wide reg index_ base_ u ->
  modrm_next u r (enc_modrm mode reg rm) (after_modrm sib mode base_ index_ scale_ offset_ ++ bs) ->
  (r_ctr r + 8 <= 64)%nat ->
  wp (decode_modrm_rm zero_operand T_GPR SZ_V) u (fun o u' =>
    o = mem_operand wide mode base_ index_ scale_ offset_ /\
    modrm_read u u' (enc_modrm mode reg rm) /\
    reading u' (reader_skip (length (after_modrm sib mode base_ index_ scale_ offset_)) (modrm_skip u r)) bs).
Proof.
  intros Hm Hb Hi Hs H5 Hrm Hmode Hn H64. unfold decode_modrm_rm. wp_step.
  eapply wp_mono; [eapply modrm_ok; [done | lia] |]. intros c u' (-> & Hu & Hr). wp_step. wp_step.
  pose proof (insn_mode_read _ _ _ _ _ _ _ Hmode Hu) as Hmode'.
  destruct (enc_modrm_fields mode reg rm ltac:(unfold mem_mode in Hm; lia)) as (-> & _ & -> & _).
  rewrite (rex_b _ _ _ _ _ (mode_rex _ _ _ _ _ Hmode')), (resolve_size _ _ _ _ _ Hmode').
  rewrite (mode_adr _ _ _ _ _ Hmode'), (proj2 (Z.eqb_neq mode 3)) by (unfold mem_mode in Hm; lia).
  change (64 =? 64) with true. cbv iota.
  set (rm' := u8 _). assert (if sib then Z.land rm' 7 = 4 else rm' = base_ /\ Z.land base_ 7 <> 4 /\ index_ = 4) as Hrm'.
  { subst rm'. destruct sib; [rewrite Hrm | destruct Hrm as (-> & Hrm)].
    - assert (Z.shiftr base_ 3 = 0 \/ Z.shiftr base_ 3 = 1) as [-> | ->]; [| done | done].
      rewrite Z.shiftr_div_pow2 by lia. assert (base_ / 2 ^ 3 < 2) by (apply Z.div_lt_upper_bound; lia).
      pose proof (Z.div_pos base_ (2 ^ 3) ltac:(lia) ltac:(lia)). lia.
    - split; [by apply reg_join | done]. }
  unfold after_modrm in Hr. rewrite <- app_assoc in Hr.
  assert (r_ctr (modrm_skip u r) <= S (r_ctr r))%nat 
    by (unfold modrm_skip, reader_skip; destruct (have_modrm u =? 0); simpl; lia).
  wp_step. eapply wp_mono; [apply (decode_address_ok sib wide mode reg rm' base_ index_ scale_ _ u' (modrm_skip u r)
    (enc_disp mode offset_ ++ bs)); first [done | lia] |].
  intros o u'' (-> & Hu' & Hr').
  eapply wp_mono; [eapply (decode_disp_ok mode offset_); [done | done | done | done |] |].
  { simpl. destruct sib; lia. }
  intros o u3 (-> & Hu3 & Hr3). split_and!.
  - unfold sib_operand, mem_operand. simpl. by case_match.
  - unfold modrm_read in *. rewrite Hu3, Hu', Hu. done.
  - unfold after_modrm. rewrite length_app.
    replace (length (if sib then _ else _)) with (if sib then 1 else 0)%nat by (by destruct sib).
    by rewrite <- reader_skip_add.
Qed.

(** ** The formats with a register and a register or memory operand *)

Inductive rm_arg :=
  | RM_reg (rm : RegisterID)
  | RM_mem (base_ : RegisterID) (offset_ : Z)
  | RM_mem_disp8 (base_ : RegisterID) (offset_ : Z)
  | RM_mem_disp32 (base_ : RegisterID) (offset_ : Z)
  | RM_mem_sib (base_ index_ : RegisterID) (scale_ offset_ : Z).

(** The formatter's method for the operand; [wide] are the 64-bit ones. *)
Definition format_op `{!Target} (wide : bool) (opcode reg : Z) (a : rm_arg) : BM unit :=
  match a, wide with
  | RM_reg rm, false => oneByteOp_rr opcode reg rm
  | RM_reg rm, true => oneByteOp64_rr opcode reg rm
  | RM_mem b o, false => oneByteOp_m opcode reg b o
  | RM_mem b o, true => oneByteOp64_m opcode reg b o
  | RM_mem_disp8 b o, false => oneByteOp_disp8 opcode reg b o
  | RM_mem_disp8 b o, true => oneByteOp64_disp8 opcode reg b o
  | RM_mem_disp32 b o, false => oneByteOp_disp32 opcode reg b o
  | RM_mem_disp32 b o, true => oneByteOp64_disp32 opcode reg b o
  | RM_mem_sib b i s o, false => oneByteOp_sib opcode reg b i s o
  | RM_mem_sib b i s o, true => oneByteOp64_sib opcode reg b i s o
  end.

Definition rm_arg_ok (a : rm_arg) : bool :=
  match a with
  | RM_reg _ => true
  | RM_mem _ o | RM_mem_disp32 _ o => in_int32 o
  | RM_mem_disp8 _ o => CAN_SIGN_EXTEND_8_32 o
  | RM_mem_sib _ i s o => negb (i =? noIndex) && (0 <=? s) && (s <? 4) && in_int32 o
  end.

(** Base and index as the REX prefix has them; 4 is the absent index of a SIB
    byte, whose REX bit is clear as that of no SIB byte at all. *)
Definition rm_base (a : rm_arg) : Z :=
  match a with
  | RM_reg b | RM_mem b _ | RM_mem_disp8 b _ | RM_mem_disp32 b _ | RM_mem_sib b _ _ _ => b
  end.
Definition rm_index (a : rm_arg) : Z :=
  match a with RM_mem_sib _ i _ _ => i | _ => 4 end.

Section rm.
Context `{!Target}.

Definition rm_mode (a : rm_arg) : Z :=
  match a with
  | RM_reg _ => ModRmRegister
  | RM_mem b o | RM_mem_sib b _ _ o => disp_mode b o
  | RM_mem_disp8 _ _ => ModRmMemoryDisp8
  | RM_mem_disp32 _ _ => ModRmMemoryDisp32
  end.

Definition rm_has_sib (a : rm_arg) : bool :=
  match a with
  | RM_reg _ => false
  | RM_mem_sib _ _ _ _ => true
  | _ => is_hasSib (rm_base a)
  end.

Definition rm_tail (a : rm_arg) : list Z :=
  match a with
  | RM_reg _ => []
  | RM_mem b o | RM_mem_disp8 b o | RM_mem_disp32 b o =>
      after_modrm (rm_has_sib a) (rm_mode a) b 4 0 o
  | RM_mem_sib b i s o => after_modrm true (rm_mode a) b i s o
  end.

Definition rm_bytes (reg : Z) (a : rm_arg) : list Z :=
  enc_modrm (rm_mode a) reg (if rm_has_sib a then 4 else rm_base a) :: rm_tail a.

(** The operand as the disassembler is to report it. *)
Definition rm_operand (wide : bool) (a : rm_arg) : ud_operand :=
  match a with
  | RM_reg rm => reg_operand wide rm zero_operand
  | RM_mem b o | RM_mem_disp8 b o | RM_mem_disp32 b o => mem_operand wide (rm_mode a) b 4 0 o
  | RM_mem_sib b i s o => mem_operand wide (rm_mode a) b i s o
  end.

(** The REX prefix, when there is one. *)
Definition rm_rex (wide : bool) (reg : Z) (a : rm_arg) : list Z :=
  if wide then [enc_rex true reg (rm_index a) (rm_base a)]
  else enc_rexIfNeeded reg (rm_index a) (rm_base a).

Definition enc_format (wide : bool) (opcode reg : Z) (a : rm_arg) : list Z :=
  rm_rex wide reg a ++ [u8 opcode] ++ rm_bytes reg a.

Lemma enc_rex_low w r b : enc_rex w r 4 b = enc_rex w r 0 b.
Proof. done. Qed.

Lemma rex_needed_low r b : enc_rexIfNeeded r 4 b = enc_rexIfNeeded r 0 b.
Proof. unfold enc_rexIfNeeded, regRequiresRex. by destruct x86_64. Qed.

Lemma enc_memory_tail mode reg base_ offset_ :
  enc_memory_at mode reg base_ offset_
  = enc_modrm mode reg (if is_hasSib base_ then 4 else base_)
    :: after_modrm (is_hasSib base_) mode base_ 4 0 offset_.
Proof. unfold enc_memory_at, enc_base, after_modrm. by destruct (is_hasSib base_). Qed.

Ltac format_by H :=
  eapply formats_cast;
    [ apply H; first [apply RegisterID_range | lia | assumption]
    | unfold enc_memory; rewrite ?enc_memory_tail; reflexivity ].

Lemma format_op_formats wide opcode (reg : RegisterID) a :
  rm_arg_ok a = true -> formats (format_op wide opcode reg a) (enc_format wide opcode reg a).
Proof.
  intros Hok. unfold enc_format, rm_rex.
  destruct a as [rm | b o | b o | b o | b i s o], wide; cbn [rm_index rm_base format_op rm_arg_ok] in *;
    rewrite ?enc_rex_low, ?rex_needed_low; zbool.
  - format_by oneByteOp64_rr_formats.
  - format_by oneByteOp_rr_formats.
  - format_by oneByteOp64_m_formats.
  - format_by oneByteOp_m_formats.
  - format_by oneByteOp64_disp8_formats.
  - format_by oneByteOp_disp8_formats.
  - format_by oneByteOp64_disp32_formats.
  - format_by oneByteOp_disp32_formats.
  - format_by oneByteOp64_sib_formats.
  - format_by oneByteOp_sib_formats.
Qed.

Context (H64 : x86_64 = true).

Lemma hasSib_land (b : RegisterID) : is_hasSib b = (Z.land b 7 =? 4).
Proof. unfold is_hasSib. rewrite H64. by destruct b. Qed.

Lemma disp_mode_mem b o : mem_mode (disp_mode b o).
Proof. unfold disp_mode, mem_mode. repeat case_match; done. Qed.

Lemma disp_mode_noBase (b : RegisterID) o : disp_mode b o = ModRmMemoryNoDisp -> Z.land b 7 <> 5.
Proof.
  unfold disp_mode, is_noBase. rewrite H64. destruct (o =? 0), b; cbn; repeat case_match; done.
Qed.

Lemma rm_index_range a : 0 <= rm_index a < 16.
Proof. destruct a; simpl; (lia || apply RegisterID_range). Qed.
Lemma rm_base_range a : 0 <= rm_base a < 16.
Proof. destruct a; simpl; apply RegisterID_range. Qed.

Lemma rm_mode_range a : 0 <= rm_mode a < 4.
Proof.
  destruct a as [rm | b o | b o | b o | b i s o]; cbn [rm_mode];
    try (unfold ModRmRegister, ModRmMemoryDisp8, ModRmMemoryDisp32; lia);
    pose proof (disp_mode_mem b o) as Hm; unfold mem_mode in Hm; lia.
Qed.

Lemma decode_rm_ok wide (reg : RegisterID) a u r bs :
  rm_arg_ok a = true -> insn_mode wide reg (rm_index a) (rm_base a) u ->
  modrm_next u r (enc_modrm (rm_mode a) reg (if rm_has_sib a then 4 else rm_base a)) (rm_tail a ++ bs) ->
  (r_ctr r + 8 <= 64)%nat ->
  wp (decode_modrm_rm zero_operand T_GPR SZ_V) u (fun o u' => o = rm_operand wide a /\
    modrm_read u u' (enc_modrm (rm_mode a) reg (if rm_has_sib a then 4 else rm_base a)) /\
    reading u' (reader_skip (length (rm_tail a)) (modrm_skip u r)) bs).
Proof.
  intros Hok Hmode Hn Hctr.
  assert (forall b o m, mem_mode m -> (m = ModRmMemoryNoDisp -> Z.land (RegisterID_code b) 7 <> 5) ->
    insn_mode wide reg 4 b u ->
    modrm_next u r (enc_modrm m reg (if is_hasSib b then 4 else b))
      (after_modrm (is_hasSib b) m b 4 0 o ++ bs) ->
    wp (decode_modrm_rm zero_operand T_GPR SZ_V) u (fun op u' => op = mem_operand wide m b 4 0 o /\
      modrm_read u u' (enc_modrm m reg (if is_hasSib b then 4 else b)) /\
      reading u' (reader_skip (length (after_modrm (is_hasSib b) m b 4 0 o)) (modrm_skip u r)) bs)) as Hplain.
  { intros b o m Hm Hnb Hmd Hnx. pose proof (RegisterID_range b).
    apply decode_rm_mem_ok; try (done || lia).
    rewrite hasSib_land. destruct (Z.eqb_spec (Z.land b 7) 4); done. }
  destruct a as [rm | b o | b o | b o | b i s o];
    cbn [rm_index rm_base rm_mode rm_has_sib rm_tail rm_operand rm_arg_ok] in *.
  - pose proof (RegisterID_range rm). 
    eapply wp_mono; [apply (decode_rm_reg_ok wide reg 4 rm _ u r bs); [lia | done | done | lia] |].
    intros o u' (-> & Hu & Hr). split_and!; [done | done |]. by rewrite reader_skip_0.
  - apply Hplain; [apply disp_mode_mem | apply disp_mode_noBase | done | done].
  - by apply Hplain.
  - by apply Hplain.
  - zbool. pose proof (RegisterID_range b). pose proof (RegisterID_range i).
    apply (decode_rm_mem_ok true); try (done || lia); [apply disp_mode_mem | apply disp_mode_noBase].
Qed.
End rm.

(** ** Whole instructions *)

(** The tables' entry for an opcode: in the first table, without further
    tables, with the operands [o1] and [o2] of the current operand size, all
    the REX bits, and a mnemonic that needs no resolution. *)
Record rm_opcode (T : Itab) (opcode : Z) (o1 o2 : ud_operand_code) (e : ud_itab_entry) : Prop :=
  mk_rm_opcode {
  opc_table : exists le0 p, aget ud_lookup_table_list 0 = Some le0 /\
    le_type le0 = UD_TAB__OPC_TABLE /\ aget (le_table le0) opcode = Some p /\
    Z.land p 0x8000 = 0 /\ aget ud_itab p = Some e;
  opc_operand1 : operand1 e = mk_entry_operand o1 SZ_V;
  opc_operand2 : operand2 e = mk_entry_operand o2 SZ_V;
  opc_operand3 : operand3 e = O_NONE;
  opc_prefix : P_INV64 (ie_prefix e) = 0 /\ P_DEF64 (ie_prefix e) = 0 /\
    REX_PFX_MASK (ie_prefix e) = 15;
  opc_mnemonic : Forall (fun m => ie_mnemonic e <> m)
    [UD_Icall; UD_Ijmp; UD_I3dnow; UD_Ixchg; UD_Inop]
}.

(** [o1] and [o2] are the register and the mod/rm operand, in either order. *)
Definition rm_order (o1 o2 : ud_operand_code) : Prop :=
  (o1 = OP_G /\ o2 = OP_E) \/ (o1 = OP_E /\ o2 = OP_G).

Definition is_G (o : ud_operand_code) : bool := match o with OP_G => true | _ => false end.

Section insn.
Context `{!Target} (H64 : x86_64 = true) {T : Itab}.

(** The operands an instruction is to have. *)
Definition rm_operands (wide : bool) (o1 : ud_operand_code) (reg : Z) (a : rm_arg) (u : ud) : Prop :=
  let r := reg_operand wide reg zero_operand in
  let m := rm_operand wide a in
  opnd0 u = (if is_G o1 then r else m) /\ opnd1 u = (if is_G o1 then m else r) /\
  op_type (opnd2 u) = UD_NONE.

(** The state between the two operands: the mod/rm byte is known. *)
Lemma between_operands wide r x b u u1 c rd bs o :
  insn_mode wide r x b u -> modrm_read u u1 c -> reading u1 rd bs ->
  let u2 := u1 <| opnd0 := o |> in
  insn_mode wide r x b u2 /\ modrm_next u2 rd c bs /\ have_modrm u2 = 1 /\
  opnd0 u2 = o /\ opnd1 u2 = opnd1 u /\ mnemonic u2 = mnemonic u /\ dis_mode u2 = dis_mode u.
Proof.
  intros [] Hu Hr u2. subst u2. unfold modrm_read in Hu.
  assert (modrm_next (u1 <| opnd0 := o |>) rd c bs) as Hn
    by (right; rewrite Hu at 1 2; split_and!; try done; exact Hr).
  split_and!; try done; rewrite Hu; done.
Qed.

Lemma rm_tail_length a : rm_arg_ok a = true -> (length (rm_tail a) <= 5)%nat.
Proof.
  intros _. assert (forall s m b i c o, length (after_modrm s m b i c o) <= 5)%nat as Hl.
  { intros. unfold after_modrm. rewrite length_app. pose proof (length_enc_disp m o).
    destruct s; simpl; lia. }
  destruct a; cbn [rm_tail length]; first [lia | apply Hl].
Qed.

Lemma decode_operands_ok wide o1 o2 e (reg : RegisterID) a u r bs :
  rm_order o1 o2 ->
  operand1 e = mk_entry_operand o1 SZ_V -> operand2 e = mk_entry_operand o2 SZ_V ->
  operand3 e = O_NONE ->
  rm_arg_ok a = true -> insn_mode wide reg (rm_index a) (rm_base a) u ->
  have_modrm u = 0 -> opnd0 u = zero_operand -> opnd1 u = zero_operand ->
  reading u r (rm_bytes reg a ++ bs) -> (r_ctr r + 16 <= 64)%nat ->
  wp (decode_operands_of e) u (fun x u' => x = 0 /\ rm_operands wide o1 reg a u' /\
    mnemonic u' = mnemonic u /\ dis_mode u' = dis_mode u /\
    reading u' (reader_skip (length (rm_bytes reg a)) r) bs).
Proof.
  intros Ho H1 H2 H3 Hok Hmode Hh Hz0 Hz1 Hr Hctr. unfold decode_operands_of.
  rewrite H1, H2, H3. cbn [eo_type eo_size O_NONE].
  pose proof (rm_tail_length a Hok). pose proof (RegisterID_range reg).
  pose proof (rm_mode_range a) as Hm.
  set (c := enc_modrm (rm_mode a) reg (if rm_has_sib a then 4 else rm_base a)) in *.
  assert (modrm_next u r c (rm_tail a ++ bs)) as Hn by (left; done).
  assert (modrm_skip u r = reader_skip 1 r) as Hskip by (unfold modrm_skip; by rewrite Hh).
  destruct Ho as [[-> ->] | [-> ->]]; cbn [decode_operand];
    wp_step; wp_step; rewrite Hz0; wp_step.
  - eapply wp_mono; [apply (decode_reg_ok wide _ _ _ _ _ _ u r _ Hm (RegisterID_range reg) Hmode Hn); lia |].
    intros o u1 (-> & Hu1 & Hr1). rewrite Hskip in Hr1. do 4 wp_step.
    set (op0 := reg_operand wide reg zero_operand).
    destruct (between_operands _ _ _ _ _ _ _ _ _ op0 Hmode Hu1 Hr1) as (Hm2 & Hn2 & Hh2 & Ho2 & Ho21 & Hmn & Hdm).
    rewrite Ho21, Hz1. wp_step.
    eapply wp_mono; [apply (decode_rm_ok H64 wide reg a _ _ bs Hok Hm2 Hn2); simpl; lia |].
    intros o u3 (-> & Hu3 & Hr3). do 6 wp_step. unfold modrm_skip in Hr3. rewrite Hh2 in Hr3.
    change (1 =? 0) with false in Hr3. cbv iota in Hr3. rewrite reader_skip_add in Hr3. unfold modrm_read in Hu3. split_and!; [done | | | |].
    + unfold rm_operands. simpl. split_and!; [by rewrite Hu3 | done | done].
    + rewrite <- Hmn. simpl. by rewrite Hu3.
    + rewrite <- Hdm. simpl. by rewrite Hu3.
    + exact Hr3.
  - eapply wp_mono; [apply (decode_rm_ok H64 wide reg a _ _ bs Hok Hmode Hn); lia |].
    intros o u1 (-> & Hu1 & Hr1). rewrite Hskip in Hr1. do 4 wp_step.
    set (op0 := rm_operand wide a).
    destruct (between_operands _ _ _ _ _ _ _ _ _ op0 Hmode Hu1 Hr1) as (Hm2 & Hn2 & Hh2 & Ho2 & Ho21 & Hmn & Hdm).
    rewrite Ho21, Hz1. wp_step.
    eapply wp_mono; [apply (decode_reg_ok wide _ _ _ _ _ _ _ _ _ Hm (RegisterID_range reg) Hm2 Hn2); simpl; lia |].
    intros o u3 (-> & Hu3 & Hr3). do 6 wp_step. unfold modrm_skip in Hr3. rewrite Hh2 in Hr3.
    change (1 =? 0) with false in Hr3. cbv iota in Hr3. rewrite reader_skip_add in Hr3. unfold modrm_read in Hu3. split_and!; [done | | | |].
    + unfold rm_operands. simpl. split_and!; [by rewrite Hu3 | done | done].
    + rewrite <- Hmn. simpl. by rewrite Hu3.
    + rewrite <- Hdm. simpl. by rewrite Hu3.
    + exact Hr3.
Qed.

(** The state when the opcode has been read: prefixes seen, nothing else. *)
Record opcode_read (wide : bool) (r x b : Z) (u : ud) : Prop := mk_opcode_read {
  read_mode : dis_mode u = 64;
  read_rex : rex_ok wide r x b (pfx_rex u);
  read_pfx : pfx_opr u = 0 /\ pfx_adr u = 0;
  read_modrm : have_modrm u = 0;
  read_opnds : opnd0 u = zero_operand /\ opnd1 u = zero_operand
}.

Lemma mode_flags_ok wide r x b p u :
  dis_mode u = 64 -> rex_ok wide r x b (pfx_rex u) -> pfx_opr u = 0 -> pfx_adr u = 0 ->
  P_DEF64 p = 0 -> REX_PFX_MASK p = 15 ->
  insn_mode wide r x b (set_cast_flags p (set_mode_flags p u)).
Proof.
  intros Hd Hrex Ho Ha Hdef Hmask. unfold set_mode_flags. rewrite Hd.
  change (64 =? 64) with true. cbv iota zeta. rewrite Hmask, Hdef.
  constructor; simpl; rewrite ?(rex_mask _ _ _ _ _ Hrex), ?Ho, ?Ha; [| done | done].
  rewrite (rex_w _ _ _ _ _ Hrex). by destruct wide.
Qed.

Lemma mode_flags_frame p u :
  let u' := set_cast_flags p (set_mode_flags p u) in
  itab_entry u' = itab_entry u /\ mnemonic u' = mnemonic u /\ dis_mode u' = dis_mode u /\
  have_modrm u' = have_modrm u /\ opnd0 u' = opnd0 u /\ opnd1 u' = opnd1 u /\ inp u' = inp u.
Proof.
  unfold set_mode_flags. destruct (dis_mode u =? 64), (dis_mode u =? 32), (dis_mode u =? 16); done.
Qed.

Lemma rm_resolve_mnemonic wide o1 (reg : RegisterID) a u r bs :
  rm_operands wide o1 reg a u -> dis_mode u = 64 ->
  Forall (fun m => mnemonic u <> m) [UD_Icall; UD_Ijmp; UD_I3dnow; UD_Ixchg; UD_Inop] ->
  reading u r bs ->
  wp resolve_mnemonic u (fun x u' => x = 0 /\ rm_operands wide o1 reg a u' /\ reading u' r bs).
Proof.
  intros Hops Hd Hm Hr. rewrite !Forall_cons in Hm. destruct Hm as (H1 & H2 & H3 & H4 & H5 & _).
  unfold resolve_mnemonic. do 4 wp_step.
  change (mnemonic (u <| br_far := 0 |> <| br_near := 0 |>)) with (mnemonic u).
  rewrite !(proj2 (Z.eqb_neq _ _)) by done. cbn [orb].
  do 4 wp_step. change (dis_mode (u <| br_far := 0 |> <| br_near := 0 |>)) with (dis_mode u).
  rewrite Hd, andb_false_r. do 3 wp_step. unfold resolve_nop.
  change (mnemonic (u <| br_far := 0 |> <| br_near := 0 |>)) with (mnemonic u).
  rewrite (proj2 (Z.eqb_neq _ _) H4). cbv zeta iota.
  change (mnemonic (u <| br_far := 0 |> <| br_near := 0 |>)) with (mnemonic u).
  rewrite (proj2 (Z.eqb_neq _ _) H5). cbn [andb]. split_and!; [done | exact Hops | exact Hr].
Qed.

Lemma rm_decode_insn wide o1 o2 e opcode p (reg : RegisterID) a u r bs :
  rm_order o1 o2 -> rm_opcode T opcode o1 o2 e -> Z.land p 0x8000 = 0 -> aget ud_itab p = Some e ->
  rm_arg_ok a = true -> opcode_read wide reg (rm_index a) (rm_base a) u ->
  reading u r (rm_bytes reg a ++ bs) -> (r_ctr r + 16 <= 64)%nat -> r_err r = 0 ->
  wp (decode_insn p) u (fun x u' => x = 0 /\ rm_operands wide o1 reg a u' /\
    reading u' (reader_skip (length (rm_bytes reg a)) r) bs).
Proof.
  intros Ho [_ H1 H2 H3 (Hi64 & Hdef & Hmask) Hmn] Hp Hitab Hok [Hd Hrex [Hop Had] Hh [Hz0 Hz1]] Hr Hctr Herr.
  assert (ud_error u = 0) as He by (destruct Hr as [[n []] _]; unfold ud_error; congruence).
  unfold decode_insn. wp_step. unfold ud_assert. rewrite (proj2 (Z.eqb_eq _ _) Hp). do 2 wp_step.
  unfold itab_at. rewrite Hitab. do 4 wp_step. unfold resolve_mode. do 2 wp_step.
  set (u1 := u <| itab_entry := Some e |> <| mnemonic := ie_mnemonic e |>).
  change (ud_error u1) with (ud_error u). rewrite He. cbn [truthy Z.eqb negb].
  unfold cur_entry. do 3 wp_step. change (itab_entry u1) with (Some e). cbn [of_opt].
  wp_step. unfold resolve_mode_of. do 2 wp_step. rewrite Hi64, andb_false_r. do 5 wp_step.
  cbn [Z.eqb negb]. wp_step. unfold decode_operands, cur_entry. do 3 wp_step.
  set (u2 := set_cast_flags _ _).
  assert (insn_mode wide reg (rm_index a) (rm_base a) u2) as Hmode by (by apply mode_flags_ok).
  destruct (mode_flags_frame (ie_prefix e) u1) as (F1 & F2 & F3 & F4 & F5 & F6 & F7). fold u2 in F1, F2, F3, F4, F5, F6, F7.
  rewrite F1. apply (wp_of_opt _ _ _ _ e); [done |].
  eapply wp_mono; [apply (decode_operands_ok wide o1 o2 e reg a u2 r bs); try done |].
  { by rewrite F4. } { by rewrite F5. } { by rewrite F6. } { destruct Hr as [Hr ?]. split; [by rewrite F7 | done]. }
  intros x u3 (-> & Hops & Hmn3 & Hd3 & Hr3). cbn [Z.eqb negb]. wp_step.
  eapply wp_mono; [eapply (rm_resolve_mnemonic wide o1 reg a u3 _ bs Hops); [| | done] |].
  - rewrite Hd3, F3. done.
  - rewrite Hmn3, F2. done.
  - intros x u4 (-> & Hops4 & Hr4). wp_step. done.
Qed.

Lemma decode_ext_leaf fuel p u : Z.land p 0x8000 = 0 -> decode_ext fuel p u = decode_insn p u.
Proof. intros Hp. destruct fuel; cbn [decode_ext]; by rewrite (proj2 (Z.eqb_eq _ _) Hp). Qed.

Lemma rm_decode_opcode wide o1 o2 e opcode le0 (reg : RegisterID) a u r bs :
  rm_order o1 o2 -> rm_opcode T opcode o1 o2 e -> le u = aget ud_lookup_table_list 0 ->
  le u = Some le0 -> rm_arg_ok a = true -> opcode_read wide reg (rm_index a) (rm_base a) u ->
  reading u r (opcode :: rm_bytes reg a ++ bs) -> (r_ctr r + 32 <= 64)%nat -> r_err r = 0 ->
  wp (decode_opcode (length ud_lookup_table_list)) u (fun x u' => x = 0 /\
    rm_operands wide o1 reg a u' /\ reading u' (reader_skip (S (length (rm_bytes reg a))) r) bs).
Proof.
  intros Ho Hopc Hle Hle0 Hok Hread Hr Hctr Herr.
  destruct (opc_table _ _ _ _ _ Hopc) as (le1 & p & Hl & Hty & Htab & Hp & Hitab).
  rewrite Hle0, Hl in Hle. injection Hle as [= <-].
  apply aget_Some in Hl as [_ Hl]. apply lookup_lt_Some in Hl.
  destruct (length ud_lookup_table_list) as [|n] eqn:Hlen; [lia |]. cbn [decode_opcode].
  destruct (reading_lookup _ _ _ _ Hr) as [Hc _].
  unfold cur_le. do 3 wp_step. rewrite Hle0. apply (wp_of_opt _ _ _ _ le0); [done |].
  wp_step. unfold ud_assert. rewrite bool_decide_true by done. do 2 wp_step.
  eapply wp_mono; [eapply reading_next; [done | lia] |]. intros d u1 (-> & Hu1 & Hr1).
  wp_step. wp_step.
  assert (ud_error u1 = 0) as -> by (destruct Hr1 as [[m []] _]; unfold ud_error; simpl in *; congruence).
  cbn [truthy Z.eqb negb]. wp_step. eapply wp_mono; [by eapply reading_curr |]. intros d u2 [-> ->].
  wp_step. unfold le_at, cur_le. do 3 wp_step.
  assert (le u1 = Some le0) as -> by (rewrite Hu1; done). apply (wp_of_opt _ _ _ _ le0); [done |].
  rewrite Htab. wp_step. rewrite (proj2 (Z.eqb_eq _ _) Hp). cbn [negb].
  assert (opcode_read wide reg (rm_index a) (rm_base a) u1) as Hread1
    by (rewrite Hu1; destruct Hread; by constructor).
  eapply wp_mono; [unfold wp; rewrite decode_ext_leaf by done;
    eapply (rm_decode_insn wide o1 o2 e opcode p reg a u1); try done; simpl; lia |].
  intros x u3 (-> & Hops & Hr3). rewrite reader_skip_skip in Hr3. done.
Qed.

(** ** From the prefixes on *)

Lemma rm_rex_ok wide (reg : RegisterID) a : exists c,
  rex_ok wide reg (rm_index a) (rm_base a) c /\
  ((rm_rex wide reg a = [] /\ c = 0) \/ (rm_rex wide reg a = [c] /\ is_rex 64 c = true /\ is_byte c)).
Proof.
  pose proof (RegisterID_range reg). pose proof (rm_index_range a). pose proof (rm_base_range a).
  unfold rm_rex, enc_rexIfNeeded, enc_rexIf, regRequiresRex. rewrite H64.
  destruct wide; [| case_match eqn:Hneed]; cbn [andb] in *.
  - edestruct (enc_rex_ok true reg (rm_index a) (rm_base a)) as (? & ? & ?); [done.. |]. eauto 10.
  - edestruct (enc_rex_ok false reg (rm_index a) (rm_base a)) as (? & ? & ?); [done.. |]. eauto 10.
  - exists 0. change (r8 : Z) with 8 in *. zbool. split; [apply no_rex_ok; lia | auto].
Qed.

Lemma apply_rex u c : dis_mode u = 64 -> is_rex 64 c = true -> apply_prefix u c = u <| pfx_rex := c |>.
Proof.
  intros Hd Hc. unfold apply_prefix, decode_prefix_byte, mget, mmod, mbind, M_bind, mret, M_ret.
  rewrite Hd. unfold is_rex in Hc. by rewrite Hc.
Qed.

(** The cursor at the start of an instruction. *)
Definition insn_start (r : reader) : reader := mk_reader (r_all r) (r_pos r) 0 (r_eof r) 0.

Lemma start_repr u r l : repr (inp u) r ->
  repr (inp ((clear_insn (u <| inp := ud_inp_start (inp u) |>)) <| le := l |>)) (insn_start r).
Proof.
  intros Hr. apply (error_repr (ud_inp_start (inp u)) (reader_start r) 0). by apply ud_inp_start_repr.
Qed.

(** Decoding prefixes: the REX prefix is all there is. *)
Lemma decode_prefixes_rex wide opcode (reg : RegisterID) a u r bs :
  dis_mode u = 64 -> is_prefix 64 opcode = false ->
  reading u r (rm_rex wide reg a ++ opcode :: bs) -> r_ctr r = 0%nat -> r_err r = 0 -> pfx_rex u = 0 ->
  wp decode_prefixes u (fun x u' => x = 0 /\
    exists c i, rex_ok wide reg (rm_index a) (rm_base a) c /\ u' = u <| pfx_rex := c |> <| inp := i |> /\
    reading u' (reader_skip (length (rm_rex wide reg a)) r) (opcode :: bs)).
Proof.
  intros Hd Hp [Hr Hbytes] Hctr Herr Hrex0.
  eapply wp_mono; [by apply decode_prefixes_ok |]. intros x u'. unfold prefixes_post.
  rewrite Hbytes, Hd. destruct (rm_rex_ok wide reg a) as (c & Hc & [[Hnil ->] | (Hcons & Hisrex & _)]).
  - rewrite Hnil. cbn [app prefix_run length]. rewrite Hp, decide_True by lia.
    intros (-> & Hr' & Hu'). split; [done |]. exists 0, (inp u'). split_and!; [done | |].
    + rewrite Hu' at 1. simpl. destruct u; simpl in *. by subst.
    + split; [done |]. by rewrite reader_skip_0, Hbytes, Hnil.
  - rewrite Hcons. cbn [app].
    assert (prefix_run 64 (c :: opcode :: bs) = 1%nat) as ->
      by (cbn [prefix_run]; rewrite Hp; unfold is_prefix; by rewrite Hisrex).
    rewrite decide_True by (cbn [length]; lia). cbn [take foldl]. rewrite apply_rex by done.
    intros (-> & Hr' & Hu'). split; [done |]. exists c, (inp u'). split_and!; [done | done |].
    split; [done |]. simpl. by rewrite <- drop_drop, Hbytes, Hcons.
Qed.

Lemma decode_format_ok wide o1 o2 e opcode (reg : RegisterID) a u r rest :
  rm_order o1 o2 -> rm_opcode T opcode o1 o2 e -> 0 <= opcode < 256 -> is_prefix 64 opcode = false ->
  rm_arg_ok a = true -> dis_mode u = 64 -> reading u r (enc_format wide opcode reg a ++ rest) ->
  wp ud_decode_opcode u (fun err u' => err = false /\ rm_operands wide o1 reg a u' /\
    reading u' (reader_skip (length (enc_format wide opcode reg a)) (insn_start r)) rest).
Proof.
  intros Ho Hopc Hbyte Hp Hok Hd [Hr Hbytes].
  destruct (opc_table _ _ _ _ _ Hopc) as (le0 & p & Hl & _).
  unfold ud_decode_opcode, table_list_at. do 5 wp_step. rewrite Hl. do 3 wp_step.
  pose proof (start_repr u r (Some le0) Hr) as Hstart.
  set (u1 := (clear_insn _) <| le := Some le0 |>) in *. wp_step.
  assert (reading u1 (insn_start r) (rm_rex wide reg a ++ opcode :: rm_bytes reg a ++ rest)) as Hread.
  { split; [done |]. simpl. rewrite Hbytes. unfold enc_format. rewrite u8_id by done.
    by rewrite <- !app_assoc. }
  eapply wp_mono; [by apply (decode_prefixes_rex wide opcode reg a u1 (insn_start r) (rm_bytes reg a ++ rest)) |].
  intros x u2 (-> & c & i & Hc & Hu2 & Hr2). change (0 =? -1) with false. cbv iota. wp_step.
  assert (length (rm_rex wide reg a) <= 1)%nat as Hlen.
  { destruct (rm_rex_ok wide reg a) as (? & _ & [[-> _] | [-> _]]); simpl; lia. }
  eapply wp_mono; [eapply (rm_decode_opcode wide o1 o2 e opcode le0 reg a u2); try done; try (simpl; lia) |].
  - by rewrite Hl, Hu2.
  - by rewrite Hu2.
  - rewrite Hu2. by constructor.
  - intros x u3 (-> & Hops & Hr3). change (0 =? -1) with false. cbv iota. do 3 wp_step.
    assert (ud_error u3 = 0) as -> by (destruct Hr3 as [[m []] _]; unfold ud_error; simpl in *; congruence).
    split_and!; [done | done |]. rewrite reader_skip_add in Hr3. unfold enc_format.
    rewrite !length_app. done.
Qed.
Lemma enc_format_length wide opcode (reg : RegisterID) a :
  rm_arg_ok a = true -> (length (enc_format wide opcode reg a) <= 8)%nat.
Proof.
  intros Hok. unfold enc_format, rm_bytes. rewrite !length_app. cbn [length].
  pose proof (rm_tail_length a Hok).
  destruct (rm_rex_ok wide reg a) as (? & _ & [[-> _] | [-> _]]); cbn [length]; lia.
Qed.
End insn.
