(* ===== verification/X86Patch.v ===== *)
(** * The x86 assembler: linking and patching are exact

    A linked jump goes to its target as the disassembler reads it; the jump
    planted over an instruction and its reversal restore the instruction; a
    load and the computation of its address are exchanged by one byte. *)

From stdpp Require Import base numbers list.
From S2P Require Import Prelude UdTypes UdInput UdDecode UdDecodeSafe UdPrefix UdText.
From S2P Require Import AssemblerBuffer X86Formatter X86Assembler X86Calls X86Link X86LinkProof X86Decode.

#[local] Open Scope Z_scope.

(** ** Bytes stored and loaded *)

Definition in_cells (l : cells) (i : Z) (n : nat) : Prop :=
  0 <= i /\ i + Z.of_nat n <= Z.of_nat (length l).

Lemma cells_store_eq l i bs :
  in_cells l i (length bs) ->
  cells_store l i bs
  = Some (take (Z.to_nat i) l ++ (Some <$> bs) ++ drop (Z.to_nat i + length bs) l).
Proof.
  intros [? ?]. unfold cells_store.
  by rewrite (proj2 (Z.leb_le 0 i)), (proj2 (Z.leb_le _ (Z.of_nat (length l)))) by lia.
Qed.

Lemma cells_load_eq l i n : in_cells l i n -> cells_load l i n = Some (take n (drop (Z.to_nat i) l)).
Proof.
  intros [? ?]. unfold cells_load.
  by rewrite (proj2 (Z.leb_le 0 i)), (proj2 (Z.leb_le _ (Z.of_nat (length l)))) by lia.
Qed.

(** [l] holds the bytes [bs] from [i] on. *)
Definition holds (l : cells) (i : Z) (bs : list Z) : Prop :=
  in_cells l i (length bs) /\ take (length bs) (drop (Z.to_nat i) l) = Some <$> bs.

Lemma holds_load l i bs : holds l i bs -> cells_load l i (length bs) = Some (Some <$> bs).
Proof. intros [Hi Ht]. by rewrite cells_load_eq, Ht. Qed.

Lemma holds_app l i bs cs :
  holds l i (bs ++ cs) <-> holds l i bs /\ holds l (i + Z.of_nat (length bs)) cs.
Proof.
  unfold holds, in_cells. rewrite length_app, fmap_app.
  split.
  - intros [Hi Ht]. replace (Z.to_nat (i + Z.of_nat (length bs))) with (Z.to_nat i + length bs)%nat by lia.
    rewrite <- drop_drop, <- take_take_drop in *. apply app_inj_1 in Ht as [H1 H2];
      [split; (split; [lia | done]) |].
    rewrite length_take, length_drop, length_fmap. lia.
  - intros [[Hi1 H1] [Hi2 H2]].
    replace (Z.to_nat (i + Z.of_nat (length bs))) with (Z.to_nat i + length bs)%nat in H2 by lia.
    split; [lia |]. by rewrite <- take_take_drop, H1, drop_drop, H2.
Qed.

(** Storing what is there changes nothing. *)
Lemma store_same l i bs : holds l i bs -> cells_store l i bs = Some l.
Proof.
  intros [Hi Ht]. rewrite cells_store_eq, <- Ht, <- drop_drop, take_drop, take_drop by done. done.
Qed.

(** A store, and what it leaves. *)
Lemma store_holds l i bs :
  in_cells l i (length bs) -> exists l', cells_store l i bs = Some l' /\ length l' = length l /\
    holds l' i bs /\
    (forall cs, length cs = length bs -> cells_store l' i cs = cells_store l i cs).
Proof.
  intros Hi. rewrite cells_store_eq by done. eexists. split; [done |].
  set (l' := take _ l ++ _ ++ _).
  assert (length (take (Z.to_nat i) l) = Z.to_nat i) as Htl
    by (rewrite length_take; unfold in_cells in Hi; lia).
  assert (length l' = length l) as Hl.
  { subst l'. rewrite !length_app, Htl, length_fmap, length_drop. unfold in_cells in Hi. lia. }
  split_and!; [done | split |].
  - unfold in_cells in *. by rewrite Hl.
  - subst l'. rewrite drop_app_length' by done. rewrite take_app_length' by (by rewrite length_fmap). done.
  - intros cs Hcs. rewrite !cells_store_eq by (unfold in_cells in *; rewrite ?Hl, Hcs; done).
    f_equal. subst l'. rewrite take_app_length' by done. do 2 f_equal.
    rewrite app_assoc, drop_app_length'; [by rewrite Hcs |].
    rewrite length_app, Htl, length_fmap. lia.
Qed.

(** Two adjacent stores are one. *)
Lemma store_app l i bs cs l1 :
  cells_store l i bs = Some l1 -> in_cells l i (length (bs ++ cs)) ->
  cells_store l1 (i + Z.of_nat (length bs)) cs = cells_store l i (bs ++ cs).
Proof.
  rewrite length_app. intros H1 Hi. rewrite cells_store_eq in H1 by (unfold in_cells in *; lia).
  injection H1 as <-. set (k := Z.to_nat i).
  assert (length (take k l) = k) as Htl by (rewrite length_take; unfold in_cells in Hi; lia).
  assert (length (take k l ++ (Some <$> bs) ++ drop (k + length bs) l) = length l) as Hl
    by (rewrite !length_app, Htl, length_fmap, length_drop; unfold in_cells in Hi; lia).
  unfold in_cells in Hi.
  rewrite cells_store_eq by (unfold in_cells; fold k; rewrite Hl; lia).
  rewrite cells_store_eq by (unfold in_cells; rewrite length_app; lia). fold k.
  replace (Z.to_nat (i + Z.of_nat (length bs))) with (k + length bs)%nat by lia. f_equal.
  assert (length (take k l ++ (Some <$> bs)) = k + length bs)%nat as Hlen
    by (rewrite length_app, Htl, length_fmap; lia).
  rewrite (app_assoc (take k l) (Some <$> bs) (drop (k + length bs) l)), take_app_length' by done.
  rewrite <- (drop_drop _ (length cs) (k + length bs)), drop_app_length', drop_drop by done.
  rewrite length_app, fmap_app, <- !app_assoc. do 4 f_equal. lia.
Qed.

(** ** Stores in memory *)

Lemma wp_mem_load r where_ bs (Q : list Z -> region -> Prop) n :
  holds (r_cells r) (where_ - r_base r) bs -> length bs = n -> Q bs r -> wp (mem_load where_ n) r Q.
Proof.
  intros Hh <- HQ. unfold mem_load. wp_step. wp_step. rewrite holds_load by done. wp_step. wp_step.
  apply (wp_of_opt _ _ _ _ bs); [| done]. by apply mapM_fmap_Some.
Qed.

(** [m] does what one store of [bs] at [where_] does. *)
Definition stores (where_ : Z) (bs : list Z) (m : RM unit) : Prop := forall r,
  in_cells (r_cells r) (where_ - r_base r) (length bs) -> m r = mem_store where_ bs r.

Lemma mem_store_eq r where_ bs l :
  cells_store (r_cells r) (where_ - r_base r) bs = Some l ->
  mem_store where_ bs r = Ok (tt, mk_region (r_base r) l).
Proof. intros Hs. unfold mem_store, mbind, M_bind, mget. by rewrite Hs. Qed.

Lemma stores_one where_ bs : stores where_ bs (mem_store where_ bs).
Proof. by intros r Hi. Qed.

(** Adjacent stores make one. *)
Lemma stores_seq where_ bs cs (m k : RM unit) :
  stores where_ bs m -> stores (where_ + Z.of_nat (length bs)) cs k ->
  stores where_ (bs ++ cs) (m;; k).
Proof.
  intros Hm Hk r Hi.
  assert (in_cells (r_cells r) (where_ - r_base r) (length bs)) as Hi1
    by (rewrite length_app in Hi; unfold in_cells in *; lia).
  destruct (store_holds (r_cells r) (where_ - r_base r) bs Hi1) as (l1 & H1 & Hl1 & _).
  destruct (store_holds (r_cells r) (where_ - r_base r) (bs ++ cs) Hi) as (l2 & H2 & _).
  pose proof (store_app _ _ _ _ _ H1 Hi) as Happ. rewrite H2 in Happ.
  rewrite (mem_store_eq r _ _ l2 H2). unfold mbind, M_bind. rewrite Hm, (mem_store_eq r _ _ l1 H1) by done.
  replace (where_ + Z.of_nat (length bs) - r_base r)
    with (where_ - r_base r + Z.of_nat (length bs)) in * by lia.
  rewrite Hk by (simpl; rewrite length_app in Hi; unfold in_cells in *; rewrite Hl1; lia).
  rewrite (mem_store_eq _ _ _ l2); [done |]. simpl. rewrite <- Happ. f_equal. lia.
Qed.

Lemma stores_nil where_ : stores where_ [] (mret tt).
Proof.
  intros r Hi. rewrite (mem_store_eq r _ _ (r_cells r)); [by destruct r |].
  apply store_same. split; [done |]. by rewrite take_0.
Qed.

Lemma stores_each where_ bs : stores where_ bs (mem_store_each where_ bs).
Proof.
  revert where_. induction bs as [|b bs IH]; intros where_; [apply stores_nil |].
  apply (stores_seq where_ [b] bs); [apply stores_one | apply IH].
Qed.

Lemma stores_assert where_ bs (c : bool) (m : RM unit) :
  c = true -> stores where_ bs m -> stores where_ bs (asm_assert c;; m).
Proof. by intros ->. Qed.

(** A store over bytes that were stored: the first is forgotten, and storing
    the original bytes again restores the memory. *)
Lemma stores_restore r where_ bs cs m k :
  holds (r_cells r) (where_ - r_base r) bs -> length cs = length bs ->
  stores where_ cs m -> stores where_ bs k ->
  exists r', m r = Ok (tt, r') /\ holds (r_cells r') (where_ - r_base r') cs /\
    r_base r' = r_base r /\ k r' = Ok (tt, r).
Proof.
  intros Hh Hlen Hm Hk. pose proof Hh as [Hi _].
  destruct (store_holds (r_cells r) (where_ - r_base r) cs) as (l1 & H1 & Hl1 & Hh1 & Hover);
    [by rewrite Hlen |].
  exists (mk_region (r_base r) l1). rewrite Hm by (by rewrite Hlen).
  split_and!; [by apply mem_store_eq | done | done |].
  rewrite Hk by (unfold in_cells in *; simpl; by rewrite Hl1).
  rewrite (mem_store_eq _ _ _ (r_cells r)); [by destruct r |]. simpl.
  rewrite Hover by done. by apply store_same.
Qed.

Section patching.
Context `{!Target}.

(** ** Jumps *)

(** Addresses of user space, whose differences do not overflow. *)
Definition user_address (x : Z) : Prop := 0 <= x < 2 ^ (8 * Z.of_nat pointer_bytes - 1).

Lemma swrap_small w x : 0 < w -> 0 <= x < 2 ^ (w - 1) -> swrap w x = x.
Proof.
  intros Hw Hx. unfold swrap. assert (2 ^ (w - 1) < 2 ^ w) by (apply Z.pow_lt_mono_r; lia).
  rewrite Z.mod_small by lia. by rewrite (proj2 (Z.ltb_lt _ _)) by lia.
Qed.

Lemma intptr_sub_ok a b r : user_address a -> user_address b -> intptr_sub a b r = Ok (a - b, r).
Proof.
  unfold user_address. intros Ha Hb. unfold intptr_sub.
  assert (0 < 8 * Z.of_nat pointer_bytes) by (unfold pointer_bytes; destruct x86_64; lia).
  rewrite !swrap_small by lia.
  set (m := 2 ^ (8 * Z.of_nat pointer_bytes - 1)) in *.
  by rewrite (proj2 (Z.leb_le _ _)), (proj2 (Z.ltb_lt _ _)) by lia.
Qed.

Lemma le_bytes_s32 d : le_bytes 4 (s32 d) = le_bytes 4 d.
Proof.
  assert (forall n v k, le_bytes n (v + k * 2 ^ (8 * Z.of_nat n)) = le_bytes n v) as Hmod.
  { induction n as [|n IH]; intros v k; [done |]. cbn [le_bytes].
    replace (k * 2 ^ (8 * Z.of_nat (S n))) with (k * 2 ^ (8 * Z.of_nat n) * 2 ^ 8)
      by (replace (8 * Z.of_nat (S n)) with (8 * Z.of_nat n + 8) by lia; rewrite Z.pow_add_r by lia; ring).
    f_equal.
    - unfold u8, uwrap. apply Z_mod_plus_full.
    - rewrite !Z.shiftr_div_pow2, Z_div_plus_full by lia. apply IH. }
  unfold s32, swrap. pose proof (Z.div_mod d (2 ^ 32) ltac:(lia)) as Hd.
  case_match.
  - rewrite <- (Hmod 4%nat _ (d / 2 ^ 32)). f_equal. change (8 * Z.of_nat 4) with 32. lia.
  - rewrite <- (Hmod 4%nat _ (d / 2 ^ 32 + 1)). f_equal. change (8 * Z.of_nat 4) with 32. lia.
Qed.

(** The five bytes of a jump from [start]. *)
Definition jump_bytes (start to : Z) : list Z := OP_JMP_rel32 :: le_bytes 4 (to - (start + 5)).

Lemma replaceWithJump_stores start to :
  user_address to -> user_address (start + 5) ->
  stores start (jump_bytes start to) (replaceWithJump start to).
Proof.
  intros Hto Hst r Hi. unfold replaceWithJump, mbind at 1, M_bind at 1. cbv zeta.
  rewrite intptr_sub_ok by done. rewrite le_bytes_s32.
  apply (stores_seq start [OP_JMP_rel32] (le_bytes 4 (to - (start + 5)))); [apply stores_one.. | done].
Qed.

(** ** Reverting a jump *)

(** The instructions a jump may replace, and the reversal of each. *)
Inductive patchable :=
  | P_movq_i64r (imm : Z) (dst : RegisterID)
  | P_cmpl_ir (imm : Z) (dst : RegisterID)
  | P_cmpl_im (imm : Z) (dst : RegisterID).

Definition patch_insn (q : patchable) : insn :=
  match q with
  | P_movq_i64r imm dst => I_movq_i64r imm dst
  | P_cmpl_ir imm dst => I_cmpl_ir_force32 imm dst
  | P_cmpl_im imm dst => I_cmpl_im_force32 imm 0 dst
  end.

Definition patch_revert (q : patchable) (start : Z) : RM unit :=
  match q with
  | P_movq_i64r imm dst => revertJumpTo_movq_i64r start imm dst
  | P_cmpl_ir imm dst => revertJumpTo_cmpl_ir_force32 start imm dst
  | P_cmpl_im imm dst => revertJumpTo_cmpl_im_force32 start imm 0 dst
  end.

(** The comparisons take a register that needs neither REX, SIB nor
    displacement. *)
Definition patch_ok (q : patchable) : bool :=
  match q with
  | P_movq_i64r _ _ => x86_64
  | P_cmpl_ir _ dst => dst <? 8
  | P_cmpl_im _ dst => (dst <? 8) && negb (dst =? esp) && negb (dst =? ebp)
  end.

(** The bytes of such an instruction: two of them, then the immediate. *)
Definition patch_head (q : patchable) : list Z :=
  match q with
  | P_movq_i64r _ dst => [enc_rex true 0 0 dst; u8 (OP_MOV_EAXIv + Z.land dst 7)]
  | P_cmpl_ir _ dst => [u8 OP_GROUP1_EvIz; enc_modrm ModRmRegister GROUP1_OP_CMP dst]
  | P_cmpl_im _ dst => [u8 OP_GROUP1_EvIz; enc_modrm ModRmMemoryNoDisp GROUP1_OP_CMP dst]
  end.
Definition patch_imm (q : patchable) : list Z :=
  match q with
  | P_movq_i64r imm _ => le_bytes 8 imm
  | P_cmpl_ir imm _ | P_cmpl_im imm _ => le_bytes 4 imm
  end.

Lemma emits_silent m bs : formats m bs -> emits (silent m) bs.
Proof.
  intros Hf b Hwf Hmax. apply wp_bind. eapply wp_mono; [by apply Hf |].
  intros _ b' (? & ? & ? & ?). wp_step. auto.
Qed.

Lemma rex_low r x b : 0 <= r < 8 -> 0 <= x < 8 -> 0 <= b < 8 -> enc_rexIfNeeded r x b = [].
Proof.
  intros. unfold enc_rexIfNeeded, enc_rexIf, regRequiresRex. destruct x86_64; [| done].
  change (r8 : Z) with 8. by rewrite !(proj2 (Z.leb_gt _ _)) by lia.
Qed.

Lemma encode_patch q : patch_ok q = true -> encode (patch_insn q) = patch_head q ++ patch_imm q.
Proof.
  intros Hok. apply encode_emits; [destruct q; simpl; lia |].
  destruct q as [imm dst | imm dst | imm dst]; simpl in Hok; cbn [patch_insn emit];
    apply emits_silent; pose proof (RegisterID_range dst); zbool.
  - eapply formats_writes; [simpl; lia | | apply writes_quad].
    apply oneByteOp64_r_formats. lia.
  - eapply formats_writes; [simpl; lia | | apply writes_int].
    eapply formats_cast; [apply oneByteOp_rr_formats; [done | lia] |].
    by rewrite rex_low by (unfold GROUP1_OP_CMP; lia).
  - eapply formats_writes; [simpl; lia | | apply writes_int].
    eapply formats_cast; [apply oneByteOp_m_formats; [done | lia] |].
    rewrite rex_low by (unfold GROUP1_OP_CMP; lia).
    unfold enc_memory, enc_memory_at, enc_base, disp_mode, is_hasSib, is_noBase.
    destruct dst; simpl in *; try lia; by destruct x86_64.
Qed.

Lemma patch_revert_stores q start :
  patch_ok q = true -> stores start (patch_head q ++ take 3 (patch_imm q)) (patch_revert q start).
Proof.
  intros Hok. destruct q as [imm dst | imm dst | imm dst]; simpl in Hok; cbn [patch_head patch_imm patch_revert];
    unfold revertJumpTo_movq_i64r, revertJumpTo_cmpl_ir_force32, revertJumpTo_cmpl_im_force32;
    repeat (apply stores_assert; [done |]); cbv zeta;
    match goal with |- stores _ ([?a; ?b] ++ ?c) _ => change ([a; b] ++ c) with ([a] ++ [b] ++ c) end;
    (eapply stores_seq;
       [ match goal with |- stores _ [?a] (mem_store _ [?b]) => replace b with a by (by destruct dst) end;
         apply stores_one
       | eapply stores_seq;
           [ match goal with |- stores _ [?a] (mem_store _ [?b]) => replace b with a by (by destruct dst) end;
             apply stores_one
           | rewrite <- Z.add_assoc; apply stores_each ] ]).
Qed.

(** ** Loads and address computations *)

(** A format before its opcode: nothing, or a REX prefix of the 64-bit build. *)
Definition rex_prefix (rex : list Z) : Prop :=
  rex = [] \/ (x86_64 = true /\ exists c, rex = [c] /\ Z.land c (Z.lnot 15) = PRE_REX).

Lemma wp_mem_byte r ptr b bs (Q : Z -> region -> Prop) :
  holds (r_cells r) (ptr - r_base r) (b :: bs) -> Q b r -> wp (mem_byte ptr) r Q.
Proof.
  intros Hh HQ. unfold mem_byte. wp_step. apply (holds_app _ _ [b] bs) in Hh as [Hh _].
  eapply (wp_mem_load r ptr [b]); [done | done |]. wp_step. simpl. by rewrite Z.add_0_r.
Qed.

Lemma wp_skip_rex r start rex opcode bs (Q : Z -> region -> Prop) :
  rex_prefix rex -> Z.land opcode (Z.lnot 15) <> PRE_REX ->
  holds (r_cells r) (start - r_base r) (rex ++ opcode :: bs) ->
  Q (start + Z.of_nat (length rex)) r -> wp (skip_rex start) r Q.
Proof.
  intros Hrex Hop Hh HQ. unfold skip_rex. destruct x86_64 eqn:E.
  - destruct Hrex as [-> | (_ & c & -> & Hc)]; simpl app in Hh; wp_step;
      (eapply wp_mem_byte; [done |]); wp_step.
    + rewrite (proj2 (Z.eqb_neq _ _) Hop). by rewrite Z.add_0_r in HQ.
    + by rewrite (proj2 (Z.eqb_eq _ _) Hc).
  - destruct Hrex as [-> | (? & _)]; [| congruence]. wp_step. by rewrite Z.add_0_r in HQ.
Qed.

(** Replacing one byte. *)
Lemma holds_split l i bs :
  holds l i bs <-> exists P S, l = P ++ (Some <$> bs) ++ S /\ Z.of_nat (length P) = i.
Proof.
  split.
  - intros [Hi Ht]. exists (take (Z.to_nat i) l), (drop (length bs) (drop (Z.to_nat i) l)).
    rewrite <- Ht, !take_drop. split; [done |]. rewrite length_take. unfold in_cells in Hi. lia.
  - intros (P & S & -> & <-). split.
    + unfold in_cells. rewrite !length_app, length_fmap. lia.
    + rewrite Nat2Z.id, drop_app_length. rewrite take_app_length' by (by rewrite length_fmap). done.
Qed.

Lemma store_split P S (bs cs : list Z) :
  length bs = length cs ->
  cells_store (P ++ (Some <$> bs) ++ S) (Z.of_nat (length P)) cs = Some (P ++ (Some <$> cs) ++ S).
Proof.
  intros Hl. rewrite cells_store_eq.
  - rewrite Nat2Z.id, take_app_length. do 2 f_equal.
    rewrite app_assoc, drop_app_length'; [done |]. rewrite length_app, length_fmap. lia.
  - unfold in_cells. rewrite !length_app, length_fmap. lia.
Qed.

Lemma holds_replace l i bs b c cs :
  holds l i (bs ++ b :: cs) -> exists l', cells_store l (i + Z.of_nat (length bs)) [c] = Some l' /\
    holds l' i (bs ++ c :: cs) /\ cells_store l' (i + Z.of_nat (length bs)) [b] = Some l.
Proof.
  intros (P & S & -> & <-)%holds_split.
  assert (forall x : Z, P ++ (Some <$> bs ++ x :: cs) ++ S
    = (P ++ (Some <$> bs)) ++ (Some <$> [x]) ++ ((Some <$> cs) ++ S)) as Heq
    by (intros x; rewrite fmap_app, <- !app_assoc; done).
  assert (Z.of_nat (length P) + Z.of_nat (length bs) = Z.of_nat (length (P ++ (Some <$> bs)))) as Hlen
    by (rewrite length_app, length_fmap; lia).
  exists (P ++ (Some <$> bs ++ c :: cs) ++ S). rewrite !Heq, Hlen. split_and!.
  - by apply store_split.
  - apply holds_split. exists P, S. by rewrite <- Heq.
  - by apply store_split.
Qed.

(** The opcode of a load is exchanged for that of an address computation and
    back, the operands untouched. *)
Lemma exchange_opcode r start rex b c cs (m k : RM unit) :
  holds (r_cells r) (start - r_base r) (rex ++ b :: cs) ->
  (forall r, holds (r_cells r) (start - r_base r) (rex ++ b :: cs) ->
     m r = mem_store (start + Z.of_nat (length rex)) [c] r) ->
  (forall r, holds (r_cells r) (start - r_base r) (rex ++ c :: cs) ->
     k r = mem_store (start + Z.of_nat (length rex)) [b] r) ->
  exists r', m r = Ok (tt, r') /\ r_base r' = r_base r /\
    holds (r_cells r') (start - r_base r') (rex ++ c :: cs) /\ k r' = Ok (tt, r).
Proof.
  intros Hh Hm Hk. destruct (holds_replace _ _ _ _ c _ Hh) as (l' & Hs & Hh' & Hs').
  replace (start - r_base r + Z.of_nat (length rex))
    with (start + Z.of_nat (length rex) - r_base r) in * by lia.
  exists (mk_region (r_base r) l'). split_and!; [| done | done |].
  - rewrite Hm by done. by apply mem_store_eq.
  - rewrite Hk by done. rewrite (mem_store_eq _ _ _ (r_cells r)) by done. by destruct r.
Qed.

(** On an instruction with the opcode [b], the two conversions store the other
    opcode, or do nothing. *)
Lemma conversion_eq start rex b bs (f : Z -> Z -> RM unit) r :
  rex_prefix rex -> Z.land b (Z.lnot 15) <> PRE_REX ->
  holds (r_cells r) (start - r_base r) (rex ++ b :: bs) ->
  (ptr ← skip_rex start; x ← mem_byte ptr; f ptr x) r
  = f (start + Z.of_nat (length rex)) b r.
Proof.
  intros Hrex Hb Hh.
  assert (skip_rex start r = Ok (start + Z.of_nat (length rex), r)) as Hskip.
  { destruct (wp_inv _ _ _ (wp_skip_rex r start rex b bs (fun p r' => p = start + Z.of_nat (length rex) /\ r' = r)
      Hrex Hb Hh (conj eq_refl eq_refl))) as (? & ? & Heq & -> & ->). done. }
  assert (mem_byte (start + Z.of_nat (length rex)) r = Ok (b, r)) as Hbyte.
  { apply holds_app in Hh as [_ Hh].
    replace (start - r_base r + Z.of_nat (length rex))
      with (start + Z.of_nat (length rex) - r_base r) in Hh by lia.
    destruct (wp_inv _ _ _ (wp_mem_byte r _ b bs (fun p r' => p = b /\ r' = r) Hh (conj eq_refl eq_refl)))
      as (? & ? & Heq & -> & ->). done. }
  unfold mbind, M_bind. by rewrite Hskip, Hbyte.
Qed.

Lemma to_address_eq start rex bs r :
  rex_prefix rex -> holds (r_cells r) (start - r_base r) (rex ++ OP_MOV_GvEv :: bs) ->
  replaceWithAddressComputation start r = mem_store (start + Z.of_nat (length rex)) [OP_LEA] r.
Proof.
  intros Hrex Hh. unfold replaceWithAddressComputation.
  by rewrite (conversion_eq start rex OP_MOV_GvEv bs
    (fun ptr b => if b =? OP_MOV_GvEv then mem_store ptr [u8 OP_LEA]
                  else if b =? OP_LEA then mret tt else mfail Asm_crash)).
Qed.

Lemma to_load_eq start rex bs r :
  rex_prefix rex -> holds (r_cells r) (start - r_base r) (rex ++ OP_LEA :: bs) ->
  replaceWithLoad start r = mem_store (start + Z.of_nat (length rex)) [OP_MOV_GvEv] r.
Proof.
  intros Hrex Hh. unfold replaceWithLoad.
  by rewrite (conversion_eq start rex OP_LEA bs
    (fun ptr b => if b =? OP_MOV_GvEv then mret tt
                  else if b =? OP_LEA then mem_store ptr [u8 OP_MOV_GvEv] else mfail Asm_crash)).
Qed.

Lemma rm_rex_prefix wide (reg : RegisterID) a :
  (wide = true -> x86_64 = true) -> rex_prefix (rm_rex wide reg a).
Proof.
  intros Hw. destruct x86_64 eqn:E.
  - destruct (rm_rex_ok E wide reg a) as (c & _ & [[-> _] | (-> & Hc & Hb)]); [by left |].
    right. split; [done |]. exists c. split; [done |].
    assert (check_below 256 (fun c => implb (is_rex 64 c) (Z.land c (Z.lnot 15) =? PRE_REX)) = true)
      as Hall by by vm_compute.
    pose proof (check_below_ok _ _ c Hall Hb) as Hcheck. cbv beta in Hcheck. rewrite Hc in Hcheck.
    by apply Z.eqb_eq.
  - left. unfold rm_rex. destruct wide; [by specialize (Hw eq_refl) |].
    unfold enc_rexIfNeeded, enc_rexIf. by rewrite E.
Qed.
End patching.

(** ** Linking a jump in the buffer *)

(** A store below [n] is seen in the first [n] cells. *)
Lemma store_take l i bs n l' :
  cells_store l i bs = Some l' -> i + Z.of_nat (length bs) <= Z.of_nat n -> (n <= length l)%nat ->
  cells_store (take n l) i bs = Some (take n l') /\ length l' = length l.
Proof.
  intros Hs Hn Hl. assert (0 <= i) as Hi by (unfold cells_store in Hs; case_match; [zlia | done]).
  assert (in_cells l i (length bs)) as Hin by (unfold in_cells; lia).
  assert (exists P M S, l = P ++ M ++ S /\ Z.of_nat (length P) = i /\ length M = length bs) as (P & M & S & -> & HP & HM).
  { exists (take (Z.to_nat i) l), (take (length bs) (drop (Z.to_nat i) l)), (drop (length bs) (drop (Z.to_nat i) l)).
    rewrite !take_drop. split_and!; [done | rewrite length_take; lia | rewrite length_take, length_drop; lia]. }
  rewrite cells_store_eq in Hs by done. injection Hs as <-.
  assert (Z.to_nat i = length P) as HiP by lia. rewrite HiP. clear HiP.
  rewrite !length_app in Hl. assert (n = length P + (length bs + (n - length P - length bs)))%nat as Hn' by lia.
  set (k := (n - length P - length bs)%nat) in Hn'.
  assert (forall X : cells, length X = length bs ->
    take n (P ++ X ++ S) = P ++ X ++ take k S) as Htake.
  { intros X HX. rewrite Hn', take_app_add, <- HX, take_app_add. done. }
  assert (forall X Y : cells, length X = length bs -> drop (length P + length bs) (P ++ X ++ Y) = Y) as Hdrop.
  { intros X Y HX. rewrite app_assoc, drop_app_length'; [done |]. rewrite length_app. lia. }
  rewrite take_app_length, Hdrop, !Htake by (done || by rewrite length_fmap). split.
  - rewrite cells_store_eq by (unfold in_cells; rewrite !length_app; lia).
    replace (Z.to_nat i) with (length P) by lia. by rewrite take_app_length, Hdrop.
  - rewrite !length_app, length_fmap. lia.
Qed.

Lemma store_all_Some l i bs l' :
  cells_store l i bs = Some l' -> Forall is_Some l -> Forall is_Some l'.
Proof.
  unfold cells_store. intros Hs Hl. case_match; [injection Hs as <- | done].
  rewrite !Forall_app. split_and!; [by apply Forall_take | | by apply Forall_drop].
  apply Forall_fmap, Forall_true. by eexists.
Qed.

Lemma holds_take l n i bs : holds (take n l) i bs -> holds l i bs.
Proof.
  intros (P & S & Heq & HP)%holds_split. apply holds_split. exists P, (S ++ drop n l).
  split; [| done]. by rewrite <- (take_drop n l) at 1; rewrite Heq, <- !app_assoc.
Qed.

Section linking.
Context `{!Target}.

Lemma linkJump_ok data from to a :
  asm_wf a -> size a <= maxCodeSize -> 4 <= from <= size a -> 0 <= to <= size a ->
  0 <= data -> user_address (data + size a) ->
  holds (code (m_buffer a)) (from - 4) [0; 0; 0; 0] ->
  wp (linkJump data from to) a (fun _ a' => asm_wf a' /\ size a' = size a /\
    cells_store (code (m_buffer a)) (from - 4) (le_bytes 4 (to - from)) = Some (code (m_buffer a'))).
Proof.
  intros Hwf Hmax Hfrom Hto Hdata Huser Hz. unfold linkJump, isSet, UINT32_MAX, maxCodeSize in *.
  rewrite !(proj2 (Z.eqb_neq _ _)) by lia. cbn [negb].
  do 2 (wp_step; apply wp_ret). unfold wp, on_code.
  set (b := m_buffer a) in *. destruct (asm_buffer a Hwf) as [Hcap _ Hidx _ Hwr]. fold b in Hcap, Hidx, Hwr.
  set (r0 := mk_region data (m_storage b)).
  pose proof (holds_take _ _ _ _ Hz) as Hz'.
  destruct (store_holds (m_storage b) (from - 4) (le_bytes 4 (to - from))) as (l' & Hs & Hlen & _);
    [rewrite length_le_bytes; apply Hz' |].
  assert (user_address (data + to) /\ user_address (data + from)) as [Hu1 Hu2]
    by (unfold user_address in *; lia).
  assert ((bs ← mem_load (data + from - 4) 4; asm_assert (le_combine bs =? 0);;
           setRel32 (data + from) (data + to)) r0 = Ok (tt, mk_region data l')) as Hrun.
  { unfold mbind at 1, M_bind at 1.
    destruct (wp_inv _ _ _ (wp_mem_load r0 (data + from - 4) [0; 0; 0; 0] (fun bs r => bs = [0;0;0;0] /\ r = r0) 4
      ltac:(simpl; by replace (data + from - 4 - data) with (from - 4) by lia) eq_refl (conj eq_refl eq_refl)))
      as (? & ? & -> & -> & ->).
    cbn [le_combine]. change (_ =? 0) with true. unfold asm_assert at 1, mbind, M_bind, mret, M_ret.
    unfold setRel32, mbind, M_bind. rewrite intptr_sub_ok by done.
    replace (data + to - (data + from)) with (to - from) by lia.
    rewrite s32_id, Z.eqb_refl by lia. unfold asm_assert, mret, M_ret, setInt32.
    apply mem_store_eq. simpl. by replace (data + from - 4 - data) with (from - 4) by lia. }
  rewrite Hrun. simpl r_cells.
  destruct (store_take _ _ _ (Z.to_nat (m_index b)) _ Hs) as [Hst _]; [rewrite length_le_bytes; lia | lia |].
  split_and!; [| done | done].
  constructor; [| destruct (asm_watch a Hwf) as [? | (w & ?)]; [by left | right; by exists w]].
  destruct (asm_buffer a Hwf). constructor; simpl; try done; [by rewrite Hlen |].
  unfold code. simpl. by eapply store_all_Some.
Qed.

(** The displacement of a jump, read by the disassembler. *)
Lemma decode_rel32 u r d rest :
  reading u r (le_bytes 4 d ++ rest) -> opr_mode u <> 16 -> (r_ctr r + 4 <= 64)%nat ->
  wp (decode_operand zero_operand OP_J SZ_Z) u (fun o u' =>
    op_type o = UD_OP_JIMM /\ op_size o = 32 /\ lval_sdword (lval o) = s32 d /\
    reading u' (reader_skip 4 r) rest).
Proof.
  intros Hr Ho Hctr. cbn [decode_operand]. wp_step. unfold decode_imm. do 2 wp_step.
  assert (resolve_operand_size u SZ_Z = 32) as ->
    by (unfold resolve_operand_size; simpl; by rewrite (proj2 (Z.eqb_neq _ _) Ho)).
  cbn [op_size upd upd_op_size upd_op_type Z.eqb Pos.eqb]. wp_step.
  eapply wp_mono; [by eapply (reading_uint32 u r d rest) |]. intros v u' (-> & Hu & Hr').
  wp_step. wp_step. split_and!; [done | done | | done].
  change (s32 (Z.lor (Z.shiftl (Z.shiftr 0 32) 32) (uwrap 32 (u32 d))) = s32 d).
  rewrite (uwrap_id 32) by apply u32_range. by apply (swrap_uwrap 32).
Qed.

End linking.

(** ** What an operand stands for *)

(** The operand [o] of the disassembler stands for the argument [a] of the
    assembler: the same registers, scale factor and displacement. *)
Definition stands_for (wide : bool) (a : rm_arg) (o : ud_operand) : Prop :=
  op_size o = gpr_size wide /\
  match a with
  | RM_reg rm => op_type o = UD_OP_REG /\ base o = gpr wide rm
  | RM_mem b off | RM_mem_disp8 b off | RM_mem_disp32 b off =>
      op_type o = UD_OP_MEM /\ base o = UD_R_RAX + b /\ index o = UD_NONE /\ scale o = 0 /\
      operand_disp o = off
  | RM_mem_sib b i s off =>
      op_type o = UD_OP_MEM /\ base o = UD_R_RAX + b /\ index o = UD_R_RAX + i /\
      scale o = (if s =? 0 then 0 else 2 ^ s) /\ operand_disp o = off
  end.

Lemma disp8_value off : CAN_SIGN_EXTEND_8_32 off = true -> s8 (u8 off) = off.
Proof. unfold CAN_SIGN_EXTEND_8_32. intros. zbool. rewrite (swrap_uwrap 8) by lia. by symmetry. Qed.

Lemma disp32_value off : in_int32 off = true -> s32 (u32 off) = off.
Proof. unfold in_int32. intros. zbool. rewrite (swrap_uwrap 32) by lia. apply s32_id. lia. Qed.

Lemma mem_operand_disp `{!Target} wide b i s off :
  in_int32 off = true -> operand_disp (mem_operand wide (disp_mode b off) b i s off) = off.
Proof.
  intros Hoff. unfold disp_mode. destruct (Z.eqb_spec off 0) as [-> |]; cbn [andb].
  - destruct (negb (is_noBase b)); [done |]. by vm_compute.
  - destruct (CAN_SIGN_EXTEND_8_32 off) eqn:Hc; [by apply disp8_value | by apply disp32_value].
Qed.

Lemma rm_operand_stands `{!Target} wide a : rm_arg_ok a = true -> stands_for wide a (rm_operand wide a).
Proof.
  intros Hok. destruct a as [rm | b o | b o | b o | b i s o]; cbn [rm_arg_ok] in Hok.
  - done.
  - unfold stands_for. cbn [rm_operand rm_mode]. split_and!; try done. by apply mem_operand_disp.
  - unfold stands_for. cbn [rm_operand rm_mode]. split_and!; try done. by apply disp8_value.
  - unfold stands_for. cbn [rm_operand rm_mode]. split_and!; try done. by apply disp32_value.
  - zbool. unfold stands_for. cbn [rm_operand rm_mode].
    change (noIndex : Z) with 4 in *.
    split_and!; try done; [| | by apply mem_operand_disp]; cbn [mem_operand index scale].
    + by rewrite (proj2 (Z.eqb_neq _ _)) by done.
    + rewrite (proj2 (Z.eqb_neq i 4)) by done.
      assert (s = 0 \/ s = 1 \/ s = 2 \/ s = 3) as [-> | [-> | [-> | ->]]] by lia; done.
Qed.

(** ** Loads and address computations as instructions *)

Definition load_insn (wide : bool) (offset_ : Z) (base_ dst : RegisterID) : insn :=
  if wide then I_movq_mr offset_ base_ dst else I_movl_mr offset_ base_ dst.
Definition lea_insn (wide : bool) (offset_ : Z) (base_ dst : RegisterID) : insn :=
  if wide then I_leaq_mr offset_ base_ dst else I_leal_mr offset_ base_ dst.

Section load.
Context `{!Target}.

Lemma encode_format wide opcode (reg : RegisterID) a i :
  (wide = true -> x86_64 = true) -> rm_arg_ok a = true ->
  emit i = silent (format_op wide opcode reg a) -> encode i = enc_format wide opcode reg a.
Proof.
  intros Hw Hok He. apply encode_emits.
  - unfold enc_format, rm_bytes. rewrite !length_app. cbn [length]. pose proof (rm_tail_length a Hok).
    assert (length (rm_rex wide reg a) <= 1)%nat; [| lia].
    unfold rm_rex. destruct wide; [simpl; lia | apply length_enc_rexIf].
  - rewrite He. by apply emits_silent, format_op_formats.
Qed.

Lemma encode_load wide off (b dst : RegisterID) :
  (wide = true -> x86_64 = true) -> in_int32 off = true ->
  encode (load_insn wide off b dst) = enc_format wide OP_MOV_GvEv dst (RM_mem b off) /\
  encode (lea_insn wide off b dst) = enc_format wide OP_LEA dst (RM_mem b off).
Proof. intros Hw Hoff. split; apply encode_format; try done; by destruct wide. Qed.

Lemma replaceWithLoad_id start rex bs r :
  rex_prefix rex -> holds (r_cells r) (start - r_base r) (rex ++ OP_MOV_GvEv :: bs) ->
  replaceWithLoad start r = Ok (tt, r).
Proof.
  intros Hrex Hh. unfold replaceWithLoad.
  by rewrite (conversion_eq start rex OP_MOV_GvEv bs
    (fun ptr b => if b =? OP_MOV_GvEv then mret tt
                  else if b =? OP_LEA then mem_store ptr [u8 OP_MOV_GvEv] else mfail Asm_crash)).
Qed.
End load.
