(* ===== verification/AsmProps.v ===== *)
(** * The x86 assembler: the properties

    Each theorem is a property of the assembler, proved from the lemmas of the
    component files; the witnesses are small programs in both builds. *)

From stdpp Require Import base numbers list.
From S2P Require Import Prelude UdTypes UdInput UdDecode UdDecodeSafe UdPrefix UdSession Udis86 UdText.
From S2P Require Import AssemblerBuffer X86Formatter X86Assembler X86Calls X86Link X86LinkProof.
From S2P Require Import X86Decode X86Patch.

#[local] Open Scope Z_scope.

(** The two builds. *)
Definition build64 : Target := true.
Definition build32 : Target := false.

(** A program: a jump over a guarded load, with a watchpoint. *)
Definition asm_ops : list asm_op :=
  [ Insn (I_movq_mr 8 esp r9); LabelForWatchpoint; Insn (I_cmpl_ir 1000 eax); Insn I_je; Label;
    Insn (I_movl_rm_sib esi (-8) ebp r12 3); Align 16; Insn I_ret ].

Definition asm_insns : list insn :=
  [ I_push_r ebp; I_movq_rr esp ebp; I_addl_im 300 (-129) r13; I_ret ].

(** C25: the assembler writes within its buffer.  Every sequence of its
    methods, with arguments the methods accept, runs to its end in either
    build: no assertion fails, no byte is stored outside the storage however
    it has grown, no integer overflows, the padding loops end; the buffer's
    invariant holds at the end and the code is no longer than the sum of the
    methods' bounds, 17 bytes for an instruction. *)
Theorem program_safe (B : Target) os :
  Forall (fun o => op_ok o = true) os -> ops_bound os <= maxCodeSize ->
  exists ls a, run_ops os new_assembler = Ok (ls, a) /\ length ls = length os /\
    buffer_wf (m_buffer a) /\ 0 <= codeSize (m_buffer a) <= ops_bound os.
Proof.
  intros Hok Hb.
  destruct (wp_inv _ _ _ (asm_run_ops os new_assembler Hok new_assembler_wf Hb)) as (ls & a & Hrun & Hp).
  exists ls, a. split_and!; [done | apply Hp | apply Hp | apply (ops_size _ _ _ _ Hp) | apply (ops_size _ _ _ _ Hp)].
Qed.

Lemma program_safe_witness :
  Forall (fun o => op_ok (H := build64) o = true) asm_ops /\ ops_bound asm_ops = 116 /\
  exists ls a, run_ops (H := build64) asm_ops new_assembler = Ok (ls, a) /\
    0 <= codeSize (m_buffer a) <= 116.
Proof.
  assert (Forall (fun o => op_ok (H := build64) o = true) asm_ops) as Hok
    by (repeat constructor; reflexivity).
  split; [exact Hok |]. split; [reflexivity |].
  destruct (program_safe build64 asm_ops Hok ltac:(discriminate)) as (ls & a & Hrun & _ & _ & Hs).
  exists ls, a. split; [exact Hrun | exact Hs].
Defined.

(** C26: watchpoints stay clear.  In the run of any sequence of methods from a
    new assembler, a label that may be jumped to ([label], [align],
    [labelForWatchpoint]) never falls inside the five bytes after a label made
    for a watchpoint, whichever of the two is made first: a jump written over
    the code at the watchpoint overwrites no jump target but its own, and no
    other watchpoint's code. *)
Theorem watchpoints_apart (B : Target) os ls a :
  Forall (fun o => op_ok o = true) os -> ops_bound os <= maxCodeSize ->
  run_ops os new_assembler = Ok (ls, a) ->
  forall i j o w l,
  os !! i = Some LabelForWatchpoint -> ls !! i = Some (Some w) ->
  os !! j = Some o -> is_target o = true -> ls !! j = Some (Some l) ->
  l <= w \/ w + maxJumpReplacementSize <= l.
Proof.
  intros Hok Hb Hrun i j o w l Hi Hw Hj Ht Hl.
  destruct (wp_inv _ _ _ (asm_run_ops os new_assembler Hok new_assembler_wf Hb)) as (? & ? & Heq & Hp).
  rewrite Heq in Hrun. injection Hrun as -> ->.
  exact (ops_watch _ _ _ _ Hp i w Hi Hw j o l Hj Ht Hl).
Qed.

(** Between the watchpoint at 0 and the next label four bytes of padding are
    needed. *)
Definition watch_ops : list asm_op := [LabelForWatchpoint; Insn I_ret; Label].

Lemma watchpoints_apart_witness :
  Forall (fun o => op_ok (H := build32) o = true) watch_ops /\
  (exists a, run_ops (H := build32) watch_ops new_assembler = Ok ([Some 0; None; Some 5], a)) /\
  (5 <= 0 \/ 0 + maxJumpReplacementSize <= 5).
Proof.
  assert (Forall (fun o => op_ok (H := build32) o = true) watch_ops) as Hok
    by (repeat constructor; reflexivity).
  assert (exists a, run_ops (H := build32) watch_ops new_assembler = Ok ([Some 0; None; Some 5], a))
    as [a Hrun] by (eexists; vm_compute; reflexivity).
  split; [exact Hok |]. split; [exists a; exact Hrun |].
  apply (watchpoints_apart build32 watch_ops _ a Hok ltac:(discriminate) Hrun 0%nat 2%nat Label);
    reflexivity.
Defined.

(** Instructions are encoded one after the other.  The code of a list of
    instructions is the concatenation of the bytes each of them has in a
    buffer of its own, at most 17, in the order of the calls: neither what was
    written before nor the growth of the buffer changes an instruction. *)
Theorem instructions_concat (B : Target) is_ :
  Forall (fun i => insn_ok i = true) is_ -> 17 * Z.of_nat (length is_) <= maxCodeSize ->
  Forall (fun i => (length (encode i) <= 17)%nat) is_ /\
  exists ls a, run_ops (Insn <$> is_) new_assembler = Ok (ls, a) /\
    code (m_buffer a) = Some <$> concat (encode <$> is_).
Proof.
  intros Hok Hb. split; [eapply Forall_impl; [exact Hok |]; apply length_encode |].
  destruct (wp_inv _ _ _ (run_insns_code is_ new_assembler Hok new_assembler_wf Hb))
    as (ls & a & Hrun & _ & Hc & _).
  exists ls, a. done.
Qed.

Lemma instructions_concat_witness :
  Forall (fun i => insn_ok (H := build64) i = true) asm_insns /\
  exists ls a, run_ops (H := build64) (Insn <$> asm_insns) new_assembler = Ok (ls, a) /\
    code (m_buffer a) = Some <$>
      [0x55; 0x48; 0x89; 0xe5; 0x41; 0x81; 0x85; 0x7f; 0xff; 0xff; 0xff; 0x2c; 0x01; 0; 0; 0xc3].
Proof.
  assert (Forall (fun i => insn_ok (H := build64) i = true) asm_insns) as Hok
    by (repeat constructor; reflexivity).
  split; [exact Hok |].
  destruct (instructions_concat build64 asm_insns Hok ltac:(discriminate)) as (_ & ls & a & Hrun & Hc).
  exists ls, a. split; [exact Hrun |]. rewrite Hc. vm_compute. reflexivity.
Defined.

(** C27: the disassembler reads back what the assembler wrote.  For every
    opcode that the instruction tables give a general register and a general
    register or memory operand, every register, and every operand (a register,
    base and displacement of any size, or base, index, scale and displacement),
    32-bit or 64-bit: the x86-64 formatter appends the same bytes in any
    buffer, and udis86 decodes these bytes, whatever follows them, without
    error, consuming them exactly, into operands that stand for the
    arguments; there are at most eight of them. *)
Theorem operands_roundtrip (T : Itab) o1 o2 e (wide : bool) opcode (reg : RegisterID) a :
  rm_order o1 o2 -> rm_opcode T opcode o1 o2 e -> 0 <= opcode < 256 ->
  is_prefix 64 opcode = false -> rm_arg_ok a = true ->
  exists bs, (length bs <= 8)%nat /\
  (forall b, buffer_wf b -> m_index b + Z.of_nat (length bs) <= maxCodeSize ->
     exists b', format_op (H := build64) wide opcode reg a b = Ok (tt, b') /\
       code b' = code b ++ (Some <$> bs)) /\
  (forall u r rest, dis_mode u = 64 -> repr (inp u) r -> drop (r_pos r) (r_all r) = bs ++ rest ->
     exists u' r', ud_decode_opcode u = Ok (false, u') /\ repr (inp u') r' /\
       r_all r' = r_all r /\ r_pos r' = (r_pos r + length bs)%nat /\
       stands_for wide (if is_G o1 then RM_reg reg else a) (opnd0 u') /\
       stands_for wide (if is_G o1 then a else RM_reg reg) (opnd1 u')).
Proof.
  intros Ho Hopc Hbyte Hpre Hok. exists (enc_format (H := build64) wide opcode reg a).
  split; [by apply enc_format_length |]. split.
  - intros b Hwf Hmax.
    destruct (wp_inv _ _ _ (format_op_formats (H := build64) wide opcode reg a Hok b Hwf Hmax))
      as ([] & b' & Hrun & _ & Hc & _). eauto.
  - intros u r rest Hd Hr Hbytes.
    destruct (wp_inv _ _ _ (decode_format_ok (H := build64) eq_refl wide o1 o2 e opcode reg a u r rest
      Ho Hopc Hbyte Hpre Hok Hd (conj Hr Hbytes))) as (err & u' & Hrun & -> & (H0 & H1 & _) & [Hr' _]).
    exists u', (reader_skip (length (enc_format (H := build64) wide opcode reg a)) (insn_start r)).
    split_and!; [done | done | done | done | |]; rewrite ?H0, ?H1; destruct (is_G o1);
      first [by apply (rm_operand_stands (H := build64)) | by apply (rm_operand_stands (H := build64) wide (RM_reg reg))].
Qed.

Lemma sample_add : rm_opcode sample OP_ADD_EvGv OP_E OP_G
  (mk_itab_entry 15 (mk_entry_operand OP_E SZ_V) (mk_entry_operand OP_G SZ_V) O_NONE P_full).
Proof.
  constructor; try done.
  - eexists _, 2. split_and!; reflexivity.
  - repeat constructor; discriminate.
Qed.

(** Add [r12+r9*4-300], r15 *)
Definition add_arg : rm_arg := RM_mem_sib r12 r9 2 (-300).

Lemma operands_roundtrip_witness :
  rm_arg_ok add_arg = true /\
  exists bs u' r', (exists b', format_op (H := build64) true OP_ADD_EvGv r15 add_arg new_buffer = Ok (tt, b') /\
      code b' = Some <$> bs) /\
    ud_decode_opcode (T := sample) (setup 64 0x1000 (bs ++ [0xc3]) None (ud_init (T := sample) [])) = Ok (false, u') /\
    repr (inp u') r' /\ r_pos r' = length bs /\
    stands_for true add_arg (opnd0 u') /\ stands_for true (RM_reg r15) (opnd1 u').
Proof.
  split; [reflexivity |].
  destruct (operands_roundtrip sample OP_E OP_G _ true OP_ADD_EvGv r15 add_arg
    (or_intror (conj eq_refl eq_refl)) sample_add ltac:(done) eq_refl eq_refl) as (bs & Hl & Hw & Hd).
  destruct (Hw new_buffer new_buffer_wf ltac:(unfold maxCodeSize; simpl; lia)) as (b' & Hrun & Hc).
  assert (bs = [0x4f; 0x01; 0xbc; 0x8c; 0xd4; 0xfe; 0xff; 0xff]) as Hbs.
  { apply (inj (fmap Some)). change (Some <$> bs) with (code new_buffer ++ (Some <$> bs)).
    rewrite <- Hc. clear - Hrun. vm_compute in Hrun. injection Hrun as <-. reflexivity. }
  assert (Forall is_byte (bs ++ [0xc3])) as Hbytes by (rewrite Hbs; repeat constructor; done).
  set (u := setup 64 0x1000 (bs ++ [0xc3]) None (ud_init (T := sample) [])).
  assert (ready u (mk_reader (bs ++ [0xc3]) 0 0 false 0)) as Hready by (apply setup_ready; exact Hbytes).
  destruct (Hd u (mk_reader (bs ++ [0xc3]) 0 0 false 0) [0xc3] eq_refl (ready_repr _ _ Hready) eq_refl)
    as (u' & r' & Hdec & Hr' & _ & Hpos & H0 & H1).
  exists bs, u', r'. split; [exists b'; split; [exact Hrun | exact Hc] |].
  split; [exact Hdec |]. split; [exact Hr' |]. split; [exact Hpos |]. split; [exact H0 | exact H1].
Defined.

(** C28: a linked jump goes to its target.  Linking a jump whose displacement is
    still zero to a label of the same code changes its four bytes of
    displacement and nothing else; the disassembler reads them back as a
    relative operand whose target, from the address of the following
    instruction, is the address of the label. *)
Theorem linked_jump_target (B : Target) data from to a :
  asm_wf a -> codeSize (m_buffer a) <= maxCodeSize ->
  4 <= from <= codeSize (m_buffer a) -> 0 <= to <= codeSize (m_buffer a) ->
  0 <= data -> user_address (data + codeSize (m_buffer a)) ->
  holds (code (m_buffer a)) (from - 4) [0; 0; 0; 0] ->
  exists a', linkJump data from to a = Ok (tt, a') /\ asm_wf a' /\
    cells_store (code (m_buffer a)) (from - 4) (le_bytes 4 (to - from)) = Some (code (m_buffer a')) /\
    forall u r rest, repr (inp u) r -> (r_ctr r + 4 <= 64)%nat -> opr_mode u <> 16 ->
      drop (r_pos r) (r_all r) = le_bytes 4 (to - from) ++ rest ->
      exists o u', decode_operand zero_operand OP_J SZ_Z u = Ok (o, u') /\ op_type o = UD_OP_JIMM /\
        forall v, dis_mode v = (if x86_64 then 64 else 32) -> pc v = data + from ->
          branch_target v o = data + to.
Proof.
  intros Hwf Hmax Hfrom Hto Hdata Huser Hz.
  destruct (wp_inv _ _ _ (linkJump_ok data from to a Hwf Hmax Hfrom Hto Hdata Huser Hz))
    as ([] & a' & Hrun & Hwf' & Hs & Hcode).
  exists a'. split_and!; [done | done | done |].
  intros u r rest Hr Hctr Hopr Hbytes.
  destruct (wp_inv _ _ _ (decode_rel32 u r (to - from) rest (conj Hr Hbytes) Hopr Hctr))
    as (o & u' & Hdec & Hty & Hsz & Hval & _).
  exists o, u'. split_and!; [done | done |]. intros v Hmode Hpc. unfold branch_target.
  unfold codeSize, maxCodeSize, user_address, pointer_bytes in *.
  rewrite Hsz, Hval, Hpc, Hmode, s32_id by lia. replace (data + from + (to - from)) with (data + to) by lia.
  cbn [Z.eqb Pos.eqb]. destruct x86_64; cbn [Z.eqb Pos.eqb]; simpl in Huser.
  - apply u64_id. lia.
  - rewrite u64_id by lia. change 4294967295 with (Z.ones 32). rewrite Z.land_ones by lia.
    apply Z.mod_small. lia.
Qed.

(** A jump forward over one instruction. *)
Definition jump_ops : list asm_op := [Insn I_jmp; Insn I_int3; Label].

Definition jump_asm : X86Assembler :=
  match run_ops (H := build64) jump_ops new_assembler with Ok (_, a) => a | Err _ => new_assembler end.

Lemma linked_jump_target_witness :
  asm_wf jump_asm /\ code (m_buffer jump_asm) = Some <$> [0xe9; 0; 0; 0; 0; 0xcc] /\
  exists a', linkJump (H := build64) 0x10000 5 6 jump_asm = Ok (tt, a') /\
    code (m_buffer a') = Some <$> [0xe9; 1; 0; 0; 0; 0xcc].
Proof.
  assert (asm_wf jump_asm) as Hwf.
  { pose proof (asm_run_ops (H := build64) jump_ops new_assembler
      ltac:(repeat constructor; reflexivity) new_assembler_wf ltac:(discriminate)) as Hp.
    unfold jump_asm. unfold wp in Hp. destruct (run_ops jump_ops new_assembler) as [[ls a]|]; [| done].
    exact (ops_wf _ _ _ _ Hp). }
  split; [exact Hwf |]. split; [vm_compute; reflexivity |].
  destruct (linked_jump_target build64 0x10000 5 6 jump_asm Hwf) as (a' & Hrun & _ & Hc & _);
    [vm_compute; discriminate | vm_compute; split; discriminate | vm_compute; split; discriminate
    | discriminate | vm_compute; split; [discriminate | reflexivity]
    | split; [vm_compute; split; discriminate | vm_compute; reflexivity] |].
  exists a'. split; [exact Hrun |]. revert Hc. generalize (code (m_buffer a')). clear.
  intros c Hc. vm_compute in Hc. injection Hc as <-. reflexivity.
Defined.

(** C29: a jump over an instruction is undone exactly.  Where the code holds a
    64-bit load of a constant, or a comparison with a 32-bit constant in one of
    the forms the reversal supports, [replaceWithJump] writes a jump to the
    target over its first five bytes, and the corresponding reversal restores
    the memory as it was, byte for byte. *)
Theorem jump_replacement_reverts (B : Target) q r start to :
  patch_ok q = true -> holds (r_cells r) (start - r_base r) (encode (patch_insn q)) ->
  user_address to -> user_address (start + 5) ->
  exists r', replaceWithJump start to r = Ok (tt, r') /\
    holds (r_cells r') (start - r_base r') (OP_JMP_rel32 :: le_bytes 4 (to - (start + 5))) /\
    patch_revert q start r' = Ok (tt, r).
Proof.
  intros Hok Hh Hto Hst. rewrite encode_patch in Hh by done.
  rewrite <- (take_drop 3 (patch_imm q)), app_assoc in Hh. apply holds_app in Hh as [Hh _].
  destruct (stores_restore r start (patch_head q ++ take 3 (patch_imm q)) (jump_bytes start to)
    (replaceWithJump start to) (patch_revert q start)) as (r' & H1 & H2 & _ & H3);
    [done | by destruct q | by apply replaceWithJump_stores | by apply patch_revert_stores |].
  exists r'. done.
Qed.

(** A comparison with a pointer in the 32-bit build, at 0x8000. *)
Definition cmp_region : region :=
  mk_region 0x8000 (Some <$> [0x81; 0xfb; 0x78; 0x56; 0x34; 0x12; 0xc3]).

Lemma jump_replacement_reverts_witness :
  patch_ok (H := build32) (P_cmpl_ir 0x12345678 ebx) = true /\
  exists r', replaceWithJump (H := build32) 0x8000 0x9000 cmp_region = Ok (tt, r') /\
    patch_revert (P_cmpl_ir 0x12345678 ebx) 0x8000 r' = Ok (tt, cmp_region).
Proof.
  split; [reflexivity |].
  destruct (jump_replacement_reverts build32 (P_cmpl_ir 0x12345678 ebx) cmp_region 0x8000 0x9000)
    as (r' & H1 & _ & H2);
    [reflexivity | split; [vm_compute; split; discriminate | vm_compute; reflexivity]
    | vm_compute; split; [discriminate | reflexivity] | vm_compute; split; [discriminate | reflexivity] |].
  exists r'. split; [exact H1 | exact H2].
Defined.

(** A convertible load is exchanged with its address computation.  Where
    the code holds a load of base and displacement, 32-bit or 64-bit,
    [replaceWithAddressComputation] turns it into the instruction that
    computes the address of the same operand into the same register,
    [replaceWithLoad] turns this back, restoring the memory byte for byte, and
    leaves a load as it is. *)
Theorem load_address_exchange (B : Target) (wide : bool) off (b dst : RegisterID) r start :
  (wide = true -> x86_64 = true) -> in_int32 off = true ->
  holds (r_cells r) (start - r_base r) (encode (load_insn wide off b dst)) ->
  exists r', replaceWithAddressComputation start r = Ok (tt, r') /\
    holds (r_cells r') (start - r_base r') (encode (lea_insn wide off b dst)) /\
    replaceWithLoad start r' = Ok (tt, r) /\ replaceWithLoad start r = Ok (tt, r).
Proof.
  intros Hw Hoff Hh. destruct (encode_load wide off b dst Hw Hoff) as [Hl Ha]. rewrite Ha.
  rewrite Hl in Hh. unfold enc_format in *. cbn [app] in *.
  pose proof (rm_rex_prefix wide dst (RM_mem b off) Hw) as Hrex.
  destruct (exchange_opcode r start _ _ (u8 OP_LEA) _
    (replaceWithAddressComputation start) (replaceWithLoad start) Hh) as (r' & H1 & _ & H2 & H3).
  - intros r1 Hr1. by eapply to_address_eq.
  - intros r1 Hr1. by eapply to_load_eq.
  - exists r'. split_and!; [done | done | done |]. by eapply replaceWithLoad_id.
Qed.

(** Mov rbx, [r12+16] at 0x4000, which has a REX prefix and a SIB byte. *)
Definition load_region : region := mk_region 0x4000 (Some <$> [0x49; 0x8b; 0x5c; 0x24; 0x10]).

Lemma load_address_exchange_witness :
  holds (r_cells load_region) 0 (encode (H := build64) (load_insn true 16 r12 ebx)) /\
  exists r', replaceWithAddressComputation (H := build64) 0x4000 load_region = Ok (tt, r') /\
    replaceWithLoad (H := build64) 0x4000 r' = Ok (tt, load_region).
Proof.
  assert (holds (r_cells load_region) 0 (encode (H := build64) (load_insn true 16 r12 ebx))) as Hh
    by (split; [vm_compute; split; discriminate | vm_compute; reflexivity]).
  split; [exact Hh |].
  destruct (load_address_exchange build64 true 16 r12 ebx load_region 0x4000) as (r' & H1 & _ & H2 & _);
    [reflexivity | reflexivity | exact Hh |].
  exists r'. split; [exact H1 | exact H2].
Defined.

(** Alignment.  [align] to a power of two ends; the label it returns is
    the end of the code, and where the code already extends beyond the last
    watchpoint (or the padding does) it is the least multiple of the alignment
    not below the old end.  Otherwise the label is the end of the watchpoint,
    aligned or not: after a watchpoint at the start of the code, aligning to
    16 yields the label 5. *)
Theorem align_label (B : Target) k a :
  0 <= k -> asm_wf a -> codeSize (m_buffer a) + 2 ^ k + maxJumpReplacementSize <= maxCodeSize ->
  let padded := codeSize (m_buffer a) + padding (codeSize (m_buffer a)) (2 ^ k) in
  (exists l a', align (2 ^ k) a = Ok (l, a') /\ l = codeSize (m_buffer a') /\
     l = Z.max padded (m_indexOfTailOfLastWatchpoint a)) /\
  padded `mod` 2 ^ k = 0 /\ codeSize (m_buffer a) <= padded < codeSize (m_buffer a) + 2 ^ k /\
  exists a', run_ops [LabelForWatchpoint; Align 16] new_assembler = Ok ([Some 0; Some 5], a').
Proof.
  intros Hk Hwf Hmax padded. assert (0 < 2 ^ k) as Hpos by lia. split_and!.
  - destruct (wp_inv _ _ _ (align_ok k a Hk Hwf Hmax)) as (l & a' & Hrun & -> & Hs & _).
    exists (size a'), a'. done.
  - unfold padded, padding. rewrite Zplus_mod_idemp_r, Z.add_opp_diag_r. by apply Z.mod_0_l; lia.
  - unfold padded, padding. pose proof (Z.mod_pos_bound (- codeSize (m_buffer a)) _ Hpos). lia.
  - unfold padded, padding. pose proof (Z.mod_pos_bound (- codeSize (m_buffer a)) _ Hpos). lia.
  - eexists. vm_compute. reflexivity.
Qed.

Lemma align_label_witness :
  asm_wf new_assembler /\
  exists l a', align (2 ^ 4) new_assembler = Ok (l, a') /\ l = codeSize (m_buffer a') /\
    l = Z.max (0 + padding 0 (2 ^ 4)) INT_MIN.
Proof.
  split; [exact new_assembler_wf |].
  exact (proj1 (align_label build64 4 new_assembler ltac:(discriminate) new_assembler_wf ltac:(discriminate))).
Defined.
