(* ===== verification/Double.v ===== *)
(** * IEEE doubles by their bits

    A double of the code is its 64 bits, a [Z] in [0, 2^64): what
    [bitwise_cast<int64_t>] sees.  The operations of C++ on doubles that the
    representation of JavaScript values uses (equality, comparison with zero,
    conversions from and to integers) are definitions on the fields, and
    [toInt32] of JSCJSValue.cpp is shown to be ECMA-262's ToInt32. *)

From stdpp Require Import base numbers list.
From S2P Require Import Prelude.

#[local] Open Scope Z_scope.

(** ** Fields and value *)

Definition dsign (d : Z) : bool := 2 ^ 63 <=? d.
Definition dexp (d : Z) : Z := (d / 2 ^ 52) `mod` 2 ^ 11.
Definition dfrac (d : Z) : Z := d `mod` 2 ^ 52.

Definition is_finite (d : Z) : bool := negb (dexp d =? 2047).
Definition is_nan (d : Z) : bool := (dexp d =? 2047) && negb (dfrac d =? 0).
Definition is_zero (d : Z) : bool := d `mod` 2 ^ 63 =? 0.

(** A finite double is [dsig d * 2 ^ dscale d] up to its sign. *)
Definition dsig (d : Z) : Z := if dexp d =? 0 then dfrac d else 2 ^ 52 + dfrac d.
Definition dscale (d : Z) : Z := Z.max 1 (dexp d) - 1075.

(** The integer part of the absolute value, and rounding towards zero. *)
Definition abs_trunc (d : Z) : Z :=
  if 0 <=? dscale d then dsig d * 2 ^ dscale d else dsig d / 2 ^ (- dscale d).
Definition trunc (d : Z) : Z := if dsign d then - abs_trunc d else abs_trunc d.

(** [a == b] on doubles. *)
Definition d_eqb (a b : Z) : bool :=
  negb (is_nan a) && negb (is_nan b) && ((a =? b) || (is_zero a && is_zero b)).

(** [d > 0.0] and [d < 0.0]. *)
Definition d_pos (d : Z) : bool := negb (is_nan d) && negb (is_zero d) && negb (dsign d).
Definition d_neg (d : Z) : bool := negb (is_nan d) && negb (is_zero d) && dsign d.

(** ** Conversions from and to integers *)

(** The integer significand of [n], rounded to the nearest with ties to even
    when [n] has more than 53 bits. *)
Definition round_sig (n k : Z) : Z :=
  if k <=? 52 then n * 2 ^ (52 - k)
  else
    let s := k - 52 in
    let q := n / 2 ^ s in
    let r := n `mod` 2 ^ s in
    if (2 ^ (s - 1) <? r) || ((r =? 2 ^ (s - 1)) && Z.odd q) then q + 1 else q.

(** Exponent and fraction of a positive integer: a significand rounded up to
    [2 ^ 53] carries into the exponent. *)
Definition pos_bits (n : Z) : Z := let k := Z.log2 n in (k + 1022) * 2 ^ 52 + round_sig n k.

(** [static_cast<double>] of an integer. *)
Definition of_int (i : Z) : Z :=
  if i =? 0 then 0 else if i <? 0 then 2 ^ 63 + pos_bits (- i) else pos_bits i.

Section casts.
(** What a conversion of a double to an integer yields when the value is not
    representable, which the language leaves undefined. *)
Context (undef : Z -> Z).

(** [static_cast<int32_t>], [static_cast<int64_t>] and [static_cast<uint32_t>]
    of a double. *)
Definition to_int (lo hi : Z) (wrap : Z -> Z) (d : Z) : Z :=
  if is_finite d && (lo <=? trunc d) && (trunc d <=? hi) then trunc d else wrap (undef d).
Definition cast_int32 : Z -> Z := to_int (-2 ^ 31) (2 ^ 31 - 1) s32.
Definition cast_int64 : Z -> Z := to_int (-2 ^ 63) (2 ^ 63 - 1) s64.
Definition cast_uint32 : Z -> Z := to_int 0 (2 ^ 32 - 1) u32.
End casts.

Definition in_int32 (i : Z) : Prop := -2 ^ 31 <= i < 2 ^ 31.

(** ** [toInt32]

    Signed shifts and sums that leave 32 or 64 bits wrap around, as the
    compilers' code does. *)

Definition toInt32 (number : Z) : Z :=
  let bits := s64 number in
  let exp := Z.land (s32 (Z.shiftr bits 52)) 0x7ff - 0x3ff in
  if (exp <? 0) || (83 <? exp) then 0
  else
    let result :=
      if 52 <? exp then s32 (s64 (Z.shiftl bits (exp - 52))) else s32 (Z.shiftr bits (52 - exp)) in
    let result :=
      if exp <? 32 then
        let missingOne := s32 (Z.shiftl 1 exp) in
        s32 (Z.land result (s32 (missingOne - 1)) + missingOne)
      else result in
    if bits <? 0 then s32 (- result) else result.

Definition toUInt32 (number : Z) : Z := u32 (toInt32 number).

(** ECMA-262, 9.5 and 9.6. *)
Definition ToUint32_spec (d : Z) : Z := if is_finite d then trunc d `mod` 2 ^ 32 else 0.
Definition ToInt32_spec (d : Z) : Z :=
  let int32bit := ToUint32_spec d in
  if 2 ^ 31 <=? int32bit then int32bit - 2 ^ 32 else int32bit.

(** ** Lemmas *)

Lemma dexp_range d : 0 <= dexp d < 2 ^ 11.
Proof. apply Z.mod_pos_bound. lia. Qed.

Lemma dfrac_range d : 0 <= dfrac d < 2 ^ 52.
Proof. apply Z.mod_pos_bound. lia. Qed.

(** The fields make up the bits. *)
Lemma double_fields d :
  0 <= d < 2 ^ 64 -> d = b2z (dsign d) * 2 ^ 63 + dexp d * 2 ^ 52 + dfrac d.
Proof.
  intros. unfold dsign, dexp, dfrac, b2z. destruct (2 ^ 63 <=? d) eqn:?; zbool;
    Z.to_euclidean_division_equations; lia.
Qed.

(** Signed wrap-around: congruent numbers wrap to the same, and the result is
    congruent to the argument. *)
Lemma s32_mod x y : x `mod` 2 ^ 32 = y `mod` 2 ^ 32 -> s32 x = s32 y.
Proof. unfold s32, swrap. by intros ->. Qed.

Lemma s32_congr x : exists k, s32 x = x + k * 2 ^ 32.
Proof.
  unfold s32, swrap. exists (- (x / 2 ^ 32) - b2z (negb (x `mod` 2 ^ 32 <? 2 ^ (32 - 1)))).
  pose proof (Z.div_mod x (2 ^ 32)). case_match; simpl b2z; lia.
Qed.

Lemma s64_congr x : exists k, s64 x = x + k * 2 ^ 64.
Proof.
  unfold s64, swrap. exists (- (x / 2 ^ 64) - b2z (negb (x `mod` 2 ^ 64 <? 2 ^ (64 - 1)))).
  pose proof (Z.div_mod x (2 ^ 64)). case_match; simpl b2z; lia.
Qed.

Lemma s32_add_mul x k : s32 (x + k * 2 ^ 32) = s32 x.
Proof. apply s32_mod. by rewrite Z.mod_add. Qed.

Lemma ToInt32_trunc d : is_finite d = true -> ToInt32_spec d = s32 (trunc d).
Proof.
  unfold ToInt32_spec, ToUint32_spec, s32, swrap. intros ->.
  change (32 - 1) with 31. do 2 case_match; zlia.
Qed.

(** The sign-extended bits: fraction below, exponent and sign above. *)
Definition dhigh (d : Z) : Z := dexp d - b2z (dsign d) * 2 ^ 11.

Lemma s64_bits d : 0 <= d < 2 ^ 64 -> s64 d = dhigh d * 2 ^ 52 + dfrac d.
Proof.
  intros Hd. pose proof (double_fields d Hd). pose proof (dfrac_range d).
  unfold s64, swrap, dhigh, dsign in *. change (64 - 1) with 63. rewrite Z.mod_small by lia.
  destruct (2 ^ 63 <=? d) eqn:?, (d <? 2 ^ 63) eqn:?; simpl b2z in *; zlia.
Qed.

Lemma s64_neg d : 0 <= d < 2 ^ 64 -> (s64 d <? 0) = dsign d.
Proof.
  intros. unfold s64, swrap, dsign. change (64 - 1) with 63. rewrite Z.mod_small by lia.
  destruct (2 ^ 63 <=? d) eqn:?, (d <? 2 ^ 63) eqn:?; zbool; apply Bool.eq_true_iff_eq;
    rewrite Z.ltb_lt; split; intros; done || lia.
Qed.

Lemma s32_small x : in_int32 x -> s32 x = x.
Proof.
  unfold in_int32, s32, swrap. intros. change (32 - 1) with 31.
  case_match; zbool; Z.to_euclidean_division_equations; lia.
Qed.

Lemma s32_in x : in_int32 (s32 x).
Proof.
  unfold in_int32, s32, swrap. change (32 - 1) with 31.
  pose proof (Z.mod_pos_bound x (2 ^ 32)). case_match; zlia.
Qed.

(** The exponent as [toInt32] computes it. *)
Lemma toInt32_exp d : 0 <= d < 2 ^ 64 -> Z.land (s32 (Z.shiftr (s64 d) 52)) 0x7ff = dexp d.
Proof.
  intros Hd. rewrite (s64_bits d Hd), Z.shiftr_div_pow2 by lia.
  pose proof (dfrac_range d). pose proof (dexp_range d).
  rewrite Z.div_add_l, (Z.div_small (dfrac d)), Z.add_0_r by lia.
  rewrite s32_small by (unfold in_int32, dhigh, b2z; case_match; lia).
  change 0x7ff with (Z.ones 11). rewrite Z.land_ones by lia. unfold dhigh.
  rewrite <- (Z.add_opp_r (dexp d)), <- Z.mul_opp_l, Z.mod_add by lia. apply Z.mod_small. lia.
Qed.

(** A number whose low part is [g] below [2 ^ x], with any multiple of [2 ^ x]
    above, and the bit put back in. *)
Lemma missing_one_mask : forallb (fun n : nat =>
    let x := Z.of_nat n in s32 (s32 (Z.shiftl 1 x) - 1) =? Z.ones x) (seq 0 32) = true.
Proof. vm_compute. reflexivity. Qed.

Lemma missing_one h g x :
  0 <= x < 32 -> 0 <= g < 2 ^ x ->
  s32 (Z.land (s32 (h * 2 ^ x + g)) (s32 (s32 (Z.shiftl 1 x) - 1)) + s32 (Z.shiftl 1 x)) =
  s32 (2 ^ x + g).
Proof.
  intros Hx Hg. pose proof missing_one_mask as Hm. rewrite forallb_forall in Hm.
  specialize (Hm (Z.to_nat x)). rewrite in_seq in Hm. specialize (Hm ltac:(lia)). simpl in Hm.
  rewrite Z2Nat.id in Hm by lia. zbool. rewrite Hm, Z.land_ones by lia.
  destruct (s32_congr (h * 2 ^ x + g)) as [k ->]. destruct (s32_congr (Z.shiftl 1 x)) as [k' ->].
  replace (2 ^ 32) with (2 ^ (32 - x) * 2 ^ x) at 1 by (rewrite <- Z.pow_add_r by lia; f_equal; lia).
  rewrite Z.shiftl_mul_pow2, Z.add_assoc, s32_add_mul by lia.
  replace (h * 2 ^ x + g + k * (2 ^ (32 - x) * 2 ^ x)) with (g + (h + k * 2 ^ (32 - x)) * 2 ^ x) by ring.
  rewrite Z.mod_add, Z.mod_small by lia. f_equal. lia.
Qed.

(** Congruence modulo [2 ^ 32] of numbers that differ by a multiple of
    [2 ^ x], [x] at least 32. *)
Lemma s32_high h g x : 32 <= x -> s32 (h * 2 ^ x + g) = s32 (2 ^ x + g).
Proof.
  intros. replace (h * 2 ^ x + g) with (2 ^ x + g + ((h - 1) * 2 ^ (x - 32)) * 2 ^ 32);
    [apply s32_add_mul |].
  replace (2 ^ x) with (2 ^ (x - 32) * 2 ^ 32) by (rewrite <- Z.pow_add_r by lia; f_equal; lia). ring.
Qed.

Lemma s32_opp x : s32 (- s32 x) = s32 (- x).
Proof.
  destruct (s32_congr x) as [k ->]. rewrite <- (s32_add_mul (- x) (- k)). f_equal. ring.
Qed.

(** The integer part when [0 <= exponent], with the bit put in. *)
Lemma abs_trunc_low d x :
  dexp d = x + 1023 -> 0 <= x <= 52 -> abs_trunc d = 2 ^ x + dfrac d / 2 ^ (52 - x).
Proof.
  intros He Hx. unfold abs_trunc, dscale, dsig. rewrite He, Z.max_r by lia.
  rewrite (proj2 (Z.eqb_neq (x + 1023) 0)) by lia.
  replace (2 ^ 52) with (2 ^ x * 2 ^ (52 - x)) by (rewrite <- Z.pow_add_r by lia; f_equal; lia).
  case_match; zbool.
  - assert (x = 52) as -> by lia. simpl. rewrite Z.div_1_r. lia.
  - replace (- (x + 1023 - 1075)) with (52 - x) by lia. rewrite Z.div_add_l by lia. lia.
Qed.

Lemma abs_trunc_high d x :
  dexp d = x + 1023 -> 52 < x -> abs_trunc d = 2 ^ x + dfrac d * 2 ^ (x - 52).
Proof.
  intros He Hx. unfold abs_trunc, dscale, dsig. rewrite He, Z.max_r by lia.
  rewrite (proj2 (Z.eqb_neq (x + 1023) 0)), (proj2 (Z.leb_le 0 _)) by lia.
  replace (x + 1023 - 1075) with (x - 52) by lia.
  rewrite Z.mul_add_distr_r, <- Z.pow_add_r by lia. do 2 f_equal. lia.
Qed.

(** Numbers that [toInt32] answers at once. *)
Lemma abs_trunc_small d : dexp d < 1023 -> abs_trunc d = 0.
Proof.
  intros He. pose proof (dexp_range d). pose proof (dfrac_range d). unfold abs_trunc, dscale.
  rewrite (proj2 (Z.leb_gt _ _)) by lia. apply Z.div_small.
  assert (0 <= dsig d < 2 ^ 53) as Hs by (unfold dsig; case_match; lia).
  split; [lia |]. eapply Z.lt_le_trans; [apply Hs |]. apply Z.pow_le_mono_r; lia.
Qed.

Lemma s32_abs_huge d x : dexp d = x + 1023 -> 83 < x -> s32 (abs_trunc d) = s32 0.
Proof.
  intros He Hx. rewrite (abs_trunc_high d x) by lia. apply s32_mod.
  replace (2 ^ x + dfrac d * 2 ^ (x - 52))
    with (0 + ((2 ^ 52 + dfrac d) * 2 ^ (x - 52 - 32)) * 2 ^ 32); [by rewrite Z.mod_add |].
  rewrite <- Z.mul_assoc, <- (Z.pow_add_r 2 (x - 52 - 32)) by lia.
  replace (x - 52 - 32 + 32) with (x - 52) by lia.
  rewrite Z.mul_add_distr_r, <- Z.pow_add_r by lia. replace (52 + (x - 52)) with x by lia. lia.
Qed.

Lemma s32_trunc d y : s32 (abs_trunc d) = s32 y -> s32 (trunc d) = if dsign d then s32 (- s32 y) else s32 y.
Proof.
  unfold trunc. intros Hs. case_match; [| done]. by rewrite <- Hs, s32_opp.
Qed.

(** The 32 bits selected, for exponents from 0 to 83. *)
Lemma toInt32_select d x :
  0 <= d < 2 ^ 64 -> dexp d = x + 1023 -> 0 <= x <= 83 ->
  (let result :=
     if 52 <? x then s32 (s64 (Z.shiftl (s64 d) (x - 52))) else s32 (Z.shiftr (s64 d) (52 - x)) in
   if x <? 32 then
     s32 (Z.land result (s32 (s32 (Z.shiftl 1 x) - 1)) + s32 (Z.shiftl 1 x))
   else result) = s32 (abs_trunc d).
Proof.
  intros Hd He Hx. simpl. pose proof (dfrac_range d). rewrite (s64_bits d Hd).
  destruct (52 <? x) eqn:H52; zbool.
  - rewrite (proj2 (Z.ltb_ge x 32)) by lia. rewrite (abs_trunc_high d x) by lia.
    rewrite Z.shiftl_mul_pow2, Z.mul_add_distr_r, <- Z.mul_assoc, <- Z.pow_add_r by lia.
    replace (52 + (x - 52)) with x by lia.
    destruct (s64_congr (dhigh d * 2 ^ x + dfrac d * 2 ^ (x - 52))) as [k ->].
    replace (k * 2 ^ 64) with ((k * 2 ^ 32) * 2 ^ 32) by ring. rewrite s32_add_mul. apply s32_high. lia.
  - rewrite (abs_trunc_low d x), Z.shiftr_div_pow2 by lia.
    replace (dhigh d * 2 ^ 52) with (dhigh d * 2 ^ x * 2 ^ (52 - x))
      by (rewrite <- Z.mul_assoc, <- Z.pow_add_r by lia; do 2 f_equal; lia).
    rewrite Z.div_add_l by lia.
    assert (0 <= dfrac d / 2 ^ (52 - x) < 2 ^ x) as Hg.
    { split; [apply Z.div_pos; lia |]. apply Z.div_lt_upper_bound; [lia |].
      rewrite <- Z.pow_add_r by lia. replace (52 - x + x) with 52; lia. }
    case_match; zbool; [apply missing_one; [lia | done] | apply s32_high; lia].
Qed.

Lemma toInt32_eq d : 0 <= d < 2 ^ 64 -> toInt32 d = ToInt32_spec d.
Proof.
  intros Hd. pose proof (dexp_range d). unfold toInt32. rewrite toInt32_exp by done.
  set (x := dexp d - 0x3ff). assert (dexp d = x + 1023) as He by lia.
  destruct (is_finite d) eqn:Hf.
  - rewrite ToInt32_trunc by done. destruct ((x <? 0) || (83 <? x)) eqn:Hx.
    + rewrite (s32_trunc d 0); [by case_match |]. apply orb_true_iff in Hx as [Hx | Hx]; zbool.
      * by rewrite abs_trunc_small by lia.
      * by apply (s32_abs_huge d x).
    + zbool. rewrite (s32_trunc d (abs_trunc d)) by done.
      pose proof (toInt32_select d x Hd He ltac:(lia)) as Hs. cbv zeta in Hs |- *. rewrite Hs.
      by rewrite s64_neg.
  - unfold is_finite in Hf. zbool. rewrite (proj2 (Z.ltb_lt 83 x)), orb_true_r by lia.
    unfold ToInt32_spec, ToUint32_spec, is_finite. by rewrite Hf.
Qed.

(** ** Integers as doubles *)

Lemma log2_bounds n : 0 < n -> 0 <= Z.log2 n /\ 2 ^ Z.log2 n <= n < 2 * 2 ^ Z.log2 n.
Proof.
  intros Hn. pose proof (Z.log2_spec n Hn). pose proof (Z.log2_nonneg n).
  rewrite <- Z.pow_succ_r by done. lia.
Qed.

Lemma round_sig_range n : 0 < n -> 2 ^ 52 <= round_sig n (Z.log2 n) <= 2 ^ 53.
Proof.
  intros Hn. destruct (log2_bounds n Hn) as (Hk & Hlo & Hhi). unfold round_sig. set (k := Z.log2 n) in *.
  case_match; zbool.
  - assert (2 ^ k * 2 ^ (52 - k) = 2 ^ 52) as Hp by (rewrite <- Z.pow_add_r by lia; f_equal; lia).
    assert (0 < 2 ^ (52 - k)) by lia. nia.
  - cbv zeta. set (s := k - 52).
    assert (2 ^ k = 2 ^ 52 * 2 ^ s) as Hp by (rewrite <- Z.pow_add_r by lia; f_equal; lia).
    assert (0 < 2 ^ s) by lia.
    assert (2 ^ 52 <= n / 2 ^ s < 2 ^ 53) as Hq.
    { split; [apply Z.div_le_lower_bound; lia | apply Z.div_lt_upper_bound; lia]. }
    case_match; lia.
Qed.

Lemma pos_bits_range n :
  0 < n -> (Z.log2 n + 1023) * 2 ^ 52 <= pos_bits n <= (Z.log2 n + 1024) * 2 ^ 52.
Proof. intros Hn. pose proof (round_sig_range n Hn). unfold pos_bits. cbv zeta. lia. Qed.

Lemma log2_below n w : 0 < n < 2 ^ w -> 0 <= Z.log2 n < w.
Proof. intros. split; [apply Z.log2_nonneg | apply Z.log2_lt_pow2; lia]. Qed.

(** The fields of the bits below the sign. *)
Lemma dexp_pos b s : 0 <= b < 2 ^ 63 -> dexp (s * 2 ^ 63 + b) = b / 2 ^ 52.
Proof.
  intros. unfold dexp. replace (s * 2 ^ 63 + b) with (b + s * 2 ^ 11 * 2 ^ 52) by lia.
  rewrite Z.div_add, Z.mod_add by lia. apply Z.mod_small. split; [apply Z.div_pos; lia |].
  apply Z.div_lt_upper_bound; lia.
Qed.

Lemma dfrac_pos b s : dfrac (s * 2 ^ 63 + b) = b `mod` 2 ^ 52.
Proof. unfold dfrac. replace (s * 2 ^ 63 + b) with (b + s * 2 ^ 11 * 2 ^ 52) by lia. by rewrite Z.mod_add. Qed.

Lemma abs_trunc_pos b s : 0 <= b < 2 ^ 63 -> abs_trunc (s * 2 ^ 63 + b) = abs_trunc b.
Proof.
  intros Hb. pose proof (dexp_pos b 0 Hb) as He. pose proof (dfrac_pos b 0) as Hf.
  rewrite Z.mul_0_l, Z.add_0_l in He, Hf.
  unfold abs_trunc, dscale, dsig. by rewrite He, Hf, dexp_pos, dfrac_pos.
Qed.

(** Integers of at most 53 bits are exact. *)
Lemma pos_bits_exact n : 0 < n < 2 ^ 53 -> abs_trunc (pos_bits n) = n.
Proof.
  intros Hn. destruct (log2_bounds n ltac:(lia)) as (Hk & Hlo & Hhi).
  pose proof (log2_below n 53 Hn). set (k := Z.log2 n) in *.
  assert (pos_bits n = (k + 1023) * 2 ^ 52 + (n - 2 ^ k) * 2 ^ (52 - k)) as Hp.
  { unfold pos_bits, round_sig. fold k. cbv zeta. rewrite (proj2 (Z.leb_le k 52)) by lia.
    rewrite Z.mul_sub_distr_r, <- (Z.pow_add_r 2 k) by lia. replace (k + (52 - k)) with 52 by lia. lia. }
  assert (0 <= (n - 2 ^ k) * 2 ^ (52 - k) < 2 ^ 52) as Hf.
  { split; [apply Z.mul_nonneg_nonneg; lia |]. replace (2 ^ 52) with (2 ^ k * 2 ^ (52 - k)); [| rewrite <- Z.pow_add_r by lia; f_equal; lia].
    apply Z.mul_lt_mono_pos_r; lia. }
  assert (dexp (pos_bits n) = k + 1023 /\ dfrac (pos_bits n) = (n - 2 ^ k) * 2 ^ (52 - k)) as [He Hfr].
  { rewrite Hp. unfold dexp, dfrac. rewrite Z.div_add_l, (Z.div_small _ (2 ^ 52)) by lia.
    rewrite Z.add_0_r, (Z.add_comm (_ * 2 ^ 52)), Z.mod_add, !Z.mod_small by lia. done. }
  rewrite (abs_trunc_low _ k), Hfr, Z.div_mul by lia. lia.
Qed.

(** Larger ones stay larger. *)
Lemma pos_bits_large n : 2 ^ 53 <= n < 2 ^ 64 -> 2 ^ 53 <= abs_trunc (pos_bits n).
Proof.
  intros Hn. pose proof (pos_bits_range n ltac:(lia)) as Hr.
  assert (53 <= Z.log2 n < 64) as Hk.
  { split; [apply Z.log2_le_pow2; lia | apply Z.log2_lt_pow2; lia]. }
  pose proof (dexp_pos (pos_bits n) 0 ltac:(lia)) as He.
  rewrite Z.mul_0_l, Z.add_0_l in He.
  set (e := pos_bits n / 2 ^ 52) in *.
  assert (53 + 1023 <= e) by (apply Z.div_le_lower_bound; lia).
  rewrite (abs_trunc_high _ (e - 1023)) by lia.
  assert (2 ^ 53 <= 2 ^ (e - 1023)) by (apply Z.pow_le_mono_r; lia).
  pose proof (dfrac_range (pos_bits n)). assert (0 < 2 ^ (e - 1023 - 52)) by lia. nia.
Qed.

Lemma of_int_cases i :
  Z.abs i < 2 ^ 64 -> i <> 0 ->
  of_int i = b2z (i <? 0) * 2 ^ 63 + pos_bits (Z.abs i) /\
  2 ^ 52 <= pos_bits (Z.abs i) < 2047 * 2 ^ 52.
Proof.
  intros Hi Hz. pose proof (pos_bits_range (Z.abs i) ltac:(lia)).
  pose proof (log2_below (Z.abs i) 64 ltac:(lia)). split; [| lia].
  unfold of_int. rewrite (proj2 (Z.eqb_neq i 0)) by done.
  destruct (i <? 0) eqn:?; zbool; simpl b2z; f_equal; rewrite ?Z.abs_neq, ?Z.abs_eq by lia; done.
Qed.

Lemma of_int_range i : Z.abs i < 2 ^ 64 -> 0 <= of_int i < 2 ^ 64.
Proof.
  intros Hi. destruct (decide (i = 0)) as [-> | Hz]; [done |].
  destruct (of_int_cases i Hi Hz) as [-> Hb]. unfold b2z. case_match; lia.
Qed.

Lemma of_int_finite i : Z.abs i < 2 ^ 64 -> is_finite (of_int i) = true.
Proof.
  intros Hi. destruct (decide (i = 0)) as [-> | Hz]; [done |].
  destruct (of_int_cases i Hi Hz) as [-> Hb]. unfold is_finite. rewrite dexp_pos by lia.
  apply negb_true_iff, Z.eqb_neq. assert (pos_bits (Z.abs i) / 2 ^ 52 < 2047); [| lia].
  apply Z.div_lt_upper_bound; lia.
Qed.

Lemma of_int_sign i : Z.abs i < 2 ^ 64 -> dsign (of_int i) = (i <? 0).
Proof.
  intros Hi. destruct (decide (i = 0)) as [-> | Hz]; [done |].
  destruct (of_int_cases i Hi Hz) as [-> Hb]. unfold dsign, b2z.
  destruct (i <? 0); [apply Z.leb_le | apply Z.leb_gt]; lia.
Qed.

Lemma of_int_zero i : Z.abs i < 2 ^ 64 -> is_zero (of_int i) = (i =? 0).
Proof.
  intros Hi. destruct (decide (i = 0)) as [-> | Hz]; [done |].
  destruct (of_int_cases i Hi Hz) as [-> Hb]. rewrite (proj2 (Z.eqb_neq i 0)) by done.
  unfold is_zero. rewrite Z.add_comm, Z.mod_add, Z.mod_small by lia. apply Z.eqb_neq. lia.
Qed.

Lemma trunc_of_int_abs i : Z.abs i < 2 ^ 64 -> i <> 0 ->
  trunc (of_int i) = if i <? 0 then - abs_trunc (pos_bits (Z.abs i)) else abs_trunc (pos_bits (Z.abs i)).
Proof.
  intros Hi Hz. unfold trunc. rewrite of_int_sign by done.
  destruct (of_int_cases i Hi Hz) as [-> Hb]. by rewrite abs_trunc_pos by lia.
Qed.

Lemma trunc_of_int i : Z.abs i < 2 ^ 53 -> trunc (of_int i) = i.
Proof.
  intros Hi. destruct (decide (i = 0)) as [-> | Hz]; [done |].
  rewrite trunc_of_int_abs, pos_bits_exact by lia. case_match; zlia.
Qed.

(** A number that converts to a double in the range of [int32_t] was in it. *)
Lemma of_int_int32 i : Z.abs i < 2 ^ 64 -> in_int32 (trunc (of_int i)) -> in_int32 i.
Proof.
  intros Hi. destruct (decide (Z.abs i < 2 ^ 53)); [by rewrite trunc_of_int |].
  rewrite trunc_of_int_abs by lia. pose proof (pos_bits_large (Z.abs i) ltac:(lia)).
  unfold in_int32. case_match; lia.
Qed.

Lemma of_int_inj i j : Z.abs i < 2 ^ 53 -> Z.abs j < 2 ^ 53 -> of_int i = of_int j -> i = j.
Proof. intros Hi Hj He. by rewrite <- (trunc_of_int i), He, trunc_of_int. Qed.

Lemma finite_not_nan d : is_finite d = true -> is_nan d = false.
Proof. unfold is_finite, is_nan. by intros ->%negb_true_iff. Qed.

(** Doubles equal to an integer are its conversion, negative zero apart. *)
Lemma eqb_of_int i d :
  Z.abs i < 2 ^ 64 -> 0 <= d < 2 ^ 64 ->
  d_eqb (of_int i) d && negb ((i =? 0) && dsign d) = bool_decide (d = of_int i).
Proof.
  intros Hi Hd. pose proof (finite_not_nan _ (of_int_finite i Hi)) as Hn.
  unfold d_eqb. rewrite Hn, of_int_zero by done. symmetry. destruct (decide (d = of_int i)) as [-> | Hne].
  - rewrite bool_decide_true, Z.eqb_refl, Hn, of_int_sign by done.
    simpl. apply eq_sym, negb_true_iff, andb_false_iff. destruct (i =? 0) eqn:?; [right | by left].
    apply Z.ltb_ge. zlia.
  - rewrite bool_decide_false, (proj2 (Z.eqb_neq (of_int i) d)) by done. simpl.
    destruct (i =? 0) eqn:?, (is_zero d) eqn:Hz; zbool; simpl; rewrite ?andb_false_r; try done.
    subst i. unfold is_zero, dsign in *. change (of_int 0) with 0 in Hne. zbool.
    rewrite (proj2 (Z.leb_le _ d)); [by rewrite andb_false_r |].
    Z.to_euclidean_division_equations. lia.
Qed.
