(* ===== verification/JSValue.v ===== *)
(** * The representation of JavaScript values

    JavaScriptCore/runtime/JSCJSValue.h and JSCJSValueInlines.h: a value is 64
    bits, with two layouts chosen by the build.  [V64] is USE(JSVALUE64), where
    doubles are shifted by [2 ^ 48] so that pointers stand for themselves;
    [V32] is USE(JSVALUE32_64), a tag word over a payload word.  What the rest
    of the engine uses of a layout is the class [JSEncoding]; what it promises
    is [JSEncodingOk], proved of both. *)

From stdpp Require Import base numbers list.
From S2P Require Import Prelude Double.

#[local] Open Scope Z_scope.

(** [ASSERT(b)] before a result. *)
Definition asserted {A} (b : bool) (a : A) : option A := if b then Some a else None.

(** ** USE(JSVALUE64) *)

Module V64.

Definition DoubleEncodeOffset : Z := 0x1000000000000.
Definition TagTypeNumber : Z := 0xffff000000000000.
Definition TagBitTypeOther : Z := 0x2.
Definition TagBitBool : Z := 0x4.
Definition TagBitUndefined : Z := 0x8.
Definition ValueFalse : Z := Z.lor (Z.lor TagBitTypeOther TagBitBool) 0.
Definition ValueTrue : Z := Z.lor (Z.lor TagBitTypeOther TagBitBool) 1.
Definition ValueUndefined : Z := Z.lor TagBitTypeOther TagBitUndefined.
Definition ValueNull : Z := TagBitTypeOther.
Definition TagMask : Z := Z.lor TagTypeNumber TagBitTypeOther.
Definition ValueEmpty : Z := 0x0.
Definition ValueDeleted : Z := 0x4.

Definition of_empty : Z := ValueEmpty.
Definition of_deleted : Z := ValueDeleted.
Definition of_cell (ptr : Z) : Z := ptr.
Definition of_null : Z := ValueNull.
Definition of_undefined : Z := ValueUndefined.
Definition of_true : Z := ValueTrue.
Definition of_false : Z := ValueFalse.
Definition of_double (d : Z) : Z := u64 (d + DoubleEncodeOffset).
Definition of_int32 (i : Z) : Z := Z.lor TagTypeNumber (u32 i).

Definition isEmpty (u : Z) : bool := u =? ValueEmpty.
Definition isUndefined (u : Z) : bool := u =? of_undefined.
Definition isNull (u : Z) : bool := u =? of_null.
Definition isTrue (u : Z) : bool := u =? of_true.
Definition isFalse (u : Z) : bool := u =? of_false.
Definition isUndefinedOrNull (u : Z) : bool := Z.land u (Z.lnot TagBitUndefined) =? ValueNull.
Definition isBoolean (u : Z) : bool := Z.land u (Z.lnot 1) =? ValueFalse.
Definition isCell (u : Z) : bool := negb (truthy (Z.land u TagMask)).
Definition isInt32 (u : Z) : bool := Z.land u TagTypeNumber =? TagTypeNumber.
Definition isNumber (u : Z) : bool := truthy (Z.land u TagTypeNumber).
Definition isDouble (u : Z) : bool := isNumber u && negb (isInt32 u).

Definition asBoolean (u : Z) : option bool := asserted (isBoolean u) (u =? of_true).
Definition asInt32 (u : Z) : option Z := asserted (isInt32 u) (s32 u).
Definition asDouble (u : Z) : option Z := asserted (isDouble u) (u64 (u - DoubleEncodeOffset)).
Definition asCell (u : Z) : option Z := asserted (isCell u) u.

End V64.

(** ** USE(JSVALUE32_64) *)

Module V32.

Definition Int32Tag : Z := 0xffffffff.
Definition BooleanTag : Z := 0xfffffffe.
Definition NullTag : Z := 0xfffffffd.
Definition UndefinedTag : Z := 0xfffffffc.
Definition CellTag : Z := 0xfffffffb.
Definition EmptyValueTag : Z := 0xfffffffa.
Definition DeletedValueTag : Z := 0xfffffff9.
Definition LowestTag : Z := DeletedValueTag.

(** The two words of [u.asBits], payload first in memory. *)
Definition asBits (tag payload : Z) : Z := u32 payload + 2 ^ 32 * u32 tag.
Definition tag (u : Z) : Z := u32 (Z.shiftr u 32).
Definition payload (u : Z) : Z := s32 u.

Definition of_empty : Z := asBits EmptyValueTag 0.
Definition of_null : Z := asBits NullTag 0.
Definition of_undefined : Z := asBits UndefinedTag 0.
Definition of_true : Z := asBits BooleanTag 1.
Definition of_false : Z := asBits BooleanTag 0.
Definition of_deleted : Z := asBits DeletedValueTag 0.
Definition of_cell (ptr : Z) : Z := asBits (if truthy ptr then CellTag else EmptyValueTag) (s32 ptr).
Definition of_double (d : Z) : Z := d.
Definition of_int32 (i : Z) : Z := asBits Int32Tag i.

Definition isEmpty (u : Z) : bool := tag u =? EmptyValueTag.
Definition isUndefined (u : Z) : bool := tag u =? UndefinedTag.
Definition isNull (u : Z) : bool := tag u =? NullTag.
Definition isUndefinedOrNull (u : Z) : bool := isUndefined u || isNull u.
Definition isCell (u : Z) : bool := tag u =? CellTag.
Definition isInt32 (u : Z) : bool := tag u =? Int32Tag.
Definition isDouble (u : Z) : bool := tag u <? LowestTag.
Definition isTrue (u : Z) : bool := (tag u =? BooleanTag) && truthy (payload u).
Definition isFalse (u : Z) : bool := (tag u =? BooleanTag) && negb (truthy (payload u)).
Definition isNumber (u : Z) : bool := isInt32 u || isDouble u.
Definition isBoolean (u : Z) : bool := isTrue u || isFalse u.

Definition asInt32 (u : Z) : option Z := asserted (isInt32 u) (payload u).
Definition asDouble (u : Z) : option Z := asserted (isDouble u) u.
Definition asCell (u : Z) : option Z := asserted (isCell u) (u32 (payload u)).
Definition asBoolean (u : Z) : option bool := asserted (isBoolean u) (truthy (payload u)).

End V32.

(** ** The interface *)

Class JSEncoding := mk_encoding {
  of_empty : Z; of_deleted : Z; of_undefined : Z; of_null : Z; of_true : Z; of_false : Z;
  of_cell : Z -> Z; of_double : Z -> Z; of_int32 : Z -> Z;
  isEmpty : Z -> bool; isUndefined : Z -> bool; isNull : Z -> bool; isUndefinedOrNull : Z -> bool;
  isTrue : Z -> bool; isFalse : Z -> bool; isBoolean : Z -> bool; isCell : Z -> bool;
  isInt32 : Z -> bool; isDouble : Z -> bool; isNumber : Z -> bool;
  asBoolean : Z -> option bool; asInt32 : Z -> option Z; asDouble : Z -> option Z;
  asCell : Z -> option Z;
  address_limit : Z
}.

Definition enc64 : JSEncoding := {|
  of_empty := V64.of_empty; of_deleted := V64.of_deleted; of_undefined := V64.of_undefined;
  of_null := V64.of_null; of_true := V64.of_true; of_false := V64.of_false;
  of_cell := V64.of_cell; of_double := V64.of_double; of_int32 := V64.of_int32;
  isEmpty := V64.isEmpty; isUndefined := V64.isUndefined; isNull := V64.isNull;
  isUndefinedOrNull := V64.isUndefinedOrNull; isTrue := V64.isTrue; isFalse := V64.isFalse;
  isBoolean := V64.isBoolean; isCell := V64.isCell; isInt32 := V64.isInt32;
  isDouble := V64.isDouble; isNumber := V64.isNumber; asBoolean := V64.asBoolean;
  asInt32 := V64.asInt32; asDouble := V64.asDouble; asCell := V64.asCell;
  address_limit := 2 ^ 48 |}.

Definition enc32 : JSEncoding := {|
  of_empty := V32.of_empty; of_deleted := V32.of_deleted; of_undefined := V32.of_undefined;
  of_null := V32.of_null; of_true := V32.of_true; of_false := V32.of_false;
  of_cell := V32.of_cell; of_double := V32.of_double; of_int32 := V32.of_int32;
  isEmpty := V32.isEmpty; isUndefined := V32.isUndefined; isNull := V32.isNull;
  isUndefinedOrNull := V32.isUndefinedOrNull; isTrue := V32.isTrue; isFalse := V32.isFalse;
  isBoolean := V32.isBoolean; isCell := V32.isCell; isInt32 := V32.isInt32;
  isDouble := V32.isDouble; isNumber := V32.isNumber; asBoolean := V32.asBoolean;
  asInt32 := V32.asInt32; asDouble := V32.asDouble; asCell := V32.asCell;
  address_limit := 2 ^ 32 |}.

(** The two builds. *)
Definition encoding (jsvalue64 : bool) : JSEncoding := if jsvalue64 then enc64 else enc32.

(** ** Values

    What a value is, apart from its layout.  Doubles that are NaN are the two
    that hardware and C library make, with an empty payload; a cell is at a
    nonzero multiple of the heap's atom size. *)

Inductive value :=
  | VUndefined
  | VNull
  | VBoolean (b : bool)
  | VInt32 (i : Z)
  | VDouble (d : Z)
  | VCell (p : Z).

#[global] Instance value_eq_dec : EqDecision value.
Proof. solve_decision. Defined.

Definition atomSize : Z := 8.

Definition pure_double (d : Z) : bool :=
  (0 <=? d) && (d <? 2 ^ 64) && (negb (is_nan d) || (dfrac d =? 2 ^ 51)).

Section values.
Context {E : JSEncoding}.

Definition value_ok (v : value) : Prop :=
  match v with
  | VInt32 i => in_int32 i
  | VDouble d => pure_double d = true
  | VCell p => 0 < p < address_limit /\ p `mod` atomSize = 0
  | _ => True
  end.

(** The constructors of [JSValue]. *)
Definition construct (v : value) : Z :=
  match v with
  | VUndefined => of_undefined
  | VNull => of_null
  | VBoolean b => if b then of_true else of_false
  | VInt32 i => of_int32 i
  | VDouble d => of_double d
  | VCell p => of_cell p
  end.
End values.

Definition v_isUndefined (v : value) : bool := match v with VUndefined => true | _ => false end.
Definition v_isNull (v : value) : bool := match v with VNull => true | _ => false end.
Definition v_isTrue (v : value) : bool := match v with VBoolean b => b | _ => false end.
Definition v_isFalse (v : value) : bool := match v with VBoolean b => negb b | _ => false end.
Definition v_isInt32 (v : value) : bool := match v with VInt32 _ => true | _ => false end.
Definition v_isDouble (v : value) : bool := match v with VDouble _ => true | _ => false end.
Definition v_isCell (v : value) : bool := match v with VCell _ => true | _ => false end.

Definition v_asBoolean (v : value) : option bool := match v with VBoolean b => Some b | _ => None end.
Definition v_asInt32 (v : value) : option Z := match v with VInt32 i => Some i | _ => None end.
Definition v_asDouble (v : value) : option Z := match v with VDouble d => Some d | _ => None end.
Definition v_asCell (v : value) : option Z := match v with VCell p => Some p | _ => None end.

(** What the tests and accessors find in the representation [u] of [v]. *)
Record represents {E : JSEncoding} (u : Z) (v : value) : Prop := mk_represents {
  rep_range : 0 <= u < 2 ^ 64;
  rep_isEmpty : isEmpty u = false;
  rep_isUndefined : isUndefined u = v_isUndefined v;
  rep_isNull : isNull u = v_isNull v;
  rep_isUndefinedOrNull : isUndefinedOrNull u = v_isUndefined v || v_isNull v;
  rep_isTrue : isTrue u = v_isTrue v;
  rep_isFalse : isFalse u = v_isFalse v;
  rep_isBoolean : isBoolean u = v_isTrue v || v_isFalse v;
  rep_isInt32 : isInt32 u = v_isInt32 v;
  rep_isDouble : isDouble u = v_isDouble v;
  rep_isNumber : isNumber u = v_isInt32 v || v_isDouble v;
  rep_isCell : isCell u = v_isCell v;
  rep_asBoolean : asBoolean u = v_asBoolean v;
  rep_asInt32 : asInt32 u = v_asInt32 v;
  rep_asDouble : asDouble u = v_asDouble v;
  rep_asCell : asCell u = v_asCell v
}.

Class JSEncodingOk (E : JSEncoding) : Prop := mk_encoding_ok {
  construct_represents v : value_ok v -> represents (construct v) v;
  empty_isEmpty : isEmpty of_empty = true;
  deleted_apart v : value_ok v -> construct v <> of_deleted
}.

(** ** Lemmas *)

Lemma pure_range d : pure_double d = true -> 0 <= d <= 0xfff8000000000000.
Proof.
  unfold pure_double. intros H. zbool. pose proof (double_fields d ltac:(lia)) as Hd.
  pose proof (dfrac_range d). pose proof (dexp_range d). unfold is_nan in *.
  apply orb_true_iff in H0 as [Hn | Hf]; zbool; [| unfold b2z in Hd; case_match; lia].
  apply andb_false_iff in Hn as [Hn | Hn]; zbool; unfold b2z in Hd; case_match; lia.
Qed.

(** The bits from 48 up, and the other masks, as arithmetic. *)
Lemma land_tag u : 0 <= u < 2 ^ 64 -> Z.land u V64.TagTypeNumber = u / 2 ^ 48 * 2 ^ 48.
Proof.
  intros Hu. change V64.TagTypeNumber with (Z.shiftl (Z.ones 16) 48).
  rewrite <- Z.shiftl_mul_pow2, <- Z.shiftr_div_pow2 by lia.
  apply Z.bits_inj'. intros n Hn. rewrite Z.land_spec, !Z.shiftl_spec by done.
  destruct (Z.ltb_spec n 48); [rewrite !(Z.testbit_neg_r _ (n - 48)) by lia; apply andb_false_r |].
  rewrite Z.shiftr_spec, Z.testbit_ones_nonneg by lia. replace (n - 48 + 48) with n by lia.
  destruct (Z.ltb_spec (n - 48) 16); [apply andb_true_r |].
  rewrite <- (Z.mod_small u (2 ^ 64)), Z.mod_pow2_bits_high by lia. done.
Qed.

(** A masked number that is small was small. *)
Lemma land_lnot_small u m c :
  0 <= u -> 0 <= m < 16 -> 0 <= c < 16 -> Z.land u (Z.lnot m) = c -> u < 16.
Proof.
  intros Hu Hm Hc He. apply (f_equal (fun x => Z.shiftr x 4)) in He.
  rewrite <- Z.ldiff_land, Z.shiftr_ldiff, !Z.shiftr_div_pow2 in He by lia.
  rewrite (Z.div_small m), (Z.div_small c), Z.ldiff_0_r in He by lia.
  Z.to_euclidean_division_equations. lia.
Qed.

(** The tests of [V64] on any 64 bits. *)
Module V64_tests.

Lemma isInt32_eq u : 0 <= u < 2 ^ 64 -> V64.isInt32 u = (V64.TagTypeNumber <=? u).
Proof.
  intros Hu. unfold V64.isInt32. rewrite land_tag by done. apply Bool.eq_true_iff_eq.
  rewrite Z.eqb_eq, Z.leb_le. unfold V64.TagTypeNumber. Z.to_euclidean_division_equations. lia.
Qed.

Lemma isNumber_eq u : 0 <= u < 2 ^ 64 -> V64.isNumber u = (V64.DoubleEncodeOffset <=? u).
Proof.
  intros Hu. unfold V64.isNumber, truthy. rewrite land_tag by done. apply Bool.eq_true_iff_eq.
  rewrite negb_true_iff, Z.eqb_neq, Z.leb_le. unfold V64.DoubleEncodeOffset.
  Z.to_euclidean_division_equations. lia.
Qed.

Lemma isCell_eq u :
  0 <= u < 2 ^ 64 -> V64.isCell u = (u <? V64.DoubleEncodeOffset) && (Z.land u 2 =? 0).
Proof.
  intros Hu. unfold V64.isCell, truthy, V64.TagMask. rewrite Z.land_lor_distr_r, land_tag by done.
  rewrite negb_involutive. apply Bool.eq_true_iff_eq.
  rewrite Z.eqb_eq, andb_true_iff, Z.lor_eq_0_iff, Z.ltb_lt, Z.eqb_eq.
  unfold V64.DoubleEncodeOffset, V64.TagBitTypeOther.
  split; intros [H1 H2]; (split; [| done]); Z.to_euclidean_division_equations; lia.
Qed.

Lemma small_cases (P : Z -> bool) u c m :
  0 <= u -> 0 <= m < 16 -> 0 <= c < 16 ->
  forallb (fun n : nat => eqb (Z.land (Z.of_nat n) (Z.lnot m) =? c) (P (Z.of_nat n))) (seq 0 16) = true ->
  (16 <= u -> P u = false) -> (Z.land u (Z.lnot m) =? c) = P u.
Proof.
  intros Hu Hm Hc Hall Hbig. destruct (decide (u < 16)) as [Hlt | Hge].
  - rewrite forallb_forall in Hall. specialize (Hall (Z.to_nat u)). rewrite in_seq in Hall.
    specialize (Hall ltac:(lia)). rewrite Z2Nat.id in Hall by done. by apply eqb_prop.
  - rewrite Hbig by lia. apply Z.eqb_neq. intros He. apply Hge. exact (land_lnot_small u m c Hu Hm Hc He).
Qed.

Lemma isUndefinedOrNull_eq u :
  0 <= u -> V64.isUndefinedOrNull u = (u =? V64.of_undefined) || (u =? V64.of_null).
Proof.
  intros Hu. apply (small_cases (fun u => (u =? V64.of_undefined) || (u =? V64.of_null))); try done.
  intros. apply orb_false_iff. split; apply Z.eqb_neq; intros ->; by vm_compute in H.
Qed.

Lemma isBoolean_eq u : 0 <= u -> V64.isBoolean u = (u =? V64.of_true) || (u =? V64.of_false).
Proof.
  intros Hu. apply (small_cases (fun u => (u =? V64.of_true) || (u =? V64.of_false))); try done.
  intros. apply orb_false_iff. split; apply Z.eqb_neq; intros ->; by vm_compute in H.
Qed.

End V64_tests.

(** Deciding comparisons of numbers. *)
Ltac zcases := repeat match goal with
  | |- context [?a =? ?b] => destruct (Z.eqb_spec a b); try lia
  | |- context [?a <=? ?b] => destruct (Z.leb_spec a b); try lia
  | |- context [?a <? ?b] => destruct (Z.ltb_spec a b); try lia
  end; try done.

(** The tests of [V64] as comparisons with numerals. *)
Ltac v64_tests :=
  simpl; unfold V64.asBoolean, V64.asInt32, V64.asDouble, V64.asCell, V64.isDouble, V64.isEmpty,
    V64.isUndefined, V64.isNull, V64.isTrue, V64.isFalse, asserted;
  rewrite ?V64_tests.isUndefinedOrNull_eq, ?V64_tests.isBoolean_eq, ?V64_tests.isCell_eq,
    ?V64_tests.isNumber_eq, ?V64_tests.isInt32_eq by lia;
  change V64.ValueEmpty with 0; change V64.of_undefined with 10; change V64.of_null with 2;
  change V64.of_true with 7; change V64.of_false with 6;
  unfold V64.DoubleEncodeOffset, V64.TagTypeNumber in *; zcases.

Lemma represents64_int i : in_int32 i -> represents (E := enc64) (V64.of_int32 i) (VInt32 i).
Proof.
  intros Hi. pose proof (u32_range i) as Hr.
  assert (V64.of_int32 i = 0xffff000000000000 + u32 i) as ->.
  { unfold V64.of_int32. rewrite Z.lor_comm. change V64.TagTypeNumber with (Z.shiftl 0xffff 48).
    rewrite lor_shiftl_add; lia. }
  assert (s32 (0xffff000000000000 + u32 i) = i) as Hs.
  { rewrite <- (s32_small i Hi) at 2. apply s32_mod.
    change 0xffff000000000000 with (0xffff0000 * 2 ^ 32). rewrite Z.add_comm, Z.mod_add by lia.
    unfold u32, uwrap. by rewrite Z.mod_mod. }
  constructor; v64_tests; [lia | by rewrite Hs].
Qed.

Lemma represents64_double d :
  pure_double d = true -> represents (E := enc64) (V64.of_double d) (VDouble d).
Proof.
  intros Hr%pure_range. unfold V64.of_double, V64.DoubleEncodeOffset. rewrite u64_id by lia.
  constructor; v64_tests; [lia | f_equal; rewrite u64_id; lia].
Qed.

Lemma cell_bit_1 p : p `mod` atomSize = 0 -> Z.land p 2 = 0.
Proof.
  unfold atomSize. intros Hp. rewrite (Z.div_mod p 8), Hp, Z.add_0_r, Z.mul_comm by lia.
  change 8 with (2 ^ 3). rewrite <- Z.shiftl_mul_pow2 by lia. apply Z.bits_inj'. intros n Hn.
  rewrite Z.land_spec, Z.bits_0. destruct (decide (n < 3)).
  - by rewrite Z.shiftl_spec_low.
  - rewrite (Z.bits_above_log2 2) by (simpl; lia). apply andb_false_r.
Qed.

Lemma represents64_cell p :
  0 < p < 2 ^ 48 -> p `mod` atomSize = 0 -> represents (E := enc64) (V64.of_cell p) (VCell p).
Proof.
  intros Hp Hm. pose proof (cell_bit_1 p Hm) as Hb. unfold V64.of_cell, atomSize in *.
  apply Z.div_exact in Hm; [| done]. constructor; v64_tests. lia.
Qed.

Lemma construct64 v : value_ok (E := enc64) v -> represents (E := enc64) (construct (E := enc64) v) v.
Proof.
  destruct v as [| | [] | i | d | p]; simpl; intros Hv.
  1, 2, 3, 4: by constructor.
  - by apply represents64_int.
  - by apply represents64_double.
  - by destruct Hv; apply represents64_cell.
Qed.

#[global] Instance enc64_ok : JSEncodingOk enc64.
Proof.
  constructor; [apply construct64 | done |].
  intros v Hv He. pose proof (construct64 v Hv) as Hr. rewrite He in Hr.
  destruct Hr as [? ? ? ? ? ? ? ? ? ? ? Hc ? ? ? Ha]. destruct v; try done.
  injection Ha as <-. destruct Hv as [? Hm]. by vm_compute in Hm.
Qed.

(** [V32]: the words of the bits. *)
Lemma tag_asBits t p : V32.tag (V32.asBits t p) = u32 t.
Proof.
  unfold V32.tag, V32.asBits. pose proof (u32_range p). rewrite Z.shiftr_div_pow2 by lia.
  rewrite Z.mul_comm, Z.div_add, Z.div_small, Z.add_0_l by lia. apply u32_id, u32_range.
Qed.

Lemma payload_asBits t p : V32.payload (V32.asBits t p) = s32 p.
Proof.
  unfold V32.payload, V32.asBits. rewrite Z.mul_comm, s32_add_mul. apply s32_mod.
  unfold u32, uwrap. by rewrite Z.mod_mod.
Qed.

Lemma asBits_range t p : 0 <= V32.asBits t p < 2 ^ 64.
Proof. unfold V32.asBits. pose proof (u32_range p). pose proof (u32_range t). lia. Qed.

Lemma tag_double d : pure_double d = true -> 0 <= V32.tag d < V32.LowestTag.
Proof.
  intros Hd%pure_range. unfold V32.tag. rewrite Z.shiftr_div_pow2 by lia.
  assert (0 <= d / 2 ^ 32 <= 0xfff80000); [| rewrite u32_id; unfold V32.LowestTag, V32.DeletedValueTag; lia].
  split; [apply Z.div_pos; lia | apply Z.div_le_upper_bound; lia].
Qed.

(** The tests of [V32] on a tag and a payload. *)
Ltac v32_tests :=
  simpl; unfold V32.asBoolean, V32.asInt32, V32.asDouble, V32.asCell, V32.isNumber, V32.isBoolean,
    V32.isUndefinedOrNull, V32.isEmpty, V32.isUndefined, V32.isNull, V32.isCell, V32.isInt32,
    V32.isDouble, V32.isTrue, V32.isFalse, asserted;
  rewrite ?tag_asBits, ?payload_asBits;
  unfold V32.LowestTag, V32.Int32Tag, V32.BooleanTag, V32.NullTag, V32.UndefinedTag, V32.CellTag,
    V32.EmptyValueTag, V32.DeletedValueTag in *.

Lemma represents32_int i : in_int32 i -> represents (E := enc32) (V32.of_int32 i) (VInt32 i).
Proof.
  intros Hi. unfold V32.of_int32. constructor; [apply asBits_range |..]; v32_tests; try done.
  by rewrite s32_small.
Qed.

Lemma represents32_double d :
  pure_double d = true -> represents (E := enc32) (V32.of_double d) (VDouble d).
Proof.
  intros Hd. pose proof (tag_double d Hd). pose proof (pure_range d Hd). unfold V32.of_double.
  constructor; [lia |..]; v32_tests; zcases.
Qed.

Lemma represents32_cell p :
  0 < p < 2 ^ 32 -> represents (E := enc32) (V32.of_cell p) (VCell p).
Proof.
  intros Hp. unfold V32.of_cell, truthy. rewrite (proj2 (Z.eqb_neq p 0)) by lia. simpl.
  constructor; [apply asBits_range |..]; v32_tests; try done. simpl.
  f_equal. destruct (s32_congr p) as [k Hk]. destruct (s32_congr (s32 p)) as [k' ->]. rewrite Hk.
  unfold u32, uwrap. rewrite !Z.mod_add by lia. apply Z.mod_small. lia.
Qed.

#[global] Instance enc32_ok : JSEncodingOk enc32.
Proof.
  assert (forall v, value_ok (E := enc32) v -> represents (E := enc32) (construct (E := enc32) v) v) as Hc.
  { destruct v as [| | [] | i | d | p]; simpl; intros Hv.
    1, 2, 3, 4: by constructor.
    - by apply represents32_int.
    - by apply represents32_double.
    - by destruct Hv; apply represents32_cell. }
  constructor; [done | done |]. intros v Hv He. pose proof (Hc v Hv) as Hr.
  assert (V32.tag (construct (E := enc32) v) = V32.DeletedValueTag) as Ht by by rewrite He.
  destruct v as [| | [] | i | d | p]; simpl in *; try done.
  - unfold V32.of_int32 in Ht. by rewrite tag_asBits in Ht.
  - pose proof (tag_double d Hv). unfold V32.of_double, V32.LowestTag in *. lia.
  - unfold V32.of_cell in Ht. rewrite tag_asBits in Ht. by destruct (truthy p).
Qed.

#[global] Instance encoding_ok b : JSEncodingOk (encoding b).
Proof. destruct b; apply _. Qed.
