(* ===== verification/JSNumber.v ===== *)
(** * Numbers and conversions of JavaScript values

    The operations of [JSValue] that are the same in both layouts, over the
    interface [JSEncoding]: the constructors from machine numbers, numbers back
    from values, conversions and strict equality.  A failed [ASSERT] is
    [None].  What values ask of the cells they point to is the class
    [JSCells]. *)

From stdpp Require Import base numbers list.
From S2P Require Import Prelude Double JSValue.

#[local] Open Scope Z_scope.

(** What [JSCell] and [JSString] answer for the cell at an address: a string is
    its code units, and [tryGetValueImpl] has them unless the string is a rope
    not yet resolved. *)
Class JSCells := mk_cells {
  cell_isString : Z -> bool;
  cell_value : Z -> list Z;
  cell_tryGetValueImpl : Z -> option (list Z);
  cell_toNumber : Z -> Z;
  cell_toBoolean : Z -> bool
}.

Definition QNaN : Z := 0x7ff8000000000000.

Inductive TriState := FalseTriState | TrueTriState | MixedTriState.
Definition triState (boolean : bool) : TriState := if boolean then TrueTriState else FalseTriState.

(** ASSERT *)
Definition check (o : option bool) : option unit :=
  b ← o; if (b : bool) then Some tt else None.

Definition isNotZeroAndOrdered (value : Z) : bool := d_pos value || d_neg value.

Section numbers.
Context {E : JSEncoding} (undef : Z -> Z).

(** ** Constructors *)

(** [JSValue(char)], [(unsigned char)], [(short)] and [(unsigned short)]. *)
Definition of_small (i : Z) : Z := of_int32 (s32 i).

Definition of_unsigned (i : Z) : Z :=
  if s32 i <? 0 then of_double (of_int i) else of_int32 (s32 i).

(** [JSValue(long)] with 64 bits, and [JSValue(long long)]. *)
Definition of_longlong (i : Z) : Z :=
  if negb (s32 i =? i) then of_double (of_int i) else of_int32 (s32 i).

(** [JSValue(unsigned long)] with 64 bits, and [JSValue(unsigned long long)]. *)
Definition of_ulonglong (i : Z) : Z :=
  if negb (u32 i =? i) then of_double (of_int i) else of_unsigned (u32 i).

Definition of_number (d : Z) : Z :=
  let asInt32 := cast_int32 undef d in
  if negb (d_eqb (of_int asInt32) d) || (negb (truthy asInt32) && dsign d) then of_double d
  else of_int32 (cast_int32 undef d).

Definition jsNaN : Z := of_number QNaN.

(** [jsNumber] of a double and [jsDoubleNumber], which assert the result. *)
Definition jsNumber_double (d : Z) : option Z := asserted (isNumber (of_number d)) (of_number d).
Definition jsDoubleNumber (d : Z) : option Z := asserted (isNumber (of_double d)) (of_double d).

(** ** Numbers *)

Definition isUInt32 (u : Z) : option bool :=
  if isInt32 u then i ← asInt32 u; Some (0 <=? i) else Some false.

Definition asUInt32 (u : Z) : option Z :=
  _ ← check (isUInt32 u); i ← asInt32 u; Some (u32 i).

Definition asNumber (u : Z) : option Z :=
  _ ← check (Some (isNumber u));
  if isInt32 u then i ← asInt32 u; Some (of_int i) else asDouble u.

Definition numberOfInt52Bits : Z := 52.

Definition isMachineInt (u : Z) : option bool :=
  if isInt32 u then Some true
  else if negb (isNumber u) then Some false
  else
    number ← asDouble u;
    if negb (d_eqb number number) then Some false
    else
      let asInt64 := cast_int64 undef number in
      if negb (d_eqb (of_int asInt64) number) then Some false
      else if negb (truthy asInt64) && dsign number then Some false
      else if Z.shiftl 1 (numberOfInt52Bits - 1) <=? asInt64 then Some false
      else if asInt64 <? - Z.shiftl 1 (numberOfInt52Bits - 1) then Some false
      else Some true.

Definition asMachineInt (u : Z) : option Z :=
  _ ← check (isMachineInt u);
  if isInt32 u then asInt32 u else d ← asDouble u; Some (cast_int64 undef d).

(** The result and what is stored through the reference. *)
Definition getUInt32 (u : Z) : option (bool * option Z) :=
  if isInt32 u then
    i ← asInt32 u; Some (0 <=? i, Some (u32 i))
  else if isDouble u then
    d ← asDouble u;
    let v := cast_uint32 undef d in
    Some (d_eqb (of_int v) d, Some v)
  else Some (false, None).

(** ** Conversions *)

Context {C : JSCells}.

Definition toNumberSlowCase (u : Z) : option Z :=
  _ ← check (Some (negb (isInt32 u) && negb (isDouble u)));
  if isCell u then p ← asCell u; Some (cell_toNumber p)
  else if isTrue u then Some (of_int 1)
  else Some (if isUndefined u then QNaN else of_int 0).

Definition toNumber (u : Z) : option Z :=
  if isInt32 u then i ← asInt32 u; Some (of_int i)
  else if isDouble u then asDouble u
  else toNumberSlowCase u.

Definition value_toInt32 (u : Z) : option Z :=
  if isInt32 u then asInt32 u else d ← toNumber u; Some (toInt32 d).

Definition value_toUInt32 (u : Z) : option Z := i ← value_toInt32 u; Some (u32 i).

Definition toBoolean (u : Z) : option bool :=
  if isInt32 u then i ← asInt32 u; Some (truthy i)
  else if isDouble u then d ← asDouble u; Some (d_pos d || d_neg d)
  else if isCell u then p ← asCell u; Some (cell_toBoolean p)
  else Some (isTrue u).

Definition cell_pureToBoolean (p : Z) : TriState :=
  if cell_isString p then triState (cell_toBoolean p) else MixedTriState.

Definition pureToBoolean (u : Z) : option TriState :=
  if isInt32 u then i ← asInt32 u; Some (triState (truthy i))
  else if isDouble u then d ← asDouble u; Some (triState (isNotZeroAndOrdered d))
  else if isCell u then p ← asCell u; Some (cell_pureToBoolean p)
  else Some (triState (isTrue u)).

(** ** Strict equality *)

Definition strictEqualSlowCaseInline (v1 v2 : Z) : option bool :=
  _ ← check (Some (isCell v1 && isCell v2));
  p1 ← asCell v1; p2 ← asCell v2;
  if cell_isString p1 && cell_isString p2 then Some (bool_decide (cell_value p1 = cell_value p2))
  else Some (v1 =? v2).

Definition strictEqual (v1 v2 : Z) : option bool :=
  if isInt32 v1 && isInt32 v2 then Some (v1 =? v2)
  else if isNumber v1 && isNumber v2 then
    d1 ← asNumber v1; d2 ← asNumber v2; Some (d_eqb d1 d2)
  else if negb (isCell v1) || negb (isCell v2) then Some (v1 =? v2)
  else strictEqualSlowCaseInline v1 v2.

Definition pureStrictEqual (v1 v2 : Z) : option TriState :=
  if isInt32 v1 && isInt32 v2 then Some (triState (v1 =? v2))
  else if isNumber v1 && isNumber v2 then
    d1 ← asNumber v1; d2 ← asNumber v2; Some (triState (d_eqb d1 d2))
  else if negb (isCell v1) || negb (isCell v2) then Some (triState (v1 =? v2))
  else
    p1 ← asCell v1; p2 ← asCell v2;
    if cell_isString p1 && cell_isString p2 then
      match cell_tryGetValueImpl p1, cell_tryGetValueImpl p2 with
      | Some s1, Some s2 => Some (triState (bool_decide (s1 = s2)))
      | _, _ => Some MixedTriState
      end
    else Some (triState (v1 =? v2)).

End numbers.

(** ** Specification

    ECMA-262's operations on values, layout apart. *)

Definition v_number (v : value) : option Z :=
  match v with VInt32 i => Some (of_int i) | VDouble d => Some d | _ => None end.

Section specification.
Context {C : JSCells}.

Definition ToNumber_spec (v : value) : Z :=
  match v with
  | VUndefined => QNaN
  | VNull => of_int 0
  | VBoolean b => of_int (b2z b)
  | VInt32 i => of_int i
  | VDouble d => d
  | VCell p => cell_toNumber p
  end.

Definition StrictEquals_spec (v w : value) : bool :=
  match v_number v, v_number w with
  | Some d, Some e => d_eqb d e
  | _, _ =>
      match v, w with
      | VCell p, VCell q =>
          if cell_isString p && cell_isString q then bool_decide (cell_value p = cell_value q)
          else p =? q
      | _, _ => bool_decide (v = w)
      end
  end.
End specification.

(** The value of a number: an integer of 32 bits, other than negative zero,
    is one. *)
Definition canonical (d : Z) : value :=
  if is_finite d && (-2 ^ 31 <=? trunc d) && (trunc d <=? 2 ^ 31 - 1) && (of_int (trunc d) =? d)
  then VInt32 (trunc d) else VDouble d.

Lemma int32_abs i : in_int32 i -> Z.abs i < 2 ^ 53.
Proof. unfold in_int32. lia. Qed.

Lemma int32_abs64 i : in_int32 i -> Z.abs i < 2 ^ 64.
Proof. unfold in_int32. lia. Qed.

#[local] Hint Resolve int32_abs int32_abs64 : core.

Lemma canonical_int i : in_int32 i -> canonical (of_int i) = VInt32 i.
Proof.
  intros Hi. unfold canonical. rewrite of_int_finite, trunc_of_int, Z.eqb_refl by auto.
  unfold in_int32 in Hi. rewrite (proj2 (Z.leb_le _ i)), (proj2 (Z.leb_le i _)) by lia. done.
Qed.

Lemma canonical_double d : (forall i, in_int32 i -> d <> of_int i) -> canonical d = VDouble d.
Proof.
  intros Hd. unfold canonical. case_match; [| done]. zbool.
  destruct (Hd (trunc d)); [unfold in_int32; lia | done].
Qed.

Lemma canonical_cases d :
  (exists i, in_int32 i /\ d = of_int i /\ canonical d = VInt32 i) \/
  ((forall i, in_int32 i -> d <> of_int i) /\ canonical d = VDouble d).
Proof.
  destruct (canonical d) eqn:Hc; unfold canonical in Hc; case_match eqn:Ht; try done;
    injection Hc as <-.
  - left. zbool. exists (trunc d). split_and!; [unfold in_int32; lia | done..].
  - right. split; [| done]. intros i Hi ->. pose proof (canonical_int i Hi) as H.
    unfold canonical in H. by rewrite Ht in H.
Qed.

Lemma canonical_number d : v_number (canonical d) = Some d.
Proof. destruct (canonical_cases d) as [(i & _ & -> & ->) | [_ ->]]; done. Qed.

Lemma cast_int32_in undef d : in_int32 (cast_int32 undef d).
Proof.
  unfold cast_int32, to_int. case_match; [unfold in_int32; zlia | apply s32_in].
Qed.

Lemma cast_of_int undef i : in_int32 i -> cast_int32 undef (of_int i) = i.
Proof.
  intros Hi. unfold cast_int32, to_int. rewrite of_int_finite, trunc_of_int by auto.
  unfold in_int32 in Hi. rewrite (proj2 (Z.leb_le _ i)), (proj2 (Z.leb_le i _)) by lia. done.
Qed.

Lemma canonical_outside i : Z.abs i < 2 ^ 64 -> ~ in_int32 i -> canonical (of_int i) = VDouble (of_int i).
Proof.
  intros Hi Hn. apply canonical_double. intros j Hj He. apply Hn, of_int_int32; [done |].
  by rewrite He, trunc_of_int by auto.
Qed.

Lemma pure_of_int i : Z.abs i < 2 ^ 64 -> pure_double (of_int i) = true.
Proof.
  intros Hi. unfold pure_double. pose proof (of_int_range i Hi).
  rewrite (finite_not_nan _ (of_int_finite i Hi)).
  rewrite (proj2 (Z.leb_le 0 _)), (proj2 (Z.ltb_lt _ _)) by lia. done.
Qed.

Section laws.
Context {E : JSEncoding} {HE : JSEncodingOk E} (undef : Z -> Z) {C : JSCells}.

(** Equal representations are of equal values. *)
Lemma represents_inj u v w : represents u v -> represents u w -> v = w.
Proof.
  intros [] []. destruct v as [| | [] | | |], w as [| | [] | | |]; simpl in *; congruence.
Qed.

Lemma construct_eqb v w :
  value_ok v -> value_ok w -> (construct v =? construct w) = bool_decide (v = w).
Proof.
  intros Hv Hw. apply Bool.eq_true_iff_eq. rewrite Z.eqb_eq, bool_decide_eq_true. split; [| by intros ->].
  intros He. apply (represents_inj (construct v)); [by apply construct_represents |].
  rewrite He. by apply construct_represents.
Qed.

(** Each constructor from a machine number is that of the canonical value. *)
Lemma of_number_ok d : 0 <= d < 2 ^ 64 -> of_number undef d = construct (canonical d).
Proof.
  intros Hd. unfold of_number. set (a := cast_int32 undef d).
  pose proof (cast_int32_in undef d) as Ha. fold a in Ha.
  pose proof (eqb_of_int a d ltac:(auto) Hd) as Heq. unfold truthy. rewrite negb_involutive.
  rewrite <- (negb_involutive ((a =? 0) && dsign d)), <- negb_andb, Heq.
  case_bool_decide as Hda; simpl.
  - rewrite Hda, canonical_int by done. done.
  - destruct (canonical_cases d) as [(i & Hi & -> & _) | [_ ->]]; [| done].
    unfold a in Hda. by rewrite cast_of_int in Hda.
Qed.

Lemma of_longlong_ok i : -2 ^ 63 <= i < 2 ^ 63 -> of_longlong i = construct (canonical (of_int i)).
Proof.
  intros Hi. unfold of_longlong. pose proof (s32_in i) as Hs.
  destruct (Z.eqb_spec (s32 i) i) as [He | Hne]; simpl.
  - rewrite He in *. by rewrite canonical_int.
  - rewrite canonical_outside; [done | lia |]. intros Hi32. by apply Hne, s32_small.
Qed.

Lemma of_unsigned_ok i : 0 <= i < 2 ^ 32 -> of_unsigned i = construct (canonical (of_int i)).
Proof.
  intros Hi. unfold of_unsigned. destruct (decide (i < 2 ^ 31)) as [Hlt | Hge].
  - rewrite s32_small, (proj2 (Z.ltb_ge i 0)), canonical_int by (unfold in_int32; lia). done.
  - assert (s32 i = i - 2 ^ 32) as ->.
    { rewrite <- (s32_add_mul i (-1)). rewrite s32_small; unfold in_int32; lia. }
    rewrite (proj2 (Z.ltb_lt _ 0)), canonical_outside by (unfold in_int32; lia). done.
Qed.

Lemma of_ulonglong_ok i : 0 <= i < 2 ^ 64 -> of_ulonglong i = construct (canonical (of_int i)).
Proof.
  intros Hi. unfold of_ulonglong. pose proof (u32_range i).
  destruct (Z.eqb_spec (u32 i) i) as [He | Hne]; simpl.
  - rewrite He in *. by apply of_unsigned_ok.
  - rewrite canonical_outside; [done | lia |]. intros Hi32. apply Hne, u32_id.
    unfold in_int32 in Hi32. lia.
Qed.

Lemma canonical_ok d : pure_double d = true -> value_ok (canonical d).
Proof. intros Hd. destruct (canonical_cases d) as [(i & Hi & -> & ->) | [_ ->]]; done. Qed.

(** Tests and accessors of a representation, evaluated. *)
Lemma asNumber_ok u v : represents u v -> v_number v <> None -> asNumber u = v_number v.
Proof.
  intros Hr Hn. unfold asNumber, check. rewrite !(rep_isNumber _ _ Hr), (rep_isInt32 _ _ Hr),
    (rep_asInt32 _ _ Hr), (rep_asDouble _ _ Hr). by destruct v.
Qed.

Lemma toNumber_ok u v : represents u v -> toNumber u = Some (ToNumber_spec v).
Proof.
  intros Hr. unfold toNumber, toNumberSlowCase, check.
  rewrite !(rep_isInt32 _ _ Hr), !(rep_isDouble _ _ Hr), (rep_isCell _ _ Hr), (rep_isTrue _ _ Hr),
    (rep_isUndefined _ _ Hr), (rep_asInt32 _ _ Hr), (rep_asDouble _ _ Hr), (rep_asCell _ _ Hr).
  by destruct v as [| | [] | | |].
Qed.

Lemma value_toInt32_ok u v :
  represents u v -> value_ok v -> 0 <= ToNumber_spec v < 2 ^ 64 ->
  value_toInt32 u = Some (ToInt32_spec (ToNumber_spec v)).
Proof.
  intros Hr Hv Hd. unfold value_toInt32. rewrite (rep_isInt32 _ _ Hr), (rep_asInt32 _ _ Hr), (toNumber_ok u v Hr).
  destruct (v_isInt32 v) eqn:Hi; simpl; [| by rewrite toInt32_eq].
  destruct v; try done. simpl in *. rewrite ToInt32_trunc, trunc_of_int, s32_small by auto using of_int_finite. done.
Qed.

Lemma d_eqb_of_int i j : in_int32 i -> in_int32 j -> d_eqb (of_int i) (of_int j) = bool_decide (i = j).
Proof.
  intros Hi Hj. unfold d_eqb. rewrite (finite_not_nan (of_int i)), (finite_not_nan (of_int j)),
    !of_int_zero by auto using of_int_finite. simpl. apply Bool.eq_true_iff_eq. rewrite orb_true_iff, andb_true_iff, !Z.eqb_eq, bool_decide_eq_true.
  split; [intros [He | [-> ->]]; [by apply of_int_inj; auto | done] | intros ->; by left].
Qed.

Lemma strictEqual_ok v w :
  value_ok v -> value_ok w -> strictEqual (construct v) (construct w) = Some (StrictEquals_spec v w).
Proof.
  intros Hv Hw. pose proof (construct_represents v Hv) as Rv. pose proof (construct_represents w Hw) as Rw.
  unfold strictEqual, strictEqualSlowCaseInline, check. rewrite construct_eqb by done.
  rewrite (rep_isInt32 _ _ Rv), (rep_isInt32 _ _ Rw), !(rep_isNumber _ _ Rv), !(rep_isNumber _ _ Rw).
  rewrite !(rep_isCell _ _ Rv), !(rep_isCell _ _ Rw), (rep_asCell _ _ Rv), (rep_asCell _ _ Rw).
  destruct (v_isInt32 v && v_isInt32 w) eqn:Hii.
  { destruct v, w; try done. simpl in *. unfold StrictEquals_spec. simpl. rewrite d_eqb_of_int by done.
    f_equal. apply bool_decide_ext. split; [by intros [= ->] | by intros ->]. }
  destruct ((v_isInt32 v || v_isDouble v) && (v_isInt32 w || v_isDouble w)) eqn:Hnn.
  { rewrite (asNumber_ok _ v Rv), (asNumber_ok _ w Rw); by destruct v, w. }
  destruct v, w; try done. unfold StrictEquals_spec. simpl. case_match; [done |]. f_equal. symmetry.
  apply Bool.eq_true_iff_eq. rewrite Z.eqb_eq, bool_decide_eq_true.
  split; [by intros -> | by intros [= ->]].
Qed.

(** Integers of 52 bits, in either representation. *)
Definition in_int52 (i : Z) : Prop := -2 ^ 51 <= i < 2 ^ 51.

Lemma cast_int64_of_int i : in_int52 i -> cast_int64 undef (of_int i) = i.
Proof.
  unfold in_int52. intros Hi. unfold cast_int64, to_int. rewrite of_int_finite, trunc_of_int by lia.
  rewrite (proj2 (Z.leb_le _ i)), (proj2 (Z.leb_le i _)) by lia. done.
Qed.

Lemma cast_int64_range d : -2 ^ 63 <= cast_int64 undef d < 2 ^ 63.
Proof.
  unfold cast_int64, to_int. case_match; [zlia |]. unfold s64, swrap.
  pose proof (Z.mod_pos_bound (undef d) (2 ^ 64)). change (64 - 1) with 63. case_match; zlia.
Qed.

Lemma isMachineInt_double u d :
  represents u (VDouble d) -> 0 <= d < 2 ^ 64 ->
  isMachineInt undef u =
  Some (bool_decide (in_int52 (cast_int64 undef d) /\ d = of_int (cast_int64 undef d))).
Proof.
  intros Hr Hd. unfold isMachineInt.
  rewrite (rep_isInt32 _ _ Hr), (rep_isNumber _ _ Hr), (rep_asDouble _ _ Hr). simpl.
  pose proof (cast_int64_range d) as Ha. set (a := cast_int64 undef d) in *.
  pose proof (eqb_of_int a d ltac:(lia) Hd) as He. unfold truthy. rewrite negb_involutive.
  destruct (decide (d = of_int a)) as [Hda | Hda].
  - rewrite bool_decide_true in He by done. apply andb_true_iff in He as [He Hz%negb_true_iff].
    pose proof (finite_not_nan _ (of_int_finite a ltac:(lia))) as Hn. rewrite <- Hda in Hn.
    assert (d_eqb d d = true) as Hdd by (unfold d_eqb; by rewrite Hn, Z.eqb_refl).
    rewrite Hdd, He, Hz. simpl. change (Z.shiftl 1 _) with (2 ^ 51).
    unfold in_int52. destruct (Z.leb_spec (2 ^ 51) a), (Z.ltb_spec a (-2 ^ 51));
      [rewrite bool_decide_false by lia..| rewrite bool_decide_true by (split; [lia | done])]; done.
  - rewrite bool_decide_false in He by done. rewrite bool_decide_false by (by intros [_ ?]).
    case_match; [done |]. destruct (d_eqb (of_int a) d); [| done]. simpl in *.
    apply negb_false_iff in He. by rewrite He.
Qed.

Lemma pure_bits d : pure_double d = true -> 0 <= d < 2 ^ 64.
Proof. intros Hd%pure_range. lia. Qed.

Lemma asMachineInt_ok v i :
  value_ok v -> in_int52 i -> v_number v = Some (of_int i) ->
  isMachineInt undef (construct v) = Some true /\ asMachineInt undef (construct v) = Some i.
Proof.
  intros Hv Hi Hn. pose proof (construct_represents v Hv) as Hr. unfold asMachineInt.
  destruct v as [| | | j | d |]; try done; injection Hn as Hn; simpl in Hv.
  - assert (j = i) as -> by (apply of_int_inj; [auto | unfold in_int52 in Hi; lia | done]).
    unfold isMachineInt. by rewrite (rep_isInt32 _ _ Hr), (rep_asInt32 _ _ Hr).
  - rewrite (isMachineInt_double _ d Hr) by by apply pure_bits.
    rewrite (rep_isInt32 _ _ Hr), (rep_asDouble _ _ Hr). subst d. simpl.
    rewrite cast_int64_of_int by done. by rewrite bool_decide_true.
Qed.

Lemma isMachineInt_ok v :
  value_ok v -> isMachineInt undef (construct v) = Some true ->
  exists i, in_int52 i /\ v_number v = Some (of_int i).
Proof.
  intros Hv Hm. pose proof (construct_represents v Hv) as Hr.
  destruct v as [| | | j | d |]; simpl in Hv.
  4: { exists j. unfold in_int52, in_int32 in *. split; [lia | done]. }
  4: { rewrite (isMachineInt_double _ d Hr) in Hm by by apply pure_bits.
       injection Hm as [Hi Hd]%bool_decide_eq_true. exists (cast_int64 undef d). simpl. by rewrite <- Hd. }
  all: unfold isMachineInt in Hm; by rewrite (rep_isInt32 _ _ Hr), (rep_isNumber _ _ Hr) in Hm.
Qed.

(** The versions without side effects answer as the others or not at all. *)
Lemma pureStrictEqual_ok v w :
  (forall p s, cell_tryGetValueImpl p = Some s -> cell_value p = s) ->
  value_ok v -> value_ok w ->
  exists t, pureStrictEqual (construct v) (construct w) = Some t /\
    (t = MixedTriState \/ t = triState (StrictEquals_spec v w)).
Proof.
  intros Hs Hv Hw. pose proof (strictEqual_ok v w Hv Hw) as He.
  pose proof (construct_represents v Hv) as Rv. pose proof (construct_represents w Hw) as Rw.
  unfold strictEqual, strictEqualSlowCaseInline, check, pureStrictEqual in *.
  destruct (isInt32 _ && _); [injection He as <-; eauto |].
  destruct (isNumber _ && _).
  { destruct (asNumber (construct v)); [| done]. destruct (asNumber (construct w)); [| done].
    injection He as <-. simpl. eauto. }
  destruct (negb _ || _) eqn:Hc; [injection He as <-; eauto |].
  apply orb_false_iff in Hc as [Hc1%negb_false_iff Hc2%negb_false_iff]. rewrite Hc1, Hc2 in He.
  simpl in He. destruct (asCell (construct v)) as [p |]; [| done].
  destruct (asCell (construct w)) as [q |]; [| done]. simpl in *.
  destruct (cell_isString p && _); [| injection He as <-; eauto]. injection He as <-.
  destruct (cell_tryGetValueImpl p) as [s |] eqn:Hp; [| eauto].
  destruct (cell_tryGetValueImpl q) as [s' |] eqn:Hq; [| eauto].
  rewrite (Hs p s Hp), (Hs q s' Hq). eauto.
Qed.
End laws.
