(* ===== verification/JSProps.v ===== *)
(** * JavaScript values: the properties

    Each theorem holds in both layouts: the build is the argument [b] of
    [encoding]. *)

From stdpp Require Import base numbers list.
From S2P Require Import Prelude Double JSValue JSNumber.

#[local] Open Scope Z_scope.

(** C30: the types of values are told apart.  In both layouts, for every value
    (undefined, null, booleans, 32-bit integers, doubles with the NaNs that
    hardware makes, cells at aligned addresses): each type test on its 64 bits
    answers for exactly its type, each accessor passes its assertion for
    exactly its type and returns what the constructor was given; different
    values have different bits, and none has those of the empty or the deleted
    value. *)
Theorem jsvalue_types (b : bool) v w :
  let E := encoding b in
  value_ok v -> value_ok w ->
  represents (construct v) v /\
  (construct v = construct w <-> v = w) /\
  isEmpty of_empty = true /\ construct v <> of_empty /\ construct v <> of_deleted.
Proof.
  intros E Hv Hw. pose proof (construct_represents v Hv) as Hr. split_and!; [done | | | |].
  - rewrite <- Z.eqb_eq, construct_eqb, bool_decide_eq_true by done. done.
  - apply empty_isEmpty.
  - intros He. pose proof (rep_isEmpty _ _ Hr) as Hf. by rewrite He, empty_isEmpty in Hf.
  - by apply deleted_apart.
Qed.

Lemma jsvalue_types_witness :
  represents (E := enc64) 0xfff1000000000000 (VDouble 0xfff0000000000000) /\
  construct (E := enc64) (VDouble 0xfff0000000000000) <> construct (E := enc64) (VCell 0x10).
Proof.
  destruct (jsvalue_types true (VDouble 0xfff0000000000000) (VCell 0x10)) as (Hr & Hi & _).
  - reflexivity.
  - split; [split; reflexivity | reflexivity].
  - split; [exact Hr |]. intros He. apply Hi in He. discriminate He.
Defined.

(** C31: a number has one representation.  Every double, and every integer of
    32 or 64 bits, signed or not, constructed as a value: the value is a
    number, [asNumber] returns the same double bit for bit, negative zero and
    NaN included; it is stored as an integer exactly when it is a 32-bit
    integer; integers are stored as the double they convert to (rounded to
    even beyond 53 bits); the 52-bit integers the optimising compilers use are
    recognised and returned; and strict equality of two numbers is the
    equality of IEEE doubles.  None of this depends on what an out-of-range
    conversion, undefined in C++, yields. *)
Theorem jsnumber_canonical (b : bool) undef (C : JSCells) d e :
  let E := encoding b in
  pure_double d = true -> pure_double e = true ->
  let u := of_number undef d in
  isNumber u = true /\ asNumber u = Some d /\
  (isInt32 u = true <-> exists i, in_int32 i /\ d = of_int i) /\
  (isMachineInt undef u = Some true <-> exists i, in_int52 i /\ d = of_int i) /\
  (forall i, in_int52 i -> d = of_int i -> asMachineInt undef u = Some i) /\
  strictEqual u (of_number undef e) = Some (d_eqb d e) /\
  (forall i, -2 ^ 63 <= i < 2 ^ 63 -> of_longlong i = of_number undef (of_int i)) /\
  (forall i, 0 <= i < 2 ^ 64 -> of_ulonglong i = of_number undef (of_int i)) /\
  (forall i, 0 <= i < 2 ^ 32 -> of_unsigned i = of_number undef (of_int i)).
Proof.
  intros E Hd He u. unfold u.
  pose proof (canonical_ok d Hd) as Hv. pose proof (canonical_ok e He) as Hw.
  pose proof (canonical_number d) as Hn. pose proof (canonical_number e) as Hm.
  pose proof (construct_represents _ Hv) as Hr.
  rewrite !of_number_ok by by apply pure_bits. split_and!.
  - rewrite (rep_isNumber _ _ Hr). by destruct (canonical d).
  - rewrite (asNumber_ok _ _ Hr); [done | by rewrite Hn].
  - rewrite (rep_isInt32 _ _ Hr).
    destruct (canonical_cases d) as [(i & Hi & Hdi & ->) | [Hno ->]]; [naive_solver |].
    split; [done |]. intros (i & Hi & Hdi). by destruct (Hno i).
  - split; [intros (i & Hi & Hdi)%isMachineInt_ok; [| done]; exists i; naive_solver |].
    intros (i & Hi & ->). by apply (asMachineInt_ok undef _ i).
  - intros i Hi ->. by apply (asMachineInt_ok undef _ i).
  - rewrite strictEqual_ok by done. unfold StrictEquals_spec. by rewrite Hn, Hm.
  - intros i Hi. rewrite of_number_ok by (apply of_int_range; lia). by apply of_longlong_ok.
  - intros i Hi. rewrite of_number_ok by (apply of_int_range; lia). by apply of_ulonglong_ok.
  - intros i Hi. rewrite of_number_ok by (apply of_int_range; lia). by apply of_unsigned_ok.
Qed.

(** No cells. *)
Definition no_cells : JSCells := {|
  cell_isString := fun _ => false; cell_value := fun _ => []; cell_tryGetValueImpl := fun _ => None;
  cell_toNumber := fun _ => QNaN; cell_toBoolean := fun _ => true |}.

(** Negative zero and 1.5. *)
Lemma jsnumber_canonical_witness :
  let E := encoding false in
  asNumber (of_number (fun _ => -1) 0x8000000000000000) = Some 0x8000000000000000 /\
  strictEqual (C := no_cells) (of_number (fun _ => -1) 0x8000000000000000)
    (of_number (fun _ => -1) 0x3ff8000000000000) = Some false.
Proof.
  intros E.
  destruct (jsnumber_canonical false (fun _ => -1) no_cells 0x8000000000000000 0x3ff8000000000000)
    as (_ & Ha & _ & _ & _ & Hs & _); [reflexivity | reflexivity |].
  split; [exact Ha | exact Hs].
Defined.

(** C32: [toInt32] is ECMA-262's ToInt32.  For all 64 bits of a double, the
    selection of bits by shifts and masks returns the double rounded towards
    zero modulo [2 ^ 32] as a signed integer, and 0 for infinities and NaN;
    [toUInt32] the same as an unsigned integer; and on every value that is not
    a cell, in both layouts, the conversion passes its assertions and returns
    ToInt32 of ToNumber of the value. *)
Theorem toInt32_ecma (b : bool) (C : JSCells) d v :
  let E := encoding b in
  0 <= d < 2 ^ 64 -> value_ok v -> v_isCell v = false ->
  toInt32 d = ToInt32_spec d /\ toUInt32 d = ToUint32_spec d /\
  value_toInt32 (construct v) = Some (ToInt32_spec (ToNumber_spec v)).
Proof.
  intros E Hd Hv Hc. rewrite (toInt32_eq d Hd). split_and!; [done | |].
  - unfold toUInt32. rewrite toInt32_eq by done. unfold ToInt32_spec, ToUint32_spec, u32, uwrap.
    destruct (is_finite d); [| done].
    case_match; [rewrite <- (Z.add_opp_r _ (2 ^ 32)), <- (Z.mul_1_l (- 2 ^ 32)), <- Z.mul_opp_comm, Z.mod_add by lia |];
      by rewrite Z.mod_mod.
  - apply value_toInt32_ok; [by apply construct_represents | done |].
    destruct v as [| | [] | i | d' |]; try done; simpl in *.
    + apply of_int_range. unfold in_int32 in Hv. lia.
    + by apply pure_bits.
Qed.

(** 2147483648.5 and -4294967297.75. *)
Lemma toInt32_ecma_witness :
  toInt32 0x41e0000000100000 = -2147483648 /\
  value_toInt32 (E := enc64) (C := no_cells) (construct (E := enc64) (VDouble 0xc1f00000001c0000)) = Some (-1).
Proof.
  destruct (toInt32_ecma true no_cells 0x41e0000000100000 (VDouble 0xc1f00000001c0000)) as (H1 & _ & H2).
  - split; [discriminate | reflexivity].
  - reflexivity.
  - reflexivity.
  - split; [rewrite H1; vm_compute; reflexivity | exact H2].
Defined.
