(* ===== verification/RBTree.v ===== *)
(** * Red-black trees

    WTF/wtf/RedBlackTree.h: an intrusive red-black tree.  The nodes are owned
    by the user and live in a heap, a finite map from addresses; a node has the
    pointers to its children, one word with the parent's address and the red
    bit, and the user's part of the object, of which the tree reads the key.
    Following a pointer that is no node's address is a fault, as is a failed
    assertion. *)

From stdpp Require Import base numbers list gmap.
From S2P Require Import Prelude.

#[local] Open Scope Z_scope.

(** [NodeType::key()]. *)
Class NodeKey (A : Type) := node_key : A -> Z.

Inductive Color := Red | Black.

#[global] Instance Color_eq_dec : EqDecision Color.
Proof. solve_decision. Defined.

Inductive rb_fault := Rb_null | Rb_assert | Rb_fuel.

Record Node (A : Type) := mk_node {
  m_left : Z;
  m_right : Z;
  m_parentAndRed : Z;
  m_object : A
}.
Arguments mk_node {A} _ _ _ _.
Arguments m_left {A} _.
Arguments m_right {A} _.
Arguments m_parentAndRed {A} _.
Arguments m_object {A} _.

Record RedBlackTree (A : Type) := mk_tree {
  nodes : gmap Z (Node A);
  m_root : Z
}.
Arguments mk_tree {A} _ _.
Arguments nodes {A} _.
Arguments m_root {A} _.

Section tree.
Context {A : Type} `{KA : NodeKey A}.

Abbreviation TM := (M rb_fault (RedBlackTree A)).

Definition rb_assert (b : bool) : TM unit := if b then mret tt else mfail Rb_assert.

Definition node (p : Z) : TM (Node A) := s ← mget; of_opt Rb_null (nodes s !! p).

Definition set_node (p : Z) (f : Node A -> Node A) : TM unit :=
  n ← node p;
  mmod (fun s => mk_tree (<[p := f n]> (nodes s)) (m_root s)).

Definition get_root : TM Z := mgets m_root.
Definition set_root (p : Z) : TM unit := mmod (fun s => mk_tree (nodes s) p).

(** ** [Node] *)

Definition reset (x : Z) : TM unit := set_node x (fun n => mk_node 0 0 1 (m_object n)).

Definition parent (x : Z) : TM Z := n ← node x; mret (Z.land (m_parentAndRed n) (Z.lnot 1)).
Definition setParent (x newParent : Z) : TM unit :=
  set_node x (fun n =>
    mk_node (m_left n) (m_right n) (Z.lor newParent (Z.land (m_parentAndRed n) 1)) (m_object n)).

Definition left (x : Z) : TM Z := n ← node x; mret (m_left n).
Definition setLeft (x p : Z) : TM unit :=
  set_node x (fun n => mk_node p (m_right n) (m_parentAndRed n) (m_object n)).

Definition right (x : Z) : TM Z := n ← node x; mret (m_right n).
Definition setRight (x p : Z) : TM unit :=
  set_node x (fun n => mk_node (m_left n) p (m_parentAndRed n) (m_object n)).

Definition color (x : Z) : TM Color :=
  n ← node x; mret (if truthy (Z.land (m_parentAndRed n) 1) then Red else Black).
Definition setColor (x : Z) (value : Color) : TM unit :=
  set_node x (fun n =>
    mk_node (m_left n) (m_right n)
      (match value with
       | Red => Z.lor (m_parentAndRed n) 1
       | Black => Z.land (m_parentAndRed n) (Z.lnot 1)
       end) (m_object n)).

Definition key (x : Z) : TM Z := n ← node x; mret (node_key (m_object n)).

(** [x && x->color() == Red], and [!x || x->color() == Black]. *)
Definition isRed (x : Z) : TM bool :=
  if truthy x then c ← color x; mret (bool_decide (c = Red)) else mret false.
Definition isBlack (x : Z) : TM bool :=
  if truthy x then c ← color x; mret (bool_decide (c = Black)) else mret true.

(** ** Walks

    No walk is longer than the number of nodes there are. *)

Definition fuel_of (s : RedBlackTree A) : nat := S (size (nodes s)).

Fixpoint treeMinimum_loop (fuel : nat) (x : Z) : TM Z :=
  match fuel with
  | O => mfail Rb_fuel
  | S fuel' => l ← left x; if truthy l then treeMinimum_loop fuel' l else mret x
  end.
Definition treeMinimum (x : Z) : TM Z := fuel ← mgets fuel_of; treeMinimum_loop fuel x.

Fixpoint treeMaximum_loop (fuel : nat) (x : Z) : TM Z :=
  match fuel with
  | O => mfail Rb_fuel
  | S fuel' => r ← right x; if truthy r then treeMaximum_loop fuel' r else mret x
  end.
Definition treeMaximum (x : Z) : TM Z := fuel ← mgets fuel_of; treeMaximum_loop fuel x.

(** Up from [x] with parent [y] while [x] is the right child. *)
Fixpoint successor_loop (fuel : nat) (x y : Z) : TM Z :=
  match fuel with
  | O => mfail Rb_fuel
  | S fuel' =>
      if negb (truthy y) then mret y
      else
        r ← right y;
        if x =? r then y' ← parent y; successor_loop fuel' y y' else mret y
  end.

Definition successor (x : Z) : TM Z :=
  r ← right x;
  if truthy r then treeMinimum r
  else y ← parent x; fuel ← mgets fuel_of; successor_loop fuel x y.

Fixpoint predecessor_loop (fuel : nat) (x y : Z) : TM Z :=
  match fuel with
  | O => mfail Rb_fuel
  | S fuel' =>
      if negb (truthy y) then mret y
      else
        l ← left y;
        if x =? l then y' ← parent y; predecessor_loop fuel' y y' else mret y
  end.

Definition predecessor (x : Z) : TM Z :=
  l ← left x;
  if truthy l then treeMaximum l
  else y ← parent x; fuel ← mgets fuel_of; predecessor_loop fuel x y.

Fixpoint findExact_loop (fuel : nat) (k current : Z) : TM Z :=
  match fuel with
  | O => mfail Rb_fuel
  | S fuel' =>
      if negb (truthy current) then mret 0
      else
        c ← key current;
        if c =? k then mret current
        else if k <? c then l ← left current; findExact_loop fuel' k l
        else r ← right current; findExact_loop fuel' k r
  end.
Definition findExact (k : Z) : TM Z :=
  root ← get_root; fuel ← mgets fuel_of; findExact_loop fuel k root.

Fixpoint findLeastGreaterThanOrEqual_loop (fuel : nat) (k best current : Z) : TM Z :=
  match fuel with
  | O => mfail Rb_fuel
  | S fuel' =>
      if negb (truthy current) then mret best
      else
        c ← key current;
        if c =? k then mret current
        else if c <? k then r ← right current; findLeastGreaterThanOrEqual_loop fuel' k best r
        else l ← left current; findLeastGreaterThanOrEqual_loop fuel' k current l
  end.
Definition findLeastGreaterThanOrEqual (k : Z) : TM Z :=
  root ← get_root; fuel ← mgets fuel_of; findLeastGreaterThanOrEqual_loop fuel k 0 root.

Fixpoint findGreatestLessThanOrEqual_loop (fuel : nat) (k best current : Z) : TM Z :=
  match fuel with
  | O => mfail Rb_fuel
  | S fuel' =>
      if negb (truthy current) then mret best
      else
        c ← key current;
        if c =? k then mret current
        else if k <? c then l ← left current; findGreatestLessThanOrEqual_loop fuel' k best l
        else r ← right current; findGreatestLessThanOrEqual_loop fuel' k current r
  end.
Definition findGreatestLessThanOrEqual (k : Z) : TM Z :=
  root ← get_root; fuel ← mgets fuel_of; findGreatestLessThanOrEqual_loop fuel k 0 root.

Definition first : TM Z :=
  root ← get_root; if negb (truthy root) then mret 0 else treeMinimum root.
Definition last : TM Z :=
  root ← get_root; if negb (truthy root) then mret 0 else treeMaximum root.
Definition isEmpty : TM bool := root ← get_root; mret (negb (truthy root)).

(** The loop of [for (current = first(); current; current = current->successor())]. *)
Fixpoint each_loop {B} (fuel : nat) (f : B -> Z -> TM B) (acc : B) (current : Z) : TM B :=
  match fuel with
  | O => mfail Rb_fuel
  | S fuel' =>
      if negb (truthy current) then mret acc
      else
        acc' ← f acc current;
        next ← successor current;
        each_loop fuel' f acc' next
  end.

Definition tree_size : TM Z :=
  current ← first; fuel ← mgets fuel_of;
  each_loop fuel (fun result _ => mret (u64 (result + 1))) 0 current.

(** ** Rotations *)

(** Where [child] hangs from [p], hang [other]; from the root when [p] is
    null. *)
Definition relink (p child other : Z) : TM unit :=
  if negb (truthy p) then set_root other
  else l ← left p; if child =? l then setLeft p other else setRight p other.

Definition leftRotate (x : Z) : TM Z :=
  y ← right x;
  yl ← left y;
  setRight x yl;;
  yl ← left y;
  (if truthy yl then setParent yl x else mret tt);;
  xp ← parent x;
  setParent y xp;;
  xp ← parent x;
  relink xp x y;;
  setLeft y x;;
  setParent x y;;
  mret y.

Definition rightRotate (y : Z) : TM Z :=
  x ← left y;
  xr ← right x;
  setLeft y xr;;
  xr ← right x;
  (if truthy xr then setParent xr y else mret tt);;
  yp ← parent y;
  setParent x yp;;
  yp ← parent y;
  relink yp y x;;
  setRight x y;;
  setParent y x;;
  mret x.

(** ** Insertion *)

Fixpoint treeInsert_loop (fuel : nat) (z y x : Z) : TM Z :=
  match fuel with
  | O => mfail Rb_fuel
  | S fuel' =>
      if negb (truthy x) then mret y
      else
        zk ← key z; xk ← key x;
        if zk <? xk then l ← left x; treeInsert_loop fuel' z x l
        else r ← right x; treeInsert_loop fuel' z x r
  end.

Definition treeInsert (z : Z) : TM unit :=
  l ← left z; rb_assert (negb (truthy l));;
  r ← right z; rb_assert (negb (truthy r));;
  p ← parent z; rb_assert (negb (truthy p));;
  c ← color z; rb_assert (bool_decide (c = Red));;
  root ← get_root; fuel ← mgets fuel_of;
  y ← treeInsert_loop fuel z 0 root;
  setParent z y;;
  if negb (truthy y) then set_root z
  else
    zk ← key z; yk ← key y;
    if zk <? yk then setLeft y z else setRight y z.

(** [x->parent()->parent()] *)
Definition grandparent (x : Z) : TM Z := p ← parent x; parent p.

(** One round of the loop where the parent of [x] is a left child: the node the
    next round starts from. *)
Definition insert_left (x : Z) : TM Z :=
  g ← grandparent x; y ← right g;
  red ← isRed y;
  if (red : bool) then
    p ← parent x; setColor p Black;;
    setColor y Black;;
    g ← grandparent x; setColor g Red;;
    grandparent x
  else
    p ← parent x; r ← right p;
    x ← (if x =? r then p ← parent x; leftRotate p;; mret p else mret x);
    p ← parent x; setColor p Black;;
    g ← grandparent x; setColor g Red;;
    g ← grandparent x; rightRotate g;;
    mret x.

Definition insert_right (x : Z) : TM Z :=
  g ← grandparent x; y ← left g;
  red ← isRed y;
  if (red : bool) then
    p ← parent x; setColor p Black;;
    setColor y Black;;
    g ← grandparent x; setColor g Red;;
    grandparent x
  else
    p ← parent x; l ← left p;
    x ← (if x =? l then p ← parent x; rightRotate p;; mret p else mret x);
    p ← parent x; setColor p Black;;
    g ← grandparent x; setColor g Red;;
    g ← grandparent x; leftRotate g;;
    mret x.

Fixpoint insert_loop (fuel : nat) (x : Z) : TM unit :=
  match fuel with
  | O => mfail Rb_fuel
  | S fuel' =>
      root ← get_root;
      if x =? root then mret tt
      else
        p ← parent x; c ← color p;
        if bool_decide (c = Red) then
          p ← parent x; g ← grandparent x; gl ← left g;
          x' ← (if p =? gl then insert_left x else insert_right x);
          insert_loop fuel' x'
        else mret tt
  end.

Definition insert (x : Z) : TM unit :=
  reset x;;
  treeInsert x;;
  setColor x Red;;
  fuel ← mgets fuel_of;
  insert_loop fuel x;;
  root ← get_root; setColor root Black.

(** ** Removal *)

(** One round of [removeFixup] where [x] is the left child of [xParent]: the
    next [x] and [xParent]. *)
Definition removeFixup_left (xParent : Z) : TM (Z * Z) :=
  w ← right xParent; rb_assert (truthy w);;
  c ← color w;
  w ← (if bool_decide (c = Red) then
         setColor w Black;; setColor xParent Red;; leftRotate xParent;; right xParent
       else mret w);
  wl ← left w; lb ← isBlack wl;
  rb ← (if (lb : bool) then wr ← right w; isBlack wr else mret false);
  if (rb : bool) then
    setColor w Red;;
    p ← parent xParent; mret (xParent, p)
  else
    wr ← right w; rb ← isBlack wr;
    w ← (if (rb : bool) then
           wl ← left w; setColor wl Black;; setColor w Red;; rightRotate w;; right xParent
         else mret w);
    c ← color xParent; setColor w c;;
    setColor xParent Black;;
    wr ← right w; (if truthy wr then setColor wr Black else mret tt);;
    leftRotate xParent;;
    x ← get_root; p ← parent x; mret (x, p).

Definition removeFixup_right (xParent : Z) : TM (Z * Z) :=
  w ← left xParent; rb_assert (truthy w);;
  c ← color w;
  w ← (if bool_decide (c = Red) then
         setColor w Black;; setColor xParent Red;; rightRotate xParent;; left xParent
       else mret w);
  wr ← right w; rb ← isBlack wr;
  lb ← (if (rb : bool) then wl ← left w; isBlack wl else mret false);
  if (lb : bool) then
    setColor w Red;;
    p ← parent xParent; mret (xParent, p)
  else
    wl ← left w; lb ← isBlack wl;
    w ← (if (lb : bool) then
           wr ← right w; setColor wr Black;; setColor w Red;; leftRotate w;; left xParent
         else mret w);
    c ← color xParent; setColor w c;;
    setColor xParent Black;;
    wl ← left w; (if truthy wl then setColor wl Black else mret tt);;
    rightRotate xParent;;
    x ← get_root; p ← parent x; mret (x, p).

Fixpoint removeFixup_loop (fuel : nat) (x xParent : Z) : TM Z :=
  match fuel with
  | O => mfail Rb_fuel
  | S fuel' =>
      root ← get_root;
      b ← (if negb (x =? root) then isBlack x else mret false);
      if (b : bool) then
        l ← left xParent;
        '(x', p') ← (if x =? l then removeFixup_left xParent else removeFixup_right xParent);
        removeFixup_loop fuel' x' p'
      else mret x
  end.

Definition removeFixup (x xParent : Z) : TM unit :=
  fuel ← mgets fuel_of;
  x ← removeFixup_loop fuel x xParent;
  if truthy x then setColor x Black else mret tt.

(** [y] takes the place of [z] in the tree. *)
Definition take_place (y z : Z) : TM unit :=
  zp ← parent z; setParent y zp;;
  zc ← color z; setColor y zc;;
  zl ← left z; setLeft y zl;;
  zr ← right z; setRight y zr;;
  zl ← left z; (if truthy zl then setParent zl y else mret tt);;
  zr ← right z; (if truthy zr then setParent zr y else mret tt);;
  zp ← parent z;
  (if truthy zp then mret tt else root ← get_root; rb_assert (root =? z));;
  relink zp z y.

Definition remove (z : Z) : TM Z :=
  rb_assert (truthy z);;
  zp ← parent z; root ← get_root; rb_assert (truthy zp || (z =? root));;
  zl ← left z; zr ← right z;
  y ← (if negb (truthy zl) || negb (truthy zr) then mret z else successor z);
  yl ← left y;
  x ← (if truthy yl then mret yl else right y);
  yp ← parent y;
  xParent ← (if truthy x then setParent x yp;; parent x else mret yp);
  relink yp y x;;
  (if negb (y =? z) then
     c ← color y;
     (if bool_decide (c = Black) then removeFixup x xParent else mret tt);;
     take_place y z
   else
     c ← color y;
     if bool_decide (c = Black) then removeFixup x xParent else mret tt);;
  mret z.

Definition remove_key (k : Z) : TM Z :=
  result ← findExact k;
  if negb (truthy result) then mret 0 else remove result.

End tree.

Abbreviation TreeM A := (M rb_fault (RedBlackTree A)).

Definition empty_tree {A} : RedBlackTree A := mk_tree ∅ 0.
