(* ===== verification/RBRepr.v ===== *)
(** * Red-black trees: the heap as a tree

    The abstract tree a heap of nodes represents, focused on a subtree by a
    context (the path to the root), and what the primitive changes of the code
    (colours, rotations, hanging a node elsewhere) do to it.  The two mirror
    images of each operation are instances of one, over a [side]. *)

From stdpp Require Import base numbers list gmap.
From S2P Require Import Prelude RBTree.

#[local] Open Scope Z_scope.

(** ** Trees and contexts *)

Inductive tree :=
  | Leaf
  | Br (c : Color) (l : tree) (q : Z) (r : tree).

(** A tree with a hole: the root, or the left or right subtree of [q]. *)
Inductive ctx :=
  | Top
  | CtxL (c : Color) (q : Z) (r : tree) (C : ctx)
  | CtxR (c : Color) (l : tree) (q : Z) (C : ctx).

Fixpoint plug (C : ctx) (t : tree) : tree :=
  match C with
  | Top => t
  | CtxL c q r C => plug C (Br c t q r)
  | CtxR c l q C => plug C (Br c l q t)
  end.

Definition root (t : tree) : Z := match t with Leaf => 0 | Br _ _ q _ => q end.

(** The parent of the hole. *)
Definition cpar (C : ctx) : Z :=
  match C with Top => 0 | CtxL _ q _ _ => q | CtxR _ _ q _ => q end.

Fixpoint inorder (t : tree) : list Z :=
  match t with Leaf => [] | Br _ l q r => inorder l ++ q :: inorder r end.

(** What is before and after the hole in order. *)
Fixpoint cpre (C : ctx) : list Z :=
  match C with Top => [] | CtxL _ _ _ C => cpre C | CtxR _ l q C => cpre C ++ inorder l ++ [q] end.
Fixpoint cpost (C : ctx) : list Z :=
  match C with Top => [] | CtxL _ q r C => q :: inorder r ++ cpost C | CtxR _ _ _ C => cpost C end.
Definition caddrs (C : ctx) : list Z := cpre C ++ cpost C.

Fixpoint cdepth (C : ctx) : nat :=
  match C with Top => 0 | CtxL _ _ _ C => S (cdepth C) | CtxR _ _ _ C => S (cdepth C) end.

Lemma inorder_plug C t : inorder (plug C t) = cpre C ++ inorder t ++ cpost C.
Proof.
  revert t. induction C as [| c q r C IH | c l q C IH]; intros t; simpl.
  - by rewrite app_nil_r.
  - rewrite IH. simpl. by rewrite <- !app_assoc.
  - rewrite IH. simpl. by rewrite <- !app_assoc.
Qed.

(** Every node of a tree is at the focus of some context. *)
Lemma tree_split q t : q ∈ inorder t -> exists C c l r, t = plug C (Br c l q r).
Proof.
  cut (forall C, q ∈ inorder t -> exists C' c l r, plug C t = plug C' (Br c l q r)).
  { intros Hc Hq. apply (Hc Top Hq). }
  induction t as [| c l IHl q' r IHr]; intros C; simpl; [by intros ?%elem_of_nil |].
  rewrite elem_of_app, elem_of_cons. intros [Hl | [-> | Hr]].
  - apply (IHl (CtxL c q' r C) Hl).
  - by exists C, c, l, r.
  - apply (IHr (CtxR c l q' C) Hr).
Qed.

(** ** Sides *)

Inductive side := L | R.
Definition opp (d : side) : side := match d with L => R | R => L end.

(** A node with [a] on side [d] and [b] on the other. *)
Definition br (d : side) (c : Color) (a : tree) (q : Z) (b : tree) : tree :=
  match d with L => Br c a q b | R => Br c b q a end.
Definition hole (d : side) (c : Color) (q : Z) (b : tree) (C : ctx) : ctx :=
  match d with L => CtxL c q b C | R => CtxR c b q C end.

Lemma plug_hole d c q b C t : plug (hole d c q b C) t = plug C (br d c t q b).
Proof. by destruct d. Qed.

Lemma br_opp d c a q b : br (opp d) c a q b = br d c b q a.
Proof. by destruct d. Qed.

Lemma opp_opp d : opp (opp d) = d.
Proof. by destruct d. Qed.

Lemma cpar_hole d c q b C : cpar (hole d c q b C) = q.
Proof. by destruct d. Qed.

Lemma root_br d c a q b : root (br d c a q b) = q.
Proof. by destruct d. Qed.

(** Rotation keeps the order. *)
Lemma inorder_rotate d c a x c' b y e :
  inorder (br d c a x (br d c' b y e)) = inorder (br d c' (br d c a x b) y e).
Proof. destruct d; simpl; by rewrite <- app_assoc. Qed.

Lemma inorder_br_perm d c a q b : inorder (br d c a q b) ≡ₚ [q] ++ inorder a ++ inorder b.
Proof. destruct d; simpl; rewrite <- Permutation_middle; [done |]. by rewrite (Permutation_app_comm (inorder b)). Qed.

Lemma inorder_br_color d c c' a q b : inorder (br d c a q b) = inorder (br d c' a q b).
Proof. by destruct d. Qed.

Lemma ctx_side C : C = Top \/ exists d c q b C', C = hole d c q b C'.
Proof.
  destruct C as [| c q r C | c l q C]; [by left | right..].
  - by exists L, c, q, r, C.
  - by exists R, c, q, l, C.
Qed.

Lemma cdepth_hole d c q b C : cdepth (hole d c q b C) = S (cdepth C).
Proof. by destruct d. Qed.

Lemma cdepth_length C : (cdepth C <= length (caddrs C))%nat.
Proof.
  unfold caddrs. induction C as [| c q r C IH | c l q C IH]; simpl; [lia |..];
    rewrite ?length_app in *; simpl; rewrite ?length_app; simpl; rewrite ?length_app in *; lia.
Qed.

(** ** Representation *)

Definition addr_ok (q : Z) : Prop := 0 < q /\ Z.even q = true.

Definition redbit (c : Color) : Z := match c with Red => 1 | Black => 0 end.

Section repr.
Context {A : Type} `{KA : NodeKey A}.

Implicit Types (s : RedBlackTree A) (h : gmap Z (Node A)) (V : gmap Z A).

(** The node at [q]: children on the side [d] and the other, parent, colour. *)
Definition node_at (d : side) h (q a b par : Z) (c : Color) : Prop :=
  exists v, h !! q = Some (match d with
                           | L => mk_node a b (par + redbit c) v
                           | R => mk_node b a (par + redbit c) v
                           end).

Fixpoint tree_at h (par : Z) (t : tree) : Prop :=
  match t with
  | Leaf => True
  | Br c l q r => addr_ok q /\ node_at L h q (root l) (root r) par c /\ tree_at h q l /\ tree_at h q r
  end.

Fixpoint ctx_at s (C : ctx) (p : Z) : Prop :=
  match C with
  | Top => m_root s = p
  | CtxL c q r C =>
      addr_ok q /\ node_at L (nodes s) q p (root r) (cpar C) c /\ tree_at (nodes s) q r /\ ctx_at s C q
  | CtxR c l q C =>
      addr_ok q /\ node_at L (nodes s) q (root l) p (cpar C) c /\ tree_at (nodes s) q l /\ ctx_at s C q
  end.

Definition objects s : gmap Z A := m_object <$> nodes s.

(** [s] represents [t], and its objects are [V]. *)
Record repr V s (t : tree) : Prop := mk_repr {
  repr_objects : objects s = V;
  repr_tree : tree_at (nodes s) 0 t;
  repr_root : m_root s = root t;
  repr_nodup : NoDup (inorder t)
}.

(** The same, seen from a focus. *)
Record focus V s (C : ctx) (t : tree) : Prop := mk_focus {
  fc_objects : objects s = V;
  fc_tree : tree_at (nodes s) (cpar C) t;
  fc_ctx : ctx_at s C (root t);
  fc_nodup : NoDup (inorder t ++ caddrs C)
}.

Lemma node_at_opp d h q a b par c : node_at (opp d) h q a b par c <-> node_at d h q b a par c.
Proof. by destruct d. Qed.

Lemma tree_at_br d h par c a q b :
  tree_at h par (br d c a q b) <->
  addr_ok q /\ node_at d h q (root a) (root b) par c /\ tree_at h q a /\ tree_at h q b.
Proof. destruct d; simpl; [done |]. unfold node_at. tauto. Qed.

Lemma ctx_at_hole d s c q b C p :
  ctx_at s (hole d c q b C) p <->
  addr_ok q /\ node_at d (nodes s) q p (root b) (cpar C) c /\ tree_at (nodes s) q b /\ ctx_at s C q.
Proof. destruct d; simpl; [done |]. unfold node_at. tauto. Qed.

Lemma caddrs_hole d c q b C : caddrs (hole d c q b C) ≡ₚ [q] ++ inorder b ++ caddrs C.
Proof.
  unfold caddrs. destruct d; simpl.
  - rewrite <- Permutation_middle. rewrite (Permutation_app_comm (cpre C)), <- app_assoc.
    by rewrite (Permutation_app_comm (cpost C)).
  - rewrite <- !app_assoc. simpl. rewrite (Permutation_app_comm (cpre C)), <- app_assoc. simpl.
    rewrite <- Permutation_middle. rewrite (Permutation_app_comm (cpost C)). done.
Qed.

(** Moving the focus. *)
Lemma focus_up V s d c q b C t : focus V s (hole d c q b C) t <-> focus V s C (br d c t q b).
Proof.
  split; intros [Ho Ht Hc Hn].
  - rewrite ctx_at_hole in Hc. rewrite cpar_hole in Ht. constructor; [done | | |].
    + rewrite tree_at_br. tauto.
    + rewrite root_br. tauto.
    + revert Hn. rewrite caddrs_hole, inorder_br_perm. apply NoDup_Permutation_proper.
      rewrite <- !app_assoc. rewrite !app_assoc. apply Permutation_app_tail.
      by rewrite (Permutation_app_comm (inorder t) [q]).
  - rewrite tree_at_br in Ht. rewrite root_br in Hc. constructor; [done | | |].
    + rewrite cpar_hole. tauto.
    + rewrite ctx_at_hole. tauto.
    + revert Hn. rewrite caddrs_hole, inorder_br_perm. apply NoDup_Permutation_proper.
      rewrite <- !app_assoc. rewrite !app_assoc. apply Permutation_app_tail.
      by rewrite (Permutation_app_comm (inorder t) [q]).
Qed.

Lemma focus_out V s d c q b C t : focus V s (hole d c q b C) t -> focus V s C (br d c t q b).
Proof. apply focus_up. Qed.

Lemma focus_in V s d c q b C t : focus V s C (br d c t q b) -> focus V s (hole d c q b C) t.
Proof. apply focus_up. Qed.

Lemma focus_top V s t : focus V s Top t <-> repr V s t.
Proof.
  split; intros []; constructor; simpl in *; try done.
  - by rewrite app_nil_r in *.
  - unfold caddrs. simpl. by rewrite app_nil_r.
Qed.

Lemma focus_repr V s C t : focus V s C t <-> repr V s (plug C t).
Proof.
  revert t. induction C as [| c q r C IH | c l q C IH]; intros t; simpl; [apply focus_top |..].
  - rewrite <- IH. apply (focus_up V s L).
  - rewrite <- IH. apply (focus_up V s R).
Qed.

(** ** The packed word *)

Lemma land_parent par c : Z.even par = true -> Z.land (par + redbit c) (Z.lnot 1) = par.
Proof.
  intros He. rewrite <- Z.ldiff_land. change 1 with (Z.ones 1). rewrite Z.ldiff_ones_r by done.
  rewrite Z.shiftl_mul_pow2, Z.shiftr_div_pow2 by done. apply Z.even_spec in He as [k ->].
  destruct c; simpl redbit; change (2 ^ 1) with 2; Z.to_euclidean_division_equations; lia.
Qed.

Lemma land_red par c : Z.even par = true -> Z.land (par + redbit c) 1 = redbit c.
Proof.
  intros He. change 1 with (Z.ones 1) at 1. rewrite Z.land_ones by done. apply Z.even_spec in He as [k ->].
  destruct c; simpl redbit; change (2 ^ 1) with 2; Z.to_euclidean_division_equations; lia.
Qed.

Lemma lor_red par c : Z.even par = true -> Z.lor par (redbit c) = par + redbit c.
Proof.
  intros He. apply Z.even_spec in He as [k ->]. rewrite Z.lor_comm, (Z.mul_comm 2 k).
  change 2 with (2 ^ 1). rewrite <- Z.shiftl_mul_pow2, lor_shiftl_add by (destruct c; simpl; lia).
  rewrite Z.shiftl_mul_pow2 by lia. lia.
Qed.

Lemma lor_1 par c : Z.even par = true -> Z.lor (par + redbit c) 1 = par + redbit Red.
Proof. intros He. rewrite <- lor_red, <- Z.lor_assoc by done. rewrite <- lor_red by done. by destruct c. Qed.

(** ** Reading and writing nodes *)

Definition child (d : side) : Z -> M rb_fault (RedBlackTree A) Z := match d with L => left | R => right end.
Definition setChild (d : side) : Z -> Z -> M rb_fault (RedBlackTree A) unit :=
  match d with L => setLeft | R => setRight end.

Lemma wp_node s q n (Q : Node A -> RedBlackTree A -> Prop) :
  nodes s !! q = Some n -> Q n s -> wp (node q) s Q.
Proof. intros Hq HQ. unfold node. wp_step. wp_step. by apply (wp_of_opt _ _ _ _ n). Qed.

Lemma wp_child d s q a b par c Q : node_at d (nodes s) q a b par c -> Q a s -> wp (child d q) s Q.
Proof.
  intros [v Hv] HQ. destruct d; simpl; unfold left, right; wp_step; (eapply wp_node; [done |]);
    by apply wp_ret.
Qed.

Lemma wp_parent d s q a b par c Q :
  node_at d (nodes s) q a b par c -> Z.even par = true -> Q par s -> wp (parent q) s Q.
Proof.
  intros [v Hv] He HQ. unfold parent. wp_step. eapply wp_node; [done |]. apply wp_ret.
  destruct d; simpl; by rewrite land_parent.
Qed.

Lemma wp_color d s q a b par c Q :
  node_at d (nodes s) q a b par c -> Z.even par = true -> Q c s -> wp (color q) s Q.
Proof.
  intros [v Hv] He HQ. unfold color. wp_step. eapply wp_node; [done |]. apply wp_ret.
  destruct d; simpl; rewrite land_red by done; by destruct c.
Qed.

(** [s'] is [s] but for the nodes of [ws]. *)
Record off (ws : list Z) s s' : Prop := mk_off {
  off_nodes q : q ∉ ws -> nodes s' !! q = nodes s !! q;
  off_objects : objects s' = objects s
}.

Lemma off_refl ws s : off ws s s.
Proof. done. Qed.

Lemma wp_set_node s q n f (Q : unit -> RedBlackTree A -> Prop) :
  nodes s !! q = Some n -> m_object (f n) = m_object n ->
  (forall s', off [q] s s' -> m_root s' = m_root s -> nodes s' !! q = Some (f n) -> Q tt s') ->
  wp (set_node q f) s Q.
Proof.
  intros Hq Hf HQ. unfold set_node. wp_step. eapply wp_node; [done |]. apply wp_mod, HQ; [| done |].
  - constructor; simpl.
    + intros q' Hq'. apply lookup_insert_ne. set_solver.
    + unfold objects. simpl. rewrite fmap_insert, Hf. apply insert_id. by rewrite lookup_fmap, Hq.
  - simpl. apply lookup_insert_eq.
Qed.

(** The writes, with what they change of a node. *)
Lemma wp_setChild d s q p a b par c Q :
  node_at d (nodes s) q a b par c ->
  (forall s', off [q] s s' -> m_root s' = m_root s -> node_at d (nodes s') q p b par c -> Q tt s') ->
  wp (setChild d q p) s Q.
Proof.
  intros [v Hv] HQ. destruct d; simpl; (eapply wp_set_node; [done | done |]);
    intros s' Ho Hr Hn; apply HQ; try done; exists v; exact Hn.
Qed.

Lemma wp_setParent d s q p a b par c Q :
  node_at d (nodes s) q a b par c -> Z.even par = true -> Z.even p = true ->
  (forall s', off [q] s s' -> m_root s' = m_root s -> node_at d (nodes s') q a b p c -> Q tt s') ->
  wp (setParent q p) s Q.
Proof.
  intros [v Hv] He Hp HQ. (eapply wp_set_node; [done | by destruct d |]);
    intros s' Ho Hr Hn; apply HQ; try done; exists v.
  destruct d; simpl in Hn; by rewrite land_red, lor_red in Hn by done.
Qed.

Lemma wp_setColor_node d s q c' a b par c Q :
  node_at d (nodes s) q a b par c -> Z.even par = true ->
  (forall s', off [q] s s' -> m_root s' = m_root s -> node_at d (nodes s') q a b par c' -> Q tt s') ->
  wp (setColor q c') s Q.
Proof.
  intros [v Hv] He HQ. (eapply wp_set_node; [done | by destruct d |]);
    intros s' Ho Hr Hn; apply HQ; try done; exists v.
  destruct d, c'; simpl in Hn; by rewrite ?lor_1, ?land_parent, ?Z.add_0_r in * by done.
Qed.

(** ** Frames *)

Lemma node_off ws s s' d q a b par c :
  off ws s s' -> q ∉ ws -> node_at d (nodes s) q a b par c -> node_at d (nodes s') q a b par c.
Proof. intros Ho Hq [v Hv]. exists v. by rewrite (off_nodes _ _ _ Ho). Qed.

Lemma tree_off ws s s' par t :
  off ws s s' -> (forall q, q ∈ inorder t -> q ∉ ws) -> tree_at (nodes s) par t -> tree_at (nodes s') par t.
Proof.
  intros Ho. revert par. induction t as [| c l IHl q r IHr]; intros par Hd; simpl; [done |].
  intros (Hq & Hn & Hl & Hr). simpl in Hd. split_and!; [done | | |].
  - eapply node_off; [done | | done]. apply Hd. set_solver.
  - apply IHl; [set_solver | done].
  - apply IHr; [set_solver | done].
Qed.

Lemma ctx_off ws s s' C p :
  off ws s s' -> m_root s' = m_root s -> (forall q, q ∈ caddrs C -> q ∉ ws) ->
  ctx_at s C p -> ctx_at s' C p.
Proof.
  intros Ho Hr. revert p. unfold caddrs.
  induction C as [| c q r C IH | c l q C IH]; intros p Hd; simpl in *; [by rewrite Hr |..];
    intros (Hq & Hn & Ht & Hc).
  all: split_and!; [done | eapply node_off; [done | apply Hd; set_solver | done] |
    eapply tree_off; [done | intros; apply Hd; set_solver | done] | apply IH; [set_solver | done]].
Qed.

Lemma tree_addr h par t q : tree_at h par t -> q ∈ inorder t -> addr_ok q.
Proof.
  revert par. induction t as [| c l IHl q' r IHr]; intros par; simpl; [by intros _ ?%elem_of_nil |].
  intros (Hq & _ & Hl & Hr). rewrite elem_of_app, elem_of_cons. intros [? | [-> | ?]]; eauto.
Qed.

Lemma ctx_addr s C p q : ctx_at s C p -> q ∈ caddrs C -> addr_ok q.
Proof.
  revert p. unfold caddrs. induction C as [| c q' r C IH | c l q' C IH]; intros p; simpl;
    [by intros _ ?%elem_of_nil |..]; intros (Hq & _ & Ht & Hc) Hin.
  - rewrite elem_of_app, elem_of_cons, elem_of_app in Hin.
    destruct Hin as [? | [-> | [? | ?]]]; [| done | by eapply tree_addr |]; eapply IH; try done; set_solver.
  - rewrite !elem_of_app, list_elem_of_singleton in Hin.
    destruct Hin as [[? | [? | ->]] | ?]; [| by eapply tree_addr | done |]; eapply IH; try done; set_solver.
Qed.

Lemma cpar_even s C p : ctx_at s C p -> Z.even (cpar C) = true.
Proof. destruct C; simpl; [done | by intros ([_ ?] & _)..]. Qed.

(** ** Compound changes *)

(** The parent of a subtree, if there is one. *)
Lemma wp_reparent s par t x (Q : unit -> RedBlackTree A -> Prop) :
  tree_at (nodes s) par t -> NoDup (inorder t) -> Z.even par = true -> Z.even x = true ->
  (forall s', off (inorder t) s s' -> m_root s' = m_root s -> tree_at (nodes s') x t -> Q tt s') ->
  wp (if truthy (root t) then setParent (root t) x else mret tt) s Q.
Proof.
  intros Ht Hn He Hx HQ. destruct t as [| c l q r]; simpl in *.
  { by apply wp_ret, HQ. }
  destruct Ht as (Hq & Hnd & Hl & Hr). unfold truthy.
  rewrite (proj2 (Z.eqb_neq q 0)) by (destruct Hq; lia). simpl.
  apply NoDup_app in Hn as (_ & Hd & [Hq' _]%NoDup_cons).
  eapply wp_setParent; [done | done | done |]. intros s' Ho Hro Hn'. apply HQ; [| done |].
  - constructor; [| apply Ho]. intros q' Hq''. apply Ho. set_solver.
  - split_and!; [done | done | |]; (eapply tree_off; [done | | done]); set_solver.
Qed.

(** Hanging [other] where [p] hangs. *)
Lemma wp_relink s C p other (Q : unit -> RedBlackTree A -> Prop) :
  ctx_at s C p -> p <> 0 -> p ∉ caddrs C -> NoDup (caddrs C) ->
  (forall s', off (caddrs C) s s' -> ctx_at s' C other -> Q tt s') ->
  wp (relink (cpar C) p other) s Q.
Proof.
  intros Hc Hp Hnp Hn HQ. unfold relink.
  destruct (ctx_side C) as [-> | (d & c & q & b & C' & ->)]; simpl.
  { unfold set_root. apply wp_mod, HQ; [| done]. by constructor. }
  rewrite cpar_hole. rewrite ctx_at_hole in Hc. destruct Hc as (Hq & Hnd & Hb & Hc).
  rewrite caddrs_hole in Hnp. rewrite caddrs_hole in Hn.
  assert (off [q] s s -> truthy q = true) as Htq.
  { intros _. unfold truthy. rewrite (proj2 (Z.eqb_neq q 0)) by (destruct Hq; lia). done. }
  rewrite Htq by done. simpl.
  simpl in Hn. apply NoDup_cons in Hn as [Hqn Hn]. apply NoDup_app in Hn as (_ & Hbc & _).
  assert (wp (setChild d q other) s Q) as Hset.
  { eapply wp_setChild; [done |]. intros s' Ho Hr Hn'. apply HQ.
    - constructor; [| apply Ho]. intros q' Hq'. apply Ho. rewrite caddrs_hole in Hq'. set_solver.
    - rewrite ctx_at_hole. split_and!; [done | done | |].
      + eapply tree_off; [done | | done]. set_solver.
      + eapply ctx_off; [done | done | | done]. set_solver. }
  wp_step. destruct d; simpl in Hset.
  - eapply (wp_child L); [done |]. by rewrite Z.eqb_refl.
  - eapply (wp_child L); [by apply node_at_opp |].
    rewrite (proj2 (Z.eqb_neq p (root b))); [done |].
    destruct b; simpl in *; [done |]. set_solver.
Qed.

(** A left rotation for [L], a right rotation for [R]. *)
Definition rotate (d : side) (x : Z) : M rb_fault (RedBlackTree A) Z :=
  y ← child (opp d) x;
  yl ← child d y;
  setChild (opp d) x yl;;
  yl ← child d y;
  (if truthy yl then setParent yl x else mret tt);;
  xp ← parent x;
  setParent y xp;;
  xp ← parent x;
  relink xp x y;;
  setChild d y x;;
  setParent x y;;
  mret y.

Lemma rotate_L x : leftRotate x = rotate L x.
Proof. done. Qed.
Lemma rotate_R x : rightRotate x = rotate R x.
Proof. done. Qed.

(** The distinctness of the parts of a tree before a rotation. *)
Lemma rotate_parts d c a x c' b y e C :
  NoDup (inorder (br d c a x (br d c' b y e)) ++ caddrs C) ->
  NoDup ([x; y] ++ inorder a ++ inorder b ++ inorder e ++ caddrs C).
Proof.
  apply NoDup_Permutation_proper. rewrite !inorder_br_perm. simpl. apply perm_skip.
  rewrite <- !app_assoc. simpl. rewrite <- Permutation_middle. by rewrite <- !app_assoc.
Qed.

End repr.

(** Carries what is known of [s] over to [s'], which differs in [ws] only. *)
Ltac frame Ho :=
  lazymatch type of Ho with
  | off ?ws ?s ?s' =>
      repeat match goal with
      | H : objects s = _ |- _ => rewrite <- (off_objects _ _ _ Ho) in H
      | H : node_at _ (nodes s) _ _ _ _ _ |- _ => apply (node_off ws s s') in H; [| exact Ho | set_solver]
      | H : tree_at (nodes s) _ _ |- _ => apply (tree_off ws s s') in H; [| exact Ho | set_solver]
      | H : ctx_at s _ _ |- _ => apply (ctx_off ws s s') in H; [| exact Ho | assumption | set_solver]
      end
  end.

(** Splits the distinctness of the parts. *)
Ltac split_nodup Hd :=
  lazymatch type of Hd with
  | NoDup (_ :: _) => apply NoDup_cons in Hd as [? Hd]; split_nodup Hd
  | NoDup (_ ++ _) => apply NoDup_app in Hd as (? & ? & Hd); split_nodup Hd
  | _ => idtac
  end.

Section changes.
Context {A : Type} `{KA : NodeKey A}.

Implicit Types (s : RedBlackTree A) (V : gmap Z A).

Lemma rotate_ok V s d C c a x c' b y e :
  focus V s C (br d c a x (br d c' b y e)) ->
  wp (rotate d x) s (fun r s' => r = y /\ focus V s' C (br d c' (br d c a x b) y e)).
Proof.
  intros [Hob Ht Hc Hn]. pose proof (cpar_even _ _ _ Hc) as Hev. rewrite root_br in Hc.
  rewrite tree_at_br in Ht. destruct Ht as (Hx & Hxn & Ha & Ht).
  rewrite tree_at_br in Ht. destruct Ht as (Hy & Hyn & Hb & He). rewrite root_br in Hxn.
  pose proof (rotate_parts _ _ _ _ _ _ _ _ _ Hn) as Hd.
  simpl in Hd. split_nodup Hd.
  assert (x <> y) as Hxy by set_solver.
  unfold rotate. wp_step. eapply wp_child; [by apply node_at_opp |].
  wp_step. eapply wp_child; [done |].
  wp_step. eapply wp_setChild; [by apply node_at_opp |]. intros s1 Ho1 Hr1 Hxn1.
  apply (node_at_opp d) in Hxn1. clear Hxn. frame Ho1.
  wp_step. eapply wp_child; [done |].
  wp_step. eapply wp_reparent; [exact Hb | done | by destruct Hy | by destruct Hx |].
  intros s2 Ho2 Hr2 Hb2. clear Hb. frame Ho2.
  wp_step. eapply wp_parent; [exact Hxn1 | done |].
  wp_step. eapply wp_setParent; [exact Hyn | by destruct Hx | done |].
  intros s3 Ho3 Hr3 Hyn3. clear Hyn. frame Ho3.
  wp_step. eapply wp_parent; [exact Hxn1 | done |].
  wp_step. eapply wp_relink; [done | destruct Hx; lia | set_solver | done |].
  intros s4 Ho4 Hc4. clear Hc. frame Ho4.
  wp_step. eapply wp_setChild; [exact Hyn3 |]. intros s5 Ho5 Hr5 Hyn5. clear Hyn3. frame Ho5.
  wp_step. eapply wp_setParent; [exact Hxn1 | done | by destruct Hy |].
  intros s6 Ho6 Hr6 Hxn6. clear Hxn1. frame Ho6.
  apply wp_ret. split; [done |]. constructor; [done | | by rewrite root_br | by rewrite <- inorder_rotate].
  rewrite !tree_at_br, root_br. tauto.
Qed.

(** ** Reading at the focus *)

Lemma focus_node V s C d c a q b :
  focus V s C (br d c a q b) ->
  node_at d (nodes s) q (root a) (root b) (cpar C) c /\ Z.even (cpar C) = true /\ addr_ok q.
Proof.
  intros [_ Ht Hc _]. rewrite tree_at_br in Ht. pose proof (cpar_even _ _ _ Hc). tauto.
Qed.

Lemma wp_focus_child V s C d c a q b Q : focus V s C (br d c a q b) -> Q (root a) s -> wp (child d q) s Q.
Proof. intros (Hn & _ & _)%focus_node HQ. by eapply wp_child. Qed.

Lemma wp_focus_opp V s C d c a q b Q : focus V s C (br d c a q b) -> Q (root b) s -> wp (child (opp d) q) s Q.
Proof. rewrite <- br_opp. apply wp_focus_child. Qed.

Lemma wp_focus_parent V s C d c a q b Q : focus V s C (br d c a q b) -> Q (cpar C) s -> wp (parent q) s Q.
Proof. intros (Hn & He & _)%focus_node HQ. by eapply wp_parent. Qed.

Lemma wp_focus_color V s C d c a q b Q : focus V s C (br d c a q b) -> Q c s -> wp (color q) s Q.
Proof. intros (Hn & He & _)%focus_node HQ. by eapply wp_color. Qed.

Lemma wp_focus_setColor V s C d c c' a q b Q :
  focus V s C (br d c a q b) -> (forall s', focus V s' C (br d c' a q b) -> Q tt s') -> wp (setColor q c') s Q.
Proof.
  intros Hf HQ. destruct (focus_node _ _ _ _ _ _ _ _ Hf) as (Hnd & He & Hq).
  destruct Hf as [Hob Ht Hc Hn]. rewrite tree_at_br in Ht. destruct Ht as (_ & _ & Ha & Hb).
  assert (NoDup ([q] ++ inorder a ++ inorder b ++ caddrs C)) as Hd.
  { revert Hn. apply NoDup_Permutation_proper. rewrite inorder_br_perm. by rewrite <- !app_assoc. }
  simpl in Hd. split_nodup Hd. eapply wp_setColor_node; [exact Hnd | done |].
  intros s' Ho Hr Hnd'. clear Hnd. frame Ho. apply HQ. constructor; [done | | by rewrite root_br in * |].
  - rewrite tree_at_br. tauto.
  - by rewrite (inorder_br_color d c' c).
Qed.

Lemma wp_focus_rotate V s C d c a x c' b y e Q :
  focus V s C (br d c a x (br d c' b y e)) ->
  (forall s', focus V s' C (br d c' (br d c a x b) y e) -> Q y s') -> wp (rotate d x) s Q.
Proof.
  intros Hf HQ. eapply wp_mono; [by apply (rotate_ok V) |]. intros r s' [-> Hf']. by apply HQ.
Qed.

(** Colours of subtrees. *)
Definition rootcolor (t : tree) : Color := match t with Leaf => Black | Br c _ _ _ => c end.

Lemma tree_nonnull V s C t : focus V s C t -> truthy (root t) = match t with Leaf => false | _ => true end.
Proof.
  intros [_ Ht _ _]. destruct t as [| c l q r]; [done |]. simpl in *. destruct Ht as ([Hq _] & _).
  unfold truthy. by rewrite (proj2 (Z.eqb_neq q 0)) by lia.
Qed.

Lemma wp_isRed V s C t Q :
  focus V s C t -> Q (bool_decide (rootcolor t = Red)) s -> wp (isRed (root t)) s Q.
Proof.
  intros Hf HQ. unfold isRed. rewrite (tree_nonnull _ _ _ _ Hf).
  destruct t as [| c l q r]; simpl; [by apply wp_ret |].
  wp_step. eapply (wp_focus_color V s C L); [exact Hf |]. by apply wp_ret.
Qed.

Lemma wp_isBlack V s C t Q :
  focus V s C t -> Q (bool_decide (rootcolor t = Black)) s -> wp (isBlack (root t)) s Q.
Proof.
  intros Hf HQ. unfold isBlack. rewrite (tree_nonnull _ _ _ _ Hf).
  destruct t as [| c l q r]; simpl; [by apply wp_ret |].
  wp_step. eapply (wp_focus_color V s C L); [exact Hf |]. by apply wp_ret.
Qed.

(** ** Inserting and unlinking *)

(** A node [y] without a child on one side is replaced by its other child,
    whose parent is then known. *)
Lemma unlink_ok V s C d c t y {B} (K : Z -> M rb_fault (RedBlackTree A) B) (Q : B -> RedBlackTree A -> Prop) :
  focus V s C (br d c t y Leaf) ->
  (forall s', focus V s' C t -> node_at d (nodes s') y (root t) 0 (cpar C) c -> wp (K (cpar C)) s' Q) ->
  wp (xParent ← (if truthy (root t) then setParent (root t) (cpar C);; parent (root t) else mret (cpar C));
      relink (cpar C) y (root t);; K xParent) s Q.
Proof.
  intros Hf HQ. destruct (focus_node _ _ _ _ _ _ _ _ Hf) as (Hnd & He & Hy).
  destruct Hf as [Hob Ht Hc Hn]. rewrite tree_at_br in Ht. destruct Ht as (_ & _ & Ha & _).
  assert (NoDup ([y] ++ inorder t ++ caddrs C)) as Hd.
  { revert Hn. apply NoDup_Permutation_proper. rewrite inorder_br_perm. simpl. by rewrite app_nil_r. }
  simpl in Hd. rewrite root_br in Hc. pose proof Hd as [_ Hd']%NoDup_cons. split_nodup Hd.
  wp_step. apply (wp_mono _ _ (fun r s1 => r = cpar C /\ off (inorder t) s s1 /\ m_root s1 = m_root s /\
                                          tree_at (nodes s1) (cpar C) t)).
  { assert (wp (if truthy (root t) then setParent (root t) (cpar C) else mret tt) s
              (fun _ s1 => off (inorder t) s s1 /\ m_root s1 = m_root s /\ tree_at (nodes s1) (cpar C) t)) as Hw.
    { eapply wp_reparent; [exact Ha | done | by destruct Hy | done |]. auto. }
    destruct t as [| c' l x r]; simpl in *; [by apply wp_ret |]. destruct (truthy x); [| by apply wp_ret].
    wp_step. eapply wp_mono; [exact Hw |]. intros _ s1 (Ho1 & Hr1 & Ht1).
    eapply wp_parent; [apply Ht1 | done | done]. }
  intros xp s1 (-> & Ho1 & Hr1 & Ha1). clear Ha. frame Ho1. wp_step.
  eapply wp_relink; [done | destruct Hy; lia | set_solver | done |].
  intros s2 Ho2 Hc2. clear Hc. frame Ho2. apply HQ; [by constructor | done].
Qed.

(** A new node at an empty place: its parent, then the link to it. *)
Definition link (C : ctx) (z : Z) : M rb_fault (RedBlackTree A) unit :=
  match C with Top => set_root z | CtxL _ q _ _ => setLeft q z | CtxR _ _ q _ => setRight q z end.

Lemma link_ok V s C z (Q : unit -> RedBlackTree A -> Prop) :
  focus V s C Leaf -> z ∉ caddrs C -> addr_ok z -> node_at L (nodes s) z 0 0 (cpar C) Red ->
  (forall s', focus V s' C (Br Red Leaf z Leaf) -> Q tt s') -> wp (link C z) s Q.
Proof.
  intros [Hob _ Hc Hn] Hz Hza Hzn HQ. simpl in Hn.
  destruct (ctx_side C) as [-> | (d & c & q & b & C' & ->)].
  { apply wp_mod, HQ. constructor; simpl; try done. by apply NoDup_singleton. }
  assert (link (hole d c q b C') z = setChild d q z) as -> by by destruct d.
  rewrite cpar_hole in Hzn. rewrite ctx_at_hole in Hc. destruct Hc as (Hq & Hqn & Hb & Hc).
  assert (NoDup ([q] ++ inorder b ++ caddrs C')) as Hd by by rewrite <- (caddrs_hole d c).
  rewrite caddrs_hole in Hz. simpl in Hd. split_nodup Hd.
  eapply wp_setChild; [exact Hqn |]. intros s' Ho Hr Hqn'. clear Hqn. frame Ho.
  apply HQ. constructor; [done | | | ].
  - simpl. by rewrite cpar_hole.
  - rewrite ctx_at_hole. done.
  - simpl. apply NoDup_cons. split; [| done]. by rewrite caddrs_hole.
Qed.

(** The parent of a node of which nothing is known. *)
Lemma wp_setParent_any s q p n (Q : unit -> RedBlackTree A -> Prop) :
  nodes s !! q = Some n -> Z.even p = true ->
  (forall s' a b c, off [q] s s' -> m_root s' = m_root s -> node_at L (nodes s') q a b p c -> Q tt s') ->
  wp (setParent q p) s Q.
Proof.
  intros Hq Hp HQ. eapply wp_set_node; [exact Hq | done |]. intros s' Ho Hr Hn.
  eapply (HQ s' (m_left n) (m_right n) (if truthy (Z.land (m_parentAndRed n) 1) then Red else Black)); [done | done |].
  exists (m_object n). rewrite Hn. do 2 f_equal. change 1 with (Z.ones 1). rewrite Z.land_ones by done.
  pose proof (Z.mod_pos_bound (m_parentAndRed n) (2 ^ 1)) as Hb. change (2 ^ 1) with 2 in *.
  rewrite <- lor_red by done. f_equal. unfold truthy. destruct (Z.eqb_spec (m_parentAndRed n `mod` 2) 0); simpl; lia.
Qed.

Lemma take_place_ok V s C c l z r y (Q : unit -> RedBlackTree A -> Prop) :
  focus V s C (Br c l z r) -> y ∉ inorder (Br c l z r) ++ caddrs C -> addr_ok y -> is_Some (V !! y) ->
  (forall s', focus V s' C (Br c l y r) -> Q tt s') -> wp (take_place y z) s Q.
Proof.
  intros Hf Hyn Hy HVy HQ. destruct (focus_node _ _ _ L _ _ _ _ Hf) as (Hzd & He & Hz).
  destruct Hf as [Hob Ht Hc Hn]. destruct Ht as (_ & _ & Hl & Hr).
  assert (NoDup ([z] ++ inorder l ++ inorder r ++ caddrs C)) as Hd.
  { revert Hn. apply NoDup_Permutation_proper. rewrite (inorder_br_perm L). by rewrite <- !app_assoc. }
  assert (NoDup (inorder (Br c l y r) ++ caddrs C)) as Hn'.
  { simpl in Hn, Hyn |- *. rewrite <- app_assoc in *. simpl in *. revert Hn.
    rewrite <- !Permutation_middle, !NoDup_cons. intros [? ?]. split; [| done]. set_solver. }
  assert (y ∉ [z] ++ inorder l ++ inorder r ++ caddrs C) as Hyn2.
  { simpl in Hyn. set_solver. }
  clear Hyn Hn. simpl in Hd, Hyn2. pose proof Hd as [_ Hd']%NoDup_cons. split_nodup Hd.
  unfold take_place. wp_step. eapply wp_parent; [exact Hzd | done |].
  assert (exists n, nodes s !! y = Some n) as [ny Hny].
  { rewrite <- Hob in HVy. unfold objects in HVy. by rewrite lookup_fmap, fmap_is_Some in HVy. }
  wp_step. eapply wp_setParent_any; [exact Hny | done |]. intros s1 yl yr cy Ho1 Hr1 Hyd1. clear Hny. frame Ho1.
  wp_step. eapply wp_color; [exact Hzd | done |].
  wp_step. eapply wp_setColor_node; [exact Hyd1 | done |]. intros s2 Ho2 Hr2 Hyd2. clear Hyd1. frame Ho2.
  wp_step. eapply (wp_child L); [exact Hzd |].
  wp_step. eapply (wp_setChild L); [exact Hyd2 |]. intros s3 Ho3 Hr3 Hyd3. clear Hyd2. frame Ho3.
  wp_step. eapply (wp_child R); [apply (node_at_opp L), Hzd |].
  wp_step. eapply (wp_setChild R); [apply (node_at_opp L), Hyd3 |]. intros s4 Ho4 Hr4 Hyd4.
  apply (node_at_opp L) in Hyd4. clear Hyd3. frame Ho4.
  wp_step. eapply (wp_child L); [exact Hzd |].
  wp_step. eapply wp_reparent; [exact Hl | done | by destruct Hz | by destruct Hy |].
  intros s5 Ho5 Hr5 Hl5. clear Hl. frame Ho5.
  wp_step. eapply (wp_child R); [apply (node_at_opp L), Hzd |].
  wp_step. eapply wp_reparent; [exact Hr | done | by destruct Hz | by destruct Hy |].
  intros s6 Ho6 Hr6 Hr7. clear Hr. frame Ho6.
  wp_step. eapply wp_parent; [exact Hzd | done |].
  wp_step. eapply (wp_mono _ _ (fun _ s' => s' = s6)).
  { destruct C as [| c' q b C' | c' b q C']; simpl in Hc |- *; unfold truthy.
    - wp_step. apply wp_gets. rewrite Hc. simpl. unfold rb_assert. by rewrite Z.eqb_refl.
    - destruct Hc as ([Hq _] & _). by rewrite (proj2 (Z.eqb_neq q 0)) by lia.
    - destruct Hc as ([Hq _] & _). by rewrite (proj2 (Z.eqb_neq q 0)) by lia. }
  intros _ s6' ->. eapply wp_relink; [exact Hc | destruct Hz; lia | set_solver | done |].
  intros s8 Ho8 Hc8. clear Hc. frame Ho8. apply HQ. constructor; [done | | done | done].
  simpl. split_and!; done.
Qed.

(** ** The root *)

Lemma root_plug C t : C <> Top -> root (plug C t) ∈ caddrs C.
Proof.
  revert t. induction C as [| c q r C IH | c l q C IH]; intros t HC; simpl; [done |..].
  - destruct (ctx_side C) as [-> | (d & c' & q' & b & C' & ->)]; [simpl; unfold caddrs; set_solver |].
    pose proof (IH (Br c t q r) ltac:(by destruct d)). unfold caddrs in *. simpl. set_solver.
  - destruct (ctx_side C) as [-> | (d & c' & q' & b & C' & ->)]; [simpl; unfold caddrs; set_solver |].
    pose proof (IH (Br c l q t) ltac:(by destruct d)). unfold caddrs in *. simpl. set_solver.
Qed.

Lemma focus_root V s C t : focus V s C t -> m_root s = root (plug C t).
Proof. intros Hf%focus_repr. apply Hf. Qed.

Lemma focus_not_root V s d c q b C t : focus V s (hole d c q b C) t -> root t <> m_root s.
Proof.
  intros Hf. rewrite (focus_root _ _ _ _ Hf). pose proof (root_plug (hole d c q b C) t ltac:(by destruct d)) as Hin.
  destruct Hf as [_ Ht Hc Hn]. pose proof (ctx_addr _ _ _ _ Hc Hin) as [Hp _].
  destruct t as [| c' l x r]; simpl; [lia |]. intros Heq. apply NoDup_app in Hn as (_ & Hd & _).
  apply (Hd x); [simpl; set_solver |]. by rewrite Heq at 1.
Qed.

Lemma wp_get_root V s C t Q : focus V s C t -> Q (root (plug C t)) s -> wp get_root s Q.
Proof. intros Hf HQ. apply wp_gets. by rewrite (focus_root _ _ _ _ Hf). Qed.

(** A child is not the other child of its parent. *)
Lemma focus_sibling V s d c q b C t : focus V s (hole d c q b C) t -> t <> Leaf -> root t <> root b.
Proof.
  intros [_ Ht _ Hn] Hne. rewrite caddrs_hole in Hn. destruct t as [| c' l x r]; [done |]. simpl in *.
  destruct Ht as ([Hx _] & _). destruct b as [| c2 l2 y r2]; simpl in *; [lia |]. intros ->.
  apply NoDup_app in Hn as (_ & Hd & _). apply (Hd y); set_solver.
Qed.

(** ** Objects and sizes *)

Definition keyof V (q : Z) : Z := match V !! q with Some v => node_key v | None => 0 end.

Lemma wp_key V s q (Q : Z -> RedBlackTree A -> Prop) :
  objects s = V -> is_Some (V !! q) -> Q (keyof V q) s -> wp (key q) s Q.
Proof.
  intros <- Hs HQ. unfold objects, keyof in *. rewrite lookup_fmap in *. destruct (nodes s !! q) as [n |] eqn:Hq.
  - unfold key. wp_step. eapply wp_node; [exact Hq |]. by apply wp_ret.
  - by destruct Hs.
Qed.

Lemma tree_in_nodes (h : gmap Z (Node A)) par t q : tree_at h par t -> q ∈ inorder t -> is_Some (h !! q).
Proof.
  revert par. induction t as [| c l IHl q' r IHr]; intros par; simpl; [by intros _ ?%elem_of_nil |].
  intros (_ & [v Hv] & Hl & Hr). rewrite elem_of_app, elem_of_cons. intros [? | [-> | ?]]; eauto.
Qed.

Lemma repr_objects_in V s t q : repr V s t -> q ∈ inorder t -> is_Some (V !! q).
Proof.
  intros [<- Ht _ _] Hq. unfold objects. rewrite lookup_fmap, fmap_is_Some. by eapply tree_in_nodes.
Qed.

Lemma nodup_size {B} (m : gmap Z B) (l : list Z) :
  NoDup l -> (forall q, q ∈ l -> is_Some (m !! q)) -> (length l <= size m)%nat.
Proof.
  intros Hn Hl. rewrite <- (size_list_to_set (C := gset Z) l Hn), <- size_dom.
  apply subseteq_size. intros q Hq%elem_of_list_to_set. by apply elem_of_dom, Hl.
Qed.

Lemma repr_size V s t : repr V s t -> (length (inorder t) < fuel_of s)%nat.
Proof.
  intros [_ Ht _ Hn]. unfold fuel_of. apply Nat.lt_succ_r, nodup_size; [done |].
  intros q Hq. by eapply tree_in_nodes.
Qed.
End changes.
