(* ===== verification/RBInsert.v ===== *)
(** * Red-black trees: colours, balance and insertion *)

From stdpp Require Import base numbers list gmap sorting.
From S2P Require Import Prelude RBTree RBRepr.

#[local] Open Scope Z_scope.

(** ** The red-black property

    [rbt t c n]: the root of [t] has colour [c], no red node has a red child,
    and every path to a leaf passes [n] black nodes.  [rbc C c n]: a subtree
    with that colour and black height fits into the context. *)

Inductive rbt : tree -> Color -> nat -> Prop :=
  | rbt_leaf : rbt Leaf Black 0
  | rbt_red l q r n : rbt l Black n -> rbt r Black n -> rbt (Br Red l q r) Red n
  | rbt_black l q r cl cr n : rbt l cl n -> rbt r cr n -> rbt (Br Black l q r) Black (S n).

Inductive rbc : ctx -> Color -> nat -> Prop :=
  | rbc_top n : rbc Top Black n
  | rbc_red d q b C n : rbt b Black n -> rbc C Red n -> rbc (hole d Red q b C) Black n
  | rbc_black d q b C c cb n : rbt b cb n -> rbc C Black (S n) -> rbc (hole d Black q b C) c n.

Lemma rbt_br_red d a q b n : rbt (br d Red a q b) Red n <-> rbt a Black n /\ rbt b Black n.
Proof.
  split.
  - intros Ht. destruct d; simpl in Ht; inversion Ht; subst; done.
  - intros [Ha Hb]. destruct d; by constructor.
Qed.

Lemma rbt_br_black d a q b ca cb n : rbt a ca n -> rbt b cb n -> rbt (br d Black a q b) Black (S n).
Proof. intros Ha Hb. destruct d; by econstructor. Qed.

Lemma rbt_black_inv d a q b c n :
  rbt (br d Black a q b) c n -> exists m ca cb, n = S m /\ c = Black /\ rbt a ca m /\ rbt b cb m.
Proof. intros Ht. destruct d; simpl in Ht; inversion Ht; subst; eauto 10. Qed.

Lemma rbt_color t c n : rbt t c n -> rootcolor t = c.
Proof. by inversion 1. Qed.

Lemma hole_inj d c q b C d' c' q' b' C' :
  hole d c q b C = hole d' c' q' b' C' -> d = d' /\ c = c' /\ q = q' /\ b = b' /\ C = C'.
Proof. destruct d, d'; simpl; inversion 1; subst; done. Qed.

Lemma rbc_red_inv d q b C c n : rbc (hole d Red q b C) c n -> c = Black /\ rbt b Black n /\ rbc C Red n.
Proof.
  intros Hc. remember (hole d Red q b C) as K. destruct Hc as [| d' q' b' C' n Hb HC | d' q' b' C' c cb n Hb HC].
  - by destruct d.
  - apply hole_inj in HeqK as (_ & _ & -> & -> & ->). done.
  - by apply hole_inj in HeqK as (_ & ? & _).
Qed.

Lemma rbc_black_inv d q b C c n : rbc (hole d Black q b C) c n -> (exists cb, rbt b cb n) /\ rbc C Black (S n).
Proof.
  intros Hc. remember (hole d Black q b C) as K. destruct Hc as [| d' q' b' C' n Hb HC | d' q' b' C' c cb n Hb HC].
  - by destruct d.
  - by apply hole_inj in HeqK as (_ & ? & _).
  - apply hole_inj in HeqK as (_ & _ & -> & -> & ->). eauto.
Qed.

(** Where a red subtree fits, the hole is below a black node. *)
Lemma rbc_Red C n :
  rbc C Red n -> exists d q b cb C', C = hole d Black q b C' /\ rbt b cb n /\ rbc C' Black (S n).
Proof. intros Hc. remember Red as c. destruct Hc; try done. eauto 10. Qed.

Lemma rbc_weaken C c n : rbc C c n -> rbc C Black n.
Proof. destruct 1; [constructor | by constructor | by econstructor]. Qed.

Lemma rbt_plug C t c n : rbt t c n -> rbc C c n -> exists m, rbt (plug C t) Black m.
Proof.
  intros Ht Hc. revert t Ht. induction Hc as [n | d q b C n Hb HC IH | d q b C c cb n Hb HC IH];
    intros t Ht; rewrite ?plug_hole.
  - by exists n.
  - apply IH, rbt_br_red. done.
  - by eapply IH, rbt_br_black.
Qed.

Lemma rbt_unplug C t m : rbt (plug C t) Black m -> exists c n, rbt t c n /\ rbc C c n.
Proof.
  revert t m. induction C as [| c q r C IH | c l q C IH]; intros t m Ht; simpl in Ht.
  - exists Black, m. split; [done | constructor].
  - apply IH in Ht as (c' & n & Ht & HC). inversion Ht; subst.
    + exists Black, n. split; [done | by apply (rbc_red L)].
    + exists cl, n0. split; [done | by eapply (rbc_black L)].
  - apply IH in Ht as (c' & n & Ht & HC). inversion Ht; subst.
    + exists Black, n. split; [done | by apply (rbc_red R)].
    + exists cr, n0. split; [done | by eapply (rbc_black R)].
Qed.

Definition blacken (t : tree) : tree := match t with Leaf => Leaf | Br _ l q r => Br Black l q r end.

(** ** Balance *)

Fixpoint height (t : tree) : nat :=
  match t with Leaf => 0 | Br _ l _ r => S (Nat.max (height l) (height r)) end.

Lemma rbt_height t c n :
  rbt t c n -> (height t <= 2 * n + match c with Red => 1 | Black => 0 end)%nat.
Proof. induction 1 as [| | l q r [] [] n ? IHl ? IHr]; simpl; lia. Qed.

Lemma rbt_size t c n : rbt t c n -> (2 ^ n <= S (length (inorder t)))%nat.
Proof.
  induction 1 as [| l q r n ? IHl ? IHr | l q r cl cr n ? IHl ? IHr]; simpl; rewrite ?length_app; simpl; lia.
Qed.

Lemma rbt_balanced t n :
  rbt t Black n -> (height t <= 2 * Nat.log2 (S (length (inorder t))))%nat.
Proof.
  intros Ht. pose proof (rbt_height _ _ _ Ht). pose proof (rbt_size _ _ _ Ht).
  assert (n <= Nat.log2 (S (length (inorder t))))%nat by (apply Nat.log2_le_pow2; lia). simpl in *. lia.
Qed.

(** ** One round of the insertion loop *)

Section insertion.
Context {A : Type} `{KA : NodeKey A}.

Implicit Types (s : RedBlackTree A) (V : gmap Z A).

Definition insert_side (d : side) (x : Z) : M rb_fault (RedBlackTree A) Z :=
  g ← grandparent x; y ← child (opp d) g;
  red ← isRed y;
  if (red : bool) then
    p ← parent x; setColor p Black;;
    setColor y Black;;
    g ← grandparent x; setColor g Red;;
    grandparent x
  else
    p ← parent x; r ← child (opp d) p;
    x ← (if x =? r then p ← parent x; rotate d p;; mret p else mret x);
    p ← parent x; setColor p Black;;
    g ← grandparent x; setColor g Red;;
    g ← grandparent x; rotate (opp d) g;;
    mret x.

Lemma insert_left_side x : insert_left x = insert_side L x.
Proof. done. Qed.
Lemma insert_right_side x : insert_right x = insert_side R x.
Proof. done. Qed.

(** [x] red where a black subtree is expected, all else in order. *)
Record red_at V s (C : ctx) (x : Z) (order : list Z) : Prop := mk_red_at {
  ra_tree : exists d a b n, focus V s C (br d Red a x b) /\ rbt a Black n /\ rbt b Black n /\
                            rbc C Black n /\ inorder (plug C (br d Red a x b)) = order
}.

Lemma wp_grandparent V s d1 c1 p b1 C d c a x b Q :
  focus V s (hole d1 c1 p b1 C) (br d c a x b) -> Q (cpar C) s -> wp (grandparent x) s Q.
Proof.
  intros Hf HQ. unfold grandparent. wp_step. eapply wp_focus_parent; [exact Hf |].
  rewrite cpar_hole. apply focus_out in Hf. eapply wp_focus_parent; [exact Hf | exact HQ].
Qed.

(** The outer grandchild: recolour and rotate. *)
Lemma insert_outer V s d a x b p sb g u C2 (Q : Z -> RedBlackTree A -> Prop) :
  focus V s (hole d Red p sb (hole d Black g u C2)) (br d Red a x b) ->
  (forall s', focus V s' (hole d Black p (br d Red sb g u) C2) (br d Red a x b) -> Q x s') ->
  wp (p ← parent x; setColor p Black;;
      g ← grandparent x; setColor g Red;;
      g ← grandparent x; rotate (opp d) g;;
      mret x) s Q.
Proof.
  intros Hf HQ. wp_step. eapply wp_focus_parent; [exact Hf |]. rewrite cpar_hole.
  apply focus_out in Hf. wp_step. eapply wp_focus_setColor; [exact Hf |]. clear s Hf. intros s Hf.
  apply focus_in in Hf. wp_step. eapply wp_grandparent; [exact Hf |]. rewrite cpar_hole.
  do 2 apply focus_out in Hf. wp_step. eapply wp_focus_setColor; [exact Hf |]. clear s Hf. intros s Hf.
  do 2 apply focus_in in Hf. wp_step. eapply wp_grandparent; [exact Hf |]. rewrite cpar_hole.
  do 2 apply focus_out in Hf. wp_step.
  rewrite <- (br_opp d Red) in Hf. rewrite <- (br_opp d Black) in Hf.
  eapply wp_focus_rotate; [exact Hf |]. clear s Hf. intros s Hf. apply wp_ret, HQ.
  rewrite !br_opp in Hf. by apply focus_in.
Qed.

(** A node seen from either side. *)
Lemma br_side d c l q r : exists a b, Br c l q r = br d c a q b /\ (a = l /\ b = r \/ a = r /\ b = l).
Proof. destruct d; [exists l, r | exists r, l]; eauto. Qed.

Lemma br_any d d' c a q b : exists a' b', br d' c a q b = br d c a' q b' /\ (a' = a /\ b' = b \/ a' = b /\ b' = a).
Proof. destruct d, d'; [exists a, b | exists b, a | exists b, a | exists a, b]; eauto. Qed.

Lemma side_cases (d d' : side) : d' = d \/ d' = opp d.
Proof. destruct d, d'; auto. Qed.

(** The grandparent: its other child is red. *)
Lemma insert_recolor V s d dx a x b p sb g ul y ur C2 (Q : Z -> RedBlackTree A -> Prop) :
  focus V s (hole dx Red p sb (hole d Black g (Br Red ul y ur) C2)) (br d Red a x b) ->
  (forall s', focus V s' C2 (br d Red (br dx Black (br d Red a x b) p sb) g (Br Black ul y ur)) -> Q g s') ->
  wp (p ← parent x; setColor p Black;;
      setColor y Black;;
      g ← grandparent x; setColor g Red;;
      grandparent x) s Q.
Proof.
  intros Hf HQ. wp_step. eapply wp_focus_parent; [exact Hf |]. rewrite cpar_hole.
  apply focus_out in Hf. wp_step. eapply wp_focus_setColor; [exact Hf |]. clear s Hf. intros s Hf.
  apply focus_out in Hf. rewrite <- br_opp in Hf. apply focus_in in Hf.
  wp_step. eapply (wp_focus_setColor V s _ L); [exact Hf |]. clear s Hf. intros s Hf.
  apply focus_out in Hf. rewrite br_opp in Hf. do 2 apply focus_in in Hf.
  wp_step. eapply wp_grandparent; [exact Hf |]. rewrite cpar_hole.
  do 2 apply focus_out in Hf. wp_step. eapply wp_focus_setColor; [exact Hf |]. clear s Hf. intros s Hf.
  do 2 apply focus_in in Hf. eapply wp_grandparent; [exact Hf |]. rewrite cpar_hole.
  do 2 apply focus_out in Hf. by apply HQ.
Qed.

(** What a round promises to the next. *)
Definition round_post V (C : ctx) (order : list Z) (x' : Z) s' : Prop :=
  exists C', red_at V s' C' x' order /\ (cdepth C' < cdepth C)%nat.

Lemma insert_side_ok V s d dx p sb g u C2 a x b n cu order :
  focus V s (hole dx Red p sb (hole d Black g u C2)) (br d Red a x b) ->
  rbt a Black n -> rbt b Black n -> rbt sb Black n -> rbt u cu n -> rbc C2 Black (S n) ->
  inorder (plug (hole dx Red p sb (hole d Black g u C2)) (br d Red a x b)) = order ->
  wp (insert_side d x) s (round_post V (hole dx Red p sb (hole d Black g u C2)) order).
Proof.
  intros Hf Ha Hb Hsb Hu HC Hord. pose proof (focus_out _ _ _ _ _ _ _ _ Hf) as Hf1.
  pose proof (focus_out _ _ _ _ _ _ _ _ Hf1) as Hf2.
  unfold insert_side. wp_step. eapply wp_grandparent; [exact Hf |]. rewrite cpar_hole.
  wp_step. eapply wp_focus_opp; [exact Hf2 |].
  wp_step. pose proof Hf2 as Hfu. rewrite <- br_opp in Hfu. apply focus_in in Hfu.
  eapply wp_isRed; [exact Hfu |]. rewrite (rbt_color _ _ _ Hu). destruct cu; simpl.
  - inversion Hu as [| ul y ur ? Hul Hur |]; subst.
    eapply insert_recolor; [exact Hf |]. intros s' Hf'. exists C2. rewrite !cdepth_hole. split; [| lia].
    constructor. exists d, (br dx Black (br d Red a x b) p sb), (Br Black ul y ur), (S n).
    split_and!; [done | | by econstructor | done |].
    + eapply rbt_br_black; [by apply rbt_br_red | done].
    + rewrite !plug_hole, !inorder_plug. do 2 f_equal. by destruct d, dx.
  - wp_step. eapply wp_focus_parent; [exact Hf |]. rewrite cpar_hole.
    destruct (side_cases d dx) as [-> | ->].
    + wp_step. eapply wp_focus_opp; [exact Hf1 |]. wp_step.
      rewrite (proj2 (Z.eqb_neq x (root sb))).
      2: { pose proof (focus_sibling _ _ _ _ _ _ _ _ Hf) as Hs. rewrite root_br in Hs. apply Hs. by destruct d. }
      apply wp_ret. eapply insert_outer; [exact Hf |]. intros s' Hf'.
      exists (hole d Black p (br d Red sb g u) C2). rewrite !cdepth_hole. split; [| lia].
      constructor. exists d, a, b, n. split_and!; [done | done | done | |].
      * eapply rbc_black; [| done]. by apply rbt_br_red.
      * rewrite <- Hord, !plug_hole, !inorder_plug. f_equal. f_equal. by destruct d; simpl; rewrite <- ?app_assoc.
    + rewrite br_opp in Hf1. wp_step. eapply wp_focus_opp; [exact Hf1 |]. rewrite root_br, Z.eqb_refl.
      wp_step. wp_step. eapply wp_focus_parent; [exact Hf |]. rewrite cpar_hole.
      wp_step. eapply wp_focus_rotate; [exact Hf1 |]. clear s Hf Hf1 Hf2 Hfu. intros s Hf. apply wp_ret.
      apply focus_in in Hf. eapply insert_outer; [exact Hf |]. intros s' Hf'.
      exists (hole d Black x (br d Red b g u) C2). rewrite !cdepth_hole. split; [| lia].
      constructor. exists d, sb, a, n. split_and!; [done | done | done | |].
      * eapply rbc_black; [| done]. by apply rbt_br_red.
      * rewrite <- Hord, !plug_hole, !inorder_plug. f_equal. f_equal.
        by destruct d; simpl; rewrite <- ?app_assoc; simpl; rewrite <- ?app_assoc.
Qed.

(** ** The loop *)

Lemma blacken_root t n : rbt t Black n -> blacken t = t.
Proof. by inversion 1. Qed.

Lemma plug_leaf C t : plug C t = Leaf -> t = Leaf.
Proof. revert t. induction C; simpl; intros t Ht; [done | by apply IHC in Ht..]. Qed.

Definition blackened V (order : list Z) s' : Prop :=
  exists t m, repr V s' t /\ inorder t = order /\ rbt (blacken t) Black m /\ t <> Leaf.

Lemma insert_loop_ok V fuel s C x order :
  red_at V s C x order -> (cdepth C < fuel)%nat ->
  wp (insert_loop fuel x) s (fun _ => blackened V order).
Proof.
  revert s C x. induction fuel as [| fuel IH]; intros s C x [(d0 & a0 & b0 & n & Hf & Ha & Hb & HC & Hord)] Hfuel;
    [lia |]. simpl.
  wp_step. eapply wp_get_root; [exact Hf |].
  destruct (ctx_side C) as [-> | (dx & cp & p & sb & C1 & ->)].
  { simpl in *. rewrite root_br, Z.eqb_refl. apply wp_ret. exists (br d0 Red a0 x b0), (S n).
    split_and!; [by apply focus_top | done | | by destruct d0]. destruct d0; by econstructor. }
  pose proof (focus_not_root _ _ _ _ _ _ _ _ Hf) as Hnr. rewrite root_br, (focus_root _ _ _ _ Hf) in Hnr.
  rewrite (proj2 (Z.eqb_neq _ _) Hnr).
  wp_step. eapply wp_focus_parent; [exact Hf |]. rewrite cpar_hole.
  pose proof (focus_out _ _ _ _ _ _ _ _ Hf) as Hf1.
  wp_step. eapply wp_focus_color; [exact Hf1 |]. destruct cp; simpl.
  2: { apply wp_ret. apply rbc_black_inv in HC as [[cb Hsb] HC].
       destruct (rbt_plug (hole dx Black p sb C1) (br d0 Red a0 x b0) Red n) as [m Hm].
       { by apply rbt_br_red. } { by eapply rbc_black. }
       exists (plug (hole dx Black p sb C1) (br d0 Red a0 x b0)), m.
       split_and!; [by apply focus_repr | done | by rewrite (blacken_root _ _ Hm) |].
       intros He%plug_leaf. by destruct d0. }
  apply rbc_red_inv in HC as (_ & Hsb & (d & g & u & cu & C2 & -> & Hu & HC2)%rbc_Red).
  wp_step. eapply wp_focus_parent; [exact Hf |]. rewrite cpar_hole.
  wp_step. eapply wp_grandparent; [exact Hf |]. rewrite cpar_hole.
  pose proof (focus_out _ _ _ _ _ _ _ _ Hf1) as Hf2. wp_step.
  pose proof (focus_sibling _ _ _ _ _ _ _ _ Hf1) as Hsib. rewrite root_br in Hsib.
  destruct (br_any d d0 Red a0 x b0) as (a & b & Heq & Hab). rewrite Heq in *.
  assert (rbt a Black n /\ rbt b Black n) as [Ha' Hb'] by (destruct Hab as [[-> ->] | [-> ->]]; done).
  assert (wp (insert_side d x) s (round_post V (hole dx Red p sb (hole d Black g u C2)) order)) as Hround
    by by eapply insert_side_ok.
  destruct d.
  - eapply (wp_focus_child V s _ L); [exact Hf2 |]. rewrite root_br, Z.eqb_refl, insert_left_side.
    wp_step. eapply wp_mono; [exact Hround |]. intros x' s' (C' & Hr & Hd). apply (IH s' C' x'); [done | lia].
  - eapply (wp_focus_opp V s _ R); [exact Hf2 |].
    rewrite (proj2 (Z.eqb_neq p (root u))) by (apply Hsib; by destruct dx). rewrite insert_right_side.
    wp_step. eapply wp_mono; [exact Hround |]. intros x' s' (C' & Hr & Hd). apply (IH s' C' x'); [done | lia].
Qed.

(** ** The whole insertion *)

Definition sorted V : list Z -> Prop := StronglySorted (fun a b => keyof V a <= keyof V b).

(** [s] is a red-black tree with the nodes [l] in order. *)
Definition rb_wf V s (l : list Z) : Prop :=
  exists t m, repr V s t /\ inorder t = l /\ rbt t Black m /\ sorted V l.

(** After the nodes with keys that are not greater, before the others. *)
Definition insert_spec V (z : Z) (l : list Z) : list Z :=
  filter (fun q => keyof V q <= keyof V z) l ++ z :: filter (fun q => keyof V z < keyof V q) l.

(** The place [C] is the one for the key [k]. *)
Definition place V (k : Z) (C : ctx) : Prop :=
  Forall (fun q => keyof V q <= k) (cpre C) /\ Forall (fun q => k < keyof V q) (cpost C).

Lemma place_left V k C c t q r :
  place V k C -> sorted V (inorder (plug C (Br c t q r))) -> k < keyof V q -> place V k (CtxL c q r C).
Proof.
  intros [Hpre Hpost] Hs Hk. rewrite inorder_plug in Hs. simpl in Hs.
  apply StronglySorted_app_1_r, StronglySorted_app_1_l, StronglySorted_app_1_r in Hs.
  apply StronglySorted_cons in Hs as [Hq _]. split; simpl; [done |].
  apply Forall_cons. split; [done |]. apply Forall_app. split; [| done].
  eapply Forall_impl; [exact Hq |]. simpl. lia.
Qed.

Lemma place_right V k C c l q t :
  place V k C -> sorted V (inorder (plug C (Br c l q t))) -> keyof V q <= k -> place V k (CtxR c l q C).
Proof.
  intros [Hpre Hpost] Hs Hk. rewrite inorder_plug in Hs. simpl in Hs.
  apply StronglySorted_app_1_r, StronglySorted_app_1_l in Hs. split; simpl; [| done].
  rewrite !Forall_app, Forall_singleton. split_and!; [done | | done].
  apply Forall_forall. intros x Hx.
  pose proof (StronglySorted_app_1_elem_of _ _ _ x q Hs Hx ltac:(set_solver)). simpl in *. lia.
Qed.

Lemma treeInsert_loop_ok V fuel s C t z :
  focus V s C t -> is_Some (V !! z) -> place V (keyof V z) C -> sorted V (inorder (plug C t)) ->
  (length (inorder t) < fuel)%nat ->
  wp (treeInsert_loop fuel z (cpar C) (root t)) s (fun y s' =>
    s' = s /\ exists C', y = cpar C' /\ plug C' Leaf = plug C t /\ place V (keyof V z) C').
Proof.
  revert C t. induction fuel as [| fuel IH]; intros C t Hf Hz HC Hs Hlen; [lia |]. simpl.
  rewrite (tree_nonnull _ _ _ _ Hf). destruct t as [| c l q r]; simpl.
  { apply wp_ret. split; [done |]. by exists C. }
  simpl in Hlen. rewrite length_app in Hlen. simpl in Hlen.
  wp_step. eapply wp_key; [apply Hf | done |]. wp_step. eapply wp_key; [apply Hf | |].
  { eapply repr_objects_in; [by apply focus_repr |]. rewrite inorder_plug. simpl. set_solver. }
  destruct (Z.ltb_spec (keyof V z) (keyof V q)) as [Hlt | Hge].
  - wp_step. eapply (wp_focus_child V s C L); [exact Hf |].
    apply (IH (CtxL c q r C) l); [by apply (focus_in V s L) | done | by eapply place_left | done | lia].
  - wp_step. eapply (wp_focus_opp V s C L); [exact Hf |].
    apply (IH (CtxR c l q C) r); [by apply (focus_in V s R) | done | by eapply place_right | done | lia].
Qed.

Lemma filter_place V k C :
  place V k C ->
  filter (fun q => keyof V q <= k) (cpre C ++ cpost C) = cpre C /\
  filter (fun q => k < keyof V q) (cpre C ++ cpost C) = cpost C.
Proof.
  intros [Hpre Hpost]. rewrite !filter_app.
  assert (forall P (HP : forall q, Decision (P q)) (l : list Z), Forall P l -> filter P l = l) as Hall.
  { intros P HP l. induction 1 as [| x l Hx _ IH]; [done |]. rewrite filter_cons_True by done. by rewrite IH. }
  assert (forall P (HP : forall q, Decision (P q)) (l : list Z), Forall (fun q => ~ P q) l -> filter P l = []) as Hnone.
  { intros P HP l. induction 1 as [| x l Hx _ IH]; [done |]. by rewrite filter_cons_False. }
  split.
  - rewrite Hall by done. rewrite Hnone; [apply app_nil_r |]. eapply Forall_impl; [exact Hpost |]. simpl. lia.
  - rewrite Hnone; [by rewrite Hall |]. eapply Forall_impl; [exact Hpre |]. simpl. lia.
Qed.

Lemma sorted_place V z C :
  place V (keyof V z) C -> sorted V (cpre C ++ cpost C) -> sorted V (cpre C ++ z :: cpost C).
Proof.
  intros [Hpre Hpost] Hs. apply StronglySorted_app in Hs as (Hx & Hl & Hr).
  apply StronglySorted_app. split_and!; [| done |].
  - intros a b Ha Hb. rewrite elem_of_cons in Hb. destruct Hb as [-> | Hb]; [| by apply Hx].
    rewrite Forall_forall in Hpre. by apply Hpre.
  - apply StronglySorted_cons. split; [| done]. eapply Forall_impl; [exact Hpost |]. simpl. lia.
Qed.

(** The walk and the link: the tail of [treeInsert], from a node that has been
    reset. *)
Lemma treeInsert_ok V s t z :
  repr V s t -> sorted V (inorder t) -> z ∉ inorder t -> addr_ok z ->
  node_at L (nodes s) z 0 0 0 Red ->
  wp (treeInsert z) s (fun _ s' => exists C,
    t = plug C Leaf /\ place V (keyof V z) C /\ focus V s' C (Br Red Leaf z Leaf)).
Proof.
  intros Hr Hs Hz Hza Hn. pose proof Hr as Hf. apply focus_top in Hf. unfold treeInsert, rb_assert.
  assert (is_Some (V !! z)) as HVz.
  { destruct Hr as [<- _ _ _]. destruct Hn as [v Hv]. unfold objects. rewrite lookup_fmap, Hv. by eexists. }
  wp_step. eapply (wp_child L); [exact Hn |]. wp_step. apply wp_ret.
  wp_step. eapply (wp_child R); [apply (node_at_opp L), Hn |]. wp_step. apply wp_ret.
  wp_step. eapply wp_parent; [exact Hn | done |]. wp_step. apply wp_ret.
  wp_step. eapply wp_color; [exact Hn | done |]. wp_step. apply wp_ret.
  wp_step. eapply wp_get_root; [exact Hf |]. wp_step. apply wp_gets.
  wp_step. eapply wp_mono.
  { apply (treeInsert_loop_ok V _ s Top t z Hf HVz); [split; constructor | done |]. by eapply repr_size. }
  intros y s' (-> & C & -> & Hp & HC). simpl in Hp. subst t.
  apply focus_repr in Hr. pose proof Hr as Hfl. destruct Hfl as [Hob _ Hc Hnd]. simpl in Hnd.
  rewrite inorder_plug in Hz. change (inorder Leaf) with (@nil Z) in Hz. simpl in Hz. fold (caddrs C) in Hz.
  pose proof (cpar_even _ _ _ Hc) as Hev.
  wp_step. eapply wp_setParent; [exact Hn | done | exact Hev |]. intros s1 Ho1 Hr1 Hn1.
  assert (focus V s1 C Leaf) as Hf1.
  { frame Ho1. by constructor. }
  assert (forall Q, (forall s', focus V s' C (Br Red Leaf z Leaf) -> Q tt s') -> wp (link C z) s1 Q) as Hlink.
  { intros Q HQ. by apply (link_ok V s1 C z Q). }
  destruct C as [| c q r C' | c l q C']; simpl in Hlink |- *.
  - apply Hlink. intros s' Hf'. by exists Top.
  - assert (truthy q = true) as ->.
    { destruct Hc as ([Hq _] & _). unfold truthy. by rewrite (proj2 (Z.eqb_neq q 0)) by lia. }
    simpl. wp_step. eapply wp_key; [apply Hf1 | done |]. wp_step. eapply wp_key; [apply Hf1 | |].
    { eapply repr_objects_in; [by apply focus_repr |]. rewrite inorder_plug. simpl. set_solver. }
    destruct HC as [Hpre Hpost]. simpl in Hpost. apply Forall_cons in Hpost as [Hq Hpost].
    rewrite (proj2 (Z.ltb_lt _ _)) by done. apply Hlink. intros s' Hf'. exists (CtxL c q r C').
    split_and!; [done | | done]. split; [done |]. by apply Forall_cons.
  - assert (truthy q = true) as ->.
    { destruct Hc as ([Hq _] & _). unfold truthy. by rewrite (proj2 (Z.eqb_neq q 0)) by lia. }
    simpl. wp_step. eapply wp_key; [apply Hf1 | done |]. wp_step. eapply wp_key; [apply Hf1 | |].
    { eapply repr_objects_in; [by apply focus_repr |]. rewrite inorder_plug. simpl. set_solver. }
    destruct HC as [Hpre Hpost]. pose proof Hpre as Hpre'. simpl in Hpre'. rewrite !Forall_app, Forall_singleton in Hpre'.
    rewrite (proj2 (Z.ltb_ge _ _)) by tauto. apply Hlink. intros s' Hf'. exists (CtxR c l q C'). done.
Qed.

Lemma insert_ok V s l z :
  rb_wf V s l -> z ∉ l -> addr_ok z -> is_Some (V !! z) ->
  wp (insert z) s (fun _ s' => rb_wf V s' (insert_spec V z l)).
Proof.
  intros (t & m & Hr & <- & Ht & Hs) Hz Hza HVz. unfold insert, reset.
  assert (exists n, nodes s !! z = Some n) as [n Hn].
  { destruct Hr as [<- _ _ _]. unfold objects in HVz. by rewrite lookup_fmap, fmap_is_Some in HVz. }
  wp_step. eapply wp_set_node; [exact Hn | done |]. intros s1 Ho1 Hr1 Hn1.
  assert (repr V s1 t) as Hrep.
  { apply focus_top in Hr. apply focus_top. destruct Hr as [Hob Htr Hc Hnd]. frame Ho1. by constructor. }
  wp_step. eapply wp_mono.
  { apply (treeInsert_ok V s1 t z Hrep Hs Hz Hza). by eexists. }
  intros _ s2 (C & -> & HC & Hf). apply rbt_unplug in Ht as (c & k & Hl & HrC). inversion Hl; subst.
  wp_step. eapply (wp_focus_setColor V s2 C L); [exact Hf |]. clear s2 Hf. intros s2 Hf.
  wp_step. apply wp_gets. wp_step. eapply wp_mono.
  { apply (insert_loop_ok V _ s2 C z (inorder (plug C (Br Red Leaf z Leaf)))).
    - constructor. exists L, Leaf, Leaf, 0%nat. split_and!; [done | constructor | constructor | done | done].
    - pose proof (cdepth_length C). pose proof (repr_size V s2 _ (proj1 (focus_repr _ _ _ _) Hf)) as Hsz.
      rewrite inorder_plug in Hsz. unfold caddrs in *. rewrite !length_app in *. lia. }
  intros _ s3 (t' & m' & Hr' & Hord & Hb & Hne). apply focus_top in Hr'.
  wp_step. eapply wp_get_root; [exact Hr' |]. simpl. destruct t' as [| c l' q r']; [done |].
  eapply (wp_focus_setColor V s3 Top L); [exact Hr' |]. intros s4 Hf4.
  exists (Br Black l' q r'), m'. rewrite inorder_plug in Hs. simpl in Hs.
  assert (insert_spec V z (cpre C ++ cpost C) = cpre C ++ z :: cpost C) as Hspec.
  { unfold insert_spec. by destruct (filter_place V _ C HC) as [-> ->]. }
  rewrite inorder_plug. simpl. rewrite Hspec. simpl in Hord. rewrite Hord, inorder_plug. simpl.
  split_and!; [by apply focus_top | done | done |]. by apply sorted_place.
Qed.
End insertion.
