(* ===== verification/RBRemove.v ===== *)
(** * Red-black trees: removal *)

From stdpp Require Import base numbers list gmap sorting.
From S2P Require Import Prelude RBTree RBRepr RBInsert.

#[local] Open Scope Z_scope.

Section removal.
Context {A : Type} `{KA : NodeKey A}.

Implicit Types (s : RedBlackTree A) (V : gmap Z A).

(** ** The fixup, over a side *)

(** From a black sibling [w] on. *)
Definition fixup_black (d : side) (xParent w : Z) : M rb_fault (RedBlackTree A) (Z * Z) :=
  wl ← child d w; lb ← isBlack wl;
  rb ← (if (lb : bool) then wr ← child (opp d) w; isBlack wr else mret false);
  if (rb : bool) then
    setColor w Red;;
    p ← parent xParent; mret (xParent, p)
  else
    wr ← child (opp d) w; rb ← isBlack wr;
    w ← (if (rb : bool) then
           wl ← child d w; setColor wl Black;; setColor w Red;; rotate (opp d) w;; child (opp d) xParent
         else mret w);
    c ← color xParent; setColor w c;;
    setColor xParent Black;;
    wr ← child (opp d) w; (if truthy wr then setColor wr Black else mret tt);;
    rotate d xParent;;
    x ← get_root; p ← parent x; mret (x, p).

Definition removeFixup_side (d : side) (xParent : Z) : M rb_fault (RedBlackTree A) (Z * Z) :=
  w ← child (opp d) xParent; rb_assert (truthy w);;
  c ← color w;
  w ← (if bool_decide (c = Red) then
         setColor w Black;; setColor xParent Red;; rotate d xParent;; child (opp d) xParent
       else mret w);
  fixup_black d xParent w.

Lemma removeFixup_left_side p : removeFixup_left p = removeFixup_side L p.
Proof. done. Qed.
Lemma removeFixup_right_side p : removeFixup_right p = removeFixup_side R p.
Proof. done. Qed.

(** A subtree whose blackened form has one black node more. *)
Definition almost (t : tree) (n : nat) : Prop :=
  rbt t Black n \/ exists l q r cl cr, t = Br Red l q r /\ rbt l cl n /\ rbt r cr n.

(** [t] lacks one black node where it hangs, all else in order. *)
Record lacks V s (C : ctx) (t : tree) (order : list Z) : Prop := mk_lacks {
  lk_tree : exists n, focus V s C t /\ almost t n /\ rbc C Black (S n) /\ inorder (plug C t) = order
}.

(** What a round promises to the next: the next subtree is red, or higher. *)
Definition fix_post V (k : nat) (order : list Z) (xp : Z * Z) s' : Prop :=
  exists C t, xp = (root t, cpar C) /\ lacks V s' C t order /\ (rootcolor t = Red \/ (cdepth C < k)%nat).

(** Moving to the sibling and back. *)
Lemma focus_sib V s d c q b C t : focus V s (hole d c q b C) t -> focus V s (hole (opp d) c q t C) b.
Proof. intros Hf%focus_out. rewrite <- br_opp in Hf. by apply focus_in in Hf. Qed.

Lemma focus_sib_back V s d c q b C t : focus V s (hole (opp d) c q t C) b -> focus V s (hole d c q b C) t.
Proof. intros Hf%focus_out. rewrite br_opp in Hf. by apply focus_in in Hf. Qed.

(** The whole tree at the end of the last case. *)
Lemma fix_done V k order C t c n s :
  focus V s C t -> rbt t c n -> rbc C c n -> t <> Leaf -> inorder (plug C t) = order -> (0 < k)%nat ->
  wp (x ← get_root; p ← parent x; mret (x, p)) s (fix_post V k order).
Proof.
  intros Hf Ht HC Hne Hord Hk. destruct (rbt_plug C t c n Ht HC) as [m Hm].
  pose proof (proj1 (focus_repr _ _ _ _) Hf) as Hr. apply focus_top in Hr.
  wp_step. eapply wp_get_root; [exact Hr |]. simpl.
  destruct (plug C t) as [| c' l q r] eqn:Hp; [by apply plug_leaf in Hp |].
  wp_step. eapply (wp_focus_parent V s Top L); [exact Hr |]. apply wp_ret.
  exists Top, (Br c' l q r). split_and!; [done | | by right].
  constructor. exists m. split_and!; [done | by left | constructor | done].
Qed.

(** Case 4: the outer nephew is red. *)
Lemma fix_case4 V s k order d cq q a w b C t n ca :
  focus V s (hole d cq q (br d Black a w b) C) t ->
  rbt t Black n -> rbt a ca n -> rbt b Red n ->
  rbc (hole d cq q (br d Black a w b) C) Black (S n) ->
  inorder (plug (hole d cq q (br d Black a w b) C) t) = order -> (0 < k)%nat ->
  wp (c ← color q; setColor w c;;
      setColor q Black;;
      wr ← child (opp d) w; (if truthy wr then setColor wr Black else mret tt);;
      rotate d q;;
      x ← get_root; p ← parent x; mret (x, p)) s (fix_post V k order).
Proof.
  intros Hf Ht Ha Hb HC Hord Hk. inversion Hb as [| bl v br' ? Hbl Hbr |]; subst.
  pose proof (focus_out _ _ _ _ _ _ _ _ Hf) as Hf1.
  wp_step. eapply wp_focus_color; [exact Hf1 |].
  apply focus_sib in Hf. wp_step. eapply wp_focus_setColor; [exact Hf |]. clear s Hf Hf1. intros s Hf.
  apply focus_sib_back in Hf. apply focus_out in Hf.
  wp_step. eapply wp_focus_setColor; [exact Hf |]. clear s Hf. intros s Hf.
  apply focus_in, focus_sib in Hf.
  wp_step. eapply wp_focus_opp; [exact Hf |].
  rewrite <- br_opp in Hf. apply focus_in in Hf. rewrite (tree_nonnull _ _ _ _ Hf).
  wp_step. eapply (wp_focus_setColor V s _ L); [exact Hf |]. clear s Hf. intros s Hf.
  apply focus_out in Hf. rewrite br_opp in Hf. apply focus_sib_back, focus_out in Hf. simpl in Hf.
  wp_step. eapply wp_focus_rotate; [exact Hf |]. clear s Hf. intros s Hf.
  assert (rbt (br d Black t q a) Black (S n)) as H1 by by eapply rbt_br_black.
  assert (rbt (Br Black bl v br') Black (S n)) as H2 by by econstructor.
  assert (exists c m, rbt (br d cq (br d Black t q a) w (Br Black bl v br')) c m /\ rbc C c m) as (c & m & H3 & H4).
  { destruct cq.
    - apply rbc_red_inv in HC as (_ & _ & HC). exists Red, (S n). by split; [apply rbt_br_red |].
    - apply rbc_black_inv in HC as [_ HC]. exists Black, (S (S n)). by split; [eapply rbt_br_black |]. }
  eapply fix_done; [exact Hf | exact H3 | done | by destruct d | | done].
  rewrite plug_hole, !inorder_plug. f_equal. f_equal.
  destruct d; simpl; rewrite <- ?app_assoc; simpl; by rewrite <- ?app_assoc.
Qed.

(** The colour of a nephew. *)
Lemma wp_nephew V s d cq q a w b C t Q :
  focus V s (hole d cq q (br d Black a w b) C) t ->
  Q (bool_decide (rootcolor a = Black)) s -> wp (wl ← child d w; isBlack wl) s Q.
Proof.
  intros Hf HQ. apply focus_sib in Hf. wp_step. eapply wp_focus_child; [exact Hf |].
  apply focus_in in Hf. by eapply wp_isBlack; [exact Hf |].
Qed.

Lemma wp_nephew_opp V s d cq q a w b C t Q :
  focus V s (hole d cq q (br d Black a w b) C) t ->
  Q (bool_decide (rootcolor b = Black)) s -> wp (wl ← child (opp d) w; isBlack wl) s Q.
Proof.
  intros Hf HQ. apply focus_sib in Hf. wp_step. eapply wp_focus_opp; [exact Hf |].
  rewrite <- br_opp in Hf. apply focus_in in Hf. by eapply wp_isBlack; [exact Hf |].
Qed.

(** Case 3: only the inner nephew is red; it becomes the sibling. *)
Lemma fix_case3 V s d cq q al v ar w b C t (Q : Z -> RedBlackTree A -> Prop) :
  focus V s (hole d cq q (br d Black (br d Red al v ar) w b) C) t ->
  (forall s', focus V s' (hole d cq q (br d Black al v (br d Red ar w b)) C) t -> Q v s') ->
  wp (wl ← child d w; setColor wl Black;; setColor w Red;; rotate (opp d) w;; child (opp d) q) s Q.
Proof.
  intros Hf HQ. apply focus_sib in Hf. wp_step. eapply wp_focus_child; [exact Hf |]. rewrite root_br.
  apply focus_in in Hf. wp_step. eapply wp_focus_setColor; [exact Hf |]. clear s Hf. intros s Hf.
  apply focus_out in Hf. wp_step. eapply wp_focus_setColor; [exact Hf |]. clear s Hf. intros s Hf.
  rewrite <- (br_opp d Black), <- (br_opp d Red) in Hf.
  wp_step. eapply wp_focus_rotate; [exact Hf |]. clear s Hf. intros s Hf. rewrite !br_opp in Hf.
  apply focus_sib_back in Hf. pose proof (focus_out _ _ _ _ _ _ _ _ Hf) as Hf1.
  eapply wp_focus_opp; [exact Hf1 |]. rewrite root_br. by apply HQ.
Qed.

Lemma fixup_black_ok V s k order d cq q a w b C t n ca cb :
  focus V s (hole d cq q (br d Black a w b) C) t ->
  rbt t Black n -> rbt a ca n -> rbt b cb n ->
  rbc (hole d cq q (br d Black a w b) C) Black (S n) ->
  inorder (plug (hole d cq q (br d Black a w b) C) t) = order ->
  (cq = Red \/ (cdepth C < k)%nat) -> (0 < k)%nat ->
  wp (fixup_black d q w) s (fix_post V k order).
Proof.
  intros Hf Ht Ha Hb HC Hord Hcq Hk. unfold fixup_black.
  assert (forall Q, Q (bool_decide (ca = Black)) s -> wp (wl ← child d w; isBlack wl) s Q) as Hna.
  { intros Q HQ. eapply wp_nephew; [exact Hf |]. by rewrite (rbt_color _ _ _ Ha). }
  assert (forall Q, Q (bool_decide (cb = Black)) s -> wp (wl ← child (opp d) w; isBlack wl) s Q) as Hnb.
  { intros Q HQ. eapply wp_nephew_opp; [exact Hf |]. by rewrite (rbt_color _ _ _ Hb). }
  rewrite <- bind_assoc_M. wp_step. apply Hna.
  wp_step. apply (wp_mono _ _ (fun r s' => r = bool_decide (ca = Black) && bool_decide (cb = Black) /\ s' = s)).
  { destruct ca; simpl; [by apply wp_ret |]. by apply Hnb. }
  intros r s' [-> ->]. destruct (bool_decide (ca = Black) && bool_decide (cb = Black)) eqn:Hbb.
  - (* both nephews are black *)
    apply andb_true_iff in Hbb as [->%bool_decide_eq_true ->%bool_decide_eq_true].
    apply focus_sib in Hf. wp_step. eapply wp_focus_setColor; [exact Hf |]. clear Hna Hnb s Hf. intros s Hf.
    apply focus_sib_back, focus_out in Hf. wp_step. eapply wp_focus_parent; [exact Hf |]. apply wp_ret.
    assert (rbt (br d Red a w b) Red n) as Hw by by apply rbt_br_red.
    exists C, (br d cq t q (br d Red a w b)). rewrite root_br. split; [done |]. split.
    + constructor. destruct cq.
      * apply rbc_red_inv in HC as (_ & _ & HC). exists n. split_and!; [done | | by eapply rbc_weaken |].
        -- right. destruct d; simpl; eauto 10.
        -- rewrite <- Hord, plug_hole, !inorder_plug. by destruct d.
      * apply rbc_black_inv in HC as [_ HC]. exists (S n). split_and!; [done | | done |].
        -- left. by eapply rbt_br_black.
        -- rewrite <- Hord, plug_hole, !inorder_plug. by destruct d.
    + destruct Hcq as [-> | ?]; [left; by destruct d | by right].
  - rewrite <- bind_assoc_M. wp_step. apply Hnb. clear Hna Hnb. destruct cb; simpl.
    + wp_step. apply wp_ret. by eapply fix_case4.
    + destruct ca; [| done]. inversion Ha as [| a1 v a2 ? Ha1 Ha2 |]; subst.
      destruct (br_side d Red a1 v a2) as (al & ar & Heq & Hlr). rewrite Heq in *.
      assert (rbt al Black n /\ rbt ar Black n) as [Hal Har] by (destruct Hlr as [[-> ->] | [-> ->]]; done).
      wp_step. eapply fix_case3; [exact Hf |]. clear s Hf. intros s Hf.
      assert (rbt (br d Black al v (br d Red ar w b)) Black (S n)) as Hv.
      { eapply rbt_br_black; [done |]. by apply rbt_br_red. }
      eapply fix_case4; [exact Hf | done | done | by apply rbt_br_red | | | done].
      * destruct cq.
        -- apply rbc_red_inv in HC as (_ & _ & HC). by apply rbc_red.
        -- apply rbc_black_inv in HC as [_ HC]. by eapply rbc_black.
      * rewrite !plug_hole, !inorder_plug. f_equal. f_equal.
        destruct d; simpl; rewrite <- ?app_assoc; simpl; by rewrite <- ?app_assoc.
Qed.

Lemma rbt_S_node d t c n : rbt t c (S n) -> exists a w b, t = br d c a w b.
Proof.
  intros Ht. destruct t as [| c' l q r]; [inversion Ht |]. pose proof (rbt_color _ _ _ Ht) as Hc. simpl in Hc.
  subst c'. destruct (br_side d c l q r) as (a & b & -> & _). by exists a, q, b.
Qed.

Lemma rbc_sibling d cq q b C n : rbc (hole d cq q b C) Black (S n) -> exists cw, rbt b cw (S n).
Proof.
  intros HC. destruct cq.
  - apply rbc_red_inv in HC as (_ & Hb & _). by exists Black.
  - by apply rbc_black_inv in HC as [? _].
Qed.

Lemma removeFixup_side_ok V s order d cq q b C t n :
  focus V s (hole d cq q b C) t -> rbt t Black n -> rbc (hole d cq q b C) Black (S n) ->
  inorder (plug (hole d cq q b C) t) = order ->
  wp (removeFixup_side d q) s (fix_post V (cdepth (hole d cq q b C)) order).
Proof.
  intros Hf Ht HC Hord. destruct (rbc_sibling _ _ _ _ _ _ HC) as [cw Hw].
  destruct (rbt_S_node d _ _ _ Hw) as (a & w & e & ->). rewrite cdepth_hole.
  unfold removeFixup_side, rb_assert. pose proof (focus_out _ _ _ _ _ _ _ _ Hf) as Hf1.
  wp_step. eapply wp_focus_opp; [exact Hf1 |]. rewrite root_br.
  pose proof (focus_sib _ _ _ _ _ _ _ _ Hf) as Hfs.
  pose proof (tree_nonnull _ _ _ _ Hfs) as Hnn. rewrite root_br in Hnn.
  replace (truthy w) with true by (rewrite Hnn; by destruct d).
  wp_step. apply wp_ret. wp_step. eapply wp_focus_color; [exact Hfs |]. destruct cw; simpl.
  - (* case 1 *)
    destruct cq; [by apply rbc_red_inv in HC as (_ & Hb%rbt_color & _); destruct d |].
    apply rbc_black_inv in HC as [_ HC].
    apply rbt_br_red in Hw as [Ha He].
    wp_step. wp_step. eapply wp_focus_setColor; [exact Hfs |]. clear s Hf Hf1 Hfs. intros s Hf.
    apply focus_sib_back, focus_out in Hf.
    wp_step. eapply wp_focus_setColor; [exact Hf |]. clear s Hf. intros s Hf.
    wp_step. eapply wp_focus_rotate; [exact Hf |]. clear s Hf. intros s Hf. apply focus_in in Hf.
    eapply wp_focus_opp; [exact Hf |]. apply focus_in in Hf.
    destruct (rbt_S_node d _ _ _ Ha) as (a' & w' & e' & ->). rewrite root_br.
    pose proof Ha as (m & ca & ce & [= ->] & _ & Ha' & He')%rbt_black_inv.
    eapply fixup_black_ok; [exact Hf | done | done | done | | | by left | lia].
    + apply rbc_red; [done |]. by eapply rbc_black.
    + rewrite <- Hord, !plug_hole, !inorder_plug. f_equal. f_equal.
      destruct d; simpl; rewrite <- ?app_assoc; simpl; by rewrite <- ?app_assoc.
  - pose proof Hw as (m & ca & ce & [= ->] & _ & Ha & He)%rbt_black_inv.
    wp_step. apply wp_ret. eapply fixup_black_ok; [exact Hf | done | done | done | done | done | right; lia | lia].
Qed.

(** ** The loop *)

(** The rounds still needed. *)
Definition rounds (C : ctx) (t : tree) : nat := match rootcolor t with Red => 1 | Black => S (cdepth C) end.

Definition fixed V (order : list Z) (x : Z) s' : Prop :=
  exists C t m, x = root t /\ focus V s' C t /\ rbt (plug C (blacken t)) Black m /\ inorder (plug C t) = order.

Lemma almost_black t n : almost t n -> rootcolor t = Black -> rbt t Black n.
Proof. intros [Ht | (l & q & r & cl & cr & -> & _)]; done. Qed.

Lemma lacks_fixed V s C t order :
  lacks V s C t order -> rootcolor t = Red \/ C = Top -> fixed V order (root t) s.
Proof.
  intros [(n & Hf & Ht & HC & Hord)] Hend. destruct (rootcolor t) eqn:Hc.
  - destruct Ht as [Ht%rbt_color | (l & q & r & cl & cr & -> & Hl & Hr)]; [congruence |].
    destruct (rbt_plug C (Br Black l q r) Black (S n)) as [m Hm]; [by econstructor | done |].
    by exists C, (Br Red l q r), m.
  - destruct Hend as [? | ->]; [done |]. apply almost_black in Ht; [| done].
    exists Top, t, n. by rewrite (blacken_root _ _ Ht).
Qed.

Lemma removeFixup_loop_ok V fuel s C t order :
  lacks V s C t order -> (rounds C t <= fuel)%nat ->
  wp (removeFixup_loop fuel (root t) (cpar C)) s (fixed V order).
Proof.
  revert s C t. induction fuel as [| fuel IH]; intros s C t Hl Hfuel.
  { unfold rounds in Hfuel. destruct (rootcolor t); lia. }
  pose proof Hl as [(n & Hf & Ht & HC & Hord)]. simpl.
  wp_step. eapply wp_get_root; [exact Hf |].
  destruct (ctx_side C) as [-> | (d & cq & q & b & C' & ->)].
  { simpl. rewrite Z.eqb_refl. simpl. wp_step. wp_step. apply wp_ret. apply lacks_fixed with (C := Top); auto. }
  pose proof (focus_not_root _ _ _ _ _ _ _ _ Hf) as Hnr. rewrite (focus_root _ _ _ _ Hf) in Hnr.
  rewrite (proj2 (Z.eqb_neq _ _) Hnr). simpl. wp_step. eapply wp_isBlack; [exact Hf |].
  destruct (rootcolor t) eqn:Hc; simpl; [apply wp_ret, lacks_fixed with (C := hole d cq q b C'); auto |].
  apply almost_black in Ht; [| done]. rewrite cpar_hole.
  pose proof (removeFixup_side_ok V s order d cq q b C' t n Hf Ht HC Hord) as Hround.
  assert (forall xp s', fix_post V (cdepth (hole d cq q b C')) order xp s' ->
            wp (let '(x', p') := xp in removeFixup_loop fuel x' p') s' (fixed V order)) as Hnext.
  { intros xp s' (C2 & t2 & -> & Hl2 & Hdec). apply IH; [done |]. unfold rounds in *. rewrite Hc in Hfuel.
    destruct Hdec as [-> | Hlt]; [destruct fuel; [rewrite cdepth_hole in Hfuel |]; lia |].
    destruct (rootcolor t2); lia. }
  pose proof (focus_out _ _ _ _ _ _ _ _ Hf) as Hf1. destruct (rbc_sibling _ _ _ _ _ _ HC) as [cw Hw].
  wp_step. destruct d.
  - eapply (wp_focus_child V s _ L); [exact Hf1 |]. rewrite Z.eqb_refl, removeFixup_left_side.
    wp_step. eapply wp_mono; [exact Hround | exact Hnext].
  - eapply (wp_focus_opp V s _ R); [exact Hf1 |]. rewrite (proj2 (Z.eqb_neq (root t) (root b))).
    2: { destruct t as [| c' l x r]; [| by apply (focus_sibling _ _ _ _ _ _ _ _ Hf)].
         destruct (rbt_S_node L _ _ _ Hw) as (a & w & e & ->). apply focus_sib in Hf.
         pose proof (tree_nonnull _ _ _ _ Hf) as Hnn. simpl in *. unfold truthy in Hnn. zbool. done. }
    rewrite removeFixup_right_side. wp_step. eapply wp_mono; [exact Hround | exact Hnext].
Qed.

Lemma removeFixup_ok V s C t order :
  lacks V s C t order ->
  wp (removeFixup (root t) (cpar C)) s (fun _ s' => exists t' m, repr V s' t' /\ rbt t' Black m /\ inorder t' = order).
Proof.
  intros Hl. pose proof Hl as [(n & Hf & _)]. unfold removeFixup. wp_step. apply wp_gets. wp_step.
  eapply wp_mono; [apply (removeFixup_loop_ok V _ s C t order Hl) |].
  { pose proof (repr_size V s _ (proj1 (focus_repr _ _ _ _) Hf)) as Hsz. pose proof (cdepth_length C) as Hd.
    rewrite inorder_plug in Hsz. unfold caddrs, rounds, fuel_of in *. rewrite !length_app in *.
    destruct (rootcolor t); lia. }
  intros x s' (C' & t' & m & -> & Hf' & Hm & <-). rewrite (tree_nonnull _ _ _ _ Hf').
  destruct t' as [| c l q r].
  - apply wp_ret. exists (plug C' Leaf), m. split_and!; [by apply focus_repr | done | done].
  - eapply (wp_focus_setColor V s' C' L); [exact Hf' |]. intros s2 Hf2. exists (plug C' (Br Black l q r)), m.
    split_and!; [by apply focus_repr | done |]. by rewrite !inorder_plug.
Qed.

(** ** The minimum of a subtree *)

Lemma treeMinimum_loop_ok V fuel s C t :
  focus V s C t -> t <> Leaf -> (length (inorder t) < fuel)%nat ->
  wp (treeMinimum_loop fuel (root t)) s (fun q s' => s' = s /\ exists C' c r,
    plug C t = plug C' (Br c Leaf q r) /\ cpre C' = cpre C).
Proof.
  revert C t. induction fuel as [| fuel IH]; intros C t Hf Hne Hlen; [lia |]. simpl.
  destruct t as [| c l q r]; [done |]. simpl in Hlen. rewrite length_app in Hlen. simpl in Hlen.
  wp_step. eapply (wp_focus_child V s C L); [exact Hf |].
  pose proof (focus_in V s L c q r C l Hf) as Hfl. rewrite (tree_nonnull _ _ _ _ Hfl).
  destruct l as [| c' l' q' r'].
  - apply wp_ret. split; [done |]. by exists C, c, r.
  - eapply wp_mono; [apply (IH (CtxL c q r C)); [done | done | lia] |]. done.
Qed.

Lemma treeMinimum_ok V s C t :
  focus V s C t -> t <> Leaf ->
  wp (treeMinimum (root t)) s (fun q s' => s' = s /\ exists C' c r,
    plug C t = plug C' (Br c Leaf q r) /\ cpre C' = cpre C).
Proof.
  intros Hf Hne. unfold treeMinimum. wp_step. apply wp_gets. apply (treeMinimum_loop_ok V); [done | done |].
  pose proof (repr_size V s _ (proj1 (focus_repr _ _ _ _) Hf)) as Hsz. rewrite inorder_plug, !length_app in Hsz. lia.
Qed.

(** ** Unlinking a node with at most one child *)

Definition removed V (order : list Z) s' : Prop := exists t m, repr V s' t /\ rbt t Black m /\ inorder t = order.

(** The colours once [y] is gone. *)
Lemma unlink_fix V s C d c t y m order :
  rbt (plug C (br d c t y Leaf)) Black m -> focus V s C t ->
  node_at d (nodes s) y (root t) 0 (cpar C) c -> inorder (plug C t) = order ->
  wp (c ← color y; if bool_decide (c = Black) then removeFixup (root t) (cpar C) else mret tt) s
    (fun _ => removed V order).
Proof.
  intros Hm Hf Hy Hord. apply rbt_unplug in Hm as (cb & n & Ht & HC).
  pose proof (cpar_even _ _ _ (fc_ctx _ _ _ _ Hf)) as He.
  wp_step. eapply wp_color; [exact Hy | done |]. destruct c; simpl.
  - pose proof (rbt_color _ _ _ Ht) as Hc. replace cb with Red in * by (by destruct d).
    apply rbt_br_red in Ht as [Ht _]. apply rbc_weaken in HC.
    destruct (rbt_plug C t Black n Ht HC) as [m' Hm']. apply wp_ret. exists (plug C t), m'.
    split_and!; [by apply focus_repr | done | done].
  - apply rbt_black_inv in Ht as (k & ct & cl & -> & -> & Ht & _).
    apply removeFixup_ok. constructor. exists k. split_and!; [done | | done | done].
    destruct ct; [right | by left]. inversion Ht; subst. eauto 10.
Qed.

Definition remove_spec (z : Z) (l : list Z) : list Z := filter (fun q => q <> z) l.

Lemma remove_split z l1 l2 : NoDup (l1 ++ z :: l2) -> remove_spec z (l1 ++ z :: l2) = l1 ++ l2.
Proof.
  intros (H1 & Hd & [Hz H2]%NoDup_cons)%NoDup_app. unfold remove_spec. rewrite filter_app.
  rewrite filter_cons_False by auto.
  assert (forall l : list Z, z ∉ l -> filter (fun q => q <> z) l = l) as Hid.
  { induction l as [| x l IH]; [done |]. intros Hx. rewrite filter_cons_True by set_solver. rewrite IH; set_solver. }
  rewrite !Hid; [done | done |]. intros Hin. apply (Hd z Hin). set_solver.
Qed.

Lemma sorted_removed V z l1 l2 : sorted V (l1 ++ z :: l2) -> sorted V (l1 ++ l2).
Proof.
  intros (Hx & H1 & [_ H2]%StronglySorted_cons)%StronglySorted_app. apply StronglySorted_app.
  split_and!; [| done | done]. intros a b Ha Hb. apply Hx; [done | set_solver].
Qed.

(** The part of [remove] after [y] is chosen. *)
Definition remove_tail (z y : Z) : M rb_fault (RedBlackTree A) Z :=
  yl ← left y;
  x ← (if truthy yl then mret yl else right y);
  yp ← parent y;
  xParent ← (if truthy x then setParent x yp;; parent x else mret yp);
  relink yp y x;;
  (if negb (y =? z) then
     c ← color y;
     (if bool_decide (c = Black) then removeFixup x xParent else mret tt);;
     take_place y z
   else
     c ← color y;
     if bool_decide (c = Black) then removeFixup x xParent else mret tt);;
  mret z.

Lemma wp_remove V s C c l z r Q :
  focus V s C (Br c l z r) ->
  wp (y ← (if negb (truthy (root l)) || negb (truthy (root r)) then mret z else successor z);
      remove_tail z y) s Q ->
  wp (remove z) s Q.
Proof.
  intros Hf HQ. pose proof (focus_node _ _ _ L _ _ _ _ Hf) as (Hn & He & Hz).
  assert (truthy z = true) as Htz by (unfold truthy; by rewrite (proj2 (Z.eqb_neq z 0)) by (destruct Hz; lia)).
  unfold remove, rb_assert. rewrite Htz. wp_step. apply wp_ret.
  wp_step. eapply wp_parent; [exact Hn | done |]. wp_step. eapply wp_get_root; [exact Hf |].
  assert (truthy (cpar C) || (z =? root (plug C (Br c l z r))) = true) as ->.
  { destruct (ctx_side C) as [-> | (d' & c' & q & b & C' & ->)]; simpl; [by rewrite Z.eqb_refl |].
    rewrite cpar_hole. destruct Hf as [_ _ Hc _]. apply ctx_at_hole in Hc as ([Hq _] & _).
    unfold truthy. by rewrite (proj2 (Z.eqb_neq q 0)) by lia. }
  wp_step. apply wp_ret.
  wp_step. eapply (wp_focus_child V s C L); [exact Hf |]. wp_step. eapply (wp_focus_opp V s C L); [exact Hf |].
  exact HQ.
Qed.

(** Up to the fixup: [y] unlinked. *)
Lemma wp_remove_tail V s C d c t z y Q :
  focus V s C (br d c t y Leaf) ->
  (forall s', focus V s' C t -> node_at d (nodes s') y (root t) 0 (cpar C) c ->
     wp ((if negb (y =? z) then
            c ← color y;
            (if bool_decide (c = Black) then removeFixup (root t) (cpar C) else mret tt);;
            take_place y z
          else
            c ← color y;
            if bool_decide (c = Black) then removeFixup (root t) (cpar C) else mret tt);;
         mret z) s' Q) ->
  wp (remove_tail z y) s Q.
Proof.
  intros Hf HQ. pose proof (focus_node _ _ _ _ _ _ _ _ Hf) as (Hn & He & Hy).
  assert (truthy (root t) = match t with Leaf => false | _ => true end) as Htr.
  { apply focus_in in Hf. by apply (tree_nonnull _ _ _ _ Hf). }
  unfold remove_tail. wp_step.
  apply (wp_mono _ _ (fun yl s' => s' = s /\ yl = match d with L => root t | R => 0 end)).
  { destruct d; (eapply (wp_child L); [exact Hn |]; done) || (eapply (wp_child L); [apply (node_at_opp R), Hn |]; done). }
  intros yl s' [-> ->]. wp_step.
  apply (wp_mono _ _ (fun x s' => s' = s /\ x = root t)).
  { destruct d; simpl.
    - rewrite Htr. destruct t; [| by apply wp_ret]. eapply (wp_child R); [apply (node_at_opp L), Hn |]. done.
    - eapply (wp_child R); [exact Hn |]. done. }
  intros x s' [-> ->]. wp_step. eapply wp_parent; [exact Hn | done |].
  eapply unlink_ok; [exact Hf |]. exact HQ.
Qed.

(** [remove] where the node itself is unlinked. *)
Lemma remove_self V s C d c t z m Q :
  focus V s C (br d c t z Leaf) -> rbt (plug C (br d c t z Leaf)) Black m ->
  (forall s', removed V (cpre C ++ inorder t ++ cpost C) s' -> Q z s') -> wp (remove_tail z z) s Q.
Proof.
  intros Hf Hm HQ. eapply wp_remove_tail; [exact Hf |]. intros s' Hf' Hn. rewrite Z.eqb_refl. simpl.
  wp_step. eapply wp_mono; [by eapply unlink_fix; [exact Hm | exact Hf' | exact Hn | apply inorder_plug] |].
  intros [] s2 Hr. apply wp_ret. by apply HQ.
Qed.

(** The same place of two splits of a list. *)
Lemma split_same (z : Z) l1 l2 k1 k2 :
  NoDup (l1 ++ z :: l2) -> l1 ++ z :: l2 = k1 ++ z :: k2 -> l1 = k1 /\ l2 = k2.
Proof.
  revert k1. induction l1 as [| x l1 IH]; intros [| y k1] Hn He; simpl in *.
  - by injection He as ->.
  - injection He as <- ->. apply NoDup_cons in Hn as [Hn _]. set_solver.
  - injection He as -> <-. apply NoDup_cons in Hn as [Hn _]. set_solver.
  - injection He as <- He. apply NoDup_cons in Hn as [_ Hn]. by destruct (IH k1 Hn He) as [-> ->].
Qed.

(** [y] in the place of [z]. *)
Lemma removed_take_place V s z y l1 l2 (Q : unit -> RedBlackTree A -> Prop) :
  removed V (l1 ++ z :: l2) s -> y ∉ l1 ++ z :: l2 -> addr_ok y -> is_Some (V !! y) ->
  (forall s', removed V (l1 ++ y :: l2) s' -> Q tt s') -> wp (take_place y z) s Q.
Proof.
  intros (t & m & Hr & Hm & Hord) Hy Hya HVy HQ.
  destruct (tree_split z t) as (C & c & l & r & ->); [rewrite Hord; set_solver |].
  pose proof Hr as Hf. apply focus_repr in Hf. rewrite inorder_plug in Hord. simpl in Hord.
  assert (NoDup (l1 ++ z :: l2)) as Hnd.
  { rewrite <- Hord. destruct Hr as [_ _ _ Hn]. by rewrite inorder_plug in Hn. }
  rewrite <- app_assoc, app_assoc in Hord. simpl in Hord. pose proof Hnd as Hnd'. rewrite <- Hord in Hnd'.
  apply split_same in Hord as [<- <-]; [| done].
  eapply take_place_ok; [exact Hf | | done | done |].
  { unfold caddrs. simpl. set_solver. }
  intros s' Hf'. apply HQ. apply rbt_unplug in Hm as (c' & n & Ht & HC).
  assert (rbt (Br c l y r) c' n) as Ht' by (inversion Ht; subst; by econstructor).
  destruct (rbt_plug C _ _ _ Ht' HC) as [m' Hm']. exists (plug C (Br c l y r)), m'.
  split_and!; [by apply focus_repr | done |]. rewrite inorder_plug. simpl. by rewrite <- !app_assoc.
Qed.

Lemma rb_remove_ok V s l z :
  rb_wf V s l -> z ∈ l -> wp (remove z) s (fun r s' => r = z /\ rb_wf V s' (remove_spec z l)).
Proof.
  intros (t & m & Hr & <- & Hm & Hs) Hz. destruct (tree_split z t Hz) as (C & c & tl & tr & ->).
  pose proof Hr as Hf. apply focus_repr in Hf.
  assert (inorder (plug C (Br c tl z tr)) = (cpre C ++ inorder tl) ++ z :: (inorder tr ++ cpost C)) as Hord.
  { rewrite inorder_plug. simpl. by rewrite <- !app_assoc. }
  pose proof (repr_nodup _ _ _ Hr) as Hnd. rewrite Hord in Hnd, Hs.
  assert (forall s', removed V ((cpre C ++ inorder tl) ++ inorder tr ++ cpost C) s' ->
            z = z /\ rb_wf V s' (remove_spec z (inorder (plug C (Br c tl z tr))))) as Hdone.
  { intros s' (t' & m' & Hr' & Hm' & Ho'). split; [done |]. exists t', m'. rewrite Hord, remove_split by done.
    split_and!; [done | done | done |]. by apply sorted_removed in Hs. }
  eapply wp_remove; [exact Hf |].
  pose proof (tree_nonnull _ _ _ _ (focus_in V s L _ _ _ _ _ Hf)) as Hnl.
  pose proof (tree_nonnull _ _ _ _ (focus_in V s R _ _ _ _ _ Hf)) as Hnr. rewrite Hnl, Hnr.
  destruct tl as [| cl ll ql rl].
  { wp_step. simpl. apply wp_ret. eapply (remove_self V s C R c tr); [exact Hf | exact Hm |].
    intros s' Hrem. apply Hdone. simpl. by rewrite app_nil_r. }
  destruct tr as [| cr lr qr rr].
  { wp_step. simpl. apply wp_ret. eapply (remove_self V s C L c (Br cl ll ql rl)); [exact Hf | exact Hm |].
    intros s' Hrem. apply Hdone. simpl in *. by rewrite <- app_assoc. }
  remember (Br cl ll ql rl) as tl. remember (Br cr lr qr rr) as tr. simpl. unfold successor.
  wp_step. wp_step. eapply (wp_focus_opp V s C L); [exact Hf |]. rewrite Hnr, Heqtr. rewrite <- Heqtr.
  eapply wp_mono.
  { apply (treeMinimum_ok V s (CtxR c tl z C) tr); [by apply (focus_in V s R) | by subst]. }
  intros y s' (-> & C' & cy & r' & Hpl & Hpre). simpl in Hpl, Hpre.
  rewrite Hpl in Hm, Hord. apply focus_repr in Hf. rewrite Hpl in Hf. apply focus_repr in Hf.
  rewrite inorder_plug in Hord. simpl in Hord. rewrite Hpre, <- !app_assoc in Hord. simpl in Hord.
  do 2 apply app_inv_head in Hord. injection Hord as Hord. rewrite <- Hord in *.
  assert (y ∉ (cpre C ++ inorder tl) ++ z :: inorder r' ++ cpost C') as Hy.
  { revert Hnd. clear. rewrite !NoDup_app, NoDup_cons, NoDup_cons. set_solver. }
  pose proof (focus_node _ _ _ L _ _ _ _ Hf) as (_ & _ & Hya).
  assert (is_Some (V !! y)) as HVy.
  { eapply repr_objects_in; [exact Hr |]. rewrite Hpl, inorder_plug. simpl. set_solver. }
  eapply (wp_remove_tail V s C' R cy r'); [exact Hf |]. intros s' Hf' Hn'.
  rewrite (proj2 (Z.eqb_neq y z)) by set_solver. simpl. wp_step. rewrite <- bind_assoc_M. wp_step.
  eapply wp_mono.
  { eapply (unlink_fix V s' C' R); [exact Hm | exact Hf' | exact Hn' | apply inorder_plug]. }
  intros [] s2 Hrem. rewrite Hpre, <- !app_assoc in Hrem. simpl in Hrem. rewrite app_assoc in Hrem.
  eapply removed_take_place; [exact Hrem | done | done | done |].
  intros s3 Hr3. apply wp_ret. by apply Hdone.
Qed.
End removal.
