(* ===== verification/RBFind.v ===== *)
(** * Red-black trees: searching and walking in order *)

From stdpp Require Import base numbers list gmap sorting.
From S2P Require Import Prelude RBTree RBRepr RBInsert RBRemove.

#[local] Open Scope Z_scope.

(** The first and the last address of a list, null when it is empty. *)
Definition headz (l : list Z) : Z := default 0 (head l).
Definition lastz (l : list Z) : Z := default 0 (list.last l).

Lemma lastz_snoc l x : lastz (l ++ [x]) = x.
Proof. unfold lastz. by rewrite last_snoc. Qed.

Section find.
Context {A : Type} `{KA : NodeKey A}.

Implicit Types (s : RedBlackTree A) (V : gmap Z A).

(** ** Searching

    The part of the order outside the subtree has keys below or above [k]. *)

Definition around V (k : Z) (C : ctx) : Prop :=
  Forall (fun q => keyof V q < k) (cpre C) /\ Forall (fun q => k < keyof V q) (cpost C).

Lemma around_left V k C c t q r :
  around V k C -> sorted V (inorder (plug C (Br c t q r))) -> k < keyof V q -> around V k (CtxL c q r C).
Proof.
  intros [Hpre Hpost] Hs Hk. rewrite inorder_plug in Hs. simpl in Hs.
  apply StronglySorted_app_1_r, StronglySorted_app_1_l, StronglySorted_app_1_r in Hs.
  apply StronglySorted_cons in Hs as [Hq _]. split; simpl; [done |].
  apply Forall_cons. split; [done |]. apply Forall_app. split; [| done].
  eapply Forall_impl; [exact Hq |]. simpl. lia.
Qed.

Lemma around_right V k C c l q t :
  around V k C -> sorted V (inorder (plug C (Br c l q t))) -> keyof V q < k -> around V k (CtxR c l q C).
Proof.
  intros [Hpre Hpost] Hs Hk. rewrite inorder_plug in Hs. simpl in Hs.
  apply StronglySorted_app_1_r, StronglySorted_app_1_l in Hs. split; simpl; [| done].
  rewrite !Forall_app, Forall_singleton. split_and!; [done | | done].
  apply Forall_forall. intros x Hx.
  pose proof (StronglySorted_app_1_elem_of _ _ _ x q Hs Hx ltac:(set_solver)). simpl in *. lia.
Qed.

(** A search ends at a node with the key or at the empty place of the key. *)
Definition found V (k : Z) (l : list Z) (r : Z) (missing : list Z -> list Z -> Z) : Prop :=
  (r ∈ l /\ keyof V r = k) \/
  exists l1 l2, l = l1 ++ l2 /\ r = missing l1 l2 /\
    Forall (fun q => keyof V q < k) l1 /\ Forall (fun q => k < keyof V q) l2.

Lemma found_leaf V k C missing :
  around V k C -> found V k (inorder (plug C Leaf)) (missing (cpre C) (cpost C)) missing.
Proof. intros [H1 H2]. right. exists (cpre C), (cpost C). by rewrite inorder_plug. Qed.

Lemma focus_key V s C c l q r Q :
  focus V s C (Br c l q r) -> Q (keyof V q) s -> wp (key q) s Q.
Proof.
  intros Hf HQ. eapply wp_key; [apply Hf | | done]. eapply repr_objects_in; [by apply focus_repr |].
  rewrite inorder_plug. simpl. set_solver.
Qed.

Lemma found_here V k C c l q r missing :
  keyof V q = k -> found V k (inorder (plug C (Br c l q r))) q missing.
Proof. intros Hk. left. split; [| done]. rewrite inorder_plug. simpl. set_solver. Qed.

Lemma findExact_loop_ok V fuel s C t k :
  focus V s C t -> around V k C -> sorted V (inorder (plug C t)) -> (height t < fuel)%nat ->
  wp (findExact_loop fuel k (root t)) s (fun r s' => s' = s /\ found V k (inorder (plug C t)) r (fun _ _ => 0)).
Proof.
  revert C t. induction fuel as [| fuel IH]; intros C t Hf HC Hs Hlen; [lia |]. simpl.
  rewrite (tree_nonnull _ _ _ _ Hf). destruct t as [| c l q r]; simpl.
  { apply wp_ret. split; [done |]. apply (found_leaf V k C (fun _ _ => 0) HC). }
  simpl in Hlen. wp_step. eapply focus_key; [exact Hf |].
  destruct (Z.eqb_spec (keyof V q) k) as [Hk | Hk]; [apply wp_ret; split; [done | by apply found_here] |].
  destruct (Z.ltb_spec k (keyof V q)).
  - wp_step. eapply (wp_focus_child V s C L); [exact Hf |].
    apply (IH (CtxL c q r C) l); [by apply (focus_in V s L) | by eapply around_left | done | lia].
  - wp_step. eapply (wp_focus_opp V s C L); [exact Hf |].
    apply (IH (CtxR c l q C) r); [by apply (focus_in V s R) | eapply around_right; [done | done | lia] | done | lia].
Qed.

Lemma findLeast_loop_ok V fuel s C t k :
  focus V s C t -> around V k C -> sorted V (inorder (plug C t)) -> (height t < fuel)%nat ->
  wp (findLeastGreaterThanOrEqual_loop fuel k (headz (cpost C)) (root t)) s
    (fun r s' => s' = s /\ found V k (inorder (plug C t)) r (fun _ l2 => headz l2)).
Proof.
  revert C t. induction fuel as [| fuel IH]; intros C t Hf HC Hs Hlen; [lia |]. simpl.
  rewrite (tree_nonnull _ _ _ _ Hf). destruct t as [| c l q r]; simpl.
  { apply wp_ret. split; [done |]. apply (found_leaf V k C (fun _ l2 => headz l2) HC). }
  simpl in Hlen. wp_step. eapply focus_key; [exact Hf |].
  destruct (Z.eqb_spec (keyof V q) k) as [Hk | Hk]; [apply wp_ret; split; [done | by apply found_here] |].
  destruct (Z.ltb_spec (keyof V q) k).
  - wp_step. eapply (wp_focus_opp V s C L); [exact Hf |].
    apply (IH (CtxR c l q C) r); [by apply (focus_in V s R) | by eapply around_right | done | lia].
  - wp_step. eapply (wp_focus_child V s C L); [exact Hf |].
    apply (IH (CtxL c q r C) l); [by apply (focus_in V s L) | eapply around_left; [done | done | lia] | done | lia].
Qed.

Lemma findGreatest_loop_ok V fuel s C t k :
  focus V s C t -> around V k C -> sorted V (inorder (plug C t)) -> (height t < fuel)%nat ->
  wp (findGreatestLessThanOrEqual_loop fuel k (lastz (cpre C)) (root t)) s
    (fun r s' => s' = s /\ found V k (inorder (plug C t)) r (fun l1 _ => lastz l1)).
Proof.
  revert C t. induction fuel as [| fuel IH]; intros C t Hf HC Hs Hlen; [lia |]. simpl.
  rewrite (tree_nonnull _ _ _ _ Hf). destruct t as [| c l q r]; simpl.
  { apply wp_ret. split; [done |]. apply (found_leaf V k C (fun l1 _ => lastz l1) HC). }
  simpl in Hlen. wp_step. eapply focus_key; [exact Hf |].
  destruct (Z.eqb_spec (keyof V q) k) as [Hk | Hk]; [apply wp_ret; split; [done | by apply found_here] |].
  destruct (Z.ltb_spec k (keyof V q)).
  - wp_step. eapply (wp_focus_child V s C L); [exact Hf |].
    apply (IH (CtxL c q r C) l); [by apply (focus_in V s L) | by eapply around_left | done | lia].
  - wp_step. eapply (wp_focus_opp V s C L); [exact Hf |].
    replace q with (lastz (cpre (CtxR c l q C))) at 1 by (simpl; rewrite app_assoc; apply lastz_snoc).
    apply (IH (CtxR c l q C) r); [by apply (focus_in V s R) | eapply around_right; [done | done | lia] | done | lia].
Qed.

Lemma height_length t : (height t <= length (inorder t))%nat.
Proof. induction t as [| c l IHl q r IHr]; simpl; [lia |]. rewrite length_app. simpl. lia. Qed.

(** The three searches. *)
Lemma searches_ok V s l k :
  rb_wf V s l ->
  wp (findExact k) s (fun r s' => s' = s /\ found V k l r (fun _ _ => 0)) /\
  wp (findLeastGreaterThanOrEqual k) s (fun r s' => s' = s /\ found V k l r (fun _ l2 => headz l2)) /\
  wp (findGreatestLessThanOrEqual k) s (fun r s' => s' = s /\ found V k l r (fun l1 _ => lastz l1)).
Proof.
  intros (t & m & Hr & <- & _ & Hs). pose proof (repr_size _ _ _ Hr) as Hsz. pose proof (height_length t) as Hht.
  apply focus_top in Hr.
  unfold findExact, findLeastGreaterThanOrEqual, findGreatestLessThanOrEqual.
  split_and!; (wp_step; eapply wp_get_root; [exact Hr |]; wp_step; apply wp_gets).
  - apply (findExact_loop_ok V _ s Top t k); [done | split; constructor | done | lia].
  - apply (findLeast_loop_ok V _ s Top t k); [done | split; constructor | done | lia].
  - apply (findGreatest_loop_ok V _ s Top t k); [done | split; constructor | done | lia].
Qed.

(** ** Walking in order *)

Lemma successor_loop_ok V fuel s C t :
  focus V s C t -> t <> Leaf -> (cdepth C < fuel)%nat ->
  wp (successor_loop fuel (root t) (cpar C)) s (fun r s' => s' = s /\ r = headz (cpost C)).
Proof.
  revert C t. induction fuel as [| fuel IH]; intros C t Hf Hne Hfuel; [lia |]. simpl.
  destruct (ctx_side C) as [-> | (d & c & q & b & C' & ->)]; [by apply wp_ret |].
  pose proof (focus_out _ _ _ _ _ _ _ _ Hf) as Hf1. rewrite cpar_hole. rewrite cdepth_hole in Hfuel.
  pose proof (tree_nonnull _ _ _ _ Hf1) as Hnn. rewrite root_br in Hnn.
  replace (truthy q) with true by (rewrite Hnn; by destruct d). simpl. wp_step. destruct d.
  - eapply (wp_focus_opp V s C' L); [exact Hf1 |].
    rewrite (proj2 (Z.eqb_neq _ _) (focus_sibling _ _ _ _ _ _ _ _ Hf Hne)). by apply wp_ret.
  - eapply (wp_focus_child V s C' R); [exact Hf1 |]. rewrite Z.eqb_refl.
    wp_step. eapply wp_focus_parent; [exact Hf1 |].
    eapply wp_mono; [apply (IH C' (Br c b q t)); [exact Hf1 | done | lia] |]. done.
Qed.

Lemma predecessor_loop_ok V fuel s C t :
  focus V s C t -> t <> Leaf -> (cdepth C < fuel)%nat ->
  wp (predecessor_loop fuel (root t) (cpar C)) s (fun r s' => s' = s /\ r = lastz (cpre C)).
Proof.
  revert C t. induction fuel as [| fuel IH]; intros C t Hf Hne Hfuel; [lia |]. simpl.
  destruct (ctx_side C) as [-> | (d & c & q & b & C' & ->)]; [by apply wp_ret |].
  pose proof (focus_out _ _ _ _ _ _ _ _ Hf) as Hf1. rewrite cpar_hole. rewrite cdepth_hole in Hfuel.
  pose proof (tree_nonnull _ _ _ _ Hf1) as Hnn. rewrite root_br in Hnn.
  replace (truthy q) with true by (rewrite Hnn; by destruct d). simpl. wp_step. destruct d.
  - eapply (wp_focus_child V s C' L); [exact Hf1 |]. rewrite Z.eqb_refl.
    wp_step. eapply wp_focus_parent; [exact Hf1 |].
    eapply wp_mono; [apply (IH C' (Br c t q b)); [exact Hf1 | done | lia] |]. done.
  - eapply (wp_focus_opp V s C' R); [exact Hf1 |].
    rewrite (proj2 (Z.eqb_neq _ _) (focus_sibling _ _ _ _ _ _ _ _ Hf Hne)). apply wp_ret. split; [done |].
    simpl. by rewrite app_assoc, lastz_snoc.
Qed.

Lemma treeMaximum_loop_ok V fuel s C t :
  focus V s C t -> t <> Leaf -> (length (inorder t) < fuel)%nat ->
  wp (treeMaximum_loop fuel (root t)) s (fun q s' => s' = s /\ exists C' c l,
    plug C t = plug C' (Br c l q Leaf) /\ cpost C' = cpost C).
Proof.
  revert C t. induction fuel as [| fuel IH]; intros C t Hf Hne Hlen; [lia |]. simpl.
  destruct t as [| c l q r]; [done |]. simpl in Hlen. rewrite length_app in Hlen. simpl in Hlen.
  wp_step. eapply (wp_focus_opp V s C L); [exact Hf |].
  pose proof (focus_in V s R c q l C r Hf) as Hfr. rewrite (tree_nonnull _ _ _ _ Hfr).
  destruct r as [| c' l' q' r'].
  - apply wp_ret. split; [done |]. by exists C, c, l.
  - eapply wp_mono; [apply (IH (CtxR c l q C)); [done | done | lia] |]. done.
Qed.

Lemma treeMaximum_ok V s C t :
  focus V s C t -> t <> Leaf ->
  wp (treeMaximum (root t)) s (fun q s' => s' = s /\ exists C' c l,
    plug C t = plug C' (Br c l q Leaf) /\ cpost C' = cpost C).
Proof.
  intros Hf Hne. unfold treeMaximum. wp_step. apply wp_gets. apply (treeMaximum_loop_ok V); [done | done |].
  pose proof (repr_size V s _ (proj1 (focus_repr _ _ _ _) Hf)) as Hsz. rewrite inorder_plug, !length_app in Hsz. lia.
Qed.

(** A node of the tree, with the nodes before and after it. *)
Lemma wf_focus V s l1 q l2 :
  rb_wf V s (l1 ++ q :: l2) ->
  exists C c l r, focus V s C (Br c l q r) /\ l1 = cpre C ++ inorder l /\ l2 = inorder r ++ cpost C.
Proof.
  intros (t & m & Hr & Hl & _ & _). assert (q ∈ inorder t) as Hq by (rewrite Hl; set_solver).
  destruct (tree_split q t Hq) as (C & c & l & r & ->). exists C, c, l, r. split; [by apply focus_repr |].
  pose proof (repr_nodup _ _ _ Hr) as Hnd. rewrite Hl in Hnd. rewrite inorder_plug in Hl. simpl in Hl.
  apply (split_same q); [done |]. rewrite <- Hl. by rewrite <- !app_assoc.
Qed.

Lemma focus_depth V s C t : focus V s C t -> (cdepth C < fuel_of s)%nat.
Proof.
  intros Hf%focus_repr%repr_size. rewrite inorder_plug, !length_app in Hf.
  pose proof (cdepth_length C) as Hd. unfold caddrs in Hd. rewrite length_app in Hd. lia.
Qed.

Lemma successor_ok V s l1 q l2 :
  rb_wf V s (l1 ++ q :: l2) -> wp (successor q) s (fun r s' => s' = s /\ r = headz l2).
Proof.
  intros (C & c & l & r & Hf & _ & ->)%wf_focus. unfold successor.
  wp_step. eapply (wp_focus_opp V s C L); [exact Hf |].
  pose proof (focus_in V s R _ _ _ _ _ Hf) as Hfr. rewrite (tree_nonnull _ _ _ _ Hfr).
  destruct r as [| c' l' q' r'] eqn:Er.
  - wp_step. eapply wp_focus_parent; [exact (Hf : focus V s C (br L c l q Leaf)) |]. wp_step. apply wp_gets.
    eapply wp_mono; [apply (successor_loop_ok V _ s C _ Hf) |]; [done | by eapply focus_depth | done].
  - rewrite <- Er in *. eapply wp_mono; [apply (treeMinimum_ok V s _ r Hfr); by subst |].
    intros x s' (-> & C' & cx & rx & Hpl & Hpre). split; [done |].
    apply (f_equal inorder) in Hpl. rewrite !inorder_plug, Hpre in Hpl. apply app_inv_head in Hpl.
    simpl in Hpl. by rewrite Hpl.
Qed.

Lemma predecessor_ok V s l1 q l2 :
  rb_wf V s (l1 ++ q :: l2) -> wp (predecessor q) s (fun r s' => s' = s /\ r = lastz l1).
Proof.
  intros (C & c & l & r & Hf & -> & _)%wf_focus. unfold predecessor.
  wp_step. eapply (wp_focus_child V s C L); [exact Hf |].
  pose proof (focus_in V s L _ _ _ _ _ Hf) as Hfl. rewrite (tree_nonnull _ _ _ _ Hfl).
  destruct l as [| c' l' q' r'] eqn:El.
  - wp_step. eapply wp_focus_parent; [exact (Hf : focus V s C (br L c Leaf q r)) |]. wp_step. apply wp_gets.
    rewrite app_nil_r.
    eapply wp_mono; [apply (predecessor_loop_ok V _ s C _ Hf) |]; [done | by eapply focus_depth | done].
  - rewrite <- El in *. eapply wp_mono; [apply (treeMaximum_ok V s _ l Hfl); by subst |].
    intros x s' (-> & C' & cx & lx & Hpl & Hpost). split; [done |].
    apply (f_equal inorder) in Hpl. rewrite !inorder_plug, Hpost in Hpl. rewrite !app_assoc in Hpl.
    apply app_inv_tail in Hpl. simpl in Hpl. by rewrite Hpl, app_assoc, lastz_snoc.
Qed.

Lemma first_ok V s l : rb_wf V s l -> wp first s (fun r s' => s' = s /\ r = headz l).
Proof.
  intros (t & m & Hf & <- & _)%id. apply focus_top in Hf. unfold first.
  wp_step. eapply wp_get_root; [exact Hf |]. simpl. rewrite (tree_nonnull _ _ _ _ Hf).
  destruct t as [| c l q r] eqn:Et; [by apply wp_ret |]. rewrite <- Et in *. simpl.
  eapply wp_mono; [apply (treeMinimum_ok V s _ t Hf); by subst |].
  intros x s' (-> & C' & cx & rx & Hpl & Hpre). split; [done |]. simpl in *.
  apply (f_equal inorder) in Hpl. rewrite inorder_plug, Hpre in Hpl. simpl in Hpl. by rewrite Hpl.
Qed.

Lemma last_ok V s l : rb_wf V s l -> wp last s (fun r s' => s' = s /\ r = lastz l).
Proof.
  intros (t & m & Hf & <- & _)%id. apply focus_top in Hf. unfold last.
  wp_step. eapply wp_get_root; [exact Hf |]. simpl. rewrite (tree_nonnull _ _ _ _ Hf).
  destruct t as [| c l q r] eqn:Et; [by apply wp_ret |]. rewrite <- Et in *. simpl.
  eapply wp_mono; [apply (treeMaximum_ok V s _ t Hf); by subst |].
  intros x s' (-> & C' & cx & lx & Hpl & Hpost). split; [done |]. simpl in *.
  apply (f_equal inorder) in Hpl. rewrite inorder_plug, Hpost in Hpl. simpl in Hpl.
  rewrite app_nil_r, app_assoc in Hpl. by rewrite Hpl, lastz_snoc.
Qed.

Lemma isEmpty_ok V s l : rb_wf V s l -> wp isEmpty s (fun r s' => s' = s /\ r = bool_decide (l = [])).
Proof.
  intros (t & m & Hf & <- & _)%id. apply focus_top in Hf. unfold isEmpty.
  wp_step. eapply wp_get_root; [exact Hf |]. simpl. rewrite (tree_nonnull _ _ _ _ Hf). apply wp_ret.
  split; [done |]. destruct t as [| c l q r]; [done |]. simpl. symmetry. apply bool_decide_eq_false.
  intros [_ ?]%app_nil. done.
Qed.

(** The nodes of a tree are not null. *)
Lemma wf_nonnull V s l q : rb_wf V s l -> q ∈ l -> truthy q = true.
Proof.
  intros Hw Hq. apply list_elem_of_split in Hq as (l1 & l2 & ->).
  apply wf_focus in Hw as (C & c & l & r & Hf & _). by apply tree_nonnull in Hf.
Qed.

Lemma wf_length V s l : rb_wf V s l -> (length l < fuel_of s)%nat.
Proof. intros (t & m & Hr & <- & _). by eapply repr_size. Qed.

(** A loop over the nodes, where [successor] walks along the list, with a body
    that leaves the tree as it is. *)
Lemma each_loop_ok {B} s (f : B -> Z -> M rb_fault (RedBlackTree A) B) (g : B -> Z -> B) fuel l1 l2 acc :
  (forall k1 q k2, l1 ++ l2 = k1 ++ q :: k2 ->
     truthy q = true /\ wp (successor q) s (fun r s' => s' = s /\ r = headz k2)) ->
  (forall a q (Q : B -> RedBlackTree A -> Prop), q ∈ l2 -> Q (g a q) s -> wp (f a q) s Q) ->
  (length l2 < fuel)%nat ->
  wp (each_loop fuel f acc (headz l2)) s (fun r s' => s' = s /\ r = foldl g acc l2).
Proof.
  intros Hw Hbody. revert l1 l2 Hw Hbody acc. induction fuel as [| fuel IH]; intros l1 l2 Hw Hbody acc Hlen; [lia |].
  destruct l2 as [| q l2]; simpl in *; [by apply wp_ret |]. change (headz (q :: l2)) with q.
  destruct (Hw l1 q l2 eq_refl) as [Hnn Hsucc]. rewrite Hnn. simpl. wp_step. apply Hbody; [set_solver |].
  wp_step. eapply wp_mono; [exact Hsucc |]. intros r s' [-> ->].
  apply (IH (l1 ++ [q])); [by rewrite <- app_assoc | | lia]. intros a q' Q Hq'. apply Hbody. set_solver.
Qed.

Lemma foldl_count (l : list Z) a :
  0 <= a -> foldl (fun r _ => u64 (r + 1)) (u64 a) l = u64 (a + Z.of_nat (length l)).
Proof.
  revert a. induction l as [| x l IH]; intros a Ha; simpl; [f_equal; lia |].
  replace (a + Z.of_nat (S (length l))) with ((a + 1) + Z.of_nat (length l)) by lia.
  rewrite <- IH by lia. f_equal. unfold u64, uwrap. rewrite Zplus_mod_idemp_l. done.
Qed.

Lemma tree_size_ok V s l :
  rb_wf V s l -> wp tree_size s (fun r s' => s' = s /\ r = u64 (Z.of_nat (length l))).
Proof.
  intros Hw. unfold tree_size. wp_step. eapply wp_mono; [by apply (first_ok V) |]. intros r s' [-> ->].
  wp_step. apply wp_gets. eapply wp_mono.
  { apply (each_loop_ok s _ (fun r _ => u64 (r + 1)) _ [] l); [| | by eapply wf_length].
    - simpl. intros k1 q k2 ->. split; [by eapply wf_nonnull; [done | set_solver] | by eapply successor_ok].
    - intros a q Q _ HQ. by apply wp_ret. }
  intros r s' [-> ->]. split; [done |]. apply (foldl_count l 0). lia.
Qed.

(** Removing by key removes some node with the key, if there is one. *)
Lemma remove_key_ok V s l k :
  rb_wf V s l ->
  wp (remove_key k) s (fun r s' =>
    (r ∈ l /\ keyof V r = k /\ rb_wf V s' (remove_spec r l)) \/
    (r = 0 /\ s' = s /\ Forall (fun q => keyof V q <> k) l)).
Proof.
  intros Hw. unfold remove_key. wp_step. eapply wp_mono; [by apply (searches_ok V s l k) |].
  intros r s' (-> & [[Hr Hk] | (l1 & l2 & -> & -> & H1 & H2)]).
  - rewrite (wf_nonnull V s l r Hw Hr). simpl. eapply wp_mono; [by apply (rb_remove_ok V s l) |].
    intros r' s' (-> & Hw'). by left.
  - simpl. apply wp_ret. right. split_and!; [done | done |]. apply Forall_app.
    split; (eapply Forall_impl; [done | simpl; lia]).
Qed.

(** What the searches come to. *)
Lemma found_exact V k l r :
  found V k l r (fun _ _ => 0) -> (r ∈ l /\ keyof V r = k) \/ (r = 0 /\ forall q, q ∈ l -> keyof V q <> k).
Proof.
  intros [? | (l1 & l2 & -> & -> & H1 & H2)]; [by left | right]. split; [done |]. rewrite Forall_forall in H1, H2.
  intros q [Hq%H1 | Hq%H2]%elem_of_app; lia.
Qed.

Lemma found_greatest V k l r :
  sorted V l -> found V k l r (fun l1 _ => lastz l1) ->
  (r ∈ l /\ keyof V r <= k /\ forall q, q ∈ l -> keyof V q <= k -> keyof V q <= keyof V r) \/
  (r = 0 /\ forall q, q ∈ l -> k < keyof V q).
Proof.
  intros Hs [[Hr Hk] | (l1 & l2 & -> & -> & H1 & H2)]; [left; split_and!; [done | lia | intros; lia] |].
  rewrite Forall_forall in H1, H2. destruct l1 as [| x l1 _] using rev_ind.
  - right. split; [done |]. intros q Hq. by apply H2.
  - left. rewrite lastz_snoc. assert (keyof V x < k) as Hx by (apply H1; set_solver).
    split_and!; [set_solver | lia |]. intros q [Hq | Hq]%elem_of_app Hle; [| apply H2 in Hq; lia].
    apply StronglySorted_app_1_l in Hs. apply elem_of_app in Hq as [Hq | ->%list_elem_of_singleton]; [| done].
    by apply (StronglySorted_app_1_elem_of _ _ _ q x Hs Hq ltac:(set_solver)).
Qed.

Lemma found_least V k l r :
  sorted V l -> found V k l r (fun _ l2 => headz l2) ->
  (r ∈ l /\ k <= keyof V r /\ forall q, q ∈ l -> k <= keyof V q -> keyof V r <= keyof V q) \/
  (r = 0 /\ forall q, q ∈ l -> keyof V q < k).
Proof.
  intros Hs [[Hr Hk] | (l1 & l2 & -> & -> & H1 & H2)]; [left; split_and!; [done | lia | intros; lia] |].
  rewrite Forall_forall in H1, H2. destruct l2 as [| x l2].
  - right. split; [done |]. intros q [Hq | Hq%elem_of_nil]%elem_of_app; [by apply H1 | done].
  - left. change (headz (x :: l2)) with x. assert (k < keyof V x) as Hx by (apply H2; set_solver).
    split_and!; [set_solver | lia |]. intros q [Hq | Hq]%elem_of_app Hle; [apply H1 in Hq; lia |].
    apply StronglySorted_app_1_r, StronglySorted_cons in Hs as [Hq' _]. rewrite Forall_forall in Hq'.
    apply elem_of_cons in Hq as [-> | Hq]; [done | by apply Hq'].
Qed.

End find.
