(* ===== verification/RBProps.v ===== *)
(** * Red-black trees: properties

    Sequences of insertions and removals against sorted lists. *)

From stdpp Require Import base numbers list gmap sorting.
From S2P Require Import Prelude RBTree RBRepr RBInsert RBRemove RBFind.

#[local] Open Scope Z_scope.

(** What a user does with a tree. *)
Inductive tree_op := Insert (z : Z) | Remove (z : Z).

Section props.
Context {A : Type} `{KA : NodeKey A}.

Implicit Types (V : gmap Z A) (ops : list tree_op).

Definition run_tree_op (o : tree_op) : TreeM A unit :=
  match o with Insert z => insert z | Remove z => remove z;; mret tt end.

Fixpoint run_tree (ops : list tree_op) : TreeM A unit :=
  match ops with [] => mret tt | o :: ops' => run_tree_op o;; run_tree ops' end.

(** The nodes in order, by [first] and [successor]. *)
Definition walk : TreeM A (list Z) :=
  node ← first; fuel ← mgets fuel_of; each_loop fuel (fun acc q => mret (acc ++ [q])) [] node.

(** The specification: a list sorted by key. *)
Definition list_op V (l : list Z) (o : tree_op) : list Z :=
  match o with Insert z => insert_spec V z l | Remove z => remove_spec z l end.

(** A node is inserted when it is not in the tree, and removed when it is. *)
Definition op_ok V (l : list Z) (o : tree_op) : Prop :=
  match o with Insert z => z ∉ l /\ addr_ok z /\ is_Some (V !! z) | Remove z => z ∈ l end.

Fixpoint ops_ok V (l : list Z) (ops : list tree_op) : Prop :=
  match ops with [] => True | o :: ops' => op_ok V l o /\ ops_ok V (list_op V l o) ops' end.

(** An empty tree, and the nodes of its user, whose links are arbitrary. *)
Definition start (h : gmap Z (Node A)) : RedBlackTree A := mk_tree h 0.

Lemma start_wf h : rb_wf (m_object <$> h) (start h) [].
Proof. exists Leaf, 0%nat. split_and!; [by constructor; [| | | constructor] | done | constructor | constructor]. Qed.

Lemma run_tree_ok V ops : forall s l,
  rb_wf V s l -> ops_ok V l ops -> wp (run_tree ops) s (fun _ s' => rb_wf V s' (foldl (list_op V) l ops)).
Proof.
  induction ops as [| o ops IH]; intros s l Hw Hok; simpl in *; [by apply wp_ret |].
  destruct Hok as [Ho Hok]. wp_step. destruct o as [z | z]; simpl in *.
  - destruct Ho as (H1 & H2 & H3). eapply wp_mono; [by apply (insert_ok V s l) |]. intros a s' Hw'. by apply IH.
  - wp_step. eapply wp_mono; [by apply (rb_remove_ok V s l) |]. intros r s' [_ Hw']. wp_step. by apply IH.
Qed.

Lemma run_then {B} h ops (m : TreeM A B) (Q : B -> RedBlackTree A -> Prop) :
  let V := m_object <$> h in
  ops_ok V [] ops -> (forall s, rb_wf V s (foldl (list_op V) [] ops) -> wp m s Q) ->
  wp (run_tree ops;; m) (start h) Q.
Proof.
  intros V Hok HQ. wp_step. eapply wp_mono; [apply (run_tree_ok V); [apply start_wf | done] |].
  intros a s Hw. by apply HQ.
Qed.

Lemma foldl_snoc (l acc : list Z) : foldl (fun acc q => acc ++ [q]) acc l = acc ++ l.
Proof. revert acc. induction l as [| x l IH]; intros acc; simpl; [by rewrite app_nil_r |]. by rewrite IH, <- app_assoc. Qed.

Lemma walk_ok V s l : rb_wf V s l -> wp walk s (fun r s' => s' = s /\ r = l).
Proof.
  intros Hw. unfold walk. wp_step. eapply wp_mono; [by apply (first_ok V) |]. intros r s' [-> ->].
  wp_step. apply wp_gets. eapply wp_mono.
  { apply (each_loop_ok s _ (fun acc q => acc ++ [q]) _ [] l); [| | by eapply wf_length].
    - simpl. intros k1 q k2 ->. split; [by eapply wf_nonnull; [done | set_solver] | by eapply successor_ok].
    - intros a q Q _ HQ. by apply wp_ret. }
  intros r s' [-> ->]. split; [done |]. apply foldl_snoc.
Qed.

Lemma wf_facts V s l : rb_wf V s l -> objects s = V /\ sorted V l /\ NoDup l.
Proof. intros (t & m & [] & <- & _ & Hs). done. Qed.

(** [C33] Any sequence of insertions (of nodes that are not in the tree, with
    whatever is in their links) and removals (of nodes that are) runs from the
    empty tree without following a null pointer, failing an assertion or looping,
    and implements insertion into and removal from a list sorted by key, after
    equal keys: a walk with [first] and [successor] gives that list, and the
    user's objects are untouched. *)
Theorem red_black_refines (h : gmap Z (Node A)) (ops : list tree_op) :
  let V := m_object <$> h in
  ops_ok V [] ops ->
  wp (run_tree ops;; walk) (start h)
    (fun r s => r = foldl (list_op V) [] ops /\ sorted V r /\ NoDup r /\ m_object <$> nodes s = V).
Proof.
  intros V Hok. apply run_then; [done |]. intros s Hw. eapply wp_mono; [by apply (walk_ok V) |].
  intros r s' [-> ->]. destruct (wf_facts _ _ _ Hw) as (H1 & H2 & H3). done.
Qed.

Lemma find_in_height V s l k :
  rb_wf V s l -> let fuel := S (2 * Nat.log2 (S (length l))) in
  wp (root ← get_root; findExact_loop fuel k root) s (fun _ _ => True) /\
  wp (root ← get_root; findLeastGreaterThanOrEqual_loop fuel k 0 root) s (fun _ _ => True) /\
  wp (root ← get_root; findGreatestLessThanOrEqual_loop fuel k 0 root) s (fun _ _ => True).
Proof.
  intros (t & m & Hr & <- & Ht & Hs) fuel. pose proof (rbt_balanced _ _ Ht) as Hb. apply focus_top in Hr.
  split_and!; wp_step; (eapply wp_get_root; [exact Hr |]); (eapply wp_mono; [| done]).
  - apply (findExact_loop_ok V _ s Top t k); [done | split; constructor | done | unfold fuel; lia].
  - apply (findLeast_loop_ok V _ s Top t k); [done | split; constructor | done | unfold fuel; lia].
  - apply (findGreatest_loop_ok V _ s Top t k); [done | split; constructor | done | unfold fuel; lia].
Qed.

(** [C34] After any sequence of insertions and removals the tree is balanced: each
    of the three searches ends within [2 log2 (n + 1) + 1] rounds of its loop
    for a tree of [n] nodes. *)
Theorem red_black_search_bound (h : gmap Z (Node A)) (ops : list tree_op) (k : Z) :
  let V := m_object <$> h in
  ops_ok V [] ops ->
  let fuel := S (2 * Nat.log2 (S (length (foldl (list_op V) [] ops)))) in
  wp (run_tree ops;; root ← get_root; findExact_loop fuel k root) (start h) (fun _ _ => True) /\
  wp (run_tree ops;; root ← get_root; findLeastGreaterThanOrEqual_loop fuel k 0 root) (start h) (fun _ _ => True) /\
  wp (run_tree ops;; root ← get_root; findGreatestLessThanOrEqual_loop fuel k 0 root) (start h) (fun _ _ => True).
Proof.
  intros V Hok fuel. split_and!; (apply run_then; [done |]); intros s Hw; by apply (find_in_height V).
Qed.

(** [C35] After any sequence of insertions and removals [findExact] returns a node
    with the key if there is one, [findLeastGreaterThanOrEqual] one whose key
    is the least that is not below it, [findGreatestLessThanOrEqual] one whose
    key is the greatest that is not above it; each returns null exactly when
    there is none. *)
Theorem red_black_searches (h : gmap Z (Node A)) (ops : list tree_op) (k : Z) :
  let V := m_object <$> h in
  ops_ok V [] ops ->
  let l := foldl (list_op V) [] ops in
  wp (run_tree ops;; findExact k) (start h) (fun r _ =>
    (r ∈ l /\ keyof V r = k) \/ (r = 0 /\ forall q, q ∈ l -> keyof V q <> k)) /\
  wp (run_tree ops;; findLeastGreaterThanOrEqual k) (start h) (fun r _ =>
    (r ∈ l /\ k <= keyof V r /\ forall q, q ∈ l -> k <= keyof V q -> keyof V r <= keyof V q) \/
    (r = 0 /\ forall q, q ∈ l -> keyof V q < k)) /\
  wp (run_tree ops;; findGreatestLessThanOrEqual k) (start h) (fun r _ =>
    (r ∈ l /\ keyof V r <= k /\ forall q, q ∈ l -> keyof V q <= k -> keyof V q <= keyof V r) \/
    (r = 0 /\ forall q, q ∈ l -> k < keyof V q)).
Proof.
  intros V Hok l. split_and!; (apply run_then; [done |]); intros s Hw; destruct (searches_ok V s _ k Hw) as (H1 & H2 & H3);
    destruct (wf_facts _ _ _ Hw) as (_ & Hs & _).
  - eapply wp_mono; [exact H1 |]. intros r s' [_ Hr]. by apply found_exact.
  - eapply wp_mono; [exact H2 |]. intros r s' [_ Hr]. by apply found_least.
  - eapply wp_mono; [exact H3 |]. intros r s' [_ Hr]. by apply found_greatest.
Qed.

End props.

(** ** A concrete tree *)

#[local] Instance key_Z : NodeKey Z := fun k => k.

(** Six nodes at the addresses 8 to 48, with links that point nowhere. *)
Definition six_nodes : gmap Z (Node Z) :=
  list_to_map ((fun '(a, k) => (a, mk_node 99 99 99 k)) <$> [(8, 50); (16, 20); (24, 70); (32, 20); (40, 60); (48, 10)]).

Definition six_ops : list tree_op :=
  [Insert 8; Insert 16; Insert 24; Insert 32; Insert 40; Insert 48; Remove 8; Remove 16].

Lemma six_ops_ok : ops_ok (m_object <$> six_nodes) [] six_ops.
Proof.
  simpl. unfold addr_ok. split_and!; try done; try (vm_compute; by eexists); try lia;
    try (apply (bool_decide_unpack _); by vm_compute).
Qed.

Lemma red_black_refines_witness :
  ops_ok (m_object <$> six_nodes) [] six_ops /\
  wp (run_tree six_ops;; walk) (start six_nodes) (fun r s =>
    r = foldl (list_op (m_object <$> six_nodes)) [] six_ops /\ sorted (m_object <$> six_nodes) r /\ NoDup r /\
    m_object <$> nodes s = m_object <$> six_nodes) /\
  foldl (list_op (m_object <$> six_nodes)) [] six_ops = [48; 32; 40; 24].
Proof.
  split; [exact six_ops_ok |]. split; [apply (red_black_refines six_nodes six_ops); exact six_ops_ok | by vm_compute].
Defined.

Lemma red_black_search_bound_witness :
  ops_ok (m_object <$> six_nodes) [] six_ops /\
  wp (run_tree six_ops;; root ← get_root; findExact_loop 5 60 root) (start six_nodes) (fun _ _ => True).
Proof.
  split; [exact six_ops_ok |]. pose proof (red_black_search_bound six_nodes six_ops 60 six_ops_ok) as [H _].
  assert (length (foldl (list_op (m_object <$> six_nodes)) [] six_ops) = 4%nat) as E by (by vm_compute).
  rewrite E in H. exact H.
Defined.

Lemma red_black_searches_witness :
  ops_ok (m_object <$> six_nodes) [] six_ops /\
  wp (run_tree six_ops;; findExact 60) (start six_nodes) (fun r _ =>
    (r ∈ [48; 32; 40; 24] /\ keyof (m_object <$> six_nodes) r = 60) \/
    (r = 0 /\ forall q, q ∈ [48; 32; 40; 24] -> keyof (m_object <$> six_nodes) q <> 60)).
Proof.
  split; [exact six_ops_ok |]. pose proof (red_black_searches six_nodes six_ops 60 six_ops_ok) as [H _].
  assert (foldl (list_op (m_object <$> six_nodes)) [] six_ops = [48; 32; 40; 24]) as E by (by vm_compute).
  rewrite E in H. exact H.
Defined.
