(* ===== verification/TreeLaws.v ===== *)
(** * What the users of a tree rely on

    [OrderedTree wf]: the laws of the operations of an intrusive ordered tree,
    over a predicate [wf V s l] that says that the tree [s] holds the nodes
    [l], in order of their keys, and that the objects in its heap are [V].
    The red-black tree is an instance. *)

From stdpp Require Import base numbers list gmap sorting.
From S2P Require Import Prelude RBTree RBRepr RBInsert RBRemove RBFind.

#[local] Open Scope Z_scope.

(** Another object at the address [p] of a heap. *)
Definition with_object {A} (s : RedBlackTree A) (p : Z) (n : Node A) : RedBlackTree A :=
  mk_tree (<[p := n]> (nodes s)) (m_root s).
Definition without_object {A} (s : RedBlackTree A) (p : Z) : RedBlackTree A :=
  mk_tree (delete p (nodes s)) (m_root s).

Definition same_links {A} (n n' : Node A) : Prop :=
  m_left n' = m_left n /\ m_right n' = m_right n /\ m_parentAndRed n' = m_parentAndRed n.

Class OrderedTree {A : Type} `{KA : NodeKey A} (wf : gmap Z A -> RedBlackTree A -> list Z -> Prop) := {
  ot_objects V s l : wf V s l -> objects s = V;
  ot_elem V s l q : wf V s l -> q ∈ l -> is_Some (V !! q) /\ addr_ok q;
  ot_nodup V s l : wf V s l -> NoDup l;
  ot_sorted V s l : wf V s l -> sorted V l;
  ot_empty : wf ∅ empty_tree [];
  ot_insert V s l z : wf V s l -> z ∉ l -> addr_ok z -> is_Some (V !! z) ->
    wp (insert z) s (fun _ s' => wf V s' (insert_spec V z l));
  ot_remove V s l z : wf V s l -> z ∈ l -> wp (remove z) s (fun _ s' => wf V s' (remove_spec z l));
  ot_least V s l k : wf V s l ->
    wp (findLeastGreaterThanOrEqual k) s (fun r s' => s' = s /\ found V k l r (fun _ l2 => headz l2));
  ot_greatest V s l k : wf V s l ->
    wp (findGreatestLessThanOrEqual k) s (fun r s' => s' = s /\ found V k l r (fun l1 _ => lastz l1));
  ot_first V s l : wf V s l -> wp first s (fun r s' => s' = s /\ r = headz l);
  ot_successor V s l1 q l2 : wf V s (l1 ++ q :: l2) -> wp (successor q) s (fun r s' => s' = s /\ r = headz l2);
  ot_new V s l p n : wf V s l -> V !! p = None -> wf (<[p := m_object n]> V) (with_object s p n) l;
  ot_set V s l p n n' : wf V s l -> nodes s !! p = Some n -> same_links n n' ->
    p ∉ l \/ node_key (m_object n') = node_key (m_object n) ->
    wf (<[p := m_object n']> V) (with_object s p n') l;
  ot_delete V s l p : wf V s l -> p ∉ l -> wf (delete p V) (without_object s p) l
}.

Section instance.
Context {A : Type} `{KA : NodeKey A}.

Implicit Types (s : RedBlackTree A) (V : gmap Z A).

(** The links of the nodes of the tree are what matters. *)
Lemma tree_at_links (h h' : gmap Z (Node A)) par t :
  (forall q n, q ∈ inorder t -> h !! q = Some n -> exists n', h' !! q = Some n' /\ same_links n n') ->
  tree_at h par t -> tree_at h' par t.
Proof.
  revert par. induction t as [| c l IHl q r IHr]; intros par Hh; simpl; [done |].
  intros (Hq & [v Hv] & Hl & Hr). simpl in Hh. split_and!; [done | | |].
  - destruct (Hh q _ ltac:(set_solver) Hv) as ([x y z w] & Hn' & H1 & H2 & H3). simpl in *. subst. by exists w.
  - apply IHl; [| done]. intros q' n Hq'. apply Hh. set_solver.
  - apply IHr; [| done]. intros q' n Hq'. apply Hh. set_solver.
Qed.

Lemma rb_wf_links V V' s s' l :
  rb_wf V s l -> objects s' = V' -> m_root s' = m_root s ->
  (forall q n, q ∈ l -> nodes s !! q = Some n ->
     exists n', nodes s' !! q = Some n' /\ same_links n n' /\ node_key (m_object n') = node_key (m_object n)) ->
  rb_wf V' s' l.
Proof.
  intros (t & m & [HV Ht Hr Hn] & <- & Hm & Hs) HV' Hr' Hl. exists t, m. split_and!; [| done | done |].
  - constructor; [done | | congruence | done]. eapply tree_at_links; [| exact Ht].
    intros q n Hq Hqn. destruct (Hl q n Hq Hqn) as (n' & ? & ? & _). eauto.
  - assert (forall q, q ∈ inorder t -> keyof V' q = keyof V q) as Hk.
    { intros q Hq. destruct (tree_in_nodes _ _ _ _ Ht Hq) as [n Hqn].
      destruct (Hl q n Hq Hqn) as (n' & Hqn' & _ & Hkey). unfold keyof. subst V V'. unfold objects.
      by rewrite !lookup_fmap, Hqn, Hqn'. }
    revert Hs Hk. unfold sorted. generalize (inorder t). intros l. induction l as [| x l IH]; intros Hs Hk; [constructor |].
    apply StronglySorted_cons in Hs as [Hx Hs]. apply StronglySorted_cons. split; [| apply IH; [done | set_solver]].
    apply Forall_forall. intros y Hy. rewrite !Hk by set_solver. rewrite Forall_forall in Hx. by apply Hx.
Qed.

Lemma rb_wf_elem V s l q : rb_wf V s l -> q ∈ l -> is_Some (V !! q) /\ addr_ok q.
Proof.
  intros (t & m & Hr & <- & _) Hq. split; [by eapply repr_objects_in |]. eapply tree_addr; [apply Hr | done].
Qed.

Lemma rb_wf_empty : rb_wf (A := A) ∅ empty_tree [].
Proof.
  exists Leaf, 0%nat. split_and!; [| done | constructor | constructor].
  constructor; [apply fmap_empty | done | done | constructor].
Qed.

Lemma rb_wf_other V s l p h :
  rb_wf V s l -> p ∉ l -> (forall q, q <> p -> h !! q = nodes s !! q) -> rb_wf (m_object <$> h) (mk_tree h (m_root s)) l.
Proof.
  intros Hw Hp Hh. eapply rb_wf_links; [exact Hw | done | done |]. intros q n Hq Hn. exists n. simpl.
  rewrite Hh by (intros ->; done). done.
Qed.

#[global] Instance rb_ordered : OrderedTree rb_wf.
Proof.
  split.
  - by intros V s l (t & m & [] & _).
  - apply rb_wf_elem.
  - by intros V s l (t & m & [] & <- & _).
  - by intros V s l (t & m & _ & _ & _ & ?).
  - apply rb_wf_empty.
  - apply insert_ok.
  - intros V s l z Hw Hz. eapply wp_mono; [by apply (rb_remove_ok V s l) |]. by intros ? ? [_ ?].
  - intros V s l k Hw. by apply searches_ok.
  - intros V s l k Hw. by apply searches_ok.
  - apply first_ok.
  - apply successor_ok.
  - intros V s l p n Hw Hp. assert (objects s = V) as <- by (by destruct Hw as (t & m & [] & _)).
    unfold objects. rewrite <- fmap_insert. eapply (rb_wf_other _ s); [done | |].
    + intros Hq. destruct (rb_wf_elem _ _ _ _ Hw Hq) as [[v Hv] _]. rewrite Hp in Hv; done.
    + intros q Hq. by rewrite lookup_insert_ne.
  - intros V s l p n n' Hw Hn Hl Hor. assert (objects s = V) as <- by (by destruct Hw as (t & m & [] & _)).
    unfold objects. rewrite <- fmap_insert. destruct Hor as [Hp | Hk].
    + eapply (rb_wf_other _ s); [done | done |]. intros q Hq. by rewrite lookup_insert_ne.
    + eapply rb_wf_links; [exact Hw | done | done |]. intros q m Hq Hm. simpl.
      destruct (decide (p = q)) as [-> | Hpq].
      * exists n'. rewrite lookup_insert_eq. simplify_eq. done.
      * exists m. by rewrite lookup_insert_ne.
  - intros V s l p Hw Hp. assert (objects s = V) as <- by (by destruct Hw as (t & m & [] & _)).
    unfold objects. rewrite <- fmap_delete. eapply (rb_wf_other _ s); [done | done |].
    intros q Hq. by rewrite lookup_delete_ne.
Qed.

End instance.
