(* ===== verification/MetaAllocator.v ===== *)
(** * The allocator of executable memory

    WTF/wtf/MetaAllocator.cpp, .h and MetaAllocatorHandle.h: the manager of
    address space the JIT takes its memory from.  The free blocks are the nodes
    of a red-black tree ordered by size, found by their start and by their end
    in two hash maps; a third map counts, per page, the handles that use it.
    Arithmetic is on 64-bit words.  The build is the one with assertions, where
    the free-block nodes are counted as well. *)

From stdpp Require Import base numbers list gmap.
From S2P Require Import Prelude RBTree.

#[local] Open Scope Z_scope.

(** ** Data *)

Record FreeSpaceNode := mk_free { m_start : Z; m_sizeInBytes : Z }.

#[global] Instance FreeSpaceNode_key : NodeKey FreeSpaceNode := m_sizeInBytes.

Record MetaAllocatorHandle := mk_handle { h_start : Z; h_sizeInBytes : Z; h_ownerUID : Z }.

#[global] Instance MetaAllocatorHandle_key : NodeKey MetaAllocatorHandle := h_start.

Definition endAsInteger (h : MetaAllocatorHandle) : Z := u64 (h_start h + h_sizeInBytes h).
Definition containsIntegerAddress (h : MetaAllocatorHandle) (address : Z) : bool :=
  u64 (address - h_start h) <? h_sizeInBytes h.

(** The calls of the two page notifications. *)
Inductive page_event := NeedPage (page : Z) | PageIsFree (page : Z).

#[global] Instance page_event_eq_dec : EqDecision page_event.
Proof. solve_decision. Defined.

(** [m_freeSpaceSizeMap] comes with the free-block nodes in use, [m_allocations]
    (the tracker's tree) with the handles in use; [m_tracker] says whether there
    is a tracker, [pages] has the notifications, the last one first. *)
Record MetaAllocator := mk_allocator {
  m_allocationGranule : Z;
  m_logAllocationGranule : Z;
  m_pageSize : Z;
  m_logPageSize : Z;
  m_freeSpaceSizeMap : RedBlackTree FreeSpaceNode;
  m_freeSpaceStartAddressMap : gmap Z Z;
  m_freeSpaceEndAddressMap : gmap Z Z;
  m_pageOccupancyMap : gmap Z Z;
  m_bytesAllocated : Z;
  m_bytesReserved : Z;
  m_bytesCommitted : Z;
  m_tracker : bool;
  m_mallocBalance : Z;
  m_allocations : RedBlackTree MetaAllocatorHandle;
  pages : list page_event
}.

Definition eta_allocator (a : MetaAllocator) : MetaAllocator :=
  mk_allocator (m_allocationGranule a) (m_logAllocationGranule a) (m_pageSize a) (m_logPageSize a)
    (m_freeSpaceSizeMap a) (m_freeSpaceStartAddressMap a) (m_freeSpaceEndAddressMap a) (m_pageOccupancyMap a)
    (m_bytesAllocated a) (m_bytesReserved a) (m_bytesCommitted a) (m_tracker a) (m_mallocBalance a)
    (m_allocations a) (pages a).

#[global] Instance upd_sizeMap : Upd m_freeSpaceSizeMap := ltac:(mk_upd eta_allocator m_freeSpaceSizeMap).
#[global] Instance upd_startMap : Upd m_freeSpaceStartAddressMap := ltac:(mk_upd eta_allocator m_freeSpaceStartAddressMap).
#[global] Instance upd_endMap : Upd m_freeSpaceEndAddressMap := ltac:(mk_upd eta_allocator m_freeSpaceEndAddressMap).
#[global] Instance upd_pageMap : Upd m_pageOccupancyMap := ltac:(mk_upd eta_allocator m_pageOccupancyMap).
#[global] Instance upd_allocated : Upd m_bytesAllocated := ltac:(mk_upd eta_allocator m_bytesAllocated).
#[global] Instance upd_reserved : Upd m_bytesReserved := ltac:(mk_upd eta_allocator m_bytesReserved).
#[global] Instance upd_committed : Upd m_bytesCommitted := ltac:(mk_upd eta_allocator m_bytesCommitted).
#[global] Instance upd_tracker : Upd m_tracker := ltac:(mk_upd eta_allocator m_tracker).
#[global] Instance upd_balance : Upd m_mallocBalance := ltac:(mk_upd eta_allocator m_mallocBalance).
#[global] Instance upd_allocations : Upd m_allocations := ltac:(mk_upd eta_allocator m_allocations).
#[global] Instance upd_pages : Upd pages := ltac:(mk_upd eta_allocator pages).

(** What the calls outside return during one operation: the address of a new
    free-block node, the address of a new handle, and for a number of pages
    the address of new space, null if there is none, and its number of pages. *)
Record external := mk_external {
  ext_node : Z;
  ext_handle : Z;
  allocateNewSpace : Z -> Z * Z
}.

Inductive alloc_fault := Meta_assert | Meta_crash | Meta_fuel | Meta_tree (e : rb_fault).

Abbreviation AM := (M alloc_fault MetaAllocator).

Definition meta_assert (b : bool) : AM unit := if b then mret tt else mfail Meta_assert.

(** ** Objects and trees *)

Definition in_free {A} (m : TreeM FreeSpaceNode A) : AM A := fun s =>
  match m (m_freeSpaceSizeMap s) with
  | Ok (a, t) => Ok (a, s <| m_freeSpaceSizeMap := t |>)
  | Err e => Err (Meta_tree e)
  end.

Definition in_tracker {A} (m : TreeM MetaAllocatorHandle A) : AM A := fun s =>
  match m (m_allocations s) with
  | Ok (a, t) => Ok (a, s <| m_allocations := t |>)
  | Err e => Err (Meta_tree e)
  end.

Section objects.
Context {A : Type}.

Definition get_object (p : Z) : TreeM A A := n ← node p; mret (m_object n).
Definition set_object (p : Z) (v : A) : TreeM A unit :=
  set_node p (fun n => mk_node (m_left n) (m_right n) (m_parentAndRed n) v).
Definition new_object (p : Z) (v : A) : TreeM A unit :=
  mmod (fun t => mk_tree (<[p := mk_node 0 0 0 v]> (nodes t)) (m_root t)).
Definition delete_object (p : Z) : TreeM A unit :=
  node p;; mmod (fun t => mk_tree (delete p (nodes t)) (m_root t)).

End objects.

(** ** Hash maps

    Zero and minus one stand for empty and deleted places and are no keys. *)

Definition is_key (k : Z) : bool := negb (k =? 0) && negb (k =? 18446744073709551615).

Definition map_find (f : MetaAllocator -> gmap Z Z) (k : Z) : AM (option Z) :=
  meta_assert (is_key k);; mgets (fun s => f s !! k).
Definition map_add (f : MetaAllocator -> gmap Z Z) `{!Upd f} (k v : Z) : AM unit :=
  meta_assert (is_key k);;
  mmod (fun s => match f s !! k with Some _ => s | None => s <| f := <[k := v]> (f s) |> end).
Definition map_remove (f : MetaAllocator -> gmap Z Z) `{!Upd f} (k : Z) : AM unit :=
  meta_assert (is_key k);; mmod (fun s => s <| f := delete k (f s) |>).

(** ** Utilities *)

Definition roundUp (sizeInBytes : Z) : AM Z :=
  g ← mgets m_allocationGranule;
  if u64 (18446744073709551615 - g) <=? sizeInBytes then mfail Meta_crash
  else mret (Z.land (u64 (u64 (sizeInBytes + g) - 1)) (u64 (Z.lnot (u64 (g - 1))))).

Definition allocFreeSpaceNode (e : external) : AM Z :=
  mmod (fun s => s <| m_mallocBalance := u64 (m_mallocBalance s + 1) |>);;
  in_free (new_object (ext_node e) (mk_free 0 0));;
  mret (ext_node e).

Definition freeFreeSpaceNode (p : Z) : AM unit :=
  mmod (fun s => s <| m_mallocBalance := u64 (m_mallocBalance s - 1) |>);;
  in_free (delete_object p).

(** The page of an address. *)
Definition page_of (s : MetaAllocator) (address : Z) : Z := Z.shiftr address (m_logPageSize s).

(** ** Occupancy of pages *)

Definition need_page (page : Z) : AM unit :=
  iter ← map_find m_pageOccupancyMap page;
  match iter with
  | None =>
      map_add m_pageOccupancyMap page 1;;
      mmod (fun s => s <| m_bytesCommitted := u64 (m_bytesCommitted s + m_pageSize s) |>);;
      mmod (fun s => s <| pages := NeedPage (u64 (Z.shiftl page (m_logPageSize s))) :: pages s |>)
  | Some n => mmod (fun s => s <| m_pageOccupancyMap := <[page := u64 (n + 1)]> (m_pageOccupancyMap s) |>)
  end.

Definition leave_page (page : Z) : AM unit :=
  iter ← map_find m_pageOccupancyMap page;
  match iter with
  | None => mfail Meta_assert
  | Some n =>
      mmod (fun s => s <| m_pageOccupancyMap := <[page := u64 (n - 1)]> (m_pageOccupancyMap s) |>);;
      if negb (truthy (u64 (n - 1))) then
        map_remove m_pageOccupancyMap page;;
        mmod (fun s => s <| m_bytesCommitted := u64 (m_bytesCommitted s - m_pageSize s) |>);;
        mmod (fun s => s <| pages := PageIsFree (u64 (Z.shiftl page (m_logPageSize s))) :: pages s |>)
      else mret tt
  end.

(** [for (page = firstPage; page <= lastPage; ++page)] *)
Fixpoint page_loop (fuel : nat) (body : Z -> AM unit) (page lastPage : Z) : AM unit :=
  match fuel with
  | O => mfail Meta_fuel
  | S fuel' =>
      if page <=? lastPage then body page;; page_loop fuel' body (u64 (page + 1)) lastPage
      else mret tt
  end.

Definition over_pages (body : Z -> AM unit) (address sizeInBytes : Z) : AM unit :=
  firstPage ← mgets (fun s => page_of s address);
  lastPage ← mgets (fun s => page_of s (u64 (u64 (address + sizeInBytes) - 1)));
  page_loop (S (Z.to_nat (lastPage - firstPage + 1))) body firstPage lastPage.

Definition incrementPageOccupancy (address sizeInBytes : Z) : AM unit :=
  over_pages need_page address sizeInBytes.
Definition decrementPageOccupancy (address sizeInBytes : Z) : AM unit :=
  over_pages leave_page address sizeInBytes.

(** ** Free space *)

(** Both neighbours are free: the left one grows over the block and the right
    one, which goes. *)
Definition coalesce_both (leftNode rightNode leftStart leftSize rightStart sizeInBytes end_ : Z) : AM unit :=
  rv ← in_free (get_object rightNode);
  meta_assert (m_start rv =? rightStart);;
  let rightSize := m_sizeInBytes rv in
  let rightEnd := u64 (rightStart + rightSize) in
  meta_assert (rightStart =? end_);;
  meta_assert (u64 (u64 (u64 (leftStart + leftSize) + sizeInBytes) + rightSize) =? rightEnd);;
  in_free (remove rightNode);;
  map_remove m_freeSpaceStartAddressMap rightStart;;
  map_remove m_freeSpaceEndAddressMap rightEnd;;
  freeFreeSpaceNode rightNode;;
  lv ← in_free (get_object leftNode);
  in_free (set_object leftNode (mk_free (m_start lv) (u64 (m_sizeInBytes lv + u64 (sizeInBytes + rightSize)))));;
  in_free (insert leftNode);;
  map_add m_freeSpaceEndAddressMap rightEnd leftNode.

Definition coalesce_left (leftNode sizeInBytes end_ : Z) : AM unit :=
  lv ← in_free (get_object leftNode);
  in_free (set_object leftNode (mk_free (m_start lv) (u64 (m_sizeInBytes lv + sizeInBytes))));;
  in_free (insert leftNode);;
  map_add m_freeSpaceEndAddressMap end_ leftNode.

Definition coalesce_right (rightNode rightStart start sizeInBytes end_ : Z) : AM unit :=
  rv ← in_free (get_object rightNode);
  let rightSize := m_sizeInBytes rv in
  let rightEnd := u64 (rightStart + rightSize) in
  meta_assert (rightStart =? end_);;
  meta_assert (u64 (u64 (start + sizeInBytes) + rightSize) =? rightEnd);;
  in_free (remove rightNode);;
  map_remove m_freeSpaceStartAddressMap rightStart;;
  rv ← in_free (get_object rightNode);
  in_free (set_object rightNode (mk_free start (u64 (m_sizeInBytes rv + sizeInBytes))));;
  in_free (insert rightNode);;
  map_add m_freeSpaceStartAddressMap start rightNode.

Definition new_block (e : external) (start sizeInBytes end_ : Z) : AM unit :=
  node ← allocFreeSpaceNode e;
  in_free (set_object node (mk_free start sizeInBytes));;
  in_free (insert node);;
  map_add m_freeSpaceStartAddressMap start node;;
  map_add m_freeSpaceEndAddressMap end_ node.

Definition addFreeSpace (e : external) (start sizeInBytes : Z) : AM unit :=
  let end_ := u64 (start + sizeInBytes) in
  leftNeighbor ← map_find m_freeSpaceEndAddressMap start;
  rightNeighbor ← map_find m_freeSpaceStartAddressMap end_;
  match leftNeighbor with
  | Some leftNode =>
      lv ← in_free (get_object leftNode);
      meta_assert (u64 (m_start lv + m_sizeInBytes lv) =? start);;
      let leftStart := m_start lv in
      let leftSize := m_sizeInBytes lv in
      let leftEnd := u64 (leftStart + leftSize) in
      meta_assert (leftEnd =? start);;
      in_free (remove leftNode);;
      map_remove m_freeSpaceEndAddressMap leftEnd;;
      match rightNeighbor with
      | Some rightNode => coalesce_both leftNode rightNode leftStart leftSize end_ sizeInBytes end_
      | None => coalesce_left leftNode sizeInBytes end_
      end
  | None =>
      match rightNeighbor with
      | Some rightNode => coalesce_right rightNode end_ start sizeInBytes end_
      | None => new_block e start sizeInBytes end_
      end
  end.

(** Where the block of [node] straddles no more pages to the left, its left end
    is taken, else its right end. *)
Definition takes_left (s : MetaAllocator) (nv : FreeSpaceNode) (sizeInBytes : Z) : bool :=
  let firstPage := page_of s (m_start nv) in
  let lastPage := page_of s (u64 (u64 (m_start nv + m_sizeInBytes nv) - 1)) in
  let lastPageForLeftAllocation := page_of s (u64 (u64 (m_start nv + sizeInBytes) - 1)) in
  let firstPageForRightAllocation := page_of s (u64 (u64 (m_start nv + m_sizeInBytes nv) - sizeInBytes)) in
  u64 (u64 (lastPageForLeftAllocation - firstPage) + 1) <=? u64 (u64 (lastPage - firstPageForRightAllocation) + 1).

Definition take_all (node : Z) (nv : FreeSpaceNode) : AM Z :=
  map_remove m_freeSpaceStartAddressMap (m_start nv);;
  map_remove m_freeSpaceEndAddressMap (u64 (m_start nv + m_sizeInBytes nv));;
  freeFreeSpaceNode node;;
  mret (m_start nv).

Definition take_left (node : Z) (nv : FreeSpaceNode) (sizeInBytes : Z) : AM Z :=
  map_remove m_freeSpaceStartAddressMap (m_start nv);;
  let nv' := mk_free (u64 (m_start nv + sizeInBytes)) (u64 (m_sizeInBytes nv - sizeInBytes)) in
  in_free (set_object node nv');;
  in_free (insert node);;
  map_add m_freeSpaceStartAddressMap (m_start nv') node;;
  mret (m_start nv).

Definition take_right (node : Z) (nv : FreeSpaceNode) (sizeInBytes : Z) : AM Z :=
  let result := u64 (u64 (m_start nv + m_sizeInBytes nv) - sizeInBytes) in
  map_remove m_freeSpaceEndAddressMap (u64 (m_start nv + m_sizeInBytes nv));;
  in_free (set_object node (mk_free (m_start nv) (u64 (m_sizeInBytes nv - sizeInBytes))));;
  in_free (insert node);;
  map_add m_freeSpaceEndAddressMap result node;;
  mret result.

Definition findAndRemoveFreeSpace (sizeInBytes : Z) : AM Z :=
  node ← in_free (findLeastGreaterThanOrEqual sizeInBytes);
  if negb (truthy node) then mret 0
  else
    nv ← in_free (get_object node);
    meta_assert (sizeInBytes <=? m_sizeInBytes nv);;
    in_free (remove node);;
    if m_sizeInBytes nv =? sizeInBytes then take_all node nv
    else
      s ← mget;
      if takes_left s nv sizeInBytes then take_left node nv sizeInBytes
      else take_right node nv sizeInBytes.

Definition addFreeSpaceFromReleasedHandle (e : external) (start sizeInBytes : Z) : AM unit :=
  mmod (fun s => s <| m_bytesAllocated := u64 (m_bytesAllocated s - sizeInBytes) |>);;
  addFreeSpace e start sizeInBytes.

Definition addFreshFreeSpace (e : external) (start sizeInBytes : Z) : AM unit :=
  mmod (fun s => s <| m_bytesReserved := u64 (m_bytesReserved s + sizeInBytes) |>);;
  addFreeSpace e start sizeInBytes.

Definition debugFreeSpaceSize : AM Z :=
  in_free (
    node ← first; fuel ← mgets fuel_of;
    each_loop fuel (fun result p => v ← get_object p; mret (u64 (result + m_sizeInBytes v))) 0 node).

(** ** Handles *)

Definition tracker_notify (h : Z) : AM unit := in_tracker (insert h).
Definition tracker_release (h : Z) : AM unit := in_tracker (remove h);; mret tt.
Definition tracker_find (address : Z) : AM Z :=
  handle ← in_tracker (findGreatestLessThanOrEqual address);
  if truthy handle then
    hv ← in_tracker (get_object handle);
    if address <? endAsInteger hv then mret handle else mret 0
  else mret 0.

Definition trackAllocations : AM unit := mmod (fun s => s <| m_tracker := true |>).

(** Space for [sizeInBytes] in new pages; null if there are none. *)
Definition fresh_space (e : external) (sizeInBytes : Z) : AM Z :=
  s ← mget;
  let requestedNumberOfPages :=
    Z.shiftr (u64 (u64 (sizeInBytes + m_pageSize s) - 1)) (m_logPageSize s) in
  let '(start, numberOfPages) := allocateNewSpace e requestedNumberOfPages in
  if negb (truthy start) then mret 0
  else
    meta_assert (requestedNumberOfPages <=? numberOfPages);;
    let roundedUpSize := u64 (Z.shiftl numberOfPages (m_logPageSize s)) in
    meta_assert (sizeInBytes <=? roundedUpSize);;
    mmod (fun s => s <| m_bytesReserved := u64 (m_bytesReserved s + roundedUpSize) |>);;
    mwhen (sizeInBytes <? roundedUpSize)
      (addFreeSpace e (u64 (start + sizeInBytes)) (u64 (roundedUpSize - sizeInBytes)));;
    mret start.

Definition allocate (e : external) (sizeInBytes ownerUID : Z) : AM Z :=
  if negb (truthy sizeInBytes) then mret 0
  else
    sizeInBytes ← roundUp sizeInBytes;
    start ← findAndRemoveFreeSpace sizeInBytes;
    start ← (if negb (truthy start) then fresh_space e sizeInBytes else mret start);
    if negb (truthy start) then mret 0
    else
      incrementPageOccupancy start sizeInBytes;;
      mmod (fun s => s <| m_bytesAllocated := u64 (m_bytesAllocated s + sizeInBytes) |>);;
      meta_assert (truthy start);;
      meta_assert (truthy sizeInBytes);;
      in_tracker (new_object (ext_handle e) (mk_handle start sizeInBytes ownerUID));;
      tracker ← mgets m_tracker;
      mwhen tracker (tracker_notify (ext_handle e));;
      mret (ext_handle e).

(** [release], called when the last reference to the handle is dropped, and the
    end of the handle. *)
Definition release (e : external) (h : Z) : AM unit :=
  hv ← in_tracker (get_object h);
  mwhen (truthy (h_sizeInBytes hv))
    (decrementPageOccupancy (h_start hv) (h_sizeInBytes hv);;
     addFreeSpaceFromReleasedHandle e (h_start hv) (h_sizeInBytes hv));;
  tracker ← mgets m_tracker;
  mwhen tracker (tracker_release h).

Definition destroy_handle (e : external) (h : Z) : AM unit :=
  release e h;; in_tracker (delete_object h).

Definition shrink (e : external) (h newSizeInBytes : Z) : AM unit :=
  hv ← in_tracker (get_object h);
  meta_assert (newSizeInBytes <=? h_sizeInBytes hv);;
  newSizeInBytes ← roundUp newSizeInBytes;
  meta_assert (newSizeInBytes <=? h_sizeInBytes hv);;
  if newSizeInBytes =? h_sizeInBytes hv then mret tt
  else
    pageSize ← mgets m_pageSize;
    let freeStart := u64 (h_start hv + newSizeInBytes) in
    let freeSize := u64 (h_sizeInBytes hv - newSizeInBytes) in
    let freeEnd := u64 (freeStart + freeSize) in
    let firstCompletelyFreePage :=
      Z.land (u64 (u64 (freeStart + pageSize) - 1)) (u64 (Z.lnot (u64 (pageSize - 1)))) in
    mwhen (firstCompletelyFreePage <? freeEnd)
      (decrementPageOccupancy firstCompletelyFreePage
         (u64 (freeSize - u64 (firstCompletelyFreePage - freeStart))));;
    addFreeSpaceFromReleasedHandle e freeStart freeSize;;
    in_tracker (set_object h (mk_handle (h_start hv) newSizeInBytes (h_ownerUID hv))).

(** ** The allocator's life *)

(** [for (log = 0; log < 32; ++log) if (1 << log == size) break;] *)
Fixpoint log_loop (fuel : nat) (log size : Z) : Z :=
  match fuel with
  | O => log
  | S fuel' => if u64 (Z.shiftl 1 log) =? size then log else log_loop fuel' (log + 1) size
  end.
Definition log_of (size : Z) : Z := log_loop 32 0 size.

Definition new_allocator (allocationGranule pageSize : Z) : res alloc_fault MetaAllocator :=
  let logPageSize := log_of pageSize in
  let logAllocationGranule := log_of allocationGranule in
  if negb (u64 (Z.shiftl 1 logPageSize) =? pageSize) then Err Meta_assert
  else if negb (u64 (Z.shiftl 1 logAllocationGranule) =? allocationGranule) then Err Meta_assert
  else Ok (mk_allocator allocationGranule logAllocationGranule pageSize logPageSize
             empty_tree ∅ ∅ ∅ 0 0 0 false 0 empty_tree []).

Fixpoint free_all_loop (fuel : nat) (node : Z) : AM unit :=
  match fuel with
  | O => mfail Meta_fuel
  | S fuel' =>
      if negb (truthy node) then mret tt
      else
        next ← in_free (successor node);
        in_free (remove node);;
        freeFreeSpaceNode node;;
        free_all_loop fuel' next
  end.

Definition destroy_allocator : AM unit :=
  node ← in_free first;
  fuel ← mgets (fun s => fuel_of (m_freeSpaceSizeMap s));
  free_all_loop fuel node;;
  balance ← mgets m_mallocBalance;
  meta_assert (negb (truthy balance)).

Record Statistics := mk_statistics { bytesAllocated : Z; bytesReserved : Z; bytesCommitted : Z }.

Definition currentStatistics : AM Statistics :=
  mgets (fun s => mk_statistics (m_bytesAllocated s) (m_bytesReserved s) (m_bytesCommitted s)).

(** ** The fixed pool of JavaScriptCore/jit/ExecutableAllocatorFixedVMPool.cpp *)

Definition jitAllocationGranule : Z := 32.

(** New space is never given. *)
Definition fixed_external (node handle : Z) : external := mk_external node handle (fun n => (0, n)).

(** The constructor, after [base] was reserved, null if it could not be. *)
Definition new_fixed_pool (node pageSize base size : Z) : res alloc_fault MetaAllocator :=
  match new_allocator jitAllocationGranule pageSize with
  | Err e => Err e
  | Ok s =>
      if negb (truthy base) then Ok s
      else match addFreshFreeSpace (fixed_external node 0) base size s with
           | Ok (_, s') => Ok s'
           | Err e => Err e
           end
  end.

Definition isValid (s : MetaAllocator) : bool := truthy (m_bytesReserved s).
Definition underMemoryPressure (s : MetaAllocator) : bool := m_bytesReserved s / 2 <? m_bytesAllocated s.
