(* ===== verification/MetaLayout.v ===== *)
(** * The allocator: blocks of address space

    The layout the allocator manages, without its data structures: finite maps
    of blocks (a start and a size), the bytes they own, and the indexes that
    find a block by one of its ends. *)

From stdpp Require Import base numbers list gmap.
From S2P Require Import Prelude.

#[local] Open Scope Z_scope.

Definition block : Type := Z * Z.
Definition b_end (b : block) : Z := b.1 + b.2.
Definition in_block (b : block) (a : Z) : Prop := b.1 <= a < b_end b.

Implicit Types (B : gmap Z block) (b : block).

(** The byte [a] is in a block of [B]. *)
Definition owns B (a : Z) : Prop := exists p b, B !! p = Some b /\ in_block b a.

(** Blocks do not overlap. *)
Definition disj B : Prop :=
  forall p q b b' a, B !! p = Some b -> B !! q = Some b' -> in_block b a -> in_block b' a -> p = q.

(** No block ends where another starts. *)
Definition coalesced B : Prop :=
  forall p q b b', B !! p = Some b -> B !! q = Some b' -> b_end b <> b'.1.

(** A block of at least one granule of [2 ^ lg] bytes, from the second page of
    [2 ^ lp] bytes on, and below the last page of the address space. *)
Record block_ok (lg lp : Z) (b : block) : Prop := mk_block_ok {
  bk_page : 2 ^ lp <= b.1;
  bk_size : 0 < b.2;
  bk_end : b_end b < 2 ^ 64 - 2 ^ lp;
  bk_start_aligned : (2 ^ lg | b.1);
  bk_size_aligned : (2 ^ lg | b.2)
}.

Definition blocks_ok (lg lp : Z) B : Prop := forall p b, B !! p = Some b -> block_ok lg lp b.

(** The number of bytes. *)
Definition bsum B : Z := map_fold (fun _ b acc => b.2 + acc) 0 B.

Lemma bsum_empty : bsum ∅ = 0.
Proof. apply map_fold_empty. Qed.

Lemma bsum_insert B p b : B !! p = None -> bsum (<[p := b]> B) = b.2 + bsum B.
Proof. intros Hp. unfold bsum. rewrite map_fold_insert_L; [done | intros; lia | done]. Qed.

Lemma bsum_delete B p b : B !! p = Some b -> bsum (delete p B) = bsum B - b.2.
Proof.
  intros Hp. rewrite <- (insert_delete_id B p b Hp) at 2. rewrite bsum_insert by apply lookup_delete_eq. lia.
Qed.

Lemma bsum_update B p b b' : B !! p = Some b -> bsum (<[p := b']> B) = bsum B - b.2 + b'.2.
Proof.
  intros Hp. rewrite <- insert_delete_eq, bsum_insert by apply lookup_delete_eq.
  rewrite (bsum_delete _ _ b) by done. lia.
Qed.

Lemma owns_insert B p b a : B !! p = None -> owns (<[p := b]> B) a <-> in_block b a \/ owns B a.
Proof.
  intros Hp. split.
  - intros (q & b' & [[-> <-] | [_ Hq]]%lookup_insert_Some & Ha); [by left | right; by exists q, b'].
  - intros [Ha | (q & b' & Hq & Ha)]; [exists p, b; by rewrite lookup_insert_eq |].
    exists q, b'. rewrite lookup_insert_ne by congruence. done.
Qed.

Lemma owns_delete B p b a : disj B -> B !! p = Some b -> owns (delete p B) a <-> owns B a /\ ~ in_block b a.
Proof.
  intros Hd Hp. split.
  - intros (q & b' & [Hne Hq]%lookup_delete_Some & Ha). split; [by exists q, b' |].
    intros Hb. apply Hne. by eapply Hd.
  - intros [(q & b' & Hq & Ha) Hb]. exists q, b'. rewrite lookup_delete_ne by (intros ->; by simplify_eq). done.
Qed.

Lemma disj_delete B p : disj B -> disj (delete p B).
Proof. intros Hd q r b b' a [_ Hq]%lookup_delete_Some [_ Hr]%lookup_delete_Some. by eapply Hd. Qed.

Lemma coalesced_delete B p : coalesced B -> coalesced (delete p B).
Proof. intros Hd q r b b' [_ Hq]%lookup_delete_Some [_ Hr]%lookup_delete_Some. by eapply Hd. Qed.

Lemma blocks_ok_delete lg lp B p : blocks_ok lg lp B -> blocks_ok lg lp (delete p B).
Proof. intros Hd q b [_ Hq]%lookup_delete_Some. by eapply Hd. Qed.

Lemma disj_insert B p b : disj B -> (forall a, in_block b a -> ~ owns B a) -> disj (<[p := b]> B).
Proof.
  intros Hd Hb q r b1 b2 a [[<- <-] | [Hq Hq']]%lookup_insert_Some [[<- <-] | [Hr Hr']]%lookup_insert_Some H1 H2;
    [done | | | by eapply Hd].
  - destruct (Hb a H1). by exists r, b2.
  - destruct (Hb a H2). by exists q, b1.
Qed.

Lemma coalesced_insert B p b :
  coalesced B -> 0 < b.2 -> (forall q b', B !! q = Some b' -> b_end b <> b'.1 /\ b_end b' <> b.1) ->
  coalesced (<[p := b]> B).
Proof.
  intros Hc Hs Hb q r b1 b2 [[<- <-] | [Hq Hq']]%lookup_insert_Some [[<- <-] | [Hr Hr']]%lookup_insert_Some;
    [unfold b_end; lia | | | by eapply Hc].
  - by eapply Hb.
  - by eapply Hb.
Qed.

Lemma blocks_ok_insert lg lp B p b : blocks_ok lg lp B -> block_ok lg lp b -> blocks_ok lg lp (<[p := b]> B).
Proof. intros HB Hb q b' [[<- <-] | [_ Hq]]%lookup_insert_Some; [done | by eapply HB]. Qed.

(** ** The layout of the free blocks *)

Record free_ok (lg lp : Z) B : Prop := mk_free_ok {
  fo_blocks : blocks_ok lg lp B;
  fo_disj : disj B;
  fo_coalesced : coalesced B
}.

Lemma free_ok_empty lg lp : free_ok lg lp ∅.
Proof. split; [by intros ? ? ? | by intros ? ? ? ? ? ? | by intros ? ? ? ? ?]. Qed.

Lemma free_ok_delete lg lp B p : free_ok lg lp B -> free_ok lg lp (delete p B).
Proof.
  intros []. split; [by apply blocks_ok_delete | by apply disj_delete | by apply coalesced_delete].
Qed.

Lemma free_ok_insert lg lp B p b :
  free_ok lg lp B -> block_ok lg lp b -> (forall a, in_block b a -> ~ owns B a) ->
  (forall q b', B !! q = Some b' -> b_end b <> b'.1 /\ b_end b' <> b.1) -> free_ok lg lp (<[p := b]> B).
Proof.
  intros [] Hb Ho Hadj. split; [by apply blocks_ok_insert | by apply disj_insert |].
  apply coalesced_insert; [done | apply Hb | done].
Qed.

(** The other blocks stay off the ends of a block of the layout. *)
Lemma free_ok_others lg lp B p b q b' :
  free_ok lg lp B -> B !! p = Some b -> B !! q = Some b' -> p <> q -> b_end b' < b.1 \/ b_end b < b'.1.
Proof.
  intros [Hk Hd Hc] Hp Hq Hpq. pose proof (Hc _ _ _ _ Hp Hq). pose proof (Hc _ _ _ _ Hq Hp).
  pose proof (bk_size _ _ _ (Hk _ _ Hp)). pose proof (bk_size _ _ _ (Hk _ _ Hq)).
  destruct (decide (b_end b' < b.1)); [by left |]. destruct (decide (b_end b < b'.1)); [by right |].
  exfalso. apply Hpq. unfold b_end in *.
  apply (Hd p q b b' (Z.max b.1 b'.1)); [done | done | unfold in_block, b_end; lia..].
Qed.

(** A block off all the bytes of the layout lies to one side of each block. *)
Lemma off_side lg lp B b q b' :
  free_ok lg lp B -> (forall a, in_block b a -> ~ owns B a) -> 0 < b.2 -> B !! q = Some b' ->
  b_end b' <= b.1 \/ b_end b <= b'.1.
Proof.
  intros [Hk _ _] Ho Hs Hq. pose proof (bk_size _ _ _ (Hk _ _ Hq)). unfold b_end in *.
  destruct (decide (b'.1 + b'.2 <= b.1)); [by left |]. destruct (decide (b.1 + b.2 <= b'.1)); [by right |].
  exfalso. apply (Ho (Z.max b.1 b'.1)); [unfold in_block, b_end; lia |].
  exists q, b'. unfold in_block, b_end. split; [done | lia].
Qed.

(** ** Indexes *)

(** [m] finds the blocks of [B] by [f]. *)
Definition indexed (f : block -> Z) B (m : gmap Z Z) : Prop :=
  forall a p, m !! a = Some p <-> exists b, B !! p = Some b /\ f b = a.

Lemma indexed_empty f : indexed f ∅ ∅.
Proof. intros a p. split; [done | by intros (b & ? & _)]. Qed.

Lemma indexed_none f B m a : indexed f B m -> m !! a = None <-> forall p b, B !! p = Some b -> f b <> a.
Proof.
  intros Hi. rewrite eq_None_not_Some. split.
  - intros Hn p b Hp Hf. apply Hn. exists p. apply Hi. eauto.
  - intros Hn [p (b & Hp & Hf)%Hi]. by eapply Hn.
Qed.

Lemma indexed_delete f B m p b :
  indexed f B m -> B !! p = Some b -> indexed f (delete p B) (delete (f b) m).
Proof.
  intros Hi Hp a q. rewrite lookup_delete_Some. rewrite (Hi a q). split.
  - intros (Hne & b' & Hq & <-). exists b'. rewrite lookup_delete_ne; [done |]. intros ->. by simplify_eq.
  - intros (b' & [Hne Hq]%lookup_delete_Some & <-). split; [| by exists b']. intros He.
    assert (m !! f b = Some p) as H1 by (apply Hi; eauto). assert (m !! f b' = Some q) as H2 by (apply Hi; eauto).
    rewrite He in H1. congruence.
Qed.

Lemma indexed_insert f B m p b :
  indexed f B m -> B !! p = None -> m !! f b = None -> indexed f (<[p := b]> B) (<[f b := p]> m).
Proof.
  intros Hi Hp Hm a q. split.
  - intros [[<- <-] | [Hne (b' & Hq & <-)%Hi]]%lookup_insert_Some.
    + exists b. by rewrite lookup_insert_eq.
    + exists b'. rewrite lookup_insert_ne by congruence. done.
  - intros (b' & [[<- <-] | [Hne Hq]]%lookup_insert_Some & <-); [by rewrite lookup_insert_eq |].
    assert (m !! f b' = Some q) as H2 by (apply Hi; eauto). rewrite lookup_insert_ne by congruence. done.
Qed.

Lemma indexed_keep f B m p b b' :
  indexed f B m -> B !! p = Some b -> f b = f b' -> indexed f (<[p := b']> B) m.
Proof.
  intros Hi Hp Hf a q. rewrite (Hi a q). split.
  - intros (b0 & Hq & <-). destruct (decide (p = q)) as [-> | Hne].
    + exists b'. rewrite lookup_insert_eq. simplify_eq. done.
    + exists b0. by rewrite lookup_insert_ne.
  - intros (b0 & [[<- <-] | [Hne Hq]]%lookup_insert_Some & <-); [by exists b | by exists b0].
Qed.

(** ** Freeing a block

    [B'] is [B] with the new block [c], merged with its neighbours. *)

Record freed (lg lp : Z) B (c : block) B' : Prop := mk_freed {
  fr_ok : free_ok lg lp B';
  fr_owns a : owns B' a <-> owns B a \/ in_block c a;
  fr_sum : bsum B' = bsum B + c.2
}.

Section freeing.
Context (lg lp : Z) (B : gmap Z block) (c : block).
Hypothesis Hok : free_ok lg lp B.
Hypothesis Hc : block_ok lg lp c.
Hypothesis Hoff : forall a, in_block c a -> ~ owns B a.

Lemma start_is_new st : indexed fst B st -> st !! c.1 = None.
Proof.
  intros Hi. apply (indexed_none fst B st _ Hi). intros p b Hp Hb. destruct Hok as [Hk _ _].
  pose proof (bk_size _ _ _ (Hk _ _ Hp)). pose proof (bk_size _ _ _ Hc).
  apply (Hoff c.1); [unfold in_block, b_end; lia |]. exists p, b. unfold in_block, b_end. split; [done | lia].
Qed.

Lemma end_is_new en : indexed b_end B en -> en !! b_end c = None.
Proof.
  intros Hi. apply (indexed_none b_end B en _ Hi). intros p b Hp Hb. destruct Hok as [Hk _ _].
  pose proof (bk_size _ _ _ (Hk _ _ Hp)). pose proof (bk_size _ _ _ Hc). unfold b_end in *.
  apply (Hoff (c.1 + c.2 - 1)); [unfold in_block, b_end; lia |].
  exists p, b. unfold in_block, b_end. split; [done | lia].
Qed.

Lemma freed_alone p :
  B !! p = None -> (forall q b, B !! q = Some b -> b_end b <> c.1 /\ b.1 <> b_end c) ->
  freed lg lp B c (<[p := c]> B).
Proof.
  intros Hp Hadj. split.
  - apply free_ok_insert; [done | done | done |]. intros q b Hq. destruct (Hadj q b Hq). done.
  - intros a. rewrite owns_insert by done. tauto.
  - rewrite bsum_insert by done. lia.
Qed.

(** The block of [p] grows over [c]. *)
Lemma freed_merge p b u :
  B !! p = Some b -> block_ok lg lp u -> u.2 = b.2 + c.2 ->
  (forall a, in_block u a <-> in_block b a \/ in_block c a) ->
  (forall q b', q <> p -> B !! q = Some b' -> b_end u <> b'.1 /\ b_end b' <> u.1) ->
  freed lg lp B c (<[p := u]> B).
Proof.
  intros Hp Hu Hs Hin Hadj. rewrite <- insert_delete_eq. split.
  - apply free_ok_insert; [by apply free_ok_delete | done | |].
    + intros a Ha. rewrite (owns_delete _ _ b) by (done || apply Hok). apply Hin in Ha as [Ha | Ha%Hoff]; tauto.
    + intros q b' [Hpq Hq]%lookup_delete_Some. by apply (Hadj q).
  - intros a. rewrite owns_insert by apply lookup_delete_eq. rewrite (owns_delete _ _ b) by (done || apply Hok).
    rewrite Hin. assert (in_block b a -> owns B a) by (intros; by exists p, b).
    assert (in_block b a \/ ~ in_block b a) by (unfold in_block; lia). tauto.
  - rewrite insert_delete_eq, (bsum_update _ _ b) by done. lia.
Qed.

Lemma freed_left p b :
  B !! p = Some b -> b_end b = c.1 -> (forall q b', B !! q = Some b' -> b'.1 <> b_end c) ->
  freed lg lp B c (<[p := (b.1, b.2 + c.2)]> B).
Proof.
  intros Hp Hb Hadj. pose proof (fo_blocks _ _ _ Hok _ _ Hp) as Kb. destruct Kb, Hc.
  apply (freed_merge p b); [done | | done | unfold in_block, b_end in *; simpl; lia |].
  - split; simpl; [done | lia | unfold b_end in *; simpl; lia | done | by apply Z.divide_add_r].
  - intros q b' Hpq Hq. pose proof (free_ok_others _ _ _ _ _ _ _ Hok Hp Hq ltac:(done)).
    pose proof (bk_size _ _ _ (fo_blocks _ _ _ Hok _ _ Hq)). pose proof (Hadj _ _ Hq). unfold b_end in *. simpl. lia.
Qed.

Lemma freed_right q b :
  B !! q = Some b -> b.1 = b_end c -> (forall p b', B !! p = Some b' -> b_end b' <> c.1) ->
  freed lg lp B c (<[q := (c.1, b.2 + c.2)]> B).
Proof.
  intros Hq Hb Hadj. pose proof (fo_blocks _ _ _ Hok _ _ Hq) as Kb. destruct Kb, Hc.
  apply (freed_merge q b); [done | | done | unfold in_block, b_end in *; simpl; lia |].
  - split; simpl; [done | lia | unfold b_end in *; simpl; lia | done | by apply Z.divide_add_r].
  - intros p b' Hpq Hp. pose proof (free_ok_others _ _ _ _ _ _ _ Hok Hq Hp ltac:(done)).
    pose proof (bk_size _ _ _ (fo_blocks _ _ _ Hok _ _ Hp)). pose proof (Hadj _ _ Hp). unfold b_end in *. simpl. lia.
Qed.

End freeing.

(** Between two free blocks: the left one takes all, as if the right one had
    been merged first. *)
Lemma freed_both lg lp B c p b q b' :
  free_ok lg lp B -> block_ok lg lp c -> (forall a, in_block c a -> ~ owns B a) ->
  B !! p = Some b -> b_end b = c.1 -> B !! q = Some b' -> b'.1 = b_end c ->
  freed lg lp B c (<[p := (b.1, b.2 + (c.2 + b'.2))]> (delete q B)).
Proof.
  intros Hok Hc Hoff Hp Hb Hq Hb'. assert (p <> q) as Hpq.
  { intros ->. simplify_eq. pose proof (bk_size _ _ _ Hc). pose proof (bk_size _ _ _ (fo_blocks _ _ _ Hok _ _ Hp)).
    unfold b_end in *. lia. }
  pose proof (fo_blocks _ _ _ Hok _ _ Hq) as Kb'. pose proof Hc as [? ? ? ? ?]. destruct Kb'.
  assert (forall a, in_block (c.1, c.2 + b'.2) a <-> in_block c a \/ in_block b' a) as Hin.
  { intros a. unfold in_block, b_end in *. simpl. lia. }
  destruct (freed_left lg lp (delete q B) (c.1, c.2 + b'.2)) with (p := p) (b := b) as [H1 H2 H3].
  - by apply free_ok_delete.
  - split; simpl; [done | lia | unfold b_end in *; simpl; lia | done | by apply Z.divide_add_r].
  - intros a Ha. rewrite (owns_delete _ _ b') by (done || apply Hok). apply Hin in Ha as [Ha%Hoff | Ha]; tauto.
  - by rewrite lookup_delete_ne.
  - done.
  - intros x b0 [Hx Hx']%lookup_delete_Some. pose proof (free_ok_others _ _ _ _ _ _ _ Hok Hq Hx' ltac:(done)).
    pose proof (bk_size _ _ _ (fo_blocks _ _ _ Hok _ _ Hx')). unfold b_end in *. simpl. lia.
  - split; [done | |].
    + intros a. rewrite H2, Hin. rewrite (owns_delete _ _ b') by (done || apply Hok).
      assert (in_block b' a -> owns B a) by (intros; by exists q, b').
      assert (in_block b' a \/ ~ in_block b' a) by (unfold in_block; lia). tauto.
    + simpl in H3. rewrite H3, (bsum_delete _ _ b') by done. lia.
Qed.

(** ** Taking a part of a block *)

Lemma free_ok_part lg lp B p b b' :
  free_ok lg lp B -> B !! p = Some b -> block_ok lg lp b' -> b.1 <= b'.1 -> b_end b' <= b_end b ->
  free_ok lg lp (<[p := b']> B) /\
  (forall a, owns (<[p := b']> B) a <-> owns B a /\ (in_block b a -> in_block b' a)).
Proof.
  intros Hok Hp Hb' Hl Hr. rewrite <- insert_delete_eq.
  assert (forall a, in_block b' a -> in_block b a) as Hin by (unfold in_block; lia). split.
  - apply free_ok_insert; [by apply free_ok_delete | done | |].
    + intros a Ha. rewrite (owns_delete _ _ b) by (done || apply Hok). intros [_ H]. by apply H, Hin.
    + intros q b0 [Hpq Hq]%lookup_delete_Some. pose proof (free_ok_others _ _ _ _ _ _ _ Hok Hp Hq ltac:(done)).
      pose proof (bk_size _ _ _ (fo_blocks _ _ _ Hok _ _ Hq)). pose proof (bk_size _ _ _ Hb'). unfold b_end in *. lia.
  - intros a. rewrite owns_insert by apply lookup_delete_eq. rewrite (owns_delete _ _ b) by (done || apply Hok).
    assert (in_block b a -> owns B a) by (intros; by exists p, b). specialize (Hin a).
    assert (in_block b a \/ ~ in_block b a) by (unfold in_block; lia). tauto.
Qed.

(** ** Sums and single blocks *)

(** The size of the block of a node. *)
Definition size_at B (p : Z) : Z := match (B !! p : option block) with Some b => snd (b : block) | None => 0 end.

Lemma bsum_list B (l : list Z) :
  NoDup l -> (forall x, x ∈ l <-> is_Some (B !! x)) ->
  bsum B = foldr (fun p acc => size_at B p + acc) 0 l.
Proof.
  revert B. induction l as [| x l IH]; intros B Hn Hl; cbn [foldr].
  - assert (B = ∅) as ->; [| apply bsum_empty]. apply map_eq. intros i. rewrite lookup_empty.
    apply eq_None_not_Some. rewrite <- Hl. by intros ?%elem_of_nil.
  - apply NoDup_cons in Hn as [Hx Hn]. assert (is_Some (B !! x)) as [b Hb] by (apply Hl; set_solver).
    assert (size_at B x = b.2) as -> by (unfold size_at; by rewrite Hb). assert (bsum (delete x B) = bsum B - b.2) as Hd by (by apply bsum_delete).
    rewrite (IH (delete x B)) in Hd; [| done |].
    + assert (forall k, x ∉ k -> foldr (fun p acc => size_at (delete x B) p + acc) 0 k =
        foldr (fun p acc => size_at B p + acc) 0 k) as Hf.
      { induction k as [| y k IHk]; intros Hk; cbn [foldr]; [done |]. rewrite IHk by set_solver.
        unfold size_at at 1 3. by rewrite lookup_delete_ne by set_solver. }
      rewrite Hf in Hd by done. lia.
    + intros y. rewrite lookup_delete_is_Some, <- Hl. set_solver.
Qed.

(** Free space that is one interval is one block. *)
Lemma single_block lg lp B c :
  free_ok lg lp B -> 0 < c.2 -> (forall a, owns B a <-> in_block c a) -> exists p, B !! p = Some c.
Proof.
  intros [Hk Hd Hc] Hs Ho. assert (owns B c.1) as (p & b & Hp & Hb) by (apply Ho; unfold in_block, b_end; lia).
  pose proof (bk_size _ _ _ (Hk _ _ Hp)) as Hbs. exists p. etrans; [exact Hp |]. f_equal.
  assert (in_block c b.1) as H1 by (apply Ho; exists p, b; unfold in_block, b_end; split; [done | lia]).
  assert (in_block c (b_end b - 1)) as H2 by (apply Ho; exists p, b; unfold in_block, b_end in *; split; [done | lia]).
  assert (b_end b = b_end c) as He.
  { destruct (decide (b_end b = b_end c)) as [| Hne]; [done | exfalso].
    assert (owns B (b_end b)) as (q & b' & Hq & Hb') by (apply Ho; unfold in_block, b_end in *; lia).
    assert (in_block c b'.1) as H3.
    { apply Ho. exists q, b'. split; [done |]. unfold in_block, b_end in *. lia. }
    destruct (decide (b'.1 = b_end b)) as [Heq | Hneq]; [by apply (Hc p q b b' Hp Hq) |].
    assert (p = q) as ->; [| simplify_eq; unfold in_block, b_end in *; lia].
    apply (Hd p q b b' b'.1 Hp Hq); unfold in_block, b_end in *; lia. }
  destruct b as [b1 b2], c as [c1 c2]. unfold in_block, b_end in *. simpl in *. f_equal; lia.
Qed.

(** The set of the bytes of disjoint blocks has as many elements as their sum. *)
Lemma bytes_of B :
  disj B -> (forall p b, B !! p = Some b -> 0 <= b.2) ->
  exists X : gset Z, Z.of_nat (size X) = bsum B /\ forall a, a ∈ X <-> owns B a.
Proof.
  induction B as [| p b B Hp IH] using map_ind; intros Hd Hs.
  - exists ∅. rewrite bsum_empty, size_empty. split; [done |]. intros a. split; [set_solver | by intros (p & b & ? & _)].
  - assert (forall q b', B !! q = Some b' -> p <> q) as Hne by (intros q b' Hq ->; by simplify_eq).
    destruct IH as (X & HX & Ho).
    + intros q r b1 b2 a Hq Hr. apply Hd; rewrite lookup_insert_ne by (by eapply Hne); done.
    + intros q b' Hq. apply (Hs q). rewrite lookup_insert_ne by (by eapply Hne). done.
    + pose proof (Hs p b (lookup_insert_eq _ _ _)) as Hb. exists (list_to_set (seqZ b.1 b.2) ∪ X).
      assert (forall a, a ∈ (list_to_set (seqZ b.1 b.2) : gset Z) <-> in_block b a) as Hin.
      { intros a. rewrite elem_of_list_to_set, elem_of_seqZ. unfold in_block, b_end. done. }
      split; [| intros a; by rewrite elem_of_union, Hin, Ho, owns_insert].
      rewrite bsum_insert by done. rewrite size_union; [rewrite size_list_to_set, length_seqZ by apply NoDup_seqZ; lia |].
      intros a Ha%Hin (q & b' & Hq & Ha')%Ho. apply (Hne q b' Hq).
      apply (Hd p q b b' a); [by rewrite lookup_insert_eq | by rewrite lookup_insert_ne by (by eapply Hne) | done | done].
Qed.

(** Blocks below [N] that do not overlap have at most [N] bytes together. *)
Lemma bsum_two_bound B B' N :
  disj B -> disj B' -> (forall a, owns B a -> ~ owns B' a) -> 0 <= N ->
  (forall p b, B !! p = Some b -> 0 <= b.1 /\ 0 <= b.2 /\ b_end b <= N) ->
  (forall p b, B' !! p = Some b -> 0 <= b.1 /\ 0 <= b.2 /\ b_end b <= N) ->
  0 <= bsum B /\ 0 <= bsum B' /\ bsum B + bsum B' <= N.
Proof.
  intros H1 H2 Hx HN K1 K2. destruct (bytes_of B H1) as (X & HX & Ho); [intros p b Hp; apply (K1 p b Hp) |].
  destruct (bytes_of B' H2) as (X' & HX' & Ho'); [intros p b Hp; apply (K2 p b Hp) |].
  assert (size (X ∪ X') <= size (list_to_set (seqZ 0 N) : gset Z))%nat as Hle.
  { apply subseteq_size. intros a Ha. apply elem_of_list_to_set, elem_of_seqZ.
    apply elem_of_union in Ha as [(p & b & Hp & Hin)%Ho | (p & b & Hp & Hin)%Ho'];
      [apply K1 in Hp | apply K2 in Hp]; unfold in_block in Hin; lia. }
  rewrite size_union, size_list_to_set, length_seqZ in Hle; [lia | apply NoDup_seqZ |].
  intros a Ha%Ho Ha'%Ho'. by apply (Hx a).
Qed.
