(* ===== verification/MetaFree.v ===== *)
(** * The allocator: free space

    The tree of free blocks, its two indexes and the count of its nodes, seen
    as a map of blocks; adding and taking free space. *)

From stdpp Require Import base numbers list gmap.
From S2P Require Import Prelude RBTree RBRepr RBInsert RBRemove RBFind TreeLaws MetaAllocator MetaLayout.

#[local] Open Scope Z_scope.

(** Words that do not wrap, the inner ones first. *)
Ltac no_wrap :=
  repeat match goal with
  | |- context [u64 ?x] => lazymatch x with context [u64 _] => fail | _ => rewrite (u64_id x) by lia end
  end.

Lemma elem_insert_spec {A} `{NodeKey A} (V : gmap Z A) z l x : x ∈ insert_spec V z l <-> x = z \/ x ∈ l.
Proof.
  unfold insert_spec. rewrite elem_of_app, elem_of_cons, !list_elem_of_filter.
  destruct (decide (keyof V x <= keyof V z)); split; intuition lia.
Qed.

Lemma elem_remove_spec z l x : x ∈ remove_spec z l <-> x <> z /\ x ∈ l.
Proof. unfold remove_spec. by rewrite list_elem_of_filter. Qed.

Definition unblk (b : block) : FreeSpaceNode := mk_free b.1 b.2.

(** The allocator without the free space. *)
Definition rest (s : MetaAllocator) : MetaAllocator :=
  s <| m_freeSpaceSizeMap := empty_tree |> <| m_freeSpaceStartAddressMap := ∅ |>
    <| m_freeSpaceEndAddressMap := ∅ |> <| m_mallocBalance := 0 |>.

Section free.
Context {wf : gmap Z FreeSpaceNode -> RedBlackTree FreeSpaceNode -> list Z -> Prop} `{OT : !OrderedTree wf}.

Implicit Types (s : MetaAllocator) (B : gmap Z block) (b : block) (D : gset Z).

(** The blocks [B] have nodes; those of [D] are out of the tree. *)
Record fview s B D (st en : gmap Z Z) (n : Z) (R : MetaAllocator) : Prop := mk_fview {
  fv_tree : exists l, wf (unblk <$> B) (m_freeSpaceSizeMap s) l /\
                      forall x, x ∈ l <-> is_Some (B !! x) /\ x ∉ D;
  fv_addr p : is_Some (B !! p) -> addr_ok p;
  fv_start : m_freeSpaceStartAddressMap s = st;
  fv_end : m_freeSpaceEndAddressMap s = en;
  fv_balance : m_mallocBalance s = n;
  fv_rest : rest s = R
}.

Lemma wp_in_free {A} (m : TreeM FreeSpaceNode A) s (Q : A -> MetaAllocator -> Prop) :
  wp m (m_freeSpaceSizeMap s) (fun a t => Q a (s <| m_freeSpaceSizeMap := t |>)) -> wp (in_free m) s Q.
Proof. unfold wp, in_free. by destruct (m (m_freeSpaceSizeMap s)) as [[a t] |]. Qed.

(** One step of the tree. *)
Lemma fv_step {A} (m : TreeM FreeSpaceNode A) s B D st en n R P (Q : A -> MetaAllocator -> Prop) :
  fview s B D st en n R ->
  wp m (m_freeSpaceSizeMap s) (fun a t => P a t) ->
  (forall a t, P a t -> Q a (s <| m_freeSpaceSizeMap := t |>)) -> wp (in_free m) s Q.
Proof. intros _ Hm HQ. apply wp_in_free. by eapply wp_mono. Qed.

Lemma fv_upd_tree s t B B' D D' st en n R l :
  fview s B D st en n R -> wf (unblk <$> B') t l -> (forall x, x ∈ l <-> is_Some (B' !! x) /\ x ∉ D') ->
  (forall p, is_Some (B' !! p) -> addr_ok p) -> fview (s <| m_freeSpaceSizeMap := t |>) B' D' st en n R.
Proof. intros [_ _ ? ? ? ?] Hw Hl Ha. split; [by exists l | done..]. Qed.

Lemma fv_node s B D st en n R p b :
  fview s B D st en n R -> B !! p = Some b ->
  exists nd, nodes (m_freeSpaceSizeMap s) !! p = Some nd /\ m_object nd = unblk b.
Proof.
  intros [(l & Hw & _) _ _ _ _ _] Hp. pose proof (ot_objects _ _ _ Hw) as Ho. unfold objects in Ho.
  apply (f_equal (.!! p)) in Ho. rewrite !lookup_fmap, Hp in Ho.
  destruct (nodes _ !! p) as [nd |]; [| done]. injection Ho as Ho. eauto.
Qed.

Lemma fv_get s B D st en n R p b (Q : FreeSpaceNode -> MetaAllocator -> Prop) :
  fview s B D st en n R -> B !! p = Some b -> Q (unblk b) s -> wp (in_free (get_object p)) s Q.
Proof.
  intros Hf Hp HQ. destruct (fv_node _ _ _ _ _ _ _ _ _ Hf Hp) as (nd & Hnd & Hn).
  apply wp_in_free. unfold get_object. wp_step. eapply wp_node; [exact Hnd |]. apply wp_ret. rewrite Hn. by destruct s.
Qed.

Lemma fv_remove s B D st en n R p (Q : Z -> MetaAllocator -> Prop) :
  fview s B D st en n R -> is_Some (B !! p) -> p ∉ D ->
  (forall a s', fview s' B ({[p]} ∪ D) st en n R -> Q a s') -> wp (in_free (remove p)) s Q.
Proof.
  intros Hf Hp HD HQ. pose proof Hf as [(l & Hw & Hl) Ha _ _ _ _].
  eapply fv_step; [done | apply (ot_remove _ _ _ p Hw), Hl; done |]. simpl. intros a t Hw'. apply HQ.
  eapply fv_upd_tree; [done | exact Hw' | | done]. intros x. rewrite elem_remove_spec, Hl. set_solver.
Qed.

Lemma fv_insert s B D st en n R p (Q : unit -> MetaAllocator -> Prop) :
  fview s B D st en n R -> is_Some (B !! p) -> p ∈ D ->
  (forall s', fview s' B (D ∖ {[p]}) st en n R -> Q tt s') -> wp (in_free (insert p)) s Q.
Proof.
  intros Hf Hp HD HQ. pose proof Hf as [(l & Hw & Hl) Ha _ _ _ _].
  eapply fv_step; [done | apply (ot_insert _ _ _ p Hw); [rewrite Hl; by intros [_ ?] | by apply Ha |] |].
  { rewrite lookup_fmap. by apply fmap_is_Some. }
  intros [] t Hw'. apply HQ. eapply fv_upd_tree; [done | exact Hw' | | done].
  intros x. rewrite elem_insert_spec, Hl. destruct (decide (x = p)) as [-> | Hne]; set_solver.
Qed.

Lemma fv_set s B D st en n R p b (Q : unit -> MetaAllocator -> Prop) :
  fview s B D st en n R -> is_Some (B !! p) -> p ∈ D ->
  (forall s', fview s' (<[p := b]> B) D st en n R -> Q tt s') -> wp (in_free (set_object p (unblk b))) s Q.
Proof.
  intros Hf Hp HD HQ. pose proof Hf as [(l & Hw & Hl) Ha _ _ _ _]. apply wp_in_free. unfold set_object.
  destruct Hp as [b0 Hp]. destruct (fv_node _ _ _ _ _ _ _ _ _ Hf Hp) as (nd & Hnd & _).
  unfold set_node. wp_step. eapply wp_node; [exact Hnd |]. wp_step. apply HQ.
  eapply fv_upd_tree; [done | | |].
  - rewrite fmap_insert. change (unblk b) with (m_object (mk_node (m_left nd) (m_right nd) (m_parentAndRed nd) (unblk b))) at 1.
    eapply ot_set; [exact Hw | exact Hnd | done | left; rewrite Hl; by intros [_ ?]].
  - intros x. rewrite Hl. rewrite lookup_insert_is_Some'. destruct (decide (p = x)) as [-> |]; naive_solver.
  - intros x [-> | Hx]%lookup_insert_is_Some'; by apply Ha.
Qed.

Lemma fv_alloc e s B D st en n R (Q : Z -> MetaAllocator -> Prop) :
  fview s B D st en n R -> B !! ext_node e = None -> addr_ok (ext_node e) ->
  (forall s', fview s' (<[ext_node e := (0, 0)]> B) ({[ext_node e]} ∪ D) st en (u64 (n + 1)) R -> Q (ext_node e) s') ->
  wp (allocFreeSpaceNode e) s Q.
Proof.
  intros Hf Hp He HQ. pose proof Hf as [(l & Hw & Hl) Ha Hst Hen Hb Hr]. unfold allocFreeSpaceNode.
  wp_step. wp_step. wp_step. apply wp_in_free. unfold new_object. wp_step. wp_step. apply HQ. split; simpl; [| | done | done | by rewrite Hb | done].
  - exists l. split; cycle 1.
    { intros x. rewrite Hl, lookup_insert_is_Some', not_elem_of_union, not_elem_of_singleton.
      destruct (decide (x = ext_node e)) as [-> |]; [rewrite Hp | naive_solver].
      split; [by intros [[? ?] _] | by intros [_ [? _]]]. }
    rewrite fmap_insert. apply (ot_new _ _ _ (ext_node e) (mk_node 0 0 0 (unblk (0, 0))) Hw). by rewrite lookup_fmap, Hp.
  - intros x [<- | Hx]%lookup_insert_is_Some'; [done | by apply Ha].
Qed.

Lemma fv_free s B D st en n R p (Q : unit -> MetaAllocator -> Prop) :
  fview s B D st en n R -> is_Some (B !! p) -> p ∈ D ->
  (forall s', fview s' (delete p B) D st en (u64 (n - 1)) R -> Q tt s') -> wp (freeFreeSpaceNode p) s Q.
Proof.
  intros Hf Hp HD HQ. pose proof Hf as [(l & Hw & Hl) Ha Hst Hen Hb Hr]. unfold freeFreeSpaceNode.
  destruct Hp as [b0 Hp]. destruct (fv_node _ _ _ _ _ _ _ _ _ Hf Hp) as (nd & Hnd & _).
  wp_step. wp_step. apply wp_in_free. unfold delete_object. wp_step. eapply wp_node; [exact Hnd |]. wp_step. apply HQ.
  split; simpl; [| | done | done | by rewrite Hb | done].
  - exists l. split; [| intros x; rewrite Hl, lookup_delete_is_Some; set_solver].
    rewrite fmap_delete. apply (ot_delete _ _ _ p Hw). rewrite Hl. by intros [_ ?].
  - intros x [_ Hx]%lookup_delete_is_Some. by apply Ha.
Qed.

(** ** Maps and assertions *)

Lemma wp_meta_assert (c : bool) s (Q : unit -> MetaAllocator -> Prop) : c = true -> Q tt s -> wp (meta_assert c) s Q.
Proof. by intros ->. Qed.

Lemma key_ok k : 0 < k < 2 ^ 64 - 1 -> is_key k = true.
Proof.
  intros Hk. unfold is_key. rewrite (proj2 (Z.eqb_neq k 0)) by lia.
  rewrite (proj2 (Z.eqb_neq k 18446744073709551615)) by lia. done.
Qed.

Lemma fv_find_start s B D st en n R k (Q : option Z -> MetaAllocator -> Prop) :
  fview s B D st en n R -> 0 < k < 2 ^ 64 - 1 -> Q (st !! k) s -> wp (map_find m_freeSpaceStartAddressMap k) s Q.
Proof.
  intros [_ _ <- _ _ _] Hk HQ. unfold map_find. wp_step. apply wp_meta_assert; [by apply key_ok |]. by apply wp_gets.
Qed.

Lemma fv_find_end s B D st en n R k (Q : option Z -> MetaAllocator -> Prop) :
  fview s B D st en n R -> 0 < k < 2 ^ 64 - 1 -> Q (en !! k) s -> wp (map_find m_freeSpaceEndAddressMap k) s Q.
Proof.
  intros [_ _ _ <- _ _] Hk HQ. unfold map_find. wp_step. apply wp_meta_assert; [by apply key_ok |]. by apply wp_gets.
Qed.

Lemma fv_remove_start s B D st en n R k (Q : unit -> MetaAllocator -> Prop) :
  fview s B D st en n R -> 0 < k < 2 ^ 64 - 1 ->
  (forall s', fview s' B D (delete k st) en n R -> Q tt s') -> wp (map_remove m_freeSpaceStartAddressMap k) s Q.
Proof.
  intros [? ? <- ? ? ?] Hk HQ. unfold map_remove. wp_step. apply wp_meta_assert; [by apply key_ok |]. wp_step. by apply HQ.
Qed.

Lemma fv_remove_end s B D st en n R k (Q : unit -> MetaAllocator -> Prop) :
  fview s B D st en n R -> 0 < k < 2 ^ 64 - 1 ->
  (forall s', fview s' B D st (delete k en) n R -> Q tt s') -> wp (map_remove m_freeSpaceEndAddressMap k) s Q.
Proof.
  intros [? ? ? <- ? ?] Hk HQ. unfold map_remove. wp_step. apply wp_meta_assert; [by apply key_ok |]. wp_step. by apply HQ.
Qed.

Lemma fv_add_start s B D st en n R k p (Q : unit -> MetaAllocator -> Prop) :
  fview s B D st en n R -> 0 < k < 2 ^ 64 - 1 -> st !! k = None ->
  (forall s', fview s' B D (<[k := p]> st) en n R -> Q tt s') -> wp (map_add m_freeSpaceStartAddressMap k p) s Q.
Proof.
  intros [? ? <- ? ? ?] Hk Hn HQ. unfold map_add. wp_step. apply wp_meta_assert; [by apply key_ok |]. wp_step.
  rewrite Hn. by apply HQ.
Qed.

Lemma fv_add_end s B D st en n R k p (Q : unit -> MetaAllocator -> Prop) :
  fview s B D st en n R -> 0 < k < 2 ^ 64 - 1 -> en !! k = None ->
  (forall s', fview s' B D st (<[k := p]> en) n R -> Q tt s') -> wp (map_add m_freeSpaceEndAddressMap k p) s Q.
Proof.
  intros [? ? ? <- ? ?] Hk Hn HQ. unfold map_add. wp_step. apply wp_meta_assert; [by apply key_ok |]. wp_step.
  rewrite Hn. by apply HQ.
Qed.

(** Nodes that are gone need not be kept out of the tree. *)
Lemma fv_close s B D st en n R :
  fview s B D st en n R -> (forall x, x ∈ D -> B !! x = None) -> fview s B ∅ st en n R.
Proof.
  intros [(l & Hw & Hl) ? ? ? ? ?] HD. split; [| done..]. exists l. split; [done |]. intros x. rewrite Hl.
  split; [intros []; set_solver |]. intros [Hx _]. split; [done |]. intros HxD. rewrite (HD x HxD) in Hx. by destruct Hx.
Qed.

(** ** The free space between operations *)

Context (lg lp : Z).

Record free_view s B (R : MetaAllocator) : Prop := mk_free_view {
  fw_view : fview s B ∅ (m_freeSpaceStartAddressMap s) (m_freeSpaceEndAddressMap s) (u64 (Z.of_nat (size B))) R;
  fw_start : indexed fst B (m_freeSpaceStartAddressMap s);
  fw_end : indexed b_end B (m_freeSpaceEndAddressMap s);
  fw_ok : free_ok lg lp B
}.

Lemma free_view_intro s B D st en n R :
  fview s B D st en n R -> (forall x, x ∈ D -> B !! x = None) -> n = u64 (Z.of_nat (size B)) ->
  indexed fst B st -> indexed b_end B en -> free_ok lg lp B -> free_view s B R.
Proof.
  intros Hf HD -> H1 H2 Hok. apply fv_close in Hf; [| done]. destruct Hf as [? ? <- <- ? ?]. by split.
Qed.

Lemma size_insert_some B p b b' : B !! p = Some b -> size (<[p := b']> B) = size B.
Proof. intros Hp. apply map_size_insert_Some. eauto. Qed.

Lemma u64_size_delete B p b : B !! p = Some b ->
  u64 (u64 (Z.of_nat (size B)) - 1) = u64 (Z.of_nat (size (delete p B))).
Proof.
  intros Hp. assert (size B <> 0%nat) as Hs.
  { intros H0%map_size_empty_inv. by rewrite H0 in Hp. }
  rewrite map_size_delete_Some by eauto. unfold u64, uwrap. rewrite Zminus_mod_idemp_l. f_equal. lia.
Qed.

Lemma u64_size_insert B p b : B !! p = None ->
  u64 (u64 (Z.of_nat (size B)) + 1) = u64 (Z.of_nat (size (<[p := b]> B))).
Proof.
  intros Hp. rewrite map_size_insert_None by done. unfold u64, uwrap. rewrite Zplus_mod_idemp_l. f_equal. lia.
Qed.

(** ** Adding free space *)

Section adding.
Context (e : external) (B : gmap Z block) (c : block) (R : MetaAllocator).
Hypothesis Hok : free_ok lg lp B.
Hypothesis Hlp : 0 <= lp.
Hypothesis Hc : block_ok lg lp c.
Hypothesis Hoff : forall a, in_block c a -> ~ owns B a.

(** What adding [c] leads to. *)
Definition added (Q : unit -> MetaAllocator -> Prop) : Prop :=
  forall s' B', free_view s' B' R -> freed lg lp B c B' -> Q tt s'.

Lemma block_bounds b : block_ok lg lp b -> 0 < b.1 /\ 0 < b.2 /\ b_end b = b.1 + b.2 /\ b_end b < 2 ^ 64 - 1.
Proof. intros [H1 H2 H3 _ _]. pose proof (Z.pow_pos_nonneg 2 lp). unfold b_end in *. lia. Qed.

Lemma B_bounds p b : B !! p = Some b -> 0 < b.1 /\ 0 < b.2 /\ b_end b = b.1 + b.2 /\ b_end b < 2 ^ 64 - 1.
Proof. intros Hp. apply block_bounds. by eapply fo_blocks. Qed.

Lemma new_block_ok s st en (Q : unit -> MetaAllocator -> Prop) :
  fview s B ∅ st en (u64 (Z.of_nat (size B))) R -> indexed fst B st -> indexed b_end B en ->
  st !! b_end c = None -> en !! c.1 = None -> B !! ext_node e = None -> addr_ok (ext_node e) ->
  added Q -> wp (new_block e c.1 c.2 (b_end c)) s Q.
Proof.
  intros Hf Hst Hen Hsn Hen' Hn Ha HQ. pose proof (block_bounds c Hc) as Hb. unfold new_block.
  pose proof (indexed_none fst B st (b_end c) Hst) as Hi1. pose proof (indexed_none b_end B en (c.1) Hen) as Hi2.
  wp_step. eapply fv_alloc; [exact Hf | done | done |]. intros s1 Hf1.
  wp_step. eapply (fv_set _ _ _ _ _ _ _ _ c); [exact Hf1 | by rewrite lookup_insert_eq | set_solver |].
  intros s2 Hf2. rewrite insert_insert_eq in Hf2.
  wp_step. eapply fv_insert; [exact Hf2 | by rewrite lookup_insert_eq | set_solver |]. intros s3 Hf3.
  pose proof (start_is_new lg lp B c Hok Hc Hoff st Hst) as Hs1.
  pose proof (end_is_new lg lp B c Hok Hc Hoff en Hen) as He1.
  wp_step. eapply fv_add_start; [exact Hf3 | lia | done |]. intros s4 Hf4.
  eapply fv_add_end; [exact Hf4 | lia | done |]. intros s5 Hf5.
  assert (freed lg lp B c (<[ext_node e := c]> B)) as Hfr.
  { apply freed_alone; [done | done | done | done |]. intros q b Hq. split; [by eapply Hi2 | by eapply Hi1]. }
  eapply HQ; [| exact Hfr]. eapply free_view_intro; [exact Hf5 | set_solver | by apply u64_size_insert | | | apply Hfr].
  - by apply indexed_insert.
  - by apply indexed_insert.
Qed.

Lemma coalesce_left_ok s p b st en (Q : unit -> MetaAllocator -> Prop) :
  fview s B {[p]} st (delete (b_end b) en) (u64 (Z.of_nat (size B))) R -> indexed fst B st -> indexed b_end B en ->
  B !! p = Some b -> b_end b = c.1 -> st !! b_end c = None ->
  added Q -> wp (coalesce_left p c.2 (b_end c)) s Q.
Proof.
  intros Hf Hst Hen Hp Hb Hsn HQ. pose proof (block_bounds c Hc) as Hcb. pose proof (B_bounds p b Hp) as Hbb.
  unfold coalesce_left. wp_step. eapply fv_get; [exact Hf | exact Hp |]. simpl. no_wrap.
  wp_step. eapply (fv_set _ _ _ _ _ _ _ _ (b.1, b.2 + c.2)); [exact Hf | by rewrite Hp | set_solver |]. intros s1 Hf1.
  wp_step. eapply fv_insert; [exact Hf1 | by rewrite lookup_insert_eq | set_solver |]. intros s2 Hf2.
  pose proof (end_is_new lg lp B c Hok Hc Hoff en Hen) as He1.
  eapply fv_add_end; [exact Hf2 | lia | rewrite lookup_delete_None; auto |]. intros s3 Hf3.
  assert (freed lg lp B c (<[p := (b.1, b.2 + c.2)]> B)) as Hfr.
  { apply freed_left; [done | done | done | done | done |]. by apply (indexed_none fst B st). }
  eapply HQ; [| exact Hfr].
  eapply free_view_intro; [exact Hf3 | set_solver | by rewrite (size_insert_some _ _ b) | | | apply Hfr].
  - by apply (indexed_keep fst B st p b).
  - rewrite <- (insert_delete_eq B). replace (b_end c) with (b_end (b.1, b.2 + c.2)) by (unfold b_end in *; simpl; lia).
    apply indexed_insert; [by apply (indexed_delete b_end) | apply lookup_delete_eq |].
    rewrite lookup_delete_None. right. rewrite <- He1. f_equal. unfold b_end in *. simpl. lia.
Qed.

Lemma coalesce_right_ok s q b st en (Q : unit -> MetaAllocator -> Prop) :
  fview s B ∅ st en (u64 (Z.of_nat (size B))) R -> indexed fst B st -> indexed b_end B en ->
  B !! q = Some b -> b.1 = b_end c -> en !! c.1 = None ->
  added Q -> wp (coalesce_right q (b_end c) c.1 c.2 (b_end c)) s Q.
Proof.
  intros Hf Hst Hen Hq Hb Hen' HQ. pose proof (block_bounds c Hc) as Hcb. pose proof (B_bounds q b Hq) as Hbb.
  unfold coalesce_right. wp_step. eapply fv_get; [exact Hf | exact Hq |]. simpl. no_wrap.
  wp_step. apply wp_meta_assert; [apply Z.eqb_refl |]. wp_step. apply wp_meta_assert; [apply Z.eqb_eq; lia |].
  wp_step. eapply (fv_remove _ _ _ _ _ _ _ q); [exact Hf | by rewrite Hq | set_solver |]. intros a s1 Hf1.
  wp_step. eapply fv_remove_start; [exact Hf1 | lia |]. intros s2 Hf2.
  wp_step. eapply fv_get; [exact Hf2 | exact Hq |]. simpl. no_wrap.
  wp_step. eapply (fv_set _ _ _ _ _ _ _ _ (c.1, b.2 + c.2)); [exact Hf2 | by rewrite Hq | set_solver |]. intros s3 Hf3.
  wp_step. eapply fv_insert; [exact Hf3 | by rewrite lookup_insert_eq | set_solver |]. intros s4 Hf4.
  pose proof (start_is_new lg lp B c Hok Hc Hoff st Hst) as Hs1.
  eapply fv_add_start; [exact Hf4 | lia | rewrite lookup_delete_None; auto |]. intros s5 Hf5.
  assert (freed lg lp B c (<[q := (c.1, b.2 + c.2)]> B)) as Hfr.
  { apply freed_right; [done | done | done | done | done |]. by apply (indexed_none b_end B en). }
  eapply HQ; [| exact Hfr].
  eapply free_view_intro; [exact Hf5 | set_solver | by rewrite (size_insert_some _ _ b) | | | apply Hfr].
  - rewrite <- (insert_delete_eq B), <- Hb.
    apply (indexed_insert fst _ _ q (c.1, b.2 + c.2)); [by apply (indexed_delete fst) | apply lookup_delete_eq |].
    rewrite lookup_delete_None. by right.
  - apply (indexed_keep b_end B en q b); [done | done |]. unfold b_end in *. simpl. lia.
Qed.

Lemma coalesce_both_ok s p b q b' st en (Q : unit -> MetaAllocator -> Prop) :
  fview s B {[p]} st (delete (b_end b) en) (u64 (Z.of_nat (size B))) R -> indexed fst B st -> indexed b_end B en ->
  B !! p = Some b -> b_end b = c.1 -> B !! q = Some b' -> b'.1 = b_end c ->
  added Q -> wp (coalesce_both p q b.1 b.2 (b_end c) c.2 (b_end c)) s Q.
Proof.
  intros Hf Hst Hen Hp Hb Hq Hb' HQ. pose proof (block_bounds c Hc) as Hcb.
  pose proof (B_bounds p b Hp) as Hbb. pose proof (B_bounds q b' Hq) as Hbb'.
  assert (p <> q) as Hpq by (intros ->; simplify_eq; lia).
  unfold coalesce_both. wp_step. eapply fv_get; [exact Hf | exact Hq |]. simpl. no_wrap.
  wp_step. apply wp_meta_assert; [by apply Z.eqb_eq |]. wp_step. apply wp_meta_assert; [apply Z.eqb_refl |].
  wp_step. apply wp_meta_assert; [apply Z.eqb_eq; lia |].
  wp_step. eapply (fv_remove _ _ _ _ _ _ _ q); [exact Hf | by rewrite Hq | set_solver |]. intros a s1 Hf1.
  wp_step. eapply fv_remove_start; [exact Hf1 | lia |]. intros s2 Hf2.
  wp_step. eapply fv_remove_end; [exact Hf2 | lia |]. intros s3 Hf3.
  wp_step. eapply fv_free; [exact Hf3 | by rewrite Hq | set_solver |]. intros s4 Hf4.
  rewrite (u64_size_delete _ _ b') in Hf4 by done.
  assert (delete q B !! p = Some b) as Hp' by (by rewrite lookup_delete_ne).
  wp_step. eapply fv_get; [exact Hf4 | exact Hp' |]. simpl. no_wrap.
  wp_step. eapply (fv_set _ _ _ _ _ _ _ _ (b.1, b.2 + (c.2 + b'.2))); [exact Hf4 | by rewrite Hp' | set_solver |]. intros s5 Hf5.
  wp_step. eapply fv_insert; [exact Hf5 | by rewrite lookup_insert_eq | set_solver |]. intros s6 Hf6.
  eapply fv_add_end; [exact Hf6 | lia | apply lookup_delete_None; left; unfold b_end in *; lia |]. intros s7 Hf7.
  assert (freed lg lp B c (<[p := (b.1, b.2 + (c.2 + b'.2))]> (delete q B))) as Hfr by (by eapply freed_both).
  eapply HQ; [| exact Hfr].
  eapply free_view_intro; [exact Hf7 | | by rewrite (size_insert_some _ _ b) | | | apply Hfr].
  - intros x Hx. assert (x = q) as -> by set_solver. rewrite lookup_insert_ne by done. apply lookup_delete_eq.
  - apply (indexed_keep fst _ _ p b); [| done | done]. rewrite <- Hb'. by apply (indexed_delete fst).
  - rewrite <- (insert_delete_eq (delete q B)).
    replace (b_end c + b'.2) with (b_end b') by lia.
    replace (b_end b') with (b_end (b.1, b.2 + (c.2 + b'.2))) at 1 by (unfold b_end in *; simpl; lia).
    rewrite (delete_delete en).
    apply indexed_insert; [apply indexed_delete; [by apply indexed_delete | by rewrite lookup_delete_ne] | apply lookup_delete_eq |].
    rewrite delete_delete. apply lookup_delete_None. left. unfold b_end in *. simpl. lia.
Qed.

Lemma addFreeSpace_ok s (Q : unit -> MetaAllocator -> Prop) :
  free_view s B R -> B !! ext_node e = None -> addr_ok (ext_node e) ->
  added Q -> wp (addFreeSpace e c.1 c.2) s Q.
Proof.
  intros [Hf Hst Hen _] Hn Ha HQ. pose proof (block_bounds c Hc) as Hcb. unfold addFreeSpace. cbv zeta.
  rewrite (u64_id (c.1 + c.2)) by lia. change (c.1 + c.2) with (b_end c).
  wp_step. eapply fv_find_end; [exact Hf | lia |]. wp_step. eapply fv_find_start; [exact Hf | lia |].
  destruct (m_freeSpaceEndAddressMap s !! c.1) as [p |] eqn:Hl.
  - apply Hen in Hl as (b & Hp & Hb). pose proof (B_bounds p b Hp) as Hbb.
    wp_step. eapply fv_get; [exact Hf | exact Hp |]. simpl. no_wrap. change (b.1 + b.2) with (b_end b).
    wp_step. apply wp_meta_assert; [by apply Z.eqb_eq |]. wp_step. apply wp_meta_assert; [by apply Z.eqb_eq |].
    wp_step. eapply (fv_remove _ _ _ _ _ _ _ p); [exact Hf | by rewrite Hp | set_solver |]. intros a s1 Hf1.
    wp_step. eapply fv_remove_end; [exact Hf1 | lia |]. rewrite union_empty_r_L. intros s2 Hf2.
    destruct (m_freeSpaceStartAddressMap s !! b_end c) as [q |] eqn:Hr.
    + apply Hst in Hr as (b' & Hq & Hb'). by eapply coalesce_both_ok.
    + by eapply coalesce_left_ok.
  - destruct (m_freeSpaceStartAddressMap s !! b_end c) as [q |] eqn:Hr.
    + apply Hst in Hr as (b' & Hq & Hb'). by eapply coalesce_right_ok.
    + by eapply new_block_ok.
Qed.

End adding.

(** ** Taking free space *)

(** [B'] is [B] without the bytes of [c]. *)
Record taken B (c : block) B' : Prop := mk_taken {
  tk_block : block_ok lg lp c;
  tk_in a : in_block c a -> owns B a;
  tk_owns a : owns B' a <-> owns B a /\ ~ in_block c a;
  tk_sum : bsum B' = bsum B - c.2
}.

(** The block that a request of [n] bytes is taken from: one of the smallest
    that are large enough, and the bytes at one of its ends. *)
Definition best_fit B (n : Z) (c : block) : Prop :=
  exists p b, B !! p = Some b /\ n <= b.2 /\ (forall q b', B !! q = Some b' -> n <= b'.2 -> b.2 <= b'.2) /\
    c.2 = n /\ (c.1 = b.1 \/ b_end c = b_end b).

Section taking.
Context (B : gmap Z block) (R : MetaAllocator) (p : Z) (b : block) (n : Z).
Hypothesis Hok : free_ok lg lp B.
Hypothesis Hlp : 0 <= lp.
Hypothesis Hp : B !! p = Some b.
Hypothesis Hn : 0 < n.
Hypothesis Hnd : (2 ^ lg | n).

Definition took (Q : Z -> MetaAllocator -> Prop) : Prop :=
  forall s' c B', free_view s' B' R -> taken B c B' -> c.2 = n -> (c.1 = b.1 \/ b_end c = b_end b) -> Q c.1 s'.

Lemma Bb : 0 < b.1 /\ 0 < b.2 /\ b_end b = b.1 + b.2 /\ b_end b < 2 ^ 64 - 1.
Proof. apply block_bounds; [done |]. by eapply fo_blocks. Qed.

Lemma take_all_ok s st en Q :
  fview s B {[p]} st en (u64 (Z.of_nat (size B))) R -> indexed fst B st -> indexed b_end B en ->
  b.2 = n -> took Q -> wp (take_all p (unblk b)) s Q.
Proof.
  intros Hf Hst Hen Hb HQ. pose proof Bb as Hbb. unfold take_all. simpl. no_wrap.
  wp_step. eapply fv_remove_start; [exact Hf | lia |]. intros s1 Hf1.
  wp_step. eapply fv_remove_end; [exact Hf1 | lia |]. intros s2 Hf2.
  wp_step. eapply fv_free; [exact Hf2 | by rewrite Hp | set_solver |]. intros s3 Hf3.
  rewrite (u64_size_delete _ _ b) in Hf3 by done. wp_step. apply (HQ s3 b (delete p B)); [| | done | by left].
  - eapply free_view_intro; [exact Hf3 | | done | by apply (indexed_delete fst) | by apply (indexed_delete b_end) | by apply free_ok_delete].
    intros x ->%elem_of_singleton. apply lookup_delete_eq.
  - split; [by eapply fo_blocks | intros a Ha; by exists p, b | | by apply bsum_delete].
    intros a. apply owns_delete; [apply Hok | done].
Qed.

Lemma part_taken b' c :
  block_ok lg lp b' -> block_ok lg lp c -> b'.2 = b.2 - c.2 ->
  (c.1 = b.1 /\ b'.1 = b_end c) \/ (b'.1 = b.1 /\ c.1 = b_end b') ->
  free_ok lg lp (<[p := b']> B) /\ taken B c (<[p := b']> B).
Proof.
  intros Hb' Hc Hs Hor. pose proof (block_bounds Hlp b' Hb'). pose proof (block_bounds Hlp c Hc). pose proof Bb.
  destruct (free_ok_part lg lp B p b b' Hok Hp Hb') as [Hpk Hpo]; [unfold b_end in *; lia.. |].
  split; [done |]. split; [done | | | by rewrite (bsum_update _ _ b); [lia |]].
  - intros a Ha. exists p, b. split; [done |]. unfold in_block, b_end in *. lia.
  - intros a. rewrite Hpo. split.
    + intros [Ho Hb]. split; [done |]. intros Ha. unfold in_block, b_end in *. lia.
    + intros [Ho Hb]. split; [done |]. intros Ha. unfold in_block, b_end in *. lia.
Qed.

Lemma take_left_ok s st en Q :
  fview s B {[p]} st en (u64 (Z.of_nat (size B))) R -> indexed fst B st -> indexed b_end B en ->
  n < b.2 -> took Q -> wp (take_left p (unblk b) n) s Q.
Proof.
  intros Hf Hst Hen Hb HQ. pose proof Bb as Hbb. unfold take_left. simpl. no_wrap.
  wp_step. eapply fv_remove_start; [exact Hf | lia |]. intros s1 Hf1.
  wp_step. eapply (fv_set _ _ _ _ _ _ _ _ (b.1 + n, b.2 - n)); [exact Hf1 | by rewrite Hp | set_solver |]. intros s2 Hf2.
  wp_step. eapply fv_insert; [exact Hf2 | by rewrite lookup_insert_eq | set_solver |]. intros s3 Hf3.
  pose proof (fo_blocks _ _ _ Hok _ _ Hp) as [K1 K2 K3 K4 K5].
  destruct (part_taken (b.1 + n, b.2 - n) (b.1, n)) as [H1 H2]; [| | done | left; done |].
  { split; simpl; [lia | lia | unfold b_end in *; simpl; lia | by apply Z.divide_add_r | by apply Z.divide_sub_r]. }
  { split; simpl; [lia | lia | unfold b_end in *; simpl; lia | done | done]. }
  assert (delete b.1 st !! (b.1 + n) = None) as Hnone.
  { apply lookup_delete_None. right. apply (indexed_none fst B st _ Hst). intros q b' Hq Heq.
    destruct (decide (p = q)) as [-> | Hpq]; [simplify_eq; lia |].
    pose proof (bk_size _ _ _ (fo_blocks _ _ _ Hok _ _ Hq)).
    pose proof (free_ok_others _ _ _ _ _ _ _ Hok Hp Hq Hpq). unfold b_end in *. lia. }
  wp_step. eapply fv_add_start; [exact Hf3 | lia | done |]. intros s4 Hf4. wp_step.
  apply (HQ s4 (b.1, n) (<[p := (b.1 + n, b.2 - n)]> B)); [| done | done | by left].
  eapply free_view_intro; [exact Hf4 | set_solver | by rewrite (size_insert_some _ _ b) | | | done].
  - rewrite <- (insert_delete_eq B). apply (indexed_insert fst _ _ p (b.1 + n, b.2 - n));
      [by apply (indexed_delete fst) | apply lookup_delete_eq | done].
  - apply (indexed_keep b_end B en p b); [done | done |]. unfold b_end. simpl. lia.
Qed.

Lemma take_right_ok s st en Q :
  fview s B {[p]} st en (u64 (Z.of_nat (size B))) R -> indexed fst B st -> indexed b_end B en ->
  n < b.2 -> took Q -> wp (take_right p (unblk b) n) s Q.
Proof.
  intros Hf Hst Hen Hb HQ. pose proof Bb as Hbb. unfold take_right. simpl. no_wrap.
  wp_step. eapply fv_remove_end; [exact Hf | lia |]. intros s1 Hf1.
  wp_step. eapply (fv_set _ _ _ _ _ _ _ _ (b.1, b.2 - n)); [exact Hf1 | by rewrite Hp | set_solver |]. intros s2 Hf2.
  wp_step. eapply fv_insert; [exact Hf2 | by rewrite lookup_insert_eq | set_solver |]. intros s3 Hf3.
  pose proof (fo_blocks _ _ _ Hok _ _ Hp) as [K1 K2 K3 K4 K5].
  destruct (part_taken (b.1, b.2 - n) (b.1 + b.2 - n, n)) as [H1 H2]; [| | done | right; unfold b_end; simpl; lia |].
  { split; simpl; [lia | lia | unfold b_end in *; simpl; lia | done | by apply Z.divide_sub_r]. }
  { split; simpl; [lia | lia | unfold b_end in *; simpl; lia | | done].
    apply Z.divide_sub_r; [by apply Z.divide_add_r | done]. }
  assert (delete (b_end b) en !! (b.1 + b.2 - n) = None) as Hnone.
  { apply lookup_delete_None. right. apply (indexed_none b_end B en _ Hen). intros q b' Hq Heq.
    destruct (decide (p = q)) as [-> | Hpq]; [simplify_eq; lia |].
    pose proof (bk_size _ _ _ (fo_blocks _ _ _ Hok _ _ Hq)).
    pose proof (free_ok_others _ _ _ _ _ _ _ Hok Hp Hq Hpq). unfold b_end in *. lia. }
  wp_step. eapply fv_add_end; [exact Hf3 | lia | done |]. intros s4 Hf4. wp_step.
  apply (HQ s4 (b.1 + b.2 - n, n) (<[p := (b.1, b.2 - n)]> B)); [| done | done | right; unfold b_end; simpl; lia].
  eapply free_view_intro; [exact Hf4 | set_solver | by rewrite (size_insert_some _ _ b) | | | done].
  - by apply (indexed_keep fst B st p b).
  - rewrite <- (insert_delete_eq B). replace (b.1 + b.2 - n) with (b_end (b.1, b.2 - n)) by (unfold b_end; simpl; lia).
    apply indexed_insert; [by apply (indexed_delete b_end) | apply lookup_delete_eq |].
    rewrite <- Hnone. f_equal. unfold b_end. simpl. lia.
Qed.

End taking.

Lemma keyof_unblk B p b : B !! p = Some b -> keyof (unblk <$> B) p = b.2.
Proof. intros Hp. unfold keyof. by rewrite lookup_fmap, Hp. Qed.

Lemma findAndRemoveFreeSpace_ok s B R n (Q : Z -> MetaAllocator -> Prop) :
  0 <= lp -> free_view s B R -> 0 < n -> (2 ^ lg | n) ->
  ((forall p b, B !! p = Some b -> b.2 < n) -> Q 0 s) ->
  (forall s' c B', free_view s' B' R -> taken B c B' -> best_fit B n c -> Q c.1 s') ->
  wp (findAndRemoveFreeSpace n) s Q.
Proof.
  intros Hlp [Hf Hst Hen Hok] Hn Hnd H0 HQ. unfold findAndRemoveFreeSpace.
  pose proof Hf as [(l & Hw & Hl) _ _ _ _ _]. wp_step.
  eapply fv_step; [exact Hf | apply (ot_least _ _ _ n Hw) |]. intros r t [-> Hr].
  replace (s <| m_freeSpaceSizeMap := m_freeSpaceSizeMap s |>) with s by (by destruct s).
  apply found_least in Hr as [(Hr & Hk & Hbest) | [-> Hnone]]; [| | by eapply ot_sorted].
  - pose proof (proj1 (ot_elem _ _ _ _ Hw Hr)) as Hs. pose proof (proj2 (ot_elem _ _ _ _ Hw Hr)) as [Hra _].
    rewrite lookup_fmap, fmap_is_Some in Hs. destruct Hs as [b Hb].
    unfold truthy. rewrite (proj2 (Z.eqb_neq r 0)) by lia. simpl. rewrite (keyof_unblk _ _ b) in * by done.
    assert (took B R b n Q) as Htook.
    { intros s' c B' H1 H2 H3 H4. eapply HQ; [done | done |]. exists r, b. split_and!; [done | done | | done | done].
      intros q b' Hq Hle. rewrite <- (keyof_unblk B q b') by done. apply Hbest; [| by rewrite (keyof_unblk _ _ b')].
      apply Hl. split; [by rewrite Hq | set_solver]. }
    wp_step. eapply fv_get; [exact Hf | exact Hb |]. wp_step. apply wp_meta_assert; [by apply Z.leb_le |].
    wp_step. eapply (fv_remove _ _ _ _ _ _ _ r); [exact Hf | by rewrite Hb | set_solver |].
    rewrite union_empty_r_L. intros a s1 Hf1. simpl. destruct (Z.eqb_spec b.2 n) as [He | He].
    + by eapply (take_all_ok B R r b n).
    + wp_step. wp_step. destruct (takes_left s1 (unblk b) n).
      * eapply (take_left_ok B R r b n); [done.. | lia | done].
      * eapply (take_right_ok B R r b n); [done.. | lia | done].
  - simpl. apply wp_ret. apply H0. intros p b Hp. rewrite <- (keyof_unblk B p b Hp). apply Hnone, Hl.
    split; [by rewrite Hp | set_solver].
Qed.

End free.
