(* ===== verification/MetaPages.v ===== *)
(** * The allocator: pages

    The occupancy map counts for every page the blocks in use that touch it;
    the notifications commit a page when its count leaves zero and give it back
    when the count is zero again. *)

From stdpp Require Import base numbers list gmap.
From S2P Require Import Prelude RBTree MetaAllocator MetaLayout MetaFree.

#[local] Open Scope Z_scope.

(** ** Counting *)

(** The block [b] touches the page [pg]. *)
Definition covers (lp : Z) (b : block) (pg : Z) : bool :=
  (b.1 / 2 ^ lp <=? pg) && (pg <=? (b_end b - 1) / 2 ^ lp).

Definition cnt (lp : Z) (B : gmap Z block) (pg : Z) : Z :=
  map_fold (fun _ b acc => b2z (covers lp b pg) + acc) 0 B.

Lemma cnt_empty lp pg : cnt lp ∅ pg = 0.
Proof. apply map_fold_empty. Qed.

Lemma cnt_insert lp B p b pg : B !! p = None -> cnt lp (<[p := b]> B) pg = cnt lp B pg + b2z (covers lp b pg).
Proof. intros Hp. unfold cnt. rewrite map_fold_insert_L; [lia | intros; lia | done]. Qed.

Lemma cnt_delete lp B p b pg : B !! p = Some b -> cnt lp (delete p B) pg = cnt lp B pg - b2z (covers lp b pg).
Proof.
  intros Hp. rewrite <- (insert_delete_id B p b Hp) at 2. rewrite cnt_insert by apply lookup_delete_eq. lia.
Qed.

Lemma cnt_update lp B p b b' pg :
  B !! p = Some b -> cnt lp (<[p := b']> B) pg = cnt lp B pg - b2z (covers lp b pg) + b2z (covers lp b' pg).
Proof.
  intros Hp. rewrite <- insert_delete_eq, cnt_insert by apply lookup_delete_eq. by rewrite (cnt_delete _ _ _ b).
Qed.

Lemma cnt_bounds lp B pg : 0 <= cnt lp B pg <= Z.of_nat (size B).
Proof.
  induction B as [| p b B Hp IH] using map_ind.
  { rewrite cnt_empty, map_size_empty. lia. }
  rewrite cnt_insert, map_size_insert_None by done. destruct (covers lp b pg); simpl; lia.
Qed.

Lemma cnt_pos lp B p b pg : B !! p = Some b -> covers lp b pg = true -> 0 < cnt lp B pg.
Proof.
  intros Hp Hc. pose proof (cnt_bounds lp (delete p B) pg) as Hb. rewrite (cnt_delete _ _ _ b) in Hb by done.
  rewrite Hc in Hb. simpl in Hb. lia.
Qed.

Lemma cnt_pos_inv lp B pg : 0 < cnt lp B pg -> exists p b, B !! p = Some b /\ covers lp b pg = true.
Proof.
  induction B as [| p b B Hp IH] using map_ind; [rewrite cnt_empty; lia |]. rewrite cnt_insert by done. intros Hc.
  destruct (covers lp b pg) eqn:E; [exists p, b; by rewrite lookup_insert_eq |]. simpl in Hc.
  destruct IH as (q & b' & Hq & Hb); [lia |]. exists q, b'. rewrite lookup_insert_ne by congruence. done.
Qed.

(** ** The notifications

    The pages that are committed after the calls; none if a page was committed
    twice or given back when it was not committed. *)
Fixpoint replay (l : list page_event) : option (gset Z) :=
  match l with
  | [] => Some ∅
  | NeedPage a :: l' => X ← replay l'; if decide (a ∈ X) then None else Some ({[a]} ∪ X)
  | PageIsFree a :: l' => X ← replay l'; if decide (a ∈ X) then Some (X ∖ {[a]}) else None
  end.

(** The allocator without the pages. *)
Definition prest (s : MetaAllocator) : MetaAllocator :=
  s <| m_pageOccupancyMap := ∅ |> <| m_bytesCommitted := 0 |> <| pages := [] |>.

Section pages.
Context (lp : Z).
Hypothesis Hlp : 0 <= lp.

Implicit Types (s P : MetaAllocator) (c : Z -> Z).

(** The pages are used as [c] says. *)
Record pview s c P : Prop := mk_pview {
  pv_log : m_logPageSize s = lp;
  pv_size : m_pageSize s = 2 ^ lp;
  pv_nonneg pg : 0 <= c pg;
  pv_occ pg n : m_pageOccupancyMap s !! pg = Some n <-> c pg = n /\ 0 < n;
  pv_committed : m_bytesCommitted s = u64 (2 ^ lp * Z.of_nat (size (m_pageOccupancyMap s)));
  pv_trace : exists X, replay (pages s) = Some X /\ size X = size (m_pageOccupancyMap s) /\
    forall a, a ∈ X <-> exists pg, 0 < c pg /\ a = pg * 2 ^ lp;
  pv_rest : prest s = P
}.

Lemma pview_ext s c c' P : (forall pg, c pg = c' pg) -> pview s c P -> pview s c' P.
Proof.
  intros He [H1 H2 H3 H4 H5 (X & HX & HXs & H6) H7]. split; [done | done | | | done | | done].
  - intros pg. rewrite <- He. done.
  - intros pg n. rewrite <- He. done.
  - exists X. split_and!; [done | done |]. intros a. rewrite H6. by setoid_rewrite He.
Qed.

(** A page that can be asked for. *)
Definition page_ok (pg : Z) : Prop := 0 < pg /\ pg * 2 ^ lp < 2 ^ 64 - 1.

Lemma page_key pg : page_ok pg -> is_key pg = true /\ u64 (Z.shiftl pg lp) = pg * 2 ^ lp.
Proof.
  intros [H1 H2]. pose proof (Z.pow_pos_nonneg 2 lp). split; [apply key_ok; nia |].
  rewrite Z.shiftl_mul_pow2 by done. apply u64_id. nia.
Qed.

Lemma occ_none s c P pg : pview s c P -> m_pageOccupancyMap s !! pg = None -> c pg = 0.
Proof.
  intros [_ _ Hn Ho _ _ _] Hpg. specialize (Hn pg). destruct (decide (c pg = 0)) as [| Hc]; [done |].
  rewrite (proj2 (Ho pg (c pg))) in Hpg by lia. done.
Qed.

Lemma page_mul a b : a * 2 ^ lp = b * 2 ^ lp -> a = b.
Proof. pose proof (Z.pow_pos_nonneg 2 lp). intros H0. apply Z.mul_cancel_r in H0; lia. Qed.

Lemma size_plus_u64 (m : nat) : u64 (u64 (2 ^ lp * Z.of_nat m) + 2 ^ lp) = u64 (2 ^ lp * Z.of_nat (S m)).
Proof. unfold u64, uwrap. rewrite Zplus_mod_idemp_l. f_equal. lia. Qed.

Lemma need_page_ok s c P pg (Q : unit -> MetaAllocator -> Prop) :
  pview s c P -> page_ok pg -> c pg < 2 ^ 64 - 1 ->
  (forall s', pview s' (fun x => c x + b2z (x =? pg)) P -> Q tt s') -> wp (need_page pg) s Q.
Proof.
  intros Hv Hpg Hc HQ. destruct (page_key pg Hpg) as [Hk Hs]. unfold need_page, map_find.
  pose proof Hv as [Hl Hz Hn Ho Hm (X & HX & HXs & Ht) Hr].
  wp_step. wp_step. apply wp_meta_assert; [done |]. apply wp_gets.
  destruct (m_pageOccupancyMap s !! pg) as [n |] eqn:Hpn.
  - apply Ho in Hpn as Hcn. wp_step. apply HQ. destruct Hcn as [<- Hpos]. split; simpl; [done | done | | | | | done].
    + intros x. specialize (Hn x). destruct (x =? pg); simpl; lia.
    + intros x m. rewrite u64_id by lia. destruct (Z.eqb_spec x pg) as [-> | Hne]; simpl.
      * rewrite lookup_insert_eq. split; [intros [= <-]; lia | intros [<- _]; done].
      * rewrite lookup_insert_ne, Z.add_0_r by done. apply Ho.
    + rewrite map_size_insert_Some by eauto. done.
    + exists X. rewrite map_size_insert_Some by eauto. split_and!; [done | done |]. intros a. rewrite Ht. split; intros (x & Hx & ->); exists x; (split; [| done]).
      * destruct (x =? pg); simpl; lia.
      * destruct (Z.eqb_spec x pg) as [He | He]; simpl in Hx; [rewrite He; lia | lia].
  - pose proof (occ_none s c P pg Hv Hpn) as Hc0. unfold map_add.
    wp_step. wp_step. apply wp_meta_assert; [done |]. wp_step. rewrite Hpn. wp_step. wp_step. wp_step. apply HQ.
    split; simpl; [done | done | | | | | done].
    + intros x. specialize (Hn x). destruct (x =? pg); simpl; lia.
    + intros x m. destruct (Z.eqb_spec x pg) as [-> | Hne]; simpl.
      * rewrite lookup_insert_eq. split; [intros [= <-]; lia | intros [<- _]; f_equal; lia].
      * rewrite lookup_insert_ne, Z.add_0_r by done. apply Ho.
    + rewrite map_size_insert_None by done. rewrite Hm, Hz. apply size_plus_u64.
    + rewrite Hl, Hs, HX. simpl. exists ({[pg * 2 ^ lp]} ∪ X).
      assert (pg * 2 ^ lp ∉ X) as HpX by (rewrite Ht; intros (x & Hx & ->%page_mul); lia). split_and!.
      * by rewrite decide_False.
      * rewrite size_union, size_singleton, map_size_insert_None by (done || set_solver). by rewrite HXs.
      * intros a. rewrite elem_of_union, elem_of_singleton, Ht. split.
        -- intros [-> | (x & Hx & ->)]; [exists pg; rewrite Z.eqb_refl; simpl; split; [lia | done] |].
           exists x. split; [| done]. destruct (x =? pg); simpl; lia.
        -- intros (x & Hx & ->). destruct (Z.eqb_spec x pg) as [He | He]; [left; by rewrite He | right].
           exists x. simpl in Hx. split; [lia | done].
Qed.

Lemma leave_page_ok s c P pg (Q : unit -> MetaAllocator -> Prop) :
  pview s c P -> page_ok pg -> 0 < c pg < 2 ^ 64 ->
  (forall s', pview s' (fun x => c x - b2z (x =? pg)) P -> Q tt s') -> wp (leave_page pg) s Q.
Proof.
  intros Hv Hpg Hc HQ. destruct (page_key pg Hpg) as [Hk Hs]. unfold leave_page, map_find.
  pose proof Hv as [Hl Hz Hn Ho Hm (X & HX & HXs & Ht) Hr].
  wp_step. wp_step. apply wp_meta_assert; [done |]. apply wp_gets.
  assert (m_pageOccupancyMap s !! pg = Some (c pg)) as Hpn by (apply Ho; lia). rewrite Hpn.
  rewrite u64_id by lia. wp_step. wp_step. unfold truthy. rewrite negb_involutive.
  destruct (Z.eqb_spec (c pg - 1) 0) as [H0 | H0].
  - unfold map_remove. wp_step. wp_step. apply wp_meta_assert; [done |]. wp_step. wp_step. wp_step. wp_step. apply HQ.
    split; simpl; rewrite ?delete_insert_eq; [done | done | | | | | done].
    + intros x. specialize (Hn x). destruct (Z.eqb_spec x pg) as [He | He]; simpl; [rewrite He |]; lia.
    + intros x m. rewrite lookup_delete_Some. destruct (Z.eqb_spec x pg) as [-> | Hne]; simpl.
      * split; [by intros [? _] | lia].
      * rewrite Z.sub_0_r, <- Ho. naive_solver.
    + rewrite Hm, Hz, map_size_delete_Some by eauto. assert (size (m_pageOccupancyMap s) <> 0%nat) as Hne.
      { intros He%map_size_empty_inv. by rewrite He in Hpn. }
      replace (size (m_pageOccupancyMap s)) with (S (pred (size (m_pageOccupancyMap s)))) at 1 by lia.
      rewrite <- size_plus_u64. unfold u64, uwrap. rewrite Zminus_mod_idemp_l, Z.add_simpl_r, Z.mod_mod by done. done.
    + rewrite Hl, Hs, HX. simpl. exists (X ∖ {[pg * 2 ^ lp]}).
      assert (pg * 2 ^ lp ∈ X) as HpX by (apply Ht; exists pg; split; [lia | done]). split_and!.
      * by rewrite decide_True.
      * rewrite size_difference, size_singleton, map_size_delete_Some by (eauto || set_solver). rewrite HXs. lia.
      * intros a. rewrite elem_of_difference, elem_of_singleton, Ht. split.
        -- intros ((x & Hx & ->) & Hne). exists x. destruct (Z.eqb_spec x pg) as [He | He]; [by rewrite He in Hne |]. simpl. split; [lia | done].
        -- intros (x & Hx & ->). destruct (Z.eqb_spec x pg) as [He | Hne]; simpl in Hx; [rewrite He in Hx; lia |].
           split; [exists x; split; [lia | done] |]. by intros ?%page_mul.
  - wp_step. apply HQ. split; simpl; [done | done | | | | | done].
    + intros x. specialize (Hn x). destruct (Z.eqb_spec x pg) as [He | He]; simpl; [rewrite He |]; lia.
    + intros x m. destruct (Z.eqb_spec x pg) as [-> | Hne]; simpl.
      * rewrite lookup_insert_eq. split; [intros [= <-]; lia | intros [<- _]; done].
      * rewrite lookup_insert_ne, Z.sub_0_r by done. apply Ho.
    + rewrite map_size_insert_Some by eauto. done.
    + exists X. rewrite map_size_insert_Some by eauto. split_and!; [done | done |]. intros a. rewrite Ht. split; intros (x & Hx & ->); exists x; (split; [| done]).
      * destruct (Z.eqb_spec x pg) as [He | He]; simpl; [rewrite He in *; lia | lia].
      * destruct (Z.eqb_spec x pg) as [He | He]; simpl in Hx; [rewrite He; lia | lia].
Qed.

(** ** The loops over pages *)

Definition in_pages (first page x : Z) : bool := (first <=? x) && (x <? page).

Section loop.
Context (body : Z -> M alloc_fault MetaAllocator unit) (d : Z) (c0 : Z -> Z) (P : MetaAllocator) (first last : Z).
Hypothesis Hlast : last < 2 ^ 64 - 1.
Hypothesis Hfirst : 0 <= first.
Hypothesis Hbody : forall s c pg (Q : unit -> MetaAllocator -> Prop),
  pview s c P -> first <= pg <= last -> c pg = c0 pg ->
  (forall s', pview s' (fun x => c x + d * b2z (x =? pg)) P -> Q tt s') -> wp (body pg) s Q.

Lemma page_loop_ok fuel s page (Q : unit -> MetaAllocator -> Prop) :
  pview s (fun x => c0 x + d * b2z (in_pages first page x)) P -> first <= page <= last + 1 ->
  last + 1 - page < Z.of_nat fuel ->
  (forall s', pview s' (fun x => c0 x + d * b2z (in_pages first (last + 1) x)) P -> Q tt s') ->
  wp (page_loop fuel body page last) s Q.
Proof.
  revert s page. induction fuel as [| fuel IH]; intros s page Hv Hpage Hfuel HQ; [lia |]. simpl.
  destruct (Z.leb_spec page last) as [Hle | Hgt].
  - wp_step. eapply Hbody; [exact Hv | lia | |].
    { unfold in_pages. rewrite (proj2 (Z.ltb_ge page page)), andb_false_r by lia. simpl. lia. }
    intros s' Hv'. rewrite u64_id by lia. apply IH; [| lia | lia | done].
    eapply pview_ext; [| exact Hv']. intros x. simpl. unfold in_pages.
    destruct (Z.eqb_spec x page), (Z.leb_spec first x), (Z.ltb_spec x page), (Z.ltb_spec x (page + 1)); simpl; lia.
  - wp_step. apply HQ. assert (page = last + 1) as -> by lia. done.
Qed.

End loop.

(** The pages of a block from the second page on. *)
Lemma covered_pages b : 2 ^ lp <= b.1 -> 0 < b.2 -> b_end b < 2 ^ 64 - 1 ->
  0 <= b.1 / 2 ^ lp <= (b_end b - 1) / 2 ^ lp /\ (b_end b - 1) / 2 ^ lp < 2 ^ 64 - 1 /\
  forall pg, covers lp b pg = true -> page_ok pg.
Proof.
  intros H1 H2 H3. pose proof (Z.pow_pos_nonneg 2 lp) as Hp. unfold b_end in *. unfold covers, page_ok, b_end.
  assert (b.1 / 2 ^ lp <= (b.1 + b.2 - 1) / 2 ^ lp) by (apply Z.div_le_mono; lia).
  assert (1 <= b.1 / 2 ^ lp) by (apply Z.div_le_lower_bound; lia).
  assert ((b.1 + b.2 - 1) / 2 ^ lp * 2 ^ lp <= b.1 + b.2 - 1) by (rewrite Z.mul_comm; apply Z.mul_div_le; lia).
  split_and!; [lia | lia | nia |]. intros pg [H7 H8]%andb_true_iff. apply Z.leb_le in H7, H8. split; [lia | nia].
Qed.

Lemma over_pages_ok body d c0 P s b (Q : unit -> MetaAllocator -> Prop) :
  pview s c0 P -> 2 ^ lp <= b.1 -> 0 < b.2 -> b_end b < 2 ^ 64 - 1 ->
  (forall s c pg (Q : unit -> MetaAllocator -> Prop),
     pview s c P -> covers lp b pg = true -> page_ok pg -> c pg = c0 pg ->
     (forall s', pview s' (fun x => c x + d * b2z (x =? pg)) P -> Q tt s') -> wp (body pg) s Q) ->
  (forall s', pview s' (fun x => c0 x + d * b2z (covers lp b x)) P -> Q tt s') ->
  wp (over_pages body b.1 b.2) s Q.
Proof.
  intros Hv H1 H2 H3 Hbody HQ. destruct (covered_pages b H1 H2 H3) as (Hr & Hl & Hok).
  pose proof Hv as [Hlog _ _ _ _ _ _]. pose proof (Z.pow_pos_nonneg 2 lp) as Hp.
  unfold over_pages, page_of. wp_step. apply wp_gets. wp_step. apply wp_gets. rewrite Hlog.
  unfold b_end in *. no_wrap. rewrite !Z.shiftr_div_pow2 by done.
  apply (page_loop_ok body d c0 P (b.1 / 2 ^ lp) ((b.1 + b.2 - 1) / 2 ^ lp)); [lia | lia | | | lia | lia |].
  - intros s1 c pg Q1 Hv1 Hpg. apply Hbody; [done | | apply Hok]; unfold covers, b_end;
      rewrite !(proj2 (Z.leb_le _ _)) by lia; done.
  - eapply pview_ext; [| exact Hv]. intros x. simpl. unfold in_pages.
    destruct (Z.leb_spec (b.1 / 2 ^ lp) x), (Z.ltb_spec x (b.1 / 2 ^ lp)); simpl; lia.
  - intros s1 Hv1. apply HQ. eapply pview_ext; [| exact Hv1]. intros x. simpl. unfold in_pages, covers, b_end.
    destruct (Z.leb_spec (b.1 / 2 ^ lp) x), (Z.ltb_spec x ((b.1 + b.2 - 1) / 2 ^ lp + 1)),
      (Z.leb_spec x ((b.1 + b.2 - 1) / 2 ^ lp)); simpl; lia.
Qed.

Lemma incrementPageOccupancy_ok c P s b (Q : unit -> MetaAllocator -> Prop) :
  pview s c P -> 2 ^ lp <= b.1 -> 0 < b.2 -> b_end b < 2 ^ 64 - 1 -> (forall pg, c pg < 2 ^ 64 - 1) ->
  (forall s', pview s' (fun x => c x + b2z (covers lp b x)) P -> Q tt s') ->
  wp (incrementPageOccupancy b.1 b.2) s Q.
Proof.
  intros Hv H1 H2 H3 Hc HQ. apply (over_pages_ok need_page 1 c P); [done | done | done | done | |].
  - intros s1 c1 pg Q1 Hv1 _ Hpg Hc1 HQ1. eapply need_page_ok; [done | done | by rewrite Hc1 |].
    intros s2 Hv2. apply HQ1. eapply pview_ext; [| exact Hv2]. intros x. cbv beta. lia.
  - intros s1 Hv1. apply HQ. eapply pview_ext; [| exact Hv1]. intros x. cbv beta. lia.
Qed.

Lemma decrementPageOccupancy_ok c P s b (Q : unit -> MetaAllocator -> Prop) :
  pview s c P -> 2 ^ lp <= b.1 -> 0 < b.2 -> b_end b < 2 ^ 64 - 1 ->
  (forall pg, covers lp b pg = true -> 0 < c pg < 2 ^ 64) ->
  (forall s', pview s' (fun x => c x - b2z (covers lp b x)) P -> Q tt s') ->
  wp (decrementPageOccupancy b.1 b.2) s Q.
Proof.
  intros Hv H1 H2 H3 Hc HQ. apply (over_pages_ok leave_page (-1) c P); [done | done | done | done | |].
  - intros s1 c1 pg Q1 Hv1 Hcov Hpg Hc1 HQ1. eapply leave_page_ok; [done | done | rewrite Hc1; by apply Hc |].
    intros s2 Hv2. apply HQ1. eapply pview_ext; [| exact Hv2]. intros x. cbv beta. lia.
  - intros s1 Hv1. apply HQ. eapply pview_ext; [| exact Hv1]. intros x. cbv beta. lia.
Qed.

End pages.
