(* ===== verification/MetaProof.v ===== *)
(** * The allocator: its operations

    The parts of the state together: free blocks, handles, pages and counters;
    the invariant of the allocator, and that every operation keeps it. *)

From stdpp Require Import base numbers list gmap.
From S2P Require Import Prelude RBTree RBRepr RBInsert RBRemove RBFind TreeLaws MetaAllocator MetaLayout MetaFree MetaPages.

#[local] Open Scope Z_scope.

Definition hblk (h : MetaAllocatorHandle) : block := (h_start h, h_sizeInBytes h).

(** ** Rounding *)

Definition round_up (lg n : Z) : Z := (n + 2 ^ lg - 1) / 2 ^ lg * 2 ^ lg.

Lemma land_word x y : 0 <= x < 2 ^ 64 -> Z.land x (u64 y) = Z.land x y.
Proof.
  intros Hx. apply Z.bits_inj'. intros i Hi. rewrite !Z.land_spec. unfold u64, uwrap.
  destruct (Z.ltb_spec i 64); [by rewrite Z.mod_pow2_bits_low |].
  rewrite <- (Z.mod_small x (2 ^ 64)), Z.mod_pow2_bits_high by lia. done.
Qed.

(** [(x + 2^k - 1) & ~(2^k - 1)] in words. *)
Lemma mask_round k x : 0 <= k -> 0 <= x -> x + 2 ^ k < 2 ^ 64 ->
  Z.land (u64 (u64 (x + 2 ^ k) - 1)) (u64 (Z.lnot (u64 (2 ^ k - 1)))) = round_up k x.
Proof.
  intros Hk Hx Hw. pose proof (Z.pow_pos_nonneg 2 k). no_wrap. rewrite land_word by lia.
  rewrite <- Z.ldiff_land. replace (2 ^ k - 1) with (Z.ones k) by (rewrite Z.ones_equiv; lia).
  rewrite Z.ldiff_ones_r, Z.shiftl_mul_pow2, Z.shiftr_div_pow2 by done. done.
Qed.

Lemma round_up_spec k x : 0 <= k -> x <= round_up k x < x + 2 ^ k /\ (2 ^ k | round_up k x).
Proof.
  intros Hk. pose proof (Z.pow_pos_nonneg 2 k). unfold round_up. split; [| apply Z.divide_factor_r].
  pose proof (Z.mul_div_le (x + 2 ^ k - 1) (2 ^ k)). pose proof (Z.mul_succ_div_gt (x + 2 ^ k - 1) (2 ^ k)). nia.
Qed.

Lemma round_up_le k x y : 0 <= k -> x <= y -> (2 ^ k | y) -> round_up k x <= y.
Proof.
  intros Hk Hle [z ->]. pose proof (Z.pow_pos_nonneg 2 k). unfold round_up.
  apply Z.mul_le_mono_nonneg_r; [lia |]. apply Z.lt_succ_r, Z.div_lt_upper_bound; nia.
Qed.

Lemma round_up_pos k x : 0 <= k -> 0 < x -> 0 < round_up k x.
Proof. intros Hk Hx. pose proof (round_up_spec k x Hk). lia. Qed.

Section alloc.
Context {wfF : gmap Z FreeSpaceNode -> RedBlackTree FreeSpaceNode -> list Z -> Prop} `{OF : !OrderedTree wfF}.
Context {wfH : gmap Z MetaAllocatorHandle -> RedBlackTree MetaAllocatorHandle -> list Z -> Prop} `{OH : !OrderedTree wfH}.
Context (lg lp : Z).
Hypothesis Hlg : 0 <= lg.
Hypothesis Hlp : lg <= lp.

Implicit Types (s : MetaAllocator) (B : gmap Z block) (H : gmap Z MetaAllocatorHandle) (D : gset Z) (c : Z -> Z).

(** ** The parts of the state *)

(** The handles [H] are in use; those of [D] are out of the tracker's tree. *)
Record hands s H D (tr : bool) : Prop := mk_hands {
  hd_tree : exists l, wfH H (m_allocations s) l /\
                      forall x, x ∈ l <-> is_Some (H !! x) /\ x ∉ D /\ tr = true;
  hd_addr p : is_Some (H !! p) -> addr_ok p;
  hd_tracker : m_tracker s = tr
}.

Record parts s B H D (tr : bool) c (al re : Z) : Prop := mk_parts {
  pt_free : free_view (wf := wfF) lg lp s B (rest s);
  pt_hands : hands s H D tr;
  pt_pages : pview lp s c (prest s);
  pt_allocated : m_bytesAllocated s = al;
  pt_reserved : m_bytesReserved s = re;
  pt_granule : m_allocationGranule s = 2 ^ lg
}.

Ltac fields E :=
  pose proof (f_equal m_allocationGranule E); pose proof (f_equal m_pageSize E);
  pose proof (f_equal m_logPageSize E); pose proof (f_equal m_freeSpaceSizeMap E);
  pose proof (f_equal m_freeSpaceStartAddressMap E); pose proof (f_equal m_freeSpaceEndAddressMap E);
  pose proof (f_equal m_pageOccupancyMap E); pose proof (f_equal m_bytesAllocated E);
  pose proof (f_equal m_bytesReserved E); pose proof (f_equal m_bytesCommitted E);
  pose proof (f_equal m_tracker E); pose proof (f_equal m_mallocBalance E);
  pose proof (f_equal m_allocations E); pose proof (f_equal pages E); simpl in *.

(** Each part is about its own fields. *)
Lemma free_view_fields s s' B R :
  free_view (wf := wfF) lg lp s B R -> m_freeSpaceSizeMap s' = m_freeSpaceSizeMap s ->
  m_freeSpaceStartAddressMap s' = m_freeSpaceStartAddressMap s ->
  m_freeSpaceEndAddressMap s' = m_freeSpaceEndAddressMap s -> m_mallocBalance s' = m_mallocBalance s ->
  free_view (wf := wfF) lg lp s' B (rest s').
Proof.
  intros [[Ht Ha _ _ Hb _] H1 H2 H3] E1 E2 E3 E4. split; rewrite ?E2, ?E3; [| done | done | done].
  split; rewrite ?E1, ?E2, ?E3, ?E4; done.
Qed.

Lemma pview_fields s s' c P :
  pview lp s c P -> m_logPageSize s' = m_logPageSize s -> m_pageSize s' = m_pageSize s ->
  m_pageOccupancyMap s' = m_pageOccupancyMap s -> m_bytesCommitted s' = m_bytesCommitted s ->
  pages s' = pages s -> pview lp s' c (prest s').
Proof. intros [] E1 E2 E3 E4 E5. split; rewrite ?E1, ?E2, ?E3, ?E4, ?E5; done. Qed.

Lemma hands_fields s s' H D tr :
  hands s H D tr -> m_allocations s' = m_allocations s -> m_tracker s' = m_tracker s -> hands s' H D tr.
Proof. intros [] E1 E2. split; rewrite ?E1, ?E2; done. Qed.

(** A change of the free space, of the pages, of the handles. *)
Lemma parts_free s s' B B' H D tr c al re :
  parts s B H D tr c al re -> free_view (wf := wfF) lg lp s' B' (rest s) -> parts s' B' H D tr c al re.
Proof.
  intros [Hf Hh Hp Ha Hr Hg] Hf'. pose proof (fv_rest _ _ _ _ _ _ _ (fw_view _ _ _ _ _ Hf')) as E.
  pose proof E as E0. unfold rest in E. fields E. split; [by rewrite E0 | | | congruence..].
  - eapply hands_fields; [exact Hh | congruence..].
  - eapply pview_fields; [exact Hp | congruence..].
Qed.

Lemma parts_pages s s' B H D tr c c' al re :
  parts s B H D tr c al re -> pview lp s' c' (prest s) -> parts s' B H D tr c' al re.
Proof.
  intros [Hf Hh Hp Ha Hr Hg] Hp'. pose proof (pv_rest _ _ _ _ Hp') as E. pose proof E as E0.
  unfold prest in E. fields E. split; [| | by rewrite E0 | congruence..].
  - eapply free_view_fields; [exact Hf | congruence..].
  - eapply hands_fields; [exact Hh | congruence..].
Qed.

Lemma parts_tracker s t B H H' D D' tr c al re :
  parts s B H D tr c al re -> hands (s <| m_allocations := t |>) H' D' tr ->
  parts (s <| m_allocations := t |>) B H' D' tr c al re.
Proof.
  intros [Hf Hh Hp Ha Hr Hg] Hh'. split; [| done | | done..].
  - by eapply free_view_fields.
  - by eapply pview_fields.
Qed.

Lemma parts_allocated s B H D tr c al re x :
  parts s B H D tr c al re -> parts (s <| m_bytesAllocated := x |>) B H D tr c x re.
Proof.
  intros [Hf Hh Hp Ha Hr Hg]. split; [by eapply free_view_fields | by eapply hands_fields | by eapply pview_fields | done..].
Qed.

Lemma parts_reserved s B H D tr c al re x :
  parts s B H D tr c al re -> parts (s <| m_bytesReserved := x |>) B H D tr c al x.
Proof.
  intros [Hf Hh Hp Ha Hr Hg]. split; [by eapply free_view_fields | by eapply hands_fields | by eapply pview_fields | done..].
Qed.

Lemma parts_ext s B H D tr c c' al re :
  parts s B H D tr c al re -> (forall pg, c pg = c' pg) -> parts s B H D tr c' al re.
Proof. intros [] He. split; try done. by eapply pview_ext. Qed.

(** ** Steps *)

Lemma p_roundUp s B H D tr c al re n (Q : Z -> MetaAllocator -> Prop) :
  parts s B H D tr c al re -> 0 <= n -> n + 2 ^ lg < 2 ^ 64 - 1 -> Q (round_up lg n) s -> wp (roundUp n) s Q.
Proof.
  intros [_ _ _ _ _ Hg] Hn Hw HQ. pose proof (Z.pow_pos_nonneg 2 lg). unfold roundUp. wp_step. apply wp_gets. rewrite Hg.
  rewrite (u64_id (18446744073709551615 - 2 ^ lg)) by lia. rewrite (proj2 (Z.leb_gt _ _)) by lia.
  apply wp_ret. by rewrite mask_round by lia.
Qed.

Lemma p_add e s B H D tr c al re b (Q : unit -> MetaAllocator -> Prop) :
  parts s B H D tr c al re -> block_ok lg lp b -> (forall a, in_block b a -> ~ owns B a) ->
  B !! ext_node e = None -> addr_ok (ext_node e) ->
  (forall s' B', parts s' B' H D tr c al re -> freed lg lp B b B' -> Q tt s') -> wp (addFreeSpace e b.1 b.2) s Q.
Proof.
  intros Hp Hb Ho Hn Ha HQ. pose proof Hp as [Hf _ _ _ _ _].
  eapply (addFreeSpace_ok lg lp e B b (rest s)); [apply Hf | lia | done | done | done | done | done |].
  intros s' B' Hf' Hfr. apply (HQ s' B'); [| done]. by eapply parts_free.
Qed.

Lemma p_take s B H D tr c al re n (Q : Z -> MetaAllocator -> Prop) :
  parts s B H D tr c al re -> 0 < n -> (2 ^ lg | n) ->
  ((forall p b, B !! p = Some b -> b.2 < n) -> Q 0 s) ->
  (forall s' b B', parts s' B' H D tr c al re -> taken lg lp B b B' -> best_fit B n b -> Q b.1 s') ->
  wp (findAndRemoveFreeSpace n) s Q.
Proof.
  intros Hp Hn Hd H0 HQ. pose proof Hp as [Hf _ _ _ _ _].
  eapply findAndRemoveFreeSpace_ok; [| exact Hf | done | done | done |]; [lia |].
  intros s' b B' Hf' Ht Hb. eapply HQ; [| done | done]. by eapply parts_free.
Qed.

Lemma p_incr s B H D tr c al re b (Q : unit -> MetaAllocator -> Prop) :
  parts s B H D tr c al re -> block_ok lg lp b -> (forall pg, c pg < 2 ^ 64 - 1) ->
  (forall s', parts s' B H D tr (fun x => c x + b2z (covers lp b x)) al re -> Q tt s') ->
  wp (incrementPageOccupancy b.1 b.2) s Q.
Proof.
  intros Hp Hb Hc HQ. pose proof (block_bounds lg lp ltac:(lia) b Hb) as (_ & _ & _ & H3).
  destruct Hb as [H1 H2 _ _ _]. eapply (incrementPageOccupancy_ok lp); [lia | apply Hp | done | done | done | done |].
  intros s' Hp'. apply HQ. by eapply parts_pages.
Qed.

Lemma p_decr s B H D tr c al re b (Q : unit -> MetaAllocator -> Prop) :
  parts s B H D tr c al re -> 2 ^ lp <= b.1 -> 0 < b.2 -> b_end b < 2 ^ 64 - 1 ->
  (forall pg, covers lp b pg = true -> 0 < c pg < 2 ^ 64) ->
  (forall s', parts s' B H D tr (fun x => c x - b2z (covers lp b x)) al re -> Q tt s') ->
  wp (decrementPageOccupancy b.1 b.2) s Q.
Proof.
  intros Hp H1 H2 H3 Hc HQ. eapply (decrementPageOccupancy_ok lp); [lia | apply Hp | done | done | done | done |].
  intros s' Hp'. apply HQ. by eapply parts_pages.
Qed.

(** *** Handles *)

Lemma wp_in_tracker {A} (m : TreeM MetaAllocatorHandle A) s (Q : A -> MetaAllocator -> Prop) :
  wp m (m_allocations s) (fun a t => Q a (s <| m_allocations := t |>)) -> wp (in_tracker m) s Q.
Proof. unfold wp, in_tracker. by destruct (m (m_allocations s)) as [[a t] |]. Qed.

Lemma hd_node s H D tr p h :
  hands s H D tr -> H !! p = Some h -> exists nd, nodes (m_allocations s) !! p = Some nd /\ m_object nd = h.
Proof.
  intros [(l & Hw & _) _ _] Hp. pose proof (ot_objects _ _ _ Hw) as Ho. unfold objects in Ho.
  apply (f_equal (.!! p)) in Ho. rewrite lookup_fmap, Hp in Ho.
  destruct (nodes _ !! p) as [nd |]; [| done]. injection Ho as Ho. eauto.
Qed.

Lemma p_get_handle s B H D tr c al re p h (Q : MetaAllocatorHandle -> MetaAllocator -> Prop) :
  parts s B H D tr c al re -> H !! p = Some h -> Q h s -> wp (in_tracker (get_object p)) s Q.
Proof.
  intros Hpt Hp HQ. destruct (hd_node _ _ _ _ _ _ (pt_hands _ _ _ _ _ _ _ _ Hpt) Hp) as (nd & Hnd & Hn).
  apply wp_in_tracker. unfold get_object. wp_step. eapply wp_node; [exact Hnd |]. apply wp_ret. rewrite Hn. by destruct s.
Qed.

Lemma p_new_handle s B H tr c al re p h (Q : unit -> MetaAllocator -> Prop) :
  parts s B H ∅ tr c al re -> H !! p = None -> addr_ok p ->
  (forall s', parts s' B (<[p := h]> H) {[p]} tr c al re -> Q tt s') -> wp (in_tracker (new_object p h)) s Q.
Proof.
  intros Hpt Hp Ha HQ. pose proof (pt_hands _ _ _ _ _ _ _ _ Hpt) as [(l & Hw & Hl) Had Htr].
  apply wp_in_tracker. unfold new_object. wp_step. apply HQ. eapply parts_tracker; [exact Hpt |]. split; simpl; [| | done].
  - exists l. split; [by apply (ot_new _ _ _ p (mk_node 0 0 0 h) Hw) |].
    intros x. rewrite Hl, lookup_insert_is_Some', not_elem_of_singleton.
    destruct (decide (x = p)) as [-> | Hne]; [| set_solver]. rewrite Hp. split; [by intros [[? ?] _] | by intros (_ & ? & _)].
  - intros x [<- | Hx]%lookup_insert_is_Some'; [done | by apply Had].
Qed.

(** The new handle enters the tree if there is a tracker. *)
Lemma p_notify s B H tr c al re p (Q : unit -> MetaAllocator -> Prop) :
  parts s B H {[p]} tr c al re -> is_Some (H !! p) ->
  (forall s', parts s' B H ∅ tr c al re -> Q tt s') -> wp (mwhen tr (tracker_notify p)) s Q.
Proof.
  intros Hpt Hp HQ. pose proof (pt_hands _ _ _ _ _ _ _ _ Hpt) as [(l & Hw & Hl) Had Htr]. apply wp_when; intros ->.
  - unfold tracker_notify. apply wp_in_tracker. eapply wp_mono.
    { apply (ot_insert _ _ _ p Hw); [rewrite Hl; set_solver | by apply Had | done]. }
    intros [] t Hw'. apply HQ. eapply parts_tracker; [exact Hpt |]. split; simpl; [| done | done].
    exists (insert_spec H p l). split; [done |]. intros x. rewrite elem_insert_spec, Hl.
    destruct (decide (x = p)) as [-> | Hne]; set_solver.
  - apply HQ. destruct Hpt as [Hf _ Hpg Hal Hre Hg]. split; try done. split; [| done | done].
    exists l. split; [done |]. intros x. rewrite Hl. split; [by intros (_ & _ & ?) | by intros (_ & _ & ?)].
Qed.

(** The tracker lets go of the handle. *)
Lemma p_untrack s B H tr c al re p (Q : unit -> MetaAllocator -> Prop) :
  parts s B H ∅ tr c al re -> is_Some (H !! p) ->
  (forall s', parts s' B H {[p]} tr c al re -> Q tt s') -> wp (mwhen tr (tracker_release p)) s Q.
Proof.
  intros Hpt Hp HQ. pose proof (pt_hands _ _ _ _ _ _ _ _ Hpt) as [(l & Hw & Hl) Had Htr]. apply wp_when; intros ->.
  - unfold tracker_release. wp_step. apply wp_in_tracker. eapply wp_mono; [apply (ot_remove _ _ _ p Hw), Hl; set_solver |].
    intros a t Hw'. wp_step. apply HQ. eapply parts_tracker; [exact Hpt |]. split; simpl; [| done | done].
    exists (remove_spec p l). split; [done |]. intros x. rewrite elem_remove_spec, Hl. set_solver.
  - apply HQ. destruct Hpt as [Hf _ Hpg Hal Hre Hg]. split; try done. split; [| done | done].
    exists l. split; [done |]. intros x. rewrite Hl. split; [by intros (_ & _ & ?) | by intros (_ & _ & ?)].
Qed.

Lemma p_delete_handle s B H tr c al re p (Q : unit -> MetaAllocator -> Prop) :
  parts s B H {[p]} tr c al re -> is_Some (H !! p) ->
  (forall s', parts s' B (delete p H) ∅ tr c al re -> Q tt s') -> wp (in_tracker (delete_object p)) s Q.
Proof.
  intros Hpt [h Hp] HQ. pose proof (pt_hands _ _ _ _ _ _ _ _ Hpt) as Hh. pose proof Hh as [(l & Hw & Hl) Had Htr].
  destruct (hd_node _ _ _ _ _ _ Hh Hp) as (nd & Hnd & _). apply wp_in_tracker. unfold delete_object.
  wp_step. eapply wp_node; [exact Hnd |]. wp_step. apply HQ. eapply parts_tracker; [exact Hpt |]. split; simpl; [| | done].
  - exists l. split; [apply (ot_delete _ _ _ p Hw); rewrite Hl; set_solver |].
    intros x. rewrite Hl, lookup_delete_is_Some. set_solver.
  - intros x [_ Hx]%lookup_delete_is_Some. by apply Had.
Qed.

Lemma p_set_handle s B H D tr c al re p h h' (Q : unit -> MetaAllocator -> Prop) :
  parts s B H D tr c al re -> H !! p = Some h -> h_start h' = h_start h ->
  (forall s', parts s' B (<[p := h']> H) D tr c al re -> Q tt s') -> wp (in_tracker (set_object p h')) s Q.
Proof.
  intros Hpt Hp Hk HQ. pose proof (pt_hands _ _ _ _ _ _ _ _ Hpt) as Hh. pose proof Hh as [(l & Hw & Hl) Had Htr].
  destruct (hd_node _ _ _ _ _ _ Hh Hp) as (nd & Hnd & Hn). apply wp_in_tracker. unfold set_object, set_node.
  wp_step. eapply wp_node; [exact Hnd |]. wp_step. apply HQ. eapply parts_tracker; [exact Hpt |]. split; simpl; [| | done].
  - exists l. split.
    + apply (ot_set _ _ _ p nd (mk_node (m_left nd) (m_right nd) (m_parentAndRed nd) h') Hw Hnd); [done |].
      right. by rewrite Hn.
    + intros x. rewrite Hl, lookup_insert_is_Some'. destruct (decide (p = x)) as [<- |]; [| naive_solver].
      rewrite Hp. naive_solver.
  - intros x [<- | Hx]%lookup_insert_is_Some'; apply Had; [by rewrite Hp | done].
Qed.

(** ** The invariant *)

Abbreviation HB H := (hblk <$> H).

Record alloc_inv s B H : Prop := mk_alloc_inv {
  ai_parts : parts s B H ∅ (m_tracker s) (cnt lp (HB H)) (u64 (bsum (HB H))) (u64 (bsum B + bsum (HB H)));
  ai_addr p : is_Some (H !! p) -> p < 2 ^ 64;
  ai_blocks : blocks_ok lg lp (HB H);
  ai_disj : disj (HB H);
  ai_cross a : owns B a -> ~ owns (HB H) a
}.

(** Addresses of nodes that are not in use. *)
Record fresh B H (e : external) : Prop := mk_fresh {
  fh_node : B !! ext_node e = None;
  fh_node_addr : addr_ok (ext_node e);
  fh_handle : H !! ext_handle e = None;
  fh_handle_addr : addr_ok (ext_handle e);
  fh_handle_word : ext_handle e < 2 ^ 64
}.

(** A region of address space that is new to the allocator. *)
Definition new_region B H (b : block) : Prop :=
  block_ok lg lp b /\ forall a, in_block b a -> ~ owns B a /\ ~ owns (HB H) a.

(** [allocateNewSpace] gives whole pages, at least as many as it is asked for. *)
Definition new_space_ok B H (e : external) : Prop :=
  forall k start np, allocateNewSpace e k = (start, np) -> start <> 0 -> 0 < k ->
    k <= np /\ new_region B H (start, np * 2 ^ lp).

Lemma size_bound {A} (m : gmap Z A) N : (forall p, is_Some (m !! p) -> 0 < p < N) -> Z.of_nat (size m) < Z.max 1 N.
Proof.
  intros Hm. assert (size (dom m : gset Z) <= size (list_to_set (seqZ 1 (N - 1)) : gset Z))%nat as Hle.
  { apply subseteq_size. intros p Hp%elem_of_dom%Hm. apply elem_of_list_to_set, elem_of_seqZ. lia. }
  rewrite size_dom, size_list_to_set, length_seqZ in Hle by apply NoDup_seqZ. lia.
Qed.

Lemma cnt_word s B H pg : alloc_inv s B H -> cnt lp (HB H) pg < 2 ^ 64 - 1.
Proof.
  intros [Hp Ha _ _ _]. pose proof (cnt_bounds lp (HB H) pg) as Hc. rewrite map_size_fmap in Hc.
  assert (Z.of_nat (size H) < Z.max 1 (2 ^ 64 - 1)) as Hs; [apply size_bound | lia].
  intros p Hpp. pose proof (Ha p Hpp). destruct (hd_addr _ _ _ _ (pt_hands _ _ _ _ _ _ _ _ Hp) p Hpp) as [H1 H2].
  destruct (decide (p = 2 ^ 64 - 1)) as [-> |]; [by vm_compute in H2 | lia].
Qed.

Lemma ok_coarse b : block_ok lp lp b -> block_ok lg lp b.
Proof.
  intros [H1 H2 H3 H4 H5]. assert (2 ^ lg | 2 ^ lp) as Hd.
  { exists (2 ^ (lp - lg)). rewrite <- Z.pow_add_r by lia. f_equal. lia. }
  split; [done | done | done | by etrans | by etrans].
Qed.

(** ** New space *)

Definition pages_for (n : Z) : Z := (n + 2 ^ lp - 1) / 2 ^ lp.

Lemma fresh_space_ok e s B H D tr c al re n (Q : Z -> MetaAllocator -> Prop) :
  parts s B H D tr c al re -> 0 < n -> (2 ^ lg | n) -> n + 2 ^ lp < 2 ^ 64 ->
  fresh B H e -> new_space_ok B H e ->
  ((allocateNewSpace e (pages_for n)).1 = 0 -> Q 0 s) ->
  (forall s' B' start np, allocateNewSpace e (pages_for n) = (start, np) -> start <> 0 ->
     parts s' B' H D tr c al (u64 (re + np * 2 ^ lp)) -> block_ok lg lp (start, n) -> n <= np * 2 ^ lp ->
     (forall a, owns B' a <-> owns B a \/ in_block (start + n, np * 2 ^ lp - n) a) ->
     bsum B' = bsum B + (np * 2 ^ lp - n) -> Q start s') ->
  wp (fresh_space e n) s Q.
Proof.
  intros Hpt Hn Hd Hw [Hf1 Hf2 _ _ _] Hnew H0 HQ. pose proof (pt_pages _ _ _ _ _ _ _ _ Hpt) as [Hlog Hps _ _ _ _ _].
  pose proof (pt_reserved _ _ _ _ _ _ _ _ Hpt) as Hre. pose proof (Z.pow_pos_nonneg 2 lp) as Hpp.
  unfold fresh_space. wp_step. wp_step. rewrite Hlog, Hps. cbv zeta. no_wrap. rewrite Z.shiftr_div_pow2 by lia.
  fold (pages_for n). destruct (allocateNewSpace e (pages_for n)) as [start np] eqn:He.
  unfold truthy. destruct (Z.eqb_spec start 0) as [-> | Hs]; simpl; [by apply wp_ret, H0 |].
  pose proof (round_up_spec lp n) as Hr. unfold round_up in Hr. fold (pages_for n) in Hr.
  assert (0 < pages_for n) as Hpos by (apply Z.div_str_pos; lia).
  destruct (Hnew _ _ _ He Hs Hpos) as (Hnp & Hok & Hoff). pose proof Hok as [K1 K2 K3 K4 K5]. simpl in *.
  rewrite Z.shiftl_mul_pow2 by lia. unfold b_end in K3. simpl in K3.
  assert (n <= np * 2 ^ lp) as Hle by nia.
  wp_step. apply wp_meta_assert; [by apply Z.leb_le |]. no_wrap. wp_step. apply wp_meta_assert; [by apply Z.leb_le |].
  wp_step. wp_step. rewrite Hre. apply (parts_reserved _ _ _ _ _ _ _ _ (u64 (re + np * 2 ^ lp))) in Hpt.
  assert (block_ok lg lp (start, n)) as Hbn.
  { split; simpl; [done | done | unfold b_end; simpl; lia | done | done]. }
  wp_step. destruct (Z.ltb_spec n (np * 2 ^ lp)) as [Hlt | Hge]; simpl.
  - eapply (p_add e _ B H D tr c al _ (start + n, np * 2 ^ lp - n)); [exact Hpt | | | done | done |].
    + split; simpl; [lia | lia | unfold b_end; simpl; lia | by apply Z.divide_add_r | by apply Z.divide_sub_r].
    + intros a Ha. apply Hoff. unfold in_block, b_end in *. simpl in *. lia.
    + intros s' B' Hp' [_ Hfo Hfs]. wp_step. eapply (HQ s' B' start np); done.
  - wp_step. wp_step. eapply (HQ _ B start np); [done | done | exact Hpt | done | done | | lia].
    intros a. split; [by left |]. intros [? | Ha]; [done |]. unfold in_block, b_end in Ha. simpl in Ha. lia.
Qed.

(** ** allocate *)

Definition no_fit B (n : Z) : Prop := forall p b, B !! p = Some b -> b.2 < n.

(** The bytes of regions. *)
Definition rsum (rs : list block) : Z := foldr (fun b acc => b.2 + acc) 0 rs.

Definition in_regions (rs : list block) (a : Z) : Prop := Exists (fun b => in_block b a) rs.

(** The block [b] of [n] bytes comes out of the free blocks, or it is the start
    of new pages if no free block is large enough; the regions that are new. *)
Inductive comes_from B (e : external) (n : Z) : block -> list block -> Prop :=
  | from_free b : best_fit B n b -> comes_from B e n b []
  | from_new b np : no_fit B n -> allocateNewSpace e (pages_for n) = (b.1, np) -> b.1 <> 0 -> b.2 = n ->
      comes_from B e n b [(b.1, np * 2 ^ lp)].

(** Space for the block [b] was found: it is neither free nor in use. *)
Record got s B H (e : external) (n : Z) s' B' (b : block) (rs : list block) : Prop := mk_got {
  gt_parts : parts s' B' H ∅ (m_tracker s) (cnt lp (HB H)) (u64 (bsum (HB H))) (u64 (bsum B' + (n + bsum (HB H))));
  gt_size : b.2 = n;
  gt_block : block_ok lg lp b;
  gt_off a : in_block b a -> ~ owns B' a /\ ~ owns (HB H) a;
  gt_cross a : owns B' a -> ~ owns (HB H) a;
  gt_owns a : owns B' a \/ in_block b a <-> owns B a \/ in_regions rs a;
  gt_sum : bsum B' + n = bsum B + rsum rs;
  gt_from : comes_from B e n b rs
}.

Lemma got_free s B H e n s' B' b :
  alloc_inv s B H ->
  parts s' B' H ∅ (m_tracker s) (cnt lp (HB H)) (u64 (bsum (HB H))) (u64 (bsum B + bsum (HB H))) ->
  taken lg lp B b B' -> best_fit B n b -> got s B H e n s' B' b [].
Proof.
  intros [_ _ _ _ Hx] Hp [T1 T2 T3 T4] Hb. pose proof Hb as (p & b0 & _ & _ & _ & Hn & _).
  split; [| done | done | | | | simpl; lia | by constructor].
  - replace (bsum B' + (n + bsum (HB H))) with (bsum B + bsum (HB H)) by lia. done.
  - intros a Ha. rewrite T3. split; [tauto |]. by apply Hx, T2.
  - intros a [Ha _]%T3. by apply Hx.
  - intros a. rewrite T3. specialize (T2 a). unfold in_regions. rewrite Exists_nil.
    assert (in_block b a \/ ~ in_block b a) by (unfold in_block; lia). tauto.
Qed.

Lemma got_new s B H e n s' B' start np :
  alloc_inv s B H -> no_fit B n -> new_space_ok B H e -> 0 < n ->
  allocateNewSpace e (pages_for n) = (start, np) -> start <> 0 ->
  parts s' B' H ∅ (m_tracker s) (cnt lp (HB H)) (u64 (bsum (HB H))) (u64 (u64 (bsum B + bsum (HB H)) + np * 2 ^ lp)) ->
  block_ok lg lp (start, n) -> n <= np * 2 ^ lp ->
  (forall a, owns B' a <-> owns B a \/ in_block (start + n, np * 2 ^ lp - n) a) ->
  bsum B' = bsum B + (np * 2 ^ lp - n) -> got s B H e n s' B' (start, n) [(start, np * 2 ^ lp)].
Proof.
  intros [_ _ _ _ Hx] Hno Hnew Hn He Hs Hp Hb Hle Ho Hsum. pose proof (Z.pow_pos_nonneg 2 lp).
  destruct (Hnew _ _ _ He Hs) as (_ & _ & Hoff); [apply Z.div_str_pos; lia |].
  assert (forall a, in_block (start, np * 2 ^ lp) a <-> in_block (start, n) a \/ in_block (start + n, np * 2 ^ lp - n) a) as Hin.
  { intros a. unfold in_block, b_end. simpl. lia. }
  split; [| done | done | | | | simpl; lia | by econstructor].
  - unfold u64, uwrap in Hp |- *. rewrite Zplus_mod_idemp_l in Hp.
    replace (bsum B' + (n + bsum (HB H))) with (bsum B + bsum (HB H) + np * 2 ^ lp) by lia. done.
  - intros a Ha. destruct (Hoff a) as [H1 H2]; [apply Hin; tauto |]. split; [| done]. rewrite Ho. intros [? | Ha']; [done |].
    unfold in_block, b_end in *. simpl in *. lia.
  - intros a [Ha | Ha]%Ho; [by apply Hx |]. apply Hoff, Hin. tauto.
  - intros a. unfold in_regions. rewrite Ho, Exists_cons, Exists_nil, Hin. tauto.
Qed.

(** What a request for [n] bytes can come to. *)
Definition allocate_post s B H e n owner (r : Z) s' : Prop :=
  (r = 0 /\ s' = s /\ (n = 0 \/ (no_fit B (round_up lg n) /\ (allocateNewSpace e (pages_for (round_up lg n))).1 = 0))) \/
  (r = ext_handle e /\ exists B' b rs,
     alloc_inv s' B' (<[r := mk_handle b.1 b.2 owner]> H) /\ b.2 = round_up lg n /\
     comes_from B e (round_up lg n) b rs /\
     (forall a, owns B' a \/ in_block b a <-> owns B a \/ in_regions rs a) /\
     bsum B' + b.2 = bsum B + rsum rs).

(** The new handle. *)
Lemma got_inv s B H e n owner s1 s' B' b rs :
  alloc_inv s B H -> fresh B H e -> got s B H e n s1 B' b rs ->
  parts s' B' (<[ext_handle e := mk_handle b.1 b.2 owner]> H) ∅ (m_tracker s)
    (fun x => cnt lp (HB H) x + b2z (covers lp b x)) (u64 (u64 (bsum (HB H)) + n)) (u64 (bsum B' + (n + bsum (HB H)))) ->
  alloc_inv s' B' (<[ext_handle e := mk_handle b.1 b.2 owner]> H).
Proof.
  intros [_ Ha Hk Hd _] [_ _ Hh _ Hw] [_ Gs Gb Go Gc _ _ _] Hp.
  assert (HB (<[ext_handle e := mk_handle b.1 b.2 owner]> H) = <[ext_handle e := b]> (HB H)) as E.
  { rewrite fmap_insert. f_equal. by destruct b. }
  assert (HB H !! ext_handle e = None) as Hn by (by rewrite lookup_fmap, Hh).
  split; rewrite ?E.
  - rewrite bsum_insert, <- Gs in * by done. pose proof (hd_tracker _ _ _ _ (pt_hands _ _ _ _ _ _ _ _ Hp)) as ->.
    unfold u64, uwrap in Hp |- *. rewrite Zplus_mod_idemp_l, (Z.add_comm (bsum (HB H))) in Hp.
    eapply parts_ext; [exact Hp |]. intros pg. by rewrite cnt_insert.
  - intros p [<- | Hx]%lookup_insert_is_Some'; [done | by apply Ha].
  - by apply blocks_ok_insert.
  - apply disj_insert; [done |]. intros a Hb. by apply Go.
  - intros a Hb. rewrite owns_insert by done. intros [Hb' | Hb']; [by destruct (Go a Hb') | by apply (Gc a)].
Qed.

Lemma allocate_ok e s B H n owner :
  alloc_inv s B H -> fresh B H e -> new_space_ok B H e -> 0 <= n -> n + 2 ^ lg + 2 ^ lp < 2 ^ 64 ->
  wp (allocate e n owner) s (allocate_post s B H e n owner).
Proof.
  intros Hinv Hfr Hnew Hn Hw. pose proof (Z.pow_pos_nonneg 2 lp) as Hpp. pose proof (ai_parts _ _ _ Hinv) as Hpt.
  unfold allocate, truthy. destruct (Z.eqb_spec n 0) as [-> | Hn0]; simpl; [apply wp_ret; left; auto |].
  wp_step. eapply p_roundUp; [exact Hpt | done | lia |].
  pose proof (round_up_spec lg n Hlg) as [Hr Hrd]. set (m := round_up lg n) in *.
  assert (forall (k : Z -> AM Z) (Q : Z -> MetaAllocator -> Prop),
    (no_fit B m -> (allocateNewSpace e (pages_for m)).1 = 0 -> wp (k 0) s Q) ->
    (forall s' B' b rs, got s B H e m s' B' b rs -> wp (k b.1) s' Q) ->
    wp (start ← findAndRemoveFreeSpace m;
        start ← (if negb (negb (start =? 0)) then fresh_space e m else mret start); k start) s Q) as Hspace.
  { intros k Q H0 HQ. wp_step. eapply p_take; [exact Hpt | lia | done | |].
    - intros Hno. wp_step. rewrite Z.eqb_refl. simpl.
      eapply fresh_space_ok; [exact Hpt | lia | done | lia | done | done | by apply H0 |].
      intros s' B' start np He Hs Hp' Hb Hle Ho Hsum. apply (HQ s' B' (start, m) [(start, np * 2 ^ lp)]).
      by apply got_new; try lia.
    - intros s' b B' Hp' Ht Hb. wp_step. pose proof (bk_page _ _ _ (tk_block _ _ _ _ _ Ht)).
      rewrite (proj2 (Z.eqb_neq b.1 0)) by lia. simpl. wp_step. eapply HQ. by eapply got_free. }
  apply Hspace.
  - intros Hno Hz. rewrite Z.eqb_refl. simpl. apply wp_ret. left. auto.
  - clear Hspace. intros s1 B' b rs Hg. pose proof Hg as [Gp Gs Gb Go Gc Gt Gm Gf].
    destruct (block_bounds lg lp ltac:(lia) b Gb) as (Hb1 & _). pose proof (bk_size _ _ _ Gb).
    rewrite (proj2 (Z.eqb_neq b.1 0)) by lia. simpl.
    wp_step. rewrite <- Gs in Gp, Hg |- * . eapply p_incr; [exact Gp | done | intros pg; by eapply cnt_word |]. intros s2 Hp2.
    wp_step. wp_step. rewrite (pt_allocated _ _ _ _ _ _ _ _ Hp2).
    apply (parts_allocated _ _ _ _ _ _ _ _ (u64 (u64 (bsum (HB H)) + b.2))) in Hp2.
    wp_step. wp_step. wp_step. apply wp_meta_assert; [by rewrite (proj2 (Z.eqb_neq b.2 0)) by lia |].
    wp_step. eapply p_new_handle; [exact Hp2 | apply Hfr | apply Hfr |]. intros s3 Hp3.
    wp_step. apply wp_gets. rewrite (hd_tracker _ _ _ _ (pt_hands _ _ _ _ _ _ _ _ Hp3)).
    wp_step. eapply p_notify; [exact Hp3 | by rewrite lookup_insert_eq |]. intros s4 Hp4. wp_step.
    right. split; [done |]. exists B', b, rs. split_and!; [by eapply got_inv | done | done | done | by rewrite Gs].
Qed.

(** ** Releasing handles *)

Definition fresh_node B (e : external) : Prop := B !! ext_node e = None /\ addr_ok (ext_node e).

Lemma HB_lookup H p h : H !! p = Some h -> HB H !! p = Some (hblk h).
Proof. intros Hp. by rewrite lookup_fmap, Hp. Qed.

Lemma u64_minus x y z : x - y = z -> u64 (u64 x - y) = u64 z.
Proof. intros <-. unfold u64, uwrap. by rewrite Zminus_mod_idemp_l. Qed.

(** The bytes [k] of a block in use become free. *)
Lemma p_release_bytes e s B H D tr c re (x : Z) (k : block) (Q : unit -> MetaAllocator -> Prop) :
  parts s B H D tr c (u64 x) re -> block_ok lg lp k -> (forall a, in_block k a -> ~ owns B a) -> fresh_node B e ->
  (forall s' B', parts s' B' H D tr c (u64 (x - k.2)) re -> freed lg lp B k B' -> Q tt s') ->
  wp (addFreeSpaceFromReleasedHandle e k.1 k.2) s Q.
Proof.
  intros Hpt Hk Ho [Hn1 Hn2] HQ. unfold addFreeSpaceFromReleasedHandle. wp_step. wp_step.
  rewrite (pt_allocated _ _ _ _ _ _ _ _ Hpt), (u64_minus _ _ (x - k.2)) by done.
  apply (parts_allocated _ _ _ _ _ _ _ _ (u64 (x - k.2))) in Hpt. by eapply p_add.
Qed.

Lemma used_not_free s B H p h a :
  alloc_inv s B H -> H !! p = Some h -> in_block (hblk h) a -> ~ owns B a.
Proof. intros [_ _ _ _ Hx] Hp Ha Hb. apply (Hx a Hb). exists p, (hblk h). by rewrite (HB_lookup _ _ h). Qed.

Lemma destroy_handle_ok e s B H p h :
  alloc_inv s B H -> H !! p = Some h -> fresh_node B e ->
  wp (destroy_handle e p) s (fun _ s' => exists B', alloc_inv s' B' (delete p H) /\ freed lg lp B (hblk h) B').
Proof.
  intros Hinv Hp Hn. pose proof Hinv as [Hpt Ha Hk Hd Hx]. pose proof (HB_lookup _ _ _ Hp) as Hb.
  pose proof (Hk _ _ Hb) as Kb. destruct (block_bounds lg lp ltac:(lia) _ Kb) as (_ & K2 & _ & K3).
  unfold destroy_handle, release. wp_step. wp_step. eapply p_get_handle; [exact Hpt | exact Hp |].
  unfold truthy. rewrite (proj2 (Z.eqb_neq _ 0)) by (simpl in K2; lia). simpl mwhen.
  wp_step. wp_step. change (h_start h) with (hblk h).1. change (h_sizeInBytes h) with (hblk h).2.
  eapply p_decr; [exact Hpt | apply Kb | apply Kb | done | |].
  { intros pg Hc. pose proof (cnt_word _ _ _ pg Hinv). split; [by eapply cnt_pos | lia]. }
  intros s1 Hp1. eapply p_release_bytes; [exact Hp1 | done | intros a; by eapply used_not_free | done |].
  intros s2 B' Hp2 Hfr. wp_step. apply wp_gets. rewrite (hd_tracker _ _ _ _ (pt_hands _ _ _ _ _ _ _ _ Hp2)).
  eapply p_untrack; [exact Hp2 | by rewrite Hp |]. intros s3 Hp3.
  eapply p_delete_handle; [exact Hp3 | by rewrite Hp |]. intros s4 Hp4. exists B'. split; [| done].
  pose proof Hfr as [_ Ho Hs]. split; rewrite ?fmap_delete.
  - rewrite (hd_tracker _ _ _ _ (pt_hands _ _ _ _ _ _ _ _ Hp4)), (bsum_delete _ _ (hblk h)), Hs by done.
    replace (bsum B + (hblk h).2 + (bsum (HB H) - (hblk h).2)) with (bsum B + bsum (HB H)) by lia.
    eapply parts_ext; [exact Hp4 |]. intros pg. by rewrite (cnt_delete _ _ _ (hblk h)).
  - intros q [_ Hq]%lookup_delete_is_Some. by apply Ha.
  - by apply blocks_ok_delete.
  - by apply disj_delete.
  - intros a Hoa. rewrite (owns_delete _ _ (hblk h)) by done. intros [Hh Hnb].
    apply Ho in Hoa as [Hoa | Hoa]; [by apply (Hx a) | done].
Qed.

(** ** Shrinking handles *)

(** The pages of a block: those of its first [n] bytes and the pages that start
    behind them. *)
Lemma covers_split st n sz x :
  0 < n < sz -> let F := round_up lp (st + n) in
  b2z (covers lp (st, sz) x) =
    b2z (covers lp (st, n) x) + (if F <? st + sz then b2z (covers lp (F, st + sz - F) x) else 0).
Proof.
  intros Hn F. pose proof (Z.pow_pos_nonneg 2 lp) as Hpp. assert (0 < 2 ^ lp) as Hp by lia. clear Hpp.
  assert (F = ((st + n - 1) / 2 ^ lp + 1) * 2 ^ lp) as HF.
  { unfold F, round_up. replace (st + n + 2 ^ lp - 1) with (st + n - 1 + 1 * 2 ^ lp) by lia.
    rewrite Z.div_add by lia. done. }
  assert (F / 2 ^ lp = (st + n - 1) / 2 ^ lp + 1) as HFp by (rewrite HF; by apply Z.div_mul; lia).
  assert (st / 2 ^ lp <= (st + n - 1) / 2 ^ lp) by (apply Z.div_le_mono; lia).
  assert ((st + n - 1) / 2 ^ lp <= (st + sz - 1) / 2 ^ lp) by (apply Z.div_le_mono; lia).
  unfold covers, b_end. simpl fst. simpl snd. destruct (Z.ltb_spec F (st + sz)) as [Hlt | Hge].
  - rewrite HFp. replace (F + (st + sz - F) - 1) with (st + sz - 1) by lia.
    assert (F / 2 ^ lp <= (st + sz - 1) / 2 ^ lp) by (apply Z.div_le_mono; lia).
    repeat match goal with |- context [?a <=? ?b] => destruct (Z.leb_spec a b) end; simpl; lia.
  - assert ((st + sz - 1) / 2 ^ lp < (st + n - 1) / 2 ^ lp + 1) by (apply Z.div_lt_upper_bound; lia).
    repeat match goal with |- context [?a <=? ?b] => destruct (Z.leb_spec a b) end; simpl; lia.
Qed.

(** What is left of the handle, and the bytes that become free. *)
Definition shrunk (h : MetaAllocatorHandle) (n : Z) : MetaAllocatorHandle :=
  mk_handle (h_start h) (round_up lg n) (h_ownerUID h).
Definition cut_off (h : MetaAllocatorHandle) (n : Z) : block :=
  (h_start h + round_up lg n, h_sizeInBytes h - round_up lg n).

Lemma shrink_inv s s' B B' H p h n :
  alloc_inv s B H -> H !! p = Some h -> 0 < round_up lg n < h_sizeInBytes h -> freed lg lp B (cut_off h n) B' ->
  parts s' B' (<[p := shrunk h n]> H) ∅ (m_tracker s) (cnt lp (HB (<[p := shrunk h n]> H)))
    (u64 (bsum (HB H) - (cut_off h n).2)) (u64 (bsum B + bsum (HB H))) ->
  alloc_inv s' B' (<[p := shrunk h n]> H).
Proof.
  intros [_ Ha Hk Hd Hx] Hp Hn [_ Ho Hs] Hpt. pose proof (HB_lookup _ _ _ Hp) as Hb. pose proof (Hk _ _ Hb) as [K1 K2 K3 K4 K5].
  pose proof (round_up_spec lg n Hlg) as [_ Hrd]. simpl in *.
  assert (forall a, in_block (hblk (shrunk h n)) a -> in_block (hblk h) a) as Hin.
  { intros a. unfold in_block, b_end. simpl. lia. }
  assert (forall a, owns (HB (<[p := shrunk h n]> H)) a -> owns (HB H) a /\ ~ in_block (cut_off h n) a) as Hsub.
  { intros a. rewrite fmap_insert, <- insert_delete_eq, owns_insert by apply lookup_delete_eq.
    rewrite (owns_delete _ _ (hblk h)) by done. intros [Hs' | [Hs' Hs'']].
    - split; [exists p, (hblk h); auto |]. unfold in_block, b_end in *. simpl in *. lia.
    - split; [done |]. intros Hc. apply Hs''. unfold in_block, b_end in *. simpl in *. lia. }
  split.
  - rewrite (hd_tracker _ _ _ _ (pt_hands _ _ _ _ _ _ _ _ Hpt)). revert Hpt.
    rewrite fmap_insert, (bsum_update _ _ (hblk h)) by done. rewrite Hs. simpl.
    replace (bsum B + (h_sizeInBytes h - round_up lg n) + (bsum (HB H) - h_sizeInBytes h + round_up lg n))
      with (bsum B + bsum (HB H)) by lia.
    by replace (bsum (HB H) - h_sizeInBytes h + round_up lg n) with (bsum (HB H) - (h_sizeInBytes h - round_up lg n)) by lia.
  - intros q [<- | Hq]%lookup_insert_is_Some'; apply Ha; [by rewrite Hp | done].
  - rewrite fmap_insert. apply blocks_ok_insert; [done |].
    split; simpl; [done | lia | unfold b_end in *; simpl in *; lia | done | done].
  - rewrite fmap_insert, <- insert_delete_eq. apply disj_insert; [by apply disj_delete |].
    intros a Hin'. rewrite (owns_delete _ _ (hblk h)) by done. intros [_ Hc]. by apply Hc, Hin.
  - intros a [Hoa | Hoa]%Ho [H1 H2]%Hsub; [by apply (Hx a) | done].
Qed.

(** Every page that starts in the bytes cut off is left. *)
Lemma shrink_pages s B H p h n (Q : unit -> MetaAllocator -> Prop) :
  alloc_inv s B H -> H !! p = Some h -> 0 < round_up lg n < h_sizeInBytes h ->
  (forall s', parts s' B H ∅ (m_tracker s) (cnt lp (HB (<[p := shrunk h n]> H)))
     (u64 (bsum (HB H))) (u64 (bsum B + bsum (HB H))) -> Q tt s') ->
  let F := round_up lp (h_start h + round_up lg n) in
  wp (mwhen (F <? h_start h + h_sizeInBytes h)
        (decrementPageOccupancy F (u64 (h_sizeInBytes h - round_up lg n - (F - (h_start h + round_up lg n)))))) s Q.
Proof.
  intros Hinv Hp Hn HQ F. pose proof Hinv as [Hpt _ Hk _ _]. pose proof (HB_lookup _ _ _ Hp) as Hb.
  pose proof (Hk _ _ Hb) as [K1 K2 K3 _ _]. pose proof (Z.pow_pos_nonneg 2 lp) as Hpp. unfold b_end in K3. simpl in *.
  pose proof (round_up_spec lp (h_start h + round_up lg n) ltac:(lia)) as [HF _]. fold F in HF.
  pose proof (covers_split (h_start h) (round_up lg n) (h_sizeInBytes h)) as Hcov. fold F in Hcov.
  assert (forall x, cnt lp (HB (<[p := shrunk h n]> H)) x = cnt lp (HB H) x -
    (if F <? h_start h + h_sizeInBytes h then b2z (covers lp (F, h_start h + h_sizeInBytes h - F) x) else 0)) as Hcnt.
  { intros x. rewrite fmap_insert, (cnt_update _ _ _ (hblk h)) by done. unfold hblk. simpl. rewrite Hcov by lia. lia. }
  destruct (Z.ltb_spec F (h_start h + h_sizeInBytes h)) as [Hlt | Hge]; simpl.
  - replace (u64 (h_sizeInBytes h - round_up lg n - (F - (h_start h + round_up lg n))))
      with (h_start h + h_sizeInBytes h - F) by (no_wrap; lia).
    eapply (p_decr s B H ∅ _ _ _ _ (F, h_start h + h_sizeInBytes h - F));
      [exact Hpt | simpl; lia | simpl; lia | unfold b_end; simpl; lia | |].
    + intros pg Hc. pose proof (cnt_word _ _ _ pg Hinv). split; [| lia]. eapply cnt_pos; [exact Hb |].
      specialize (Hcov pg ltac:(lia)). simpl in Hcov. rewrite (proj2 (Z.ltb_lt F _) Hlt), Hc in Hcov.
      unfold hblk. destruct (covers lp (h_start h, h_sizeInBytes h) pg); [done |].
      destruct (covers lp (h_start h, round_up lg n) pg); simpl in Hcov; lia.
    + intros s1 Hp1. apply HQ. eapply parts_ext; [exact Hp1 |]. intros x. simpl. by rewrite Hcnt.
  - apply wp_ret, HQ. eapply parts_ext; [exact Hpt |]. intros x. rewrite Hcnt. lia.
Qed.

Lemma shrink_ok e s B H p h n :
  alloc_inv s B H -> H !! p = Some h -> fresh_node B e -> 0 < n <= h_sizeInBytes h ->
  wp (shrink e p n) s (fun _ s' =>
    (round_up lg n = h_sizeInBytes h /\ s' = s) \/
    (round_up lg n < h_sizeInBytes h /\
     exists B', alloc_inv s' B' (<[p := shrunk h n]> H) /\ freed lg lp B (cut_off h n) B')).
Proof.
  intros Hinv Hp Hn Hsz. pose proof Hinv as [Hpt Ha Hk Hd Hx]. pose proof (HB_lookup _ _ _ Hp) as Hb.
  pose proof (Hk _ _ Hb) as Kb. pose proof Kb as [K1 K2 K3 K4 K5]. pose proof (Z.pow_pos_nonneg 2 lp) as Hpp.
  assert (2 ^ lg <= 2 ^ lp) as Hgp by (apply Z.pow_le_mono_r; lia). pose proof (Z.pow_pos_nonneg 2 lg) as Hpg.
  unfold b_end in K3. simpl in *. pose proof (round_up_spec lg n Hlg) as [Hr Hrd].
  pose proof (round_up_le lg n (h_sizeInBytes h) Hlg ltac:(lia) K5) as Hle.
  unfold shrink. wp_step. eapply p_get_handle; [exact Hpt | exact Hp |].
  wp_step. apply wp_meta_assert; [apply Z.leb_le; lia |]. wp_step. eapply p_roundUp; [exact Hpt | lia | lia |].
  wp_step. apply wp_meta_assert; [by apply Z.leb_le |].
  destruct (Z.eqb_spec (round_up lg n) (h_sizeInBytes h)) as [He | He]; [apply wp_ret; by left |].
  wp_step. apply wp_gets. rewrite (pv_size _ _ _ _ (pt_pages _ _ _ _ _ _ _ _ Hpt)). cbv zeta.
  rewrite !(u64_id (h_start h + round_up lg n)), !(u64_id (h_sizeInBytes h - round_up lg n)) by lia.
  rewrite mask_round by lia. set (F := round_up lp (h_start h + round_up lg n)).
  pose proof (round_up_spec lp (h_start h + round_up lg n) ltac:(lia)) as [HF _]. fold F in HF. no_wrap.
  replace (h_start h + round_up lg n + (h_sizeInBytes h - round_up lg n)) with (h_start h + h_sizeInBytes h) by lia.
  wp_step. eapply shrink_pages; [done | exact Hp | lia |]. intros s1 Hp1. wp_step.
  eapply (p_release_bytes e s1 B H ∅ _ _ _ _ (cut_off h n)); [exact Hp1 | | | done |].
  - split; simpl; [lia | lia | unfold b_end; simpl; lia | by apply Z.divide_add_r | by apply Z.divide_sub_r].
  - intros a Hc. eapply used_not_free; [done | exact Hp |]. unfold in_block, b_end in *. simpl in *. lia.
  - intros s2 B' Hp2 Hfr. eapply p_set_handle; [exact Hp2 | exact Hp | done |]. intros s3 Hp3.
    right. split; [lia |]. exists B'. split; [| done]. eapply shrink_inv; [done | done | lia | done | exact Hp3].
Qed.

(** ** Fresh space, tracking, the whole life *)

Lemma addFreshFreeSpace_ok e s B H k :
  alloc_inv s B H -> fresh_node B e -> new_region B H k ->
  wp (addFreshFreeSpace e k.1 k.2) s (fun _ s' => exists B', alloc_inv s' B' H /\ freed lg lp B k B').
Proof.
  intros [Hpt Ha Hk Hd Hx] [Hn1 Hn2] [Kk Hoff]. unfold addFreshFreeSpace. wp_step. wp_step.
  rewrite (pt_reserved _ _ _ _ _ _ _ _ Hpt). apply (parts_reserved _ _ _ _ _ _ _ _ (u64 (u64 (bsum B + bsum (HB H)) + k.2))) in Hpt.
  eapply p_add; [exact Hpt | done | intros a Hin; by apply Hoff | done | done |]. intros s' B' Hp' Hfr.
  exists B'. split; [| done]. destruct Hfr as [_ Ho Hs]. split; [| done | done | done |].
  - rewrite (hd_tracker _ _ _ _ (pt_hands _ _ _ _ _ _ _ _ Hp')), Hs. unfold u64, uwrap in Hp' |- *.
    rewrite Zplus_mod_idemp_l in Hp'. by replace (bsum B + k.2 + bsum (HB H)) with (bsum B + bsum (HB H) + k.2) by lia.
  - intros a [Hoa | Hoa]%Ho; [by apply Hx | by apply Hoff].
Qed.

Lemma trackAllocations_ok s B :
  alloc_inv s B ∅ -> wp trackAllocations s (fun _ s' => alloc_inv s' B ∅ /\ m_tracker s' = true).
Proof.
  intros [[Hf [(l & Hw & Hl) Hha _] Hp Hal Hre Hg] Ha Hk Hd Hx]. unfold trackAllocations. wp_step. split; [| done].
  split; [| done | done | done | done]. split; [by eapply free_view_fields | | by eapply pview_fields | done..].
  split; simpl; [| done | done]. exists l. split; [done |]. intros x. rewrite Hl, lookup_empty.
  split; intros [[? ?] _]; done.
Qed.

Lemma log_loop_ok k fuel log : log <= k -> k - log < Z.of_nat fuel -> 0 <= log -> k < 64 ->
  log_loop fuel log (2 ^ k) = k.
Proof.
  revert log. induction fuel as [| fuel IH]; intros log H1 H2 H3 H4; [lia |]. simpl.
  rewrite Z.shiftl_mul_pow2, Z.mul_1_l by done.
  assert (2 ^ log < 2 ^ 64) by (apply Z.pow_lt_mono_r; lia). pose proof (Z.pow_pos_nonneg 2 log). no_wrap.
  destruct (Z.eqb_spec (2 ^ log) (2 ^ k)) as [He | He]; [by apply Z.pow_inj_r in He; lia |].
  apply IH; [| lia..]. destruct (decide (log = k)) as [-> |]; [done | lia].
Qed.

Lemma new_allocator_ok : lp < 32 ->
  exists s, new_allocator (2 ^ lg) (2 ^ lp) = Ok s /\ alloc_inv s ∅ ∅.
Proof.
  intros H32. unfold new_allocator, log_of. rewrite !log_loop_ok by lia.
  assert (forall k, 0 <= k < 32 -> u64 (Z.shiftl 1 k) = 2 ^ k) as Hs.
  { intros k Hk. rewrite Z.shiftl_mul_pow2, Z.mul_1_l by lia. apply u64_id.
    assert (2 ^ k < 2 ^ 64) by (apply Z.pow_lt_mono_r; lia). lia. }
  rewrite !Hs, !Z.eqb_refl by lia. simpl. eexists. split; [done |].
  split; rewrite ?fmap_empty; [| by intros p [? ?] | by intros p b ? | by intros ? ? ? ? ? ? | by intros a (p & b & ? & _)].
  split; simpl; [| | | by rewrite bsum_empty | by rewrite !bsum_empty | done].
  - split; simpl; [| apply indexed_empty | apply indexed_empty | apply free_ok_empty].
    split; simpl; [| by intros p [? ?] | done | done | by rewrite map_size_empty | done].
    exists []. rewrite fmap_empty. split; [apply ot_empty |]. intros x. rewrite lookup_empty, elem_of_nil.
    split; [done | by intros [[? ?] _]].
  - split; simpl; [| by intros p [? ?] | done]. exists []. split; [apply ot_empty |]. intros x.
    rewrite lookup_empty, elem_of_nil. split; [done | by intros [[? ?] _]].
  - split; simpl; [done | done | intros pg; apply cnt_bounds | | by rewrite map_size_empty, Z.mul_0_r | | done].
    + intros pg n. rewrite lookup_empty. setoid_rewrite cnt_empty. split; [done | lia].
    + exists ∅. split_and!; [done | by rewrite size_empty, map_size_empty |]. intros a. setoid_rewrite cnt_empty.
      split; [set_solver | intros (pg & ? & _); lia].
Qed.

(** ** Reading the state *)

Lemma wf_fuel (t : RedBlackTree FreeSpaceNode) V l : wfF V t l -> (length l < fuel_of t)%nat.
Proof.
  intros Hw. unfold fuel_of. apply Nat.lt_succ_r, nodup_size; [apply (ot_nodup _ _ _ Hw) |]. intros q Hq.
  destruct (ot_elem _ _ _ _ Hw Hq) as [Hs _]. rewrite <- (ot_objects _ _ _ Hw) in Hs. unfold objects in Hs.
  by rewrite lookup_fmap, fmap_is_Some in Hs.
Qed.

Lemma addr_truthy p : addr_ok p -> truthy p = true.
Proof. intros [Hp _]. unfold truthy. by rewrite (proj2 (Z.eqb_neq p 0)) by lia. Qed.

Lemma foldl_sum B (l : list Z) a :
  foldl (fun r p => u64 (r + size_at B p)) (u64 a) l = u64 (a + foldr (fun p acc => size_at B p + acc) 0 l).
Proof.
  revert a. induction l as [| x l IH]; intros a; cbn [foldl foldr]; [f_equal; lia |].
  replace (u64 (u64 a + size_at B x)) with (u64 (a + size_at B x)) by (unfold u64, uwrap; by rewrite Zplus_mod_idemp_l).
  rewrite IH. f_equal. lia.
Qed.

(** The sum of the free blocks. *)
Lemma debugFreeSpaceSize_ok s B H :
  alloc_inv s B H -> wp debugFreeSpaceSize s (fun r s' => s' = s /\ r = u64 (bsum B)).
Proof.
  intros [Hpt _ _ _ _]. pose proof (fw_view _ _ _ _ _ (pt_free _ _ _ _ _ _ _ _ Hpt)) as Hf.
  pose proof Hf as [(l & Hw & Hl) _ _ _ _ _]. unfold debugFreeSpaceSize. apply wp_in_free.
  wp_step. eapply wp_mono; [apply (ot_first _ _ _ Hw) |]. intros r t [-> ->]. wp_step. apply wp_gets.
  eapply wp_mono; [apply (each_loop_ok _ _ (fun r p => u64 (r + size_at B p)) _ [] l) |].
  - simpl. intros k1 q k2 ->. split; [| by apply (ot_successor _ _ k1 q k2 Hw)]. apply addr_truthy.
    apply (ot_elem _ _ _ q Hw). set_solver.
  - intros a q Q Hq HQ. apply Hl in Hq as [[b Hq] _]. destruct (fv_node _ _ _ _ _ _ _ _ _ Hf Hq) as (nd & Hnd & Hn).
    wp_step. unfold get_object. wp_step. eapply wp_node; [exact Hnd |]. wp_step. wp_step. rewrite Hn. simpl.
    replace b.2 with (size_at B q) by (unfold size_at; by rewrite Hq). done.
  - by eapply wf_fuel.
  - simpl. intros r t [-> ->]. split; [by destruct s |]. pose proof (foldl_sum B l 0) as E. change (u64 0) with 0 in E. rewrite E. f_equal. simpl.
    symmetry. apply bsum_list; [apply (ot_nodup _ _ _ Hw) |]. intros x. rewrite Hl. set_solver.
Qed.

(** ** The end of the allocator *)

Lemma free_all_ok (l : list Z) : forall B s fuel,
  wfF (unblk <$> B) (m_freeSpaceSizeMap s) l -> (forall x, x ∈ l <-> is_Some (B !! x)) ->
  m_mallocBalance s = u64 (Z.of_nat (size B)) -> (length l < fuel)%nat ->
  wp (free_all_loop fuel (headz l)) s (fun _ s' => m_mallocBalance s' = 0 /\ nodes (m_freeSpaceSizeMap s') = ∅).
Proof.
  induction l as [| q l IH]; intros B s fuel Hw Hl Hb Hfuel; (destruct fuel as [| fuel]; [simpl in Hfuel; lia |]); simpl.
  - apply wp_ret. assert (B = ∅) as ->.
    { apply map_eq. intros i. rewrite lookup_empty. apply eq_None_not_Some. rewrite <- Hl. by intros ?%elem_of_nil. }
    split; [by rewrite Hb, map_size_empty |]. apply map_eq. intros i. rewrite lookup_empty.
    pose proof (f_equal (.!! i) (ot_objects _ _ _ Hw)) as Ho. unfold objects in Ho.
    rewrite !lookup_fmap, lookup_empty in Ho. by destruct (nodes _ !! i).
  - change (headz (q :: l)) with q. destruct (ot_elem _ _ _ q Hw ltac:(set_solver)) as [_ Hq].
    rewrite (addr_truthy q Hq). simpl. assert (is_Some (B !! q)) as [b Hbq] by (apply Hl; set_solver).
    pose proof (ot_nodup _ _ _ Hw) as Hnd. wp_step. apply wp_in_free. eapply wp_mono; [apply (ot_successor _ _ [] q l Hw) |].
    intros r t [-> ->]. replace (s <| m_freeSpaceSizeMap := m_freeSpaceSizeMap s |>) with s by (by destruct s).
    wp_step. apply wp_in_free. eapply wp_mono; [apply (ot_remove _ _ _ q Hw); set_solver |]. intros r t Hw'.
    pose proof (remove_split q [] l Hnd) as E. simpl app in E. rewrite E in Hw'. apply NoDup_cons in Hnd as [Hql _].
    unfold freeFreeSpaceNode. wp_step. wp_step. wp_step. apply wp_in_free. unfold delete_object. wp_step.
    assert (is_Some (nodes t !! q)) as [nd Hn].
    { rewrite <- (fmap_is_Some m_object), <- lookup_fmap. pose proof (ot_objects _ _ _ Hw') as Ho. unfold objects in Ho.
      rewrite Ho, lookup_fmap, Hbq. done. }
    eapply wp_node; [exact Hn |]. wp_step. apply (IH (delete q B)); simpl; [| | | simpl in Hfuel; lia].
    + rewrite fmap_delete. by apply (ot_delete _ _ _ q Hw').
    + intros x. rewrite lookup_delete_is_Some, <- Hl. set_solver.
    + rewrite Hb. by apply (u64_size_delete _ _ b).
Qed.

(** All free-block nodes are given back. *)
Lemma destroy_allocator_ok s B H :
  alloc_inv s B H -> wp destroy_allocator s (fun _ s' => nodes (m_freeSpaceSizeMap s') = ∅).
Proof.
  intros [Hpt _ _ _ _]. pose proof (fw_view _ _ _ _ _ (pt_free _ _ _ _ _ _ _ _ Hpt)) as [(l & Hw & Hl) _ _ _ Hb _].
  unfold destroy_allocator. wp_step. apply wp_in_free. eapply wp_mono; [apply (ot_first _ _ _ Hw) |]. intros r t [-> ->].
  replace (s <| m_freeSpaceSizeMap := m_freeSpaceSizeMap s |>) with s by (by destruct s). wp_step. apply wp_gets.
  wp_step. eapply wp_mono; [eapply free_all_ok; [exact Hw | | exact Hb | by eapply wf_fuel] |].
  { intros x. rewrite Hl. set_solver. }
  intros [] s' [H0 Hn]. wp_step. apply wp_gets. rewrite H0. by apply wp_ret.
Qed.

(** ** Finding a handle by an address inside *)

Lemma tracker_find_ok s B H a :
  alloc_inv s B H -> m_tracker s = true ->
  wp (tracker_find a) s (fun r s' => s' = s /\
    ((exists h, H !! r = Some h /\ in_block (hblk h) a) \/ (r = 0 /\ ~ owns (HB H) a))).
Proof.
  intros Hinv Ht. pose proof Hinv as [Hpt _ Hk Hd _].
  pose proof (pt_hands _ _ _ _ _ _ _ _ Hpt) as [(l & Hw & Hl) _ _]. rewrite Ht in Hl.
  assert (forall q, q ∈ l -> exists h, H !! q = Some h /\ keyof H q = h_start h /\ truthy q = true /\
    0 < h_sizeInBytes h /\ endAsInteger h = h_start h + h_sizeInBytes h) as Hel.
  { intros q Hq. destruct (ot_elem _ _ _ _ Hw Hq) as [[h Hh] Hqa]. exists h. unfold keyof. rewrite Hh.
    destruct (block_bounds lg lp ltac:(lia) _ (Hk q _ (HB_lookup _ _ _ Hh))) as (H1 & H2 & H3 & H4). simpl in *.
    unfold b_end in *. simpl in *. split_and!; [done | done | by apply addr_truthy | done |].
    unfold endAsInteger. apply u64_id. lia. }
  unfold tracker_find. wp_step. apply wp_in_tracker. eapply wp_mono; [apply (ot_greatest _ _ _ a Hw) |].
  intros r t [-> Hr]. replace (s <| m_allocations := m_allocations s |>) with s by (by destruct s).
  assert (forall q h, H !! q = Some h -> q ∈ l) as Hin by (intros q h Hq; apply Hl; rewrite Hq; set_solver).
  destruct Hr as [[Hr Hka] | (l1 & l2 & -> & -> & H1 & H2)].
  { destruct (Hel r Hr) as (h & Hh & Hkh & Htr & Hsz & He). rewrite Htr. wp_step. eapply p_get_handle; [exact Hpt | exact Hh |].
    rewrite (proj2 (Z.ltb_lt _ _)) by lia. apply wp_ret. split; [done |]. left. exists h. split; [done |].
    unfold in_block, b_end. simpl. lia. }
  rewrite Forall_forall in H1, H2.
  assert (forall q h, H !! q = Some h -> in_block (hblk h) a -> q ∈ l1) as Hcand.
  { intros q h Hq Ha. pose proof (Hin q h Hq) as [? | Hq2]%elem_of_app; [done |]. apply H2 in Hq2.
    unfold keyof in Hq2. rewrite Hq in Hq2. unfold in_block in Ha. simpl in *. unfold node_key, MetaAllocatorHandle_key in Hq2. lia. }
  destruct l1 as [| x l1 _] using rev_ind.
  { change (truthy (lastz [])) with false. apply wp_ret. split; [done |]. right. split; [done |].
    intros (q & b & Hq & Ha). rewrite lookup_fmap in Hq. destruct (H !! q) as [h |] eqn:Hh; [| done]. injection Hq as <-.
    by apply (Hcand q h), elem_of_nil in Ha. }
  rewrite lastz_snoc. destruct (Hel x ltac:(set_solver)) as (h & Hh & Hkh & Htr & Hsz & He). rewrite Htr.
  wp_step. eapply p_get_handle; [exact Hpt | exact Hh |]. specialize (H1 x ltac:(set_solver)) as Hxa. rewrite Hkh in Hxa.
  destruct (Z.ltb_spec a (endAsInteger h)) as [Hlt | Hge]; apply wp_ret; (split; [done |]).
  { left. exists h. split; [done |]. unfold in_block, b_end. simpl. lia. }
  right. split; [done |]. intros (q & b & Hq & Ha). rewrite lookup_fmap in Hq.
  destruct (H !! q) as [h' |] eqn:Hh'; [| done]. injection Hq as <-. pose proof (Hcand q h' Hh' Ha) as [Hq1 | Hq1]%elem_of_app.
  - pose proof (ot_sorted _ _ _ Hw) as Hs. apply sorting.StronglySorted_app_1_l in Hs.
    pose proof (sorting.StronglySorted_app_1_elem_of _ _ _ q x Hs Hq1 ltac:(set_solver)) as Hqx. simpl in Hqx.
    destruct (Hel q ltac:(set_solver)) as (h2 & Hh2 & Hk2 & _). simplify_eq. rewrite Hkh, Hk2 in Hqx.
    assert (q = x) as ->.
    { apply (Hd q x (hblk h') (hblk h) (h_start h)); [by apply HB_lookup | by apply HB_lookup | |];
        unfold in_block, b_end in *; simpl in *; lia. }
    simplify_eq. unfold in_block, b_end in *. simpl in *. lia.
  - apply list_elem_of_singleton in Hq1 as ->. simplify_eq. unfold in_block, b_end in *. simpl in *. lia.
Qed.

End alloc.
