(* ===== verification/AllocProps.v ===== *)
(** * The allocator of executable memory: properties

    The states the allocator can reach when its users keep their side, and what
    holds in all of them. *)

From stdpp Require Import base numbers list gmap.
From S2P Require Import Prelude RBTree RBRepr RBInsert RBRemove RBFind TreeLaws MetaAllocator MetaLayout MetaFree MetaPages MetaProof.

#[local] Open Scope Z_scope.

(** ** Operations of the users *)

Inductive alloc_op :=
  | OpAllocate (e : external) (n owner : Z)
  | OpRelease (e : external) (h : Z)
  | OpShrink (e : external) (h n : Z)
  | OpFresh (e : external) (start size : Z)
  | OpTrack.

Definition run_op (o : alloc_op) : M alloc_fault MetaAllocator Z :=
  match o with
  | OpAllocate e n owner => allocate e n owner
  | OpRelease e h => destroy_handle e h;; mret 0
  | OpShrink e h n => shrink e h n;; mret 0
  | OpFresh e start size => addFreshFreeSpace e start size;; mret 0
  | OpTrack => trackAllocations;; mret 0
  end.

(** The free blocks, the handles and their blocks. *)
Definition free_blocks (s : MetaAllocator) : gmap Z block :=
  (fun v => (m_start v, m_sizeInBytes v)) <$> objects (m_freeSpaceSizeMap s).
Definition handles (s : MetaAllocator) : gmap Z MetaAllocatorHandle := objects (m_allocations s).
Definition used (s : MetaAllocator) : gmap Z block := hblk <$> handles s.

Section reach.
Context (lg lp : Z).

(** The users' side: handles are in use when they are released or shrunk, and
    shrunk to at least a byte; space is new, in whole pages when it is asked
    for; requests are no larger than the address space; memory for nodes is
    not in use; tracking starts before the first allocation. *)
Definition op_pre (s : MetaAllocator) (o : alloc_op) : Prop :=
  match o with
  | OpAllocate e n _ =>
      fresh (free_blocks s) (handles s) e /\ new_space_ok lg lp (free_blocks s) (handles s) e /\
      0 <= n /\ n + 2 ^ lg + 2 ^ lp < 2 ^ 64
  | OpRelease e h => fresh_node (free_blocks s) e /\ is_Some (handles s !! h)
  | OpShrink e h n => fresh_node (free_blocks s) e /\ exists hv, handles s !! h = Some hv /\ 0 < n <= h_sizeInBytes hv
  | OpFresh e start size => fresh_node (free_blocks s) e /\ new_region lg lp (free_blocks s) (handles s) (start, size)
  | OpTrack => handles s = ∅
  end.

(** The address space an operation brings in. *)
Definition regions_of (s : MetaAllocator) (o : alloc_op) : list block :=
  match o with
  | OpAllocate e n _ =>
      if n =? 0 then []
      else if decide (map_Forall (fun _ b => b.2 < round_up lg n) (free_blocks s)) then
        let '(start, np) := allocateNewSpace e (pages_for lp (round_up lg n)) in
        if start =? 0 then [] else [(start, np * 2 ^ lp)]
      else []
  | OpFresh _ start size => [(start, size)]
  | _ => []
  end.

(** The states with the address space they were given. *)
Inductive reach : MetaAllocator -> list block -> Prop :=
  | reach_new s : new_allocator (2 ^ lg) (2 ^ lp) = Ok s -> reach s []
  | reach_op s R o r s' : reach s R -> op_pre s o -> run_op o s = Ok (r, s') -> reach s' (regions_of s o ++ R).

(** What holds in every state. *)
Record good (s : MetaAllocator) (R : list block) : Prop := mk_good {
  gd_inv : alloc_inv (wfF := rb_wf) (wfH := rb_wf) lg lp s (free_blocks s) (handles s);
  gd_owns a : owns (free_blocks s) a \/ owns (used s) a <-> in_regions R a;
  gd_sum : bsum (free_blocks s) + bsum (used s) = rsum R
}.

Hypothesis Hlg : 0 <= lg.
Hypothesis Hlp : lg <= lp.
Hypothesis H32 : lp < 32.

Lemma inv_state s B H : alloc_inv (wfF := rb_wf) (wfH := rb_wf) lg lp s B H -> free_blocks s = B /\ handles s = H.
Proof.
  intros [[[[(l & Hw & _) _ _ _ _ _] _ _ _] [(l' & Hw' & _) _ _] _ _ _ _] _ _ _ _]. unfold free_blocks, handles.
  rewrite (ot_objects _ _ _ Hw), (ot_objects _ _ _ Hw'). split; [| done].
  rewrite <- map_fmap_compose. etrans; [| apply map_fmap_id]. apply map_fmap_ext. intros p [b1 b2] _. done.
Qed.

Lemma in_regions_app R R' a : in_regions (R ++ R') a <-> in_regions R a \/ in_regions R' a.
Proof. apply Exists_app. Qed.

Lemma rsum_app R R' : rsum (R ++ R') = rsum R + rsum R'.
Proof. induction R as [| b R IH]; simpl; [done |]. lia. Qed.

Lemma in_regions_one b a : in_regions [b] a <-> in_block b a.
Proof. unfold in_regions. rewrite Exists_cons, Exists_nil. tauto. Qed.

(** The next state is good if its free blocks and handles account for the same
    bytes and those of the new regions. *)
Lemma good_intro s R s' B' H' R' :
  good s R -> alloc_inv (wfF := rb_wf) (wfH := rb_wf) lg lp s' B' H' ->
  (forall a, owns B' a \/ owns (hblk <$> H') a <->
     (owns (free_blocks s) a \/ owns (used s) a) \/ in_regions R' a) ->
  bsum B' + bsum (hblk <$> H') = bsum (free_blocks s) + bsum (used s) + rsum R' -> good s' (R' ++ R).
Proof.
  intros [_ Ho Hs] Hinv Ho' Hs'. destruct (inv_state _ _ _ Hinv) as [E1 E2]. split; unfold used; rewrite E1, E2.
  - done.
  - intros a. rewrite Ho', Ho, in_regions_app. tauto.
  - rewrite Hs', Hs, rsum_app. lia.
Qed.

Lemma comes_from_regions s e n owner b rs :
  n <> 0 -> comes_from lp (free_blocks s) e (round_up lg n) b rs -> regions_of s (OpAllocate e n owner) = rs.
Proof.
  intros Hn Hc. simpl. rewrite (proj2 (Z.eqb_neq n 0)) by done. destruct Hc as [b Hb | b np Hno He Hs Hsz].
  - rewrite decide_False; [done |]. intros Hall. destruct Hb as (p & b0 & Hp & Hle & _). apply Hall in Hp. lia.
  - rewrite decide_True by (intros p b0; apply Hno). rewrite He. by rewrite (proj2 (Z.eqb_neq _ _)).
Qed.

Lemma no_fit_regions s e n owner :
  n = 0 \/ (no_fit (free_blocks s) (round_up lg n) /\ (allocateNewSpace e (pages_for lp (round_up lg n))).1 = 0) ->
  regions_of s (OpAllocate e n owner) = [].
Proof.
  intros [-> | [Hno Hz]]; [done |]. simpl. destruct (n =? 0); [done |]. rewrite decide_True by (intros p b; apply Hno).
  destruct (allocateNewSpace e _) as [start np]. simpl in Hz. by rewrite Hz.
Qed.

(** Adding the free block [k]: the bytes of [k] came from [H] or are new. *)
Lemma good_freed s R s' B' H' R' k :
  good s R -> alloc_inv (wfF := rb_wf) (wfH := rb_wf) lg lp s' B' H' -> freed lg lp (free_blocks s) k B' ->
  (forall a, in_block k a \/ owns (hblk <$> H') a <-> owns (used s) a \/ in_regions R' a) ->
  k.2 + bsum (hblk <$> H') = bsum (used s) + rsum R' -> good s' (R' ++ R).
Proof.
  intros Hg Hinv [_ Ho Hs] Ho' Hs'. eapply good_intro; [exact Hg | exact Hinv | | lia].
  intros a. rewrite Ho. specialize (Ho' a). tauto.
Qed.

Lemma allocate_good s R e n owner :
  good s R -> op_pre s (OpAllocate e n owner) ->
  wp (allocate e n owner) s (fun _ s' => good s' (regions_of s (OpAllocate e n owner) ++ R)).
Proof.
  intros Hg (Hf & Hn & H1 & H2). pose proof (gd_inv _ _ Hg) as Hinv.
  eapply wp_mono; [by apply (allocate_ok lg lp Hlg Hlp e s _ _ n owner Hinv) |].
  intros r s' [(-> & -> & Hno) | (-> & B' & b & rs & Hinv' & Hsz & Hfrom & Ho & Hs)].
  - by rewrite no_fit_regions.
  - assert (n <> 0) as Hn0.
    { intros ->. pose proof (ai_blocks _ _ _ _ _ Hinv' (ext_handle e) b) as Hb.
      rewrite fmap_insert in Hb. specialize (Hb ltac:(rewrite lookup_insert_eq; by destruct b)).
      pose proof (bk_size _ _ _ Hb) as Hpos. rewrite Hsz in Hpos. unfold round_up in Hpos.
      pose proof (Z.pow_pos_nonneg 2 lg). rewrite Z.div_small in Hpos by lia. lia. }
    rewrite (comes_from_regions s e n owner b rs) by done.
    assert (used s !! ext_handle e = None) as Hnone by (unfold used; by rewrite lookup_fmap, (fh_handle _ _ _ Hf)).
    eapply good_intro; [exact Hg | exact Hinv' | |]; rewrite fmap_insert; fold (used s); change (hblk (mk_handle b.1 b.2 owner)) with (b.1, b.2).
    + intros a. rewrite owns_insert by done. specialize (Ho a). destruct b as [b1 b2]. simpl in *. tauto.
    + rewrite bsum_insert by done. simpl. lia.
Qed.

Lemma release_good s R e h :
  good s R -> op_pre s (OpRelease e h) -> wp (destroy_handle e h) s (fun _ s' => good s' R).
Proof.
  intros Hg (Hf & hv & Hh). pose proof (gd_inv _ _ Hg) as Hinv.
  eapply wp_mono; [by apply (destroy_handle_ok lg lp Hlg Hlp e s _ _ h hv Hinv) |]. intros _ s' (B' & Hinv' & Hfr).
  pose proof (HB_lookup _ _ _ Hh) as Hb. fold (used s) in Hb.
  apply (good_freed s R s' B' (delete h (handles s)) [] (hblk hv)); [done | done | done | |]; rewrite fmap_delete; fold (used s).
  - intros a. rewrite (owns_delete _ _ (hblk hv)) by (done || apply Hinv). unfold in_regions. rewrite Exists_nil.
    assert (in_block (hblk hv) a -> owns (used s) a) by (intros; by exists h, (hblk hv)).
    assert (in_block (hblk hv) a \/ ~ in_block (hblk hv) a) by (unfold in_block; lia). tauto.
  - rewrite (bsum_delete _ _ (hblk hv)) by done. simpl. lia.
Qed.

Lemma shrink_good s R e h n :
  good s R -> op_pre s (OpShrink e h n) -> wp (shrink e h n) s (fun _ s' => good s' R).
Proof.
  intros Hg (Hf & hv & Hh & Hn). pose proof (gd_inv _ _ Hg) as Hinv. pose proof (HB_lookup _ _ _ Hh) as Hb. fold (used s) in Hb.
  eapply wp_mono; [by apply (shrink_ok lg lp Hlg Hlp e s _ _ h hv n Hinv) |].
  intros _ s' [(_ & ->) | (Hlt & B' & Hinv' & Hfr)]; [done |]. pose proof (round_up_pos lg n Hlg ltac:(lia)) as Hpos.
  apply (good_freed s R s' B' (<[h := shrunk lg hv n]> (handles s)) [] (cut_off lg hv n)); [done | done | done | |];
    rewrite fmap_insert; fold (used s).
  - intros a. rewrite <- insert_delete_eq, owns_insert by apply lookup_delete_eq.
    rewrite (owns_delete _ _ (hblk hv)) by (done || apply Hinv). unfold in_regions. rewrite Exists_nil.
    assert (in_block (hblk hv) a -> owns (used s) a) by (intros; by exists h, (hblk hv)).
    assert (in_block (hblk hv) a <-> in_block (cut_off lg hv n) a \/ in_block (hblk (shrunk lg hv n)) a) as Hsp.
    { unfold in_block, b_end. simpl. lia. }
    assert (in_block (hblk hv) a \/ ~ in_block (hblk hv) a) by (unfold in_block; lia). tauto.
  - rewrite (bsum_update _ _ (hblk hv)) by done. simpl. lia.
Qed.

Lemma fresh_good s R e start size :
  good s R -> op_pre s (OpFresh e start size) ->
  wp (addFreshFreeSpace e start size) s (fun _ s' => good s' ([(start, size)] ++ R)).
Proof.
  intros Hg (Hf & Hn). pose proof (gd_inv _ _ Hg) as Hinv.
  eapply wp_mono; [by apply (addFreshFreeSpace_ok lg lp Hlg Hlp e s _ _ (start, size) Hinv) |]. intros _ s' (B' & Hinv' & Hfr).
  apply (good_freed s R s' B' (handles s) [(start, size)] (start, size)); [done | done | done | |]; fold (used s).
  - intros a. rewrite in_regions_one. tauto.
  - simpl. lia.
Qed.

Lemma track_good s R : good s R -> op_pre s OpTrack -> wp trackAllocations s (fun _ s' => good s' R).
Proof.
  intros Hg He. pose proof (gd_inv _ _ Hg) as Hinv. simpl in He. rewrite He in Hinv.
  eapply wp_mono; [by apply (trackAllocations_ok lg lp s _ Hinv) |]. intros _ s' [Hinv' _].
  apply (good_intro s R s' (free_blocks s) ∅ []); [done | done | |]; unfold used; rewrite He.
  - intros a. unfold in_regions. rewrite Exists_nil. tauto.
  - simpl. lia.
Qed.

Lemma op_good s R o : good s R -> op_pre s o -> wp (run_op o) s (fun _ s' => good s' (regions_of s o ++ R)).
Proof.
  intros Hg Hpre. destruct o as [e n owner | e h | e h n | e start size |]; [by apply allocate_good | ..];
    unfold run_op; wp_step; (eapply wp_mono; [| intros u s' Hs'; apply wp_ret; exact Hs']).
  - by apply release_good.
  - by apply shrink_good.
  - by apply fresh_good.
  - by apply track_good.
Qed.

Lemma reach_good s R : reach s R -> good s R.
Proof.
  induction 1 as [s Hs | s R o r s' _ IH Hpre Hrun].
  - destruct (new_allocator_ok (wfF := rb_wf) (wfH := rb_wf) lg lp Hlg Hlp H32) as (s' & Hs' & Hinv). rewrite Hs in Hs'. injection Hs' as <-.
    destruct (inv_state _ _ _ Hinv) as [E1 E2]. split; unfold used; rewrite E1, E2; [done | |].
    + intros a. rewrite fmap_empty. unfold in_regions. rewrite Exists_nil.
      split; [intros [(p & b & ? & _) | (p & b & ? & _)]; done | done].
    + by rewrite fmap_empty, bsum_empty.
  - pose proof (op_good s R o IH Hpre) as Hw. unfold wp in Hw. by rewrite Hrun in Hw.
Qed.

(** [C36] In every state the allocator can reach, the blocks of the handles are
    whole granules inside the address space it was given, no two of them
    overlap, the free blocks are the rest of that space, disjoint and merged
    as far as they go, and every next operation that keeps to the users' side
    runs to its end: no assertion fails, no map is asked for a reserved key, no
    tree loses a node, no loop runs on. *)
Theorem allocator_safe s R :
  reach s R ->
  blocks_ok lg lp (used s) /\ disj (used s) /\ free_ok lg lp (free_blocks s) /\
  (forall a, owns (free_blocks s) a -> ~ owns (used s) a) /\
  (forall a, owns (free_blocks s) a \/ owns (used s) a <-> in_regions R a) /\
  forall o, op_pre s o -> exists r s', run_op o s = Ok (r, s').
Proof.
  intros Hr. pose proof (reach_good s R Hr) as Hg. pose proof Hg as [Hinv Ho _]. pose proof Hinv as [Hpt _ Hk Hd Hx].
  split_and!; [done | done | apply Hpt | done | done |]. intros o Hpre.
  destruct (wp_inv _ _ _ (op_good s R o Hg Hpre)) as (r & s' & Hrun & _). eauto.
Qed.

Lemma good_bounds s R :
  good s R -> 0 <= bsum (free_blocks s) /\ 0 <= bsum (used s) /\ rsum R < 2 ^ 64.
Proof.
  intros [Hinv _ Hs]. pose proof Hinv as [Hpt _ Hk Hd Hx]. pose proof (fw_ok _ _ _ _ _ (pt_free _ _ _ _ _ _ _ _ _ _ Hpt)) as [Fk Fd _].
  destruct (bsum_two_bound (free_blocks s) (used s) (2 ^ 64 - 1)) as (H1 & H2 & H3); [done | done | done | lia | | | lia].
  - intros p b Hp. destruct (block_bounds lg lp ltac:(lia) b (Fk _ _ Hp)). lia.
  - intros p b Hp. destruct (block_bounds lg lp ltac:(lia) b (Hk _ _ Hp)). lia.
Qed.

(** [C37] In every reachable state the counters are exact: [bytesAllocated] is
    what the handles have, [bytesReserved] the size of the address space given
    to the allocator (neither wraps around, and the first is at most the
    second, as [memoryPressureMultiplier] asserts), [debugFreeSpaceSize] is
    their difference, and the destructor gives back every node it has
    allocated, so that its assertion on their number holds. *)
Theorem allocator_accounts s R :
  reach s R ->
  m_bytesAllocated s = bsum (used s) /\ m_bytesReserved s = rsum R /\ m_bytesAllocated s <= m_bytesReserved s /\
  wp debugFreeSpaceSize s (fun r s' => s' = s /\ r = m_bytesReserved s - m_bytesAllocated s) /\
  wp destroy_allocator s (fun _ s' => nodes (m_freeSpaceSizeMap s') = ∅).
Proof.
  intros Hg%reach_good. pose proof (good_bounds s R Hg) as (H1 & H2 & H3). pose proof Hg as [Hinv _ Hs].
  pose proof (ai_parts _ _ _ _ _ Hinv) as Hpt. pose proof (pt_allocated _ _ _ _ _ _ _ _ _ _ Hpt) as Ha.
  pose proof (pt_reserved _ _ _ _ _ _ _ _ _ _ Hpt) as Hr. fold (used s) in Ha, Hr.
  rewrite u64_id in Ha by lia. rewrite u64_id in Hr by lia. rewrite Ha, Hr. split_and!; [done | done | lia | |].
  - eapply wp_mono; [apply (debugFreeSpaceSize_ok lg lp Hlg Hlp s _ _ Hinv) |]. intros r s' [-> ->]. split; [done |].
    rewrite u64_id by lia. lia.
  - apply (destroy_allocator_ok lg lp Hlg Hlp s _ _ Hinv).
Qed.

(** [C38] In every reachable state the notifications so far have committed each
    page once and given it back only when it was committed; the pages left
    committed are exactly those a handle's block touches, and [bytesCommitted]
    is their size. *)
Theorem allocator_pages s R :
  reach s R ->
  exists X, replay (pages s) = Some X /\
    (forall a, a ∈ X <-> exists pg h b, used s !! h = Some b /\ covers lp b pg = true /\ a = pg * 2 ^ lp) /\
    m_bytesCommitted s = 2 ^ lp * Z.of_nat (size X).
Proof.
  intros Hg%reach_good. pose proof (gd_inv _ _ Hg) as Hinv. pose proof Hinv as [Hpt _ Hk _ _].
  pose proof (pt_pages _ _ _ _ _ _ _ _ _ _ Hpt) as [_ _ _ Ho Hc (X & HX & HXs & Ht) _]. fold (used s) in Hk, Ht, Ho.
  assert (forall pg, 0 < cnt lp (used s) pg <-> exists h b, used s !! h = Some b /\ covers lp b pg = true) as Hcov.
  { intros pg. split; [apply cnt_pos_inv | intros (h & b & Hh & Hb); by eapply cnt_pos]. }
  exists X. split_and!; [done | |].
  - intros a. rewrite Ht. setoid_rewrite Hcov. naive_solver.
  - rewrite Hc, HXs. apply u64_id. pose proof (Z.pow_pos_nonneg 2 lp) as Hpp.
    assert (Z.of_nat (size (m_pageOccupancyMap s)) < Z.max 1 (2 ^ (64 - lp))) as Hs.
    { apply size_bound. intros pg [n Hn]. apply Ho in Hn as [<- Hn]. apply Hcov in Hn as (h & b & Hh & Hb).
      destruct (block_bounds lg lp ltac:(lia) b (Hk _ _ Hh)) as (B1 & B2 & B3 & B4).
      destruct (covered_pages lp ltac:(lia) b) as (_ & _ & Hpg); [apply (Hk _ _ Hh) | done | done |].
      destruct (Hpg pg Hb) as [P1 P2]. split; [done |]. apply (Z.mul_lt_mono_pos_r (2 ^ lp)); [lia |].
      rewrite <- Z.pow_add_r by lia. replace (64 - lp + lp) with 64 by lia. lia. }
    assert (2 ^ 64 = 2 ^ lp * 2 ^ (64 - lp)) as E64 by (rewrite <- Z.pow_add_r by lia; f_equal; lia).
    pose proof (Z.pow_pos_nonneg 2 (64 - lp)). simpl (2 ^ 64) in E64. nia.
Qed.

(** [C39] An allocation of [n] bytes gives a handle of [n] rounded up to granules,
    best fit: it is taken from one end of a free block than which none that is
    large enough is smaller.  Only when no free block is large enough it is put
    at the start of new pages; only when there are none it fails, and then the
    allocator is as it was. *)
Theorem allocate_best_fit s R e n owner :
  reach s R -> op_pre s (OpAllocate e n owner) ->
  wp (allocate e n owner) s (fun r s' =>
    (r = 0 /\ s' = s /\
     (n = 0 \/ (no_fit (free_blocks s) (round_up lg n) /\ (allocateNewSpace e (pages_for lp (round_up lg n))).1 = 0))) \/
    (r = ext_handle e /\ exists b rs,
       handles s' = <[r := mk_handle b.1 (round_up lg n) owner]> (handles s) /\
       comes_from lp (free_blocks s) e (round_up lg n) b rs)).
Proof.
  intros Hg%reach_good (Hf & Hn & H1 & H2).
  eapply wp_mono; [by apply (allocate_ok lg lp Hlg Hlp e s _ _ n owner (gd_inv _ _ Hg)) |].
  intros r s' [? | (-> & B' & b & rs & Hinv & Hsz & Hfrom & _)]; [by left | right]. split; [done |]. exists b, rs.
  split; [| done]. destruct (inv_state _ _ _ Hinv) as [_ ->]. by rewrite Hsz.
Qed.

(** [C40] In a pool of one region the space comes back as one block: whatever was
    allocated, shrunk and released before, once no handle is left every request
    up to the size of the whole region is served, inside the region. *)
Theorem pool_recovers s c e n owner :
  reach s [c] -> handles s = ∅ -> op_pre s (OpAllocate e n owner) -> 0 < n <= c.2 ->
  wp (allocate e n owner) s (fun r s' => r = ext_handle e /\ exists start,
    handles s' !! r = Some (mk_handle start (round_up lg n) owner) /\
    c.1 <= start /\ start + round_up lg n <= b_end c).
Proof.
  intros Hr%reach_good He Hpre Hn. pose proof Hr as [Hinv Ho _].
  pose proof (fw_ok _ _ _ _ _ (pt_free _ _ _ _ _ _ _ _ _ _ (ai_parts _ _ _ _ _ Hinv))) as Fok.
  destruct (single_block lg lp (free_blocks s) c Fok) as [p Hp]; [lia | |].
  { intros a. specialize (Ho a). rewrite in_regions_one in Ho. rewrite <- Ho. unfold used. rewrite He, fmap_empty.
    split; [by left |]. intros [? | (q & b & ? & _)]; done. }
  pose proof (fo_blocks _ _ _ Fok _ _ Hp) as [K1 K2 K3 K4 K5].
  pose proof (round_up_le lg n c.2 Hlg ltac:(lia) K5) as Hle. destruct Hpre as (Hf & Hnew & H1 & H2).
  eapply wp_mono; [by apply (allocate_ok lg lp Hlg Hlp e s _ _ n owner Hinv) |].
  intros r s' [(_ & _ & [-> | [Hno _]]) | (-> & B' & b & rs & Hinv' & Hsz & Hfrom & _)]; [lia | apply Hno in Hp; lia |].
  split; [done |]. exists b.1. destruct (inv_state _ _ _ Hinv') as [_ ->]. rewrite lookup_insert_eq, Hsz.
  assert (in_block c b.1 /\ b.1 + round_up lg n <= b_end c) as [Hin Hend]; [| split_and!; [done | apply Hin | done]].
  pose proof (round_up_pos lg n Hlg ltac:(lia)) as Hpos.
  destruct Hfrom as [b (q & b0 & Hq & Hfit & _ & _ & Hend) | b np Hno _ _ _]; [| apply Hno in Hp; lia].
  assert (in_block c b0.1 /\ b_end b0 <= b_end c) as [H3 H4].
  { destruct (decide (p = q)) as [<- | Hpq]; [| exfalso].
    { pose proof (eq_trans (eq_sym Hq) Hp) as E. injection E as ->. unfold in_block, b_end. lia. }
    pose proof (free_ok_others _ _ _ _ _ _ _ Fok Hp Hq Hpq) as Hoth.
    assert (owns (free_blocks s) b0.1) as Hob by (exists q, b0; unfold in_block, b_end; split; [done | lia]).
    specialize (Ho b0.1). rewrite in_regions_one in Ho. unfold in_block, b_end in *. simpl in *. naive_solver lia. }
  unfold in_block, b_end in *. lia.
Qed.

(** With a tracker, [MetaAllocatorTracker::find] returns the handle whose
    block the address is in, and null exactly when there is none. *)
Theorem tracker_finds s R a :
  reach s R -> m_tracker s = true ->
  wp (tracker_find a) s (fun r s' => s' = s /\
    ((exists h, handles s !! r = Some h /\ in_block (hblk h) a) \/ (r = 0 /\ ~ owns (used s) a))).
Proof. intros Hg%reach_good Ht. by apply (tracker_find_ok lg lp Hlg Hlp s _ _ a (gd_inv _ _ Hg)). Qed.

End reach.

(** ** A concrete pool

    Four pages at 0x100000, granules of 32 bytes: tracking is switched on, the
    region is added, a handle of 5000 bytes is allocated and released again. *)

Definition after (o : alloc_op) (s : MetaAllocator) : MetaAllocator :=
  match run_op o s with Ok (_, s') => s' | Err _ => s end.

Definition pool0 : MetaAllocator :=
  match new_allocator (2 ^ 5) (2 ^ 12) with
  | Ok s => s
  | Err _ => mk_allocator 0 0 0 0 empty_tree ∅ ∅ ∅ 0 0 0 false 0 empty_tree []
  end.
Definition add_pool : alloc_op := OpFresh (fixed_external 16 0) 1048576 16384.
Definition ask (node handle n : Z) : alloc_op := OpAllocate (fixed_external node handle) n 7.

Definition pool1 : MetaAllocator := Eval vm_compute in after OpTrack pool0.
Definition pool2 : MetaAllocator := Eval vm_compute in after add_pool pool1.
Definition pool3 : MetaAllocator := Eval vm_compute in after (ask 32 64 5000) pool2.
Definition pool4 : MetaAllocator := Eval vm_compute in after (OpRelease (fixed_external 48 0) 64) pool3.

Lemma fixed_new_space lg lp B H node handle : new_space_ok lg lp B H (fixed_external node handle).
Proof. intros k start np [= <- <-] Hs. done. Qed.

Lemma ask_pre s node handle n :
  free_blocks s !! node = None -> handles s !! handle = None -> addr_ok node -> addr_ok handle ->
  handle < 2 ^ 64 -> 0 <= n < 2 ^ 32 -> op_pre 5 12 s (ask node handle n).
Proof. intros H1 H2 H3 H4 H5 H6. split_and!; [done | apply fixed_new_space | lia | simpl; lia]. Qed.

Lemma pool2_reach : reach 5 12 pool2 [(1048576, 16384)].
Proof.
  apply (reach_op 5 12 pool1 [] add_pool 0 pool2); [| | by vm_compute].
  - apply (reach_op 5 12 pool0 [] OpTrack 0 pool1); [by apply reach_new | by vm_compute | by vm_compute].
  - split; [by vm_compute |]. assert (free_blocks pool1 = ∅) as E1 by (by vm_compute).
    assert (handles pool1 = ∅) as E2 by (by vm_compute). rewrite E1, E2. split.
    + split; simpl; [lia | lia | unfold b_end; simpl; lia | by exists 32768 | by exists 512].
    + intros a _. rewrite fmap_empty. split; by intros (p & b & ? & _).
Qed.

Lemma pool2_pre : op_pre 5 12 pool2 (ask 32 64 5000).
Proof. apply ask_pre; [by vm_compute | by vm_compute | by split | by split | lia | lia]. Qed.

Lemma pool3_reach : reach 5 12 pool3 [(1048576, 16384)].
Proof. apply (reach_op 5 12 pool2 _ (ask 32 64 5000) 64 pool3 pool2_reach pool2_pre). by vm_compute. Qed.

Lemma pool4_reach : reach 5 12 pool4 [(1048576, 16384)].
Proof.
  apply (reach_op 5 12 pool3 _ (OpRelease (fixed_external 48 0) 64) 0 pool4 pool3_reach); [| by vm_compute].
  split; [by vm_compute | vm_compute; by eexists].
Qed.

Lemma allocator_safe_witness :
  reach 5 12 pool3 [(1048576, 16384)] /\ disj (used pool3) /\ owns (free_blocks pool3) 1060000 /\
  exists r s', run_op (ask 32 80 64) pool3 = Ok (r, s').
Proof.
  split; [exact pool3_reach |].
  destruct (allocator_safe 5 12 ltac:(lia) ltac:(lia) ltac:(lia) pool3 _ pool3_reach) as (_ & Hd & _ & _ & _ & Hop).
  split; [exact Hd |]. split; [exists 16, (1053600, 11360); by vm_compute |].
  apply Hop. apply ask_pre; [by vm_compute | by vm_compute | by split | by split | lia | lia].
Defined.

Lemma allocator_accounts_witness :
  reach 5 12 pool3 [(1048576, 16384)] /\ m_bytesAllocated pool3 = 5024 /\
  wp debugFreeSpaceSize pool3 (fun r s' => s' = pool3 /\ r = 16384 - 5024).
Proof.
  split; [exact pool3_reach |].
  destruct (allocator_accounts 5 12 ltac:(lia) ltac:(lia) ltac:(lia) pool3 _ pool3_reach) as (_ & _ & _ & Hd & _).
  split; [by vm_compute | exact Hd].
Defined.

Lemma allocator_pages_witness :
  reach 5 12 pool3 [(1048576, 16384)] /\
  exists X, replay (pages pool3) = Some X /\ m_bytesCommitted pool3 = 2 ^ 12 * Z.of_nat (size X) /\ m_bytesCommitted pool3 = 8192.
Proof.
  split; [exact pool3_reach |].
  destruct (allocator_pages 5 12 ltac:(lia) ltac:(lia) ltac:(lia) pool3 _ pool3_reach) as (X & HX & _ & Hs).
  exists X. split_and!; [exact HX | exact Hs | by vm_compute].
Defined.

Lemma allocate_best_fit_witness :
  reach 5 12 pool2 [(1048576, 16384)] /\ op_pre 5 12 pool2 (ask 32 64 5000) /\
  wp (allocate (fixed_external 32 64) 5000 7) pool2 (fun r s' =>
    (r = 0 /\ s' = pool2 /\ (5000 = 0 \/ (no_fit (free_blocks pool2) (round_up 5 5000) /\
       (allocateNewSpace (fixed_external 32 64) (pages_for 12 (round_up 5 5000))).1 = 0))) \/
    (r = 64 /\ exists b rs, handles s' = <[r := mk_handle b.1 (round_up 5 5000) 7]> (handles pool2) /\
       comes_from 12 (free_blocks pool2) (fixed_external 32 64) (round_up 5 5000) b rs)).
Proof.
  split; [exact pool2_reach |]. split; [exact pool2_pre |].
  exact (allocate_best_fit 5 12 ltac:(lia) ltac:(lia) ltac:(lia) pool2 _ _ _ _ pool2_reach pool2_pre).
Defined.

Lemma pool_recovers_witness :
  reach 5 12 pool4 [(1048576, 16384)] /\ handles pool4 = ∅ /\
  wp (allocate (fixed_external 32 64) 16384 7) pool4 (fun r s' => r = 64 /\ exists start,
    handles s' !! r = Some (mk_handle start (round_up 5 16384) 7) /\ 1048576 <= start /\
    start + round_up 5 16384 <= b_end (1048576, 16384)).
Proof.
  split; [exact pool4_reach |]. split; [by vm_compute |].
  apply (pool_recovers 5 12 ltac:(lia) ltac:(lia) ltac:(lia) pool4 (1048576, 16384) (fixed_external 32 64) 16384 7 pool4_reach);
    [by vm_compute | | simpl; lia].
  apply ask_pre; [by vm_compute | by vm_compute | by split | by split | lia | lia].
Defined.

Lemma tracker_finds_witness :
  reach 5 12 pool3 [(1048576, 16384)] /\ m_tracker pool3 = true /\
  wp (tracker_find 1050000) pool3 (fun r s' => s' = pool3 /\
    ((exists h, handles pool3 !! r = Some h /\ in_block (hblk h) 1050000) \/ (r = 0 /\ ~ owns (used pool3) 1050000))).
Proof.
  split; [exact pool3_reach |]. split; [by vm_compute |].
  apply (tracker_finds 5 12 ltac:(lia) ltac:(lia) ltac:(lia) pool3 _ 1050000 pool3_reach). by vm_compute.
Defined.

(** ** Two corners outside the users' side *)

(** Shrinking a handle to nothing gives back its bytes but keeps the page of its
    start occupied, unless the start is aligned to a page; releasing it then
    skips the pages: the page stays committed when no handle is left. *)
Example shrink_to_nothing_keeps_page :
  match (a ← allocate (fixed_external 32 64) 100 7; b ← allocate (fixed_external 48 80) 100 7;
         destroy_handle (fixed_external 96 0) a;; shrink (fixed_external 112 0) b 0;;
         destroy_handle (fixed_external 128 0) b) pool2 with
  | Ok (_, s) => m_bytesAllocated s = 0 /\ m_bytesCommitted s = 4096 /\ m_pageOccupancyMap s = {[256 := 1]}
  | Err _ => False
  end.
Proof. by vm_compute. Qed.

(** The number of pages of a request at the end of the address space wraps to
    zero, and the space that is asked for is not checked but in the assertion. *)
Example huge_request_asks_for_no_page :
  allocate (mk_external 32 64 (fun n => (if n =? 0 then 2097152 else 0, n))) (2 ^ 64 - 64) 7 pool2 = Err Meta_assert.
Proof. by vm_compute. Qed.
